(* ===== verification/_CoqProject ===== *)
-Q . S2P
Prelude.v
GoStrings.v
NetAddr.v
Url.v
GoText.v
Base64.v
Utf8.v
Json.v
Codec.v
Supervisor.v
Guardian.v
DnsCache.v
TransportCache.v
Tunnels.v
ReplayBody.v
SystemProxy.v
Pac.v
PacUtils.v
Wproxy.v
ProxyRuntime.v
Socks.v
Access.v
UpstreamAuth.v
Update.v
Staging.v
ClientAuth.v
Resolver.v
Config.v
Intermediary.v
AuthSession.v
Connect.v
Forward.v
Routes.v
Handlers.v
Diagnostics.v
Bootstrap.v
Keyring.v
Program.v
Handoff.v
Kerberos.v
Background.v
Artifact.v
WinProxy.v
Server.v
