(* ===== verification/Prelude.v ===== *)
(** * pxgo: a verification development

    pxgo (sources under [src/]) is a local HTTP proxy: applications connect to it, it
    chooses an upstream proxy for each target (or a direct connection), authenticates
    to that proxy, and forwards.  This library models the parts of the program that
    decide something, and proves what makes those decisions right.

    ** How the program fits together

    The options come from an ini file, a dotenv file, the environment and the command
    line ([internal/config]).  A guardian process ([internal/guardian]) starts a worker,
    reads its READY and BEAT lines, and restarts it with a backoff.  The worker runs the
    proxy server ([internal/proxy]): it decides who may use it and verifies their
    credentials, routes each URL ([internal/wproxy], with [internal/pac] and
    [internal/systemproxy] as sources, [internal/dnsresolver] and [internal/dnscache]
    for names), lets the supervisor ([internal/supervisor]) order the candidates by
    health, dials (HTTP CONNECT or SOCKS), authenticates, and relays.  Apart from that
    the program updates itself ([internal/update]).

    ** Files

    - [Prelude.v]: results, folds that fail, 64-bit arithmetic, times and durations,
      the generic lemmas and tactics shared by the components.
    - [GoStrings.v], [NetAddr.v], [Url.v], [GoText.v], [Base64.v], [Utf8.v], [Json.v],
      [Codec.v]: the functions of Go's standard library the sources call ([strings],
      [strconv], [net], [net/netip], [net/url], [path], [bufio], [encoding/base64],
      [unicode/utf8], [encoding/json]), as far as they use them.  [Json.v] writes and
      scans values, [Codec.v] says what is done with the types of records.
    - [Supervisor.v] (Module [Sup], [internal/supervisor]): the record [t] is the
      [Supervisor] struct; every method that takes the lock is a function on [t].  An
      owner action is started by [Trigger] and its goroutine ends in two steps,
      [runActionDelete] then [runActionDone].
    - [Guardian.v] (Module [Grd], [internal/guardian]): the line protocol on strings,
      [Watchdog], [Backoff], the select loops of [RunWorker] and [monitorReadyWorker]
      as folds over their events, and [RunParent] over the generations.
    - [DnsCache.v] (Module [Dns], [internal/dnscache]): [LookupContext] split at its
      lock regions into [probe], [enter], [await], [complete].
    - [Resolver.v] (Module [Rv], [internal/dnsresolver/resolver.go]): the policy made
      from the configured text, the exchanges with its endpoints, the checks of a
      response, the rules, [DialContext].  The network is the environment [Env]; a look
      up returns the questions it asked.
    - [TransportCache.v] (Module [Tc], [internal/proxy/transport_cache.go]): the call of
      the factory happens outside the lock, so [getOrCreate] is two steps.
    - [Tunnels.v] (Module [Tun], [tunnel.go], [admission.go], [relay.go]): the registry
      and its zero channel, the slot semaphore, one relay direction.
    - [ReplayBody.v] (Module [Rb], [body.go]): bodies kept for retries, in memory or in
      a spool file; the [world] is the spool budget and the directory.
    - [SystemProxy.v] (Module [Sys]) and [Pac.v] (Module [Pc]): parsing of proxy
      settings, PAC results, PAC source decoding, the load state machine.
    - [Wproxy.v] (Module [Wp], [internal/wproxy]): proxy lists, bypass rules, environment
      variables, the choice of mode, the candidates of a URL.
    - [ProxyRuntime.v] (Module [Prt], [supervisor_runtime.go], [connect.go]): ordering by
      the supervisor through the class [CandidateOrdering], which [Supervisor.v]
      implements, blame, and the CONNECT fallback.
    - [Socks.v] (Module [Socks], [transport.go]): the SOCKS dialogues on bytes.
    - [Access.v] (Module [Acc], [proxy.go], [auth_client.go]): gateway policy, allowed
      clients, client authentication per connection, [ServeHTTP]'s dispatch; whether one
      request's credentials verify is an input here.
    - [ClientAuth.v] (Module [Ca], [auth_client.go]): that verification, for Basic, Digest
      and NTLM: the nonces, the table of counts already used, the challenge kept per
      connection, the headers of a 407.  The table is shared by connections, so it is
      also a step relation on its single loads, stores and deletions ([stepSeen]).
    - [UpstreamAuth.v] (Module [Ua], [auth_upstream.go], [auth_mechanism*.go]): schemes and
      challenges, the header that answers a 407, SPNEGO framing.
    - [Update.v] (Module [Upd], [update.go], [policy.go]): versions and their order, the
      check of releases, checksum files, URLs, and who owns an executable.
    - [Staging.v] (Module [Stg], [staging.go], [apply_unix.go], [apply_windows.go],
      [service.go]): download, verification and extraction of a candidate, the
      replacement of the executable with the trace of the directory's states, and the
      service that runs them under a lock.
    - [Config.v] (Module [Cf], [internal/config/config.go]): options, their parsing from
      each source, [ParseArgs], [SaveINI] and [ReadINI].  A field is a key, so that one
      record of functions stands for the struct.
    - [Intermediary.v] (Module [Im], [intermediary.go], [newOutboundRequest]): what is
      taken off and put on the headers of requests, responses and upgrades.
    - [AuthSession.v] (Module [Ses], [authsession.go], [kerberos_session.go],
      [sspi_windows.go]): the class [AuthSession] with its laws, and the SSPI and
      Kerberos sessions as instances.  [Connect.v] and [Forward.v] are proved against
      the class.
    - [Connect.v] (Module [Cn], [connect.go]): one CONNECT exchange with its challenges,
      as the list of effects of [attempt] on the answers of the proxy.
    - [Forward.v] (Module [Fw], [proxy.go], [auth_upstream.go]): a plain request through
      its candidates and the retry after a 407, as the list of effects on an environment
      of answers; locks, transports, sessions and responses are accounted for.
    - [Routes.v] (Module [Rt], [proxy.go], [doh_bootstrap.go]): the main routing table
      and the one of the DoH bootstrap, replaced by reloads beside look ups, DoH dials
      and the shutdown; the dialer that keeps a bootstrap proxy from being the server
      itself.
    - [Handlers.v] (Module [Hd], [connect.go], [intermediary.go], [proxy.go]): what the
      handlers of CONNECT, upgrades and plain requests do, as lists of effects, and
      those effects on the registry of [Tunnels.v].
    - [Diagnostics.v] (Module [Dg], [internal/diagnostic], [internal/debug]): redaction,
      the ring of events, the rotation of fatal snapshots and of the log.
    - [Bootstrap.v] (Module [Bs], [bootstrap.go], [persistence.go],
      [config_bootstrap.go]): the file of a first run, the upgrade of an older one, the
      import of the system proxy, and the files they write, with the trace of the
      directory's states.
    - [Keyring.v] (Module [Kr], [config.go]): the stored passwords, in a JSON file or in
      the keyring of the system, and what the next start loads of them.
    - [Handoff.v] (Module [Ho], [update/state.go], [apply_windows.go]): the state of the
      last update and the orders of the Windows helper as JSON, from the program that
      writes them to the one that reads them.
    - [Program.v] (Module [Pg], [main.go], [nofile.go], [update/state.go]): what a command
      line does, the loop that keeps a guardian and looks for updates, and the small
      tools.
    - [Background.v] (Module [Bg], [internal/background], [cmd/pxgow]): the launch in the
      background and its handshake, the command registered for logon and the rules by
      which Windows splits it, the arguments the tray program passes on.
    - [Kerberos.v] (Module [Krb], [internal/kerberos]): the ticket manager as a machine of
      checks, answers and the passing of time; the expiry in the output of klist; the
      conversation with kinit and the cache file.
    - [PacUtils.v] (Module [Pu], [internal/pac/pac.go]): the JavaScript functions every PAC
      script is given (as the source text there defines them), the reading of a script,
      the timer that interrupts an evaluation.
    - [WinProxy.v] (Module [Wi], [systemproxy_windows.go]): the calls of a WinHTTP look up
      as an interaction with the system, its callback with several look ups at a time,
      and the settings the discovery makes of what it finds.
    - [Server.v] (Module [Sv], [proxy.go]): budgets and timeouts, [New] with all its ways
      to fail, [Start], [Shutdown] and the maintenance loop.
    - [Artifact.v] (Module [Art], [scripts/verify-release-artifact.go]): the checksum, the
      extraction of an archive, the icon resources, the order of the checks.

    ** Conventions

    A component whose methods may run in any interleaving is a transition function
    [step] on its state and an event type; [run step] folds a history, and an invariant
    is a property of [run step start evs] for every [evs].  What a lock makes atomic is
    one event.  Errors are [result] or [option] values with the source's own kinds.
    Integers are [Z]: 64-bit counters wrap with [u64], times and durations are
    nanoseconds (64-bit signed for a duration, saturating in [subT] as in Go), ports and
    addresses carry their bounds.  Times are Go wall-clock readings given with each
    event; where a theorem needs them in range its hypothesis says so.
    Loops that Go writes without a structural measure take fuel; the theorems show the
    fuel given is enough: [protocol_roundtrip] for the read loop, whose fuel is the
    length of the stream plus one; [alias_loop_ends] for the aliases of a DNS response,
    with the number of answers plus one; [calendar_is_exact] for the months of a
    JavaScript date, with the days divided by 28 plus two; [next_id] for the
    search of an unused callback id, which ends at the first try.  Maps are [gmap] and sets [gset].
    Where Go iterates over a map in an order of its own, the model takes one order (the
    eviction of [DnsCache.v] breaks ties by key, that of [Supervisor.v] by sequence), or
    the source sorts the keys first, as [applyMap] and [applyEnv] do.

    Code outside the repository is a parameter: the JavaScript runtime of PAC, the
    platform resolver, the NTLM, Kerberos, MD5, MD4 and HMAC libraries, the parser of DNS
    messages, archive readers, the network, the file system's answers, the keyring, and
    the text forms of floating-point numbers and durations.

    ** What the theorems show

    Policy: [Order_preserves_policy], [direct_only_by_rule].  Access and credentials:
    [gateway_never_open], [served_only_authenticated], [digest_count_single_use],
    [credential_redacted].  The server: [construction_is_clean],
    [shutdown_stops_what_it_finds], [budgets_fit].  Kerberos: [password_attempts_spaced],
    [cache_does_not_outlive].  Forwarding: [request_headers_exact],
    [auth_retry_cleans_up], [connect_exchange_sound], [handlers_leave_no_tunnel].
    Routing tables: [routes_accounted], [reload_all_or_nothing].  The system proxy:
    [result_is_routed], [answers_are_their_own].  PAC scripts: [sh_exp_match_is_glob].
    Names: [dns_fail_closed], [response_is_checked], [alias_loop_ends].
    Configuration: [option_precedence], [ini_roundtrip], [parsed_wellformed],
    [import_is_exact], [config_write_atomic], [stored_password_is_found].  Updates and
    releases:
    [staged_is_verified], [executable_never_lost], [update_is_gated], [updates_in_order],
    [helper_tells_the_outcome], [extraction_is_contained].  Processes:
    [worker_parent_compatible], [startup_command_roundtrip].  Resources:
    [transports_never_leak], [tunnel_shutdown_drains], [replay_budget_conserved].  These
    carry claim ids in their files.

    Further theorems stand beside them.  Supervisor and guardian:
    [health_table_bounded], [fatal_requires_burst], [epoch_requires_correlated_burst],
    [actions_single_flight], [close_drains], [protocol_roundtrip],
    [accept_authenticates], [control_env_roundtrip], [generation_disposition],
    [watchdog_sound], [watchdog_complete], [restart_schedule].  Names:
    [cache_hits_are_fresh], [stale_generation_not_stored], [lookups_coalesce],
    [failover_in_order], [domain_match_by_labels], [doh_never_dials_listener].  Routing
    and PAC: [normalize_result_spec], [pac_decoding_roundtrip], [pac_retry_spaced],
    [in_net_compares_prefix], [weekdays_wrap], [hours_wrap], [calendar_is_exact],
    [pac_source_is_whole], [no_interrupt_outlives], [proxy_list_spec],
    [proxy_list_roundtrip], [glob_membership], [bypass_by_labels],
    [construction_is_complete], [runtime_order_is_faithful], [blame_is_exact],
    [fallback_uses_first_working], [lookup_releases_everything], [sessions_are_closed],
    [discovered_settings].  Connections: [socks_request_decodes], [socks_dial_exact],
    [relay_idle_expiry], [replay_body_faithful], [tunnel_keeps_early_bytes],
    [response_headers_exact], [upgrade_headers_exact], [handler_settles],
    [forward_settles], [listens_on_all_or_none].  Credentials: [spnego_roundtrip],
    [basic_only_by_policy], [digest_nonce_window], [ntlm_answers_own_challenge],
    [checks_resume], [expiry_is_read], [principal_host].  Updates and releases:
    [versions_by_precedence], [check_offers_newest], [provider_respects_owner],
    [handoff_is_exact], [update_state_is_kept], [icon_parsers_never_panic],
    [icon_roundtrip], [group_is_permutation], [release_accepted].  Configuration and
    program: [fresh_file_is_exact], [upgrade_preserves], [no_configuration_lost], [run_does_one_thing],
    [quit_confirmed], [nofile_only_raises], [initial_delay_bounded],
    [handshake_roundtrip], [only_its_guardian_is_believed], [companion_is_windowless].
    Diagnostics: [ring_keeps_newest], [snapshot_rotation], [log_stays_bounded].

    ** Findings

    [TransportCache.Tc.order_grows_without_bound]: a removed key stays in the eviction
    order.  [Wproxy.Wp.glob_overmatch]: a glob with a star before an octet bypasses more
    than it says, the condition [trailing] of [glob_membership].
    [Access.Acc.open_gateway]: an allow list separated by semicolons escapes the check
    for open networks.  [Update.Upd.huge_identifiers]: numeric identifiers beyond 64 bits
    are not ordered, the condition [fits] of [versions_by_precedence].
    [Staging.Stg.misreported_activation]: an installed update is reported as failed when
    its backup cannot be removed.  [ClientAuth.Ca.nonce_count_restarts]: the count sent
    upstream under one nonce starts again.  [Config.Cf.file_url_twice]: the path of a
    file URL is unescaped twice.  [Connect.Cn.connect_skips_first_count]: the first
    Digest count sent for a tunnel is the second.
    [Forward.Fw.kerberos_body_is_not_replayed]: a request with a body never gets through
    a Kerberos proxy that stands alone.  [Routes.Rt.doh_guard_misses_bound_port]: with
    port 0 the guards of the DoH bootstrap compare with the wrong port.
    [Routes.Rt.doh_dial_stalls_lookups]: a DoH dial under way holds up a reload and with
    it every look up.  [Diagnostics.Dg.redaction_drops_path]: the redaction of a query
    deletes the path as well.  [Program.Pg.quit_is_undone]: a proxy that is told to quit
    while an update is being prepared is updated and started again.
    [Kerberos.Krb.short_ticket_never_rests]: a ticket of less than ten minutes is renewed
    at every check.  [Background.Bg.long_reason_is_lost]: the reason of a failed launch is
    lost when it is long.  [PacUtils.Pu.january_to_february]: a range of months runs into
    the month after it.  [PacUtils.Pu.ipv6_counts_as_zero]: an IPv6 address counts as
    0.0.0.0.  [Server.Sv.tiny_timeout_is_none]: a positive timeout below a nanosecond
    means none.  [Server.Sv.tooEarly]: a shutdown before the server is published stops
    nothing.  [Keyring.Kr.null_keyring_panics]: a keyring file that holds null.
    [Keyring.Kr.latin1_is_not_found]: a password that is not UTF-8 is stored as another.
    [Handoff.Ho.restart_failure_is_misreported]: an installed update is reported as
    failed when only its start fails.

    ** Not modelled

    What is left is code that calls the system and decides little: the construction of
    HTTP transports and dialers with their TLS settings, process creation and control,
    the window of the Windows tray program, the system calls behind SSPI, the keyring,
    WinHTTP and the pseudo terminal of kinit (their answers are arguments), the counters
    read for a diagnostic snapshot, and the self test and smoke tests that drive a
    program from outside.  The JavaScript engine, the NTLM and Kerberos libraries, TLS
    and the readers of archives and PE files are not part of the repository. *)

From stdpp Require Export prelude gmap strings list sorting.
From Stdlib Require Export Lia ZArith.

#[global] Open Scope Z_scope.

Abbreviation bfilter := List.filter.

(** ** Results: a Go pair [(value, err)] with exactly one side meaningful *)

Inductive result (E A : Type) : Type :=
| Ok (a : A)
| Err (e : E).
Arguments Ok {E A} a.
Arguments Err {E A} e.

#[global] Instance result_ret {E} : MRet (result E) := fun _ a => Ok a.
#[global] Instance result_bind {E} : MBind (result E) := fun A B k m =>
  match m with Ok a => k a | Err e => Err e end.
#[global] Instance result_fmap {E} : FMap (result E) := fun A B k m =>
  match m with Ok a => Ok (k a) | Err e => Err e end.
#[global] Instance result_eq_dec `{EqDecision E, EqDecision A} : EqDecision (result E A).
Proof. solve_decision. Defined.

Definition is_ok {E A} (r : result E A) : bool :=
  match r with Ok _ => true | Err _ => false end.

(** A fold whose step may fail: Go's [for] loop with [return err]. *)
Fixpoint foldM {E S A} (f : S -> A -> result E S) (l : list A) (s : S) : result E S :=
  match l with
  | [] => Ok s
  | a :: l' => s' ← f s a; foldM f l' s'
  end.

(** ** Machine integers *)

(** The value an unsigned 64-bit register holds. *)
Definition u64 (z : Z) : Z := z mod 2 ^ 64.

(** Two's complement reading of the low 64 bits ([int], [int64], [time.Duration]). *)
Definition i64 (z : Z) : Z := (z + 2 ^ 63) mod 2 ^ 64 - 2 ^ 63.

Definition max_int64 : Z := 2 ^ 63 - 1.
Definition min_int64 : Z := - 2 ^ 63.
Definition max_uint64 : Z := 2 ^ 64 - 1.

(** ** Time

    A [time.Time] is the number of nanoseconds since the zero [time.Time], so
    the zero value is [0]; a [time.Duration] is a 64-bit number of nanoseconds
    and [Sub] saturates. *)
Definition Time := Z.
Definition Duration := Z.

Definition zeroTime : Time := 0.
Definition isZero (t : Time) : bool := t =? 0.
Definition before (t u : Time) : bool := t <? u.
Definition after (t u : Time) : bool := u <? t.
Definition addT (t : Time) (d : Duration) : Time := t + d.
Definition subT (t u : Time) : Duration :=
  Z.max min_int64 (Z.min max_int64 (t - u)).

Definition Nanosecond : Duration := 1.
Definition Millisecond : Duration := 1000000.
Definition Second : Duration := 1000000000.
Definition Minute : Duration := 60 * Second.
Definition Hour : Duration := 60 * Minute.

(** ** Runs of a deterministic machine over a list of inputs *)

Definition run {S I : Type} (step : S -> I -> S) (s : S) (ins : list I) : S :=
  fold_left step ins s.

(** ** Automation *)

Create HintDb go discriminated.

Ltac case_if :=
  match goal with
  | |- context [if ?b then _ else _] => let E := fresh "E" in destruct b eqn:E
  end.

Ltac case_if_in H :=
  match type of H with
  | context [if ?b then _ else _] => let E := fresh "E" in destruct b eqn:E
  end.

(** Split every conditional and match of the goal, solving what is absurd. *)
Ltac go_cases :=
  repeat (case_match; simplify_eq/=; try done).

(** Turn the boolean comparisons of the context into propositions. *)
Ltac to_prop :=
  repeat match goal with
  | H : (_ && _) = true |- _ => apply andb_true_iff in H as [? ?]
  | H : (_ && _) = false |- _ => apply andb_false_iff in H
  | H : (_ || _) = true |- _ => apply orb_true_iff in H
  | H : (_ || _) = false |- _ => apply orb_false_iff in H as [? ?]
  | H : negb _ = true |- _ => apply negb_true_iff in H
  | H : negb _ = false |- _ => apply negb_false_iff in H
  | H : (_ =? _)%Z = true |- _ => apply Z.eqb_eq in H
  | H : (_ =? _)%Z = false |- _ => apply Z.eqb_neq in H
  | H : (_ <? _)%Z = true |- _ => apply Z.ltb_lt in H
  | H : (_ <? _)%Z = false |- _ => apply Z.ltb_ge in H
  | H : (_ <=? _)%Z = true |- _ => apply Z.leb_le in H
  | H : (_ <=? _)%Z = false |- _ => apply Z.leb_gt in H
  | H : String.eqb _ _ = true |- _ => apply String.eqb_eq in H
  | H : String.eqb _ _ = false |- _ => apply String.eqb_neq in H
  | H : bool_decide _ = true |- _ => apply bool_decide_eq_true in H
  | H : bool_decide _ = false |- _ => apply bool_decide_eq_false in H
  end.

(** ** Generic lemmas *)

Lemma u64_small z : 0 <= z < 2 ^ 64 -> u64 z = z.
Proof. intros. unfold u64. by rewrite Z.mod_small. Qed.

Lemma u64_range z : 0 <= u64 z < 2 ^ 64.
Proof. apply Z.mod_pos_bound. lia. Qed.

Lemma i64_small z : min_int64 <= z <= max_int64 -> i64 z = z.
Proof.
  unfold min_int64, max_int64, i64. intros.
  rewrite Z.mod_small by lia. lia.
Qed.

Lemma i64_range z : min_int64 <= i64 z <= max_int64.
Proof.
  unfold min_int64, max_int64, i64.
  pose proof (Z.mod_pos_bound (z + 2 ^ 63) (2 ^ 64) ltac:(lia)). lia.
Qed.

Lemma subT_small t u :
  min_int64 <= t - u <= max_int64 -> subT t u = t - u.
Proof. unfold subT. lia. Qed.

(** Saturation never turns a difference below a representable bound around. *)
Lemma subT_gt t u d : min_int64 <= d < max_int64 -> d < subT t u <-> d < t - u.
Proof. unfold subT. lia. Qed.

Lemma subT_lt t u d : min_int64 < d <= max_int64 -> subT t u < d <-> t - u < d.
Proof. unfold subT. lia. Qed.

Lemma run_app {S I} (step : S -> I -> S) s ins ins2 :
  run step s (ins ++ ins2) = run step (run step s ins) ins2.
Proof. apply fold_left_app. Qed.

Lemma run_invariant {S I} (step : S -> I -> S) (P : S -> Prop) s ins :
  P s -> (forall s i, P s -> P (step s i)) -> P (run step s ins).
Proof.
  intros H0 Hstep. revert s H0.
  induction ins as [|i ins IH]; intros s H0; simpl; auto.
Qed.

Lemma foldM_app {E S A} (f : S -> A -> result E S) l1 l2 s :
  foldM f (l1 ++ l2) s = (s' ← foldM f l1 s; foldM f l2 s').
Proof.
  revert s. induction l1 as [|a l1 IH]; intros s; [done|]; simpl.
  destruct (f s a); simpl; [apply IH | done].
Qed.

Lemma foldM_invariant {E S A} (f : S -> A -> result E S) (P : S -> Prop) l s s' :
  P s -> (forall s a s', a ∈ l -> P s -> f s a = Ok s' -> P s') ->
  foldM f l s = Ok s' -> P s'.
Proof.
  revert s. induction l as [|a l IH]; intros s Hs Hf; simpl.
  - by intros [= <-].
  - destruct (f s a) as [s1|] eqn:E1; simpl; [|done]. intros H.
    eapply IH; [|intros; eapply Hf; [by apply list_elem_of_further|done|done]|done].
    eapply Hf; [apply list_elem_of_here|done|done].
Qed.

(** *** Lengths as Go's [int] *)

Definition zlen {A} (l : list A) : Z := Z.of_nat (length l).

Lemma zlen_app {A} (a b : list A) : zlen (a ++ b) = zlen a + zlen b.
Proof. unfold zlen. rewrite length_app. lia. Qed.

Lemma zlen_cons {A} (x : A) a : zlen (x :: a) = 1 + zlen a.
Proof. unfold zlen. cbn [length]. lia. Qed.

Lemma zlen_nonneg {A} (a : list A) : 0 <= zlen a.
Proof. unfold zlen. lia. Qed.

Lemma take_zlen {A} (a b : list A) : take (Z.to_nat (zlen a)) (a ++ b) = a.
Proof. unfold zlen. by rewrite Nat2Z.id, take_app_length. Qed.

Lemma drop_zlen {A} (a b : list A) : drop (Z.to_nat (zlen a)) (a ++ b) = b.
Proof. unfold zlen. by rewrite Nat2Z.id, drop_app_length. Qed.

(** *** Boolean filters *)

Lemma bfilter_ext {A} (p q : A -> bool) l :
  (forall x, p x = q x) -> bfilter p l = bfilter q l.
Proof. intros H. induction l as [|x l IH]; [done|]. simpl. by rewrite H, IH. Qed.

Lemma bfilter_bfilter {A} (p q : A -> bool) l :
  bfilter q (bfilter p l) = bfilter (fun x => p x && q x) l.
Proof.
  induction l as [|x l IH]; [done|]. simpl. destruct (p x); simpl; [|done].
  by rewrite IH.
Qed.

Lemma bfilter_split {A} (p : A -> bool) l :
  l ≡ₚ bfilter p l ++ bfilter (fun x => negb (p x)) l.
Proof.
  induction l as [|x l IH]; [done|]. simpl. destruct (p x); simpl.
  - by apply perm_skip.
  - rewrite <- Permutation_middle. by apply perm_skip.
Qed.

Lemma Forall_bfilter {A} (p : A -> bool) l : Forall (fun x => p x = true) (bfilter p l).
Proof. induction l as [|x l IH]; [done|]. simpl. destruct (p x) eqn:E; [by constructor|done]. Qed.

Lemma Forall_bfilter_sub {A} (P : A -> Prop) (p : A -> bool) l :
  Forall P l -> Forall P (bfilter p l).
Proof. induction 1 as [|x l Hx Hl IH]; [done|]. simpl. destruct (p x); [by constructor|done]. Qed.

Lemma bfilter_length_le {A} (p : A -> bool) l : (length (bfilter p l) <= length l)%nat.
Proof. induction l as [|x l IH]; simpl; [lia|]. destruct (p x); simpl; lia. Qed.

Lemma elem_of_bfilter {A} (p : A -> bool) l x : x ∈ bfilter p l <-> p x = true /\ x ∈ l.
Proof. by rewrite !list_elem_of_In, filter_In, (comm and). Qed.

Lemma bool_decide_iff (P Q : Prop) `{Decision P, Decision Q} :
  (P <-> Q) -> bool_decide P = bool_decide Q.
Proof. intros. by apply bool_decide_ext. Qed.

#[export] Hint Resolve u64_range i64_range : go.
