(* ===== verification/GoStrings.v ===== *)
(** * GoStrings: the parts of Go's [strings] and [strconv] the program uses

    A Go string is a [string] (a sequence of bytes).  Case folding and white
    space are the ASCII ones: on the ASCII inputs the program handles (header
    values, host names, configuration keys, protocol lines) they are exactly
    [strings.ToLower], [strings.EqualFold] and [strings.TrimSpace]. *)

From S2P Require Export Prelude.
From Stdlib Require Export Ascii.
From Stdlib Require String.
#[global] Arguments String.append !_ _ / : simpl nomatch.
#[global] Open Scope Z_scope.

(** ** Characters *)

Definition ord (c : ascii) : Z := Z.of_N (N_of_ascii c).
Definition chr (z : Z) : ascii := ascii_of_N (Z.to_N z).

Definition is_space (c : ascii) : bool :=
  (ord c =? 32) || ((9 <=? ord c) && (ord c <=? 13)).
Definition is_digit (c : ascii) : bool := (48 <=? ord c) && (ord c <=? 57).
Definition is_upper (c : ascii) : bool := (65 <=? ord c) && (ord c <=? 90).
Definition is_lower (c : ascii) : bool := (97 <=? ord c) && (ord c <=? 122).
Definition is_hex (c : ascii) : bool :=
  is_digit c || ((97 <=? ord c) && (ord c <=? 102)) || ((65 <=? ord c) && (ord c <=? 70)).
Definition lower_char (c : ascii) : ascii := if is_upper c then chr (ord c + 32) else c.
Definition upper_char (c : ascii) : ascii := if is_lower c then chr (ord c - 32) else c.

Definition in_chars (cs : string) (c : ascii) : bool :=
  existsb (Ascii.eqb c) (String.list_ascii_of_string cs).

(** ** Lengths, maps and membership *)

Fixpoint str_map (f : ascii -> ascii) (s : string) : string :=
  match s with "" => "" | String c t => String (f c) (str_map f t) end.

Fixpoint str_forall (p : ascii -> bool) (s : string) : bool :=
  match s with "" => true | String c t => p c && str_forall p t end.

Definition str_exists (p : ascii -> bool) (s : string) : bool :=
  negb (str_forall (fun c => negb (p c)) s).

Definition slen (s : string) : Z := Z.of_nat (String.length s).

Fixpoint str_drop (n : nat) (s : string) : string :=
  match n, s with
  | O, _ => s
  | S _, "" => ""
  | S n', String _ t => str_drop n' t
  end.

Fixpoint str_take (n : nat) (s : string) : string :=
  match n, s with
  | O, _ => ""
  | S _, "" => ""
  | S n', String c t => String c (str_take n' t)
  end.

Definition ToLower (s : string) : string := str_map lower_char s.
Definition ToUpper (s : string) : string := str_map upper_char s.
Definition EqualFold (a b : string) : bool := String.eqb (ToLower a) (ToLower b).
Definition ContainsAny (s chars : string) : bool := str_exists (in_chars chars) s.
Definition ContainsChar (s : string) (c : ascii) : bool := str_exists (Ascii.eqb c) s.

(** ** Prefixes and suffixes *)

Definition HasPrefix (s pre : string) : bool := String.prefix pre s.
Definition TrimPrefix (s pre : string) : string :=
  if HasPrefix s pre then str_drop (String.length pre) s else s.
Definition CutPrefix (s pre : string) : option string :=
  if HasPrefix s pre then Some (str_drop (String.length pre) s) else None.
Definition HasSuffix (s suf : string) : bool :=
  (slen suf <=? slen s) &&
  String.eqb (str_drop (String.length s - String.length suf) s) suf.
Definition TrimSuffix (s suf : string) : string :=
  if HasSuffix s suf then str_take (String.length s - String.length suf) s else s.

Fixpoint Contains (s sub : string) : bool :=
  HasPrefix s sub || match s with "" => false | String _ t => Contains t sub end.

(** ** Trimming *)

Fixpoint trim_left (p : ascii -> bool) (s : string) : string :=
  match s with
  | "" => ""
  | String c t => if p c then trim_left p t else s
  end.

Fixpoint trim_right (p : ascii -> bool) (s : string) : string :=
  match s with
  | "" => ""
  | String c t =>
      match trim_right p t with
      | "" => if p c then "" else String c ""
      | t' => String c t'
      end
  end.

Definition TrimSpace (s : string) : string := trim_right is_space (trim_left is_space s).
Definition Trim (s cutset : string) : string :=
  trim_right (in_chars cutset) (trim_left (in_chars cutset) s).
Definition TrimRight (s cutset : string) : string := trim_right (in_chars cutset) s.

(** ** Splitting and joining *)

(** [strings.Split] with a one-byte separator. *)
Fixpoint Split (s : string) (sep : ascii) : list string :=
  match s with
  | "" => [""]
  | String c t =>
      if Ascii.eqb c sep then "" :: Split t sep
      else match Split t sep with
           | w :: ws => String c w :: ws
           | [] => [String c ""]
           end
  end.

Fixpoint Join (ws : list string) (sep : string) : string :=
  match ws with
  | [] => ""
  | [w] => w
  | w :: ws' => w +:+ sep +:+ Join ws' sep
  end.

(** [strings.Cut] with a one-byte separator. *)
Fixpoint Cut (s : string) (sep : ascii) : option (string * string) :=
  match s with
  | "" => None
  | String c t =>
      if Ascii.eqb c sep then Some ("", t)
      else match Cut t sep with
           | Some (a, b) => Some (String c a, b)
           | None => None
           end
  end.

(** [before, after, _ := strings.Cut(s, sep)]: the whole string when absent. *)
Definition CutOr (s : string) (sep : ascii) : string * string :=
  default (s, "") (Cut s sep).

(** [strings.FieldsFunc]: maximal runs of characters outside [p]. *)
Fixpoint FieldsFunc (p : ascii -> bool) (s : string) : list string :=
  match s with
  | "" => []
  | String c t =>
      if p c then FieldsFunc p t
      else match t with
           | "" => [String c ""]
           | String c' _ =>
               if p c' then String c "" :: FieldsFunc p t
               else match FieldsFunc p t with
                    | w :: ws => String c w :: ws
                    | [] => [String c ""]
                    end
           end
  end.

Definition Fields (s : string) : list string := FieldsFunc is_space s.

(** [strings.Count] of a one-byte string. *)
Fixpoint CountChar (s : string) (c : ascii) : Z :=
  match s with
  | "" => 0
  | String d t => (if Ascii.eqb d c then 1 else 0) + CountChar t c
  end.

Definition ReplaceChar (s : string) (a b : ascii) : string :=
  str_map (fun c => if Ascii.eqb c a then b else c) s.

(** Byte-wise order: Go's [<] on strings. *)
Fixpoint str_ltb (a b : string) : bool :=
  match a, b with
  | "", "" => false
  | "", String _ _ => true
  | String _ _, "" => false
  | String x a', String y b' =>
      if ord x <? ord y then true
      else if ord y <? ord x then false else str_ltb a' b'
  end.

(** ** Decimal integers *)

Inductive num_error := ErrSyntax | ErrRange.
#[global] Instance num_error_eq_dec : EqDecision num_error.
Proof. solve_decision. Defined.

Definition digit_val (c : ascii) : Z := ord c - 48.
Definition digit_char (d : Z) : ascii := chr (d + 48).

Fixpoint digits_val (acc : Z) (s : string) : option Z :=
  match s with
  | "" => Some acc
  | String c t => if is_digit c then digits_val (acc * 10 + digit_val c) t else None
  end.

(** [strconv.ParseUint(s, 10, 64)]. *)
Definition ParseUint (s : string) : result num_error Z :=
  match s with
  | "" => Err ErrSyntax
  | _ => match digits_val 0 s with
         | None => Err ErrSyntax
         | Some v => if v <=? max_uint64 then Ok v else Err ErrRange
         end
  end.

(** The value [ParseUint] returns beside its error: [0], or the largest [uint64]
    when the number is out of range. *)
Definition ParseUintVal (s : string) : Z :=
  match ParseUint s with
  | Ok v => v
  | Err ErrSyntax => 0
  | Err ErrRange => max_uint64
  end.

(** [strconv.Atoi]. *)
Definition Atoi (s : string) : result num_error Z :=
  let signed (neg : bool) (t : string) : result num_error Z :=
    match t with
    | "" => Err ErrSyntax
    | _ => match digits_val 0 t with
           | None => Err ErrSyntax
           | Some v =>
               let v' := if neg then - v else v in
               if (min_int64 <=? v') && (v' <=? max_int64) then Ok v' else Err ErrRange
           end
    end in
  match s with
  | "" => Err ErrSyntax
  | String c t =>
      if Ascii.eqb c "-" then signed true t
      else if Ascii.eqb c "+" then signed false t
      else signed false s
  end.

Fixpoint format_fuel (fuel : nat) (n : Z) (acc : string) : string :=
  match fuel with
  | O => acc
  | S f => let acc' := String (digit_char (n mod 10)) acc in
           if n / 10 =? 0 then acc' else format_fuel f (n / 10) acc'
  end.

(** [strconv.FormatUint(n, 10)]; twenty digits hold every [uint64]. *)
Definition FormatUint (n : Z) : string := format_fuel 20 n "".
Definition Itoa (n : Z) : string :=
  if n <? 0 then "-" +:+ FormatUint (- n) else FormatUint n.

(** [sort.Strings] of keys that differ. *)
Fixpoint insertKey (k : string) (l : list string) : list string :=
  match l with [] => [k] | x :: l' => if str_ltb k x then k :: l else x :: insertKey k l' end.
Definition sortKeys (l : list string) : list string := fold_right insertKey [] l.

(** ** Lemmas: append, predicates over characters *)

Lemma app_nil_r_str s : s +:+ "" = s.
Proof. induction s as [|c s IH]; [done|]. by simpl; rewrite IH. Qed.

Lemma app_assoc_str a b c : a +:+ (b +:+ c) = (a +:+ b) +:+ c.
Proof. induction a as [|x a IH]; [done|]. by simpl; rewrite IH. Qed.

Lemma length_app_str a b :
  String.length (a +:+ b) = (String.length a + String.length b)%nat.
Proof. induction a as [|x a IH]; [done|]. by simpl; rewrite IH. Qed.

Lemma slen_app a b : slen (a +:+ b) = slen a + slen b.
Proof. unfold slen. rewrite length_app_str. lia. Qed.

Lemma slen_nonneg s : 0 <= slen s.
Proof. unfold slen. lia. Qed.

Lemma str_drop_app a b : str_drop (String.length a) (a +:+ b) = b.
Proof. induction a as [|x a IH]; [by destruct b|done]. Qed.

Lemma str_take_app a b : str_take (String.length a) (a +:+ b) = a.
Proof. induction a as [|x a IH]; [by destruct b|]. by simpl; rewrite IH. Qed.

Lemma str_take_drop n s : str_take n s +:+ str_drop n s = s.
Proof.
  revert s. induction n as [|n IH]; intros [|c s]; simpl; try done. by rewrite IH.
Qed.

Lemma str_forall_app p a b :
  str_forall p (a +:+ b) = str_forall p a && str_forall p b.
Proof. induction a as [|c a IH]; [done|]. simpl. by rewrite IH, andb_assoc. Qed.

Lemma str_forall_impl (p q : ascii -> bool) s :
  (forall c, p c = true -> q c = true) -> str_forall p s = true -> str_forall q s = true.
Proof.
  intros H. induction s as [|c s IH]; [done|]. simpl. intros [? ?]%andb_true_iff.
  rewrite H by done. by apply IH.
Qed.

Lemma has_prefix_app a b : HasPrefix (a +:+ b) a = true.
Proof.
  unfold HasPrefix. induction a as [|c a IH]; [by destruct b|]. simpl.
  by destruct (ascii_dec c c).
Qed.

Lemma has_prefix_inv s pre :
  HasPrefix s pre = true -> s = pre +:+ str_drop (String.length pre) s.
Proof.
  unfold HasPrefix. revert s. induction pre as [|c pre IH]; intros s; [by destruct s|].
  destruct s as [|d s]; simpl; [done|].
  destruct (ascii_dec c d) as [->|]; [|done]. intros H. by rewrite <- IH.
Qed.

Lemma trim_prefix_app a b : TrimPrefix (a +:+ b) a = b.
Proof. unfold TrimPrefix. by rewrite has_prefix_app, str_drop_app. Qed.

Lemma has_suffix_app a b : HasSuffix (a +:+ b) b = true.
Proof.
  unfold HasSuffix. rewrite slen_app.
  replace (slen b <=? slen a + slen b) with true
    by (symmetry; apply Z.leb_le; pose proof (slen_nonneg a); lia).
  rewrite length_app_str.
  replace (String.length a + String.length b - String.length b)%nat
    with (String.length a) by lia.
  by rewrite str_drop_app, String.eqb_refl.
Qed.

Lemma has_suffix_inv s suf :
  HasSuffix s suf = true ->
  s = str_take (String.length s - String.length suf) s +:+ suf.
Proof.
  unfold HasSuffix. intros H. to_prop.
  transitivity (str_take (String.length s - String.length suf) s +:+
                str_drop (String.length s - String.length suf) s);
    [by rewrite str_take_drop | by f_equal].
Qed.

(** ** Lemmas: character classes

    An implication between two classes is checked on the 256 characters. *)

Definition all_ascii : list ascii := map ascii_of_nat (seq 0 256).

Lemma ascii_forall (p : ascii -> bool) : forallb p all_ascii = true -> forall c, p c = true.
Proof.
  rewrite forallb_forall. intros H c. apply H. unfold all_ascii.
  rewrite <- (ascii_nat_embedding c). apply in_map, in_seq.
  pose proof (nat_ascii_bounded c). lia.
Qed.

Lemma class_impl (p q : ascii -> bool) s :
  forallb (fun c => implb (p c) (q c)) all_ascii = true ->
  str_forall p s = true -> str_forall q s = true.
Proof.
  intros H. apply str_forall_impl. intros c Hc. pose proof (ascii_forall _ H c) as Hi.
  simpl in Hi. by rewrite Hc in Hi.
Qed.

(** ** Lemmas: trimming *)

Lemma trim_left_id p c s : p c = false -> trim_left p (String c s) = String c s.
Proof. simpl. by intros ->. Qed.

Lemma trim_right_forall p s :
  str_forall (fun c => negb (p c)) s = true -> trim_right p s = s.
Proof.
  induction s as [|c s IH]; [done|]. simpl. intros [Hc Hs]%andb_true_iff.
  rewrite IH by done. apply negb_true_iff in Hc. destruct s; [by rewrite Hc|done].
Qed.

Lemma trim_left_forall p s :
  str_forall (fun c => negb (p c)) s = true -> trim_left p s = s.
Proof.
  destruct s as [|c s]; [done|]. simpl. intros [Hc _]%andb_true_iff.
  apply negb_true_iff in Hc. by rewrite Hc.
Qed.

Definition no_space (s : string) : bool := str_forall (fun c => negb (is_space c)) s.
#[global] Arguments no_space !_ /.

Lemma TrimSpace_no_space s : no_space s = true -> TrimSpace s = s.
Proof.
  intros H. unfold TrimSpace. rewrite trim_left_forall by done.
  by apply trim_right_forall.
Qed.

Lemma trim_right_app p s t :
  str_forall p t = true -> trim_right p (s +:+ t) = trim_right p s.
Proof.
  intros Ht. induction s as [|c s IH]; simpl.
  - induction t as [|d t IHt]; [done|]. simpl in *. apply andb_true_iff in Ht as [Hd Ht].
    rewrite IHt by done. by rewrite Hd.
  - by rewrite IH.
Qed.

Lemma trim_right_nil_iff p s : trim_right p s = "" <-> str_forall p s = true.
Proof.
  induction s as [|c s IH]; [done|]. simpl. destruct (trim_right p s) eqn:E.
  - destruct IH as [IH _]. specialize (IH eq_refl). rewrite IH, andb_true_r.
    by destruct (p c).
  - split; [done|]. intros [_ H]%andb_true_iff. by apply IH in H.
Qed.

Lemma str_forall_map p f s : str_forall p (str_map f s) = str_forall (fun c => p (f c)) s.
Proof. induction s as [|c s IH]; [done|]. cbn. by rewrite IH. Qed.

(** ** Lemmas: splitting *)

Lemma Split_nonnil s sep : Split s sep <> [].
Proof.
  destruct s as [|c s]; simpl; [done|]. case_if; [done|]. by destruct (Split s sep).
Qed.

Lemma Join_cons w ws sep :
  ws <> [] -> Join (w :: ws) sep = w +:+ sep +:+ Join ws sep.
Proof. by destruct ws. Qed.

Lemma Join_Split s sep : Join (Split s sep) (String sep "") = s.
Proof.
  induction s as [|c s IH]; [done|]. simpl.
  destruct (Ascii.eqb_spec c sep) as [->|].
  - rewrite Join_cons by apply Split_nonnil. simpl. by rewrite IH.
  - destruct (Split s sep) as [|w ws] eqn:E; [by destruct (Split_nonnil s sep)|].
    destruct ws; simpl in *; by rewrite IH.
Qed.

Definition no_char (sep : ascii) (s : string) : bool :=
  str_forall (fun c => negb (Ascii.eqb c sep)) s.
#[global] Arguments no_char _ !_ /.

Lemma Split_no_char s sep : no_char sep s = true -> Split s sep = [s].
Proof.
  induction s as [|c s IH]; [done|]. simpl. intros [Hc Hs]%andb_true_iff.
  apply negb_true_iff in Hc. by rewrite Hc, IH.
Qed.

Lemma Split_app s t sep :
  no_char sep s = true -> Split (s +:+ String sep t) sep = s :: Split t sep.
Proof.
  induction s as [|c s IH]; simpl; [by rewrite Ascii.eqb_refl|].
  intros [Hc Hs]%andb_true_iff. apply negb_true_iff in Hc. by rewrite Hc, IH.
Qed.

Lemma Split_app_sep a b sep : Split (a +:+ String sep b) sep = Split a sep ++ Split b sep.
Proof.
  induction a as [|c a IH]; simpl; [by rewrite Ascii.eqb_refl|].
  case_if; rewrite IH; [done|]. pose proof (Split_nonnil a sep). by destruct (Split a sep).
Qed.

Lemma Split_Join ws sep :
  ws <> [] -> Forall (fun w => no_char sep w = true) ws ->
  Split (Join ws (String sep "")) sep = ws.
Proof.
  intros Hne Hws. induction Hws as [|w ws Hw Hws IH]; [done|].
  destruct ws as [|w' ws']; [by apply Split_no_char|].
  rewrite Join_cons by done. cbn [String.append]. rewrite Split_app by done. by rewrite IH.
Qed.

Lemma Join_app k l sep : k <> [] -> l <> [] -> Join (k ++ l) sep = Join k sep +:+ sep +:+ Join l sep.
Proof.
  intros Hk Hl. induction k as [|w k IH]; [done|]. destruct k as [|w' k].
  - cbn [app]. by rewrite Join_cons by done.
  - cbn [app]. rewrite Join_cons by done. rewrite (Join_cons w (w' :: k)) by done.
    change (w' :: k ++ l) with ((w' :: k) ++ l). rewrite IH by done. by rewrite !app_assoc_str.
Qed.

Lemma Split_elem_no_char s sep w : w ∈ Split s sep -> no_char sep w = true.
Proof.
  revert w. induction s as [|c s IH]; intros w; simpl.
  - by intros ->%list_elem_of_singleton.
  - destruct (Ascii.eqb_spec c sep) as [->|Hne].
    + intros [->|H]%elem_of_cons; [done|by apply IH].
    + assert (Hc : Ascii.eqb c sep = false) by by apply Ascii.eqb_neq.
      destruct (Split s sep) as [|v vs] eqn:E.
      * intros ->%list_elem_of_singleton. simpl. by rewrite Hc.
      * intros [->|H]%elem_of_cons; simpl.
        -- rewrite Hc. simpl. apply IH. left.
        -- apply IH. by right.
Qed.

Lemma Cut_app a b sep : no_char sep a = true -> Cut (a +:+ String sep b) sep = Some (a, b).
Proof.
  induction a as [|c a IH]; simpl; [by rewrite Ascii.eqb_refl|].
  intros [Hc Ha]%andb_true_iff. apply negb_true_iff in Hc. by rewrite Hc, IH.
Qed.

Lemma Cut_inv s sep a b :
  Cut s sep = Some (a, b) -> s = a +:+ String sep b /\ no_char sep a = true.
Proof.
  revert a b. induction s as [|c s IH]; intros a b; simpl; [done|].
  destruct (Ascii.eqb_spec c sep) as [->|Hne]; [by intros [= <- <-]|].
  destruct (Cut s sep) as [[a' b']|]; [|done]. intros [= <- <-].
  destruct (IH a' b' eq_refl) as [-> Ha']. simpl.
  apply Ascii.eqb_neq in Hne. by rewrite Hne.
Qed.

Lemma Cut_Some s sep a b :
  Cut s sep = Some (a, b) <-> s = a +:+ String sep b /\ no_char sep a = true.
Proof. split; [apply Cut_inv|]. intros [-> ?]. by apply Cut_app. Qed.

Lemma Cut_None s sep : Cut s sep = None <-> no_char sep s = true.
Proof.
  induction s as [|c s IH]; [done|]. cbn.
  destruct (Ascii.eqb c sep); [done|]. cbn.
  destruct (Cut s sep) as [[??]|]; by rewrite <- IH.
Qed.

Lemma FieldsFunc_word p w :
  w <> "" -> str_forall (fun c => negb (p c)) w = true -> FieldsFunc p w = [w].
Proof.
  induction w as [|c w IH]; [done|]. intros _. simpl. intros [Hc Hw]%andb_true_iff.
  apply negb_true_iff in Hc. rewrite Hc. destruct w as [|d w]; [done|].
  simpl in Hw. apply andb_true_iff in Hw as Hw'. destruct Hw' as [Hd _].
  apply negb_true_iff in Hd. rewrite Hd. by rewrite IH.
Qed.

Lemma FieldsFunc_app p w c t :
  w <> "" -> str_forall (fun c => negb (p c)) w = true -> p c = true ->
  FieldsFunc p (w +:+ String c t) = w :: FieldsFunc p t.
Proof.
  intros Hne Hw Hp. induction w as [|d w IH]; [done|]. simpl in *.
  apply andb_true_iff in Hw as [Hd Hw]. apply negb_true_iff in Hd. rewrite Hd.
  destruct w as [|e w]; simpl in *; [by rewrite !Hp|].
  apply andb_true_iff in Hw as Hw'. destruct Hw' as [He _]. apply negb_true_iff in He.
  rewrite He in *. by rewrite IH.
Qed.

Lemma Fields_word w : w <> "" -> no_space w = true -> Fields w = [w].
Proof. apply FieldsFunc_word. Qed.

Lemma Fields_two v w :
  v <> "" -> w <> "" -> no_space v = true -> no_space w = true ->
  Fields (v +:+ " " +:+ w) = [v; w].
Proof.
  intros Hv Hw Hv' Hw'. unfold Fields. simpl. rewrite FieldsFunc_app by done.
  by rewrite FieldsFunc_word.
Qed.

(** ** Lemmas: decimal integers *)

Lemma digit_char_spec d :
  0 <= d < 10 -> is_digit (digit_char d) = true /\ digit_val (digit_char d) = d.
Proof.
  intros Hd.
  assert (d = 0 \/ d = 1 \/ d = 2 \/ d = 3 \/ d = 4 \/
          d = 5 \/ d = 6 \/ d = 7 \/ d = 8 \/ d = 9) as H by lia.
  by repeat (destruct H as [-> | H]); [..|subst].
Qed.

Lemma format_fuel_val fuel n acc :
  0 <= n < 10 ^ Z.of_nat fuel -> (0 < fuel)%nat ->
  digits_val 0 (format_fuel fuel n acc) = digits_val n acc.
Proof.
  revert n acc. induction fuel as [|f IH]; intros n acc Hn Hf; [lia|].
  pose proof (Z.mod_pos_bound n 10 ltac:(lia)) as Hm.
  destruct (digit_char_spec (n mod 10) Hm) as [Hd Hv].
  pose proof (Z.div_mod n 10 ltac:(lia)) as Hdm.
  cbn [format_fuel]. destruct (Z.eqb_spec (n / 10) 0) as [E|E].
  - cbn [digits_val]. rewrite Hd, Hv. f_equal. lia.
  - assert (0 < f)%nat.
    { destruct f; [|lia]. change (10 ^ Z.of_nat 1) with 10 in Hn.
      by rewrite Z.div_small in E. }
    assert (0 <= n / 10 < 10 ^ Z.of_nat f).
    { split; [apply Z.div_pos; lia|]. apply Z.div_lt_upper_bound; [lia|].
      rewrite Nat2Z.inj_succ, Z.pow_succ_r in Hn by lia. lia. }
    rewrite IH by done. cbn [digits_val]. rewrite Hd, Hv. f_equal. lia.
Qed.

Lemma format_fuel_forall (p : ascii -> bool) fuel n acc :
  (forall d, 0 <= d < 10 -> p (digit_char d) = true) ->
  str_forall p acc = true -> str_forall p (format_fuel fuel n acc) = true.
Proof.
  intros Hp. revert n acc. induction fuel as [|f IH]; intros n acc Hacc; [done|].
  cbn [format_fuel].
  assert (str_forall p (String (digit_char (n mod 10)) acc) = true).
  { simpl. rewrite Hp, Hacc by (apply Z.mod_pos_bound; lia). done. }
  case_if; auto.
Qed.

Lemma format_fuel_length fuel n acc :
  (String.length (format_fuel fuel n acc) <= fuel + String.length acc)%nat.
Proof.
  revert n acc. induction fuel as [|f IH]; intros n acc; cbn [format_fuel]; [lia|].
  case_if; simpl; [lia|]. etransitivity; [apply IH|]. simpl. lia.
Qed.

Lemma format_fuel_nonempty fuel n acc : (0 < fuel)%nat -> format_fuel fuel n acc <> "".
Proof.
  intros Hf. destruct fuel as [|f]; [lia|]. clear Hf.
  cbn [format_fuel]. case_if; [done|].
  generalize (n / 10), (digit_char (n mod 10)). clear.
  intros m d. revert m d acc. induction f as [|f IH]; intros m d acc; [done|].
  cbn [format_fuel]. case_if; [done|]. apply IH.
Qed.

Lemma FormatUint_nonempty n : FormatUint n <> "".
Proof. apply format_fuel_nonempty. lia. Qed.

Lemma FormatUint_length n : slen (FormatUint n) <= 20.
Proof.
  unfold slen, FormatUint. pose proof (format_fuel_length 20 n "") as H.
  change (String.length "") with 0%nat in H. lia.
Qed.

Lemma FormatUint_forall p n :
  (forall d, 0 <= d < 10 -> p (digit_char d) = true) -> str_forall p (FormatUint n) = true.
Proof. intros. by apply format_fuel_forall. Qed.

Lemma digit_char_cases (P : ascii -> Prop) d :
  0 <= d < 10 -> Forall P (String.list_ascii_of_string "0123456789") -> P (digit_char d).
Proof.
  intros Hd HP. assert (d ∈ seqZ 0 10) as Hin by (apply elem_of_seqZ; lia).
  revert HP. change (String.list_ascii_of_string "0123456789") with (digit_char <$> seqZ 0 10).
  rewrite Forall_fmap, Forall_forall. intros HP. by apply HP.
Qed.

Lemma FormatUint_no_space n : no_space (FormatUint n) = true.
Proof.
  apply FormatUint_forall. intros d Hd.
  apply (digit_char_cases (fun c => negb (is_space c) = true)); [done|].
  by repeat constructor.
Qed.

Lemma ParseUint_FormatUint n : 0 <= n <= max_uint64 -> ParseUint (FormatUint n) = Ok n.
Proof.
  intros Hn. unfold ParseUint. destruct (FormatUint n) eqn:E.
  - by destruct (FormatUint_nonempty n).
  - rewrite <- E. unfold FormatUint. rewrite format_fuel_val; [|unfold max_uint64 in *|lia].
    + simpl. by rewrite (proj2 (Z.leb_le _ _)) by lia.
    + change (10 ^ Z.of_nat 20) with 100000000000000000000. lia.
Qed.

Lemma ParseUint_range s v : ParseUint s = Ok v -> v <= max_uint64.
Proof.
  unfold ParseUint. destruct s; [done|]. destruct (digits_val _ _); [|done].
  case_if; [|done]. intros [= <-]. by to_prop.
Qed.

#[export] Hint Resolve slen_nonneg FormatUint_nonempty FormatUint_no_space : go.

(** *** The byte-wise order and the value of decimal digits *)

Lemma ord_inj c d : ord c = ord d -> c = d.
Proof.
  unfold ord. intros H. apply N2Z.inj in H.
  by rewrite <- (ascii_N_embedding c), <- (ascii_N_embedding d), H.
Qed.

Lemma str_ltb_irrefl s : str_ltb s s = false.
Proof. induction s as [|c s IH]; [done|]. simpl. by rewrite Z.ltb_irrefl, IH. Qed.

Lemma str_ltb_trans a b c : str_ltb a b = true -> str_ltb b c = true -> str_ltb a c = true.
Proof.
  revert b c. induction a as [|x a IH]; intros [|y b] [|z c]; simpl; try done.
  intros H1 H2. destruct (Z.ltb_spec (ord x) (ord y)), (Z.ltb_spec (ord y) (ord x)),
    (Z.ltb_spec (ord y) (ord z)), (Z.ltb_spec (ord z) (ord y)), (Z.ltb_spec (ord x) (ord z)),
    (Z.ltb_spec (ord z) (ord x)); try done; try lia. by eapply IH.
Qed.

Lemma str_ltb_total a b : str_ltb a b = false -> a <> b -> str_ltb b a = true.
Proof.
  revert b. induction a as [|x a IH]; intros [|y b]; simpl; try done.
  destruct (Z.ltb_spec (ord x) (ord y)); [done|]. destruct (Z.ltb_spec (ord y) (ord x)); [done|].
  intros H1 H2. apply IH; [done|]. assert (x = y) as -> by (apply ord_inj; lia). congruence.
Qed.

Lemma digit_val_range c : is_digit c = true -> 0 <= digit_val c <= 9.
Proof. unfold is_digit, digit_val. lia. Qed.

Lemma digit_val_inj c d : digit_val c = digit_val d -> c = d.
Proof. unfold digit_val. intros. apply ord_inj. lia. Qed.

Lemma digits_val_bounds s a v :
  0 <= a -> digits_val a s = Some v -> a * 10 ^ slen s <= v < (a + 1) * 10 ^ slen s.
Proof.
  revert a. induction s as [|c s IH]; simpl; intros a Ha H.
  - injection H as <-. change (slen "") with 0. lia.
  - destruct (is_digit c) eqn:E; [|done]. apply digit_val_range in E.
    apply IH in H; [|lia]. replace (slen (String c s)) with (slen s + 1) by (unfold slen; cbn [String.length]; lia).
    rewrite Z.pow_add_r by (unfold slen; lia). pose proof (Z.pow_pos_nonneg 10 (slen s)).
    unfold slen in *. nia.
Qed.

Lemma digits_val_inj s t a b v :
  0 <= a -> 0 <= b -> slen s = slen t -> digits_val a s = Some v -> digits_val b t = Some v -> a = b /\ s = t.
Proof.
  revert t a b. induction s as [|c s IH]; intros [|d t] a b Ha Hb Hl; simpl;
    try (unfold slen in Hl; simpl in Hl; lia); [naive_solver|].
  destruct (is_digit c) eqn:E1, (is_digit d) eqn:E2; try done.
  apply digit_val_range in E1, E2. intros H1 H2.
  destruct (IH t (a * 10 + digit_val c) (b * 10 + digit_val d)) as [H ->];
    [lia|lia|unfold slen in *; simpl in Hl; lia|done|done|].
  assert (digit_val c = digit_val d) as Hd by lia. apply digit_val_inj in Hd as ->. split; [lia|done].
Qed.

Lemma digits_val_digits s a : str_forall is_digit s = true -> is_Some (digits_val a s).
Proof. revert a. induction s as [|c s IH]; simpl; [eauto|]. intros a [-> H]%andb_true_iff. by apply IH. Qed.

Lemma str_take_all n s : slen s <= Z.of_nat n -> str_take n s = s.
Proof.
  unfold slen. revert s. induction n as [|n IH]; intros [|c s]; cbn [String.length]; intros; simpl; try done; try lia.
  rewrite IH by lia. done.
Qed.

Lemma str_take_length n s : Z.of_nat n <= slen s -> slen (str_take n s) = Z.of_nat n.
Proof.
  unfold slen. revert s. induction n as [|n IH]; intros [|c s]; cbn [String.length str_take]; intros; try lia.
  specialize (IH s). lia.
Qed.

Lemma Itoa_digits n : 0 <= n -> str_forall is_digit (Itoa n) = true.
Proof.
  intros Hn. unfold Itoa. replace (n <? 0) with false by lia. apply FormatUint_forall.
  intros d Hd. by apply digit_char_spec.
Qed.

Lemma Itoa_nonempty n : 0 <= n -> Itoa n <> "".
Proof. intros Hn. unfold Itoa. replace (n <? 0) with false by lia. apply FormatUint_nonempty. Qed.

Lemma Atoi_Itoa n : 0 <= n <= max_int64 -> Atoi (Itoa n) = Ok n.
Proof.
  intros Hn. pose proof (Itoa_digits n ltac:(lia)) as Hd. pose proof (Itoa_nonempty n ltac:(lia)) as Hne.
  assert (digits_val 0 (Itoa n) = Some n) as Hv.
  { unfold Itoa. replace (n <? 0) with false by lia. unfold FormatUint.
    rewrite format_fuel_val; [done| |lia]. unfold max_int64 in Hn.
    change (10 ^ Z.of_nat 20) with 100000000000000000000. lia. }
  unfold Atoi. destruct (Itoa n) as [|c t]; [done|].
  assert (Ascii.eqb c "-" = false /\ Ascii.eqb c "+" = false) as [-> ->].
  { simpl in Hd. apply andb_true_iff in Hd as [Hc _]. split; apply Ascii.eqb_neq; by intros ->. }
  rewrite Hv. unfold min_int64, max_int64 in *.
  replace ((- 2 ^ 63 <=? n) && (n <=? 2 ^ 63 - 1)) with true by lia. done.
Qed.

Lemma list_ascii_length s : length (String.list_ascii_of_string s) = String.length s.
Proof. induction s as [|c s IH]; [done|]. simpl. by rewrite IH. Qed.

(** ** Trimming and case mapping twice *)

Lemma ToUpper_idem s : ToUpper (ToUpper s) = ToUpper s.
Proof.
  induction s as [|c s IH]; [done|]. unfold ToUpper in *. simpl. rewrite IH. f_equal.
  apply Ascii.eqb_eq. apply (ascii_forall (fun c => Ascii.eqb (upper_char (upper_char c)) (upper_char c))).
  by vm_compute.
Qed.

Lemma ToUpper_ToLower s : ToUpper (ToLower s) = ToUpper s.
Proof.
  induction s as [|c s IH]; [done|]. unfold ToUpper, ToLower in *. simpl. rewrite IH. f_equal.
  apply Ascii.eqb_eq. apply (ascii_forall (fun c => Ascii.eqb (upper_char (lower_char c)) (upper_char c))).
  by vm_compute.
Qed.

Lemma trim_left_idem p s : trim_left p (trim_left p s) = trim_left p s.
Proof. induction s as [|c s IH]; [done|]. simpl. destruct (p c) eqn:E; [done|]. simpl. by rewrite E. Qed.

Lemma trim_right_idem p s : trim_right p (trim_right p s) = trim_right p s.
Proof.
  induction s as [|c s IH]; [done|]. simpl. destruct (trim_right p s) as [|d t] eqn:E.
  - destruct (p c) eqn:Ec; [done|]. simpl. by rewrite Ec.
  - cbn [trim_right] in *. by rewrite IH.
Qed.

Lemma trim_left_right p s : trim_left p s = s -> trim_left p (trim_right p s) = trim_right p s.
Proof.
  destruct s as [|c s]; [done|]. simpl. destruct (p c) eqn:E.
  - intros H. exfalso. assert (String.length (trim_left p s) <= String.length s)%nat as Hle.
    { clear. induction s as [|c s IH]; simpl; [lia|]. destruct (p c); simpl; lia. }
    rewrite H in Hle. simpl in Hle. lia.
  - intros _. destruct (trim_right p s); simpl; by rewrite E.
Qed.

Lemma TrimSpace_idem s : TrimSpace (TrimSpace s) = TrimSpace s.
Proof.
  unfold TrimSpace. rewrite (trim_left_right is_space (trim_left is_space s)) by apply trim_left_idem.
  apply trim_right_idem.
Qed.

Lemma trim_left_map p f s : (forall c, p (f c) = p c) -> trim_left p (str_map f s) = str_map f (trim_left p s).
Proof. intros H. induction s as [|c s IH]; [done|]. cbn [str_map trim_left]. rewrite H. by destruct (p c). Qed.

Lemma trim_right_map p f s : (forall c, p (f c) = p c) -> trim_right p (str_map f s) = str_map f (trim_right p s).
Proof.
  intros H. induction s as [|c s IH]; [done|]. cbn [str_map trim_right]. rewrite IH, H.
  destruct (trim_right p s); [by destruct (p c)|done].
Qed.

Lemma ToLower_idem s : ToLower (ToLower s) = ToLower s.
Proof.
  induction s as [|c s IH]; [done|]. unfold ToLower in *. cbn [str_map]. rewrite IH. f_equal.
  apply Ascii.eqb_eq. revert c. apply (ascii_forall (fun c => Ascii.eqb (lower_char (lower_char c)) (lower_char c))). by vm_compute.
Qed.

Lemma sortKeys_perm l : sortKeys l ≡ₚ l.
Proof.
  unfold sortKeys. induction l as [|k l IH]; [done|]. cbn [fold_right]. rewrite <- IH at 2.
  generalize (fold_right insertKey [] l) as s. intros s. induction s as [|x s IHs]; [done|].
  cbn [insertKey]. case_match; [done|]. rewrite IHs. constructor.
Qed.
