(* ===== verification/NetAddr.v ===== *)
(** * NetAddr: the parts of Go's [net] and [net/netip] the program uses

    [net.ParseIP], [net.SplitHostPort], [net.JoinHostPort], [net.ParseCIDR] and
    the address predicates.  They are standard-library code, so nothing here is
    mapped to the repository; the components call these definitions where the
    source calls the library. *)

From S2P Require Export Prelude GoStrings.

(** ** Addresses

    An [IP] is the 16-byte form of [net.IP] read as a 128-bit integer; an IPv4
    address is its IPv4-in-IPv6 form, as [net.ParseIP] returns it. *)
Definition IP := Z.

Definition v4prefix : Z := Z.shiftl 65535 32.
Definition of_v4 (v : Z) : IP := v4prefix + v.
Definition is_v4 (ip : IP) : bool := Z.shiftr ip 32 =? 65535.
Definition to_v4 (ip : IP) : option Z := if is_v4 ip then Some (ip - v4prefix) else None.

(** *** Dotted decimal *)

Definition octet (s : string) : option Z :=
  match s with
  | "" => None
  | String c t =>
      if Ascii.eqb c "0" && negb (String.eqb t "") then None
      else match digits_val 0 s with
           | Some v => if v <=? 255 then Some v else None
           | None => None
           end
  end.

Definition parseIPv4 (s : string) : option Z :=
  match Split s "." with
  | [a; b; c; d] =>
      a ← octet a; b ← octet b; c ← octet c; d ← octet d;
      Some (((a * 256 + b) * 256 + c) * 256 + d)
  | _ => None
  end.

Definition formatIPv4 (v : Z) : string :=
  Itoa (v / 2 ^ 24 mod 256) +:+ "." +:+ Itoa (v / 2 ^ 16 mod 256) +:+ "." +:+
  Itoa (v / 2 ^ 8 mod 256) +:+ "." +:+ Itoa (v mod 256).

(** *** Colon-hexadecimal *)

Definition hex_val (c : ascii) : Z :=
  if is_digit c then ord c - 48
  else if is_lower c then ord c - 87 else ord c - 55.

(** The leading hexadecimal digits: their number, value and the rest. *)
Fixpoint hex_prefix (s : string) (n acc : Z) : Z * Z * string :=
  match s with
  | "" => (n, acc, "")
  | String c t => if is_hex c then hex_prefix t (n + 1) (acc * 16 + hex_val c) else (n, acc, s)
  end.

(** The field loop of [netip.parseIPv6]: [groups] are the 16-bit words read so
    far, most recent first, [ell] the number of words before the ellipsis. *)
Fixpoint v6_fields (fuel : nat) (s : string) (groups : list Z) (ell : option nat)
  : option (list Z * option nat) :=
  match fuel with
  | O => if String.eqb s "" then Some (groups, ell) else None
  | S fuel' =>
      let '(n, acc, rest) := hex_prefix s 0 0 in
      if (n =? 0) || (4 <? n) then None else
      match rest with
      | "" => Some (acc :: groups, ell)
      | String c rest1 =>
          if Ascii.eqb c "." then
            if (match ell with None => negb (length groups =? 6)%nat | Some _ => false end)
               || (6 <? length groups)%nat then None
            else v ← parseIPv4 s;
                 Some (v mod 65536 :: v / 65536 :: groups, ell)
          else if negb (Ascii.eqb c ":") then None
          else match rest1 with
               | "" => None
               | String c2 rest2 =>
                   if Ascii.eqb c2 ":" then
                     match ell with
                     | Some _ => None
                     | None =>
                         let ell' := Some (S (length groups)) in
                         if String.eqb rest2 "" then Some (acc :: groups, ell')
                         else v6_fields fuel' rest2 (acc :: groups) ell'
                     end
                   else v6_fields fuel' rest1 (acc :: groups) ell
               end
      end
  end.

Definition of_groups (ws : list Z) : Z := fold_left (fun acc w => acc * 65536 + w) ws 0.

(** Insert the zeros the ellipsis stands for. *)
Definition v6_expand (r : list Z * option nat) : option Z :=
  let '(groups, ell) := r in
  let ws := rev groups in
  let n := length ws in
  match ell with
  | None => if (n =? 8)%nat then Some (of_groups ws) else None
  | Some k => if (8 <=? n)%nat then None
              else Some (of_groups (take k ws ++ replicate (8 - n) 0 ++ drop k ws))
  end.

Definition parseIPv6 (s : string) : option Z :=
  match CutPrefix s "::" with
  | Some "" => Some 0
  | Some s' => r ← v6_fields 8 s' [] (Some 0%nat); v6_expand r
  | None => r ← v6_fields 8 s [] None; v6_expand r
  end.

(** The first of [.], [:] and [%] selects the parser; a zone makes
    [net.ParseIP] fail. *)
Fixpoint ip_kind (s : string) : option ascii :=
  match s with
  | "" => None
  | String c t => if in_chars ".:%" c then Some c else ip_kind t
  end.

Definition ParseIP (s : string) : option IP :=
  match ip_kind s with
  | Some c => if Ascii.eqb c "." then of_v4 <$> parseIPv4 s
              else if Ascii.eqb c ":" then
                if ContainsChar s "%" then None else parseIPv6 s
              else None
  | None => None
  end.

Definition IsLoopback (ip : IP) : bool :=
  match to_v4 ip with
  | Some v => Z.shiftr v 24 =? 127
  | None => ip =? 1
  end.
Definition IsUnspecified (ip : IP) : bool := (ip =? of_v4 0) || (ip =? 0).
Definition IsMulticast (ip : IP) : bool :=
  match to_v4 ip with
  | Some v => Z.shiftr v 28 =? 14
  | None => Z.shiftr ip 120 =? 255
  end.
Definition IsLinkLocalUnicast (ip : IP) : bool :=
  match to_v4 ip with
  | Some v => Z.shiftr v 16 =? 169 * 256 + 254
  | None => Z.shiftr ip 118 =? 1018
  end.
Definition IsPrivate (ip : IP) : bool :=
  match to_v4 ip with
  | Some v => (Z.shiftr v 24 =? 10) || (Z.shiftr v 20 =? 172 * 16 + 1)
              || (Z.shiftr v 16 =? 192 * 256 + 168)
  | None => Z.shiftr ip 121 =? 126
  end.

(** *** [net.IP.String]: RFC 5952 for IPv6 *)

Definition hex_lower (n : Z) : ascii := if n <? 10 then chr (48 + n) else chr (87 + n).

Fixpoint hex_digits (fuel : nat) (n : Z) (acc : string) : string :=
  match fuel with
  | O => acc
  | S f => let acc' := String (hex_lower (n mod 16)) acc in
           if n / 16 =? 0 then acc' else hex_digits f (n / 16) acc'
  end.

Definition groups_of (ip : Z) : list Z :=
  map (fun i => ip / 2 ^ (16 * i) mod 65536) [7; 6; 5; 4; 3; 2; 1; 0].

(** The length of the run of zero groups a list starts with. *)
Fixpoint zero_run (ws : list Z) : nat :=
  match ws with w :: ws' => if w =? 0 then S (zero_run ws') else O | [] => O end.

(** The first longest run of at least two zero groups: its start and length. *)
Fixpoint best_run (i : nat) (ws : list Z) (best : nat * nat) : nat * nat :=
  match ws with
  | [] => best
  | _ :: ws' =>
      let n := zero_run ws in
      best_run (S i) ws' (if (1 <? n)%nat && (best.2 <? n)%nat then (i, n) else best)
  end.

Definition formatIPv6 (ip : Z) : string :=
  let ws := groups_of ip in
  let hex := map (fun w => hex_digits 4 w "") ws in
  let '(start, n) := best_run 0 ws (O, O) in
  if (n =? 0)%nat then Join hex ":"
  else Join (take start hex) ":" +:+ "::" +:+ Join (drop (start + n) hex) ":".

Definition IPString (ip : IP) : string :=
  match to_v4 ip with Some v => formatIPv4 v | None => formatIPv6 ip end.

(** ** Networks: [net.ParseCIDR] *)

(** The base address, the number of leading ones of the mask, and the width
    (32 or 128) of the address family. *)
Record IPNet := mkIPNet { netBase : Z; netOnes : Z; netBits : Z }.

Definition maskOf (bits ones : Z) : Z := Z.shiftl (Z.ones ones) (bits - ones).

Definition ParseCIDR (s : string) : option (IP * IPNet) :=
  '(addr, m) ← Cut s "/";
  n ← (match m with
       | "" => None
       | String c _ => if is_digit c then digits_val 0 m else None
       end);
  ip ← ParseIP addr;
  if ContainsChar addr ":" then
    if 128 <? n then None
    else Some (ip, mkIPNet (Z.land ip (maskOf 128 n)) n 128)
  else
    if 32 <? n then None
    else Some (ip, mkIPNet (Z.land (ip - v4prefix) (maskOf 32 n)) n 32).

(** [IPNet.Contains]: a network whose base lies in the IPv4-in-IPv6 block is an
    IPv4 network with the last four bytes of its mask; the families must agree. *)
Definition netContains (n : IPNet) (ip : IP) : bool :=
  let net4 :=
    if netBits n =? 32 then Some (netBase n, maskOf 32 (netOnes n))
    else if is_v4 (netBase n)
         then Some (netBase n - v4prefix, Z.land (maskOf 128 (netOnes n)) (Z.ones 32))
         else None in
  match to_v4 ip, net4 with
  | Some v, Some (base, m) => Z.land base m =? Z.land v m
  | None, None => let m := maskOf 128 (netOnes n) in Z.land (netBase n) m =? Z.land ip m
  | _, _ => false
  end.

(** ** Host and port *)

(** The last occurrence of [sep]. *)
Fixpoint CutLast (s : string) (sep : ascii) : option (string * string) :=
  match s with
  | "" => None
  | String c t =>
      match CutLast t sep with
      | Some (a, b) => Some (String c a, b)
      | None => if Ascii.eqb c sep then Some ("", t) else None
      end
  end.

Definition SplitHostPort (hp : string) : option (string * string) :=
  '(pre, port) ← CutLast hp ":";
  match hp with
  | String "[" rest =>
      '(host, after) ← Cut rest "]";
      if String.eqb after (String ":" port)
         && negb (ContainsChar rest "[") && negb (ContainsChar after "]")
      then Some (host, port) else None
  | _ =>
      if ContainsChar pre ":" || ContainsChar hp "[" || ContainsChar hp "]" then None
      else Some (pre, port)
  end.

Definition JoinHostPort (host port : string) : string :=
  if ContainsChar host ":" || ContainsChar host "%"
  then "[" +:+ host +:+ "]:" +:+ port else host +:+ ":" +:+ port.

(** ** Lemmas *)

Lemma ContainsChar_no_char s c : ContainsChar s c = negb (no_char c s).
Proof.
  unfold ContainsChar, str_exists, no_char. f_equal.
  induction s as [|d s IH]; [done|]. simpl. by rewrite IH, Ascii.eqb_sym.
Qed.

Lemma CutLast_app a b sep : no_char sep b = true -> CutLast (a +:+ String sep b) sep = Some (a, b).
Proof.
  intros H.
  assert (forall s, no_char sep s = true -> CutLast s sep = None) as Hn.
  { induction s as [|c s IH]; [done|]. unfold no_char in *. simpl. intros E.
    apply andb_true_iff in E as [E1 E2]. rewrite IH by done.
    by apply negb_true_iff in E1 as ->. }
  induction a as [|c a IH]; simpl.
  - by rewrite Hn, Ascii.eqb_refl.
  - by rewrite IH.
Qed.

Lemma SplitHostPort_plain host port :
  no_char ":" host = true -> no_char "[" host = true -> no_char "]" host = true ->
  no_char ":" port = true -> no_char "[" port = true -> no_char "]" port = true ->
  SplitHostPort (host +:+ ":" +:+ port) = Some (host, port).
Proof.
  intros H1 H2 H3 H4 H5 H6. unfold SplitHostPort. change (":" +:+ port) with (String ":" port).
  rewrite CutLast_app by done. simpl.
  assert (forall c, no_char c host = true -> no_char c port = true -> Ascii.eqb ":" c = false ->
            ContainsChar (host +:+ String ":" port) c = false) as Hc.
  { intros c Hh Hp Hne. rewrite ContainsChar_no_char. apply negb_false_iff.
    unfold no_char in *. rewrite str_forall_app, Hh. cbn [str_forall].
    rewrite Hp, Hne. done. }
  rewrite ContainsChar_no_char, H1, !Hc by done. simpl.
  destruct host as [|c host]; [done|]. simpl.
  assert (Ascii.eqb c "[" = false) as Hb.
  { unfold no_char in H2. simpl in H2. apply andb_true_iff in H2 as [E _].
    by apply negb_true_iff in E. }
  by destruct c as [[] [] [] [] [] [] [] []].
Qed.

(** *** The range of a parsed address *)

Lemma digits_val_Some s acc v :
  0 <= acc -> digits_val acc s = Some v -> str_forall is_digit s = true /\ 0 <= v.
Proof.
  revert acc. induction s as [|c s IH]; intros acc Ha; simpl; [by intros [= <-]|].
  destruct (is_digit c) eqn:E; [|done]. intros H. apply IH in H; [done|].
  unfold is_digit, digit_val in *. to_prop. lia.
Qed.

Lemma octet_digits s v :
  octet s = Some v -> digits_val 0 s = Some v /\ s <> "" /\ 0 <= v <= 255.
Proof.
  unfold octet. destruct s as [|c t]; [done|]. case_if; [done|].
  destruct (digits_val 0 (String c t)) as [w|] eqn:Ew; [|done]. case_if; [|done].
  intros [= ->]. to_prop. apply digits_val_Some in Ew as [_ ?]; [|lia]. done.
Qed.

Lemma parseIPv4_range s v : parseIPv4 s = Some v -> 0 <= v < 2 ^ 32.
Proof.
  unfold parseIPv4. destruct (Split s ".") as [|a [|b [|c [|d [|]]]]]; try done.
  destruct (octet a) as [va|] eqn:Ea; [|done]. destruct (octet b) as [vb|] eqn:Eb; [|done].
  destruct (octet c) as [vc|] eqn:Ec; [|done]. destruct (octet d) as [vd|] eqn:Ed; [|done].
  cbn. intros [= <-]. apply octet_digits in Ea as (_ & _ & ?), Eb as (_ & _ & ?),
    Ec as (_ & _ & ?), Ed as (_ & _ & ?). change (2 ^ 32) with 4294967296. lia.
Qed.

Lemma hex_val_range c : is_hex c = true -> 0 <= hex_val c < 16.
Proof.
  intros Hc. pose proof (ascii_forall (fun c => implb (is_hex c) ((0 <=? hex_val c) && (hex_val c <? 16)))
    ltac:(by vm_compute) c) as H. simpl in H. rewrite Hc in H. simpl in H. lia.
Qed.

Lemma hex_prefix_range s n acc n' acc' rest :
  hex_prefix s n acc = (n', acc', rest) -> 0 <= n -> 0 <= acc < 16 ^ n -> 0 <= acc' < 16 ^ n'.
Proof.
  revert n acc. induction s as [|c s IH]; intros n acc; simpl; [by intros [= <- <- <-]|].
  destruct (is_hex c) eqn:Ec; [|by intros [= <- <- <-]]. intros H Hn Ha.
  pose proof (hex_val_range c Ec). eapply IH; [exact H|lia|].
  rewrite Z.pow_add_r by lia. lia.
Qed.

Definition word (w : Z) : Prop := 0 <= w < 65536.

Lemma v6_fields_words fuel s groups ell out ell' :
  v6_fields fuel s groups ell = Some (out, ell') -> Forall word groups -> Forall word out.
Proof.
  revert s groups ell. induction fuel as [|fuel IH]; intros s groups ell; simpl.
  { case_if; [|done]. by intros [= <- <-]. }
  destruct (hex_prefix s 0 0) as [[n acc] rest] eqn:Eh.
  assert (((n =? 0) || (4 <? n)) = false -> word acc) as Hacc.
  { intros Hn. apply hex_prefix_range in Eh; [|lia|done]. unfold word.
    assert (16 ^ n <= 16 ^ 4) by (apply Z.pow_le_mono_r; lia). change (16 ^ 4) with 65536 in *. lia. }
  destruct ((n =? 0) || (4 <? n)); [done|]. specialize (Hacc eq_refl). intros H Hg.
  destruct rest as [|c rest1]; [injection H as <- <-; by constructor|].
  destruct (Ascii.eqb c ".").
  { case_if_in H; [done|]. destruct (parseIPv4 s) as [v|] eqn:Ev; [|done]. injection H as <- <-.
    apply parseIPv4_range in Ev. change (2 ^ 32) with 4294967296 in Ev.
    constructor; [apply Z.mod_pos_bound; lia|]. constructor; [|done]. unfold word.
    split; [apply Z.div_pos; lia|apply Z.div_lt_upper_bound; lia]. }
  destruct (Ascii.eqb c ":"); [|done]. simpl in H. destruct rest1 as [|c2 rest2]; [done|].
  destruct (Ascii.eqb c2 ":"); [|by eapply IH; [|constructor]].
  destruct ell; [done|]. case_if_in H; [injection H as <- <-; by constructor|].
  by eapply IH; [|constructor].
Qed.

Lemma of_groups_range ws :
  Forall word ws -> 0 <= of_groups ws < 65536 ^ Z.of_nat (length ws).
Proof.
  unfold of_groups. enough (forall acc k, 0 <= k -> 0 <= acc < 65536 ^ k -> Forall word ws ->
    0 <= fold_left (fun acc w => acc * 65536 + w) ws acc < 65536 ^ (k + Z.of_nat (length ws))) as H.
  { intros Hw. by apply (H 0 0). }
  induction ws as [|w ws IH]; intros acc k Hk Ha Hw; simpl.
  { by rewrite Z.add_0_r. }
  apply Forall_cons in Hw as [Hw Hws]. replace (k + Z.of_nat (S (length ws)))
    with ((k + 1) + Z.of_nat (length ws)) by lia.
  apply IH; [lia| |done]. unfold word in Hw. rewrite Z.pow_add_r by lia. lia.
Qed.

Lemma parseIPv6_range s ip : parseIPv6 s = Some ip -> 0 <= ip < 2 ^ 128.
Proof.
  assert (forall r v, Forall word r.1 -> v6_expand r = Some v -> 0 <= v < 2 ^ 128) as Hx.
  { intros [groups ell] v Hw. simpl in Hw. unfold v6_expand.
    assert (Forall word (rev groups)) as Hr by (by apply Forall_rev).
    change (2 ^ 128) with (65536 ^ 8). destruct ell as [k|].
    - destruct (Nat.leb_spec 8 (length (rev groups))) as [|Hlt]; [done|]. intros [= <-].
      assert (length (take k (rev groups) ++ replicate (8 - length (rev groups)) 0 ++ drop k (rev groups))
              = 8%nat) as Hlen.
      { rewrite !length_app, length_replicate, length_take, length_drop. lia. }
      enough (Forall word (take k (rev groups) ++ replicate (8 - length (rev groups)) 0 ++ drop k (rev groups)))
        as Hf by (pose proof (of_groups_range _ Hf) as R; by rewrite Hlen in R).
      apply Forall_app; split; [by apply Forall_take|]. apply Forall_app; split; [|by apply Forall_drop].
      apply Forall_replicate. done.
    - destruct (Nat.eqb_spec (length (rev groups)) 8) as [Hlen|]; [|done]. intros [= <-].
      pose proof (of_groups_range _ Hr) as R. by rewrite Hlen in R. }
  unfold parseIPv6. destruct (CutPrefix s "::") as [s'|].
  - destruct s' as [|c s']; [by intros [= <-]|].
    destruct (v6_fields 8 _ _ _) as [[out ell]|] eqn:E; [|done]. intros H. eapply Hx; [|exact H].
    simpl. eapply v6_fields_words; [exact E|constructor].
  - destruct (v6_fields 8 _ _ _) as [[out ell]|] eqn:E; [|done]. intros H. eapply Hx; [|exact H].
    simpl. eapply v6_fields_words; [exact E|constructor].
Qed.

Lemma ParseIP_range s ip : ParseIP s = Some ip -> 0 <= ip < 2 ^ 128.
Proof.
  unfold ParseIP. destruct (ip_kind s) as [c|]; [|done]. case_if.
  - destruct (parseIPv4 s) as [v|] eqn:Ev; [|done]. intros [= <-]. apply parseIPv4_range in Ev.
    unfold of_v4, v4prefix. rewrite Z.shiftl_mul_pow2 by lia.
    change (2 ^ 32) with 4294967296 in *. change (2 ^ 128) with 340282366920938463463374607431768211456. lia.
  - case_if; [|done]. case_if; [done|]. apply parseIPv6_range.
Qed.

Lemma to_v4_range ip v : 0 <= ip < 2 ^ 128 -> to_v4 ip = Some v -> 0 <= v < 2 ^ 32 /\ ip = of_v4 v.
Proof.
  intros Hip. unfold to_v4, is_v4. destruct (Z.eqb_spec (Z.shiftr ip 32) 65535) as [E|]; [|done].
  intros [= <-]. unfold of_v4, v4prefix. rewrite Z.shiftr_div_pow2 in E by lia.
  rewrite Z.shiftl_mul_pow2 by lia. pose proof (Z.div_mod ip (2 ^ 32) ltac:(lia)).
  pose proof (Z.mod_pos_bound ip (2 ^ 32) ltac:(lia)). change (2 ^ 32) with 4294967296 in *. lia.
Qed.

Example ip1 : ParseIP "10.0.0.255" = Some (of_v4 167772415). Proof. reflexivity. Qed.
Example ip2 : ParseIP "::1" = Some 1. Proof. reflexivity. Qed.
Example ip3 : ParseIP "fe80::1:2" = Some (Z.shiftl 65152 112 + 65538). Proof. reflexivity. Qed.
Example ip4 : ParseIP "::ffff:1.2.3.4" = ParseIP "1.2.3.4". Proof. reflexivity. Qed.
Example ip5 : ParseIP "01.2.3.4" = None. Proof. reflexivity. Qed.
Example ip6 : SplitHostPort "[::1]:53" = Some ("::1", "53"). Proof. reflexivity. Qed.
Example ip7 : IPString 1 = "::1". Proof. reflexivity. Qed.
Example ip8 : (IPString <$> ParseIP "2001:db8:0:0:1::1") = Some "2001:db8::1:0:0:1".
Proof. reflexivity. Qed.
Example ip9 : (IPString <$> ParseIP "10.1.2.255") = Some "10.1.2.255". Proof. reflexivity. Qed.
Example ip10 : (fun r => netContains r.2 (of_v4 16909060)) <$> ParseCIDR "::ffff:1.2.0.0/112" = Some true.
Proof. reflexivity. Qed.
Example ip11 : (fun r => netContains r.2 (of_v4 16909060)) <$> ParseCIDR "1.2.0.0/17" = Some true.
Proof. reflexivity. Qed.
