(* ===== verification/Url.v ===== *)
(** * Url: the parts of Go's [net/url] the program uses

    [url.Parse] with [Scheme], [User], [Hostname], [Port], [Path], [EscapedPath],
    [RawQuery] and [Fragment].  Standard-library code: nothing here is mapped to
    the repository. *)

From S2P Require Export Prelude GoStrings NetAddr.

Record URL := mkURL {
  Scheme : string; Opaque : string; User : option string; Host : string;
  Path : string; RawPath : string; RawQuery : string; ForceQuery : bool; Fragment : string }.

(** ** Percent encoding *)

Inductive encMode := encPath | encHost | encFragment.

Definition is_alnum (c : ascii) : bool := is_lower c || is_upper c || is_digit c.

(** [shouldEscape]. *)
Definition shouldEscape (m : encMode) (c : ascii) : bool :=
  if is_alnum c then false
  else if match m with encHost => in_chars "!$&'()*+,;=:[]<>" c || (ord c =? 34) | _ => false end
  then false
  else if in_chars "-_.~" c then false
  else if in_chars "$&+,/:;=?@" c then
    match m with
    | encPath => in_chars "?" c
    | encHost => true
    | encFragment => false
    end
  else match m with encFragment => negb (in_chars "!()*" c) | _ => true end.

Definition unhex (c : ascii) : Z := hex_val c.

Fixpoint unescape (m : encMode) (s : string) : option string :=
  match s with
  | "" => Some ""
  | String "%" t =>
      match t with
      | String a (String b t') =>
          if negb (is_hex a && is_hex b) then None
          else if match m with
                  | encHost => (unhex a <? 8) && negb (Ascii.eqb a "2" && Ascii.eqb b "5")
                  | _ => false
                  end then None
          else r ← unescape m t'; Some (String (chr (unhex a * 16 + unhex b)) r)
      | _ => None
      end
  | String c t =>
      if match m with encHost => (ord c <? 128) && shouldEscape encHost c | _ => false end
      then None
      else r ← unescape m t; Some (String c r)
  end.

Definition hex_upper (n : Z) : ascii := if n <? 10 then chr (48 + n) else chr (55 + n).

Fixpoint escape (m : encMode) (s : string) : string :=
  match s with
  | "" => ""
  | String c t =>
      if shouldEscape m c
      then String "%" (String (hex_upper (ord c / 16)) (String (hex_upper (ord c mod 16)) (escape m t)))
      else String c (escape m t)
  end.

(** [validEncoded] in path mode. *)
Definition validEncoded (s : string) : bool :=
  str_forall (fun c => in_chars "!$&'()*+,;=:@[]%" c || negb (shouldEscape encPath c)) s.

(** ** Parsing *)

Fixpoint getScheme_from (first : bool) (acc s : string) : option (option (string * string)) :=
  match s with
  | "" => Some None
  | String c t =>
      if is_lower c || is_upper c then getScheme_from false (acc +:+ String c "") t
      else if is_digit c || in_chars "+-." c then
        if first then Some None else getScheme_from false (acc +:+ String c "") t
      else if Ascii.eqb c ":" then if first then None else Some (Some (acc, t))
      else Some None
  end.

(** [None] is the missing-scheme error; no scheme gives the empty one. *)
Definition getScheme (s : string) : option (string * string) :=
  match getScheme_from true "" s with
  | None => None
  | Some None => Some ("", s)
  | Some (Some p) => Some p
  end.

Definition validOptionalPort (p : string) : bool :=
  match p with
  | "" => true
  | String c t => Ascii.eqb c ":" && str_forall is_digit t
  end.

Definition parseHost (h : string) : option string :=
  if HasPrefix h "[" then
    '(_, after) ← CutLast h "]";
    if validOptionalPort after then unescape encHost h else None
  else match CutLast h ":" with
       | Some (_, p) => if str_forall is_digit p then unescape encHost h else None
       | None => unescape encHost h
       end.

Definition validUserinfo (s : string) : bool :=
  str_forall (fun c => is_alnum c || in_chars "-._:~!$&'()*+,;=%@" c) s.

Definition url_parseAuthority (a : string) : option (option string * string) :=
  match CutLast a "@" with
  | None => h ← parseHost a; Some (None, h)
  | Some (ui, h) =>
      h ← parseHost h;
      if validUserinfo ui then (_ ← unescape encFragment ui; Some (Some ui, h)) else None
  end.

Definition setPath (p : string) : option (string * string) :=
  path ← unescape encPath p;
  Some (path, if String.eqb (escape encPath path) p then "" else p).

Definition has_ctl (s : string) : bool := str_exists (fun c => (ord c <? 32) || (ord c =? 127)) s.

Definition parse_no_fragment (raw : string) : option URL :=
  if has_ctl raw then None
  else if String.eqb raw "*" then Some (mkURL "" "" None "" "*" "" "" false "")
  else
    '(scheme, rest) ← getScheme raw;
    let scheme := ToLower scheme in
    let '((rest, query), force) :=
      if HasSuffix rest "?" && (CountChar rest "?" =? 1) then ((TrimSuffix rest "?", ""), true)
      else (CutOr rest "?", false) in
    if negb (HasPrefix rest "/") && negb (String.eqb scheme "") then
      Some (mkURL scheme rest None "" "" "" query force "")
    else if negb (HasPrefix rest "/") && ContainsChar (CutOr rest "/").1 ":" then None
    else
      if (negb (String.eqb scheme "") || negb (HasPrefix rest "///")) && HasPrefix rest "//" then
        let auth := str_drop 2 rest in
        let '(auth, rest) := match Cut auth "/" with
                             | Some (a, r) => (a, String "/" r)
                             | None => (auth, "")
                             end in
        '(user, host) ← url_parseAuthority auth;
        '(path, rawpath) ← setPath rest;
        Some (mkURL scheme "" user host path rawpath query force "")
      else
        '(path, rawpath) ← setPath rest;
        Some (mkURL scheme "" None "" path rawpath query force "").

Definition urlParse (raw : string) : option URL :=
  let '(u, frag) := CutOr raw "#" in
  url ← parse_no_fragment u;
  f ← unescape encFragment frag;
  Some (mkURL (Scheme url) (Opaque url) (User url) (Host url) (Path url) (RawPath url)
          (RawQuery url) (ForceQuery url) f).

(** [splitHostPort] of the package: the host without brackets, and the port. *)
Definition url_splitHostPort (hp : string) : string * string :=
  let '(host, port) := match CutLast hp ":" with
                       | Some (h, p) => if str_forall is_digit p then (h, p) else (hp, "")
                       | None => (hp, "")
                       end in
  (if HasPrefix host "[" && HasSuffix host "]"
   then str_drop 1 (str_take (String.length host - 1) host) else host, port).

Definition Hostname (u : URL) : string := (url_splitHostPort (Host u)).1.
Definition Port (u : URL) : string := (url_splitHostPort (Host u)).2.

Definition EscapedPath (u : URL) : string :=
  if negb (String.eqb (RawPath u) "") && validEncoded (RawPath u) &&
     bool_decide (unescape encPath (RawPath u) = Some (Path u))
  then RawPath u
  else if String.eqb (Path u) "*" then "*" else escape encPath (Path u).

Example url1 : (fun u => (Scheme u, Hostname u, Port u, Path u, RawQuery u)) <$>
  urlParse "HTTP://user:pw@[fe80::1]:8080/a%20b?x=1#top" =
  Some ("http", "fe80::1", "8080", "/a b", "x=1").
Proof. reflexivity. Qed.
Example url2 : urlParse "http://host:80a/" = None. Proof. reflexivity. Qed.
Example url3 : (fun u => (Hostname u, EscapedPath u)) <$> urlParse "https://proxy.corp/wpad%2f.dat"
  = Some ("proxy.corp", "/wpad%2f.dat"). Proof. reflexivity. Qed.
