(* ===== verification/GoText.v ===== *)
(** * GoText: line scanning, hexadecimal text and slash paths

    The parts of Go's [bufio.Scanner], [encoding/hex], [path] and [path/filepath]
    (on a system whose separator is the slash) the program uses.
    Standard-library code: nothing here is mapped to the repository. *)

From S2P Require Export Prelude GoStrings.

(** ** Lines *)

Definition LF : ascii := chr 10.
Definition CR : ascii := chr 13.

(** [bufio.ScanLines] drops one carriage return before the line end. *)
Definition dropCR (s : string) : string := TrimSuffix s (String CR "").

(** The pieces between line feeds; no line after the last one when it is empty. *)
Fixpoint raw_lines (pieces : list string) : list string :=
  match pieces with
  | [] => []
  | [""] => []
  | l :: rest => l :: raw_lines rest
  end.

(** A scanner whose buffer may grow to [max] bytes: a line of [max] bytes or more
    ends the scan with an error ([true]), after the lines before it. *)
Fixpoint scan_pieces (max : Z) (ls : list string) : list string * bool :=
  match ls with
  | [] => ([], false)
  | l :: ls' =>
      if max <=? slen l then ([], true)
      else let '(out, e) := scan_pieces max ls' in (dropCR l :: out, e)
  end.

Definition scanLines (max : Z) (s : string) : list string * bool :=
  scan_pieces max (raw_lines (Split s LF)).

Definition maxScanTokenSize : Z := 64 * 1024.

(** ** Hexadecimal text *)

Definition hex_digit (n : Z) : ascii := if n <? 10 then chr (48 + n) else chr (87 + n).

Fixpoint hexEncode (bs : list Z) : string :=
  match bs with
  | [] => ""
  | b :: bs' => String (hex_digit (b / 16)) (String (hex_digit (b mod 16)) (hexEncode bs'))
  end.

(** [hex.DecodeString] succeeds: an even number of digits. *)
Definition hexDecodes (s : string) : bool := Z.even (slen s) && str_forall is_hex s.

(** ** Slash paths *)

(** One element of [path.Clean]; [out] is the output so far, last element first. *)
Definition cleanStep (rooted : bool) (out : list string) (seg : string) : list string :=
  if String.eqb seg "" || String.eqb seg "." then out
  else if String.eqb seg ".." then
    match out with
    | last :: out' => if String.eqb last ".." then seg :: out else out'
    | [] => if rooted then [] else [seg]
    end
  else seg :: out.

Definition pathClean (p : string) : string :=
  let rooted := HasPrefix p "/" in
  let out := Join (rev (fold_left (cleanStep rooted) (Split p "/") [])) "/" in
  if rooted then "/" +:+ out else if String.eqb out "" then "." else out.

(** [strings.LastIndex] with the text before and after the last occurrence. *)
Fixpoint CutLastStr (s sub : string) : option (string * string) :=
  match s with
  | "" => if String.eqb sub "" then Some ("", "") else None
  | String c t =>
      match CutLastStr t sub with
      | Some (a, b) => Some (String c a, b)
      | None => if HasPrefix s sub then Some ("", str_drop (String.length sub) s) else None
      end
  end.

(** [filepath.Base] and [filepath.Dir]. *)
Definition pathBase (p : string) : string :=
  if String.eqb p "" then "."
  else
    let t := trim_right (Ascii.eqb "/") p in
    if String.eqb t "" then "/"
    else default t (snd <$> CutLastStr t "/").

Definition pathDir (p : string) : string :=
  match CutLastStr p "/" with
  | Some (a, _) => pathClean (a +:+ "/")
  | None => "."
  end.

Definition pathJoin (a b : string) : string :=
  if String.eqb a "" then (if String.eqb b "" then "" else pathClean b)
  else if String.eqb b "" then pathClean a else pathClean (a +:+ "/" +:+ b).

Definition pathIsAbs (p : string) : bool := HasPrefix p "/".

Example path1 : map pathClean ["/a/../../b//./c/"; "a/.."; ""; "../x/.."; "/"] = ["/b/c"; "."; "."; ".."; "/"].
Proof. vm_compute. reflexivity. Qed.
Example path2 : (pathBase "/a/b/", pathDir "/a/b", pathDir "b", pathDir "/b", pathBase "///", pathJoin "/x" "y")
  = ("b", "/a", ".", "/", "/", "/x/y").
Proof. vm_compute. reflexivity. Qed.
Example scan1 : scanLines 5 ("ab" +:+ String CR (String LF (String LF "cd"))) = (["ab"; ""; "cd"], false).
Proof. vm_compute. reflexivity. Qed.

(** The first [n] bytes, for an [n] too large to count down as a [nat]. *)
Fixpoint str_takeZ (n : Z) (s : string) : string :=
  match s with
  | "" => ""
  | String c t => if n <=? 0 then "" else String c (str_takeZ (n - 1) t)
  end.

(** ** Lemmas *)

Lemma slen_cons c s : slen (String c s) = 1 + slen s.
Proof. unfold slen. cbn [String.length]. lia. Qed.

Lemma str_takeZ_all n s : slen s <= n -> str_takeZ n s = s.
Proof.
  revert n. induction s as [|c s IH]; intros n; [done|]. rewrite slen_cons. pose proof (slen_nonneg s). intros.
  cbn [str_takeZ]. replace (n <=? 0) with false by lia. by rewrite IH by lia.
Qed.

Lemma str_takeZ_length n s : 0 <= n <= slen s -> slen (str_takeZ n s) = n.
Proof.
  revert n. induction s as [|c s IH]; intros n; [change (slen "") with 0; simpl; change (slen "") with 0; lia|].
  rewrite slen_cons. intros Hn. cbn [str_takeZ]. destruct (Z.leb_spec n 0); [change (slen "") with 0; lia|].
  rewrite slen_cons, IH by lia. lia.
Qed.

Lemma hex_digit_is_hex n : 0 <= n < 16 -> is_hex (hex_digit n) = true.
Proof.
  intros Hn. assert (forallb (fun n => is_hex (hex_digit n)) (seqZ 0 16) = true) as H by by vm_compute.
  rewrite forallb_forall in H. apply H, list_elem_of_In, elem_of_seqZ. lia.
Qed.

Lemma hexEncode_length bs : slen (hexEncode bs) = 2 * zlen bs.
Proof. induction bs as [|b bs IH]; [done|]. unfold slen, zlen in *. cbn [hexEncode String.length length]. lia. Qed.

Lemma hexEncode_hex bs :
  Forall (fun b => 0 <= b < 256) bs -> str_forall is_hex (hexEncode bs) = true.
Proof.
  induction 1 as [|b bs Hb _ IH]; [done|]. simpl.
  rewrite !hex_digit_is_hex, IH by (Z.to_euclidean_division_equations; lia). done.
Qed.
