(* ===== verification/Base64.v ===== *)
(** * Base64: Go's [base64.StdEncoding] and [base64.RawURLEncoding]

    [EncodeToString] and [DecodeString], which skips line ends and ignores the unused
    low bits of the last character.  The standard encoding asks for full padding; the
    raw URL encoding has none and writes two characters differently.
    Standard-library code: nothing here is mapped to the repository. *)

From S2P Require Export Prelude GoStrings.

Definition alphabet : list ascii :=
  String.list_ascii_of_string "ABCDEFGHIJKLMNOPQRSTUVWXYZabcdefghijklmnopqrstuvwxyz0123456789+/".

Definition enc6 (v : Z) : ascii := default "A"%char (alphabet !! Z.to_nat v).

Definition dec6 (c : ascii) : option Z :=
  if is_upper c then Some (ord c - 65)
  else if is_lower c then Some (ord c - 71)
  else if is_digit c then Some (ord c + 4)
  else if Ascii.eqb c "+" then Some 62
  else if Ascii.eqb c "/" then Some 63 else None.

Fixpoint b64_encode (bs : list Z) : string :=
  match bs with
  | [] => ""
  | [a] => String (enc6 (a / 4)) (String (enc6 (a mod 4 * 16)) "==")
  | [a; b] => String (enc6 (a / 4)) (String (enc6 (a mod 4 * 16 + b / 16))
                (String (enc6 (b mod 16 * 4)) "="))
  | a :: b :: c :: rest =>
      String (enc6 (a / 4)) (String (enc6 (a mod 4 * 16 + b / 16))
        (String (enc6 (b mod 16 * 4 + c / 64)) (String (enc6 (c mod 64)) (b64_encode rest))))
  end.

Fixpoint b64_groups (s : string) : option (list Z) :=
  match s with
  | "" => Some []
  | String w (String x (String y (String z rest))) =>
      a ← dec6 w; b ← dec6 x;
      if Ascii.eqb y "=" then
        if Ascii.eqb z "=" && String.eqb rest "" then Some [a * 4 + b / 16] else None
      else
        c ← dec6 y;
        if Ascii.eqb z "=" then
          if String.eqb rest "" then Some [a * 4 + b / 16; b mod 16 * 16 + c / 4] else None
        else
          d ← dec6 z; r ← b64_groups rest;
          Some (a * 4 + b / 16 :: b mod 16 * 16 + c / 4 :: c mod 4 * 64 + d :: r)
  | _ => None
  end.

Fixpoint drop_line_ends (s : string) : string :=
  match s with
  | "" => ""
  | String c t => if Ascii.eqb c "010" || Ascii.eqb c "013" then drop_line_ends t
                  else String c (drop_line_ends t)
  end.

Definition b64_decode (s : string) : option (list Z) := b64_groups (drop_line_ends s).

Definition is_byte (b : Z) : Prop := 0 <= b < 256.

Lemma enc6_spec v :
  0 <= v < 64 -> dec6 (enc6 v) = Some v /\ Ascii.eqb (enc6 v) "=" = false /\
  Ascii.eqb (enc6 v) "010" || Ascii.eqb (enc6 v) "013" = false.
Proof.
  intros Hv.
  assert (forallb (fun v => bool_decide (dec6 (enc6 v) = Some v /\ Ascii.eqb (enc6 v) "=" = false /\
    Ascii.eqb (enc6 v) "010" || Ascii.eqb (enc6 v) "013" = false)) (seqZ 0 64) = true) as H by by vm_compute.
  rewrite forallb_forall in H. specialize (H v). apply bool_decide_eq_true in H; [done|].
  apply list_elem_of_In, elem_of_seqZ. lia.
Qed.

Lemma list_ind3 {A} (P : list A -> Prop) :
  P [] -> (forall a, P [a]) -> (forall a b, P [a; b]) ->
  (forall a b c l, P l -> P (a :: b :: c :: l)) -> forall l, P l.
Proof.
  intros H0 H1 H2 H3. fix IH 1. intros [|a [|b [|c l]]]; [done|done|done|]. apply H3, IH.
Qed.

Ltac byte_bounds :=
  repeat match goal with
  | H : is_byte ?a |- _ => unfold is_byte in H;
      pose proof (Z.div_mod a 4 ltac:(lia)); pose proof (Z.mod_pos_bound a 4 ltac:(lia));
      pose proof (Z.div_mod a 16 ltac:(lia)); pose proof (Z.mod_pos_bound a 16 ltac:(lia));
      pose proof (Z.div_mod a 64 ltac:(lia)); pose proof (Z.mod_pos_bound a 64 ltac:(lia))
  end.

Lemma b64_encode_clean bs : Forall is_byte bs -> drop_line_ends (b64_encode bs) = b64_encode bs.
Proof.
  induction bs as [|a|a b|a b c l IH] using list_ind3; intros H; [done|..];
    repeat (apply Forall_cons in H as [?H H]); cbn [b64_encode drop_line_ends]; byte_bounds;
    repeat match goal with
    | |- context [enc6 ?v] =>
        lazymatch goal with
        | _ : Ascii.eqb (enc6 v) "010" || _ = false |- _ => fail
        | _ => pose proof (proj2 (proj2 (enc6_spec v ltac:(lia))))
        end
    end;
    repeat match goal with H : _ || _ = false |- _ => rewrite H; clear H end; try done.
  by rewrite IH.
Qed.

(** Decoding what was encoded gives the bytes back. *)
Lemma b64_roundtrip bs : Forall is_byte bs -> b64_decode (b64_encode bs) = Some bs.
Proof.
  intros H. unfold b64_decode. rewrite b64_encode_clean by done. revert H.
  assert (forall v, 0 <= v < 64 -> dec6 (enc6 v) = Some v) as Hd by (intros; by apply enc6_spec).
  assert (forall v, 0 <= v < 64 -> Ascii.eqb (enc6 v) "=" = false) as He by (intros; by apply enc6_spec).
  induction bs as [|a|a b|a b c l IH] using list_ind3; intros H; [done|..];
    repeat (apply Forall_cons in H as [?H H]); byte_bounds; cbn [b64_encode b64_groups];
    rewrite !Hd by lia; cbn [mbind option_bind]; rewrite ?He by lia;
    rewrite ?Hd by lia; cbn [mbind option_bind Ascii.eqb Bool.eqb andb String.eqb].
  - do 2 f_equal. Z.to_euclidean_division_equations. lia.
  - do 2 f_equal; [|f_equal]; Z.to_euclidean_division_equations; lia.
  - rewrite IH by done. cbn [mbind option_bind].
    do 2 f_equal; [|f_equal; [|f_equal]]; Z.to_euclidean_division_equations; lia.
Qed.

Example b64_1 : b64_encode [77; 97; 110; 77] = "TWFuTQ==". Proof. reflexivity. Qed.
Example b64_2 : b64_decode "TWFu
TQ==" = Some [77; 97; 110; 77]. Proof. reflexivity. Qed.
Example b64_3 : b64_decode "TWFuTQ=" = None. Proof. reflexivity. Qed.

(** ** The URL encoding without padding *)

Definition enc6u (v : Z) : ascii := if v =? 62 then "-"%char else if v =? 63 then "_"%char else enc6 v.
Definition dec6u (c : ascii) : option Z :=
  if Ascii.eqb c "-" then Some 62 else if Ascii.eqb c "_" then Some 63
  else if Ascii.eqb c "+" || Ascii.eqb c "/" then None else dec6 c.

Fixpoint rawurl_encode (bs : list Z) : string :=
  match bs with
  | [] => ""
  | [a] => String (enc6u (a / 4)) (String (enc6u (a mod 4 * 16)) "")
  | [a; b] => String (enc6u (a / 4)) (String (enc6u (a mod 4 * 16 + b / 16)) (String (enc6u (b mod 16 * 4)) ""))
  | a :: b :: c :: rest =>
      String (enc6u (a / 4)) (String (enc6u (a mod 4 * 16 + b / 16))
        (String (enc6u (b mod 16 * 4 + c / 64)) (String (enc6u (c mod 64)) (rawurl_encode rest))))
  end.

Fixpoint rawurl_groups (s : string) : option (list Z) :=
  match s with
  | "" => Some []
  | String w (String x "") => a ← dec6u w; b ← dec6u x; Some [a * 4 + b / 16]
  | String w (String x (String y "")) => a ← dec6u w; b ← dec6u x; c ← dec6u y; Some [a * 4 + b / 16; b mod 16 * 16 + c / 4]
  | String w (String x (String y (String z rest))) =>
      a ← dec6u w; b ← dec6u x; c ← dec6u y; d ← dec6u z; r ← rawurl_groups rest;
      Some (a * 4 + b / 16 :: b mod 16 * 16 + c / 4 :: c mod 4 * 64 + d :: r)
  | _ => None
  end.
Definition rawurl_decode (s : string) : option (list Z) := rawurl_groups (drop_line_ends s).

Lemma enc6u_spec v : 0 <= v < 64 -> dec6u (enc6u v) = Some v /\ Ascii.eqb (enc6u v) "010" || Ascii.eqb (enc6u v) "013" = false.
Proof.
  intros Hv.
  assert (forallb (fun v => bool_decide (dec6u (enc6u v) = Some v /\
    Ascii.eqb (enc6u v) "010" || Ascii.eqb (enc6u v) "013" = false)) (seqZ 0 64) = true) as H by by vm_compute.
  rewrite forallb_forall in H. specialize (H v). apply bool_decide_eq_true in H; [done|].
  apply list_elem_of_In, elem_of_seqZ. lia.
Qed.

Lemma rawurl_roundtrip bs : Forall is_byte bs -> rawurl_decode (rawurl_encode bs) = Some bs.
Proof.
  assert (forall v, 0 <= v < 64 -> dec6u (enc6u v) = Some v) as Hd by (intros; by apply enc6u_spec).
  assert (forall v, 0 <= v < 64 -> Ascii.eqb (enc6u v) "010" || Ascii.eqb (enc6u v) "013" = false) as He by (intros; by apply enc6u_spec).
  unfold rawurl_decode.
  induction bs as [|a|a b|a b c l IH] using list_ind3; intros H; [done|..];
    repeat (apply Forall_cons in H as [?H H]); byte_bounds; cbn [rawurl_encode drop_line_ends];
    rewrite !He by lia; cbn [rawurl_groups]; rewrite !Hd by lia; cbn [mbind option_bind].
  - do 2 f_equal. Z.to_euclidean_division_equations. lia.
  - do 2 f_equal; [|f_equal]; Z.to_euclidean_division_equations; lia.
  - rewrite IH by done. cbn [mbind option_bind].
    do 2 f_equal; [|f_equal; [|f_equal]]; Z.to_euclidean_division_equations; lia.
Qed.
