(* ===== verification/Utf8.v ===== *)
(** * Utf8: strings as bytes and as runes

    Go's [unicode/utf8] and [unicode/utf16] as far as the program uses them: the
    encoding of a rune, the decoding of a text rune by rune, where a byte that
    starts no encoding stands for itself, and the pairs of surrogates.
    Standard-library code: nothing here is mapped to the repository. *)

From S2P Require Export Prelude GoStrings Base64.

Abbreviation bytes := (list Z).

Definition str_bytes (s : string) : bytes := map ord (String.list_ascii_of_string s).
Definition bytes_str (b : bytes) : string := String.string_of_list_ascii (map chr b).

Definition RuneError : Z := 65533.
Definition rune_ok (r : Z) : bool := (0 <=? r) && (r <=? 1114111) && negb ((55296 <=? r) && (r <=? 57343)).

(** [utf8.AppendRune]: the replacement character for what is no rune. *)
Definition utf8_encode (r : Z) : bytes :=
  if negb (rune_ok r) then [239; 191; 189]
  else if r <? 128 then [r]
  else if r <? 2048 then [192 + r / 64; 128 + r mod 64]
  else if r <? 65536 then [224 + r / 4096; 128 + r / 64 mod 64; 128 + r mod 64]
  else [240 + r / 262144; 128 + r / 4096 mod 64; 128 + r / 64 mod 64; 128 + r mod 64].

Definition runes_bytes (rs : list Z) : bytes := mjoin (map utf8_encode rs).
Definition runes_string (rs : list Z) : string := bytes_str (runes_bytes rs).

(** [utf8.DecodeRune] of the byte [b] and the text [t] after it: the rune and the
    text after its encoding; [None] when no encoding starts with [b]. *)
Definition in_range (lo hi b : Z) : bool := (lo <=? b) && (b <=? hi).
Definition decodeRune (b : Z) (t : bytes) : option (Z * bytes) :=
  if b <? 128 then Some (b, t)
  else if in_range 194 223 b then
    match t with
    | c :: t => if in_range 128 191 c then Some ((b - 192) * 64 + (c - 128), t) else None
    | _ => None
    end
  else if in_range 224 239 b then
    match t with
    | c :: d :: t =>
        if in_range (if b =? 224 then 160 else 128) (if b =? 237 then 159 else 191) c && in_range 128 191 d
        then Some ((b - 224) * 4096 + (c - 128) * 64 + (d - 128), t) else None
    | _ => None
    end
  else if in_range 240 244 b then
    match t with
    | c :: d :: e :: t =>
        if in_range (if b =? 240 then 144 else 128) (if b =? 244 then 143 else 191) c && in_range 128 191 d && in_range 128 191 e
        then Some ((b - 240) * 262144 + (c - 128) * 4096 + (d - 128) * 64 + (e - 128), t) else None
    | _ => None
    end
  else None.

(** Rune by rune; [None] for each byte that is in no encoding. *)
Fixpoint decodeRunes (fuel : nat) (s : bytes) : list (option Z) :=
  match fuel, s with
  | O, _ | _, [] => []
  | S f, b :: t => match decodeRune b t with
                   | Some (r, t) => Some r :: decodeRunes f t
                   | None => None :: decodeRunes f t
                   end
  end.
Definition runes (s : bytes) : list (option Z) := decodeRunes (length s) s.

(** [[]rune(s)], and [utf8.Valid]. *)
Definition string_runes (s : string) : list Z := map (default RuneError) (runes (str_bytes s)).
Definition utf8_valid (s : bytes) : bool := forallb (fun r => bool_decide (is_Some r)) (runes s).

(** Surrogates: [utf16.DecodeRune] of a pair. *)
Definition is_hi (u : Z) : bool := (55296 <=? u) && (u <=? 56319).
Definition is_lo (u : Z) : bool := (56320 <=? u) && (u <=? 57343).
Definition surrogates (hi lo : Z) : Z := (hi - 55296) * 1024 + (lo - 56320) + 65536.

(** ** Lemmas *)

Lemma chr_ord c : chr (ord c) = c.
Proof. unfold chr, ord. by rewrite N2Z.id, ascii_N_embedding. Qed.

Lemma ord_chr z : is_byte z -> ord (chr z) = z.
Proof. unfold is_byte, chr, ord. intros H. rewrite N_ascii_embedding by lia. by rewrite Z2N.id by lia. Qed.

Lemma bytes_str_bytes s : bytes_str (str_bytes s) = s.
Proof.
  unfold bytes_str, str_bytes. rewrite map_map, (map_ext _ id) by apply chr_ord.
  by rewrite map_id, String.string_of_list_ascii_of_string.
Qed.

Lemma str_bytes_str b : Forall is_byte b -> str_bytes (bytes_str b) = b.
Proof.
  intros H. unfold bytes_str, str_bytes. rewrite String.list_ascii_of_string_of_list_ascii, map_map.
  induction H as [|z b Hz _ IH]; [done|]. cbn [map]. by rewrite ord_chr, IH.
Qed.

Lemma str_bytes_bytes s : Forall is_byte (str_bytes s).
Proof.
  unfold str_bytes. apply Forall_forall. intros b (c & -> & _)%list_elem_of_fmap.
  unfold is_byte, ord. pose proof (N_ascii_bounded c). lia.
Qed.

Lemma str_bytes_length s : Z.of_nat (length (str_bytes s)) = slen s.
Proof. unfold str_bytes, slen. by rewrite length_map, list_ascii_length. Qed.

Lemma bytes_str_app a b : bytes_str (a ++ b) = bytes_str a +:+ bytes_str b.
Proof. unfold bytes_str. rewrite map_app. induction (map chr a) as [|c l IH]; [done|]. simpl. by rewrite IH. Qed.

Lemma str_bytes_app a b : str_bytes (a +:+ b) = str_bytes a ++ str_bytes b.
Proof. unfold str_bytes. induction a as [|c a IH]; [done|]. simpl. by rewrite IH. Qed.

Lemma runes_string_app a b : runes_string (a ++ b) = runes_string a +:+ runes_string b.
Proof. unfold runes_string, runes_bytes. by rewrite map_app, join_app, bytes_str_app. Qed.

Lemma utf8_encode_bytes r : Forall is_byte (utf8_encode r).
Proof.
  unfold utf8_encode, rune_ok. repeat case_if; to_prop; repeat (apply Forall_cons; split); try apply Forall_nil_2;
    unfold is_byte; Z.to_euclidean_division_equations; lia.
Qed.

Lemma in_range_reflect lo hi b : reflect (lo <= b <= hi) (in_range lo hi b).
Proof. apply iff_reflect. unfold in_range. rewrite andb_true_iff, !Z.leb_le. lia. Qed.

(** Decides the tests of a decoder from the bounds in the context. *)
Ltac bytes_lia := to_prop; unfold is_byte in *; Z.to_euclidean_division_equations; lia.
Ltac decide_ranges :=
  repeat match goal with
         | |- context [?a <? ?b] => destruct (Z.ltb_spec a b); [try (exfalso; bytes_lia)|try (exfalso; bytes_lia)]
         | |- context [?a =? ?b] => destruct (Z.eqb_spec a b); [try (exfalso; bytes_lia)|try (exfalso; bytes_lia)]
         | |- context [in_range ?a ?b ?c] => destruct (in_range_reflect a b c); [try (exfalso; bytes_lia)|try (exfalso; bytes_lia)]
         end; cbn [andb].

(** Decoding an encoding, and encoding what was decoded. *)
Lemma decodeRune_encode r t : rune_ok r = true ->
  exists b u, utf8_encode r ++ t = b :: u /\ decodeRune b u = Some (r, t).
Proof.
  intros Hr. unfold utf8_encode. rewrite Hr. cbn [negb]. unfold rune_ok in Hr. to_prop.
  all: destruct (Z.ltb_spec r 128); [|destruct (Z.ltb_spec r 2048); [|destruct (Z.ltb_spec r 65536)]]; cbn [app]; do 2 eexists; (split; [reflexivity|]).
  all: unfold decodeRune.
  all: decide_ranges. all: do 2 f_equal; bytes_lia.
Qed.

Lemma utf8_encode_inv r b t u : rune_ok r = true ->
  (if r <? 128 then [r] else if r <? 2048 then [192 + r / 64; 128 + r mod 64]
   else if r <? 65536 then [224 + r / 4096; 128 + r / 64 mod 64; 128 + r mod 64]
   else [240 + r / 262144; 128 + r / 4096 mod 64; 128 + r / 64 mod 64; 128 + r mod 64]) ++ u = b :: t ->
  rune_ok r = true /\ b :: t = utf8_encode r ++ u.
Proof. intros Hr H. split; [done|]. unfold utf8_encode. rewrite Hr. by symmetry. Qed.

Lemma decodeRune_inv b t r u : is_byte b -> Forall is_byte t -> decodeRune b t = Some (r, u) ->
  rune_ok r = true /\ b :: t = utf8_encode r ++ u.
Proof.
  intros Hb Ht H. unfold decodeRune in H.
  repeat match type of H with
         | (if ?x then _ else _) = _ => destruct x eqn:?; try discriminate H
         | (match ?x with _ => _ end) = _ => destruct x; try discriminate H
         end; injection H as <- <-; decompose_Forall_hyps; unfold in_range, is_byte in *; to_prop.
  all: repeat match goal with H : context [if ?b =? ?n then _ else _] |- _ => destruct (Z.eqb_spec b n) end.
  all: apply utf8_encode_inv;
    [unfold rune_ok; rewrite !andb_true_iff, negb_true_iff, andb_false_iff, !Z.leb_le, !Z.leb_gt; lia|].
  all: repeat match goal with |- context [?a <? ?b] => destruct (Z.ltb_spec a b); [try (exfalso; lia)|try (exfalso; lia)] end.
  all: cbn [app]; repeat f_equal; bytes_lia.
Qed.

(** Enough fuel is enough. *)
Lemma decodeRune_length b t r u : decodeRune b t = Some (r, u) -> (length u <= length t)%nat.
Proof.
  unfold decodeRune. intros H.
  repeat match type of H with
         | (if ?x then _ else _) = _ => destruct x; try discriminate H
         | (match ?x with _ => _ end) = _ => destruct x; try discriminate H
         end; injection H as _ <-; cbn [length]; lia.
Qed.

Lemma decodeRunes_fuel n m s : (length s <= n)%nat -> (length s <= m)%nat -> decodeRunes n s = decodeRunes m s.
Proof.
  revert m s. induction n as [|n IH]; intros m [|b t] Hn Hm; cbn [length] in *; try lia; [by destruct m..|].
  destruct m as [|m]; [lia|]. cbn [decodeRunes].
  destruct (decodeRune b t) as [[r u]|] eqn:E; f_equal; [apply decodeRune_length in E|]; apply IH; lia.
Qed.

Lemma runes_encode r s : rune_ok r = true -> runes (utf8_encode r ++ s) = Some r :: runes s.
Proof.
  intros Hr. destruct (decodeRune_encode r s Hr) as (b & u & E & D). unfold runes. rewrite E. cbn [length decodeRunes]. rewrite D.
  f_equal. apply decodeRunes_fuel; [by apply decodeRune_length in D|done].
Qed.

Lemma runes_bytes_decode rs : Forall (fun r => rune_ok r = true) rs -> runes (runes_bytes rs) = map Some rs.
Proof. induction 1 as [|r rs Hr _ IH]; [done|]. change (runes_bytes (r :: rs)) with (utf8_encode r ++ runes_bytes rs). cbn [map]. by rewrite runes_encode, IH. Qed.

(** What is decoded are runes, and they are the text where it is valid. *)
Lemma runes_ok s : Forall is_byte s -> Forall (fun o => forall r, o = Some r -> rune_ok r = true) (runes s) /\
  (utf8_valid s = true -> exists rs, runes s = map Some rs /\ s = runes_bytes rs).
Proof.
  unfold utf8_valid, runes. generalize (le_n (length s)). generalize (length s) at 2 3 4 5 as n. intros n.
  revert s. induction n as [|n IH]; intros [|b t] Hn Hs; cbn [length] in *; try lia; cbn [decodeRunes]; [by split; [|exists []]..|].
  apply Forall_cons in Hs as [Hb Ht]. destruct (decodeRune b t) as [[r u]|] eqn:E.
  - pose proof (decodeRune_length _ _ _ _ E). destruct (decodeRune_inv b t r u Hb Ht E) as [Hr Er].
    assert (Forall is_byte u) as Hu.
    { assert (Forall is_byte (b :: t)) as H' by (by apply Forall_cons). rewrite Er in H'. by apply Forall_app in H' as [_ ?]. }
    destruct (IH u ltac:(lia) Hu) as [H1 H2]. split; [apply Forall_cons; split; [congruence|done]|].
    cbn [forallb]. intros [_ Hv]%andb_true_iff. destruct (H2 Hv) as (rs & -> & ->). exists (r :: rs). by rewrite Er.
  - destruct (IH t ltac:(lia) Ht) as [H1 H2]. split; [by apply Forall_cons|]. done.
Qed.

Lemma string_runes_ok s : Forall (fun r => rune_ok r = true) (string_runes s).
Proof.
  unfold string_runes. apply Forall_fmap. eapply Forall_impl; [apply runes_ok, str_bytes_bytes|].
  intros [r|] H; [by apply H|done].
Qed.

Lemma runes_bytes_bytes rs : Forall is_byte (runes_bytes rs).
Proof. unfold runes_bytes. induction rs as [|r rs IH]; [done|]. cbn. apply Forall_app. by split; [apply utf8_encode_bytes|]. Qed.

(** A text of runes is decoded into them. *)
Lemma runes_of_string rs : Forall (fun r => rune_ok r = true) rs -> runes (str_bytes (runes_string rs)) = map Some rs.
Proof. intros H. unfold runes_string. by rewrite str_bytes_str, runes_bytes_decode by (done || apply runes_bytes_bytes). Qed.
Lemma string_runes_string rs : Forall (fun r => rune_ok r = true) rs -> string_runes (runes_string rs) = rs.
Proof. intros H. unfold string_runes. rewrite runes_of_string, map_map by done. apply map_id. Qed.

Lemma valid_string s : utf8_valid (str_bytes s) = true -> runes_string (string_runes s) = s.
Proof.
  intros H. destruct (proj2 (runes_ok (str_bytes s) (str_bytes_bytes s)) H) as (rs & E & E').
  unfold string_runes, runes_string. rewrite E, map_map, (map_ext _ id) by done. by rewrite map_id, <- E', bytes_str_bytes.
Qed.
Lemma runes_string_valid rs : Forall (fun r => rune_ok r = true) rs -> utf8_valid (str_bytes (runes_string rs)) = true.
Proof. intros H. unfold utf8_valid. rewrite runes_of_string by done. by induction H. Qed.

(** [strings.ToValidUTF8] with the replacement character for each byte: what
    an encoder makes of a text. *)
Definition ToValid (s : string) : string := runes_string (string_runes s).
Lemma ToValid_valid s : utf8_valid (str_bytes (ToValid s)) = true.
Proof. apply runes_string_valid, string_runes_ok. Qed.

Definition isText (s : string) : bool := utf8_valid (str_bytes s).
Lemma ToValid_id s : isText s = true -> ToValid s = s.
Proof. apply valid_string. Qed.
