(* ===== verification/Json.v ===== *)
(** * Json: values, their text and its reading

    Go's [encoding/json] as far as the program uses it.  The writer escapes strings
    for HTML and lays a value out on one line or indented; the reader is the
    scanner of the library, a machine that takes one character at a time and keeps
    the containers it is in, so that it needs no fuel.  Reading what was written
    gives the value back.  Standard-library code: nothing here is mapped to the
    repository. *)

From S2P Require Export Prelude GoStrings Utf8.

(** A number is its text. *)
Inductive Json :=
| JNull | JBool (b : bool) | JNum (text : string) | JStr (s : string)
| JArr (l : list Json) | JObj (ms : list (string * Json)).

(** ** Strings *)

Definition jhex (n : Z) : Z := if n <? 10 then 48 + n else 87 + n.

(** The characters written for a rune; [None] is a byte that is no text. *)
Definition escRune (o : option Z) : list Z :=
  match o with
  | None => map ord (String.list_ascii_of_string "\ufffd")
  | Some r =>
      if (r =? 34) || (r =? 92) then [92; r]
      else if r =? 8 then [92; 98] else if r =? 12 then [92; 102] else if r =? 10 then [92; 110]
      else if r =? 13 then [92; 114] else if r =? 9 then [92; 116]
      else if (r <? 32) || (r =? 60) || (r =? 62) || (r =? 38) then [92; 117; 48; 48; jhex (r / 16); jhex (r mod 16)]
      else if (r =? 8232) || (r =? 8233) then [92; 117; 50; 48; 50; jhex (r mod 16)]
      else [r]
  end.

Definition quoteMark : string := String (chr 34) "".
Definition escText (s : string) : string := runes_string (mjoin (map escRune (runes (str_bytes s)))).
Definition encodeString (s : string) : string := quoteMark +:+ escText s +:+ quoteMark.

(** The value of a hexadecimal digit, and of four. *)
Definition hexVal (c : Z) : option Z :=
  if in_range 48 57 c then Some (c - 48) else if in_range 97 102 c then Some (c - 87)
  else if in_range 65 70 c then Some (c - 55) else None.
Definition hex4 (a b c d : Z) : option Z :=
  a ← hexVal a; b ← hexVal b; c ← hexVal c; d ← hexVal d; Some (((a * 16 + b) * 16 + c) * 16 + d).

Definition simpleEscape (e : Z) : option Z :=
  if (e =? 34) || (e =? 92) || (e =? 47) || (e =? 39) then Some e
  else if e =? 98 then Some 8 else if e =? 102 then Some 12 else if e =? 110 then Some 10
  else if e =? 114 then Some 13 else if e =? 116 then Some 9 else None.

(** [unquote] on the runes between the quotes.  A surrogate without its pair is
    the replacement character, and what follows it is read on its own. *)
Fixpoint unescape (l : list Z) : option (list Z) :=
  match l with
  | [] => Some []
  | r :: t =>
      if negb (r =? 92) then (if (r =? 34) || (r <? 32) then None else cons r <$> unescape t)
      else
        match t with
        | [] => None
        | e :: t =>
            if negb (e =? 117) then v ← simpleEscape e; cons v <$> unescape t
            else
              match t with
              | a :: b :: c :: d :: t =>
                  v ← hex4 a b c d;
                  if negb (is_hi v || is_lo v) then cons v <$> unescape t
                  else
                    match t with
                    | s :: u :: a :: b :: c :: d :: t' =>
                        if (s =? 92) && (u =? 117) && is_hi v && default false (is_lo <$> hex4 a b c d)
                        then cons (surrogates v (default 0 (hex4 a b c d))) <$> unescape t'
                        else cons RuneError <$> unescape t
                    | _ => cons RuneError <$> unescape t
                    end
              | _ => None
              end
        end
  end.
Definition unquote (raw : string) : option string := runes_string <$> unescape (string_runes raw).

(** ** The writer *)

(** What stands between members: a line break with the indentation of a depth, or
    nothing; and what stands after a name. *)
Record Layout := mkLayout { newline : nat -> string; colon : string }.
Definition compact : Layout := mkLayout (fun _ => "") ":".
Fixpoint spaces (n : nat) : string := match n with O => "" | S n => "  " +:+ spaces n end.
Definition indented : Layout := mkLayout (fun n => String (chr 10) (spaces n)) ": ".

Section Writer.
Context (ly : Layout).
Definition enclosed (opening closing : string) (n : nat) (items : list string) : string :=
  match items with
  | [] => opening +:+ closing
  | _ => opening +:+ newline ly (S n) +:+ Join items ("," +:+ newline ly (S n)) +:+ newline ly n +:+ closing
  end.
Fixpoint print (n : nat) (v : Json) : string :=
  match v with
  | JNull => "null"
  | JBool b => if b then "true" else "false"
  | JNum t => t
  | JStr s => encodeString s
  | JArr l => enclosed "[" "]" n (map (print (S n)) l)
  | JObj ms => enclosed "{" "}" n (map (fun m => encodeString m.1 +:+ colon ly +:+ print (S n) m.2) ms)
  end.
End Writer.

(** [json.Marshal] and [json.MarshalIndent(v, "", "  ")] of a value. *)
Definition Marshal (v : Json) : string := print compact 0 v.
Definition MarshalIndent (v : Json) : string := print indented 0 v.

(** ** The reader *)

Inductive NumState := NNeg | N0 | N1 | NDot | NDot0 | NE | NESign | NE0.
Inductive Frame := FArr (l : list Json) | FKey (ms : list (string * Json)) | FVal (ms : list (string * Json)) (key : string).
Inductive Mode :=
| MValue | MValueOrEmpty | MKey | MKeyOrEmpty
| MStr (raw : string) | MEsc (raw : string) | MHex (k : nat) (raw : string)
| MNum (st : NumState) (raw : string) | MLit (rest : string) (v : Json) | MEnd (v : Json).
Abbreviation Scan := (list Frame * Mode)%type.

Definition maxNestingDepth : nat := 100 * 100.
Definition isWs (c : ascii) : bool := (ord c =? 32) || (ord c =? 9) || (ord c =? 10) || (ord c =? 13).
Definition snoc (s : string) (c : ascii) : string := s +:+ String c "".

(** What a character makes of a number; [None] when it is no part of it. *)
Definition numStep (st : NumState) (c : ascii) : option NumState :=
  let digit := is_digit c in
  let e := Ascii.eqb c "e" || Ascii.eqb c "E" in
  match st with
  | NNeg => if Ascii.eqb c "0" then Some N0 else if digit then Some N1 else None
  | N0 => if Ascii.eqb c "." then Some NDot else if e then Some NE else None
  | N1 => if digit then Some N1 else if Ascii.eqb c "." then Some NDot else if e then Some NE else None
  | NDot => if digit then Some NDot0 else None
  | NDot0 => if digit then Some NDot0 else if e then Some NE else None
  | NE => if Ascii.eqb c "+" || Ascii.eqb c "-" then Some NESign else if digit then Some NE0 else None
  | NESign | NE0 => if digit then Some NE0 else None
  end.
Definition numEnds (st : NumState) : bool := match st with N0 | N1 | NDot0 | NE0 => true | _ => false end.

Definition push (stk : list Frame) (f : Frame) (m : Mode) : option Scan :=
  if (S (length stk) <=? maxNestingDepth)%nat then Some (f :: stk, m) else None.

Definition beginValue (stk : list Frame) (c : ascii) : option Scan :=
  if isWs c then Some (stk, MValue)
  else if Ascii.eqb c "{" then push stk (FKey []) MKeyOrEmpty
  else if Ascii.eqb c "[" then push stk (FArr []) MValueOrEmpty
  else if ord c =? 34 then Some (stk, MStr "")
  else if Ascii.eqb c "-" then Some (stk, MNum NNeg "-")
  else if Ascii.eqb c "0" then Some (stk, MNum N0 "0")
  else if Ascii.eqb c "t" then Some (stk, MLit "rue" (JBool true))
  else if Ascii.eqb c "f" then Some (stk, MLit "alse" (JBool false))
  else if Ascii.eqb c "n" then Some (stk, MLit "ull" JNull)
  else if is_digit c then Some (stk, MNum N1 (String c ""))
  else None.

(** After a value. *)
Definition endValue (stk : list Frame) (v : Json) (c : ascii) : option Scan :=
  if isWs c then Some (stk, MEnd v)
  else
    match stk with
    | [] => None
    | FKey ms :: stk => match v with
                        | JStr key => if Ascii.eqb c ":" then Some (FVal ms key :: stk, MValue) else None
                        | _ => None
                        end
    | FVal ms key :: stk =>
        if Ascii.eqb c "," then Some (FKey (ms ++ [(key, v)]) :: stk, MKey)
        else if Ascii.eqb c "}" then Some (stk, MEnd (JObj (ms ++ [(key, v)]))) else None
    | FArr l :: stk =>
        if Ascii.eqb c "," then Some (FArr (l ++ [v]) :: stk, MValue)
        else if Ascii.eqb c "]" then Some (stk, MEnd (JArr (l ++ [v]))) else None
    end.

Definition beginKey (stk : list Frame) (c : ascii) : option Scan :=
  if isWs c then Some (stk, MKey) else if ord c =? 34 then Some (stk, MStr "") else None.

Definition step (st : Scan) (c : ascii) : option Scan :=
  let '(stk, m) := st in
  match m with
  | MValue => beginValue stk c
  | MValueOrEmpty =>
      if isWs c then Some (stk, MValueOrEmpty)
      else if Ascii.eqb c "]" then match stk with FArr l :: stk => Some (stk, MEnd (JArr l)) | _ => None end
      else beginValue stk c
  | MKey => beginKey stk c
  | MKeyOrEmpty =>
      if isWs c then Some (stk, MKeyOrEmpty)
      else if Ascii.eqb c "}" then match stk with FKey ms :: stk => Some (stk, MEnd (JObj ms)) | _ => None end
      else beginKey stk c
  | MStr raw =>
      if ord c =? 34 then s ← unquote raw; Some (stk, MEnd (JStr s))
      else if ord c =? 92 then Some (stk, MEsc (snoc raw c))
      else if ord c <? 32 then None else Some (stk, MStr (snoc raw c))
  | MEsc raw =>
      if in_chars "bfnrt\/" c || (ord c =? 34) then Some (stk, MStr (snoc raw c))
      else if Ascii.eqb c "u" then Some (stk, MHex 4 (snoc raw c)) else None
  | MHex k raw =>
      if is_hex c then Some (stk, match k with S (S k) => MHex (S k) (snoc raw c) | _ => MStr (snoc raw c) end) else None
  | MNum n raw =>
      match numStep n c with
      | Some n => Some (stk, MNum n (snoc raw c))
      | None => if numEnds n then endValue stk (JNum raw) c else None
      end
  | MLit rest v =>
      match rest with
      | String d "" => if Ascii.eqb c d then Some (stk, MEnd v) else None
      | String d rest => if Ascii.eqb c d then Some (stk, MLit rest v) else None
      | "" => None
      end
  | MEnd v => endValue stk v c
  end.

Fixpoint scan (st : Scan) (s : string) : option Scan :=
  match s with "" => Some st | String c s => st ← step st c; scan st s end.

Definition finish (st : Scan) : option Json :=
  match st with
  | ([], MEnd v) => Some v
  | ([], MNum n raw) => if numEnds n then Some (JNum raw) else None
  | _ => None
  end.

(** What [json.Unmarshal] makes of a text before it looks at the types. *)
Definition parse (s : string) : option Json := st ← scan ([], MValue) s; finish st.

(** ** Lemmas: strings *)

(** Induction through lists and members. *)
Section Induction.
Context (P : Json -> Prop).
Context (Hnull : P JNull) (Hbool : forall b, P (JBool b)) (Hnum : forall t, P (JNum t)) (Hstr : forall s, P (JStr s)).
Context (Harr : forall l, Forall P l -> P (JArr l)) (Hobj : forall ms, Forall (fun m => P m.2) ms -> P (JObj ms)).
Definition json_induction : forall v, P v :=
  fix F v := match v with
             | JNull => Hnull | JBool b => Hbool b | JNum t => Hnum t | JStr s => Hstr s
             | JArr l => Harr l ((fix G l : Forall P l := match l with [] => Forall_nil_2 _ | v :: l => Forall_cons_2 _ _ _ (F v) (G l) end) l)
             | JObj ms => Hobj ms ((fix G ms : Forall (fun m => P m.2) ms := match ms with [] => Forall_nil_2 _ | m :: ms => Forall_cons_2 _ m _ (F m.2) (G ms) end) ms)
             end.
End Induction.

Lemma hexVal_jhex d : 0 <= d < 16 -> hexVal (jhex d) = Some d.
Proof. unfold hexVal, jhex. intros H. decide_ranges; try (f_equal; lia); exfalso; lia. Qed.

Lemma rune_ok_ascii r : 0 <= r < 128 -> rune_ok r = true.
Proof. intros H. unfold rune_ok. rewrite !andb_true_iff, negb_true_iff, andb_false_iff, !Z.leb_le, !Z.leb_gt. lia. Qed.

Definition hexDigit (x : Z) : Prop := exists y, 0 <= y < 16 /\ x = jhex y.
Lemma hexDigit_jhex y : 0 <= y < 16 -> hexDigit (jhex y).
Proof. by exists y. Qed.

(** The ways a rune is written. *)
Inductive Written : option Z -> list Z -> Prop :=
| WBad : Written None [92; 117; 102; 102; 102; 100]
| WSimple r e : simpleEscape e = Some r -> e ∈ [34; 92; 98; 102; 110; 114; 116] -> Written (Some r) [92; e]
| WHex r a b c d : hex4 a b c d = Some r -> is_hi r = false -> is_lo r = false ->
    Forall hexDigit [a; b; c; d] -> Written (Some r) [92; 117; a; b; c; d]
| WPlain r : 32 <= r -> r <> 34 -> r <> 92 -> Written (Some r) [r].

Lemma escRune_written o : (forall r, o = Some r -> rune_ok r = true) -> Written o (escRune o).
Proof.
  destruct o as [r|]; [|constructor]. intros Hr. specialize (Hr r eq_refl). unfold rune_ok in Hr. to_prop.
  all: unfold escRune.
  all: destruct (Z.eqb_spec r 34) as [->|]; [apply WSimple; [done|set_solver]|].
  all: destruct (Z.eqb_spec r 92) as [->|]; [apply WSimple; [done|set_solver]|]; cbn [orb].
  all: destruct (Z.eqb_spec r 8) as [->|]; [apply WSimple; [done|set_solver]|].
  all: destruct (Z.eqb_spec r 12) as [->|]; [apply WSimple; [done|set_solver]|].
  all: destruct (Z.eqb_spec r 10) as [->|]; [apply WSimple; [done|set_solver]|].
  all: destruct (Z.eqb_spec r 13) as [->|]; [apply WSimple; [done|set_solver]|].
  all: destruct (Z.eqb_spec r 9) as [->|]; [apply WSimple; [done|set_solver]|].
  all: destruct (_ || (r =? 38)) eqn:E.
  all: try (assert (r < 63) by (rewrite !orb_true_iff, Z.ltb_lt, !Z.eqb_eq in E; lia); apply WHex;
    [unfold hex4; change 48 with (jhex 0); rewrite !hexVal_jhex by bytes_lia; cbn [mbind option_bind]; f_equal; bytes_lia
    |unfold is_hi; apply andb_false_iff; left; apply Z.leb_gt; lia|unfold is_lo; apply andb_false_iff; left; apply Z.leb_gt; lia|
    repeat (apply Forall_cons; split); try apply Forall_nil_2; first [apply hexDigit_jhex; bytes_lia | by exists 0]]).
  all: destruct (_ || (r =? 8233)) eqn:E2.
  all: try (rewrite orb_true_iff, !Z.eqb_eq in E2; destruct E2 as [->| ->];
    (apply WHex; [reflexivity|reflexivity|reflexivity|]); repeat (apply Forall_cons; split); try apply Forall_nil_2; first [by exists 0 | by exists 2 | by exists 8 | by exists 9]).
  all: rewrite !orb_false_iff, Z.ltb_ge in E; apply WPlain; lia.
Qed.

Lemma unescape_written o w t : Written o w -> unescape (w ++ t) = cons (default RuneError o) <$> unescape t.
Proof.
  intros [|r e He _|r a b c d Hv Hh Hl _|r H1 H2 H3]; cbn [app unescape].
  - reflexivity.
  - change (92 =? 92) with true. cbn [negb]. assert ((e =? 117) = false) as -> by (apply Z.eqb_neq; intros ->; done).
    cbn [negb]. by rewrite He.
  - change (92 =? 92) with true. change (117 =? 117) with true. cbn [negb]. rewrite Hv. cbn [mbind option_bind]. by rewrite Hh, Hl.
  - assert ((r =? 92) = false) as -> by by apply Z.eqb_neq. assert ((r =? 34) = false) as -> by by apply Z.eqb_neq.
    assert ((r <? 32) = false) as -> by (apply Z.ltb_ge; lia). done.
Qed.

Lemma written_runes o w : Written o w -> (forall r, o = Some r -> rune_ok r = true) -> Forall (fun r => rune_ok r = true) w.
Proof.
  intros [|r e _ He|r a b c d _ _ _ H|r _ _ _] Hr.
  - by repeat constructor.
  - do 2 (apply Forall_cons; split; [try done|]); [|done]. rewrite !elem_of_cons, elem_of_nil in He. apply rune_ok_ascii. lia.
  - do 2 (apply Forall_cons; split; [done|]). eapply Forall_impl; [exact H|]. intros x (y & Hy & ->).
    apply rune_ok_ascii. unfold jhex. case_match; lia.
  - apply Forall_singleton. by apply Hr.
Qed.

Lemma escText_runes s : Forall (fun r => rune_ok r = true) (mjoin (map escRune (runes (str_bytes s)))).
Proof.
  pose proof (proj1 (runes_ok (str_bytes s) (str_bytes_bytes s))) as H. induction H as [|o os Ho _ IH]; [done|].
  change (mjoin (map escRune (o :: os))) with (escRune o ++ mjoin (map escRune os)). apply Forall_app. split; [|done].
  eapply written_runes; [by apply escRune_written|done].
Qed.

(** What was escaped is the text, with the replacement character for what was none. *)
Lemma unquote_escText s : unquote (escText s) = Some (ToValid s).
Proof.
  unfold unquote, escText, ToValid. rewrite string_runes_string by apply escText_runes. unfold string_runes.
  enough (unescape (mjoin (map escRune (runes (str_bytes s)))) = Some (map (default RuneError) (runes (str_bytes s)))) as -> by done.
  pose proof (proj1 (runes_ok (str_bytes s) (str_bytes_bytes s))) as H. induction H as [|o os Ho _ IH]; [done|].
  change (mjoin (map escRune (o :: os))) with (escRune o ++ mjoin (map escRune os)).
  rewrite (unescape_written o) by (by apply escRune_written). by rewrite IH.
Qed.

(** ** Lemmas: the scanner on strings *)

Lemma scan_app st a b : scan st (a +:+ b) = scan st a ≫= fun st => scan st b.
Proof. revert st. induction a as [|c a IH]; intros st; [done|]. cbn [String.append scan]. destruct (step st c); [apply IH|done]. Qed.

Definition plainChar (c : ascii) : bool := (32 <=? ord c) && negb (ord c =? 34) && negb (ord c =? 92).

Lemma scan_plain stk raw s : str_forall plainChar s = true -> scan (stk, MStr raw) s = Some (stk, MStr (raw +:+ s)).
Proof.
  revert raw. induction s as [|c s IH]; intros raw H; [by rewrite app_nil_r_str|]. cbn [str_forall] in H. unfold plainChar in H at 1. to_prop.
  cbn [scan step]. rewrite (proj2 (Z.eqb_neq _ _)), (proj2 (Z.eqb_neq (ord c) 92)), (proj2 (Z.ltb_ge _ _)) by done.
  cbn [mbind option_bind]. rewrite IH by done. unfold snoc. by rewrite <- app_assoc_str.
Qed.

Lemma utf8_encode_plain r : 32 <= r -> r <> 34 -> r <> 92 -> str_forall plainChar (runes_string [r]) = true.
Proof.
  intros H1 H2 H3. unfold runes_string, runes_bytes. cbn [map mjoin list_join]. rewrite app_nil_r.
  assert (Forall (fun b => is_byte b /\ 32 <= b /\ b <> 34 /\ b <> 92) (utf8_encode r)) as H.
  { unfold utf8_encode. repeat case_if; unfold rune_ok in *; to_prop; repeat (apply Forall_cons; split); try apply Forall_nil_2; bytes_lia. }
  induction H as [|b bs (Hb & Hb1 & Hb2 & Hb3) _ IH]; [done|]. cbn. apply andb_true_iff. split; [|exact IH].
  unfold plainChar. rewrite ord_chr by done. rewrite !andb_true_iff, !negb_true_iff, !Z.eqb_neq. split_and!; [|done..]. apply Z.leb_le. lia.
Qed.

Lemma jhex_char x : hexDigit x -> is_hex (chr x) = true /\ runes_string [x] = String (chr x) "".
Proof.
  intros (y & Hy & ->). assert (y ∈ [0;1;2;3;4;5;6;7;8;9;10;11;12;13;14;15]) as H by (rewrite !elem_of_cons; lia).
  rewrite !elem_of_cons, elem_of_nil in H. destruct_or! H; subst; try done; by split.
Qed.

Lemma scan_hex stk raw a b c d : is_hex a = true -> is_hex b = true -> is_hex c = true -> is_hex d = true ->
  let s := String "\" (String "u" (String a (String b (String c (String d ""))))) in
  scan (stk, MStr raw) s = Some (stk, MStr (raw +:+ s)).
Proof.
  intros Ha Hb Hc Hd. cbn [scan]. change (step (stk, MStr raw) "\") with (Some (stk, MEsc (snoc raw "\"))). cbn [mbind option_bind].
  change (step (stk, MEsc ?r) "u") with (Some (stk, MHex 4 (snoc r "u"))). cbn [mbind option_bind].
  cbn [step]. rewrite Ha. cbn [mbind option_bind step]. rewrite Hb. cbn [mbind option_bind step]. rewrite Hc.
  cbn [mbind option_bind step]. rewrite Hd. cbn [mbind option_bind]. unfold snoc. by rewrite <- !app_assoc_str.
Qed.

Lemma written_scan stk raw o w : Written o w -> scan (stk, MStr raw) (runes_string w) = Some (stk, MStr (raw +:+ runes_string w)).
Proof.
  intros Hw. destruct Hw as [|r e _ He|r a b c d _ _ _ H|r H1 H2 H3].
  - lazy -[String.append]. by rewrite <- !app_assoc_str.
  - rewrite !elem_of_cons, elem_of_nil in He. destruct_or! He; subst; try done; lazy -[String.append]; by rewrite <- !app_assoc_str.
  - assert (forall x, hexDigit x -> is_hex (chr x) = true /\ runes_string [x] = String (chr x) "") as Hx by apply jhex_char.
    change [92; 117; a; b; c; d] with ([92; 117] ++ [a] ++ [b] ++ [c] ++ [d]). rewrite !runes_string_app.
    decompose_Forall_hyps. repeat match goal with H : hexDigit _ |- _ => destruct (Hx _ H) as [? ->]; clear H end.
    cbn [app]. change (runes_string [92; 117]) with "\u". change ("\u" +:+ ?s) with (String "\" (String "u" s)). cbn [String.append]. by apply scan_hex.
  - by apply scan_plain, utf8_encode_plain.
Qed.

Lemma scan_string stk s rest : scan (stk, MStr "") (escText s +:+ quoteMark +:+ rest) = scan (stk, MEnd (JStr (ToValid s))) rest.
Proof.
  rewrite scan_app. enough (forall raw, scan (stk, MStr raw) (escText s) = Some (stk, MStr (raw +:+ escText s))) as ->.
  { cbn [mbind option_bind quoteMark String.append scan step]. change (ord (chr 34) =? 34) with true. by rewrite unquote_escText. }
  unfold escText. pose proof (proj1 (runes_ok (str_bytes s) (str_bytes_bytes s))) as H.
  induction H as [|o os Ho _ IH]; intros raw; [by cbn; rewrite app_nil_r_str|].
  change (mjoin (map escRune (o :: os))) with (escRune o ++ mjoin (map escRune os)). rewrite runes_string_app, scan_app.
  rewrite (written_scan _ _ o) by (by apply escRune_written). cbn [mbind option_bind]. rewrite IH. by rewrite app_assoc_str.
Qed.

(** ** Lemmas: numbers, white space and what may follow a value *)

Fixpoint numRun (n : NumState) (s : string) : option NumState :=
  match s with "" => Some n | String c s => n ← numStep n c; numRun n s end.
(** The grammar of numbers. *)
Definition numText (t : string) : bool :=
  match t with
  | String c s =>
      let start := if Ascii.eqb c "-" then Some NNeg else if Ascii.eqb c "0" then Some N0 else if is_digit c then Some N1 else None in
      default false (numEnds <$> (n ← start; numRun n s))
  | "" => false
  end.

Lemma scan_numRun stk n raw s m : numRun n s = Some m -> scan (stk, MNum n raw) s = Some (stk, MNum m (raw +:+ s)).
Proof.
  revert n raw. induction s as [|c s IH]; intros n raw H; [injection H as ->; by rewrite app_nil_r_str|].
  cbn [numRun] in H. apply bind_Some in H as (n' & E & H). cbn [scan step]. rewrite E. cbn [mbind option_bind].
  rewrite (IH _ _ H). unfold snoc. by rewrite <- app_assoc_str.
Qed.

Definition stop (c : ascii) : bool := isWs c || in_chars ",]}" c.
Lemma numStep_stop n c : stop c = true -> numStep n c = None.
Proof.
  assert (forallb (fun c => negb (stop c) || forallb (fun n => bool_decide (numStep n c = None)) [NNeg; N0; N1; NDot; NDot0; NE; NESign; NE0]) all_ascii = true)
    as H by by vm_compute.
  pose proof (ascii_forall (fun c => negb (stop c) || forallb (fun n => bool_decide (numStep n c = None)) [NNeg; N0; N1; NDot; NDot0; NE; NESign; NE0]) H c) as Hc.
  intros Hs. cbn beta in Hc. rewrite Hs in Hc. cbn in Hc. to_prop. by destruct n.
Qed.

Definition allWs (s : string) : bool := str_forall isWs s.

(** A state in which the value [v] has been read. *)
Definition Ends (stk : list Frame) (v : Json) (st : Scan) : Prop :=
  st = (stk, MEnd v) \/ exists n raw, v = JNum raw /\ st = (stk, MNum n raw) /\ numEnds n = true.

Lemma Ends_step stk v st c : Ends stk v st -> stop c = true -> step st c = endValue stk v c.
Proof. intros [->|(n & raw & -> & -> & Hn)] Hc; [done|]. cbn [step]. by rewrite numStep_stop, Hn. Qed.

(** The modes in which white space is skipped. *)
Definition skips (st : Scan) : Prop := match st.2 with MValue | MValueOrEmpty | MKey | MKeyOrEmpty | MEnd _ => True | _ => False end.
Lemma scan_ws st s : skips st -> allWs s = true -> scan st s = Some st.
Proof.
  intros Hs. induction s as [|c s IH]; [done|]. cbn [allWs str_forall]. intros [Hc H]%andb_true_iff. cbn [scan].
  assert (step st c = Some st) as ->; [|by apply IH].
  destruct st as [stk []]; try done; cbn [step]; unfold beginValue, beginKey, endValue; by rewrite Hc.
Qed.

(** What follows a value: white space, and the character [k] answers for. *)
Definition Done (k : ascii -> option Scan) (st : Scan) : Prop := forall w c r,
  allWs w = true -> in_chars ",]}" c = true -> scan st (w +:+ String c r) = k c ≫= fun st => scan st r.

Lemma Ends_Done stk v st : Ends stk v st -> Done (endValue stk v) st.
Proof.
  intros H w c r Hw Hc. destruct w as [|d w].
  - cbn [String.append scan]. rewrite (Ends_step stk v st c H); [done|]. unfold stop. by rewrite Hc, orb_true_r.
  - cbn [allWs str_forall] in Hw. apply andb_true_iff in Hw as [Hd Hw]. cbn [String.append scan].
    rewrite (Ends_step stk v st d H) by (unfold stop; by rewrite Hd). unfold endValue at 1. rewrite Hd. cbn [mbind option_bind].
    by rewrite scan_app, scan_ws.
Qed.

(** ** Lemmas: the members of a container *)

Section Items.
Context {A B : Type} (text : A -> string) (value : A -> B) (frame : list B -> Frame) (close : list B -> Json).
Context (stk : list Frame) (m1 : Mode) (closing : ascii) (nl nl' : string).
Context (Hnl : allWs nl = true) (Hnl' : allWs nl' = true) (Hclosing : in_chars ",]}" closing = true) (Hne : closing <> ","%char).
Context (Hm1 : forall f, skips (f, m1)).
Definition after (acc : list B) (a : A) (c : ascii) : option Scan :=
  if Ascii.eqb c "," then Some (frame (acc ++ [value a]) :: stk, m1)
  else if Ascii.eqb c closing then Some (stk, MEnd (close (acc ++ [value a]))) else None.

Lemma scan_items l m acc : l <> [] -> (m = m1 \/ forall f, skips (f, m)) ->
  (forall a m' acc, a ∈ l -> m' = m \/ m' = m1 -> exists st, scan (frame acc :: stk, m') (text a) = Some st /\ Done (after acc a) st) ->
  scan (frame acc :: stk, m) (nl +:+ Join (map text l) ("," +:+ nl) +:+ nl' +:+ String closing "") =
  Some (stk, MEnd (close (acc ++ map value l))).
Proof.
  revert m acc. induction l as [|a l IH]; intros m acc Hl Hm Hitem; [done|].
  rewrite scan_app, scan_ws by (destruct Hm as [->|Hm]; done). cbn [mbind option_bind].
  destruct (Hitem a m acc ltac:(left) (or_introl eq_refl)) as (st & Hst & Hdone).
  destruct l as [|b l].
  - cbn [map Join]. rewrite scan_app, Hst. cbn [mbind option_bind]. rewrite Hdone by done. unfold after.
    destruct (Ascii.eqb_spec closing ","%char); [done|]. by rewrite Ascii.eqb_refl.
  - cbn [map]. rewrite Join_cons, <- !app_assoc_str, scan_app, Hst by done. cbn [mbind option_bind].
    change ("," +:+ ?s) with ("" +:+ String "," s). rewrite Hdone by done. unfold after at 1. rewrite Ascii.eqb_refl. cbn [mbind option_bind].
    change (text b :: map text l) with (map text (b :: l)). rewrite IH; [by rewrite <- app_assoc|done|by left|].
    intros a' m' acc' Ha' Hm'. apply Hitem; [by right|]. destruct Hm' as [->| ->]; by right.
Qed.
End Items.

Lemma Done_ext k k' st : Done k st -> (forall c, in_chars ",]}" c = true -> k c = k' c) -> Done k' st.
Proof. intros H Hk w c r Hw Hc. by rewrite <- Hk, <- H. Qed.

(** ** Reading what was written *)

Fixpoint numbersOk (v : Json) : bool :=
  match v with
  | JNum t => numText t
  | JArr l => forallb numbersOk l
  | JObj ms => forallb (fun m => numbersOk m.2) ms
  | _ => true
  end.
Fixpoint depth (v : Json) : nat :=
  match v with
  | JArr l => S (foldr Nat.max O (map depth l))
  | JObj ms => S (foldr Nat.max O (map (fun m => depth m.2) ms))
  | _ => O
  end.
(** The value with the text an encoder makes of its strings. *)
Fixpoint clean (v : Json) : Json :=
  match v with
  | JStr s => JStr (ToValid s)
  | JArr l => JArr (map clean l)
  | JObj ms => JObj (map (fun m => (ToValid m.1, clean m.2)) ms)
  | v => v
  end.

Record LayoutOk (ly : Layout) : Prop := mkLayoutOk {
  newline_ws n : allWs (newline ly n) = true;
  colon_ws : exists w, colon ly = ":" +:+ w /\ allWs w = true }.

Lemma compact_ok : LayoutOk compact.
Proof. constructor; [done|by exists ""]. Qed.
Lemma indented_ok : LayoutOk indented.
Proof. constructor; [|by exists " "]. intros n. cbn. by induction n. Qed.
#[export] Hint Resolve compact_ok indented_ok : core.

Lemma in_stop c : in_chars ",]}" c = true -> isWs c = false /\ (c = ","%char \/ c = "]"%char \/ c = "}"%char).
Proof.
  intros H. cbn in H. rewrite !orb_true_iff, !Ascii.eqb_eq in H. destruct H as [->|[->|[->|?]]]; split; (done || tauto).
Qed.

Lemma member_depth {A} (f : A -> nat) l a n : a ∈ l -> (n + foldr Nat.max O (map f l) <= maxNestingDepth)%nat -> (n + f a <= maxNestingDepth)%nat.
Proof.
  intros Ha H. enough (f a <= foldr Nat.max O (map f l))%nat by lia. clear H.
  induction Ha as [l|b l Ha IH]; cbn [map foldr]; [|specialize (IH)]; lia.
Qed.

Section Reading.
Context (ly : Layout) (Hly : LayoutOk ly).

Lemma enclosed_some a b n items : items <> [] ->
  enclosed ly a b n items = a +:+ newline ly (S n) +:+ Join items ("," +:+ newline ly (S n)) +:+ newline ly n +:+ b.
Proof. by destruct items. Qed.

(** The text of a value starts with a character that starts only a value. *)
Lemma print_starts n v stk : numbersOk v = true -> scan (stk, MValueOrEmpty) (print ly n v) = scan (stk, MValue) (print ly n v).
Proof.
  intros H. enough (exists c t, print ly n v = String c t /\ isWs c = false /\ Ascii.eqb c "]" = false) as (c & t & -> & H1 & H2).
  { cbn [scan step]. by rewrite H1, H2. }
  destruct v as [|[]|t|s|[|x l]|[|x l]]; try (by cbn; do 2 eexists; split; [reflexivity|]).
  destruct t as [|c t]; [done|]. cbn [numbersOk numText] in H. exists c, t. split; [done|].
  destruct (Ascii.eqb c "-") eqn:E1; [apply Ascii.eqb_eq in E1 as ->; by vm_compute|].
  destruct (Ascii.eqb c "0") eqn:E2; [apply Ascii.eqb_eq in E2 as ->; by vm_compute|].
  destruct (is_digit c) eqn:E; [|done].
  pose proof (ascii_forall (fun c => implb (is_digit c) (negb (isWs c) && negb (Ascii.eqb c "]"))) ltac:(by vm_compute) c) as Hc.
  cbn beta in Hc. rewrite E in Hc. cbn in Hc. by to_prop.
Qed.

Lemma scan_num stk t : numText t = true -> exists n, scan (stk, MValue) t = Some (stk, MNum n t) /\ numEnds n = true.
Proof.
  destruct t as [|c t]; [done|]. cbn [numText scan step]. intros H.
  destruct (if Ascii.eqb c "-" then _ else _) as [n|] eqn:E; [|done]. cbn [mbind option_bind] in H.
  destruct (numRun n t) as [m|] eqn:R; [|done]. exists m. split; [|done].
  assert (beginValue stk c = Some (stk, MNum n (String c ""))) as ->; [|by apply scan_numRun].
  destruct (Ascii.eqb c "-") eqn:E1; [injection E as <-; by apply Ascii.eqb_eq in E1 as ->|].
  destruct (Ascii.eqb c "0") eqn:E2; [injection E as <-; by apply Ascii.eqb_eq in E2 as ->|].
  destruct (is_digit c) eqn:D; [|done]. injection E as <-. unfold beginValue.
  pose proof (ascii_forall (fun c => implb (is_digit c) (negb (isWs c) && negb (Ascii.eqb c "{") && negb (Ascii.eqb c "[") && negb (ord c =? 34) &&
    negb (Ascii.eqb c "t") && negb (Ascii.eqb c "f") && negb (Ascii.eqb c "n"))) ltac:(by vm_compute) c) as Hc.
  cbn beta in Hc. rewrite D in Hc. cbn in Hc. rewrite !andb_true_iff, !negb_true_iff in Hc. destruct_and! Hc.
  rewrite E1, E2, D.
  repeat match goal with H : _ = false |- _ => rewrite H; clear H end. done.
Qed.

Lemma push_ok stk f m : (S (length stk) <= maxNestingDepth)%nat -> push stk f m = Some (f :: stk, m).
Proof. intros H. unfold push. by rewrite (proj2 (Nat.leb_le _ _)). Qed.

Lemma scan_open stk c f m s : beginValue stk c = push stk f m -> (S (length stk) <= maxNestingDepth)%nat ->
  scan (stk, MValue) (String c s) = scan (f :: stk, m) s.
Proof. intros H Hd. cbn [scan step]. by rewrite H, push_ok. Qed.

(** A member of an object: its name, the colon and its value. *)
Lemma scan_member stk acc key m n v : (m = MKeyOrEmpty \/ m = MKey) ->
  (forall stk', length stk' = S (length stk) -> exists st, scan (stk', MValue) (print ly n v) = Some st /\ Ends stk' (clean v) st) ->
  exists st, scan (FKey acc :: stk, m) (encodeString key +:+ colon ly +:+ print ly n v) = Some st /\
    Done (after (fun m => (ToValid m.1, clean m.2)) FKey JObj stk MKey "}" acc (key, v)) st.
Proof.
  intros Hm Hv. destruct (Hv (FVal acc (ToValid key) :: stk) eq_refl) as (st & Hst & Hend). exists st. split.
  - destruct Hly as [_ (w & -> & Hw)]. unfold encodeString. rewrite <- !app_assoc_str.
    assert (forall s, scan (FKey acc :: stk, m) (quoteMark +:+ s) = scan (FKey acc :: stk, MStr "") s) as -> by (intros; by destruct Hm as [->| ->]).
    rewrite scan_string. cbn [String.append scan step].
    change (endValue (FKey acc :: stk) (JStr ?s) ":") with (Some (FVal acc s :: stk, MValue)).
    cbn [mbind option_bind]. by rewrite scan_app, scan_ws.
  - eapply Done_ext; [by apply Ends_Done|]. intros c Hc. destruct (in_stop c Hc) as [Hws _]. unfold endValue. by rewrite Hws.
Qed.

(** The scanner reads the text of a value as that value. *)
Theorem print_scan v : forall n stk, numbersOk v = true -> (length stk + depth v <= maxNestingDepth)%nat ->
  exists st, scan (stk, MValue) (print ly n v) = Some st /\ Ends stk (clean v) st.
Proof.
  induction v as [|b|t|s|l IH|ms IH] using json_induction; intros n stk Hn Hd.
  - eexists. by split; [|left].
  - eexists. split; [|left; reflexivity]. by destruct b.
  - change (print ly n (JNum t)) with t. destruct (scan_num stk t Hn) as (m & -> & Hm). eexists. split; [done|]. right. by exists m, t.
  - eexists. split; [|left; reflexivity]. cbn [print clean]. unfold encodeString.
    change (scan (stk, MValue) (quoteMark +:+ ?s)) with (scan (stk, MStr "") s). by rewrite <- (app_nil_r_str quoteMark), scan_string.
  - eexists. split; [|left; reflexivity]. cbn [print depth clean numbersOk] in *.
    assert (S (length stk) <= maxNestingDepth)%nat by lia.
    destruct l as [|v l]; [by apply (scan_open stk "[" (FArr []) MValueOrEmpty "]")|]. remember (v :: l) as l' eqn:E.
    rewrite enclosed_some by by subst. change ("[" +:+ ?s) with (String "[" s). rewrite (scan_open _ _ (FArr []) MValueOrEmpty) by done.
    apply (scan_items (print ly (S n)) clean FArr JArr stk MValue "]" _ _); try (done || apply Hly); [by subst|by right|].
    intros a m' acc Ha Hm. rewrite forallb_forall in Hn. specialize (Hn a ltac:(by apply list_elem_of_In)). rewrite Forall_forall in IH.
    destruct (IH a Ha (S n) (FArr acc :: stk) Hn) as (st & Hst & Hend); [apply (member_depth depth l' a); [done|cbn [length]; lia]|].
    exists st. split; [by destruct Hm as [->| ->]; [rewrite print_starts|]|].
    eapply Done_ext; [by apply Ends_Done|]. intros c Hc. destruct (in_stop c Hc) as [Hws _]. unfold endValue. by rewrite Hws.
  - eexists. split; [|left; reflexivity]. cbn [print depth clean numbersOk] in *.
    assert (S (length stk) <= maxNestingDepth)%nat by lia.
    destruct ms as [|v l]; [by apply (scan_open stk "{" (FKey []) MKeyOrEmpty "}")|]. remember (v :: l) as l' eqn:E.
    rewrite enclosed_some by by subst. change ("{" +:+ ?s) with (String "{" s). rewrite (scan_open _ _ (FKey []) MKeyOrEmpty) by done.
    apply (scan_items _ (fun m => (ToValid m.1, clean m.2)) FKey JObj stk MKey "}" _ _); try (done || apply Hly); [by subst|by right|].
    intros [key a] m' acc Ha Hm. rewrite forallb_forall in Hn. specialize (Hn _ ltac:(by apply list_elem_of_In)). rewrite Forall_forall in IH.
    apply scan_member; [done|]. intros stk' Hs. apply (IH _ Ha); [done|].
    apply (member_depth (fun m => depth m.2) l' (key, a)); [done|]. rewrite Hs. lia.
Qed.

(** White space after the value does not matter. *)
Theorem parse_print_ws v w : numbersOk v = true -> (depth v <= maxNestingDepth)%nat -> allWs w = true ->
  parse (print ly 0 v +:+ w) = Some (clean v).
Proof.
  intros Hn Hd Hw. unfold parse. destruct (print_scan v 0 [] Hn Hd) as (st & E & Hst). rewrite scan_app, E. cbn [mbind option_bind].
  destruct w as [|c w].
  - destruct Hst as [->|(n & raw & Ev & -> & Hm)]; [done|]. cbn. by rewrite Hm, Ev.
  - cbn [allWs str_forall] in Hw. apply andb_true_iff in Hw as [Hc Hw]. cbn [scan].
    rewrite (Ends_step [] (clean v) st c Hst) by (unfold stop; by rewrite Hc). unfold endValue. rewrite Hc. cbn [mbind option_bind].
    by rewrite scan_ws.
Qed.

Theorem parse_print v : numbersOk v = true -> (depth v <= maxNestingDepth)%nat -> parse (print ly 0 v) = Some (clean v).
Proof. intros Hn Hd. by rewrite <- (app_nil_r_str (print ly 0 v)), parse_print_ws. Qed.
End Reading.

(** Text of runes is kept as it is. *)
Fixpoint textual (v : Json) : bool :=
  match v with
  | JStr s => utf8_valid (str_bytes s)
  | JArr l => forallb textual l
  | JObj ms => forallb (fun m => utf8_valid (str_bytes m.1) && textual m.2) ms
  | _ => true
  end.
Lemma clean_textual v : textual v = true -> clean v = v.
Proof.
  induction v as [| | | |l IH|ms IH] using json_induction; intros H; cbn [clean textual] in *; [done..| | |].
  - unfold ToValid. by rewrite valid_string.
  - f_equal. rewrite <- (map_id l) at 2. apply map_ext_in. intros v Hv. rewrite Forall_forall in IH. rewrite forallb_forall in H.
    apply IH; [by apply list_elem_of_In|by apply H].
  - f_equal. rewrite <- (map_id ms) at 2. apply map_ext_in. intros [k v] Hv. rewrite Forall_forall in IH. rewrite forallb_forall in H.
    specialize (H _ Hv). apply andb_true_iff in H as [Hk H]. unfold ToValid. cbn [fst snd]. rewrite valid_string by done.
    pose proof (IH _ (proj2 (list_elem_of_In _ _) Hv) H) as E. cbn in E. by rewrite E.
Qed.

(** ** What is read is text *)

Lemma hexVal_range c v : hexVal c = Some v -> 0 <= v < 16.
Proof.
  unfold hexVal. destruct (in_range_reflect 48 57 c); [intros [= <-]; lia|]. destruct (in_range_reflect 97 102 c); [intros [= <-]; lia|].
  destruct (in_range_reflect 65 70 c); [intros [= <-]; lia|done].
Qed.
Lemma hex4_range a b c d v : hex4 a b c d = Some v -> 0 <= v < 65536.
Proof.
  unfold hex4. intros (w & Ha & (x & Hb & (y & Hc & (z & Hd & [= <-])%bind_Some)%bind_Some)%bind_Some)%bind_Some.
  apply hexVal_range in Ha, Hb, Hc, Hd. lia.
Qed.

Lemma simpleEscape_ok e v : simpleEscape e = Some v -> rune_ok v = true.
Proof.
  unfold simpleEscape. destruct (_ || (e =? 39)) eqn:E; [|intros H; by repeat (case_match; simplify_eq/=; try done)].
  intros [= <-]. rewrite !orb_true_iff, !Z.eqb_eq in E. apply rune_ok_ascii. lia.
Qed.

Lemma unescape_ok n : forall l rs, (length l <= n)%nat -> Forall (fun r => rune_ok r = true) l -> unescape l = Some rs ->
  Forall (fun r => rune_ok r = true) rs.
Proof.
  induction n as [|n IH]; intros [|r t] rs Hn Hl H; cbn [length] in Hn; try lia; try (by injection H as <-).
  apply Forall_cons in Hl as [Hr Hl]. cbn [unescape] in H. destruct (negb (r =? 92)).
  - destruct (_ || _); [done|]. apply fmap_Some in H as (rs' & H & ->). apply Forall_cons. split; [done|]. by apply (IH t); [lia| |].
  - destruct t as [|e t]; [done|]. apply Forall_cons in Hl as [_ Hl]. cbn [length] in Hn. destruct (negb (e =? 117)).
    + apply bind_Some in H as (v & Hv & H). apply fmap_Some in H as (rs' & H & ->). apply Forall_cons.
      split; [by eapply simpleEscape_ok|]. by apply (IH t); [lia| |].
    + destruct t as [|a [|b [|c [|d t]]]]; try done. apply bind_Some in H as (v & Hv & H). apply hex4_range in Hv.
      cbn [length] in Hn. decompose_Forall_hyps.
      assert (Forall (fun r => rune_ok r = true) t) as Ht by done.
      assert (cons RuneError <$> unescape t = Some rs -> Forall (fun r => rune_ok r = true) rs) as Hbad.
      { intros (rs' & H' & ->)%fmap_Some. apply Forall_cons. split; [done|]. by apply (IH t); [lia| |]. }
      destruct (negb (is_hi v || is_lo v)) eqn:Es.
      * apply fmap_Some in H as (rs' & H & ->). apply Forall_cons. split; [|by apply (IH t); [lia| |]].
        unfold is_hi, is_lo in Es. unfold rune_ok. rewrite !andb_true_iff, negb_true_iff, andb_false_iff, !Z.leb_le, !Z.leb_gt. to_prop; lia.
      * destruct t as [|x [|u [|a' [|b' [|c' [|d' t']]]]]]; try by apply Hbad.
        destruct (_ && default false _) eqn:Ep; [|by apply Hbad].
        apply fmap_Some in H as (rs' & H & ->). apply Forall_cons. cbn [length] in Hn. decompose_Forall_hyps. split; [|by apply (IH t'); [lia| |]].
        destruct (hex4 a' b' c' d') as [lo|]; [|by rewrite andb_false_r in Ep]. cbn in *. unfold is_hi, is_lo in Ep. to_prop.
        unfold rune_ok, surrogates. rewrite !andb_true_iff, negb_true_iff, andb_false_iff, !Z.leb_le, !Z.leb_gt. lia.
Qed.

Lemma unquote_valid raw s : unquote raw = Some s -> utf8_valid (str_bytes s) = true.
Proof.
  unfold unquote. intros (rs & H & ->)%fmap_Some. apply runes_string_valid. eapply unescape_ok; [reflexivity| |exact H]. apply string_runes_ok.
Qed.

(** The results a branching definition can give. *)
Ltac branches H :=
  repeat (match type of H with
          | (if ?b then _ else _) = _ => destruct b
          | match ?x with _ => _ end = _ => destruct x
          end; try discriminate H);
  try (injection H as <-).

Definition textFrame (f : Frame) : bool :=
  match f with
  | FArr l => forallb textual l
  | FKey ms => textual (JObj ms)
  | FVal ms key => textual (JObj ms) && utf8_valid (str_bytes key)
  end.
Definition textMode (m : Mode) : bool := match m with MEnd v | MLit _ v => textual v | _ => true end.
Definition textScan (st : Scan) : bool := forallb textFrame st.1 && textMode st.2.

Lemma endValue_text stk v c st : forallb textFrame stk = true -> textual v = true -> endValue stk v c = Some st -> textScan st = true.
Proof.
  unfold endValue, textScan. intros Hs Hv H. destruct (isWs c); [injection H as <-; cbn; by rewrite Hs, Hv|].
  destruct stk as [|[l|ms|ms key] stk]; [done|..]; cbn [forallb] in Hs; apply andb_true_iff in Hs as [Hf Hs]; cbn [textFrame textual] in Hf.
  - branches H; cbn [fst snd forallb textFrame textMode textual];
      rewrite forallb_app; cbn [forallb]; by rewrite Hf, Hs, Hv.
  - destruct v; try done. branches H. cbn in *. by rewrite Hf, Hs, Hv.
  - apply andb_true_iff in Hf as [Hf Hk].
    branches H; cbn [fst snd forallb textFrame textMode textual];
      rewrite forallb_app; cbn [forallb fst snd]; by rewrite Hf, Hs, Hv, Hk.
Qed.

Lemma step_text st c st' : textScan st = true -> step st c = Some st' -> textScan st' = true.
Proof.
  destruct st as [stk m]. unfold textScan at 1. intros [Hs Hm]%andb_true_iff H. cbn [fst snd] in *.
  assert (forall s, beginValue stk c = Some s -> textScan s = true) as Hb.
  { unfold beginValue, push, textScan. intros s E. branches E; cbn; by rewrite ?Hs. }
  assert (forall s, beginKey stk c = Some s -> textScan s = true) as Hk.
  { unfold beginKey, textScan. intros s E. branches E; cbn; by rewrite ?Hs. }
  destruct m; cbn [step textMode] in *.
  - by apply Hb.
  - branches H; try (by apply Hb); unfold textScan; cbn in *; first [by rewrite Hs | by apply andb_true_iff in Hs as [-> ->]].
  - by apply Hk.
  - branches H; try (by apply Hk); unfold textScan; cbn in *; first [by rewrite Hs | by apply andb_true_iff in Hs as [-> ->]].
  - destruct (ord c =? 34).
    + apply bind_Some in H as (s & E & [= <-]). unfold textScan. cbn. rewrite Hs. by apply (unquote_valid raw).
    + branches H; unfold textScan; cbn; by rewrite Hs.
  - branches H; unfold textScan; cbn; by rewrite Hs.
  - destruct k as [|[|k]]; branches H; unfold textScan; cbn; by rewrite Hs.
  - destruct (numStep st c); [injection H as <-; unfold textScan; cbn; by rewrite Hs|]. destruct (numEnds st); [|done]. by apply (endValue_text stk (JNum raw) c st').
  - branches H; unfold textScan; cbn; by rewrite Hs, Hm.
  - by eapply endValue_text.
Qed.

(** Every string of a value that was read is text. *)
Lemma parse_textual s v : parse s = Some v -> textual v = true.
Proof.
  unfold parse. intros ([stk m] & H & F)%bind_Some.
  assert (textScan (stk, m) = true) as Ht.
  { assert (textScan ([], MValue) = true) as H0 by done. revert H0 H. generalize (@nil Frame, MValue).
    induction s as [|c s IH]; intros st H0 H; [by injection H as <-|]. cbn [scan] in H. apply bind_Some in H as (st' & E & H).
    eapply IH; [|exact H]. by eapply step_text. }
  unfold textScan in Ht. apply andb_true_iff in Ht as [_ Ht]. cbn in F, Ht. destruct stk; [|by destruct m].
  destruct m; try done; cbn in F; [destruct (numEnds st); [|done]|]; by injection F as <-.
Qed.
