(* ===== verification/Codec.v ===== *)
(** * Codec: the Go types the program writes as JSON

    What [encoding/json] does with the types of the program's records: a codec says how
    a type is written and how a value read is stored over one that is there.  Structs are
    lists of fields with their tags.  A lawful codec reads what it wrote, up to [norm]:
    strings become UTF-8, and an empty value with the tag omitempty is left out and
    read as the zero value.  Standard-library code: nothing here is mapped to the
    repository. *)

From stdpp Require Import gmap.
From S2P Require Export Prelude GoStrings Utf8 Json.

Record Codec (A : Type) := mkCodec {
  zero : A;
  isEmpty : A -> bool;            (** what omitempty leaves out *)
  encodable : A -> bool;          (** [json.Marshal] has no error *)
  enc : A -> Json;
  dec : A -> Json -> option A;    (** stored over the value there; [None] is an error *)
  norm : A -> A }.
Arguments mkCodec {A}.
Arguments zero {A}.
Arguments isEmpty {A}.
Arguments encodable {A}.
Arguments enc {A}.
Arguments dec {A}.
Arguments norm {A}.

Class Lawful {A} (c : Codec A) (d : nat) : Prop := mkLawful {
  dec_enc v : encodable c v = true -> dec c (zero c) (clean (enc c v)) = Some (norm c v);
  enc_numbers v : encodable c v = true -> numbersOk (enc c v) = true;
  enc_depth v : (depth (enc c v) <= d)%nat }.

(** ** Basic types *)

(** null leaves what is there. *)
Definition basic {A} (zero : A) (isEmpty encodable : A -> bool) (enc : A -> Json) (dec : Json -> option A) (norm : A -> A) : Codec A :=
  mkCodec zero isEmpty encodable enc (fun old v => match v with JNull => Some old | v => dec v end) norm.

Definition jstring : Codec string :=
  basic "" (String.eqb "") (fun _ => true) JStr (fun v => match v with JStr s => Some s | _ => None end) ToValid.
Definition jbool : Codec bool := basic false negb (fun _ => true) JBool (fun v => match v with JBool b => Some b | _ => None end) id.

Definition okOf {E A} (r : result E A) : option A := match r with Ok a => Some a | Err _ => None end.
(** [int], [int64] and [uint64]: only whole numbers that fit. *)
Definition jint : Codec Z :=
  basic 0 (Z.eqb 0) (fun n => (min_int64 <=? n) && (n <=? max_int64)) (fun n => JNum (Itoa n))
    (fun v => match v with JNum t => okOf (Atoi t) | _ => None end) id.
Definition juint : Codec Z :=
  basic 0 (Z.eqb 0) (fun n => (0 <=? n) && (n <=? max_uint64)) (fun n => JNum (FormatUint n))
    (fun v => match v with JNum t => okOf (ParseUint t) | _ => None end) id.

(** A type with a text form of its own, quoted or not: [time.Time] and [float64]. *)
Definition jtext {A} (zero : A) (isEmpty : A -> bool) (quoted : bool) (format : A -> option string) (parse : string -> option A) : Codec A :=
  basic zero isEmpty (fun x => bool_decide (is_Some (format x)))
    (fun x => let t := default "" (format x) in if quoted then JStr t else JNum t)
    (fun v => match v, quoted with JStr t, true | JNum t, false => parse t | _, _ => None end) id.

(** ** Pointers, slices and maps *)

Definition jpointer {A} (c : Codec A) : Codec (option A) :=
  mkCodec None (fun x => match x with None => true | _ => false end) (fun x => match x with None => true | Some x => encodable c x end)
    (fun x => match x with None => JNull | Some x => enc c x end)
    (fun old v => match v with JNull => Some None | v => Some <$> dec c (default (zero c) old) v end)
    (fun x => norm c <$> x).

(** [None] is the nil slice. *)
Definition jslice {A} (c : Codec A) : Codec (option (list A)) :=
  mkCodec None (fun x => match x with None | Some [] => true | _ => false end)
    (fun x => forallb (encodable c) (default [] x))
    (fun x => match x with None => JNull | Some l => JArr (map (enc c) l) end)
    (fun _ v => match v with JNull => Some None | JArr l => Some <$> mapM (dec c (zero c)) l | _ => None end)
    (fun x => map (norm c) <$> x).

(** A map is written in the order of its names; what is read goes into the map there. *)
Definition sortedMembers {A} (m : gmap string A) : list (string * A) :=
  omap (fun k => (fun x => (k, x)) <$> m !! k) (sortKeys (map fst (map_to_list m))).
Definition decMembers {A} (c : Codec A) (acc : option (gmap string A)) (m : string * Json) : option (gmap string A) :=
  acc ← acc; x ← dec c (zero c) m.2; Some (<[m.1 := x]> acc).
Definition jmap {A} (c : Codec A) : Codec (option (gmap string A)) :=
  mkCodec None (fun x => match x with Some m => bool_decide (size m = O) | None => true end)
    (fun x => forallb (fun kv => encodable c kv.2) (sortedMembers (default ∅ x)))
    (fun x => match x with None => JNull | Some m => JObj (map (fun kv => (kv.1, enc c kv.2)) (sortedMembers m)) end)
    (fun old v => match v with JNull => Some None | JObj ms => Some <$> fold_left (decMembers c) ms (Some (default ∅ old)) | _ => None end)
    (fun x => (fun m => fold_left (fun acc kv => <[ToValid kv.1 := norm c kv.2]> acc) (sortedMembers m) ∅) <$> x).

(** ** Structs *)

Record Field (S : Type) := mkField {
  fname : string; fomit : bool; fty : Type; fcodec : Codec fty; fget : S -> fty; fset : fty -> S -> S }.
Arguments mkField {S} _ _ {fty}.
Arguments fname {S}.
Arguments fomit {S}.
Arguments fty {S}.
Arguments fcodec {S}.
Arguments fget {S}.
Arguments fset {S}.

Section Struct.
Context {S : Type} (z : S) (fs : list (Field S)).

Definition written (f : Field S) (s : S) : bool := negb (fomit f && isEmpty (fcodec f) (fget f s)).
Definition encField (s : S) (f : Field S) : option (string * Json) :=
  if written f s then Some (fname f, enc (fcodec f) (fget f s)) else None.

(** A name is looked for as it is, then without regard to case: two letters beyond
    ASCII fold to ASCII. *)
Definition foldRune (r : Z) : Z :=
  if r =? 8490 then 75 else if r =? 383 then 83 else if (97 <=? r) && (r <=? 122) then r - 32 else r.
Definition foldName (s : string) : list Z := map foldRune (string_runes s).
Definition fieldOf (name : string) : option (Field S) :=
  match find (fun f => String.eqb (fname f) name) fs with
  | Some f => Some f
  | None => find (fun f => bool_decide (foldName (fname f) = foldName name)) fs
  end.
Definition decMember (acc : option S) (m : string * Json) : option S :=
  s ← acc;
  match fieldOf m.1 with
  | None => Some s
  | Some f => x ← dec (fcodec f) (fget f s) m.2; Some (fset f x s)
  end.

Definition normField (s : S) (f : Field S) : fty f := if written f s then norm (fcodec f) (fget f s) else zero (fcodec f).
Definition jstruct : Codec S :=
  mkCodec z (fun _ => false) (fun s => forallb (fun f => encodable (fcodec f) (fget f s)) fs)
    (fun s => JObj (omap (encField s) fs))
    (fun old v => match v with JNull => Some old | JObj ms => fold_left decMember ms (Some old) | _ => None end)
    (fun s => fold_left (fun acc f => fset f (normField s f) acc) fs z).

(** Fields that stand for different parts of the record. *)
Record FieldsOk (d : nat) : Prop := mkFieldsOk {
  names_differ : NoDup (map fname fs);
  names_text : Forall (fun f => ToValid (fname f) = fname f) fs;
  zero_field : Forall (fun f => fget f z = zero (fcodec f)) fs;
  same_zero : Forall (fun f => forall s, fget f s = zero (fcodec f) -> fset f (zero (fcodec f)) s = s) fs;
  apart : ForallOrdPairs (fun f g => forall x s, fget g (fset f x s) = fget g s) fs;
  lawful : Forall (fun f => Lawful (fcodec f) d) fs }.
End Struct.

(** ** The text *)

Definition MarshalAs {A} (c : Codec A) (v : A) : option string := if encodable c v then Some (Marshal (enc c v)) else None.
Definition UnmarshalAs {A} (c : Codec A) (text : string) : option A := v ← parse text; dec c (zero c) v.

(** ** Lemmas *)

#[export] Instance jstring_lawful d : Lawful jstring d.
Proof. split; [done..|]. intros; cbn; lia. Qed.
#[export] Instance jbool_lawful d : Lawful jbool d.
Proof. split; [done..|]. intros; cbn; lia. Qed.

(** Numbers as text: no sign but a minus, no leading zero. *)
Lemma format_fuel_head fuel n acc : 0 < n < 10 ^ Z.of_nat fuel -> exists c w, format_fuel fuel n acc = String c w +:+ acc /\
  is_digit c = true /\ c <> "0"%char /\ str_forall is_digit w = true.
Proof.
  revert n acc. induction fuel as [|f IH]; intros n acc Hn; [change (10 ^ Z.of_nat 0) with 1 in Hn; lia|].
  pose proof (Z.mod_pos_bound n 10 ltac:(lia)) as Hm. pose proof (Z.div_mod n 10 ltac:(lia)) as Hdm.
  destruct (digit_char_spec (n mod 10) Hm) as [Hd Hv]. cbn [format_fuel]. destruct (Z.eqb_spec (n / 10) 0) as [E|E].
  - exists (digit_char (n mod 10)), "". repeat split; [done|]. intros H. rewrite H in Hv. change (digit_val "0") with 0 in Hv. lia.
  - assert (0 < n / 10 < 10 ^ Z.of_nat f) as Hn'.
    { split; [pose proof (Z.div_pos n 10); lia|]. apply Z.div_lt_upper_bound; [lia|]. rewrite Nat2Z.inj_succ, Z.pow_succ_r in Hn by lia. lia. }
    destruct (IH (n / 10) (String (digit_char (n mod 10)) acc) Hn') as (c & w & -> & Hc & H0 & Hw).
    exists c, (w +:+ String (digit_char (n mod 10)) ""). split; [cbn [String.append]; by rewrite <- app_assoc_str|]. split_and!; [done..|]. rewrite str_forall_app. cbn. by rewrite Hw, Hd.
Qed.

Lemma numRun_digits s : str_forall is_digit s = true -> numRun N1 s = Some N1.
Proof.
  induction s as [|c s IH]; [done|]. cbn [str_forall numRun]. intros [Hc H]%andb_true_iff. cbn [numStep]. rewrite Hc. by apply IH.
Qed.

Lemma digits_number n : 0 <= n <= max_uint64 ->
  exists c w, FormatUint n = String c w /\ is_digit c = true /\ (c = "0"%char -> w = "") /\ str_forall is_digit w = true /\ digits_val 0 (FormatUint n) = Some n.
Proof.
  intros Hn. assert (digits_val 0 (FormatUint n) = Some n) as Hv.
  { unfold FormatUint. rewrite format_fuel_val; [done| |lia]. unfold max_uint64 in Hn. change (10 ^ Z.of_nat 20) with 100000000000000000000. lia. }
  destruct (decide (n = 0)) as [->|Hz]; [by exists "0"%char, ""|].
  destruct (format_fuel_head 20 n "") as (c & w & E & Hc & H0 & Hw).
  { unfold max_uint64 in Hn. change (10 ^ Z.of_nat 20) with 100000000000000000000. lia. }
  rewrite app_nil_r_str in E. change (format_fuel 20 n "") with (FormatUint n) in E. exists c, w. by split_and!.
Qed.

Lemma FormatUint_number n : 0 <= n <= max_uint64 -> numText (FormatUint n) = true.
Proof.
  intros Hn. destruct (digits_number n Hn) as (c & w & -> & Hc & H0 & Hw & _). cbn [numText].
  destruct (Ascii.eqb c "-") eqn:E; [apply Ascii.eqb_eq in E as ->; done|]. destruct (Ascii.eqb c "0") eqn:E0.
  - apply Ascii.eqb_eq in E0. by rewrite (H0 E0).
  - rewrite Hc. cbn. by rewrite numRun_digits.
Qed.

Lemma Itoa_number n : min_int64 <= n <= max_int64 -> numText (Itoa n) = true /\ Atoi (Itoa n) = Ok n.
Proof.
  intros Hn. unfold Itoa. destruct (Z.ltb_spec n 0).
  - assert (0 <= - n <= max_uint64) as Hb by (unfold min_int64, max_int64, max_uint64 in *; lia).
    destruct (digits_number (- n) Hb) as (c & w & E & Hc & H0 & Hw & Hv). split.
    + rewrite E. cbn [String.append numText numRun numStep]. change (Ascii.eqb "-" "-") with true. cbn [mbind option_bind].
      unfold numStep. destruct (Ascii.eqb c "0") eqn:E0; cbn [mbind option_bind]; [apply Ascii.eqb_eq in E0; by rewrite (H0 E0)|].
      rewrite Hc. cbn [mbind option_bind]. by rewrite numRun_digits.
    + unfold Atoi. change ("-" +:+ FormatUint (- n)) with (String "-" (FormatUint (- n))). cbv iota beta. change (Ascii.eqb "-" "-") with true. cbv iota.
      rewrite Hv. destruct (FormatUint (- n)) eqn:E'; [done|]. cbv zeta.
      rewrite Z.opp_involutive, (proj2 (Z.leb_le _ _)), (proj2 (Z.leb_le _ _)) by lia. done.
  - split; [apply FormatUint_number; unfold max_int64, max_uint64 in *; lia|].
    pose proof (Atoi_Itoa n ltac:(lia)) as H1. unfold Itoa in H1. by rewrite (proj2 (Z.ltb_ge n 0)) in H1.
Qed.

#[export] Instance jint_lawful d : Lawful jint d.
Proof.
  split; [| |intros; cbn; lia]; cbn -[Itoa Atoi numText]; intros v H; to_prop; destruct (Itoa_number v) as [H1 H2]; try done. by rewrite H2.
Qed.
#[export] Instance juint_lawful d : Lawful juint d.
Proof.
  split; [| |intros; cbn; lia]; cbn -[FormatUint ParseUint numText]; intros v H; to_prop; [by rewrite ParseUint_FormatUint|by apply FormatUint_number].
Qed.

Lemma jtext_lawful {A} (z : A) empty (quoted : bool) (format : A -> option string) (parse : string -> option A) d :
  (forall x t, format x = Some t -> parse t = Some x /\ if quoted then utf8_valid (str_bytes t) = true else numText t = true) ->
  Lawful (jtext z empty quoted format parse) d.
Proof.
  intros H. split; cbn; intros v.
  - intros Hv. apply bool_decide_eq_true in Hv as [t Ht]. rewrite Ht. cbn. destruct (H v t Ht) as [H1 H2].
    destruct quoted; cbn; [|done]. unfold ToValid. by rewrite valid_string.
  - intros Hv. apply bool_decide_eq_true in Hv as [t Ht]. rewrite Ht. cbn. destruct (H v t Ht) as [H1 H2]. by destruct quoted.
  - destruct quoted; cbn; lia.
Qed.

#[export] Instance jpointer_lawful {A} (c : Codec A) d : Lawful c d ->
  (forall v, encodable c v = true -> clean (enc c v) <> JNull) -> Lawful (jpointer c) d.
Proof.
  intros [H1 H2 H3] Hn. split; intros [v|]; cbn; try done; try lia; [intros Hv|apply H2].
  specialize (H1 v Hv). specialize (Hn v Hv). destruct (clean (enc c v)); try done; by rewrite H1.
Qed.

Lemma max_le (l : list nat) d : Forall (fun n => n <= d)%nat l -> (foldr Nat.max O l <= d)%nat.
Proof. induction 1; cbn; lia. Qed.

#[export] Instance jslice_lawful {A} (c : Codec A) d : Lawful c d -> Lawful (jslice c) (S d).
Proof.
  intros [H1 H2 H3]. split; intros [l|]; cbn; try done; try lia.
  - intros H. rewrite map_map. assert (mapM (dec c (zero c)) (map (fun x => clean (enc c x)) l) = Some (map (norm c) l)) as ->; [|done].
    induction l as [|x l IH]; [done|]. cbn [forallb] in H. apply andb_true_iff in H as [Hx Hl]. cbn. rewrite H1 by done. cbn. rewrite IH by done. done.
  - rewrite !forallb_forall. intros H v (x & <- & Hx)%in_map_iff. apply H2. by apply H.
  - rewrite map_map. apply le_n_S, max_le, Forall_forall. intros n (x & -> & Hx)%list_elem_of_fmap. apply H3.
Qed.

#[export] Instance jmap_lawful {A} (c : Codec A) d : Lawful c d -> Lawful (jmap c) (S d).
Proof.
  intros [H1 H2 H3]. split; intros [m|]; cbn; try done; try lia.
  - intros H. generalize (∅ : gmap string A). induction (sortedMembers m) as [|[k x] l IH]; intros acc; [done|].
    cbn [forallb snd] in H. apply andb_true_iff in H as [Hx Hl]. cbn [map fold_left fst snd]. unfold decMembers at 2. cbn [mbind option_bind fst snd].
    rewrite H1 by done. cbn [mbind option_bind]. by apply IH.
  - rewrite !forallb_forall. intros H v (x & <- & Hx)%in_map_iff. apply H2. by apply H.
  - rewrite map_map. apply le_n_S, max_le, Forall_forall. intros n (x & -> & Hx)%list_elem_of_fmap. apply H3.
Qed.

Lemma sortedMembers_perm {A} (m : gmap string A) : sortedMembers m ≡ₚ map_to_list m.
Proof.
  unfold sortedMembers. rewrite sortKeys_perm. enough (forall l, (forall kx, kx ∈ l -> m !! kx.1 = Some kx.2) ->
    omap (fun k => (fun x => (k, x)) <$> m !! k) (map fst l) = l) as ->; [done|by intros [k x] H; apply elem_of_map_to_list|].
  induction l as [|[k x] l IH]; intros H; [done|]. cbn. pose proof (H (k, x) ltac:(left)) as Hx. cbn [fst snd] in Hx. rewrite Hx.
  cbn. f_equal. apply IH. intros; apply H. by right.
Qed.

(** A map of texts is read back as it was. *)
Lemma jmap_norm {A} (c : Codec A) m : (forall m' k x, m = Some m' -> m' !! k = Some x -> ToValid k = k /\ norm c x = x) -> norm (jmap c) m = m.
Proof.
  destruct m as [m|]; [|done]. intros H. cbn. f_equal. rewrite <- (list_to_map_to_list m) at 2. pose proof (sortedMembers_perm m) as Hp.
  transitivity (list_to_map (reverse (sortedMembers m)) ∪ ∅ : gmap string A).
  - assert (forall kv, kv ∈ sortedMembers m -> ToValid kv.1 = kv.1 /\ norm c kv.2 = kv.2) as Hm.
    { intros [k x] Hx. rewrite Hp in Hx. apply elem_of_map_to_list in Hx. by apply (H m). }
    clear H Hp. generalize (∅ : gmap string A). induction (sortedMembers m) as [|[k x] l IH]; intros acc; [cbn; by rewrite (left_id_L ∅ (∪))|].
    pose proof (Hm (k, x) ltac:(left)) as [H1 H2]. cbn [fold_left fst snd] in *. rewrite H1, H2, IH by (intros; apply Hm; by right).
    rewrite reverse_cons, list_to_map_app. cbn. by rewrite insert_empty, <- map_union_assoc, <- insert_union_singleton_l.
  - rewrite map_union_empty. apply list_to_map_proper; [|by rewrite reverse_Permutation]. rewrite reverse_Permutation, Hp. apply NoDup_fst_map_to_list.
Qed.

Section StructLaws.
Context {S : Type} (z : S) (fs : list (Field S)) (d : nat) (Hok : FieldsOk z fs d).

Lemma find_exact f : f ∈ fs -> find (fun g => String.eqb (fname g) (fname f)) fs = Some f.
Proof.
  pose proof (names_differ _ _ _ Hok) as Hn. clear Hok. intros Hf. induction Hf as [f l|f g l Hf IH]; cbn.
  - by rewrite String.eqb_refl.
  - cbn in Hn. apply NoDup_cons in Hn as [Hg Hn]. destruct (String.eqb_spec (fname g) (fname f)) as [E|E]; [|by apply IH].
    exfalso. apply Hg. rewrite E. by apply list_elem_of_fmap_2.
Qed.

Lemma jstruct_lawful : Lawful (jstruct z fs) (Datatypes.S d).
Proof.
  destruct Hok as [Hn Ht Hz Hs Ha Hl]. split; cbn; intros s.
  - intros He. rewrite forallb_forall in He.
    assert (forall g, g ∈ fs -> fieldOf fs (fname g) = Some g) as Hfind by (intros g Hg; unfold fieldOf; by rewrite find_exact).
    enough (forall gs acc, (forall g, g ∈ gs -> g ∈ fs) -> Forall (fun f => fget f acc = zero (fcodec f)) gs ->
      ForallOrdPairs (fun f g => forall x s, fget g (fset f x s) = fget g s) gs ->
      fold_left (decMember fs) (map (fun m => (ToValid m.1, clean m.2)) (omap (encField s) gs)) (Some acc) =
      Some (fold_left (fun acc f => fset f (normField s f) acc) gs acc)) as H by by apply H.
    intros gs. induction gs as [|g gs IH]; intros acc Hgs Hacc Hap; [done|]. inversion Hap as [|? ? Hg Hap']; subst. clear Hap.
    apply Forall_cons in Hacc as [Hga Hacc]. assert (g ∈ fs) as Hin by (apply Hgs; by left).
    assert (forall x, Forall (fun f => fget f (fset g x acc) = zero (fcodec f)) gs) as Hnext.
    { intros x. rewrite Forall_forall in Hacc, Hg |- *. intros f Hf. rewrite Hg by done. by apply Hacc. }
    assert (forall g, g ∈ gs -> g ∈ fs) as Hgs' by (intros; apply Hgs; by right).
    rewrite Forall_forall in Ht, Hs, Hl. cbn [omap list_omap fold_left]. unfold encField at 1, normField at 2. destruct (written g s) eqn:W.
    + cbn [map fold_left fst snd]. unfold decMember at 2. cbn [mbind option_bind fst snd]. rewrite Ht, Hfind, Hga by done.
      destruct (Hl g Hin) as [H1 _ _]. rewrite H1 by (apply He; by apply list_elem_of_In). cbn [mbind option_bind]. by apply IH.
    + rewrite (Hs g Hin acc Hga). by apply IH.
  - rewrite !forallb_forall. intros He m (f & Hf & Hm)%list_elem_of_In%list_elem_of_omap. unfold encField in Hm. case_match; [|done].
    injection Hm as <-. rewrite Forall_forall in Hl. apply (Hl f Hf). apply He. by apply list_elem_of_In.
  - apply le_n_S, max_le, Forall_forall. intros n (m & -> & (f & Hf & Hm)%list_elem_of_omap)%list_elem_of_fmap.
    unfold encField in Hm. case_match; [|done]. injection Hm as <-. rewrite Forall_forall in Hl. apply (Hl f Hf).
Qed.
End StructLaws.

(** A value written is read back, up to [norm]. *)
Lemma Unmarshal_Marshal_as {A} (c : Codec A) d v text w : Lawful c d -> (d <= 100)%nat -> allWs w = true ->
  MarshalAs c v = Some text -> UnmarshalAs c (text +:+ w) = Some (norm c v).
Proof.
  intros [H1 H2 H3] Hd Hw. unfold MarshalAs, UnmarshalAs, Marshal. destruct (encodable c v) eqn:E; [|done]. intros [= <-].
  rewrite parse_print_ws; [by apply H1|auto|by apply H2| |done]. specialize (H3 v). unfold maxNestingDepth. lia.
Qed.
