(* ===== verification/Supervisor.v ===== *)
(** * Supervisor: [internal/supervisor]

    The in-worker runtime supervisor: passive health of upstream candidates,
    candidate ordering, correlated-failure network epochs, internal-failure
    escalation and single-flight owner recovery actions.  Every method runs
    under [s.mu], so a method is a function on the state record; the goroutine
    started by [Trigger] is the separate step [runAction]. *)

From S2P Require Export Prelude GoStrings.

Module Sup.

(** ** outcome.go *)

Inductive OutcomeKind :=
| OutcomeSuccess | OutcomeClientCancelled | OutcomeDestinationFailure
| OutcomeProxyDNSFailure | OutcomeProxyDialFailure | OutcomeProxyTLSFailure
| OutcomeProxyProtocolFailure | OutcomeAuthExhausted | OutcomeRouteFailure
| OutcomeInternalFailure.

#[global] Instance OutcomeKind_eq_dec : EqDecision OutcomeKind.
Proof. solve_decision. Defined.

Definition kindString (k : OutcomeKind) : string :=
  match k with
  | OutcomeSuccess => "success"
  | OutcomeClientCancelled => "client-cancelled"
  | OutcomeDestinationFailure => "destination-failure"
  | OutcomeProxyDNSFailure => "proxy-dns-failure"
  | OutcomeProxyDialFailure => "proxy-dial-failure"
  | OutcomeProxyTLSFailure => "proxy-tls-failure"
  | OutcomeProxyProtocolFailure => "proxy-protocol-failure"
  | OutcomeAuthExhausted => "auth-exhausted"
  | OutcomeRouteFailure => "route-failure"
  | OutcomeInternalFailure => "internal-failure"
  end.

Definition PenalizesCandidate (k : OutcomeKind) : bool :=
  match k with
  | OutcomeProxyDNSFailure | OutcomeProxyDialFailure
  | OutcomeProxyTLSFailure | OutcomeProxyProtocolFailure => true
  | _ => false
  end.

Definition ProxyKey := string.

Record Outcome := mkOutcome { oKind : OutcomeKind; oProxy : ProxyKey; oDuration : Duration }.

Record Candidate := mkCandidate { cKey : ProxyKey; cDirect : bool }.

#[global] Instance Candidate_eq_dec : EqDecision Candidate.
Proof. solve_decision. Defined.

(** ** State *)

Inductive ActionKey :=
| ActionRefreshRoute | ActionRefreshAuth | ActionCloseIdleTransports | ActionClearNetworkDNS.

#[global] Instance ActionKey_eq_dec : EqDecision ActionKey.
Proof. solve_decision. Defined.

(** Which owner callbacks are non-nil. *)
Record Owners := mkOwners {
  RefreshRoute : bool; RefreshAuth : bool; CloseIdleTransports : bool; ClearNetworkDNS : bool }.

Definition ownerAction (o : Owners) (key : ActionKey) : bool :=
  match key with
  | ActionRefreshRoute => RefreshRoute o
  | ActionRefreshAuth => RefreshAuth o
  | ActionCloseIdleTransports => CloseIdleTransports o
  | ActionClearNetworkDNS => ClearNetworkDNS o
  end.

Record healthState := mkHealth {
  failures : Z; backoffLevel : Z; coolingUntil : Time; lastSequence : Z }.

(** [proxies = None] is the nil map. *)
Record correlatedWindowState := mkCorr {
  corrStart : Time; corrCount : Z; corrProxies : option (gset ProxyKey) }.

Definition corrZero : correlatedWindowState := mkCorr zeroTime 0 None.

Record FatalSignal := mkFatal { Reason : string; At : Time }.

(** [inflight] lists the keys of the Go map (a key is present only with value
    [true]); [wg] is the WaitGroup counter; [fatalCh] is the buffered channel of
    capacity one. *)
Record t := mk {
  owners : Owners;
  closed : bool;
  wg : nat;
  health : gmap ProxyKey healthState;
  sequence : Z;
  inflight : list ActionKey;
  progressSequence : Z;
  lastProgress : Time;
  lastTick : Time;
  networkEpoch : Z;
  lastNetworkEpoch : Time;
  correlated : correlatedWindowState;
  internalWindowStart : Time;
  internalFailures : Z;
  fatalRequested : bool;
  fatalReason : string;
  fatalCh : option FatalSignal }.

Definition New (o : Owners) : t :=
  mk o false 0 ∅ 0 [] 0 zeroTime zeroTime 0 zeroTime corrZero zeroTime 0 false "" None.

(** *** Field updates *)

Definition set_health s h := mk (owners s) (closed s) (wg s) h (sequence s) (inflight s)
  (progressSequence s) (lastProgress s) (lastTick s) (networkEpoch s) (lastNetworkEpoch s)
  (correlated s) (internalWindowStart s) (internalFailures s) (fatalRequested s)
  (fatalReason s) (fatalCh s).
Definition set_sequence s q := mk (owners s) (closed s) (wg s) (health s) q (inflight s)
  (progressSequence s) (lastProgress s) (lastTick s) (networkEpoch s) (lastNetworkEpoch s)
  (correlated s) (internalWindowStart s) (internalFailures s) (fatalRequested s)
  (fatalReason s) (fatalCh s).
Definition set_flight s l n := mk (owners s) (closed s) n (health s) (sequence s) l
  (progressSequence s) (lastProgress s) (lastTick s) (networkEpoch s) (lastNetworkEpoch s)
  (correlated s) (internalWindowStart s) (internalFailures s) (fatalRequested s)
  (fatalReason s) (fatalCh s).
Definition set_progress s q now := mk (owners s) (closed s) (wg s) (health s) (sequence s)
  (inflight s) q now (lastTick s) (networkEpoch s) (lastNetworkEpoch s)
  (correlated s) (internalWindowStart s) (internalFailures s) (fatalRequested s)
  (fatalReason s) (fatalCh s).
Definition set_lastTick s now := mk (owners s) (closed s) (wg s) (health s) (sequence s)
  (inflight s) (progressSequence s) (lastProgress s) now (networkEpoch s) (lastNetworkEpoch s)
  (correlated s) (internalWindowStart s) (internalFailures s) (fatalRequested s)
  (fatalReason s) (fatalCh s).
Definition set_epoch s n now := mk (owners s) (closed s) (wg s) (health s) (sequence s)
  (inflight s) (progressSequence s) (lastProgress s) (lastTick s) n now
  (correlated s) (internalWindowStart s) (internalFailures s) (fatalRequested s)
  (fatalReason s) (fatalCh s).
Definition set_correlated s c := mk (owners s) (closed s) (wg s) (health s) (sequence s)
  (inflight s) (progressSequence s) (lastProgress s) (lastTick s) (networkEpoch s)
  (lastNetworkEpoch s) c (internalWindowStart s) (internalFailures s) (fatalRequested s)
  (fatalReason s) (fatalCh s).
Definition set_internal s start n := mk (owners s) (closed s) (wg s) (health s) (sequence s)
  (inflight s) (progressSequence s) (lastProgress s) (lastTick s) (networkEpoch s)
  (lastNetworkEpoch s) (correlated s) start n (fatalRequested s)
  (fatalReason s) (fatalCh s).
Definition set_fatal s r ch := mk (owners s) (closed s) (wg s) (health s) (sequence s)
  (inflight s) (progressSequence s) (lastProgress s) (lastTick s) (networkEpoch s)
  (lastNetworkEpoch s) (correlated s) (internalWindowStart s) (internalFailures s) true
  r ch.
Definition set_closed s := mk (owners s) true (wg s) (health s) (sequence s)
  (inflight s) (progressSequence s) (lastProgress s) (lastTick s) (networkEpoch s)
  (lastNetworkEpoch s) (correlated s) (internalWindowStart s) (internalFailures s)
  (fatalRequested s) (fatalReason s) (fatalCh s).

(** ** upstream.go: passive health *)

Definition localFailureThreshold : Z := 2.
Definition maxHealthEntries : nat := 256.
#[global] Arguments maxHealthEntries : simpl never.
Definition maxBackoffLevel : Z := 5.
Definition baseCooldown : Duration := 2 * Second.
Definition maxCooldown : Duration := 30 * Second.

Definition cooldownForLevel (level : Z) : Duration :=
  if level <=? 0 then 0
  else let d := i64 (Z.shiftl baseCooldown (level - 1)) in
       if maxCooldown <? d then maxCooldown else d.

(** The [for key, state := range s.health] loop of [evictOldestHealthLocked],
    over the entries in some order. *)
Definition older (acc : option (ProxyKey * Z)) (kv : ProxyKey * healthState)
  : option (ProxyKey * Z) :=
  match acc with
  | None => Some (kv.1, lastSequence kv.2)
  | Some (_, seq) =>
      if lastSequence kv.2 <? seq then Some (kv.1, lastSequence kv.2) else acc
  end.
Definition oldestEntry (l : list (ProxyKey * healthState)) : option (ProxyKey * Z) :=
  fold_left older l None.

Definition evictOldestHealthLocked (s : t) : t :=
  match oldestEntry (map_to_list (health s)) with
  | Some (k, _) => set_health s (delete k (health s))
  | None => s
  end.

Definition recordLocalFailureLocked (now : Time) (key : ProxyKey) (s : t) : bool * t :=
  if String.eqb key "" then (false, s) else
  let s := match health s !! key with
           | Some _ => s
           | None =>
               let s := if (maxHealthEntries <=? size (health s))%nat
                        then evictOldestHealthLocked s else s in
               set_health s (<[key := mkHealth 0 0 zeroTime 0]> (health s))
           end in
  let st := default (mkHealth 0 0 zeroTime 0) (health s !! key) in
  let s := set_sequence s (u64 (sequence s + 1)) in
  let st := mkHealth (failures st) (backoffLevel st) (coolingUntil st) (sequence s) in
  let st := if negb (isZero (coolingUntil st)) && negb (before now (coolingUntil st))
            then mkHealth 0 0 zeroTime (lastSequence st) else st in
  let st := mkHealth (failures st + 1) (backoffLevel st) (coolingUntil st) (lastSequence st) in
  if failures st <? localFailureThreshold
  then (false, set_health s (<[key := st]> (health s)))
  else
    let entered := isZero (coolingUntil st) in
    let level := if backoffLevel st <? maxBackoffLevel then backoffLevel st + 1
                 else backoffLevel st in
    let st := mkHealth (failures st) level (addT now (cooldownForLevel level))
                (lastSequence st) in
    (entered, set_health s (<[key := st]> (health s))).

Definition candidateCooledLocked (now : Time) (key : ProxyKey) (s : t) : bool * t :=
  match health s !! key with
  | None => (false, s)
  | Some st =>
      if isZero (coolingUntil st) then (false, s)
      else if before now (coolingUntil st) then (true, s)
      else (false, set_health s (delete key (health s)))
  end.

(** The classification loop of [Order]: explicit members in order, split into
    healthy and cooled. *)
Fixpoint classify (now : Time) (out : list Candidate) (s : t)
  : (list Candidate * list Candidate) * t :=
  match out with
  | [] => (([], []), s)
  | c :: out' =>
      if cDirect c then classify now out' s
      else
        let '(cooledp, s1) := candidateCooledLocked now (cKey c) s in
        let '((h, k), s2) := classify now out' s1 in
        if cooledp then ((h, c :: k), s2) else ((c :: h, k), s2)
  end.

(** The refill loop of [Order]: DIRECT slots keep their member, the others take
    the next reordered member.  [reordered] has one member per explicit slot
    (lemma [classify_length]); a Go index past its end would panic. *)
Fixpoint refill (out reordered : list Candidate) : list Candidate :=
  match out with
  | [] => []
  | c :: out' =>
      if cDirect c then c :: refill out' reordered
      else match reordered with
           | r :: rs => r :: refill out' rs
           | [] => c :: refill out' []
           end
  end.

Definition Order (now : Time) (authoritative : list Candidate) (s : t)
  : list Candidate * t :=
  if (length authoritative <? 2)%nat then (authoritative, s) else
  let '((healthy, cooled), s') := classify now authoritative s in
  let explicitCount := (length healthy + length cooled)%nat in
  let cooledCount := length cooled in
  if (explicitCount =? 0)%nat || (cooledCount =? 0)%nat || (cooledCount =? explicitCount)%nat
  then (authoritative, s')
  else (refill authoritative (healthy ++ cooled), s').

(** ** supervisor.go: windows, epochs, escalation *)

Definition networkGapThreshold : Duration := 5 * Second.
Definition correlatedFailureWindow : Duration := 3 * Second.
Definition correlatedFailureThreshold : Z := 8.
Definition networkEpochCooldown : Duration := 30 * Second.
Definition internalFailureWindow : Duration := 30 * Second.
Definition internalFatalThreshold : Z := 3.

Definition resetCorrelatedLocked (s : t) : t := set_correlated s corrZero.

Definition ResetTransient (s : t) : t := resetCorrelatedLocked (set_health s ∅).

Definition startNetworkEpochLocked (now : Time) (s : t) : t :=
  resetCorrelatedLocked (set_health (set_epoch s (u64 (networkEpoch s + 1)) now) ∅).

Definition recordInternalFailureLocked (now : Time) (s : t) : t :=
  let s := if isZero (internalWindowStart s) ||
              (internalFailureWindow <? subT now (internalWindowStart s))
           then set_internal s now 0 else s in
  let s := set_internal s (internalWindowStart s) (internalFailures s + 1) in
  if (internalFailures s <? internalFatalThreshold) || fatalRequested s then s
  else
    let reason := "repeated internal runtime failure" in
    let ch := match fatalCh s with
              | None => Some (mkFatal reason now)
              | Some m => Some m
              end in
    set_fatal s reason ch.

Definition observeCorrelatedFailureLocked (now : Time) (key : ProxyKey) (s : t) : bool * t :=
  if String.eqb key "" then (false, s) else
  if negb (isZero (lastNetworkEpoch s)) &&
     (subT now (lastNetworkEpoch s) <? networkEpochCooldown) then (false, s) else
  let c := correlated s in
  let c := if isZero (corrStart c) ||
              (correlatedFailureWindow <? subT now (corrStart c))
           then mkCorr now 0 (Some ∅) else c in
  let ps := default ∅ (corrProxies c) in
  let c := mkCorr (corrStart c) (corrCount c + 1) (Some ({[key]} ∪ ps)) in
  let s := set_correlated s c in
  if (corrCount c <? correlatedFailureThreshold) ||
     (size ({[key]} ∪ ps : gset ProxyKey) <? 2)%nat
  then (false, s)
  else (true, startNetworkEpochLocked now s).

Definition record (now : Time) (o : Outcome) (s : t) : (bool * bool) * t :=
  if closed s then ((false, false), s) else
  if decide (oKind o = OutcomeSuccess) then
    ((false, false),
     if negb (String.eqb (oProxy o) "") then set_health s (delete (oProxy o) (health s)) else s)
  else if PenalizesCandidate (oKind o) then
    let '(triggerIdle, s1) := recordLocalFailureLocked now (oProxy o) s in
    let '(epoch, s2) := observeCorrelatedFailureLocked now (oProxy o) s1 in
    ((triggerIdle, epoch), s2)
  else if decide (oKind o = OutcomeInternalFailure) then
    ((false, false), recordInternalFailureLocked now s)
  else ((false, false), s).

Definition Record_ (now : Time) (o : Outcome) (s : t) : t := (record now o s).2.

(** ** recovery.go: single-flight owner actions *)

Definition Trigger (key : ActionKey) (s : t) : bool * t :=
  if negb (ownerAction (owners s) key) then (false, s) else
  if closed s || bool_decide (key ∈ inflight s) then (false, s)
  else (true, set_flight s (key :: inflight s) (S (wg s))).

Definition trigger (key : ActionKey) (s : t) : t := (Trigger key s).2.

(** The goroutine of one action after its callback returned: first
    [delete(s.inflight, key)], then, in a second step, the deferred
    [s.wg.Done()]. *)
Definition runActionDelete (key : ActionKey) (s : t) : t :=
  set_flight s (bfilter (fun k => negb (bool_decide (k = key))) (inflight s)) (wg s).
Definition runActionDone (s : t) : t := set_flight s (inflight s) (pred (wg s)).

Definition triggerNetworkRecovery (s : t) : t :=
  trigger ActionClearNetworkDNS
    (trigger ActionCloseIdleTransports
      (trigger ActionRefreshAuth
        (trigger ActionRefreshRoute s))).

Definition Recover (now : Time) (o : Outcome) (s : t) : t :=
  let '((triggerIdle, epoch), s1) := record now o s in
  let s2 := match oKind o with
            | OutcomeRouteFailure => trigger ActionRefreshRoute s1
            | OutcomeAuthExhausted => trigger ActionRefreshAuth s1
            | _ => s1
            end in
  let s3 := if triggerIdle then trigger ActionCloseIdleTransports s2 else s2 in
  if epoch then triggerNetworkRecovery s3 else s3.

(** [Tick(now)]; [clock] is what [s.now()] returns when [now] is the zero time. *)
Definition Tick (clock now : Time) (s : t) : t :=
  let now := if isZero now then clock else now in
  if closed s then s else
  let s := set_progress s (u64 (progressSequence s + 1)) now in
  let trigger_epoch := negb (isZero (lastTick s)) &&
                       (networkGapThreshold <? subT now (lastTick s)) in
  let s := if trigger_epoch then startNetworkEpochLocked now s else s in
  let s := set_lastTick s now in
  if trigger_epoch then triggerNetworkRecovery s else s.

(** [Close] marks the supervisor closed; its [wg.Wait()] returns in a state
    whose counter is zero. *)
Definition Close (s : t) : t := if closed s then s else set_closed s.
Definition closeReturns (s : t) : bool := closed s && (wg s =? 0)%nat.

(** ** status.go *)

Record CandidateStatus := mkCandidateStatus {
  csProxyKey : ProxyKey; csFailures : Z; csBackoffLevel : Z;
  csCooling : bool; csCoolingUntil : Time }.

Record Status_ := mkStatus {
  sProgressSequence : Z; sLastProgress : Time; sNetworkEpoch : Z; sHealthEntries : nat;
  sInflightActions : nat; sFatalRequested : bool; sFatalReason : string;
  sCandidates : list CandidateStatus }.

Definition key_le (a b : CandidateStatus) : Prop :=
  str_ltb (csProxyKey b) (csProxyKey a) = false.
#[global] Instance key_le_dec : RelDecision key_le.
Proof. intros a b. unfold key_le. apply _. Defined.

Definition candidateStatus (now : Time) (kv : ProxyKey * healthState) : CandidateStatus :=
  mkCandidateStatus kv.1 (failures kv.2) (backoffLevel kv.2)
    (negb (isZero (coolingUntil kv.2)) && before now (coolingUntil kv.2))
    (coolingUntil kv.2).

Definition Status (now : Time) (s : t) : Status_ :=
  mkStatus (progressSequence s) (lastProgress s) (networkEpoch s) (size (health s))
    (length (inflight s)) (fatalRequested s) (fatalReason s)
    (merge_sort key_le (candidateStatus now <$> map_to_list (health s))).

(** ** The supervisor as a machine over its callers' events *)

Inductive Event :=
| EvRecord (now : Time) (o : Outcome)
| EvRecover (now : Time) (o : Outcome)
| EvTick (clock now : Time)
| EvOrder (now : Time) (l : list Candidate)
| EvTrigger (k : ActionKey)
| EvActionDelete (k : ActionKey)
| EvActionDone
| EvReset
| EvClose.

(** A goroutine only finishes an action in flight, and only a goroutine past its
    [delete] calls [Done]. *)
Definition enabled (s : t) (e : Event) : bool :=
  match e with
  | EvActionDelete k => bool_decide (k ∈ inflight s)
  | EvActionDone => (length (inflight s) <? wg s)%nat
  | _ => true
  end.

Definition step (s : t) (e : Event) : t :=
  if negb (enabled s e) then s else
  match e with
  | EvRecord now o => Record_ now o s
  | EvRecover now o => Recover now o s
  | EvTick clock now => Tick clock now s
  | EvOrder now l => (Order now l s).2
  | EvTrigger k => trigger k s
  | EvActionDelete k => runActionDelete k s
  | EvActionDone => runActionDone s
  | EvReset => ResetTransient s
  | EvClose => Close s
  end.

(** ** Specification vocabulary *)

(** The candidate is inside its cooling interval. *)
Definition cooling (now : Time) (s : t) (k : ProxyKey) : bool :=
  match health s !! k with
  | None => false
  | Some st => negb (isZero (coolingUntil st)) && before now (coolingUntil st)
  end.

Definition explicit (c : Candidate) : bool := negb (cDirect c).

(** ** Lemmas: candidate ordering *)

Lemma cooled_fst now k s : (candidateCooledLocked now k s).1 = cooling now s k.
Proof.
  unfold candidateCooledLocked, cooling. destruct (health s !! k); [|done].
  by repeat case_if.
Qed.

Lemma cooled_cooling now k s k' :
  cooling now (candidateCooledLocked now k s).2 k' = cooling now s k'.
Proof.
  unfold candidateCooledLocked. destruct (health s !! k) as [st|] eqn:E; [|done].
  destruct (isZero _) eqn:E0; [done|]. destruct (before _ _) eqn:Eb; [done|].
  unfold cooling; simpl. destruct (decide (k = k')) as [<-|].
  - by rewrite lookup_delete_eq, E, E0, Eb.
  - by rewrite lookup_delete_ne.
Qed.

Definition healthyMembers now s := bfilter (fun c => explicit c && negb (cooling now s (cKey c))).
Definition cooledMembers now s := bfilter (fun c => explicit c && cooling now s (cKey c)).

Lemma classify_spec now out s :
  (classify now out s).1 = (healthyMembers now s out, cooledMembers now s out).
Proof.
  revert s. induction out as [|c out IH]; intros s; [done|].
  unfold healthyMembers, cooledMembers in *. cbn [classify List.filter].
  change (explicit c) with (negb (cDirect c)). destruct (cDirect c); simpl; [apply IH|].
  pose proof (cooled_fst now (cKey c) s) as H1.
  pose proof (cooled_cooling now (cKey c) s) as H2.
  destruct (candidateCooledLocked now (cKey c) s) as [b s1]; simpl in *. subst b.
  specialize (IH s1). destruct (classify now out s1) as [[h k] s2]; simpl in *.
  injection IH as -> ->.
  rewrite (bfilter_ext _ (fun x => explicit x && negb (cooling now s (cKey x)))),
    (bfilter_ext (fun x => _ && cooling now s1 _) (fun x => explicit x && cooling now s (cKey x)))
    by (intros x; by rewrite H2).
  by destruct (cooling now s (cKey c)).
Qed.

Lemma refill_explicit out r :
  length r = length (bfilter explicit out) -> Forall (fun c => explicit c = true) r ->
  bfilter explicit (refill out r) = r.
Proof.
  revert r. induction out as [|c out IH]; intros r Hl Hr; simpl in *.
  - by destruct r.
  - change (explicit c) with (negb (cDirect c)) in Hl. destruct (cDirect c) eqn:E; simpl in *.
    + change (explicit c) with (negb (cDirect c)). rewrite E. by apply IH.
    + destruct r as [|x r]; simpl in *; [lia|]. inversion Hr as [|?? Hx Hr']; subst.
      rewrite Hx. f_equal. apply IH; [lia|done].
Qed.

Lemma refill_direct out r :
  Forall (fun c => explicit c = true) r -> length r = length (bfilter explicit out) ->
  bfilter cDirect (refill out r) = bfilter cDirect out /\
  length (refill out r) = length out /\
  forall i c, out !! i = Some c -> cDirect c = true -> refill out r !! i = Some c.
Proof.
  revert r. induction out as [|c out IH]; intros r Hr Hl; simpl in *; [done|].
  change (explicit c) with (negb (cDirect c)) in Hl. destruct (cDirect c) eqn:E; simpl in *.
  - rewrite E. destruct (IH r Hr Hl) as (-> & -> & IH3). split_and!; [done..|].
    intros [|i] d; simpl; [done|]. apply IH3.
  - destruct r as [|x r]; simpl in *; [lia|]. inversion Hr as [|?? Hx Hr']; subst.
    destruct (IH r Hr' ltac:(lia)) as (-> & -> & IH3).
    unfold explicit in Hx. apply negb_true_iff in Hx. rewrite Hx. split_and!; [done..|].
    intros [|i] d; simpl; [intros [= <-]; congruence|]. apply IH3.
Qed.

Lemma members_explicit now s l :
  healthyMembers now s l ++ cooledMembers now s l ≡ₚ bfilter explicit l /\
  Forall (fun c => explicit c = true) (healthyMembers now s l ++ cooledMembers now s l).
Proof.
  unfold healthyMembers, cooledMembers. rewrite <- !bfilter_bfilter. split.
  - rewrite Permutation_app_comm. symmetry. apply bfilter_split.
  - apply Forall_app; split; apply Forall_bfilter_sub, Forall_bfilter.
Qed.

Lemma refill_self l : refill l (bfilter explicit l) = l.
Proof.
  induction l as [|c l IH]; [done|]. simpl. change (explicit c) with (negb (cDirect c)).
  destruct (cDirect c); simpl; by rewrite IH.
Qed.

Lemma bfilter_nil_all {A} (p q : A -> bool) l :
  bfilter (fun x => p x && q x) l = [] ->
  bfilter (fun x => p x && negb (q x)) l = bfilter p l.
Proof.
  induction l as [|x l IH]; [done|]. simpl. destruct (p x), (q x); simpl; try done.
  - intros. by rewrite IH.
Qed.

(** The early returns of [Order] are instances of the refill. *)
Lemma Order_refill now l s :
  (Order now l s).1 = refill l (healthyMembers now s l ++ cooledMembers now s l).
Proof.
  unfold Order. destruct (Nat.ltb_spec (length l) 2) as [Hl|_].
  { simpl. destruct l as [|c [|]]; simpl in *; [done| |lia].
    unfold healthyMembers, cooledMembers, explicit. simpl.
    by destruct (cDirect c), (cooling now s (cKey c)). }
  pose proof (classify_spec now l s) as H. destruct (classify now l s) as [[h k] s'].
  simpl in H. injection H as -> ->. case_if; [|done]. simpl.
  transitivity (refill l (bfilter explicit l)); [by rewrite refill_self|]. f_equal.
  destruct (members_explicit now s l) as [Hp _]. apply Permutation_length in Hp.
  rewrite length_app in Hp.
  apply orb_true_iff in E as [E|E]; [apply orb_true_iff in E as [E|E]|]; apply Nat.eqb_eq in E.
  - destruct (healthyMembers now s l), (cooledMembers now s l); simpl in *; try lia.
    by destruct (bfilter explicit l).
  - apply length_zero_iff_nil in E. rewrite E, app_nil_r. unfold healthyMembers.
    by rewrite bfilter_nil_all.
  - assert (healthyMembers now s l = []) as Eh by (apply length_zero_iff_nil; lia).
    rewrite Eh. simpl. unfold healthyMembers, cooledMembers in *.
    rewrite <- (bfilter_nil_all explicit (fun x => negb (cooling now s (cKey x)))) by done.
    apply bfilter_ext. intros x. by rewrite negb_involutive.
Qed.

(** Contract of a candidate ordering, which the proxy relies on. *)
Class CandidateOrdering (order : Time -> list Candidate -> t -> list Candidate * t) := {
  ordering_permutes : forall now l s, (order now l s).1 ≡ₚ l;
  ordering_direct : forall now l s i c,
    l !! i = Some c -> cDirect c = true -> (order now l s).1 !! i = Some c }.

Lemma Order_members now l s : (Order now l s).1 ≡ₚ l.
Proof.
  rewrite Order_refill. destruct (members_explicit now s l) as [Hp Hf].
  assert (length (healthyMembers now s l ++ cooledMembers now s l) =
          length (bfilter explicit l)) as Hlen by (by rewrite Hp).
  etransitivity; [apply (bfilter_split explicit)|].
  symmetry. etransitivity; [apply (bfilter_split explicit)|]. symmetry.
  rewrite refill_explicit by done. apply Permutation_app; [done|].
  rewrite !(bfilter_ext (fun x => negb (explicit x)) cDirect)
    by (intros x; apply negb_involutive).
  by destruct (refill_direct l _ Hf Hlen) as (-> & _).
Qed.

#[export] Instance Order_ordering : CandidateOrdering Order.
Proof.
  split; [exact Order_members|]. intros now l s i c Hi Hd. rewrite Order_refill.
  destruct (members_explicit now s l) as [Hp Hf].
  apply refill_direct; [done|by rewrite Hp|done|done].
Qed.

(** ** Lemmas: passive health *)

(** A health entry as the supervisor maintains it: its counters determine each
    other, and it cools exactly from its second failure on. *)
Definition health_ok (st : healthState) : Prop :=
  1 <= failures st /\ backoffLevel st = Z.min (failures st - 1) maxBackoffLevel /\
  (isZero (coolingUntil st) = true <-> failures st = 1).

Definition health_inv (s : t) : Prop :=
  (size (health s) <= maxHealthEntries)%nat /\ map_Forall (fun _ st => health_ok st) (health s).

Lemma cooldown_values level :
  1 <= level <= 5 ->
  cooldownForLevel level = Z.min (Second * 2 ^ level) maxCooldown.
Proof.
  intros H. assert (level = 1 \/ level = 2 \/ level = 3 \/ level = 4 \/ level = 5) as Hc by lia.
  by repeat (destruct Hc as [-> | Hc]); [..|subst].
Qed.

Lemma cooldown_bounds level : 1 <= level <= 5 -> baseCooldown <= cooldownForLevel level <= maxCooldown.
Proof.
  intros H. assert (level = 1 \/ level = 2 \/ level = 3 \/ level = 4 \/ level = 5) as Hc by lia.
  by repeat (destruct Hc as [-> | Hc]); [..|subst].
Qed.

Lemma oldestEntry_fold l acc :
  fold_left older l (Some acc) = Some acc /\ Forall (fun kv => acc.2 <= lastSequence kv.2) l \/
  exists kv, kv ∈ l /\ lastSequence kv.2 < acc.2 /\
    fold_left older l (Some acc) = Some (kv.1, lastSequence kv.2) /\
    Forall (fun kv' => lastSequence kv.2 <= lastSequence kv'.2) l.
Proof.
  revert acc. induction l as [|x l IH]; intros [k q]; [left; done|]. simpl.
  destruct (Z.ltb_spec (lastSequence x.2) q) as [Hlt|Hge].
  - right. destruct (IH (x.1, lastSequence x.2)) as [[E F]|(kv & Hin & Hl & E & F)]; simpl in *.
    + exists x. split_and!; [left|done|done|]. constructor; [lia|done].
    + exists kv. split_and!; [by right|lia|done|]. constructor; [lia|done].
  - destruct (IH (k, q)) as [[E F]|(kv & Hin & Hl & E & F)]; simpl in *.
    + left. split; [done|]. by constructor.
    + right. exists kv. split_and!; [by right|done|done|]. constructor; [lia|done].
Qed.

Lemma oldestEntry_spec l :
  l <> [] -> exists kv, kv ∈ l /\ oldestEntry l = Some (kv.1, lastSequence kv.2) /\
    Forall (fun kv' => lastSequence kv.2 <= lastSequence kv'.2) l.
Proof.
  destruct l as [|x l]; [done|]. intros _. unfold oldestEntry. simpl.
  destruct (oldestEntry_fold l (x.1, lastSequence x.2)) as [[E F]|(kv & Hin & Hl & E & F)].
  - exists x. split_and!; [left|done|]. by constructor.
  - exists kv. split_and!; [by right|done|]. constructor; simpl in *; [lia|done].
Qed.

(** Evicting removes one entry, and none with a smaller sequence number stays. *)
Lemma evict_spec s :
  health s <> ∅ ->
  exists k st, health s !! k = Some st /\
    evictOldestHealthLocked s = set_health s (delete k (health s)) /\
    map_Forall (fun _ st' => lastSequence st <= lastSequence st') (health s).
Proof.
  intros Hne. unfold evictOldestHealthLocked.
  destruct (oldestEntry_spec (map_to_list (health s))) as ([k st] & Hin & -> & Hall).
  { by rewrite map_to_list_empty_iff. }
  exists k, st. apply elem_of_map_to_list in Hin. split_and!; [done|done|].
  intros k' st' Hk'. apply elem_of_map_to_list in Hk'.
  rewrite Forall_forall in Hall. by apply (Hall (k', st')).
Qed.

Lemma evict_size s :
  health s <> ∅ -> size (health (evictOldestHealthLocked s)) = pred (size (health s)).
Proof.
  intros Hne. destruct (evict_spec s Hne) as (k & st & Hk & -> & _). simpl.
  by rewrite map_size_delete_Some by eauto.
Qed.

Lemma evict_forall (P : healthState -> Prop) s :
  map_Forall (fun _ st => P st) (health s) ->
  map_Forall (fun _ st => P st) (health (evictOldestHealthLocked s)).
Proof.
  intros H. unfold evictOldestHealthLocked. destruct (oldestEntry _) as [[k q]|]; [|done].
  by apply map_Forall_delete.
Qed.

(** The map in which [recordLocalFailureLocked] finds or creates its entry. *)
Definition admitted (key : ProxyKey) (s : t) : t :=
  match health s !! key with
  | Some _ => s
  | None => let s := if (maxHealthEntries <=? size (health s))%nat
                     then evictOldestHealthLocked s else s in
            set_health s (<[key := mkHealth 0 0 zeroTime 0]> (health s))
  end.

Definition failed (now : Time) (seq : Z) (st : healthState) : healthState :=
  let st := if negb (isZero (coolingUntil st)) && negb (before now (coolingUntil st))
            then mkHealth 0 0 zeroTime 0 else st in
  if failures st + 1 <? localFailureThreshold
  then mkHealth (failures st + 1) (backoffLevel st) (coolingUntil st) seq
  else let level := if backoffLevel st <? maxBackoffLevel then backoffLevel st + 1
                    else backoffLevel st in
       mkHealth (failures st + 1) level (addT now (cooldownForLevel level)) seq.

Lemma recordLocalFailure_health now (key : ProxyKey) s :
  key <> "" ->
  health (recordLocalFailureLocked now key s).2 =
  <[key := failed now (u64 (sequence s + 1))
             (default (mkHealth 0 0 zeroTime 0) (health s !! key))]> (health (admitted key s)).
Proof.
  intros Hk. unfold recordLocalFailureLocked. apply String.eqb_neq in Hk. rewrite Hk.
  assert (sequence (admitted key s) = sequence s) as Hseq.
  { unfold admitted, evictOldestHealthLocked. by repeat case_match. }
  assert (health (admitted key s) !! key =
          Some (default (mkHealth 0 0 zeroTime 0) (health s !! key))) as Hl.
  { unfold admitted. case_match; simpl; [done|]. by rewrite lookup_insert_eq. }
  fold (admitted key s). revert Hseq Hl. generalize (admitted key s) as s1. intros s1 Hseq ->.
  generalize (default (mkHealth 0 0 zeroTime 0) (health s !! key)) as st. intros st.
  simpl. rewrite Hseq. unfold failed.
  destruct (negb (isZero (coolingUntil st)) && negb (before now (coolingUntil st))); simpl;
    by repeat case_match.
Qed.


Lemma failed_ok now q st :
  0 < now -> health_ok st \/ st = mkHealth 0 0 zeroTime 0 -> health_ok (failed now q st).
Proof.
  intros Hnow Hst. unfold failed, health_ok, localFailureThreshold, maxBackoffLevel, isZero.
  assert (forall f b c, (f = 0 /\ b = 0 /\ c = 0) \/
     (1 <= f /\ b = Z.min (f - 1) 5 /\ ((c =? 0) = true <-> f = 1)) ->
     let st' := if f + 1 <? 2 then mkHealth (f + 1) b c q
       else mkHealth (f + 1) (if b <? 5 then b + 1 else b)
              (addT now (cooldownForLevel (if b <? 5 then b + 1 else b))) q in
     1 <= failures st' /\ backoffLevel st' = Z.min (failures st' - 1) 5 /\
     ((coolingUntil st' =? 0) = true <-> failures st' = 1)) as Hgen.
  { intros f b c H. simpl. destruct (Z.ltb_spec (f + 1) 2) as [?|Hge]; simpl.
    - destruct H as [(-> & -> & ->)|H]; [|lia]. split_and!; [lia|done|done].
    - assert (1 <= (if b <? 5 then b + 1 else b) <= 5) as Hl by (destruct (Z.ltb_spec b 5); lia).
      pose proof (cooldown_bounds _ Hl) as [Hc _]. unfold baseCooldown, Second in Hc.
      split_and!; [lia|destruct (Z.ltb_spec b 5); lia|].
      rewrite Z.eqb_eq. unfold addT. lia. }
  destruct (negb (coolingUntil st =? 0) && negb (before now (coolingUntil st)));
    [apply (Hgen 0 0 0); by left|].
  apply (Hgen (failures st) (backoffLevel st) (coolingUntil st)).
  destruct Hst as [H| ->]; [right; exact H|by left].
Qed.

Lemma admitted_inv key s : health_inv s ->
  (size (health (admitted key s)) <= maxHealthEntries)%nat /\
  map_Forall (fun k st => k <> key -> health_ok st) (health (admitted key s)) /\
  is_Some (health (admitted key s) !! key).
Proof.
  intros [Hs Hf]. unfold admitted. case_match eqn:E.
  { split_and!; [done| |by eauto]. intros k st Hk _. by apply (Hf k). }
  cbn [health set_health]. set (s' := if (maxHealthEntries <=? size (health s))%nat
                     then evictOldestHealthLocked s else s).
  assert (S (size (health s')) <= maxHealthEntries /\
          map_Forall (fun _ st => health_ok st) (health s'))%nat as [Hs' Hf'].
  { subst s'. destruct (Nat.leb_spec maxHealthEntries (size (health s))); [|by split].
    split; [|by apply evict_forall].
    assert (0 < maxHealthEntries)%nat by (unfold maxHealthEntries; lia).
    rewrite evict_size; [lia|]. intros E0. rewrite E0, map_size_empty in *. lia. }
  split_and!.
  - etransitivity; [|exact Hs']. rewrite map_size_insert. case_match; unfold id; lia.
  - intros k st Hk Hne. rewrite lookup_insert_ne in Hk by done. by apply (Hf' k).
  - rewrite lookup_insert_eq. by eauto.
Qed.

Lemma recordLocalFailure_inv now key s :
  0 < now -> health_inv s -> health_inv (recordLocalFailureLocked now key s).2.
Proof.
  intros Hnow Hinv. destruct (decide (key = "")) as [->|Hk]; [done|].
  destruct (admitted_inv key s Hinv) as (Hs & Hf & Hl).
  unfold health_inv. rewrite recordLocalFailure_health by done. split.
  - by rewrite map_size_insert_Some.
  - intros k st. destruct (decide (k = key)) as [->|Hne].
    + rewrite lookup_insert_eq. intros [= <-]. apply failed_ok; [done|].
      destruct Hinv as [_ Hinv]. destruct (health s !! key) eqn:E; [left; by eapply Hinv|by right].
    + rewrite lookup_insert_ne by done. intros H. by apply (Hf k).
Qed.

(** *** Which operations leave the health map alone, or shrink it *)

Definition health_le (s s' : t) : Prop := health s' ⊆ health s.

#[export] Instance health_le_refl : Reflexive health_le.
Proof. intros s. unfold health_le. reflexivity. Qed.

Lemma health_le_inv s s' : health_le s s' -> health_inv s -> health_inv s'.
Proof.
  intros Hle [Hs Hf]. split.
  - etransitivity; [|exact Hs]. by apply map_subseteq_size.
  - intros k st Hk. eapply Hf. by eapply lookup_weaken.
Qed.

Lemma trigger_frame key s :
  health (trigger key s) = health s /\ networkEpoch (trigger key s) = networkEpoch s /\
  lastNetworkEpoch (trigger key s) = lastNetworkEpoch s /\
  correlated (trigger key s) = correlated s /\
  internalWindowStart (trigger key s) = internalWindowStart s /\
  internalFailures (trigger key s) = internalFailures s /\
  fatalRequested (trigger key s) = fatalRequested s /\ fatalCh (trigger key s) = fatalCh s /\
  closed (trigger key s) = closed s /\ owners (trigger key s) = owners s.
Proof. unfold trigger, Trigger. by repeat case_if. Qed.

(** [Recover] is [record] followed by triggers. *)
Lemma recover_triggers now o s :
  exists ks, Recover now o s = fold_left (fun s k => trigger k s) ks (Record_ now o s).
Proof.
  unfold Recover, Record_. destruct (record now o s) as [[ti ep] s1]; simpl.
  set (s2 := match oKind o with OutcomeAuthExhausted => _ | _ => _ end).
  assert (exists ks, s2 = fold_left (fun s k => trigger k s) ks s1) as [ks2 ->].
  { subst s2. destruct (oKind o); 
      first [by exists [] | by exists [ActionRefreshRoute] | by exists [ActionRefreshAuth]]. }
  exists (ks2 ++ (if ti then [ActionCloseIdleTransports] else []) ++
    (if ep then [ActionRefreshRoute; ActionRefreshAuth; ActionCloseIdleTransports; ActionClearNetworkDNS] else [])).
  rewrite !fold_left_app. by destruct ti, ep.
Qed.

(** What [Recover] shares with [Record]: everything but the in-flight actions. *)
Lemma triggers_frame ks s :
  let s' := fold_left (fun s k => trigger k s) ks s in
  health s' = health s /\ networkEpoch s' = networkEpoch s /\
  lastNetworkEpoch s' = lastNetworkEpoch s /\ correlated s' = correlated s /\
  internalWindowStart s' = internalWindowStart s /\ internalFailures s' = internalFailures s /\
  fatalRequested s' = fatalRequested s /\ fatalCh s' = fatalCh s /\
  closed s' = closed s /\ owners s' = owners s.
Proof.
  revert s. induction ks as [|k ks IH]; intros s; simpl; [done|].
  specialize (IH (trigger k s)). pose proof (trigger_frame k s). simpl in *. intuition congruence.
Qed.

Lemma recover_frame now o s :
  let s' := Recover now o s in let r := Record_ now o s in
  health s' = health r /\ networkEpoch s' = networkEpoch r /\
  lastNetworkEpoch s' = lastNetworkEpoch r /\ correlated s' = correlated r /\
  internalWindowStart s' = internalWindowStart r /\ internalFailures s' = internalFailures r /\
  fatalRequested s' = fatalRequested r /\ fatalCh s' = fatalCh r /\
  closed s' = closed r /\ owners s' = owners r.
Proof. destruct (recover_triggers now o s) as [ks ->]. apply triggers_frame. Qed.

Lemma observe_health_le now key s : health_le s (observeCorrelatedFailureLocked now key s).2.
Proof.
  unfold observeCorrelatedFailureLocked, health_le. repeat case_if; simpl;
    first [reflexivity | apply map_empty_subseteq].
Qed.

Lemma classify_health_le now l s : health_le s (classify now l s).2.
Proof.
  revert s. induction l as [|c l IH]; intros s; [reflexivity|]. simpl.
  destruct (cDirect c); [apply IH|].
  assert (health_le s (candidateCooledLocked now (cKey c) s).2) as H1.
  { unfold candidateCooledLocked, health_le. destruct (health s !! cKey c); [|reflexivity].
    repeat case_if; simpl; first [reflexivity | apply delete_subseteq]. }
  destruct (candidateCooledLocked now (cKey c) s) as [b s1]. specialize (IH s1).
  destruct (classify now l s1) as [[h k] s2]. simpl in *. unfold health_le in *.
  destruct b; simpl; by etransitivity.
Qed.

Lemma Order_health_le now l s : health_le s (Order now l s).2.
Proof.
  unfold Order. case_if; [reflexivity|]. pose proof (classify_health_le now l s) as H.
  destruct (classify now l s) as [[h k] s']. by case_if.
Qed.

(** The times an event carries are after the zero time. *)
Definition event_time_ok (e : Event) : Prop :=
  match e with
  | EvRecord now _ | EvRecover now _ => 0 < now
  | _ => True
  end.

Lemma record_inv now o s : 0 < now -> health_inv s -> health_inv (Record_ now o s).
Proof.
  intros Hnow Hinv. unfold Record_, record. case_if; [done|]. case_match.
  { simpl. case_if; [|done]. eapply health_le_inv, Hinv. apply delete_subseteq. }
  case_if.
  - pose proof (recordLocalFailure_inv now (oProxy o) s Hnow Hinv) as H1.
    destruct (recordLocalFailureLocked now (oProxy o) s) as [ti s1].
    pose proof (observe_health_le now (oProxy o) s1) as H2.
    destruct (observeCorrelatedFailureLocked now (oProxy o) s1) as [ep s2]. simpl in *.
    by eapply health_le_inv.
  - case_match; [|done]. simpl. eapply health_le_inv, Hinv.
    unfold health_le, recordInternalFailureLocked. repeat case_if; reflexivity.
Qed.

Lemma step_health_inv s e : event_time_ok e -> health_inv s -> health_inv (step s e).
Proof.
  intros Ht Hinv. unfold step. case_if; [done|]. destruct e; simpl in *.
  - by apply record_inv.
  - unfold health_inv. destruct (recover_frame now o s) as [-> _]. by apply record_inv.
  - unfold Tick. generalize (if isZero now then clock else now). intros n.
    case_if; [done|]. simpl. case_if; [|done].
    unfold triggerNetworkRecovery, health_inv. rewrite !(proj1 (trigger_frame _ _)). simpl.
    split; [rewrite map_size_empty; lia|apply map_Forall_empty].
  - eapply health_le_inv, Hinv. apply Order_health_le.
  - unfold health_inv. by rewrite (proj1 (trigger_frame _ _)).
  - done.
  - done.
  - split; [simpl; rewrite map_size_empty; lia|apply map_Forall_empty].
  - unfold Close. by case_if.
Qed.

(** ** Lemmas: failure windows over a history *)

(** What an event reports to the two failure windows. *)
Definition reported (e : Event) : option (Time * Outcome) :=
  match e with EvRecord now o | EvRecover now o => Some (now, o) | _ => None end.
Definition internal_time (e : Event) : option Time :=
  match reported e with
  | Some (now, o) => if decide (oKind o = OutcomeInternalFailure) then Some now else None
  | None => None
  end.
Definition penalty (e : Event) : option (Time * ProxyKey) :=
  match reported e with
  | Some (now, o) => if PenalizesCandidate (oKind o) && negb (String.eqb (oProxy o) "")
                     then Some (now, oProxy o) else None
  | None => None
  end.

Definition internal_fields (s : t) :=
  (internalWindowStart s, internalFailures s, fatalRequested s, fatalCh s).
Definition epoch_fields (s : t) := (networkEpoch s, lastNetworkEpoch s, correlated s).

Lemma recordLocal_fields now key s :
  internal_fields (recordLocalFailureLocked now key s).2 = internal_fields s /\
  epoch_fields (recordLocalFailureLocked now key s).2 = epoch_fields s /\
  closed (recordLocalFailureLocked now key s).2 = closed s.
Proof.
  unfold recordLocalFailureLocked, evictOldestHealthLocked.
  destruct (String.eqb key ""); [done|].
  destruct (health s !! key); [by case_if|].
  destruct (_ <=? _)%nat; [destruct (oldestEntry _) as [[??]|]|]; by case_if.
Qed.

Lemma observe_internal now key s :
  internal_fields (observeCorrelatedFailureLocked now key s).2 = internal_fields s.
Proof. unfold observeCorrelatedFailureLocked. by repeat case_if. Qed.

(** [observeCorrelatedFailureLocked] reads and writes the epoch fields only. *)
Lemma observe_epoch now key s s' :
  epoch_fields s = epoch_fields s' ->
  epoch_fields (observeCorrelatedFailureLocked now key s).2 =
  epoch_fields (observeCorrelatedFailureLocked now key s').2.
Proof.
  unfold epoch_fields. intros [= H1 H2 H3]. unfold observeCorrelatedFailureLocked.
  rewrite H2, H3. destruct (String.eqb key ""); simpl; [by rewrite H1, H2, H3|].
  destruct (_ && _); simpl; [by rewrite H1, H2, H3|].
  destruct (_ || (_ <? 2)%nat); simpl; by rewrite H1, ?H2.
Qed.

Lemma candidateCooled_fields now k s :
  internal_fields (candidateCooledLocked now k s).2 = internal_fields s /\
  epoch_fields (candidateCooledLocked now k s).2 = epoch_fields s.
Proof. unfold candidateCooledLocked. destruct (health s !! k); [|done]. by repeat case_if. Qed.

Lemma Order_fields now l s :
  internal_fields (Order now l s).2 = internal_fields s /\
  epoch_fields (Order now l s).2 = epoch_fields s.
Proof.
  assert (forall l s, internal_fields (classify now l s).2 = internal_fields s /\
                      epoch_fields (classify now l s).2 = epoch_fields s) as H.
  { clear. induction l as [|c l IH]; intros s; [done|]. simpl. destruct (cDirect c); [apply IH|].
    destruct (candidateCooled_fields now (cKey c) s) as [H1 H2].
    destruct (candidateCooledLocked now (cKey c) s) as [b s1]. specialize (IH s1).
    destruct (classify now l s1) as [[h k] s2]. simpl in *. destruct IH.
    destruct b; simpl; split; congruence. }
  unfold Order. case_if; [done|]. specialize (H l s).
  destruct (classify now l s) as [[h k] s']. by case_if.
Qed.

Lemma record_internal now o s :
  internal_fields (Record_ now o s) =
  if negb (closed s) && bool_decide (oKind o = OutcomeInternalFailure)
  then internal_fields (recordInternalFailureLocked now s) else internal_fields s.
Proof.
  unfold Record_, record. destruct (closed s); [done|].
  destruct (decide (oKind o = OutcomeSuccess)) as [->|_]; [by case_if|].
  destruct (PenalizesCandidate (oKind o)) eqn:Ep.
  - rewrite bool_decide_eq_false_2 by (by intros E; rewrite E in Ep). simpl.
    destruct (recordLocal_fields now (oProxy o) s) as (H1 & _).
    destruct (recordLocalFailureLocked now (oProxy o) s) as [ti s1].
    pose proof (observe_internal now (oProxy o) s1) as H2.
    destruct (observeCorrelatedFailureLocked now (oProxy o) s1) as [ep s2]. simpl in *. congruence.
  - destruct (decide (oKind o = OutcomeInternalFailure)) as [E|E]; simpl.
    + by rewrite bool_decide_eq_true_2.
    + by rewrite bool_decide_eq_false_2.
Qed.

Lemma record_epoch now o s :
  epoch_fields (Record_ now o s) =
  if negb (closed s) && PenalizesCandidate (oKind o)
  then epoch_fields (observeCorrelatedFailureLocked now (oProxy o) s).2 else epoch_fields s.
Proof.
  unfold Record_, record. destruct (closed s); [done|].
  destruct (decide (oKind o = OutcomeSuccess)) as [->|_]; [by case_if|].
  destruct (PenalizesCandidate (oKind o)); simpl.
  - destruct (recordLocal_fields now (oProxy o) s) as (_ & H1 & _).
    destruct (recordLocalFailureLocked now (oProxy o) s) as [ti s1].
    pose proof (observe_epoch now (oProxy o) s1 s H1) as H2.
    by destruct (observeCorrelatedFailureLocked now (oProxy o) s1) as [ep s2].
  - case_if; [|done]. simpl. unfold recordInternalFailureLocked. by repeat case_if.
Qed.

Lemma triggerNetworkRecovery_fields s :
  internal_fields (triggerNetworkRecovery s) = internal_fields s /\
  epoch_fields (triggerNetworkRecovery s) = epoch_fields s /\
  health (triggerNetworkRecovery s) = health s.
Proof.
  pose proof (triggers_frame [ActionRefreshRoute; ActionRefreshAuth; ActionCloseIdleTransports;
    ActionClearNetworkDNS] s) as H. cbn [fold_left] in H. unfold internal_fields, epoch_fields.
  unfold triggerNetworkRecovery. destruct H as (?&?&?&?&?&?&?&?&_).
  split_and!; congruence.
Qed.

Lemma step_internal s e :
  internal_fields (step s e) = internal_fields s \/
  exists now, internal_time e = Some now /\
    internal_fields (step s e) = internal_fields (recordInternalFailureLocked now s).
Proof.
  assert (forall now o, internal_fields (Record_ now o s) = internal_fields s \/
    (if decide (oKind o = OutcomeInternalFailure) then Some now else None) = Some now /\
    internal_fields (Record_ now o s) = internal_fields (recordInternalFailureLocked now s)) as Hr.
  { intros now o. rewrite record_internal. case_if; [|by left]. to_prop.
    right. split; [by rewrite decide_True|done]. }
  unfold step. destruct (negb (enabled s e)); [by left|]. unfold internal_time.
  destruct e; simpl.
  - destruct (Hr now o) as [?|?]; eauto.
  - assert (internal_fields (Recover now o s) = internal_fields (Record_ now o s)) as ->.
    { unfold internal_fields. by destruct (recover_frame now o s) as (_&_&_&_&->&->&->&->&_). }
    destruct (Hr now o) as [?|?]; eauto.
  - left. unfold Tick. destruct (closed s); [done|]. case_if; [|done].
    by rewrite (proj1 (triggerNetworkRecovery_fields _)).
  - left. apply Order_fields.
  - left. unfold internal_fields. by destruct (trigger_frame k s) as (_&_&_&_&->&->&->&->&_).
  - by left.
  - by left.
  - by left.
  - left. unfold Close. by case_if.
Qed.

Lemma step_epoch s e :
  epoch_fields (step s e) = epoch_fields s \/
  (exists now key, penalty e = Some (now, key) /\
    epoch_fields (step s e) = epoch_fields (observeCorrelatedFailureLocked now key s).2) \/
  (reported e = None /\ correlated (step s e) = corrZero).
Proof.
  assert (forall now o, epoch_fields (Record_ now o s) = epoch_fields s \/
    (if PenalizesCandidate (oKind o) && negb (String.eqb (oProxy o) "")
     then Some (now, oProxy o) else None) = Some (now, oProxy o) /\
    epoch_fields (Record_ now o s) =
    epoch_fields (observeCorrelatedFailureLocked now (oProxy o) s).2) as Hr.
  { intros now o. rewrite record_epoch. case_if; [|by left]. to_prop.
    destruct (String.eqb (oProxy o) "") eqn:Ek.
    - left. unfold observeCorrelatedFailureLocked. by rewrite Ek.
    - right. split; [|done]. by rewrite H0. }
  unfold step. destruct (negb (enabled s e)); [by left|]. unfold penalty.
  destruct e; simpl.
  - destruct (Hr now o) as [?|?]; eauto 10.
  - assert (epoch_fields (Recover now o s) = epoch_fields (Record_ now o s)) as ->.
    { unfold epoch_fields. by destruct (recover_frame now o s) as (_&->&->&->&_). }
    destruct (Hr now o) as [?|?]; eauto 10.
  - unfold Tick. destruct (closed s); [by left|]. case_if; [|by left].
    right; right. split; [done|].
    pose proof (triggerNetworkRecovery_fields
      (set_lastTick (startNetworkEpochLocked (if isZero now then clock else now)
        (set_progress s (u64 (progressSequence s + 1)) (if isZero now then clock else now)))
        (if isZero now then clock else now))) as (_ & H & _).
    unfold epoch_fields in H. injection H as H1 H2 H3. exact H3.
  - left. apply Order_fields.
  - left. unfold epoch_fields. by destruct (trigger_frame k s) as (_&->&->&->&_).
  - by left.
  - by left.
  - right; right. done.
  - left. unfold Close. by case_if.
Qed.

(** *** The internal-failure window *)

(** A burst: at least [n] elements in order, all within [w] of the first. *)
Definition burst {A} (time : A -> Time) (n : Z) (w : Duration) (l : list A) : Prop :=
  n <= Z.of_nat (length l) /\
  forall a l', l = a :: l' -> Forall (fun b => time b - time a <= w) l.

Definition window_ok {A} (time : A -> Time) (start : Time) (w : Duration) (l : list A) : Prop :=
  Forall (fun b => time b - start <= w) l /\ forall a l', l = a :: l' -> time a = start.

Lemma window_burst {A} (time : A -> Time) start w n l :
  n <= Z.of_nat (length l) -> window_ok time start w l -> burst time n w l.
Proof. intros Hn [Hf Hh]. split; [done|]. intros a l' E. by rewrite (Hh a l' E). Qed.

(** The next element of a window, reset when it is out of reach. *)
Lemma window_next {A} (time : A -> Time) start w l (x : A) :
  0 <= w < max_int64 -> window_ok time start w l ->
  if isZero start || (w <? subT (time x) start)
  then window_ok time (time x) w [x]
  else l <> [] -> window_ok time start w (l ++ [x]).
Proof.
  intros Hw [Hf Hh]. case_if.
  - split; [constructor; [lia|done]|]. by intros a l' [= -> _].
  - intros Hne. to_prop. rewrite <- Z.nlt_ge, subT_gt in H0 by (unfold min_int64; lia).
    split; [apply Forall_app; split; [done|constructor; [lia|done]]|].
    intros a l' E'. destruct l as [|b l]; [done|]. injection E' as -> _. by eapply Hh.
Qed.

Definition internal_inv (evs : list Event) (s : t) : Prop :=
  (exists ts, ts `sublist_of` omap internal_time evs /\
     Z.of_nat (length ts) = internalFailures s /\
     window_ok id (internalWindowStart s) internalFailureWindow ts /\
     (ts = [] -> internalWindowStart s = zeroTime)) /\
  (fatalRequested s = true ->
     exists ts, ts `sublist_of` omap internal_time evs /\
       burst id internalFatalThreshold internalFailureWindow ts).

Lemma recordInternal_fields now s :
  let reset := isZero (internalWindowStart s) ||
               (internalFailureWindow <? subT now (internalWindowStart s)) in
  let start := if reset then now else internalWindowStart s in
  let n := (if reset then 0 else internalFailures s) + 1 in
  internal_fields (recordInternalFailureLocked now s) =
  if (n <? internalFatalThreshold) || fatalRequested s
  then (start, n, fatalRequested s, fatalCh s)
  else (start, n, true,
        Some (default (mkFatal "repeated internal runtime failure" now) (fatalCh s))).
Proof.
  unfold recordInternalFailureLocked. destruct (_ || (internalFailureWindow <? _)); simpl; [done|].
  case_if; [done|]. by destruct (fatalCh s).
Qed.

(** One more internal failure extends or restarts the recorded window. *)
Lemma internal_window evs s now :
  internal_inv evs s ->
  let reset := isZero (internalWindowStart s) ||
               (internalFailureWindow <? subT now (internalWindowStart s)) in
  exists ts', ts' `sublist_of` omap internal_time evs ++ [now] /\ ts' <> [] /\
    Z.of_nat (length ts') = (if reset then 0 else internalFailures s) + 1 /\
    window_ok id (if reset then now else internalWindowStart s) internalFailureWindow ts'.
Proof.
  intros [(ts & Hsub & Hlen & Hw & Hnil) _]. 
  pose proof (window_next id (internalWindowStart s) internalFailureWindow ts now
    ltac:(unfold internalFailureWindow, max_int64, Second; lia) Hw) as Hnext. simpl in Hnext.
  destruct (isZero _ || _) eqn:Er.
  - exists [now]. split_and!; [by apply sublist_inserts_l|done|done|done].
  - assert (ts <> []) as Hne by (intros ->; by rewrite Hnil in Er).
    exists (ts ++ [now]). split_and!; [by apply sublist_app|by destruct ts| |by apply Hnext].
    rewrite length_app. simpl. lia.
Qed.

Lemma internal_step evs s e : internal_inv evs s -> internal_inv (evs ++ [e]) (step s e).
Proof.
  intros Hinv. pose proof Hinv as [(ts & Hsub & Hlen & Hw & Hnil) Hfat].
  assert (forall ts, ts `sublist_of` omap internal_time evs ->
    ts `sublist_of` omap internal_time (evs ++ [e])) as Hmono
    by (intros; rewrite omap_app; by apply sublist_inserts_r).
  assert (fatalRequested s = true -> exists ts, ts `sublist_of` omap internal_time (evs ++ [e]) /\
    burst id internalFatalThreshold internalFailureWindow ts) as Hfat'.
  { intros H. destruct (Hfat H) as (ts2 & ? & ?). exists ts2; auto. }
  unfold internal_inv. destruct (step_internal s e) as [E|(now & He & E)].
  { injection E as -> -> -> _. split; [exists ts; auto|done]. }
  destruct (internal_window evs s now Hinv) as (ts' & Hs' & Hn' & Hl' & Hw').
  assert (omap internal_time (evs ++ [e]) = omap internal_time evs ++ [now]) as Ho
    by (rewrite omap_app; simpl; by rewrite He).
  rewrite recordInternal_fields in E. rewrite Ho in *.
  destruct (_ || fatalRequested s) eqn:Ef; injection E as -> -> -> _;
    (split; [exists ts'; done|intros Hfr]).
  - auto.
  - exists ts'. split; [done|]. eapply window_burst; [|done]. to_prop. lia.
Qed.

(** *** The correlated-failure window *)

Definition corr_inv (evs : list Event) (s : t) : Prop :=
  exists ps, ps `sublist_of` omap penalty evs /\
    Z.of_nat (length ps) = corrCount (correlated s) /\
    window_ok fst (corrStart (correlated s)) correlatedFailureWindow ps /\
    (ps = [] -> corrStart (correlated s) = zeroTime) /\
    default ∅ (corrProxies (correlated s)) = list_to_set ps.*2.

Lemma corr_inv_nil evs s : correlated s = corrZero -> corr_inv evs s.
Proof.
  intros E. exists []. rewrite E. split_and!; [apply sublist_nil_l|done| |done|done].
  split; [constructor|]. by intros a l'.
Qed.

(** The window [observeCorrelatedFailureLocked] counts in. *)
Definition corr_next (now : Time) (key : ProxyKey) (c : correlatedWindowState) :=
  let c := if isZero (corrStart c) || (correlatedFailureWindow <? subT now (corrStart c))
           then mkCorr now 0 (Some ∅) else c in
  mkCorr (corrStart c) (corrCount c + 1) (Some ({[key]} ∪ default ∅ (corrProxies c))).

Lemma observe_cases now key s :
  let s' := (observeCorrelatedFailureLocked now key s).2 in
  epoch_fields s' = epoch_fields s \/
  (lastNetworkEpoch s = zeroTime \/ networkEpochCooldown <= now - lastNetworkEpoch s) /\
  let c := corr_next now key (correlated s) in
  (epoch_fields s' = (networkEpoch s, lastNetworkEpoch s, c) \/
   correlatedFailureThreshold <= corrCount c /\
   (2 <= size (default ∅ (corrProxies c)))%nat /\
   epoch_fields s' = (u64 (networkEpoch s + 1), now, corrZero)).
Proof.
  unfold observeCorrelatedFailureLocked. destruct (String.eqb key ""); [by left|].
  destruct (negb (isZero (lastNetworkEpoch s)) && _) eqn:Ec; [by left|]. right. split.
  { to_prop. destruct Ec as [Ec|Ec]; to_prop; unfold isZero, zeroTime in *; to_prop; [by left|].
    right. rewrite <- Z.nlt_ge, subT_lt in Ec
      by (unfold networkEpochCooldown, min_int64, max_int64, Second; lia). lia. }
  cbv zeta. fold (corr_next now key (correlated s)).
  destruct (_ || _) eqn:E in |- *; cbn [snd]; [by left|]. right. to_prop. 
  split_and!; [done| |done].
  unfold corr_next in *. simpl in *. apply Nat.ltb_ge in H0. exact H0.
Qed.

Lemma corr_window evs s now key :
  corr_inv evs s ->
  exists ps, ps `sublist_of` omap penalty evs ++ [(now, key)] /\ ps <> [] /\
    Z.of_nat (length ps) = corrCount (corr_next now key (correlated s)) /\
    window_ok fst (corrStart (corr_next now key (correlated s))) correlatedFailureWindow ps /\
    default ∅ (corrProxies (corr_next now key (correlated s))) = list_to_set ps.*2.
Proof.
  intros (ps & Hsub & Hlen & Hw & Hnil & Hset). unfold corr_next.
  pose proof (window_next fst (corrStart (correlated s)) correlatedFailureWindow ps (now, key)
    ltac:(unfold correlatedFailureWindow, max_int64, Second; lia) Hw) as Hnext. simpl in Hnext.
  destruct (isZero _ || _) eqn:Er; simpl.
  - exists [(now, key)]. split_and!; [by apply sublist_inserts_l|done|done|done|set_solver].
  - assert (ps <> []) as Hne by (intros ->; by rewrite Hnil in Er).
    exists (ps ++ [(now, key)]).
    split_and!; [by apply sublist_app|by destruct ps| |by apply Hnext|].
    + rewrite length_app. simpl. lia.
    + rewrite Hset, fmap_app, list_to_set_app_L. simpl. set_solver.
Qed.

Lemma corr_step evs s e : corr_inv evs s -> corr_inv (evs ++ [e]) (step s e).
Proof.
  intros Hinv. destruct (step_epoch s e) as [E|[(now & key & He & E)|[_ E]]].
  - injection E as _ _ E. destruct Hinv as (ps & Hsub & Hrest).
    exists ps. rewrite E, omap_app. split; [by apply sublist_inserts_r|done].
  - destruct (observe_cases now key s) as [E'|[_ [E'|(_ & _ & E')]]];
      rewrite E' in E; injection E as _ _ E.
    + destruct Hinv as (ps & Hsub & Hrest).
      exists ps. rewrite E, omap_app. split; [by apply sublist_inserts_r|done].
    + destruct (corr_window evs s now key Hinv) as (ps & Hsub & Hne & Hlen & Hw & Hset).
      exists ps. rewrite omap_app. simpl. rewrite He, E. done.
    + by apply corr_inv_nil.
  - by apply corr_inv_nil.
Qed.

Lemma run_history (P : list Event -> t -> Prop) o evs :
  P [] (New o) -> (forall evs s e, P evs s -> P (evs ++ [e]) (step s e)) ->
  P evs (run step (New o) evs).
Proof.
  intros H0 Hs. induction evs as [|e evs IH] using rev_ind; [done|].
  rewrite run_app. simpl. by apply Hs.
Qed.

(** ** Lemmas: single-flight actions *)

Definition flight_inv (s : t) : Prop :=
  NoDup (inflight s) /\ (length (inflight s) <= wg s)%nat /\
  Forall (fun k => ownerAction (owners s) k = true) (inflight s).

Definition flight (s : t) := (inflight s, wg s, owners s).

Lemma trigger_flight k s : flight_inv s -> flight_inv (trigger k s).
Proof.
  intros (Hd & Hl & Ho). unfold trigger, Trigger.
  destruct (ownerAction (owners s) k) eqn:E; simpl; [|done].
  case_if; [done|]. to_prop. repeat split; simpl; [by constructor|lia|by constructor].
Qed.

Lemma triggers_flight ks s : flight_inv s -> flight_inv (fold_left (fun s k => trigger k s) ks s).
Proof. revert s. induction ks as [|k ks IH]; intros s H; [done|]. apply IH, trigger_flight, H. Qed.

Lemma record_flight now o s : flight (Record_ now o s) = flight s.
Proof.
  unfold Record_, record. destruct (closed s); [done|]. case_match; [by case_if|].
  destruct (PenalizesCandidate (oKind o)); simpl.
  - assert (flight (recordLocalFailureLocked now (oProxy o) s).2 = flight s) as H1.
    { unfold recordLocalFailureLocked, evictOldestHealthLocked.
      destruct (String.eqb _ ""); [done|]. destruct (health s !! _); [by case_if|].
      destruct (_ <=? _)%nat; [destruct (oldestEntry _) as [[??]|]|]; by case_if. }
    destruct (recordLocalFailureLocked now (oProxy o) s) as [ti s1].
    assert (flight (observeCorrelatedFailureLocked now (oProxy o) s1).2 = flight s1) as H2
      by (unfold observeCorrelatedFailureLocked; by repeat case_if).
    destruct (observeCorrelatedFailureLocked now (oProxy o) s1) as [ep s2]. simpl in *. congruence.
  - case_match; [|done]. simpl. unfold recordInternalFailureLocked. by repeat case_if.
Qed.

Lemma Order_flight now l s : flight (Order now l s).2 = flight s.
Proof.
  assert (forall l s, flight (classify now l s).2 = flight s) as H.
  { clear. induction l as [|c l IH]; intros s; [done|]. simpl. destruct (cDirect c); [apply IH|].
    assert (flight (candidateCooledLocked now (cKey c) s).2 = flight s) as H1.
    { unfold candidateCooledLocked. destruct (health s !! cKey c); [|done]. by repeat case_if. }
    destruct (candidateCooledLocked now (cKey c) s) as [b s1]. specialize (IH s1).
    destruct (classify now l s1) as [[h k] s2]. simpl in *. destruct b; simpl; congruence. }
  unfold Order. case_if; [done|]. specialize (H l s).
  destruct (classify now l s) as [[h k] s']. by case_if.
Qed.

Lemma flight_eq s s' : flight s' = flight s -> flight_inv s -> flight_inv s'.
Proof. unfold flight_inv. by intros [= -> -> ->]. Qed.

Lemma step_flight s e : flight_inv s -> flight_inv (step s e).
Proof.
  intros Hinv. unfold step. destruct (enabled s e) eqn:En; [|done]. destruct e; simpl in *.
  - by apply (flight_eq s), Hinv; apply record_flight.
  - destruct (recover_triggers now o s) as [ks ->]. apply triggers_flight.
    by apply (flight_eq s), Hinv; apply record_flight.
  - unfold Tick. destruct (closed s); [done|]. case_if; [|done].
    unfold triggerNetworkRecovery. by do 4 apply trigger_flight.
  - by apply (flight_eq s), Hinv; apply Order_flight.
  - by apply trigger_flight.
  - destruct Hinv as (Hd & Hl & Ho). repeat split; simpl.
    + by apply NoDup_ListNoDup, List.NoDup_filter, NoDup_ListNoDup.
    + etransitivity; [apply bfilter_length_le|done].
    + by apply Forall_bfilter_sub.
  - destruct Hinv as (Hd & Hl & Ho). apply Nat.ltb_lt in En. repeat split; simpl; [done|lia|done].
  - done.
  - unfold Close. by case_if.
Qed.

(** *** Shutdown *)

Lemma closed_no_new s e :
  closed s = true ->
  closed (step s e) = true /\ inflight (step s e) ⊆ inflight s /\ (wg (step s e) <= wg s)%nat.
Proof.
  intros Hc. unfold step. destruct (enabled s e); [|done]. destruct e; simpl.
  - unfold Record_, record. by rewrite Hc.
  - assert (forall k, trigger k s = s) as Ht.
    { intros k. unfold trigger, Trigger. rewrite Hc. by case_if. }
    unfold Recover, record. rewrite Hc. by destruct (oKind o); rewrite ?Ht.
  - unfold Tick. by rewrite Hc.
  - pose proof (Order_flight now l s) as H. unfold flight in H. injection H as -> -> _.
    split; [|done]. clear -Hc. unfold Order. case_if; [done|].
    assert (forall l s, closed (classify now l s).2 = closed s) as H.
    { clear. induction l as [|c l IH]; intros s; [done|]. simpl.
      destruct (cDirect c); [apply IH|].
      assert (closed (candidateCooledLocked now (cKey c) s).2 = closed s) as H1.
      { unfold candidateCooledLocked. destruct (health s !! cKey c); [|done]. by repeat case_if. }
      destruct (candidateCooledLocked now (cKey c) s) as [b s1]. specialize (IH s1).
      destruct (classify now l s1) as [[h k] s2]. simpl in *. destruct b; simpl; congruence. }
    specialize (H l s). destruct (classify now l s) as [[h k] s']. simpl in H.
    case_if; simpl; congruence.
  - unfold trigger, Trigger. rewrite Hc. by case_if.
  - split_and!; [done| |lia]. intros k' Hk. by apply elem_of_bfilter in Hk as [_ ?].
  - split_and!; [done|done|lia].
  - done.
  - unfold Close. by rewrite Hc.
Qed.

(** The events by which the goroutines in flight finish. *)
Definition drain (s : t) : list Event :=
  (EvActionDelete <$> inflight s) ++ replicate (wg s) EvActionDone.

Lemma drain_deletes l s :
  inflight s = l -> NoDup l -> closed s = true ->
  let s' := run step s (EvActionDelete <$> l) in
  inflight s' = [] /\ wg s' = wg s /\ closed s' = true.
Proof.
  revert s. induction l as [|k l IH]; intros s Hl Hd Hc; [done|].
  apply NoDup_cons in Hd as [Hk Hd]. cbv zeta.
  change (run step s (EvActionDelete <$> k :: l))
    with (run step (step s (EvActionDelete k)) (EvActionDelete <$> l)).
  assert (inflight (step s (EvActionDelete k)) = l) as Hl'.
  { unfold step. simpl. rewrite bool_decide_eq_true_2 by (rewrite Hl; left). simpl.
    rewrite Hl. simpl. rewrite bool_decide_eq_true_2 by done. simpl.
    clear -Hk. induction l as [|a l IH]; [done|]. apply not_elem_of_cons in Hk as [Ha Hk].
    simpl. rewrite bool_decide_eq_false_2 by congruence. simpl. by rewrite IH. }
  assert (wg (step s (EvActionDelete k)) = wg s) as Hw by (unfold step; by case_if).
  assert (closed (step s (EvActionDelete k)) = true) as Hc' by (unfold step; by case_if).
  destruct (IH _ Hl' Hd Hc') as (-> & -> & ->). done.
Qed.

Lemma drain_dones n s :
  inflight s = [] -> wg s = n -> closed s = true ->
  closeReturns (run step s (replicate n EvActionDone)) = true.
Proof.
  revert s. induction n as [|n IH]; intros s Hl Hw Hc.
  - unfold closeReturns. simpl. by rewrite Hc, Hw.
  - assert (step s EvActionDone = runActionDone s) as Hs
      by (unfold step; simpl; by rewrite Hl, Hw).
    change (run step s (replicate (S n) EvActionDone))
      with (run step (step s EvActionDone) (replicate n EvActionDone)).
    rewrite Hs. apply IH; simpl; by rewrite ?Hw.
Qed.

(** ** Properties *)

(** C1: [Order] permutes the authoritative list and nothing else: every DIRECT
    slot keeps its member, and the non-DIRECT members are exactly the healthy
    ones in their order followed by the cooling ones in theirs. *)
Theorem Order_preserves_policy now l s :
  let out := (Order now l s).1 in
  out ≡ₚ l /\
  (forall i c, l !! i = Some c -> cDirect c = true -> out !! i = Some c) /\
  bfilter explicit out =
    bfilter (fun c => explicit c && negb (cooling now s (cKey c))) l ++
    bfilter (fun c => explicit c && cooling now s (cKey c)) l.
Proof.
  destruct (members_explicit now s l) as [Hp Hf]. split_and!.
  - apply ordering_permutes.
  - apply ordering_direct.
  - rewrite Order_refill. apply refill_explicit; [by rewrite Hp|done].
Qed.

(** over every history the health table stays within 256 entries, each entry's
    level is its failure count less one, capped at five, an entry cools exactly
    from its second failure on, and a cooling period lasts between 2 s and 30 s. *)
Theorem health_table_bounded o evs :
  Forall event_time_ok evs ->
  let s := run step (New o) evs in
  (size (health s) <= maxHealthEntries)%nat /\
  map_Forall (fun _ st =>
    1 <= failures st /\ backoffLevel st = Z.min (failures st - 1) maxBackoffLevel /\
    (isZero (coolingUntil st) = true <-> failures st = 1) /\
    (2 <= failures st ->
     baseCooldown <= cooldownForLevel (backoffLevel st) <= maxCooldown)) (health s).
Proof.
  intros Ht. assert (health_inv (run step (New o) evs)) as [Hs Hf].
  { assert (health_inv (New o)) as H0
      by (split; [simpl; rewrite map_size_empty; lia|apply map_Forall_empty]).
    revert H0. generalize (New o). induction Ht as [|e evs He Ht IH]; intros s H0; [done|].
    by apply IH, step_health_inv. }
  split; [done|]. intros k st Hk. destruct (Hf k st Hk) as (H1 & H2 & H3).
  split_and!; [done..|]. intros. apply cooldown_bounds. unfold maxBackoffLevel in H2. lia.
Qed.

(** a restart is only requested after a burst: if the fatal flag is up after a
    history, that history has at least three internal failures within 30 seconds
    of the first of them. *)
Theorem fatal_requires_burst o evs :
  fatalRequested (run step (New o) evs) = true ->
  exists ts, ts `sublist_of` omap internal_time evs /\
    burst id internalFatalThreshold internalFailureWindow ts.
Proof.
  apply (run_history internal_inv); [|apply internal_step].
  split; [|done]. exists []. split_and!; [done|done| |done].
  split; [constructor|]. by intros a l'.
Qed.

(** a passively observed failure starts a network epoch only after a burst of
    at least eight penalised outcomes, within three seconds of the first and from
    two or more distinct proxies, and never within 30 seconds of an earlier epoch. *)
Theorem epoch_requires_correlated_burst o evs e :
  let s := run step (New o) evs in
  reported e <> None -> networkEpoch (step s e) <> networkEpoch s ->
  exists now key ps, penalty e = Some (now, key) /\
    (lastNetworkEpoch s = zeroTime \/ networkEpochCooldown <= now - lastNetworkEpoch s) /\
    ps `sublist_of` omap penalty (evs ++ [e]) /\
    burst fst correlatedFailureThreshold correlatedFailureWindow ps /\
    (2 <= size (list_to_set ps.*2 : gset ProxyKey))%nat.
Proof.
  intros s Hr Hne. assert (corr_inv evs s) as Hinv
    by (apply (run_history corr_inv); [by apply corr_inv_nil|apply corr_step]).
  destruct (step_epoch s e) as [E|[(now & key & He & E)|[? _]]]; [by injection E|..|done].
  destruct (observe_cases now key s) as [E'|[Hc [E'|(Hcount & Hsize & E')]]];
    rewrite E' in E; [by injection E|by injection E|].
  destruct (corr_window evs s now key Hinv) as (ps & Hsub & _ & Hlen & Hw & Hset).
  exists now, key, ps. rewrite omap_app. simpl. rewrite He. split_and!; [done..| |].
  - eapply window_burst; [|done]. lia.
  - by rewrite <- Hset.
Qed.

(** owner actions are single-flight: over every history no action is in flight
    twice, only actions with a callback are, and the wait group counts at least
    the actions in flight, so [Close] waits for each of them. *)
Theorem actions_single_flight o evs :
  let s := run step (New o) evs in
  NoDup (inflight s) /\ (length (inflight s) <= wg s)%nat /\
  Forall (fun k => ownerAction (owners s) k = true) (inflight s).
Proof.
  apply (run_invariant step flight_inv); [|intros; by apply step_flight].
  repeat split; simpl; [constructor|lia|constructor].
Qed.

(** after [Close] no event starts an action or reopens the supervisor, and the
    goroutines in flight finishing is enough for [Close] to return. *)
Theorem close_drains o evs :
  let s := step (run step (New o) evs) EvClose in
  (forall e, closed (step s e) = true /\ inflight (step s e) ⊆ inflight s /\
             (wg (step s e) <= wg s)%nat) /\
  closeReturns (run step s (drain s)) = true.
Proof.
  intros s. assert (closed s = true) as Hc.
  { subst s. generalize (run step (New o) evs). intros s. unfold step, Close. simpl.
    by destruct (closed s) eqn:E. }
  split; [intros e; by apply closed_no_new|].
  assert (flight_inv s) as (Hd & _).
  { apply step_flight, (run_invariant step flight_inv); [|intros; by apply step_flight].
    repeat split; simpl; [constructor|lia|constructor]. }
  unfold drain. rewrite run_app.
  destruct (drain_deletes (inflight s) s eq_refl Hd Hc) as (Hi & <- & Hc').
  by apply drain_dones.
Qed.

(** ** Witnesses *)

Definition wit_owners := mkOwners true true true true.
Definition wit_fail (p : string) (ms : Z) : Event :=
  EvRecover (ms * Millisecond) (mkOutcome OutcomeProxyDialFailure p 0).
Definition wit_internal (ms : Z) : Event :=
  EvRecord (ms * Millisecond) (mkOutcome OutcomeInternalFailure "" 0).

Lemma health_table_bounded_witness :
  let s := run step (New wit_owners) [wit_fail "a" 10; wit_fail "a" 20; wit_fail "b" 30] in
  health s !! "a" = Some (mkHealth 2 1 (20 * Millisecond + 2 * Second) 2) /\
  (size (health s) <= maxHealthEntries)%nat.
Proof.
  split; [reflexivity|]. refine (proj1 (health_table_bounded wit_owners _ _)).
  repeat constructor.
Defined.

Lemma fatal_requires_burst_witness :
  exists ts, ts `sublist_of` [1000000; 2000000; 3000000] /\
    burst id internalFatalThreshold internalFailureWindow ts.
Proof.
  exact (fatal_requires_burst wit_owners [wit_internal 1; wit_internal 2; wit_internal 3] eq_refl).
Defined.

Lemma epoch_requires_correlated_burst_witness :
  exists now key ps,
    penalty (wit_fail "b" 8) = Some (now, key) /\
    (zeroTime = zeroTime \/ networkEpochCooldown <= now - zeroTime) /\
    ps `sublist_of` omap penalty ((wit_fail "a" <$> [1; 2; 3; 4; 5; 6; 7]) ++ [wit_fail "b" 8]) /\
    burst fst correlatedFailureThreshold correlatedFailureWindow ps /\
    (2 <= size (list_to_set ps.*2 : gset ProxyKey))%nat.
Proof.
  refine (epoch_requires_correlated_burst wit_owners (wit_fail "a" <$> [1; 2; 3; 4; 5; 6; 7])
    (wit_fail "b" 8) _ _); vm_compute; discriminate.
Defined.

End Sup.
