(* ===== verification/Guardian.v ===== *)
(** * Guardian: [internal/guardian]

    The parent process that keeps a worker running: the line protocol between
    them, the parent's watchdog, the state machine that watches one worker
    generation ([monitorReadyWorker]), the restart loop ([RunParent]) and the
    worker's own control loop ([RunWorker]).  A [select] loop is a step function
    on the events its cases receive; every theorem quantifies over the event
    sequences, so over every choice [select] can make. *)

From S2P Require Export Prelude GoStrings NetAddr.

Module Grd.

(** ** Errors *)

(** The error values the package distinguishes; [ExitErr] is an
    [exec.ExitError], [ErrJoin] the result of [errors.Join]. *)
Inductive GoErr :=
| ErrProtocol
| ErrAuthentication
| DeadlineExceeded
| ExitErr (code : Z)
| ErrText (msg : string)
| ErrJoin (es : list GoErr).

(** A Go [error]; [None] is [nil]. *)
Definition error := option GoErr.

Definition errors_Join (a b : error) : error :=
  match a, b with
  | None, None => None
  | Some x, None => Some (ErrJoin [x])
  | None, Some y => Some (ErrJoin [y])
  | Some x, Some y => Some (ErrJoin [x; y])
  end.

(** [errors.Is] against a sentinel, and [errors.As] to an exit error: both search
    joined errors in order. *)
Fixpoint err_is (p : GoErr -> bool) (e : GoErr) : bool :=
  p e || match e with
         | ErrJoin es => (fix any es := match es with
                                        | [] => false
                                        | e :: es' => err_is p e || any es'
                                        end) es
         | _ => false
         end.
Fixpoint err_as_exit (e : GoErr) : option Z :=
  match e with
  | ExitErr code => Some code
  | ErrJoin es => (fix first es := match es with
                                   | [] => None
                                   | e :: es' => match err_as_exit e with
                                                 | Some c => Some c
                                                 | None => first es'
                                                 end
                                   end) es
  | _ => None
  end.
Definition is_deadline (e : GoErr) : bool := match e with DeadlineExceeded => true | _ => false end.
Definition is_protocol (e : GoErr) : bool := match e with ErrProtocol => true | _ => false end.

(** ** state.go *)

Inductive ExitDisposition := ExitStartupFailure | ExitRestart | ExitNormalStop.
#[global] Instance ExitDisposition_eq_dec : EqDecision ExitDisposition.
Proof. solve_decision. Defined.

Definition ClassifyExit (ready stopping internalRecycle : bool) : ExitDisposition :=
  if negb ready then ExitStartupFailure
  else if stopping then ExitNormalStop
  else if internalRecycle then ExitRestart
  else ExitRestart.

(** ** watchdog.go *)

Record Watchdog := mkWatchdog {
  hangWindow : Duration; wready : bool; lastProgress : Time; lastObserver : Time;
  lastSequence : Z }.

Definition NewWatchdog (w : Duration) : Watchdog :=
  mkWatchdog (if w <=? 0 then 20 * Second else w) false zeroTime zeroTime 0.

Definition wdReady (now : Time) (w : Watchdog) : Watchdog :=
  mkWatchdog (hangWindow w) true now now 0.

Definition Beat (sequence : Z) (now : Time) (w : Watchdog) : Watchdog :=
  if negb (wready w) || (sequence <=? lastSequence w) then w
  else mkWatchdog (hangWindow w) (wready w) now (lastObserver w) sequence.

Definition Check_ (now : Time) (w : Watchdog) : bool * Watchdog :=
  if negb (wready w)
  then (false, mkWatchdog (hangWindow w) (wready w) (lastProgress w) now (lastSequence w))
  else if negb (isZero (lastObserver w)) && (hangWindow w <? subT now (lastObserver w))
  then (false, mkWatchdog (hangWindow w) (wready w) now now (lastSequence w))
  else (hangWindow w <? subT now (lastProgress w),
        mkWatchdog (hangWindow w) (wready w) (lastProgress w) now (lastSequence w)).

(** ** backoff.go *)

Definition restartBackoffSchedule : list Duration :=
  [Second; 5 * Second; 30 * Second; 2 * Minute; 5 * Minute].
Definition stableRunReset : Duration := 5 * Minute.

(** Indexing a Go slice; the callers keep the index in range. *)
Definition at_ (l : list Duration) (i : Z) : Duration := default 0 (l !! Z.to_nat i).

Definition Next (level : Z) : Duration * Z :=
  let level := if level <? 0 then 0 else level in
  let idx := if zlen restartBackoffSchedule <=? level
             then zlen restartBackoffSchedule - 1 else level in
  (at_ restartBackoffSchedule idx,
   if level <? zlen restartBackoffSchedule - 1 then level + 1 else level).

Definition NextDelay (level : Z) : Duration :=
  let idx := if level <? 0 then 0 else level in
  let idx := if zlen restartBackoffSchedule <=? idx
             then zlen restartBackoffSchedule - 1 else idx in
  at_ restartBackoffSchedule idx.

Definition Level (level : Z) : Z := if level <? 0 then 0 else level.

Definition ObserveReadyDuration (duration : Duration) (level : Z) : bool * Z :=
  if duration <? stableRunReset then (false, level) else (true, 0).

(** ** protocol.go *)

Definition maxMessageBytes : Z := 1024.
Definition nl : ascii := "010".
Definition cr : ascii := "013".
Definition crlf : string := String cr (String nl "").

Definition MessageReady : string := "READY".
Definition MessageBeat : string := "BEAT".
Definition MessageStop : string := "STOP".

Record Message := mkMessage { mType : string; mSequence : Z }.
#[global] Instance Message_eq_dec : EqDecision Message.
Proof. solve_decision. Defined.

(** The bytes [writeLine] puts on the connection. *)
Definition writeLine (line : string) : result GoErr string :=
  if maxMessageBytes <? slen line + 1 then Err ErrProtocol
  else Ok (line +:+ String nl "").

Definition Send (msg : Message) : result GoErr string :=
  if String.eqb (mType msg) MessageReady then writeLine MessageReady
  else if String.eqb (mType msg) MessageBeat
       then writeLine (MessageBeat +:+ " " +:+ FormatUint (mSequence msg))
  else if String.eqb (mType msg) MessageStop then writeLine MessageStop
  else Err ErrProtocol.

Definition io_EOF : GoErr := ErrText "EOF".

(** [readLine] on a connection that will deliver [stream] and then end: a line of
    at most 1024 bytes with its newline, or the error [ReadSlice] gives on a full
    buffer or at the end of the stream. *)
Definition readLine (stream : string) : result GoErr (string * string) :=
  match Cut stream nl with
  | Some (a, b) =>
      if maxMessageBytes <? slen a + 1 then Err ErrProtocol
      else Ok (TrimRight a crlf, b)
  | None => if maxMessageBytes <=? slen stream then Err ErrProtocol else Err io_EOF
  end.

Definition parseMessage (line : string) : result GoErr Message :=
  match Fields line with
  | [] => Err ErrProtocol
  | ty :: args =>
      if String.eqb ty MessageReady then
        match args with [] => Ok (mkMessage MessageReady 0) | _ => Err ErrProtocol end
      else if String.eqb ty MessageStop then
        match args with [] => Ok (mkMessage MessageStop 0) | _ => Err ErrProtocol end
      else if String.eqb ty MessageBeat then
        match args with
        | [n] => match ParseUint n with
                 | Ok v => Ok (mkMessage MessageBeat v)
                 | Err _ => Err ErrProtocol
                 end
        | _ => Err ErrProtocol
        end
      else Err ErrProtocol
  end.

Definition Read_ (stream : string) : result GoErr (Message * string) :=
  '(line, rest) ← readLine stream;
  msg ← parseMessage line;
  Ok (msg, rest).

Definition validateHello (line expectedToken : string) : error :=
  match Fields line with
  | [a; b] =>
      if negb (String.eqb a "HELLO") || String.eqb expectedToken "" ||
         negb (String.eqb b expectedToken)
      then Some ErrAuthentication else None
  | _ => Some ErrAuthentication
  end.

(** The line [Connect] writes. *)
Definition helloLine (token : string) : result GoErr string := writeLine ("HELLO " +:+ token).

(** [Accept] over the connections the listener yields: the first whose first line
    authenticates is the session, the others are closed. *)
Fixpoint Accept (token : string) (conns : list string) : option string :=
  match conns with
  | [] => None
  | stream :: conns' =>
      match readLine stream with
      | Ok (line, rest) =>
          match validateHello line token with
          | None => Some rest
          | Some _ => Accept token conns'
          end
      | Err _ => Accept token conns'
      end
  end.

(** [readParentControl] and [readWorkerControl]: the messages delivered to the
    channel, and the error that ends the loop.  Every line read consumes a byte,
    so the length of the stream is fuel enough. *)
Fixpoint readControl (fuel : nat) (stream : string) : list Message * error :=
  match fuel with
  | O => ([], None)
  | S fuel' =>
      match Read_ stream with
      | Err e => ([], Some e)
      | Ok (m, rest) => let '(ms, e) := readControl fuel' rest in (m :: ms, e)
      end
  end.

(** ** worker.go *)

Inductive WorkerExit := WorkerExitNormal | WorkerExitStartupFailure | WorkerExitRestart.
Definition exitStatus (e : WorkerExit) : Z :=
  match e with WorkerExitNormal => 0 | WorkerExitStartupFailure => 5 | WorkerExitRestart => 75 end.

Record WorkerResult := mkWorkerResult { wExit : WorkerExit; wErr : error }.

(** Which hooks are non-nil. *)
Record WorkerHooks := mkHooks {
  hStart : bool; hReady : bool; hProgress : bool; hFatalRequested : bool;
  hShutdown : bool; hSnapshot : bool }.

Record WorkerOptions := mkWorkerOptions {
  HeartbeatInterval : Duration; ReadyPollInterval : Duration; wStopTimeout : Duration }.

Definition normalizeWorkerOptions (o : WorkerOptions) : WorkerOptions :=
  mkWorkerOptions
    (if HeartbeatInterval o <=? 0 then 2 * Second else HeartbeatInterval o)
    (if ReadyPollInterval o <=? 0 then 25 * Millisecond else ReadyPollInterval o)
    (if wStopTimeout o <=? 0 then 5 * Second else wStopTimeout o).

(** What the hooks do while [stopWorker] runs: the error of [Shutdown], and what
    [Start] returns before the timer, if it returns. *)
Record WStop := mkWStop { shutdownErr : error; startReturned : option error }.

Definition stopWorker (env : WStop) (exit : WorkerExit) (resultErr : error) : WorkerResult :=
  let resultErr := match resultErr with None => shutdownErr env | Some _ => resultErr end in
  let resultErr := match startReturned env with
                   | Some err => match resultErr with None => err | Some _ => resultErr end
                   | None => match resultErr with
                             | None => Some DeadlineExceeded
                             | Some _ => resultErr
                             end
                   end in
  mkWorkerResult exit resultErr.

(** What one case of the [select] of [RunWorker] receives, with what the hooks
    and the session answer in it. *)
Inductive WEvent :=
| WStartResult (err : error)
| WReadyTick (ready : bool) (sendErr : error)
| WHeartbeatTick (fatal : bool) (progress : Z) (sendErr : error)
| WMessage (msg : Message)
| WControlErr (err : error) (ctxErr : bool)
| WCtxDone.

(** The loop state: [readySent], and the messages the session accepted. *)
Record WState := mkWState { readySent : bool; sent : list Message }.

Definition workerStep (hooks : WorkerHooks) (env : WStop) (st : WState) (e : WEvent)
  : WState * option WorkerResult :=
  let stay := (st, None) in
  let stop exit err := (st, Some (stopWorker env exit err)) in
  match e with
  | WStartResult err =>
      if negb (readySent st) then
        (st, Some (mkWorkerResult WorkerExitStartupFailure
           (match err with
            | None => Some (ErrText "worker server exited before READY")
            | Some _ => err
            end)))
      else match err with
           | Some _ => (st, Some (mkWorkerResult WorkerExitRestart err))
           | None => (mkWState (readySent st) (sent st ++ [mkMessage MessageStop 0]),
                      Some (mkWorkerResult WorkerExitNormal None))
           end
  | WReadyTick ready sendErr =>
      if readySent st || negb ready then stay
      else match sendErr with
           | Some _ => stop WorkerExitNormal None
           | None => (mkWState true (sent st ++ [mkMessage MessageReady 0]), None)
           end
  | WHeartbeatTick fatal progress sendErr =>
      if negb (readySent st) then stay
      else if hFatalRequested hooks && fatal then stop WorkerExitRestart None
      else
        let sequence := if hProgress hooks then progress else 0 in
        match sendErr with
        | Some _ => stop WorkerExitNormal None
        | None => (mkWState (readySent st) (sent st ++ [mkMessage MessageBeat sequence]), None)
        end
  | WMessage msg =>
      if negb (String.eqb (mType msg) MessageStop) then stop WorkerExitNormal (Some ErrProtocol)
      else stop WorkerExitNormal None
  | WControlErr err ctxErr => stop WorkerExitNormal (if ctxErr then None else err)
  | WCtxDone => stop WorkerExitNormal None
  end.

Fixpoint workerLoop (hooks : WorkerHooks) (st : WState) (evs : list (WEvent * WStop))
  : WState * option WorkerResult :=
  match evs with
  | [] => (st, None)
  | (e, env) :: evs' =>
      match workerStep hooks env st e with
      | (st', Some r) => (st', Some r)
      | (st', None) => workerLoop hooks st' evs'
      end
  end.

(** [RunWorker]: the messages it sent, and its result once it returned. *)
Definition RunWorker (session : bool) (hooks : WorkerHooks) (evs : list (WEvent * WStop))
  : list Message * option WorkerResult :=
  if negb session || negb (hStart hooks) || negb (hReady hooks) || negb (hShutdown hooks)
  then ([], Some (mkWorkerResult WorkerExitStartupFailure
                    (Some (ErrText "guardian worker hooks incomplete"))))
  else let '(st, r) := workerLoop hooks (mkWState false []) evs in (sent st, r).

(** ** parent.go *)

Definition controlAddrEnv : string := "PXGOINT_GUARDIAN_ADDR".
Definition controlTokenEnv : string := "PXGOINT_GUARDIAN_TOKEN".

Record WorkerControl := mkControl { cAddr : string; cToken : string }.

(** [os.Getenv] over a list of [key=value] entries. *)
Definition env_key (entry : string) : option string := fst <$> Cut entry "=".
Definition Getenv (env : list string) (key : string) : string :=
  match List.find (fun e => bool_decide (env_key e = Some key)) env with
  | Some e => match Cut e "=" with Some (_, v) => v | None => "" end
  | None => ""
  end.

Definition WorkerControlFromEnv (env : list string) : result GoErr (option WorkerControl) :=
  let addr := TrimSpace (Getenv env controlAddrEnv) in
  let token := TrimSpace (Getenv env controlTokenEnv) in
  if String.eqb addr "" && String.eqb token "" then Ok None
  else if String.eqb addr "" || String.eqb token "" then
    Err (ErrText "guardian control environment incomplete")
  else match SplitHostPort addr with
  | None => Err (ErrText "guardian control address invalid")
  | Some (host, _) =>
      match ParseIP (Trim host "[]") with
      | None => Err (ErrText "guardian control address must be loopback")
      | Some ip =>
          if negb (IsLoopback ip) then Err (ErrText "guardian control address must be loopback")
          else if negb (slen token =? 64) then Err (ErrText "guardian control token invalid")
          else if negb (str_forall is_hex token) then Err (ErrText "guardian control token invalid")
          else Ok (Some (mkControl addr token))
      end
  end.

(** [base] is the environment to start from ([os.Environ()] when nil). *)
Definition withWorkerControlEnv (base : list string) (control : WorkerControl) : list string :=
  bfilter (fun entry =>
    match Cut entry "=" with
    | Some (key, _) => negb (String.eqb key controlAddrEnv || String.eqb key controlTokenEnv)
    | None => true
    end) base
  ++ [controlAddrEnv +:+ "=" +:+ cAddr control; controlTokenEnv +:+ "=" +:+ cToken control].

Record ParentOptions := mkParentOptions {
  HangWindow : Duration; WatchInterval : Duration; StopTimeout : Duration;
  RestartSchedule : list Duration; StableRunReset : Duration }.

Definition normalizeParentOptions (o : ParentOptions) : ParentOptions :=
  mkParentOptions
    (if HangWindow o <=? 0 then 20 * Second else HangWindow o)
    (if WatchInterval o <=? 0 then 2 * Second else WatchInterval o)
    (if StopTimeout o <=? 0 then 5 * Second else StopTimeout o)
    (map (fun delay => if delay <=? 0 then Second else delay)
       (match RestartSchedule o with [] => restartBackoffSchedule | s => s end))
    (if StableRunReset o <=? 0 then stableRunReset else StableRunReset o).

Definition parentRestartDelay (schedule : list Duration) (level : Z) : Duration :=
  if (length schedule =? 0)%nat then Second else
  let level := if level <? 0 then 0 else level in
  let level := if zlen schedule <=? level then zlen schedule - 1 else level in
  let delay := at_ schedule level in
  if delay <=? 0 then Second else delay.

Definition exitCode (err : error) : Z :=
  match err with
  | None => 0
  | Some e => match err_as_exit e with Some c => c | None => -1 end
  end.

Definition normalizeParentStopError (err : error) : error :=
  match err with
  | None => None
  | Some e => if err_is is_deadline e then err
              else match err_as_exit e with Some _ => None | None => err end
  end.

Record generationResult := mkGen {
  disposition : ExitDisposition; gErr : error; readyFor : Duration; startupCode : Z }.

(** How the child answers [stopChild]: what [cmd.Wait] returns before the first
    timer fires, and after the kill before the second one does. *)
Record StopEnv := mkStopEnv { firstWait : option error; reapWait : option error }.

Inductive StopAction := ActSendStop | ActKill.

Definition stopChild (session : bool) (env : StopEnv) : error * list StopAction :=
  let send := if session then [ActSendStop] else [] in
  match firstWait env with
  | Some err => (err, send)
  | None => (match reapWait env with Some err => err | None => Some DeadlineExceeded end,
             send ++ [ActKill])
  end.

Inductive MEvent :=
| MCtxDone
| MWait (waitErr : error)
| MMessage (msg : Message) (now : Time)
| MReadErr (err : error)
| MTick (now : Time).

(** The loop state, with the number of calls to [OnReady]. *)
Record MState := mkMState {
  ready : bool; readyAt : Time; watchdog : Watchdog; onReady : nat }.

Definition readyDuration (readyAt now : Time) : Duration :=
  if isZero readyAt then 0 else subT now readyAt.

(** One event of [monitorReadyWorker]; [env] and [fin] are the child's answer to
    a stop and the clock once it is over. *)
Definition monitorStep (env : StopEnv) (fin : Time) (st : MState) (e : MEvent)
  : MState * option (generationResult * list StopAction) :=
  let rf := readyDuration (readyAt st) fin in
  let '(stopErr, acts) := stopChild true env in
  match e with
  | MCtxDone =>
      (st, Some (mkGen ExitNormalStop (normalizeParentStopError stopErr) rf 0, acts))
  | MWait waitErr =>
      if negb (ready st)
      then (st, Some (mkGen ExitStartupFailure waitErr 0 (exitCode waitErr), []))
      else match waitErr with
           | None => (st, Some (mkGen ExitNormalStop None rf 0, []))
           | Some _ => (st, Some (mkGen ExitRestart waitErr rf 0, []))
           end
  | MMessage msg now =>
      if String.eqb (mType msg) MessageReady then
        if ready st
        then (st, Some (mkGen ExitRestart (errors_Join (Some ErrProtocol) stopErr) rf 0, acts))
        else (mkMState true now (wdReady now (watchdog st)) (S (onReady st)), None)
      else if String.eqb (mType msg) MessageBeat then
        if negb (ready st)
        then (st, Some (mkGen ExitStartupFailure (errors_Join (Some ErrProtocol) stopErr) 0
                          (exitCode stopErr), acts))
        else (mkMState (ready st) (readyAt st) (Beat (mSequence msg) now (watchdog st))
                (onReady st), None)
      else if String.eqb (mType msg) MessageStop then
        let '(stopErr, acts) := stopChild false env in
        if negb (ready st)
        then (st, Some (mkGen ExitStartupFailure (errors_Join (Some ErrProtocol) stopErr) 0
                          (exitCode stopErr), acts))
        else (st, Some (mkGen ExitNormalStop (normalizeParentStopError stopErr) rf 0, acts))
      else
        (st, Some (mkGen (if ready st then ExitRestart else ExitStartupFailure)
                     (errors_Join (Some ErrProtocol) stopErr) rf (exitCode stopErr), acts))
  | MReadErr err =>
      if negb (ready st)
      then (st, Some (mkGen ExitStartupFailure (errors_Join err stopErr) 0 (exitCode stopErr), acts))
      else match stopErr with
           | None => (st, Some (mkGen ExitNormalStop None rf 0, acts))
           | Some _ => (st, Some (mkGen ExitRestart (errors_Join err stopErr) rf 0, acts))
           end
  | MTick now =>
      if negb (ready st) then (st, None)
      else let '(hang, wd) := Check_ now (watchdog st) in
           let st' := mkMState (ready st) (readyAt st) wd (onReady st) in
           if negb hang then (st', None)
           else (st', Some (mkGen ExitRestart stopErr rf 0, acts))
  end.

Record MInput := mkMInput { mEvent : MEvent; mEnv : StopEnv; mFin : Time }.

Fixpoint monitorLoop (st : MState) (ins : list MInput)
  : MState * option (generationResult * list StopAction) :=
  match ins with
  | [] => (st, None)
  | i :: ins' =>
      match monitorStep (mEnv i) (mFin i) st (mEvent i) with
      | (st', Some r) => (st', Some r)
      | (st', None) => monitorLoop st' ins'
      end
  end.

Definition monitorReadyWorker (options : ParentOptions) (ins : list MInput)
  : MState * option (generationResult * list StopAction) :=
  monitorLoop (mkMState false zeroTime (NewWatchdog (HangWindow options)) 0) ins.

(** How a generation starts, up to the session being accepted. *)
Inductive Startup :=
| SListenErr (err : GoErr)
| SStartErr (err : GoErr)
| SCtxDone (env : StopEnv)
| SWait (waitErr : error)
| SAcceptErr (err : GoErr) (ctxErr : bool) (env : StopEnv)
| SAccepted (ins : list MInput).

(** [None] while the accepted worker is still being watched. *)
Definition runGeneration (options : ParentOptions) (s : Startup) : option generationResult :=
  match s with
  | SListenErr e | SStartErr e => Some (mkGen ExitStartupFailure (Some e) 0 0)
  | SCtxDone env =>
      Some (mkGen ExitNormalStop (normalizeParentStopError (stopChild false env).1) 0 0)
  | SWait waitErr => Some (mkGen ExitStartupFailure waitErr 0 (exitCode waitErr))
  | SAcceptErr e ctxErr env =>
      let stopErr := (stopChild false env).1 in
      if ctxErr then Some (mkGen ExitNormalStop (normalizeParentStopError stopErr) 0 0)
      else Some (mkGen ExitStartupFailure (errors_Join (Some e) stopErr) 0 (exitCode stopErr))
  | SAccepted ins => fst <$> (monitorReadyWorker options ins).2
  end.

(** What [RunParent] returns. *)
Inductive ParentExit := PReturn (err : error) | PStartup (code : Z) (err : error).

(** The restart loop over the generations that occur; the flag says whether the
    context ends during the delay that follows.  The delays waited are returned
    with the exit, which is [None] while a generation or a delay is under way. *)
Fixpoint parentLoop (options : ParentOptions) (restartLevel : Z) (gens : list (Startup * bool))
  : list Duration * option ParentExit :=
  match gens with
  | [] => ([], None)
  | (s, cancelled) :: gens' =>
      match runGeneration options s with
      | None => ([], None)
      | Some r =>
          match disposition r with
          | ExitNormalStop => ([], Some (PReturn (gErr r)))
          | ExitStartupFailure => ([], Some (PStartup (startupCode r) (gErr r)))
          | ExitRestart =>
              let level := if StableRunReset options <=? readyFor r then 0 else restartLevel in
              let delay := parentRestartDelay (RestartSchedule options) level in
              let level' := if level <? zlen (RestartSchedule options) - 1 then level + 1
                            else level in
              if cancelled then ([delay], Some (PReturn None))
              else let '(ds, r) := parentLoop options level' gens' in (delay :: ds, r)
          end
      end
  end.

Definition RunParent (path : string) (options : ParentOptions) (gens : list (Startup * bool))
  : list Duration * option ParentExit :=
  if String.eqb (TrimSpace path) "" then
    ([], Some (PReturn (Some (ErrText "guardian worker command path is empty"))))
  else parentLoop (normalizeParentOptions options) 0 gens.

(** ** Lemmas: the protocol *)

(** The messages the two ends exchange: only a beat carries a sequence. *)
Definition canonical (m : Message) : Prop :=
  m = mkMessage MessageReady 0 \/ m = mkMessage MessageStop 0 \/
  exists n, m = mkMessage MessageBeat n /\ 0 <= n <= max_uint64.

Definition messageLine (m : Message) : string :=
  if String.eqb (mType m) MessageBeat then MessageBeat +:+ " " +:+ FormatUint (mSequence m)
  else mType m.

Lemma no_space_no_char c s : is_space c = true -> no_space s = true -> no_char c s = true.
Proof.
  intros Hc. apply str_forall_impl. intros d Hd. apply negb_true_iff.
  apply negb_true_iff in Hd. destruct (Ascii.eqb_spec d c) as [->|]; congruence.
Qed.

Lemma FormatUint_no_char c n : is_space c = true -> no_char c (FormatUint n) = true.
Proof. intros. by apply no_space_no_char, FormatUint_no_space. Qed.

Lemma messageLine_ok m :
  canonical m ->
  Send m = Ok (messageLine m +:+ String nl "") /\ slen (messageLine m) + 1 <= maxMessageBytes /\
  no_char nl (messageLine m) = true /\ no_char cr (messageLine m) = true /\
  parseMessage (messageLine m) = Ok m.
Proof.
  intros [->|[->|(n & -> & Hn)]]; [by vm_compute|by vm_compute|].
  pose proof (FormatUint_length n) as Hl.
  assert (slen (messageLine (mkMessage MessageBeat n)) = 5 + slen (FormatUint n)) as Hs by
    (change (messageLine _) with ("BEAT " +:+ FormatUint n); by rewrite slen_app).
  assert (slen (messageLine (mkMessage MessageBeat n)) + 1 <= maxMessageBytes) as Hle
    by (rewrite Hs; unfold maxMessageBytes; lia).
  split_and!; [|exact Hle| | |].
  - unfold Send. cbn [mType String.eqb]. change (MessageBeat +:+ " " +:+ FormatUint (mSequence _))
      with (messageLine (mkMessage MessageBeat n)).
    change (String.eqb MessageBeat MessageReady) with false.
    change (String.eqb MessageBeat MessageBeat) with true. cbv iota.
    unfold writeLine. destruct (Z.ltb_spec maxMessageBytes
      (slen (messageLine (mkMessage MessageBeat n)) + 1)); [lia|done].
  - change (no_char nl ("BEAT " +:+ FormatUint n) = true). unfold no_char.
    rewrite str_forall_app. apply FormatUint_no_char. done.
  - change (no_char cr ("BEAT " +:+ FormatUint n) = true). unfold no_char.
    rewrite str_forall_app. apply FormatUint_no_char. done.
  - unfold parseMessage. change (messageLine _) with (MessageBeat +:+ " " +:+ FormatUint n).
    rewrite Fields_two by auto with go. cbn -[FormatUint ParseUint].
    by rewrite ParseUint_FormatUint.
Qed.

Lemma TrimRight_crlf s : no_char nl s = true -> no_char cr s = true -> TrimRight s crlf = s.
Proof.
  intros Hn Hc. apply trim_right_forall. unfold no_char in *.
  induction s as [|c s IH]; [done|]. cbn [str_forall] in *.
  apply andb_true_iff in Hn as [Hn ?], Hc as [Hc ?]. rewrite IH by done.
  apply negb_true_iff in Hn, Hc. unfold in_chars, crlf.
  cbn [String.list_ascii_of_string existsb]. by rewrite Hn, Hc.
Qed.

Lemma readLine_line a rest :
  slen a + 1 <= maxMessageBytes -> no_char nl a = true -> no_char cr a = true ->
  readLine (a +:+ String nl rest) = Ok (a, rest).
Proof.
  intros Hl Hn Hc. unfold readLine. rewrite Cut_app by done.
  destruct (Z.ltb_spec maxMessageBytes (slen a + 1)); [lia|]. by rewrite TrimRight_crlf.
Qed.

Lemma Read_message m rest :
  canonical m -> Read_ (messageLine m +:+ String nl rest) = Ok (m, rest).
Proof.
  intros Hm. destruct (messageLine_ok m Hm) as (_ & Hl & Hn & Hc & Hp).
  unfold Read_. rewrite readLine_line by done. simpl. by rewrite Hp.
Qed.

Lemma readLine_shorter stream line rest :
  readLine stream = Ok (line, rest) -> (String.length rest < String.length stream)%nat.
Proof.
  unfold readLine. destruct (Cut stream nl) as [[a b]|] eqn:E; [|by case_if].
  case_if; [done|]. intros [= _ <-]. apply Cut_inv in E as [-> _].
  rewrite length_app_str. simpl. lia.
Qed.

(** The bytes of a sequence of messages. *)
Fixpoint sendAll (ms : list Message) : result GoErr string :=
  match ms with
  | [] => Ok ""
  | m :: ms' => a ← Send m; b ← sendAll ms'; Ok (a +:+ b)
  end.

Fixpoint messageBytes (ms : list Message) : string :=
  match ms with
  | [] => ""
  | m :: ms' => messageLine m +:+ String nl (messageBytes ms')
  end.

Lemma sendAll_bytes ms : Forall canonical ms -> sendAll ms = Ok (messageBytes ms).
Proof.
  induction 1 as [|m ms Hm _ IH]; [done|]. simpl.
  destruct (messageLine_ok m Hm) as (-> & _). simpl. rewrite IH. simpl.
  by rewrite <- app_assoc_str.
Qed.

Lemma readControl_bytes ms fuel :
  Forall canonical ms -> (length ms < fuel)%nat ->
  readControl fuel (messageBytes ms) = (ms, Some io_EOF).
Proof.
  intros Hms. revert fuel. induction Hms as [|m ms Hm _ IH]; intros fuel Hf;
    (destruct fuel as [|fuel]; simpl in Hf; [lia|]); [done|].
  simpl messageBytes. cbn [readControl]. rewrite Read_message by done. rewrite IH by lia. done.
Qed.

Lemma messageBytes_length ms : (length ms <= String.length (messageBytes ms))%nat.
Proof.
  induction ms as [|m ms IH]; [done|]. simpl. rewrite length_app_str. simpl. lia.
Qed.

Lemma readControl_ends fuel stream :
  (String.length stream < fuel)%nat -> (readControl fuel stream).2 <> None.
Proof.
  revert stream. induction fuel as [|fuel IH]; intros stream Hf; [lia|]. simpl.
  unfold Read_. destruct (readLine stream) as [[line rest]|e] eqn:E; simpl; [|done].
  apply readLine_shorter in E. destruct (parseMessage line); simpl; [|done].
  specialize (IH rest ltac:(lia)). by destruct (readControl fuel rest).
Qed.

(** ** Lemmas: the control environment *)

Lemma Getenv_app env1 env2 key :
  Forall (fun e => env_key e <> Some key) env1 -> Getenv (env1 ++ env2) key = Getenv env2 key.
Proof.
  induction 1 as [|e env He _ IH]; [done|]. unfold Getenv in *. simpl.
  by rewrite bool_decide_eq_false_2.
Qed.

Lemma Getenv_own base c :
  Getenv (withWorkerControlEnv base c) controlAddrEnv = cAddr c /\
  Getenv (withWorkerControlEnv base c) controlTokenEnv = cToken c.
Proof.
  assert (forall key, key = controlAddrEnv \/ key = controlTokenEnv ->
    Forall (fun e => env_key e <> Some key) (bfilter (fun entry => match Cut entry "=" with
      | Some (key, _) => negb (String.eqb key controlAddrEnv || String.eqb key controlTokenEnv)
      | None => true end) base)) as Hf.
  { intros key Hkey. eapply Forall_impl; [apply Forall_bfilter|]. intros e He.
    unfold env_key. simpl in He. destruct (Cut e "=") as [[k v]|]; simpl; [|done].
    to_prop. destruct Hkey as [->| ->]; congruence. }
  unfold withWorkerControlEnv. split; rewrite Getenv_app by (apply Hf; auto); done.
Qed.

(** ** Lemmas: the watchdog *)

Inductive WdOp := OpBeat (sequence : Z) (now : Time) | OpCheck (now : Time).
Definition opTime (o : WdOp) : Time := match o with OpBeat _ t | OpCheck t => t end.
Definition wdStep (w : Watchdog) (o : WdOp) : Watchdog :=
  match o with OpBeat q t => Beat q t w | OpCheck t => (Check_ t w).2 end.

(** The clock does not go back. *)
Fixpoint monotone (t : Time) (ops : list WdOp) : Prop :=
  match ops with [] => True | o :: ops' => t <= opTime o /\ monotone (opTime o) ops' end.
Definition lastTime (t : Time) (ops : list WdOp) : Time :=
  fold_left (fun _ o => opTime o) ops t.

Lemma wdStep_frame w o :
  hangWindow (wdStep w o) = hangWindow w /\ wready (wdStep w o) = wready w.
Proof. destruct o; simpl; unfold Beat, Check_; by repeat case_if. Qed.

Lemma wdRun_frame ops w :
  hangWindow (run wdStep w ops) = hangWindow w /\ wready (run wdStep w ops) = wready w.
Proof.
  revert w. induction ops as [|o ops IH]; intros w; [done|].
  change (run wdStep w (o :: ops)) with (run wdStep (wdStep w o) ops).
  destruct (IH (wdStep w o)) as [-> ->]. apply wdStep_frame.
Qed.

Lemma wdStep_progress w o t :
  lastProgress w <= t -> t <= opTime o ->
  lastProgress w <= lastProgress (wdStep w o) <= opTime o.
Proof. destruct o; simpl; unfold Beat, Check_; repeat case_if; simpl; lia. Qed.

Lemma wdRun_progress ops w t :
  lastProgress w <= t -> monotone t ops ->
  lastProgress w <= lastProgress (run wdStep w ops) <= lastTime t ops.
Proof.
  revert w t. induction ops as [|o ops IH]; intros w t Hw Hm.
  { unfold run, lastTime. simpl. lia. }
  destruct Hm as [Ho Hm]. destruct (wdStep_progress w o t Hw Ho).
  specialize (IH (wdStep w o) (opTime o) ltac:(done) Hm).
  change (run wdStep w (o :: ops)) with (run wdStep (wdStep w o) ops).
  change (lastTime t (o :: ops)) with (lastTime (opTime o) ops). lia.
Qed.

Lemma monotone_app t a b : monotone t (a ++ b) <-> monotone t a /\ monotone (lastTime t a) b.
Proof.
  revert t. induction a as [|o a IH]; intros t; simpl; [tauto|]. rewrite IH. tauto.
Qed.

Lemma Check_hang now w :
  wready w = true -> min_int64 <= hangWindow w ->
  (Check_ now w).1 = true -> hangWindow w < now - lastProgress w.
Proof.
  intros Hr Hw. unfold Check_. rewrite Hr. simpl. case_if; [done|]. simpl.
  rewrite Z.ltb_lt. unfold subT. lia.
Qed.

(** Operations that show no progress: repeated sequences, and checks no further
    apart than the window. *)
Fixpoint stalled (w : Duration) (sq : Z) (seen : Time) (ops : list WdOp) : Prop :=
  match ops with
  | [] => True
  | OpBeat q _ :: ops' => q <= sq /\ stalled w sq seen ops'
  | OpCheck t :: ops' => 0 <= t - seen <= w /\ stalled w sq t ops'
  end.
Fixpoint lastSeen (seen : Time) (ops : list WdOp) : Time :=
  match ops with
  | [] => seen
  | OpBeat _ _ :: ops' => lastSeen seen ops'
  | OpCheck t :: ops' => lastSeen t ops'
  end.

Lemma stalled_run ops w :
  wready w = true -> 0 < hangWindow w < max_int64 ->
  stalled (hangWindow w) (lastSequence w) (lastObserver w) ops ->
  lastProgress (run wdStep w ops) = lastProgress w /\
  lastObserver (run wdStep w ops) = lastSeen (lastObserver w) ops.
Proof.
  revert w. induction ops as [|o ops IH]; intros w Hr Hw Hs; [done|].
  change (run wdStep w (o :: ops)) with (run wdStep (wdStep w o) ops).
  destruct o as [q t|t]; simpl in Hs; destruct Hs as [Ho Hs].
  - assert (wdStep w (OpBeat q t) = w) as ->.
    { simpl. unfold Beat. apply Z.leb_le in Ho as ->. by rewrite orb_true_r. }
    by apply IH.
  - assert (wdStep w (OpCheck t) =
            mkWatchdog (hangWindow w) (wready w) (lastProgress w) t (lastSequence w)) as ->.
    { simpl. unfold Check_. rewrite Hr. simpl. case_if; [|done]. exfalso. to_prop.
      unfold subT, min_int64, max_int64 in *. lia. }
    by apply (IH (mkWatchdog (hangWindow w) (wready w) (lastProgress w) t (lastSequence w))).
Qed.

(** ** Lemmas: worker and parent *)

Inductive Phase := PInit | PReady | PStopped.
Definition advance (ph : Phase) (m : Message) : option Phase :=
  match ph with
  | PInit => if String.eqb (mType m) MessageReady then Some PReady else None
  | PReady => if String.eqb (mType m) MessageBeat then Some PReady
              else if String.eqb (mType m) MessageStop then Some PStopped else None
  | PStopped => None
  end.
Fixpoint phases (ph : Phase) (ms : list Message) : option Phase :=
  match ms with [] => Some ph | m :: ms' => ph' ← advance ph m; phases ph' ms' end.

Lemma phases_app ph a b : phases ph (a ++ b) = (ph' ← phases ph a; phases ph' b).
Proof.
  revert ph. induction a as [|m a IH]; intros ph; [done|]. simpl.
  destruct (advance ph m); simpl; [apply IH|done].
Qed.

Definition progress_ok (e : WEvent * WStop) : Prop :=
  match e.1 with WHeartbeatTick _ p _ => 0 <= p <= max_uint64 | _ => True end.

(** The worker's messages so far, and the phase they lead to. *)
Definition sent_ok (st : WState) : Prop :=
  phases PInit (sent st) = Some (if readySent st then PReady else PInit) /\
  Forall canonical (sent st).

Lemma workerStep_sent hooks env st e st' r :
  progress_ok (e, env) -> sent_ok st -> workerStep hooks env st e = (st', r) ->
  match r with
  | None => sent_ok st'
  | Some _ => is_Some (phases PInit (sent st')) /\ Forall canonical (sent st')
  end.
Proof.
  intros He [Hp Hc]. unfold sent_ok.
  assert (is_Some (phases PInit (sent st))) as Hs by (rewrite Hp; eauto).
  assert (forall m, canonical m -> Forall canonical (sent st ++ [m])) as Hsnoc
    by (intros; apply Forall_app; by rewrite Forall_singleton).
  destruct e as [err|rd serr|fatal prog serr|msg|err ctx|]; simpl.
  - destruct (readySent st) eqn:R; simpl; [destruct err|]; intros [= <- <-]; simpl; try done.
    split; [rewrite phases_app, Hp; simpl; by eauto|]. apply Hsnoc. unfold canonical. auto.
  - destruct (readySent st) eqn:R; simpl; [by intros [= <- <-]; rewrite R|].
    destruct rd; simpl; [|by intros [= <- <-]; rewrite R].
    destruct serr; intros [= <- <-]; simpl; [done|].
    split; [by rewrite phases_app, Hp|]. apply Hsnoc. unfold canonical. auto.
  - destruct (readySent st) eqn:R; simpl; [|by intros [= <- <-]; rewrite R].
    destruct (hFatalRequested hooks && fatal); [by intros [= <- <-]|].
    destruct serr; intros [= <- <-]; simpl; [done|].
    split; [by rewrite phases_app, Hp|]. apply Hsnoc. right; right.
    exists (if hProgress hooks then prog else 0). split; [done|].
    unfold progress_ok in He. simpl in He. case_if; unfold max_uint64 in *; lia.
  - case_if; by intros [= <- <-].
  - by intros [= <- <-].
  - by intros [= <- <-].
Qed.

Lemma workerLoop_sent hooks evs st st' r :
  Forall progress_ok evs -> sent_ok st -> workerLoop hooks st evs = (st', r) ->
  is_Some (phases PInit (sent st')) /\ Forall canonical (sent st').
Proof.
  intros Hevs. revert st. induction Hevs as [|[e env] evs He _ IH]; intros st Hst; simpl.
  - intros [= <- _]. destruct Hst as [-> ?]. eauto.
  - destruct (workerStep hooks env st e) as [st1 [r1|]] eqn:E.
    + intros [= <- _]. exact (workerStep_sent _ _ _ _ _ _ He Hst E).
    + apply IH. exact (workerStep_sent _ _ _ _ _ _ He Hst E).
Qed.

Lemma RunWorker_sent session hooks evs :
  Forall progress_ok evs ->
  is_Some (phases PInit (RunWorker session hooks evs).1) /\
  Forall canonical (RunWorker session hooks evs).1.
Proof.
  intros Hevs. unfold RunWorker. case_if; [split; [eexists; reflexivity|constructor]|].
  destruct (workerLoop _ _ _) as [st r] eqn:El. simpl. eapply workerLoop_sent; [done| |done].
  split; [done|constructor].
Qed.

(** *** The parent's view of a session *)

Definition messageOf (i : MInput) : option Message :=
  match mEvent i with MMessage m _ => Some m | _ => None end.

Definition no_protocol (e : error) : Prop :=
  match e with Some e => err_is is_protocol e = false | None => True end.
Definition stop_clean (env : StopEnv) : Prop :=
  (forall e, firstWait env = Some e -> no_protocol e) /\
  (forall e, reapWait env = Some e -> no_protocol e).
(** The operating system's own errors are not the protocol error. *)
Definition input_clean (i : MInput) : Prop :=
  stop_clean (mEnv i) /\
  match mEvent i with MWait e | MReadErr e => no_protocol e | _ => True end.

Lemma stopChild_clean session env : stop_clean env -> no_protocol (stopChild session env).1.
Proof.
  intros [H1 H2]. unfold stopChild. destruct (firstWait env) as [e|]; [by apply H1|].
  simpl. destruct (reapWait env) as [e|]; [by apply H2|done].
Qed.

Lemma normalize_clean e : no_protocol e -> no_protocol (normalizeParentStopError e).
Proof. destruct e as [e|]; [|done]. simpl. case_if; [done|]. by destruct (err_as_exit e). Qed.

Lemma join_clean a b : no_protocol a -> no_protocol b -> no_protocol (errors_Join a b).
Proof. destruct a, b; simpl; intros; by rewrite ?orb_false_r, ?H, ?H0. Qed.

Definition in_phase (ph : Phase) (st : MState) : Prop :=
  match ph with PInit => ready st = false | PReady => ready st = true | PStopped => False end.

(** A message the protocol allows in this phase is accepted, or ends a generation
    without a protocol error. *)
Lemma monitorStep_clean ph st i st' r :
  in_phase ph st -> input_clean i ->
  (forall m, messageOf i = Some m -> is_Some (advance ph m)) ->
  monitorStep (mEnv i) (mFin i) st (mEvent i) = (st', r) ->
  match r with
  | Some (g, _) => no_protocol (gErr g)
  | None => in_phase (match messageOf i with
                      | Some m => default ph (advance ph m) | None => ph end) st'
  end.
Proof.
  intros Hph [Hst He] Hm. unfold monitorStep.
  pose proof (stopChild_clean true (mEnv i) Hst) as Ht.
  pose proof (stopChild_clean false (mEnv i) Hst) as Hf.
  destruct (stopChild true (mEnv i)) as [se acts], (stopChild false (mEnv i)) as [sf actf].
  simpl in Ht, Hf. pose proof (normalize_clean se Ht). pose proof (normalize_clean sf Hf).
  unfold messageOf in *. destruct (mEvent i) as [|we|m now|re|now].
  - by intros [= <- <-].
  - destruct (ready st); simpl; [destruct we|]; by intros [= <- <-].
  - destruct (Hm m eq_refl) as [ph' Hadv]. rewrite Hadv.
    destruct ph; simpl in Hadv, Hph; [| |done]; rewrite Hph.
    + destruct (String.eqb (mType m) MessageReady); [|done]. injection Hadv as <-.
      by intros [= <- <-].
    + destruct (String.eqb_spec (mType m) MessageBeat) as [->|_].
      { injection Hadv as <-. simpl. by intros [= <- <-]. }
      destruct (String.eqb_spec (mType m) MessageStop) as [->|_]; [|done].
      simpl. by intros [= <- <-].
  - destruct (ready st) eqn:R; simpl; [destruct se as [se|]|]; intros [= <- <-]; simpl;
      first [done | by apply join_clean].
  - destruct (ready st) eqn:R; simpl; [|intros [= <- <-]; by destruct ph].
    destruct (Check_ now (watchdog st)) as [hang wd]; destruct hang; intros [= <- <-]; simpl;
      [done|]. by destruct ph; simpl in *; congruence.
Qed.

Lemma monitorLoop_clean ph st ins tail st' g acts :
  in_phase ph st -> Forall input_clean ins ->
  is_Some (phases ph (omap messageOf ins ++ tail)) ->
  monitorLoop st ins = (st', Some (g, acts)) -> no_protocol (gErr g).
Proof.
  intros Hph Hins. revert ph st Hph. induction Hins as [|i ins Hi _ IH]; intros ph st Hph Hs;
    simpl; [done|].
  destruct (monitorStep (mEnv i) (mFin i) st (mEvent i)) as [st1 r] eqn:E.
  assert (forall m, messageOf i = Some m -> is_Some (advance ph m)) as Hadv.
  { intros m Hm. simpl in Hs. rewrite Hm in Hs. simpl in Hs.
    destruct (advance ph m); [by eauto|by destruct Hs]. }
  pose proof (monitorStep_clean ph st i st1 r Hph Hi Hadv E) as Hc.
  destruct r as [[g1 acts1]|]; [by intros [= _ <- _]|].
  intros Hl. eapply IH; [exact Hc| |exact Hl].
  simpl in Hs. destruct (messageOf i) as [m|]; simpl in Hs; [|done].
  destruct (Hadv m eq_refl) as [ph' Ha]. rewrite Ha in *. done.
Qed.

(** *** What a generation's disposition means *)

Definition lifecycle (st : MState) : Prop :=
  onReady st = (if ready st then 1 else 0)%nat /\ wready (watchdog st) = ready st.

Lemma stopChild_kill session env : ActKill ∈ (stopChild session env).2 -> firstWait env = None.
Proof.
  unfold stopChild. destruct (firstWait env); [|done]. simpl.
  destruct session; [intros H%list_elem_of_singleton; discriminate|by intros ?%elem_of_nil].
Qed.

Definition end_ok (env : StopEnv) (e : MEvent) (st' : MState)
    (r : option (generationResult * list StopAction)) : Prop :=
  match r with
  | None => True
  | Some (g, acts) =>
      (disposition g = ExitStartupFailure -> ready st' = false) /\
      (disposition g = ExitRestart -> ready st' = true) /\
      (disposition g = ExitNormalStop -> e = MCtxDone \/ ready st' = true) /\
      (ActKill ∈ acts -> firstWait env = None)
  end.

Lemma monitorStep_lifecycle env fin st e st' r :
  lifecycle st -> monitorStep env fin st e = (st', r) ->
  lifecycle st' /\ end_ok env e st' r.
Proof.
  intros Hl. unfold monitorStep.
  pose proof (stopChild_kill true env) as Ht. pose proof (stopChild_kill false env) as Hf.
  destruct (stopChild true env) as [se acts], (stopChild false env) as [sf actf].
  simpl in Ht, Hf.
  assert (ActKill ∈ ([] : list StopAction) -> firstWait env = None) as Hn
    by (by intros ?%elem_of_nil).
  destruct (ready st) eqn:R; simpl; destruct e as [|we|m now|re|now]; simpl.
  all: try match goal with |- context [Check_ ?n ?w] => destruct (Check_ n w) as [hang wd] eqn:Ec end.
  all: repeat (case_match; simplify_eq/=); intros [= <- <-];
    (split; [try exact Hl|unfold end_ok; simpl; rewrite ?R;
       first [done | split_and!; first [done | by auto]]]).
  all: destruct Hl as [Hl Hw]; unfold lifecycle; simpl in *; rewrite ?R in *.
  all: try (by rewrite ?Hl).
  all: match goal with
    | |- context [Beat ?q ?n ?w] => pose proof (proj2 (wdStep_frame w (OpBeat q n))) as Hb
    | H : Check_ ?n ?w = _ |- _ =>
        pose proof (proj2 (wdStep_frame w (OpCheck n))) as Hb; simpl in Hb; rewrite H in Hb
    end; simpl in Hb; by rewrite Hb.
Qed.

Lemma lifecycle_init o : lifecycle (mkMState false zeroTime (NewWatchdog (HangWindow o)) 0).
Proof. done. Qed.

Lemma monitorLoop_lifecycle st ins st' r :
  lifecycle st -> monitorLoop st ins = (st', r) ->
  lifecycle st' /\
  match r with
  | None => True
  | Some _ => exists i, i ∈ ins /\ end_ok (mEnv i) (mEvent i) st' r
  end.
Proof.
  revert st. induction ins as [|i ins IH]; intros st Hl; simpl; [by intros [= <- <-]|].
  destruct (monitorStep _ _ _ _) as [st1 r1] eqn:E.
  destruct (monitorStep_lifecycle _ _ _ _ _ _ Hl E) as [Hl1 Hr1].
  destruct r1 as [[g acts]|].
  - intros [= <- <-]. split; [done|]. exists i. split; [left|done].
  - intros H. destruct (IH st1 Hl1 H) as [? Hr]. split; [done|].
    destruct r; [|done]. destruct Hr as (j & ? & ?). exists j. split; [by right|done].
Qed.

(** A READY message is what makes a generation ready. *)
Lemma monitorLoop_ready st ins st' r :
  monitorLoop st ins = (st', r) -> ready st' = true ->
  ready st = true \/ exists i m now, i ∈ ins /\ mEvent i = MMessage m now /\ mType m = MessageReady.
Proof.
  revert st. induction ins as [|i ins IH]; intros st; simpl; [intros [= <- _]; by left|].
  destruct (monitorStep _ _ _ _) as [st1 r1] eqn:E. intros H Hr.
  assert (ready st1 = true -> ready st = true \/
    exists m now, mEvent i = MMessage m now /\ mType m = MessageReady) as Hstep.
  { clear -E. unfold monitorStep in E.
    destruct (stopChild true (mEnv i)) as [se acts], (stopChild false (mEnv i)) as [sf actf].
    destruct (mEvent i) as [|we|m now|re|now].
    - injection E as <- _. by left.
    - repeat case_match; simplify_eq; first [by left | intros; congruence].
    - destruct (String.eqb_spec (mType m) MessageReady); [eauto 10|].
      repeat case_match; simplify_eq/=; first [by left | intros; simplify_eq; congruence].
    - repeat case_match; simplify_eq; first [by left | intros; congruence].
    - repeat case_match; simplify_eq/=; first [by left | intros; congruence]. }
  assert (ready st1 = true \/ exists i m now, i ∈ ins /\ mEvent i = MMessage m now /\
    mType m = MessageReady) as [H1|(j & m & now & ? & ? & ?)].
  { destruct r1; [injection H as <- _; by left|]. by apply IH. }
  - destruct (Hstep H1) as [?|(m & now & ? & ?)]; [by left|]. right. exists i, m, now.
    split_and!; [left|done|done].
  - right. exists j, m, now. split_and!; [by right|done|done].
Qed.

(** ** Lemmas: the restart schedule *)

(** The generations of a run, all ending in a restart. *)
Definition restarts (options : ParentOptions) (gens : list (Startup * bool))
    (rs : list generationResult) : Prop :=
  Forall2 (fun g r => runGeneration options g.1 = Some r /\
                      disposition r = ExitRestart /\ g.2 = false) gens rs.

(** The delays [Backoff] would give for these generations. *)
Fixpoint backoffDelays (level : Z) (rs : list generationResult) : list Duration :=
  match rs with
  | [] => []
  | r :: rs' => let level := (ObserveReadyDuration (readyFor r) level).2 in
                let '(d, level) := Next level in d :: backoffDelays level rs'
  end.

Definition default_options (o : ParentOptions) : Prop :=
  RestartSchedule o = restartBackoffSchedule /\ StableRunReset o = stableRunReset.

Lemma level_cases (P : Z -> Prop) : P 0 -> P 1 -> P 2 -> P 3 -> P 4 -> forall l, 0 <= l <= 4 -> P l.
Proof.
  intros P0 P1 P2 P3 P4 l Hl.
  assert (l = 0 \/ l = 1 \/ l = 2 \/ l = 3 \/ l = 4) as [->|[->|[->|[->| ->]]]] by lia; done.
Qed.

Lemma schedule_step l :
  0 <= l <= 4 ->
  parentRestartDelay restartBackoffSchedule l = (Next l).1 /\
  (if l <? zlen restartBackoffSchedule - 1 then l + 1 else l) = (Next l).2 /\
  0 <= (Next l).2 <= 4 /\ Second <= (Next l).1 <= 5 * Minute.
Proof. revert l. apply level_cases; vm_compute; by repeat split. Qed.

Lemma parentLoop_backoff o gens rs l :
  default_options o -> 0 <= l <= 4 -> restarts o gens rs ->
  (parentLoop o l gens).1 = backoffDelays l rs /\
  (parentLoop o l gens).2 = None /\
  Forall (fun d => Second <= d <= 5 * Minute) (backoffDelays l rs).
Proof.
  intros [Hs Hr] Hl H. revert l Hl. induction H as [|[g c] r gens rs (Hg & Hd & Hc) _ IH];
    intros l Hl; simpl in *; [done|].
  rewrite Hg, Hd, Hs, Hr. subst c. unfold ObserveReadyDuration.
  set (l1 := if stableRunReset <=? readyFor r then 0 else l).
  assert (((if readyFor r <? stableRunReset then (false, l) else (true, 0)).2) = l1) as ->.
  { subst l1. destruct (Z.leb_spec stableRunReset (readyFor r)),
      (Z.ltb_spec (readyFor r) stableRunReset); simpl; lia. }
  assert (0 <= l1 <= 4) as Hl1 by (subst l1; case_if; lia).
  destruct (schedule_step l1 Hl1) as (-> & -> & Hn & Hb).
  destruct (IH (Next l1).2 Hn) as (H1 & H2 & H3).
  destruct (parentLoop o (Next l1).2 gens) as [ds e]. simpl in *.
  destruct (Next l1) as [d l2]. simpl in *. subst. split_and!; [done..|by constructor].
Qed.

(** ** Properties *)

(** the line protocol is a round trip: any sequence of messages is written, and
    reading the bytes gives exactly that sequence and then the end of the stream;
    on any bytes at all the read loop ends with an error, within the stream's
    length. *)
Theorem protocol_roundtrip ms bytes :
  (Forall canonical ms ->
   sendAll ms = Ok (messageBytes ms) /\
   readControl (S (String.length (messageBytes ms))) (messageBytes ms) = (ms, Some io_EOF)) /\
  (readControl (S (String.length bytes)) bytes).2 <> None.
Proof.
  split; [|apply readControl_ends; lia]. intros Hms. split; [by apply sendAll_bytes|].
  apply readControl_bytes; [done|]. pose proof (messageBytes_length ms). lia.
Qed.

(** only the worker that was given the token gets a session: the connection
    [Accept] returns opened with the line [HELLO token], and the line [Connect]
    writes is accepted whatever connections came before it without one. *)
Theorem accept_authenticates token conns :
  (forall rest, Accept token conns = Some rest ->
     token <> "" /\ exists stream line, stream ∈ conns /\ readLine stream = Ok (line, rest) /\
       Fields line = ["HELLO"; token]) /\
  (token <> "" -> no_space token = true -> slen token <= 1000 ->
   Accept token conns = None ->
   forall rest hello, helloLine token = Ok hello ->
     Accept token (conns ++ [hello +:+ rest]) = Some rest).
Proof.
  split.
  - intros rest. induction conns as [|stream conns IH]; [done|]. simpl.
    assert (Accept token conns = Some rest -> token <> "" /\
      exists stream' line, stream' ∈ stream :: conns /\ readLine stream' = Ok (line, rest) /\
       Fields line = ["HELLO"; token]) as Hrec.
    { intros H. destruct (IH H) as (? & s & l & ? & ? & ?). split; [done|].
      exists s, l. split_and!; [by right|done|done]. }
    destruct (readLine stream) as [[line r]|] eqn:E; [|done].
    destruct (validateHello line token) eqn:Ev; [done|]. intros [= <-].
    unfold validateHello in Ev. destruct (Fields line) as [|a [|b [|]]] eqn:Ef; try done.
    case_if_in Ev; [done|]. to_prop. subst. split; [done|].
    exists stream, line. split_and!; [left|done|done].
  - intros Hne Hns Hlen Hnone rest hello Hh.
    assert (readLine (hello +:+ rest) = Ok ("HELLO " +:+ token, rest)) as Hread.
    { unfold helloLine, writeLine in Hh. case_if_in Hh; [done|]. to_prop.
      assert (hello = ("HELLO " +:+ token) +:+ String nl "") as -> by congruence.
      rewrite <- app_assoc_str. apply readLine_line; [done| |];
        unfold no_char; rewrite str_forall_app; by apply (no_space_no_char _ token). }
    induction conns as [|s conns IH].
    + simpl. rewrite Hread. unfold validateHello.
      change ("HELLO " +:+ token) with ("HELLO" +:+ " " +:+ token). rewrite Fields_two by done.
      apply String.eqb_neq in Hne. by rewrite Hne, !String.eqb_refl.
    + cbn [Accept app] in *. destruct (readLine s) as [[l r]|]; [|by apply IH].
      destruct (validateHello l token); [by apply IH|done].
Qed.

(** the control environment the parent builds is read back by the worker,
    whatever control variables it inherited; and a worker never accepts one that
    is not a loopback address with a 64-digit hexadecimal token. *)
Theorem control_env_roundtrip base port token env :
  (0 <= port -> slen token = 64 -> str_forall is_hex token = true ->
   let c := mkControl ("127.0.0.1:" +:+ FormatUint port) token in
   WorkerControlFromEnv (withWorkerControlEnv base c) = Ok (Some c)) /\
  (forall c, WorkerControlFromEnv env = Ok (Some c) ->
   slen (cToken c) = 64 /\ str_forall is_hex (cToken c) = true /\
   exists host p ip, SplitHostPort (cAddr c) = Some (host, p) /\
     ParseIP (Trim host "[]") = Some ip /\ IsLoopback ip = true).
Proof.
  split.
  - intros Hport Hlen Hhex c. unfold WorkerControlFromEnv.
    destruct (Getenv_own base c) as [-> ->]. cbn [cAddr cToken c].
    assert (no_space ("127.0.0.1:" +:+ FormatUint port) = true) as Hs
      by (unfold no_space; rewrite str_forall_app; apply FormatUint_no_space).
    assert (no_space token = true) as Ht.
    { revert Hhex. apply str_forall_impl. intros ch. unfold is_hex, is_digit, is_space. lia. }
    assert (forall ch, Ascii.eqb ch ":" || Ascii.eqb ch "[" || Ascii.eqb ch "]" = true ->
              no_char ch (FormatUint port) = true) as Hd.
    { intros ch Hch. apply FormatUint_forall. intros d Hd.
      apply (digit_char_cases (fun x => negb (Ascii.eqb x ch) = true)); [done|].
      destruct ch as [[] [] [] [] [] [] [] []]; vm_compute in Hch; try done;
        by repeat constructor. }
    assert (SplitHostPort ("127.0.0.1:" +:+ FormatUint port)
            = Some ("127.0.0.1", FormatUint port)) as Hsplit.
    { apply (SplitHostPort_plain "127.0.0.1"); [done|done|done|apply Hd; done..]. }
    rewrite !TrimSpace_no_space by done.
    assert (String.eqb token "" = false) as ->
      by (apply String.eqb_neq; intros ->; discriminate Hlen).
    rewrite Hsplit. cbn [String.append String.eqb andb orb negb].
    change (ParseIP (Trim "127.0.0.1" "[]")) with (Some (of_v4 2130706433)). cbn [c].
    change (negb (IsLoopback (of_v4 2130706433))) with false. cbn [orb].
    rewrite Hlen, Hhex. done.
  - intros c. unfold WorkerControlFromEnv. cbv zeta.
    generalize (TrimSpace (Getenv env controlAddrEnv)), (TrimSpace (Getenv env controlTokenEnv)).
    intros addr tok. destruct (String.eqb addr "" && String.eqb tok ""); [done|].
    destruct (String.eqb addr "" || String.eqb tok ""); [done|].
    destruct (SplitHostPort addr) as [[host p]|] eqn:Eh; [|done].
    destruct (ParseIP (Trim host "[]")) as [ip|] eqn:Ei; [|done].
    destruct (IsLoopback ip) eqn:El; simpl; [|done].
    destruct (Z.eqb_spec (slen tok) 64) as [E64|]; simpl; [|done].
    destruct (str_forall is_hex tok) eqn:Ex; simpl; [|done]. intros [= <-].
    split_and!; [done|done|]. by exists host, p, ip.
Qed.

(** a generation ends as a startup failure only before READY and as a restart
    only after a READY message arrived; it ends normally before READY only when the
    parent's context is done.  [OnReady] runs at most once, exactly when the worker
    became ready, and a child is only killed after ignoring the first stop. *)
Theorem generation_disposition options ins st g acts :
  monitorReadyWorker options ins = (st, Some (g, acts)) ->
  (disposition g = ExitStartupFailure -> ready st = false) /\
  (disposition g = ExitRestart ->
     ready st = true /\ exists i m now, i ∈ ins /\ mEvent i = MMessage m now /\
       mType m = MessageReady) /\
  (disposition g = ExitNormalStop ->
     ready st = true \/ exists i, i ∈ ins /\ mEvent i = MCtxDone) /\
  onReady st = (if ready st then 1 else 0)%nat /\
  (ActKill ∈ acts -> exists i, i ∈ ins /\ firstWait (mEnv i) = None).
Proof.
  unfold monitorReadyWorker. intros H.
  destruct (monitorLoop_lifecycle _ _ _ _ (lifecycle_init options) H) as [[Hr _] (i & Hi & H1 & H2 & H3 & H4)].
  pose proof (monitorLoop_ready _ _ _ _ H) as Hready.
  split_and!; [done| | |done|by eauto].
  - intros Hd. split; [auto|]. by destruct (Hready (H2 Hd)) as [Hx|Hx]; [discriminate Hx|].
  - intros Hd. destruct (H3 Hd); [right; eauto|by left].
Qed.


(** the watchdog is sound: when a check reports a hang, every beat that
    advanced the sequence, and every pause of the parent's own checks, is longer
    ago than the hang window. *)
Theorem watchdog_sound w0 t0 ops now :
  let start := wdReady t0 (NewWatchdog w0) in
  monotone t0 (ops ++ [OpCheck now]) ->
  (Check_ now (run wdStep start ops)).1 = true ->
  hangWindow start < now - t0 /\
  forall a o b, ops = a ++ o :: b ->
    lastProgress (wdStep (run wdStep start a) o) = opTime o ->
    hangWindow start < now - opTime o.
Proof.
  intros start Hm Hc. apply monotone_app in Hm as [Hm _].
  destruct (wdRun_frame ops start) as [Hh Hr].
  assert (min_int64 <= hangWindow start) as Hpos.
  { subst start. unfold NewWatchdog, wdReady, min_int64, Second. simpl. case_if; to_prop; lia. }
  apply Check_hang in Hc; [|by rewrite Hr|by rewrite Hh]. rewrite Hh in Hc. split.
  - pose proof (wdRun_progress ops start t0 ltac:(subst start; simpl; lia) Hm) as [H _].
    change (lastProgress start) with t0 in H. lia.
  - intros a o b -> Ho. apply monotone_app in Hm as [Ha Hm]. simpl in Hm. destruct Hm as [Hto Hb].
    rewrite run_app in Hc.
    change (run wdStep (run wdStep start a) (o :: b))
      with (run wdStep (wdStep (run wdStep start a) o) b) in Hc.
    pose proof (wdRun_progress b (wdStep (run wdStep start a) o) (opTime o)
      ltac:(rewrite Ho; lia) Hb) as [H _]. lia.
Qed.

(** the watchdog is complete: while the worker shows no progress and the
    parent checks at least once per window, the first check later than the window
    reports the hang. *)
Theorem watchdog_complete w ops now :
  wready w = true -> 0 < hangWindow w < max_int64 ->
  stalled (hangWindow w) (lastSequence w) (lastObserver w) ops ->
  0 <= now - lastSeen (lastObserver w) ops <= hangWindow w ->
  hangWindow w < now - lastProgress w ->
  (Check_ now (run wdStep w ops)).1 = true.
Proof.
  intros Hr Hw Hs Hn Hp. destruct (stalled_run ops w Hr Hw Hs) as [H1 H2].
  destruct (wdRun_frame ops w) as [H3 H4]. unfold Check_.
  rewrite H4, H3, H2, H1, Hr. simpl. unfold subT, min_int64, max_int64 in *.
  destruct (negb _ && _) eqn:E; simpl; [exfalso; to_prop; lia|]. apply Z.ltb_lt. lia.
Qed.

(** the restart loop implements the documented backoff: over any run of
    restarting generations [RunParent] waits exactly the delays of [Backoff]
    (1 s, 5 s, 30 s, 2 min, then 5 min, from the start again after a run of five
    minutes), and keeps supervising. *)
Theorem restart_schedule path options gens rs :
  TrimSpace path <> "" -> RestartSchedule options = [] -> StableRunReset options <= 0 ->
  restarts (normalizeParentOptions options) gens rs ->
  (RunParent path options gens).1 = backoffDelays 0 rs /\
  (RunParent path options gens).2 = None /\
  Forall (fun d => Second <= d <= 5 * Minute) (RunParent path options gens).1.
Proof.
  intros Hpath Hsched Hstable Hrs. unfold RunParent. apply String.eqb_neq in Hpath.
  rewrite Hpath. destruct (parentLoop_backoff (normalizeParentOptions options) gens rs 0)
    as (H1 & H2 & H3); [|lia|done|by rewrite H1].
  split; unfold normalizeParentOptions; simpl; [by rewrite Hsched|].
  by apply Z.leb_le in Hstable as ->.
Qed.

(** ** Witnesses *)

Definition wit_msgs : list Message :=
  [mkMessage MessageReady 0; mkMessage MessageBeat 41; mkMessage MessageBeat max_uint64;
   mkMessage MessageStop 0].

Lemma wit_canonical : Forall canonical wit_msgs.
Proof.
  unfold wit_msgs. rewrite !Forall_cons, Forall_nil. split_and!; [by left| | |by right; left|done];
    right; right; eexists; (split; [reflexivity|]); unfold max_uint64; lia.
Qed.

Lemma protocol_roundtrip_witness :
  sendAll wit_msgs = Ok (messageBytes wit_msgs) /\
  readControl (S (String.length (messageBytes wit_msgs))) (messageBytes wit_msgs) =
    (wit_msgs, Some io_EOF).
Proof. apply (proj1 (protocol_roundtrip wit_msgs "")), wit_canonical. Defined.

Lemma accept_authenticates_witness :
  Accept "secret" (["GET / HTTP/1.1"; "HELLO wrong" +:+ String nl ""] ++
                   [("HELLO secret" +:+ String nl "") +:+ "READY"]) = Some "READY".
Proof.
  apply (proj2 (accept_authenticates "secret"
    ["GET / HTTP/1.1"; "HELLO wrong" +:+ String nl ""])); first [reflexivity|discriminate].
Defined.

Definition wit_token : string :=
  "0123456789abcdef0123456789abcdef0123456789abcdef0123456789ABCDEF".

Lemma control_env_roundtrip_witness :
  WorkerControlFromEnv (withWorkerControlEnv ["PATH=/bin"; "PXGOINT_GUARDIAN_TOKEN=stale"]
    (mkControl ("127.0.0.1:" +:+ FormatUint 49152) wit_token)) =
  Ok (Some (mkControl ("127.0.0.1:" +:+ FormatUint 49152) wit_token)).
Proof.
  apply (proj1 (control_env_roundtrip ["PATH=/bin"; "PXGOINT_GUARDIAN_TOKEN=stale"]
    49152 wit_token [])); [lia|reflexivity|reflexivity].
Defined.

Definition wit_options := mkParentOptions 0 0 0 [] 0.
Definition wit_env := mkStopEnv (Some None) None.
Definition wit_in (e : MEvent) : MInput := mkMInput e wit_env (100 * Second).
Definition wit_ins : list MInput :=
  [wit_in (MMessage (mkMessage MessageReady 0) (1 * Second));
   wit_in (MTick (2 * Second));
   wit_in (MMessage (mkMessage MessageBeat 5) (3 * Second));
   wit_in (MWait (Some (ExitErr 75)))].
Definition wit_final : MState :=
  mkMState true Second (mkWatchdog (20 * Second) true (3 * Second) (2 * Second) 5) 1.
Definition wit_gen : generationResult :=
  mkGen ExitRestart (Some (ExitErr 75)) (99 * Second) 0.

Lemma generation_disposition_witness :
  ready wit_final = true /\
  exists i m now, i ∈ wit_ins /\ mEvent i = MMessage m now /\ mType m = MessageReady.
Proof.
  exact (proj1 (proj2 (generation_disposition wit_options wit_ins wit_final wit_gen [] eq_refl))
    eq_refl).
Defined.

Definition wit_hooks := mkHooks true true true true true true.
Definition wit_worker : list (WEvent * WStop) :=
  [(WReadyTick true None, mkWStop None None); (WHeartbeatTick false 5 None, mkWStop None None);
   (WHeartbeatTick true 5 None, mkWStop None (Some None))].


Lemma watchdog_sound_witness :
  let start := wdReady Second (NewWatchdog (5 * Second)) in
  hangWindow start < 12 * Second - Second.
Proof.
  refine (proj1 (watchdog_sound (5 * Second) Second
    [OpCheck (4 * Second); OpCheck (8 * Second)] (12 * Second) _ _)).
  - vm_compute. repeat split; discriminate.
  - reflexivity.
Defined.

Lemma watchdog_complete_witness :
  let w := wdReady Second (NewWatchdog (5 * Second)) in
  (Check_ (9 * Second) (run wdStep w [OpCheck (4 * Second); OpBeat 0 (5 * Second)])).1 = true.
Proof.
  intros w. apply (watchdog_complete w [OpCheck (4 * Second); OpBeat 0 (5 * Second)] (9 * Second));
    vm_compute; repeat split; discriminate.
Defined.

Lemma restart_schedule_witness :
  (RunParent "pxgo" wit_options
     [(SAccepted wit_ins, false); (SAccepted wit_ins, false); (SAccepted wit_ins, false)]).1
  = [Second; 5 * Second; 30 * Second].
Proof.
  refine (eq_trans (proj1 (restart_schedule "pxgo" wit_options
     [(SAccepted wit_ins, false); (SAccepted wit_ins, false); (SAccepted wit_ins, false)]
     [wit_gen; wit_gen; wit_gen] _ _ _ _)) _); try reflexivity; try discriminate.
  repeat constructor.
Defined.

End Grd.
