(* ===== verification/DnsCache.v ===== *)
(** * DnsCache: [internal/dnscache]

    The bounded TTL cache with single-flight lookups.  [LookupContext] runs in
    critical sections: [probe] (under the read lock), [enter] (under the write
    lock: hit, join an in-flight call, or lead a new one) and [complete] (the
    leader publishes its result); the resolver runs between [enter] and
    [complete], and [ClearNetworkState] may run anywhere.  A [*lookupCall] is a
    number naming a cell of the call store, so that callers share it as they
    share the pointer. *)

From S2P Require Export Prelude GoStrings.

Module Dns.

Definition positiveTTL : Duration := 60 * Second.
Definition minPositiveTTL : Duration := 1 * Second.
Definition maxPositiveTTL : Duration := 1 * Hour.
Definition negativeTTL : Duration := 5 * Second.
Definition maxEntries : nat := 4096.
#[global] Arguments maxEntries : simpl never.
#[global] Opaque maxEntries.

(** A [net.IP] is a byte slice, [None] the nil one; a nil list is [None]. *)
Definition ipBytes := option (list Z).
Definition IPs := option (list ipBytes).

Section Cache.
(** Resolver errors. *)
Context {Rerr : Type}.

Record entry := mkEntry { eIps : IPs; eErr : option Rerr; expires : Time }.

(** [isDone] says whether [done] is closed. *)
Record lookupCall := mkCall { isDone : bool; cIps : IPs; cErr : option Rerr; cGeneration : Z }.

Record Cache := mkCache {
  cache : gmap string entry;
  inflight : gmap string nat;
  generation : Z;
  ttlAware : bool;                    (* [lookupTTL != nil] *)
  calls : gmap nat lookupCall;        (* the calls allocated so far *)
  nextCall : nat }.

Definition New (ttl : bool) : Cache := mkCache ∅ ∅ 0 ttl ∅ 0.

(** [append(net.IP(nil), ip...)] of an empty slice is nil. *)
Definition cloneIP (ip : ipBytes) : ipBytes :=
  match ip with Some [] => None | _ => ip end.
Definition cloneIPs (ips : IPs) : IPs := fmap (M := option) (map cloneIP) ips.

Definition probe (now : Time) (host : string) (c : Cache) : option (IPs * option Rerr) :=
  match cache c !! host with
  | Some e => if before now (expires e) then Some (cloneIPs (eIps e), eErr e) else None
  | None => None
  end.

Inductive Admission :=
| Hit (ips : IPs) (err : option Rerr)
| Join (id : nat)
| Lead (id : nat).

Definition enter (now : Time) (host : string) (c : Cache) : Admission * Cache :=
  match probe now host c with
  | Some (ips, err) => (Hit ips err, c)
  | None =>
      match inflight c !! host with
      | Some id => (Join id, c)
      | None =>
          let id := nextCall c in
          (Lead id, mkCache (cache c) (<[host := id]> (inflight c)) (generation c) (ttlAware c)
             (<[id := mkCall false None None (generation c)]> (calls c)) (S id))
      end
  end.

(** What a caller of a joined call receives: its result once [done] is closed. *)
Definition await (id : nat) (c : Cache) : option (IPs * option Rerr) :=
  match calls c !! id with
  | Some call => if isDone call then Some (cloneIPs (cIps call), cErr call) else None
  | None => None
  end.

(** *** Eviction *)

(** One step of the victim search of [evictLocked]. *)
Definition olderEntry (acc : string * Time) (kv : string * entry) : string * Time :=
  let '(victim, oldest) := acc in
  if String.eqb victim "" || before (expires kv.2) oldest ||
     ((expires kv.2 =? oldest) && str_ltb kv.1 victim)
  then (kv.1, expires kv.2) else acc.

Definition victim (m : gmap string entry) : string :=
  (fold_left olderEntry (map_to_list m) ("", zeroTime)).1.

(** [for len(c.cache) >= maxEntries]; every iteration deletes an entry, so the
    number of entries is fuel enough. *)
Fixpoint evictLoop (fuel : nat) (m : gmap string entry) : gmap string entry :=
  match fuel with
  | O => m
  | S fuel' =>
      if (size m <? maxEntries)%nat then m
      else if String.eqb (victim m) "" then m
      else evictLoop fuel' (delete (victim m) m)
  end.

Definition evictLocked (now : Time) (m : gmap string entry) : gmap string entry :=
  let m := filter (fun kv => before now (expires kv.2) = true) m in
  evictLoop (S (size m)) m.

(** *** Completion *)

(** What the resolver returned, and whether the leader's context had ended. *)
Record Verdict := mkVerdict { vIps : IPs; vTTL : Duration; vErr : option Rerr; vCtxErr : bool }.

Definition effectiveIPs (v : Verdict) : IPs :=
  match vErr v with Some _ => None | None => cloneIPs (vIps v) end.

Definition effectiveTTL (aware : bool) (v : Verdict) : Duration :=
  let ttl := if aware then vTTL v else positiveTTL in
  match vErr v with
  | Some _ => negativeTTL
  | None => if aware && (0 <? ttl) then Z.max minPositiveTTL (Z.min ttl maxPositiveTTL) else ttl
  end.

Definition cacheable (aware : bool) (v : Verdict) : bool :=
  negb (vCtxErr v) &&
  (match vErr v with Some _ => true | None => false end || negb aware
   || (0 <? effectiveTTL aware v)).

Definition complete (id : nat) (host : string) (completedAt : Time) (v : Verdict) (c : Cache)
  : Cache :=
  match calls c !! id with
  | None => c
  | Some call =>
      let stored := effectiveIPs v in
      let m := if cacheable (ttlAware c) v && (cGeneration call =? generation c) then
                 let m := if (maxEntries <=? size (cache c))%nat
                          then evictLocked completedAt (cache c) else cache c in
                 <[host := mkEntry stored (vErr v) (addT completedAt (effectiveTTL (ttlAware c) v))]> m
               else cache c in
      mkCache m
        (if bool_decide (inflight c !! host = Some id) then delete host (inflight c) else inflight c)
        (generation c) (ttlAware c)
        (<[id := mkCall true stored (vErr v) (cGeneration call)]> (calls c)) (nextCall c)
  end.

(** What the leader itself returns. *)
Definition leaderResult (v : Verdict) : IPs * option Rerr := (cloneIPs (effectiveIPs v), vErr v).

Definition ClearNetworkState (c : Cache) : Cache :=
  mkCache ∅ ∅ (u64 (generation c + 1)) (ttlAware c) (calls c) (nextCall c).

(** ** The cache as a machine

    [leaders] are the goroutines between [enter] and [complete], by call, with
    the host they look up. *)
Record Machine := mkMachine { store : Cache; leaders : gmap nat string }.

Inductive Event :=
| EvAdmit (now : Time) (host : string)
| EvComplete (id : nat) (completedAt : Time) (v : Verdict)
| EvClear.

Definition step (m : Machine) (e : Event) : Machine :=
  match e with
  | EvAdmit now host =>
      match enter now host (store m) with
      | (Lead id, c) => mkMachine c (<[id := host]> (leaders m))
      | (_, c) => mkMachine c (leaders m)
      end
  | EvComplete id t v =>
      match leaders m !! id with
      | Some host => mkMachine (complete id host t v (store m)) (delete id (leaders m))
      | None => m
      end
  | EvClear => mkMachine (ClearNetworkState (store m)) (leaders m)
  end.

Definition start (ttl : bool) : Machine := mkMachine (New ttl) ∅.

(** Hosts are not empty. *)
Definition event_ok (e : Event) : Prop :=
  match e with EvAdmit _ host => host <> "" | _ => True end.
Definition is_clear (e : Event) : bool := match e with EvClear => true | _ => false end.
Definition clears (evs : list Event) : Z := Z.of_nat (length (bfilter is_clear evs)).

(** ** Lemmas: eviction *)

Definition no_empty (m : gmap string entry) : Prop := m !! "" = None.

Lemma older_in l v t :
  (fold_left olderEntry l (v, t)).1 = v \/ (fold_left olderEntry l (v, t)).1 ∈ l.*1.
Proof.
  revert v t. induction l as [|[k e] l IH]; intros v t; [by left|]. simpl.
  case_if; simpl.
  - destruct (IH k (expires e)) as [->|]; [right; left|right; by right].
  - destruct (IH v t) as [->|]; [by left|right; by right].
Qed.

Lemma victim_in m : no_empty m -> m <> ∅ -> victim m <> "" /\ is_Some (m !! victim m).
Proof.
  intros He Hne. unfold victim.
  destruct (map_to_list m) as [|[k e] l] eqn:El; [by apply map_to_list_empty_iff in El|].
  assert (forall k', k' ∈ ((k, e) :: l).*1 -> is_Some (m !! k')) as Hin.
  { intros k' Hk. apply list_elem_of_fmap in Hk as ([k2 e2] & -> & Hk).
    rewrite <- El, elem_of_map_to_list in Hk. by eauto. }
  assert (is_Some (m !! (fold_left olderEntry l (k, expires e)).1)) as Hs.
  { destruct (older_in l k (expires e)) as [->|Hl]; apply Hin; [left|by right]. }
  change (fold_left olderEntry ((k, e) :: l) ("", zeroTime))
    with (fold_left olderEntry l (k, expires e)).
  split; [|done]. intros Hv. rewrite Hv in Hs. unfold no_empty in He. rewrite He in Hs.
  by destruct Hs.
Qed.

Lemma evictLoop_spec fuel m :
  no_empty m -> (size m <= fuel)%nat -> (0 < maxEntries)%nat ->
  (size (evictLoop (S fuel) m) < maxEntries)%nat /\ evictLoop (S fuel) m ⊆ m.
Proof.
  revert m. induction fuel as [|fuel IH]; intros m He Hs Hpos; simpl.
  - apply Nat.le_0_r, map_size_empty_inv in Hs as ->. rewrite map_size_empty.
    destruct (Nat.ltb_spec 0 maxEntries); [|lia]. split; [by rewrite map_size_empty|done].
  - destruct (Nat.ltb_spec (size m) maxEntries); [by split|].
    assert (m <> ∅) as Hne by (intros ->; rewrite map_size_empty in *; lia).
    destruct (victim_in m He Hne) as [Hv Hin]. apply String.eqb_neq in Hv. rewrite Hv.
    destruct (IH (delete (victim m) m)) as [H1 H2]; [|rewrite map_size_delete_Some by done; lia|done|].
    + unfold no_empty. rewrite lookup_delete_ne; [done|by apply String.eqb_neq].
    + split; [exact H1|]. etransitivity; [exact H2|apply delete_subseteq].
Qed.

Lemma maxEntries_pos : (0 < maxEntries)%nat.
Proof. Transparent maxEntries. unfold maxEntries. lia. Qed.
#[local] Opaque maxEntries.

Lemma evictLocked_spec now m :
  no_empty m -> (size (evictLocked now m) < maxEntries)%nat /\ evictLocked now m ⊆ m.
Proof.
  intros He. unfold evictLocked. set (m' := filter _ m).
  assert (m' ⊆ m) as Hsub by apply map_filter_subseteq.
  destruct (evictLoop_spec (size m') m') as [H1 H2]; [|done|apply maxEntries_pos|].
  - unfold no_empty. destruct (m' !! "") eqn:E'; [|done].
    eapply lookup_weaken in E'; [|done]. unfold no_empty in He. congruence.
  - split; [done|by etransitivity].
Qed.

(** ** Lemmas: the machine's invariant *)

Definition call_in (m : Machine) (id : nat) (host : string) : Prop :=
  exists call, calls (store m) !! id = Some call /\ isDone call = false /\
    (cGeneration call = generation (store m) -> inflight (store m) !! host = Some id).

Record inv (n : Z) (m : Machine) : Prop := mkInv {
  inv_size : (size (cache (store m)) <= maxEntries)%nat;
  inv_keys : no_empty (cache (store m));
  inv_leaders : forall id host, leaders m !! id = Some host -> host <> "" /\ call_in m id host;
  inv_inflight : forall host id, inflight (store m) !! host = Some id ->
    leaders m !! id = Some host;
  inv_fresh : forall id, is_Some (calls (store m) !! id) -> (id < nextCall (store m))%nat;
  inv_gen : generation (store m) = u64 n;
  inv_old : forall id call, calls (store m) !! id = Some call ->
    0 <= cGeneration call <= generation (store m) }.

Lemma inv_start ttl : inv 0 (start ttl).
Proof.
  split; simpl.
  - rewrite map_size_empty. lia.
  - by apply lookup_empty.
  - intros ??. by rewrite lookup_empty.
  - intros ??. by rewrite lookup_empty.
  - intros ?. rewrite lookup_empty. by intros [].
  - done.
  - intros ??. by rewrite lookup_empty.
Qed.

Lemma step_admit_cases now host m :
  (exists ips err, probe now host (store m) = Some (ips, err) /\ step m (EvAdmit now host) = m) \/
  (exists id, inflight (store m) !! host = Some id /\ step m (EvAdmit now host) = m) \/
  (inflight (store m) !! host = None /\
   let c := store m in let id := nextCall c in
   step m (EvAdmit now host) =
     mkMachine (mkCache (cache c) (<[host := id]> (inflight c)) (generation c) (ttlAware c)
       (<[id := mkCall false None None (generation c)]> (calls c)) (S id)) (<[id := host]> (leaders m))).
Proof.
  unfold step, enter. destruct m as [c ld]. simpl.
  destruct (probe now host c) as [[ips err]|]; [left; by exists ips, err|]. right.
  destruct (inflight c !! host) as [id|] eqn:E; [left; by exists id|]. by right.
Qed.

Lemma inv_admit n now host m : host <> "" -> inv n m -> inv n (step m (EvAdmit now host)).
Proof.
  intros Hh I. destruct (step_admit_cases now host m) as [(?&?&_& ->)|[(?&_& ->)|[Hnone ->]]];
    [done|done|]. destruct I as [Hs Hk Hl Hi Hf Hg Ho]. set (id := nextCall (store m)).
  assert (calls (store m) !! id = None) as Hid.
  { destruct (calls (store m) !! id) eqn:E; [|done].
    assert (id < nextCall (store m))%nat by (apply Hf; eauto). subst id. lia. }
  split; simpl; try done.
  - intros i h. destruct (decide (i = id)) as [->|Hne].
    + rewrite lookup_insert_eq. intros [= <-]. split; [done|]. eexists. simpl.
      rewrite !lookup_insert_eq. by split_and!.
    + rewrite lookup_insert_ne by done. intros Hld. destruct (Hl i h Hld) as (Hhe & call & Hc & Hd & Hg').
      split; [done|]. exists call. simpl. rewrite lookup_insert_ne by done. split_and!; [done..|].
      intros Hgen. specialize (Hg' Hgen). rewrite lookup_insert_ne; [done|]. intros <-. congruence.
  - intros h i. destruct (decide (h = host)) as [->|Hne].
    + rewrite lookup_insert_eq. intros [= <-]. by rewrite lookup_insert_eq.
    + rewrite lookup_insert_ne by done. intros Hin. specialize (Hi h i Hin).
      rewrite lookup_insert_ne; [done|]. intros <-.
      destruct (Hl id h Hi) as (_ & call & Hc & _). congruence.
  - intros i. destruct (decide (i = id)) as [->|Hne]; [subst id; lia|].
    rewrite lookup_insert_ne by done. intros H. apply Hf in H. lia.
  - intros i call. destruct (decide (i = id)) as [->|Hne].
    + rewrite lookup_insert_eq. intros [= <-]. simpl. rewrite Hg. pose proof (u64_range n). lia.
    + rewrite lookup_insert_ne by done. apply Ho.
Qed.

Lemma complete_size id host t v c :
  host <> "" -> no_empty (cache c) -> (size (cache c) <= maxEntries)%nat ->
  no_empty (cache (complete id host t v c)) /\
  (size (cache (complete id host t v c)) <= maxEntries)%nat.
Proof.
  intros Hh He Hs. unfold complete. destruct (calls c !! id) as [call|]; [|done]. simpl.
  case_if; [|done]. destruct (evictLocked_spec t (cache c) He) as [Hev Hsub].
  set (m := if (maxEntries <=? size (cache c))%nat then _ else _).
  assert (no_empty m /\ (size m < maxEntries)%nat) as [Hm Hlt].
  { subst m. destruct (Nat.leb_spec maxEntries (size (cache c))); [|done]. split; [|done].
    unfold no_empty. destruct (evictLocked t (cache c) !! "") eqn:Ee; [|done].
    eapply lookup_weaken in Ee; [|done]. unfold no_empty in He. congruence. }
  split; [unfold no_empty; by rewrite lookup_insert_ne|].
  rewrite map_size_insert. case_match; unfold Datatypes.id; lia.
Qed.

Lemma inv_complete n id t v m : inv n m -> inv n (step m (EvComplete id t v)).
Proof.
  intros I. simpl. destruct (leaders m !! id) as [host|] eqn:El; [|done].
  destruct I as [Hs Hk Hl Hi Hf Hg Ho]. destruct (Hl id host El) as (Hh & call & Hc & Hd & Hcg).
  destruct (complete_size id host t v (store m) Hh Hk Hs) as [Hk' Hs'].
  assert (forall h i, inflight (complete id host t v (store m)) !! h = Some i ->
    inflight (store m) !! h = Some i /\ i <> id) as Hinf.
  { intros h i. unfold complete. rewrite Hc. simpl. destruct (bool_decide _) eqn:Eb; to_prop.
    - destruct (decide (h = host)) as [->|]; [by rewrite lookup_delete_eq|].
      rewrite lookup_delete_ne by done. intros Hin. split; [done|]. intros ->.
      apply Hi in Hin. congruence.
    - intros Hin. split; [done|]. intros ->. pose proof (Hi _ _ Hin). congruence. }
  assert (forall h i, inflight (store m) !! h = Some i -> i <> id ->
    inflight (complete id host t v (store m)) !! h = Some i) as Hinf2.
  { intros h i Hin Hne. unfold complete. rewrite Hc. simpl. destruct (bool_decide _) eqn:Eb; [|done].
    to_prop. rewrite lookup_delete_ne; [done|]. intros <-. congruence. }
  assert (calls (complete id host t v (store m)) =
    <[id := mkCall true (effectiveIPs v) (vErr v) (cGeneration call)]> (calls (store m)) /\
    generation (complete id host t v (store m)) = generation (store m) /\
    nextCall (complete id host t v (store m)) = nextCall (store m)) as (Hcalls & Hgen & Hnext)
    by (unfold complete; by rewrite Hc).
  split; simpl; rewrite ?Hgen, ?Hnext; try done.
  - intros i h. destruct (decide (i = id)) as [->|Hne]; [by rewrite lookup_delete_eq|].
    rewrite lookup_delete_ne by done. intros Hld. destruct (Hl i h Hld) as (? & ci & Hci & Hdi & Hgi).
    split; [done|]. exists ci. simpl. rewrite Hcalls, Hgen, lookup_insert_ne by done.
    split_and!; [done..|]. intros. by apply Hinf2; [apply Hgi|].
  - intros h i Hin. apply Hinf in Hin as [Hin Hne]. rewrite lookup_delete_ne by done. by apply Hi.
  - intros i. rewrite Hcalls. destruct (decide (i = id)) as [->|]; [intros; by apply Hf; eauto|].
    rewrite lookup_insert_ne by done. apply Hf.
  - intros i ci. rewrite Hcalls. destruct (decide (i = id)) as [->|].
    + rewrite lookup_insert_eq. intros [= <-]. simpl. by apply (Ho id).
    + rewrite lookup_insert_ne by done. apply Ho.
Qed.

Lemma machine_inv_clear n m : 0 <= n -> n + 1 < 2 ^ 64 -> inv n m -> inv (n + 1) (step m EvClear).
Proof.
  intros Hn0 Hn [Hs Hk Hl Hi Hf Hg Ho].
  assert (u64 (generation (store m) + 1) = n + 1) as Hg1.
  { rewrite Hg, (u64_small n) by lia. rewrite u64_small by lia. done. }
  assert (generation (store m) = n) as Hgn by (rewrite Hg, u64_small; lia).
  split; simpl; try done.
  - rewrite map_size_empty. lia.
  - intros id host Hld. destruct (Hl id host Hld) as (? & call & Hc & Hd & Hcg). split; [done|].
    exists call. simpl. split_and!; [done..|]. rewrite Hg1. intros E'.
    pose proof (Ho _ _ Hc). lia.
  - rewrite Hg1, u64_small by lia. done.
  - intros id call Hc. rewrite Hg1. pose proof (Ho _ _ Hc). lia.
Qed.

Lemma clears_app a b : clears (a ++ b) = clears a + clears b.
Proof. unfold clears. rewrite List.filter_app, length_app. lia. Qed.

Lemma machine_inv_step n m e :
  event_ok e -> 0 <= n -> n + clears [e] < 2 ^ 64 -> inv n m -> inv (n + clears [e]) (step m e).
Proof.
  intros He H0 Hn I. destruct e as [now host|id t v|].
  - rewrite Z.add_0_r. by apply inv_admit.
  - rewrite Z.add_0_r. by apply inv_complete.
  - change (clears [EvClear]) with 1 in *. by apply machine_inv_clear.
Qed.

Lemma clears_nonneg evs : 0 <= clears evs.
Proof. unfold clears. lia. Qed.

Lemma inv_run n m evs :
  Forall event_ok evs -> 0 <= n -> n + clears evs < 2 ^ 64 -> inv n m ->
  inv (n + clears evs) (run step m evs).
Proof.
  intros Hok. revert n m. induction Hok as [|e evs He _ IH]; intros n m H0 Hn I.
  - by rewrite Z.add_0_r.
  - rewrite (clears_app [e] evs : clears (e :: evs) = _) in *. rewrite Z.add_assoc.
    pose proof (clears_nonneg evs). pose proof (clears_nonneg [e]).
    apply IH; [lia|lia|]. apply machine_inv_step; [done|done|lia|done].
Qed.

Lemma reachable_inv ttl evs :
  Forall event_ok evs -> clears evs < 2 ^ 64 -> inv (clears evs) (run step (start ttl) evs).
Proof. intros. apply (inv_run 0); [done|lia|done|apply inv_start]. Qed.

Lemma step_ttlAware m e : ttlAware (store (step m e)) = ttlAware (store m).
Proof.
  destruct e as [now host|id t v|]; [|simpl; destruct (leaders m !! id); [|done]|done].
  - by destruct (step_admit_cases now host m) as [(?&?&_& ->)|[(?&_& ->)|[_ ->]]].
  - simpl. unfold complete. by destruct (calls _ !! _).
Qed.

Lemma run_ttlAware m evs : ttlAware (store (run step m evs)) = ttlAware (store m).
Proof.
  revert m. induction evs as [|e evs IH]; intros m; [done|].
  change (run step m (e :: evs)) with (run step (step m e) evs). by rewrite IH, step_ttlAware.
Qed.

(** *** Where a cached entry comes from *)

Definition provenance (ttl : bool) (evs : list Event) (host : string) (e : entry) : Prop :=
  exists pre id t v post, evs = pre ++ EvComplete id t v :: post /\
    leaders (run step (start ttl) pre) !! id = Some host /\
    clears post = 0 /\ cacheable ttl v = true /\
    e = mkEntry (effectiveIPs v) (vErr v) (addT t (effectiveTTL ttl v)).

Lemma provenance_snoc ttl evs ev host e :
  is_clear ev = false -> provenance ttl evs host e -> provenance ttl (evs ++ [ev]) host e.
Proof.
  intros Hc (pre & id & t & v & post & -> & Hl & Hp & Hr). exists pre, id, t, v, (post ++ [ev]).
  rewrite <- app_assoc. split_and!; [done|done| |by destruct Hr..].
  rewrite clears_app, Hp. unfold clears. simpl. by rewrite Hc.
Qed.

Lemma cached_provenance ttl evs host e :
  Forall event_ok evs -> clears evs < 2 ^ 64 ->
  cache (store (run step (start ttl) evs)) !! host = Some e -> provenance ttl evs host e.
Proof.
  induction evs as [|ev evs IH] using rev_ind; intros Hok Hn.
  { simpl. by rewrite lookup_empty. }
  rewrite run_app. apply Forall_app in Hok as [Hok Hev%Forall_singleton].
  rewrite clears_app in Hn. pose proof (clears_nonneg [ev]).
  specialize (IH Hok ltac:(lia)). pose proof (reachable_inv ttl evs Hok ltac:(lia)) as I.
  set (m := run step (start ttl) evs) in *.
  change (run step m [ev]) with (step m ev). intros Hin.
  destruct ev as [now h|id t v|].
  - apply provenance_snoc; [done|]. apply IH.
    by destruct (step_admit_cases now h m) as [(?&?&_&E)|[(?&_&E)|[_ E]]]; rewrite E in Hin.
  - simpl in Hin. destruct (leaders m !! id) as [h|] eqn:El; [|apply provenance_snoc; auto].
    destruct (inv_leaders _ _ I id h El) as (Hh & call & Hc & _ & _).
    simpl in Hin. unfold complete in Hin. rewrite Hc in Hin. simpl in Hin.
    case_if_in Hin; [|apply provenance_snoc; auto]. to_prop.
    assert (ttlAware (store m) = ttl) as Ht by (subst m; by rewrite run_ttlAware).
    destruct (decide (host = h)) as [->|Hne].
    + rewrite lookup_insert_eq in Hin. injection Hin as <-. rewrite Ht in *.
      by exists evs, id, t, v, [].
    + rewrite lookup_insert_ne in Hin by done. apply provenance_snoc; [done|]. apply IH.
      case_if_in Hin; [|done].
      eapply lookup_weaken; [exact Hin|]. by apply (evictLocked_spec t _ (inv_keys _ _ I)).
  - simpl in Hin. by rewrite lookup_empty in Hin.
Qed.

Lemma effectiveTTL_bounds ttl v :
  cacheable ttl v = true ->
  minPositiveTTL <= effectiveTTL ttl v <= maxPositiveTTL /\
  (vErr v <> None -> effectiveTTL ttl v = negativeTTL) /\ vCtxErr v = false.
Proof.
  unfold cacheable, effectiveTTL, minPositiveTTL, maxPositiveTTL, negativeTTL, positiveTTL,
    Hour, Minute, Second.
  destruct (vCtxErr v); [done|]. simpl. destruct (vErr v); [intros _; split_and!; [lia|lia|done|done]|].
  destruct ttl; simpl; [|intros _; split_and!; [lia|lia|done|done]].
  destruct (Z.ltb_spec 0 (vTTL v)); simpl; intros Hc; to_prop; split_and!; try done; lia.
Qed.

(** *** A call keeps its generation *)

Lemma step_call m e id call n :
  inv n m -> calls (store m) !! id = Some call ->
  exists call', calls (store (step m e)) !! id = Some call' /\ cGeneration call' = cGeneration call.
Proof.
  intros I Hc. destruct e as [now host|i t v|].
  - destruct (step_admit_cases now host m) as [(?&?&_&E)|[(?&_&E)|[_ E]]]; rewrite E; [by eauto..|].
    simpl. assert (id < nextCall (store m))%nat by (eapply inv_fresh; eauto).
    rewrite lookup_insert_ne by lia. by eauto.
  - simpl. destruct (leaders m !! i); [|by eauto]. simpl. unfold complete.
    destruct (calls (store m) !! i) as [ci|] eqn:E; [|by eauto]. simpl.
    destruct (decide (i = id)) as [->|].
    + rewrite lookup_insert_eq. eexists. split; [done|]. simpl. congruence.
    + rewrite lookup_insert_ne by done. by eauto.
  - by eauto.
Qed.

Lemma run_call evs m id call n :
  Forall event_ok evs -> 0 <= n -> n + clears evs < 2 ^ 64 -> inv n m ->
  calls (store m) !! id = Some call ->
  exists call', calls (store (run step m evs)) !! id = Some call' /\
                cGeneration call' = cGeneration call.
Proof.
  intros Hok. revert n m call. induction Hok as [|e evs He _ IH]; intros n m call H0 Hn I Hc.
  { by exists call. }
  rewrite (clears_app [e] evs : clears (e :: evs) = _) in *.
  pose proof (clears_nonneg evs). pose proof (clears_nonneg [e]).
  destruct (step_call m e id call n I Hc) as (c1 & Hc1 & Hg1).
  destruct (IH (n + clears [e]) (step m e) c1) as (c2 & Hc2 & Hg2); [lia|lia| |done|].
  { apply machine_inv_step; [done|done|lia|done]. }
  exists c2. split; [done|congruence].
Qed.

Lemma cloneIPs_idemp ips : cloneIPs (cloneIPs ips) = cloneIPs ips.
Proof.
  destruct ips as [l|]; [|done]. unfold cloneIPs. simpl. f_equal. rewrite map_map.
  apply map_ext. by intros [[|? ?]|].
Qed.

(** ** Properties *)

(** over every history the cache keeps at most 4096 entries, and whatever a
    lookup is served from it is a resolver verdict for that host, published
    since the last network epoch by a leader whose context had not ended, and
    not older than its lifetime: 1 s to 1 h for addresses, 5 s for errors. *)
Theorem cache_hits_are_fresh ttl evs now host ips err :
  Forall event_ok evs -> clears evs < 2 ^ 64 ->
  let m := run step (start ttl) evs in
  (size (cache (store m)) <= maxEntries)%nat /\
  (probe now host (store m) = Some (ips, err) ->
   exists pre id t v post, evs = pre ++ EvComplete id t v :: post /\
     leaders (run step (start ttl) pre) !! id = Some host /\ clears post = 0 /\
     vCtxErr v = false /\
     (ips, err) = leaderResult v /\ now < t + effectiveTTL ttl v /\
     minPositiveTTL <= effectiveTTL ttl v <= maxPositiveTTL /\
     (err <> None -> effectiveTTL ttl v = negativeTTL)).
Proof.
  intros Hok Hn m. split; [by eapply inv_size, reachable_inv|].
  unfold probe. destruct (cache (store m) !! host) as [e|] eqn:Ee; [|done].
  destruct (before now (expires e)) eqn:Eb; [|done]. intros [= <- <-].
  destruct (cached_provenance ttl evs host e Hok Hn Ee)
    as (pre & id & t & v & post & -> & Hl & Hp & Hc & ->).
  destruct (effectiveTTL_bounds ttl v Hc) as (Hb & Herr & Hctx).
  exists pre, id, t, v, post. unfold before, addT in Eb. simpl in *. to_prop.
  split_and!; done || lia.
Qed.

(** a stale network generation never repopulates the cache: a lookup that
    began before [ClearNetworkState] leaves the cache exactly as it is when it
    completes after it. *)
Theorem stale_generation_not_stored ttl pre now host id mid t v :
  Forall event_ok (pre ++ EvAdmit now host :: mid) -> clears (pre ++ mid) < 2 ^ 64 ->
  let m := run step (start ttl) pre in
  (enter now host (store m)).1 = Lead id ->
  EvClear ∈ mid ->
  let m' := run step (step m (EvAdmit now host)) mid in
  cache (store (step m' (EvComplete id t v))) = cache (store m').
Proof.
  intros Hok Hn m Hlead Hmid m'.
  apply Forall_app in Hok as [Hpre [Hhost Hok]%Forall_cons].
  rewrite clears_app in Hn. pose proof (clears_nonneg pre).
  pose proof (clears_nonneg mid).
  pose proof (reachable_inv ttl pre Hpre ltac:(lia)) as I.
  assert (0 < clears mid) as Hpos.
  { apply list_elem_of_split in Hmid as (a & b & ->).
    rewrite clears_app. pose proof (clears_nonneg a). pose proof (clears_nonneg b).
    change (EvClear :: b) with ([EvClear] ++ b). rewrite clears_app.
    change (clears [EvClear]) with 1. lia. }
  pose proof (inv_admit _ now host _ Hhost I) as I1. fold m in I, I1.
  assert (exists call, calls (store (step m (EvAdmit now host))) !! id = Some call /\
    cGeneration call = generation (store m)) as (call & Hc & Hg).
  { unfold enter in Hlead. destruct (step_admit_cases now host m) as [(?&?&Hp&_)|[(?&Hi&_)|[Hi ->]]].
    - by rewrite Hp in Hlead.
    - destruct (probe now host (store m)) as [[??]|]; [done|]. by rewrite Hi in Hlead.
    - destruct (probe now host (store m)) as [[??]|]; [done|]. rewrite Hi in Hlead.
      injection Hlead as <-. simpl. rewrite lookup_insert_eq. by eauto. }
  destruct (run_call mid _ id call (clears pre) Hok ltac:(done) ltac:(lia) I1 Hc) as (call' & Hc' & Hg').
  pose proof (inv_run (clears pre) _ mid Hok ltac:(done) ltac:(lia) I1) as I2.
  assert (cGeneration call' <> generation (store m')) as Hne.
  { subst m'. rewrite Hg', Hg, (inv_gen _ _ I), (inv_gen _ _ I2). rewrite !u64_small by lia. lia. }
  fold m' in Hc'. cbn [step]. destruct (leaders m' !! id); [|done]. cbn [store]. unfold complete.
  rewrite Hc'. cbn [cache]. apply Z.eqb_neq in Hne. by rewrite Hne, andb_false_r.
Qed.

(** concurrent misses coalesce without losing a caller: a caller that joins a
    call joins one whose leader is still running for the same host, and as soon
    as that leader completes, whatever happened in between, the caller gets the
    leader's own result; two leaders of the same host never run in the same
    generation; and a leader whose context ended caches nothing. *)
Theorem lookups_coalesce ttl evs now host :
  Forall event_ok evs -> clears evs < 2 ^ 64 ->
  let m := run step (start ttl) evs in
  (forall id, (enter now host (store m)).1 = Join id ->
     leaders m !! id = Some host /\ await id (store m) = None /\
     forall t v, await id (store (step m (EvComplete id t v))) = Some (leaderResult v)) /\
  (forall id1 id2 c1 c2, leaders m !! id1 = Some host -> leaders m !! id2 = Some host ->
     calls (store m) !! id1 = Some c1 -> calls (store m) !! id2 = Some c2 ->
     cGeneration c1 = generation (store m) -> cGeneration c2 = generation (store m) ->
     id1 = id2) /\
  (forall id t v, vCtxErr v = true ->
     cache (store (step m (EvComplete id t v))) = cache (store m)).
Proof.
  intros Hok Hn m. pose proof (reachable_inv ttl evs Hok Hn) as I. fold m in I. split_and!.
  - intros id Hj. assert (inflight (store m) !! host = Some id) as Hin.
    { unfold enter in Hj. destruct (probe now host (store m)) as [[??]|]; [done|].
      destruct (inflight (store m) !! host); [by injection Hj as ->|done]. }
    pose proof (inv_inflight _ _ I _ _ Hin) as Hl. split; [done|].
    destruct (inv_leaders _ _ I _ _ Hl) as (_ & call & Hc & Hd & _).
    split; [unfold await; by rewrite Hc, Hd|].
    intros t v. simpl. rewrite Hl. simpl. unfold await, complete. rewrite Hc. simpl.
    rewrite lookup_insert_eq. done.
  - intros id1 id2 c1 c2 H1 H2 Hc1 Hc2 Hg1 Hg2.
    destruct (inv_leaders _ _ I _ _ H1) as (_ & d1 & Hd1 & _ & Hi1).
    destruct (inv_leaders _ _ I _ _ H2) as (_ & d2 & Hd2 & _ & Hi2).
    simplify_eq. specialize (Hi1 Hg1). specialize (Hi2 Hg2). congruence.
  - intros id t v Hv. simpl. destruct (leaders m !! id); [|done]. simpl. unfold complete.
    destruct (calls (store m) !! id); [|done]. simpl. unfold cacheable. by rewrite Hv.
Qed.

End Cache.

(** ** Witnesses *)

Definition wit_ip : IPs := Some [Some [10; 0; 0; 1]].
Definition wit_verdict : Verdict := mkVerdict (Rerr := string) wit_ip (30 * Second) None false.
Definition wit_evs : list (@Event string) :=
  [EvAdmit Second "proxy.corp"; EvComplete 0 (2 * Second) wit_verdict].

Lemma wit_evs_ok : Forall event_ok wit_evs.
Proof. repeat constructor; discriminate. Qed.

Lemma cache_hits_are_fresh_witness :
  let m := run step (start true) wit_evs in
  (size (cache (store m)) <= maxEntries)%nat /\
  probe (31 * Second) "proxy.corp" (store m) = Some (wit_ip, None) /\
  exists t v, (wit_ip, None) = leaderResult (Rerr := string) v /\
    31 * Second < t + effectiveTTL true v.
Proof.
  pose proof (cache_hits_are_fresh true wit_evs (31 * Second) "proxy.corp" wit_ip None
    wit_evs_ok ltac:(vm_compute; reflexivity)) as [H1 H2].
  assert (probe (31 * Second) "proxy.corp" (store (run step (start true) wit_evs))
          = Some (wit_ip, None)) as Hp by reflexivity.
  destruct (H2 Hp) as (pre & id & t & v & post & _ & _ & _ & _ & Hr & Ht & _).
  split; [exact H1|]. split; [exact Hp|]. by exists t, v.
Defined.

Lemma stale_generation_not_stored_witness :
  let m' := run step (start true) [EvAdmit Second "proxy.corp"; EvClear] in
  cache (store (step m' (EvComplete 0 (2 * Second) wit_verdict))) = cache (store m').
Proof.
  apply (stale_generation_not_stored true [] Second "proxy.corp" 0%nat [EvClear] (2 * Second)
    wit_verdict); [|reflexivity|reflexivity|left].
  repeat constructor; discriminate.
Defined.

Lemma lookups_coalesce_witness :
  let m := run step (start true) (take 1 wit_evs) in
  (enter (2 * Second) "proxy.corp" (store m)).1 = Join 0 /\
  await 0 (store (step m (EvComplete 0 (2 * Second) wit_verdict))) = Some (wit_ip, None).
Proof.
  split; [reflexivity|].
  refine (proj2 (proj2 (proj1 (lookups_coalesce true (take 1 wit_evs) (2 * Second) "proxy.corp"
    _ _) 0%nat eq_refl)) (2 * Second) wit_verdict); [repeat constructor; discriminate|reflexivity].
Defined.

End Dns.
