(* ===== verification/TransportCache.v ===== *)
(** * TransportCache: [internal/proxy/transport_cache.go]

    The bounded FIFO cache of authenticated transports.  An entry is a pointer
    with its own [closeOnce]; it is a number here, and [closedLog] lists the
    entries whose close action ran, in order.  [getOrCreate] is two critical
    sections with the factory between them, so another caller may run in
    between: [newCandidate] and [install] are separate steps. *)

From S2P Require Export Prelude GoStrings.

Module Tc.

Record cache := mkCache {
  max : nat;
  entries : gmap string nat;
  order : list string;
  closedLog : list nat;
  pending : gset nat;       (* candidates made by a factory and not yet installed *)
  next : nat }.

Definition newBoundedTransportCache (m : Z) : cache :=
  mkCache (Z.to_nat (if m <? 1 then 1 else m)) ∅ [] [] ∅ 0.

(** [transportCacheEntry.close]: [closeOnce] runs the close action once. *)
Definition closeEntry (id : nat) (log : list nat) : list nat :=
  if bool_decide (id ∈ log) then log else log ++ [id].

Definition get (key : string) (c : cache) : option nat := entries c !! key.

(** [factory()] returned a non-nil candidate. *)
Definition newCandidate (c : cache) : nat * cache :=
  (next c, mkCache (max c) (entries c) (order c) (closedLog c) ({[next c]} ∪ pending c) (S (next c))).

(** The victim loop of [getOrCreate]: pop keys until one is still present. *)
Fixpoint evictOrder (ord : list string) (es : gmap string nat)
  : option nat * list string * gmap string nat :=
  match ord with
  | [] => (None, [], es)
  | k :: ord' =>
      match es !! k with
      | None => evictOrder ord' es
      | Some v => (Some v, ord', delete k es)
      end
  end.

(** The second critical section of [getOrCreate], with the closes that follow it. *)
Definition install (key : string) (cand : nat) (c : cache) : nat * cache :=
  match entries c !! key with
  | Some e => (e, mkCache (max c) (entries c) (order c) (closeEntry cand (closedLog c))
                    (pending c ∖ {[cand]}) (next c))
  | None =>
      let '((evicted, ord), es) :=
        if (max c <=? size (entries c))%nat then evictOrder (order c) (entries c)
        else ((None, order c), entries c) in
      let log := match evicted with Some v => closeEntry v (closedLog c) | None => closedLog c end in
      (cand, mkCache (max c) (<[key := cand]> es) (ord ++ [key]) log
               (pending c ∖ {[cand]}) (next c))
  end.

(** [getOrCreate] run without interruption; [made] is false for a nil candidate. *)
Definition getOrCreate (key : string) (made : bool) (c : cache) : option nat * cache :=
  match get key c with
  | Some e => (Some e, c)
  | None => if negb made then (None, c)
            else let '(cand, c1) := newCandidate c in
                 let '(e, c2) := install key cand c1 in (Some e, c2)
  end.

(** [expected = None] is nil. *)
Definition remove (key : string) (expected : option nat) (c : cache) : bool * cache :=
  match entries c !! key with
  | Some e =>
      if match expected with None => true | Some x => (e =? x)%nat end
      then (true, mkCache (max c) (delete key (entries c)) (order c) (closeEntry e (closedLog c))
                    (pending c) (next c))
      else (false, c)
  | None => (false, c)
  end.

Definition len (c : cache) : nat := size (entries c).

Definition clear (c : cache) : cache :=
  mkCache (max c) ∅ [] (fold_left (fun log e => closeEntry e log) ((map_to_list (entries c)).*2)
                          (closedLog c)) (pending c) (next c).

(** ** The cache as a machine *)

Inductive Event :=
| EvMake
| EvInstall (key : string) (cand : nat)
| EvRemove (key : string) (expected : option nat)
| EvClear.

(** Only the caller holding a candidate installs it. *)
Definition step (c : cache) (e : Event) : cache :=
  match e with
  | EvMake => (newCandidate c).2
  | EvInstall key cand => if bool_decide (cand ∈ pending c) then (install key cand c).2 else c
  | EvRemove key expected => (remove key expected c).2
  | EvClear => clear c
  end.

(** ** Invariant *)

(** Every entry ever made is in exactly one place: with the caller that made it,
    in the cache, or closed; the cache is within its bound and the eviction
    order knows every key. *)
Record inv (c : cache) : Prop := mkInv {
  inv_max : (1 <= max c)%nat;
  inv_size : (size (entries c) <= max c)%nat;
  inv_order : forall k, is_Some (entries c !! k) -> k ∈ order c;
  inv_log : NoDup (closedLog c);
  inv_inj : forall k1 k2 e, entries c !! k1 = Some e -> entries c !! k2 = Some e -> k1 = k2;
  inv_place : forall e, (e < next c)%nat <->
    (e ∈ pending c \/ (exists k, entries c !! k = Some e) \/ e ∈ closedLog c);
  inv_pend : forall e, e ∈ pending c ->
    (forall k, entries c !! k <> Some e) /\ e ∉ closedLog c;
  inv_open : forall k e, entries c !! k = Some e -> e ∉ closedLog c }.

Lemma closeEntry_spec id log :
  NoDup log -> NoDup (closeEntry id log) /\ forall e, e ∈ closeEntry id log <-> e = id \/ e ∈ log.
Proof.
  intros Hd. unfold closeEntry. case_if; to_prop.
  - split; [done|]. intros e. split; [by right|]. by intros [->|].
  - split.
    + apply NoDup_app. split_and!; [done| |apply NoDup_singleton].
      intros e He ->%list_elem_of_singleton. done.
    + intros e. rewrite elem_of_app, list_elem_of_singleton. tauto.
Qed.

Lemma evictOrder_spec ord es :
  (forall k, is_Some (es !! k) -> k ∈ ord) ->
  let '((v, ord'), es') := evictOrder ord es in
  match v with
  | None => es = ∅ /\ es' = es
  | Some e => exists k, es !! k = Some e /\ es' = delete k es
  end /\ (forall k, is_Some (es' !! k) -> k ∈ ord').
Proof.
  induction ord as [|k ord IH]; intros Ho; simpl.
  - assert (es = ∅) as ->.
    { apply map_eq. intros k. rewrite lookup_empty. destruct (es !! k) eqn:E; [|done].
      assert (k ∈ []) as Hk by (apply Ho; eauto). by apply elem_of_nil in Hk. }
    split; [done|]. intros k. rewrite lookup_empty. by intros [].
  - destruct (es !! k) as [e|] eqn:E.
    + split; [by exists k|]. intros k'. destruct (decide (k' = k)) as [->|Hne].
      * rewrite lookup_delete_eq. by intros [].
      * rewrite lookup_delete_ne by done. intros Hk.
        apply Ho in Hk. apply elem_of_cons in Hk as [?|?]; done.
    + apply IH. intros k' Hk. assert (k' ∈ k :: ord) as Hk' by auto.
      apply elem_of_cons in Hk' as [->|?]; [|done]. rewrite E in Hk. by destruct Hk.
Qed.

Lemma inv_new m : inv (newBoundedTransportCache m).
Proof.
  split; unfold newBoundedTransportCache; simpl; try done.
  - case_if; to_prop; lia.
  - rewrite map_size_empty. lia.
  - intros k. rewrite lookup_empty. by intros [].
  - constructor.
  - intros e. split; [lia|]. intros [He|[[k Hk]|He]].
    + by apply elem_of_empty in He.
    + by rewrite lookup_empty in Hk.
    + by apply elem_of_nil in He.
Qed.

Lemma inv_make c : inv c -> inv (newCandidate c).2.
Proof.
  intros [H1 H2 H3 H4 H5 H6 H7 H8]. split; simpl; try done.
  - intros e. specialize (H6 e). rewrite elem_of_union, elem_of_singleton. split.
    + intros He. destruct (decide (e = next c)) as [->|]; [tauto|].
      destruct H6 as [H6 _]. destruct H6 as [?|[?|?]]; [lia|tauto..].
    + intros [[->|?]|Hr]; [lia|..]; assert (e < next c)%nat by tauto; lia.
  - intros e. rewrite elem_of_union, elem_of_singleton. intros [->|He]; [|by apply H7].
    assert (~ (next c < next c)%nat) as Hn by lia. rewrite H6 in Hn. split; [|tauto].
    intros k Hk. apply Hn. right; left. by exists k.
Qed.

(** *** Removing one entry and closing it *)

Lemma inv_close_entry c k e :
  inv c -> entries c !! k = Some e ->
  inv (mkCache (max c) (delete k (entries c)) (order c) (closeEntry e (closedLog c))
         (pending c) (next c)).
Proof.
  intros [H1 H2 H3 H4 H5 H6 H7 H8] Hk. destruct (closeEntry_spec e (closedLog c) H4) as [Hd Hin].
  split; simpl; try done.
  - rewrite map_size_delete_Some by eauto. lia.
  - intros k' Hk'. destruct (decide (k' = k)) as [->|Hne]; [by eauto|].
    rewrite lookup_delete_ne in Hk' by done. auto.
  - intros k1 k2 e' E1 E2. apply lookup_delete_Some in E1 as [_ E1], E2 as [_ E2]. by eapply H5.
  - intros e'. rewrite H6, Hin. split.
    + intros [?|[[k' Hk']|?]]; [tauto| |tauto]. destruct (decide (k' = k)) as [->|Hne].
      * rewrite Hk in Hk'. injection Hk' as ->. tauto.
      * right; left. exists k'. by rewrite lookup_delete_ne.
    + intros [?|[[k' Hk']|[->|?]]]; [tauto| |by eauto|tauto].
      apply lookup_delete_Some in Hk' as [_ Hk']. by eauto.
  - intros e' He'. destruct (H7 e' He') as [Hn Hc]. split.
    + intros k' E'. apply lookup_delete_Some in E' as [_ E']. by apply (Hn k').
    + rewrite Hin. intros [->|?]; [by apply (Hn k)|done].
  - intros k' e' E'. apply lookup_delete_Some in E' as [Hne E']. rewrite Hin.
    intros [->|?]; [apply Hne; by eapply H5|by eapply H8].
Qed.

(** Dropping keys without entry from the eviction order. *)
Lemma inv_set_order c ord :
  inv c -> (forall k, is_Some (entries c !! k) -> k ∈ ord) ->
  inv (mkCache (max c) (entries c) ord (closedLog c) (pending c) (next c)).
Proof. intros [H1 H2 H3 H4 H5 H6 H7 H8] Ho. by split. Qed.

(** A losing candidate is closed. *)
Lemma inv_drop c cand :
  inv c -> cand ∈ pending c ->
  inv (mkCache (max c) (entries c) (order c) (closeEntry cand (closedLog c))
         (pending c ∖ {[cand]}) (next c)).
Proof.
  intros [H1 H2 H3 H4 H5 H6 H7 H8] Hc. destruct (closeEntry_spec cand (closedLog c) H4) as [Hd Hin].
  destruct (H7 cand Hc) as [Hn Hnl]. split; simpl; try done.
  - intros e. rewrite H6, Hin, elem_of_difference, elem_of_singleton.
    destruct (decide (e = cand)) as [->|]; tauto.
  - intros e. rewrite elem_of_difference, elem_of_singleton, Hin. intros [He Hne].
    destruct (H7 e He). split; [done|]. intros [->|?]; done.
  - intros k e He. rewrite Hin. intros [->|?]; [by apply (Hn k)|by eapply H8].
Qed.

(** The winning candidate enters the cache. *)
Lemma inv_add c key cand :
  inv c -> cand ∈ pending c -> entries c !! key = None -> (size (entries c) < max c)%nat ->
  inv (mkCache (max c) (<[key := cand]> (entries c)) (order c ++ [key]) (closedLog c)
         (pending c ∖ {[cand]}) (next c)).
Proof.
  intros [H1 H2 H3 H4 H5 H6 H7 H8] Hc Hk Hs. destruct (H7 cand Hc) as [Hn Hnl].
  split; simpl; try done.
  - rewrite map_size_insert_None by done. lia.
  - intros k Hk'. rewrite elem_of_app, list_elem_of_singleton.
    destruct (decide (k = key)) as [->|Hne]; [by right|].
    rewrite lookup_insert_ne in Hk' by done. left. auto.
  - intros k1 k2 e E1 E2.
    apply lookup_insert_Some in E1 as [[K1 X1]|[K1 X1]], E2 as [[K2 X2]|[K2 X2]].
    + congruence.
    + destruct (Hn k2). congruence.
    + destruct (Hn k1). congruence.
    + by eapply H5.
  - intros e. rewrite H6, elem_of_difference, elem_of_singleton.
    destruct (decide (e = cand)) as [->|Hne].
    + split; [|tauto]. intros _. right; left. exists key. by rewrite lookup_insert_eq.
    + assert ((exists k, entries c !! k = Some e) <->
              (exists k, <[key:=cand]> (entries c) !! k = Some e)) as ->; [|tauto].
      split; intros [k Hk']; exists k.
      * rewrite lookup_insert_ne; [done|]. intros <-. congruence.
      * apply lookup_insert_Some in Hk' as [[_ ?]|[_ ?]]; congruence.
  - intros e. rewrite elem_of_difference, elem_of_singleton. intros [He Hne].
    destruct (H7 e He) as [Hn' ?]. split; [|done]. intros k E'.
    apply lookup_insert_Some in E' as [[_ ?]|[_ ?]]; [congruence|by apply (Hn' k)].
  - intros k e E'. apply lookup_insert_Some in E' as [[_ <-]|[_ ?]]; [done|by eapply H8].
Qed.

Lemma inv_install c key cand :
  inv c -> cand ∈ pending c ->
  inv (install key cand c).2 /\ entries (install key cand c).2 !! key = Some (install key cand c).1.
Proof.
  intros I Hc. unfold install. destruct (entries c !! key) as [e|] eqn:Ek.
  { split; [by apply inv_drop|done]. }
  destruct (Nat.leb_spec (max c) (size (entries c))) as [Hfull|Hroom]; simpl.
  - pose proof (evictOrder_spec (order c) (entries c) (inv_order c I)) as Hev.
    destruct (evictOrder (order c) (entries c)) as [[[v|] ord] es]; simpl.
    + destruct Hev as [(k & Hk & ->) Ho]. split; [|by rewrite lookup_insert_eq].
      pose proof (inv_close_entry c k v I Hk) as I1. apply (inv_set_order _ ord) in I1; [|done].
      apply (inv_add _ key cand) in I1; simpl in *; [done|done| |].
      * rewrite lookup_delete_ne; [done|]. intros ->. congruence.
      * rewrite map_size_delete_Some by eauto. pose proof (inv_max _ I). pose proof (inv_size _ I). lia.
    + destruct Hev as [[He ->] Ho]. pose proof (inv_max _ I). rewrite He, map_size_empty in Hfull. lia.
  - split; [|by rewrite lookup_insert_eq]. by apply inv_add.
Qed.

Lemma inv_remove c key ex : inv c -> inv (remove key ex c).2.
Proof.
  intros I. unfold remove. destruct (entries c !! key) eqn:E; [|done]. case_if; [|done].
  by apply inv_close_entry.
Qed.

(** Closing every entry of a list that holds no entry twice. *)
Lemma closeAll_spec l log :
  NoDup log ->
  NoDup (fold_left (fun log e => closeEntry e log) l log) /\
  forall e, e ∈ fold_left (fun log e => closeEntry e log) l log <-> e ∈ l \/ e ∈ log.
Proof.
  revert log. induction l as [|x l IH]; intros log Hd; simpl.
  - split; [done|]. intros e. split; [by right|]. intros [He|]; [|done]. by apply elem_of_nil in He.
  - destruct (closeEntry_spec x log Hd) as [Hd1 Hin1]. destruct (IH _ Hd1) as [Hd2 Hin2].
    split; [done|]. intros e. rewrite Hin2, Hin1, elem_of_cons. tauto.
Qed.

Lemma cache_inv_clear c : inv c -> inv (clear c) /\ entries (clear c) = ∅ /\
  forall k e, entries c !! k = Some e -> e ∈ closedLog (clear c).
Proof.
  intros [H1 H2 H3 H4 H5 H6 H7 H8].
  destruct (closeAll_spec (map_to_list (entries c)).*2 (closedLog c) H4) as [Hd Hin].
  assert (forall e, e ∈ (map_to_list (entries c)).*2 <-> exists k, entries c !! k = Some e) as Hl.
  { intros e. rewrite list_elem_of_fmap. split.
    - intros ([k x] & -> & Hk). exists k. by apply elem_of_map_to_list.
    - intros [k Hk]. exists (k, e). split; [done|]. by apply elem_of_map_to_list. }
  split; [|split; [done|]].
  - split; simpl; try done.
    + rewrite map_size_empty. lia.
    + intros k. rewrite lookup_empty. by intros [].
    + intros e. rewrite H6, Hin, Hl. split; [tauto|]. intros [?|[[k Hk]|?]]; [tauto| |tauto].
      by rewrite lookup_empty in Hk.
    + intros e He. destruct (H7 e He) as [Hn ?]. split; [intros k; by rewrite lookup_empty|].
      rewrite Hin, Hl. intros [[k Hk]|?]; [by apply (Hn k)|done].
  - intros k e Hk. simpl. rewrite Hin, Hl. left. by exists k.
Qed.

Lemma cache_inv_step c e : inv c -> inv (step c e).
Proof.
  intros I. destruct e as [|key cand|key ex|]; simpl.
  - by apply inv_make.
  - case_if; [|done]. to_prop. by apply inv_install.
  - by apply inv_remove.
  - by apply cache_inv_clear.
Qed.

(** ** Properties *)

(** C35: over every interleaving of callers the cache stays within its bound, and
    no transport leaks or is handed out closed: every entry a factory made is
    either still with its caller, or in the cache and open, or closed, and its
    close action runs at most once; the entry [getOrCreate] answers is the one
    the cache holds for the key. *)
Theorem transports_never_leak m evs :
  let c := run step (newBoundedTransportCache m) evs in
  (size (entries c) <= max c)%nat /\ NoDup (closedLog c) /\
  (forall e, (e < next c)%nat ->
     e ∈ pending c \/ (exists k, entries c !! k = Some e) \/ e ∈ closedLog c) /\
  (forall k e, entries c !! k = Some e -> e ∉ closedLog c) /\
  (forall key cand, cand ∈ pending c ->
     entries (install key cand c).2 !! key = Some (install key cand c).1) /\
  (forall k e, entries c !! k = Some e -> e ∈ closedLog (clear c)).
Proof.
  intros c. assert (inv c) as I
    by (apply (run_invariant step inv); [apply inv_new|intros; by apply cache_inv_step]).
  split_and!.
  - apply I.
  - apply I.
  - intros e. apply (inv_place _ I).
  - apply I.
  - intros key cand Hc. by apply inv_install.
  - by apply cache_inv_clear.
Qed.

(** ** What [remove] leaves behind

    [remove] does not take its key out of [order]: every removal and re-creation
    of the same key makes [order] one longer, with the cache still holding a
    single entry, and a re-created entry can be evicted before older ones. *)
Definition recreate (key : string) (c : cache) : cache :=
  (getOrCreate key true (remove key None c).2).2.

Lemma getOrCreate_fresh key c :
  entries c !! key = None -> (size (entries c) < max c)%nat ->
  let c' := (getOrCreate key true c).2 in
  entries c' = <[key := next c]> (entries c) /\ order c' = order c ++ [key] /\ max c' = max c.
Proof.
  intros Hk Hs. unfold getOrCreate, get. rewrite Hk. simpl. unfold install. simpl. rewrite Hk.
  by destruct (Nat.leb_spec (max c) (size (entries c))); [lia|].
Qed.

Lemma recreate_order key c :
  (size (entries c) <= 1)%nat -> (2 <= max c)%nat -> is_Some (entries c !! key) ->
  order (recreate key c) = order c ++ [key] /\ size (entries (recreate key c)) = size (entries c) /\
  max (recreate key c) = max c /\ is_Some (entries (recreate key c) !! key).
Proof.
  intros Hs Hm [e He]. unfold recreate.
  assert (let c1 := (remove key None c).2 in entries c1 = delete key (entries c) /\
    order c1 = order c /\ max c1 = max c) as (H1 & H2 & H3) by (unfold remove; by rewrite He).
  destruct (getOrCreate_fresh key (remove key None c).2) as (-> & -> & ->).
  - rewrite H1. apply lookup_delete_eq.
  - rewrite H1, H3, map_size_delete_Some by eauto. lia.
  - rewrite H1, H2, H3, insert_delete_eq. split_and!; [done| |done|].
    + by rewrite map_size_insert_Some by eauto.
    + rewrite lookup_insert_eq. by eauto.
Qed.

Theorem order_grows_without_bound key n :
  let c := Nat.iter n (recreate key) (getOrCreate key true (newBoundedTransportCache 64)).2 in
  length (order c) = S n /\ size (entries c) = 1%nat.
Proof.
  cbv zeta. assert (forall n, let c := Nat.iter n (recreate key)
      (getOrCreate key true (newBoundedTransportCache 64)).2 in
    length (order c) = S n /\ size (entries c) = 1%nat /\ max c = 64%nat /\
    is_Some (entries c !! key)) as H.
  { clear n. induction n as [|n IH]; cbv zeta in *.
    - destruct (getOrCreate_fresh key (newBoundedTransportCache 64)) as (H1 & H2 & H3).
      + apply lookup_empty.
      + unfold newBoundedTransportCache. cbn [entries max]. rewrite map_size_empty. vm_compute. lia.
      + cbn [Nat.iter nat_rect]. rewrite H1, H2, H3. split_and!; [done| |done|].
        * rewrite map_size_insert_None by apply lookup_empty. cbn [entries newBoundedTransportCache].
          by rewrite map_size_empty.
        * rewrite lookup_insert_eq. by eauto.
    - simpl. destruct IH as (Ho & Hs & Hm & Hk).
      destruct (recreate_order key (Nat.iter n (recreate key)
        (getOrCreate key true (newBoundedTransportCache 64)).2)) as (-> & -> & -> & ?);
        [lia|lia|done|]. rewrite length_app, Ho. simpl. split_and!; [lia|done..]. }
  destruct (H n) as (? & ? & _). done.
Qed.

Example newest_evicted_first :
  let c := (getOrCreate "A" true (newBoundedTransportCache 2)).2 in
  let c := recreate "A" (getOrCreate "B" true c).2 in
  let c := (getOrCreate "C" true c).2 in
  get "A" c = None /\ is_Some (get "B" c).
Proof. vm_compute. eauto. Qed.

End Tc.
