(* ===== verification/Tunnels.v ===== *)
(** * Tunnels: [internal/proxy] tunnel.go, admission.go, relay.go

    The life of a CONNECT tunnel: admission slots of the listener, the
    reservation that closes the race between hijacking a connection and
    [Server.Shutdown], the registry of managed tunnels, and the idle loop of
    the relay.  Channels and tunnels are pointers; they are numbers here, and
    [closedCh] holds the closed channels. *)

From S2P Require Export Prelude.

Module Tun.

Record t := mk {
  tunnelShuttingDown : bool;
  tunnelPending : Z;
  tunnels : gset nat;
  tunnelZero : nat;
  closedCh : gset nat;
  nextCh : nat;
  nextTun : nat;
  active : Z;
  connsClosed : gset nat;    (* tunnels whose two connections are closed *)
  refused : nat }.           (* connection pairs closed without becoming a tunnel *)

(** [New] starts with [closedSignal()]. *)
Definition init : t := mk false 0 ∅ 0 {[0%nat]} 1 0 0 ∅ 0.

Definition signalTunnelZeroLocked (s : t) : t :=
  if negb (tunnelPending s =? 0) || negb (size (tunnels s) =? 0)%nat then s
  else mk (tunnelShuttingDown s) (tunnelPending s) (tunnels s) (tunnelZero s)
         ({[tunnelZero s]} ∪ closedCh s) (nextCh s) (nextTun s) (active s) (connsClosed s)
         (refused s).

Definition set_pending (s : t) (n : Z) : t :=
  mk (tunnelShuttingDown s) n (tunnels s) (tunnelZero s) (closedCh s) (nextCh s) (nextTun s)
    (active s) (connsClosed s) (refused s).

Definition reserveTunnel (s : t) : bool * t :=
  if tunnelShuttingDown s then (false, s) else
  let s := if (tunnelPending s =? 0) && (size (tunnels s) =? 0)%nat
           then mk (tunnelShuttingDown s) (tunnelPending s) (tunnels s) (nextCh s) (closedCh s)
                  (S (nextCh s)) (nextTun s) (active s) (connsClosed s) (refused s)
           else s in
  (true, set_pending s (tunnelPending s + 1)).

Definition decPending (s : t) : t :=
  if 0 <? tunnelPending s then set_pending s (tunnelPending s - 1) else s.

Definition cancelTunnelReservation (s : t) : t := signalTunnelZeroLocked (decPending s).

Definition activateManagedTunnel (s : t) : option nat * t :=
  let s := decPending s in
  if tunnelShuttingDown s then
    let s := signalTunnelZeroLocked s in
    (None, mk (tunnelShuttingDown s) (tunnelPending s) (tunnels s) (tunnelZero s) (closedCh s)
             (nextCh s) (nextTun s) (active s) (connsClosed s) (S (refused s)))
  else
    let id := nextTun s in
    (Some id, mk (tunnelShuttingDown s) (tunnelPending s) ({[id]} ∪ tunnels s) (tunnelZero s)
                (closedCh s) (nextCh s) (S id) (active s + 1) (connsClosed s) (refused s)).

Definition finishTunnel (id : nat) (s : t) : t :=
  if bool_decide (id ∈ tunnels s) then
    signalTunnelZeroLocked
      (mk (tunnelShuttingDown s) (tunnelPending s) (tunnels s ∖ {[id]}) (tunnelZero s)
         (closedCh s) (nextCh s) (nextTun s) (active s - 1) (connsClosed s) (refused s))
  else s.

(** [managedTunnel.Close]; [closeOnce] makes a second call do nothing. *)
Definition closeTunnel (id : nat) (s : t) : t :=
  mk (tunnelShuttingDown s) (tunnelPending s) (tunnels s) (tunnelZero s) (closedCh s)
    (nextCh s) (nextTun s) (active s) ({[id]} ∪ connsClosed s) (refused s).

Definition closeAndFinishTunnel (id : nat) (s : t) : t := finishTunnel id (closeTunnel id s).

(** [beginTunnelShutdown]: the channel to wait on, the tunnels registered under
    the lock, and the state with each of them closed. *)
Definition beginTunnelShutdown (s : t) : nat * t :=
  (tunnelZero s,
   mk true (tunnelPending s) (tunnels s) (tunnelZero s) (closedCh s) (nextCh s) (nextTun s)
     (active s) (tunnels s ∪ connsClosed s) (refused s)).

(** [waitTunnelDrain] can return [nil]. *)
Definition drained (done : nat) (s : t) : bool := bool_decide (done ∈ closedCh s).

Inductive Event :=
| EvReserve
| EvCancel
| EvActivate
| EvCloseTunnel (id : nat)
| EvFinish (id : nat)
| EvCloseAndFinish (id : nat)
| EvShutdown.

(** Only the holder of a reservation cancels or activates it. *)
Definition step (s : t) (e : Event) : t :=
  match e with
  | EvReserve => (reserveTunnel s).2
  | EvCancel => if 0 <? tunnelPending s then cancelTunnelReservation s else s
  | EvActivate => if 0 <? tunnelPending s then (activateManagedTunnel s).2 else s
  | EvCloseTunnel id => if bool_decide (id ∈ tunnels s) then closeTunnel id s else s
  | EvFinish id => finishTunnel id s
  | EvCloseAndFinish id => if bool_decide (id ∈ tunnels s) then closeAndFinishTunnel id s else s
  | EvShutdown => (beginTunnelShutdown s).2
  end.

(** ** Lemmas *)

Record inv (s : t) : Prop := mkInv {
  inv_zero : tunnelZero s ∈ closedCh s <-> tunnelPending s = 0 /\ tunnels s = ∅;
  inv_pending : 0 <= tunnelPending s;
  inv_next : (tunnelZero s < nextCh s)%nat;
  inv_closed : forall c, c ∈ closedCh s -> (c < nextCh s)%nat;
  inv_tun : forall i, i ∈ tunnels s -> (i < nextTun s)%nat;
  inv_active : active s = Z.of_nat (size (tunnels s)) }.

Lemma size0 (X : gset nat) : (size X =? 0)%nat = true <-> X = ∅.
Proof.
  rewrite Nat.eqb_eq. split; [|intros ->; apply size_empty].
  intros H. apply leibniz_equiv. by apply size_empty_iff.
Qed.

(** [signalTunnelZeroLocked] restores the channel's meaning after a decrement. *)
Lemma signal_inv s :
  0 <= tunnelPending s -> (tunnelZero s < nextCh s)%nat ->
  (forall c, c ∈ closedCh s -> (c < nextCh s)%nat) ->
  (forall i, i ∈ tunnels s -> (i < nextTun s)%nat) ->
  active s = Z.of_nat (size (tunnels s)) -> 
  (tunnelZero s ∈ closedCh s -> tunnelPending s = 0 /\ tunnels s = ∅) ->
  inv (signalTunnelZeroLocked s).
Proof.
  intros Hp Hn Hc Ht Ha Hz. unfold signalTunnelZeroLocked. case_if.
  - split; try done. split; [done|]. intros [H1 H2].
    rewrite H1, (proj2 (size0 _) H2) in E. done.
  - apply orb_false_iff in E as [E1 E2]. apply negb_false_iff in E1, E2. to_prop.
    apply size0 in E2. split; simpl; try done.
    + split; [done|]. intros _. set_solver.
    + intros c. rewrite elem_of_union, elem_of_singleton. intros [->|?]; auto.
Qed.

Lemma dec_inv s :
  inv s -> 0 < tunnelPending s ->
  inv (signalTunnelZeroLocked (set_pending s (tunnelPending s - 1))).
Proof.
  intros [Hz Hp Hn Hc Ht Ha] Hlt. apply signal_inv; simpl; try assumption; [lia|].
  intros H. apply Hz in H. lia.
Qed.

Lemma step_inv s e : inv s -> inv (step s e).
Proof.
  intros I. pose proof I as [Hz Hp Hn Hc Ht Ha]. destruct e as [| | |id|id|id|]; simpl.
  - unfold reserveTunnel. destruct (tunnelShuttingDown s); [by split|]. simpl.
    destruct (tunnelPending s =? 0) eqn:E0; [destruct (size (tunnels s) =? 0)%nat eqn:Es|]; simpl;
      to_prop; split; simpl; try done; try lia.
    + split; [intros H; apply Hc in H; lia|lia].
    + intros c Hin. apply Hc in Hin. lia.
    + rewrite Hz. split; [|lia]. intros [_ H]. apply size0 in H. congruence.
    + rewrite Hz. split; [lia|lia].
  - case_if; [|by split]. to_prop. unfold cancelTunnelReservation, decPending.
    rewrite (proj2 (Z.ltb_lt _ _) E). by apply dec_inv.
  - case_if; [|by split]. to_prop. unfold activateManagedTunnel, decPending.
    rewrite (proj2 (Z.ltb_lt _ _) E). simpl. destruct (tunnelShuttingDown s).
    + destruct (dec_inv s I E). by split.
    + simpl. split; simpl; try done; [|lia| |].
      * rewrite Hz. split; [lia|]. intros [_ H]. set_solver.
      * intros i. rewrite elem_of_union, elem_of_singleton. intros [->|Hi]; [lia|].
        apply Ht in Hi. lia.
      * rewrite size_union, size_singleton, Ha; [lia|].
        apply disjoint_singleton_l. intros Hi. apply Ht in Hi. lia.
  - case_if; by split.
  - unfold finishTunnel. case_if; [|by split]. to_prop. apply signal_inv; simpl; try done.
    + intros i. rewrite elem_of_difference. intros [? _]. auto.
    + rewrite size_difference, size_singleton by set_solver. rewrite Ha.
      assert (size (tunnels s) <> 0%nat); [|lia]. intros H0. apply size_empty_inv in H0. set_solver.
    + rewrite Hz. set_solver.
  - case_if; [|by split]. unfold closeAndFinishTunnel, finishTunnel, closeTunnel. simpl.
    rewrite E. to_prop. apply signal_inv; simpl; try done.
    + intros i. rewrite elem_of_difference. intros [? _]. auto.
    + rewrite size_difference, size_singleton by set_solver. rewrite Ha.
      assert (size (tunnels s) <> 0%nat); [|lia]. intros H0. apply size_empty_inv in H0. set_solver.
    + rewrite Hz. set_solver.
  - by split.
Qed.

Lemma init_inv : inv init.
Proof. split; unfold init; simpl; try done; set_solver by lia. Qed.

Lemma signal_frame s :
  let s' := signalTunnelZeroLocked s in
  tunnelShuttingDown s' = tunnelShuttingDown s /\ tunnelPending s' = tunnelPending s /\
  tunnels s' = tunnels s /\ tunnelZero s' = tunnelZero s /\ connsClosed s' = connsClosed s /\
  nextTun s' = nextTun s /\ nextCh s' = nextCh s.
Proof. unfold signalTunnelZeroLocked. by case_if. Qed.

(** After shutdown began nothing is registered any more. *)
Definition shrinks (s s' : t) : Prop :=
  tunnelShuttingDown s' = true /\ tunnelZero s' = tunnelZero s /\ tunnels s' ⊆ tunnels s /\
  tunnelPending s' <= tunnelPending s /\ connsClosed s ⊆ connsClosed s'.

Lemma step_shrinks s e : tunnelShuttingDown s = true -> shrinks s (step s e).
Proof.
  intros Hs. unfold shrinks. destruct e as [| | |id|id|id|]; simpl.
  - unfold reserveTunnel. by rewrite Hs.
  - case_if; [|done]. to_prop. unfold cancelTunnelReservation, decPending.
    rewrite (proj2 (Z.ltb_lt _ _) E).
    destruct (signal_frame (set_pending s (tunnelPending s - 1))) as (->&->&->&->&->&_).
    simpl. by split_and!; [..|lia|].
  - case_if; [|done]. to_prop. unfold activateManagedTunnel, decPending.
    rewrite (proj2 (Z.ltb_lt _ _) E). simpl. rewrite Hs. simpl.
    destruct (signal_frame (set_pending s (tunnelPending s - 1))) as (->&->&->&->&->&_).
    simpl. by split_and!; [..|lia|].
  - case_if; [|done]. simpl. split_and!; [done|done|done|done|set_solver].
  - unfold finishTunnel. case_if; [|done]. edestruct signal_frame as (->&->&->&->&->&_). simpl.
    split_and!; try done. set_solver.
  - case_if; [|done]. unfold closeAndFinishTunnel, finishTunnel, closeTunnel. simpl. rewrite E.
    edestruct signal_frame as (->&->&->&->&->&_). simpl. split_and!; try done; set_solver.
  - split_and!; try done. set_solver.
Qed.

Lemma run_shrinks s evs : tunnelShuttingDown s = true -> shrinks s (run step s evs).
Proof.
  revert s. induction evs as [|e evs IH]; intros s Hs; [by split_and!|].
  change (run step s (e :: evs)) with (run step (step s e) evs).
  destruct (step_shrinks s e Hs) as (H1 & H2 & H3 & H4 & H5).
  destruct (IH (step s e) H1) as (G1 & G2 & G3 & G4 & G5).
  split_and!; [done|congruence|set_solver|lia|set_solver].
Qed.

(** ** admission.go

    The slots channel is shared by the server's listeners.  [Accept] on an
    accepted connection either takes a slot or, once the listener is closed,
    drops the connection; which one when both are possible is the event's
    choice. *)

Record admission := mkAdm {
  capacity : nat;            (* cap(l.slots) *)
  used : nat;                (* len(l.slots) *)
  listenerDone : bool;
  admitted : gset nat;       (* connections returned by Accept *)
  released : gset nat;       (* those whose [releaseOnce] ran *)
  nextConn : nat }.

Definition newAdmission (n : nat) : admission := mkAdm n 0 false ∅ ∅ 0.

(** [l.slots <- struct{}{}] succeeded. *)
Definition acceptSlot (a : admission) : option (nat * admission) :=
  if (used a <? capacity a)%nat then
    Some (nextConn a, mkAdm (capacity a) (S (used a)) (listenerDone a)
                        ({[nextConn a]} ∪ admitted a) (released a) (S (nextConn a)))
  else None.

Definition closeListener (a : admission) : admission :=
  mkAdm (capacity a) (used a) true (admitted a) (released a) (nextConn a).

(** [admissionConn.Close]: the release runs once. *)
Definition closeConn (id : nat) (a : admission) : admission :=
  if bool_decide (id ∈ released a) then a
  else mkAdm (capacity a) (pred (used a)) (listenerDone a) (admitted a)
         ({[id]} ∪ released a) (nextConn a).

Inductive AdmEvent := AdAccept | AdCloseConn (id : nat) | AdCloseListener.

Definition admStep (a : admission) (e : AdmEvent) : admission :=
  match e with
  | AdAccept => match acceptSlot a with Some (_, a') => a' | None => a end
  | AdCloseConn id => if bool_decide (id ∈ admitted a) then closeConn id a else a
  | AdCloseListener => closeListener a
  end.

Record adm_inv (a : admission) : Prop := mkAdmInv {
  ad_sub : released a ⊆ admitted a;
  ad_used : used a = size (admitted a ∖ released a);
  ad_cap : (used a <= capacity a)%nat;
  ad_next : forall i, i ∈ admitted a -> (i < nextConn a)%nat }.

Lemma admStep_inv a e : adm_inv a -> adm_inv (admStep a e).
Proof.
  intros I. pose proof I as [Hs Hu Hc Hn]. destruct e as [|id|]; simpl; [| |by split].
  - unfold acceptSlot. destruct (Nat.ltb_spec (used a) (capacity a)); [|done].
    split; simpl; [set_solver| |lia|].
    + assert (nextConn a ∉ admitted a) by (intros Hi%Hn; lia).
      replace (({[nextConn a]} ∪ admitted a) ∖ released a)
        with ({[nextConn a]} ∪ (admitted a ∖ released a)) by set_solver.
      rewrite size_union by set_solver. rewrite size_singleton, Hu. done.
    + intros i. rewrite elem_of_union, elem_of_singleton. intros [->|Hi%Hn]; lia.
  - case_if; [|done]. to_prop. unfold closeConn. case_if; [done|]. to_prop.
    assert (size (admitted a ∖ released a) = S (size (admitted a ∖ ({[id]} ∪ released a)))) as Hsz.
    { replace (admitted a ∖ released a) with ({[id]} ∪ (admitted a ∖ ({[id]} ∪ released a))).
      - rewrite size_union by set_solver. by rewrite size_singleton.
      - apply leibniz_equiv. intros x. destruct (decide (x = id)); set_solver. }
    split; simpl; [set_solver|lia|lia|done].
Qed.

(** ** relay.go *)

(** What one [io.Copy] of [copyDirection] ends with; a timeout carries the time
    since the tunnel-wide last activity. *)
Inductive CopyEnd := CopyEOF | CopyTimeout (since : Duration) | CopyError.

Definition graceOf (idle : Duration) : Duration :=
  let grace := Z.quot idle 10 in
  let grace := if 100 * Millisecond <? grace then 100 * Millisecond else grace in
  if grace <=? 0 then Nanosecond else grace.

(** The loop, with the read deadline each copy used; [None] while copying. *)
Fixpoint copyLoop (idle wait : Duration) (graced : bool) (ends : list CopyEnd)
  : list Duration * option bool :=
  match ends with
  | [] => ([], None)
  | e :: ends' =>
      match e with
      | CopyEOF => ([wait], Some true)
      | CopyError => ([wait], Some false)
      | CopyTimeout since =>
          if since <? idle then
            let '(ws, r) := copyLoop idle idle false ends' in (wait :: ws, r)
          else if negb graced then
            let '(ws, r) := copyLoop idle (graceOf idle) true ends' in (wait :: ws, r)
          else ([wait], Some false)
      end
  end.

(** Without idle tracking a single raw copy decides. *)
Definition copyDirection (idle : Duration) (ends : list CopyEnd) : list Duration * option bool :=
  if idle <=? 0 then
    ([], match ends with
         | [] => None
         | CopyEOF :: _ => Some true
         | _ => Some false
         end)
  else copyLoop idle idle false ends.

Inductive RelayAction := HalfClose (toB : bool) | CloseBoth.

(** [relay]: the two directions end in some order, cleanly or not. *)
Definition relay (ends : list (bool * bool)) : list RelayAction :=
  map (fun '(toB, clean) => if clean : bool then HalfClose toB else CloseBoth) ends ++ [CloseBoth].

Lemma copyLoop_idle idle ends wait graced ws :
  copyLoop idle wait graced ends = (ws, Some false) ->
  (exists pre post, ends = pre ++ CopyError :: post) \/
  (exists s rest, ends = CopyTimeout s :: rest /\ idle <= s /\ graced = true) \/
  (exists pre s1 s2 post, ends = pre ++ CopyTimeout s1 :: CopyTimeout s2 :: post /\
     idle <= s1 /\ idle <= s2).
Proof.
  revert wait graced ws. induction ends as [|e ends IH]; intros wait graced ws; simpl; [done|].
  assert (forall w g ws', copyLoop idle w g ends = (ws', Some false) ->
    (exists pre post, e :: ends = pre ++ CopyError :: post) \/
    (exists s rest, ends = CopyTimeout s :: rest /\ idle <= s /\ g = true) \/
    (exists pre s1 s2 post, e :: ends = pre ++ CopyTimeout s1 :: CopyTimeout s2 :: post /\
       idle <= s1 /\ idle <= s2)) as Hrec.
  { intros w g ws' H. destruct (IH w g ws' H) as [(pre & post & ->)|[?|(pre & s1 & s2 & post & -> & ?)]].
    - left. by exists (e :: pre), post.
    - by right; left.
    - right; right. by exists (e :: pre), s1, s2, post. }
  destruct e as [|since|].
  - done.
  - destruct (Z.ltb_spec since idle) as [Hlt|Hge]; [|destruct graced; simpl].
    + destruct (copyLoop idle idle false ends) as [ws' r] eqn:E. intros [= _ ->].
      destruct (Hrec _ _ _ E) as [?|[(? & ? & _ & _ & ?)|?]]; [by left|done|by right; right].
    + intros _. right; left. by exists since, ends.
    + destruct (copyLoop idle (graceOf idle) true ends) as [ws' r] eqn:E. intros [= _ ->].
      destruct (Hrec _ _ _ E) as [?|[(s & rest & -> & ? & _)|?]]; [by left| |by right; right].
      right; right. by exists [], since, s, rest.
  - intros _. left. by exists [], ends.
Qed.

(** ** Properties *)

(** C38: [Shutdown] drains the tunnels: from the moment it begins no reservation
    succeeds and no tunnel is registered, every tunnel registered before has its
    two connections closed, and the channel it waits on is the final one: it is
    closed exactly when no reservation and no tunnel is left. *)
Theorem tunnel_shutdown_drains before after :
  let s := run step init before in
  let '(done, s1) := beginTunnelShutdown s in
  let s2 := run step s1 after in
  (reserveTunnel s2).1 = false /\
  tunnels s2 ⊆ tunnels s /\ tunnels s ⊆ connsClosed s2 /\
  0 <= tunnelPending s2 <= tunnelPending s /\
  drained done s2 = bool_decide (tunnelPending s2 = 0 /\ tunnels s2 = ∅) /\
  active s2 = Z.of_nat (size (tunnels s2)).
Proof.
  intros s. destruct (beginTunnelShutdown s) as [done s1] eqn:E. intros s2.
  assert (inv s) as I by (apply (run_invariant step inv); [apply init_inv|intros; by apply step_inv]).
  assert (s1 = step s EvShutdown /\ done = tunnelZero s1) as [Hs1 Hdone]
    by (unfold beginTunnelShutdown in E; by injection E as <- <-).
  assert (inv s2) as I2.
  { apply (run_invariant step inv); [rewrite Hs1; by apply step_inv|intros; by apply step_inv]. }
  assert (tunnelShuttingDown s1 = true) as Hsd by (by rewrite Hs1).
  destruct (run_shrinks s1 after Hsd) as (H1 & H2 & H3 & H4 & H5). fold s2 in H1, H2, H3, H4, H5.
  split_and!.
  - unfold reserveTunnel. by rewrite H1.
  - etransitivity; [exact H3|]. by rewrite Hs1.
  - etransitivity; [|exact H5]. rewrite Hs1. simpl. set_solver.
  - apply I2.
  - etransitivity; [exact H4|]. by rewrite Hs1.
  - unfold drained. apply bool_decide_ext. rewrite Hdone, <- H2. apply I2.
  - apply I2.
Qed.

(** The admission limit holds over every history of accepts and closes, for
    any number of repeated closes: the connections admitted and not yet closed
    never exceed the slots, and each connection gives back exactly one slot. *)
Theorem admission_bounded n evs :
  let a := run admStep (newAdmission n) evs in
  (size (admitted a ∖ released a) <= n)%nat /\ used a = size (admitted a ∖ released a).
Proof.
  cbv zeta. generalize (run_invariant admStep (fun a => adm_inv a /\ capacity a = n)
    (newAdmission n) evs). generalize (run admStep (newAdmission n) evs). intros a H.
  destruct H as [I <-].
  { split; [|done]. split; simpl; [done|vm_compute; reflexivity|lia|set_solver]. }
  { intros b e [I Hb]. split; [by apply admStep_inv|].
    destruct e; simpl; unfold acceptSlot, closeConn; by repeat case_if. }
  split; [|apply I]. rewrite <- (ad_used _ I). apply I.
Qed.

(** the relay never expires an active tunnel: with idle tracking on, a
    direction gives up only on a real error or after two consecutive deadlines
    both of which found no activity in either direction for the idle time. *)
Theorem relay_idle_expiry idle ends ws :
  0 < idle -> copyDirection idle ends = (ws, Some false) ->
  (exists pre post, ends = pre ++ CopyError :: post) \/
  (exists pre s1 s2 post, ends = pre ++ CopyTimeout s1 :: CopyTimeout s2 :: post /\
     idle <= s1 /\ idle <= s2).
Proof.
  intros Hi. unfold copyDirection. apply Z.leb_gt in Hi as ->. intros H.
  destruct (copyLoop_idle _ _ _ _ _ H) as [?|[(? & ? & _ & _ & ?)|?]]; [by left|done|by right].
Qed.

Lemma relay_idle_expiry_witness :
  exists pre s1 s2 post,
    [CopyTimeout 5; CopyTimeout 60; CopyTimeout 70] =
      pre ++ CopyTimeout s1 :: CopyTimeout s2 :: post /\ 60 <= s1 /\ 60 <= s2.
Proof.
  destruct (relay_idle_expiry 60 [CopyTimeout 5; CopyTimeout 60; CopyTimeout 70] [60; 60; 6]
    ltac:(lia) eq_refl) as [(pre & post & H)|H]; [|exact H].
  exfalso. assert (CopyError ∈ [CopyTimeout 5; CopyTimeout 60; CopyTimeout 70]) as Hin
    by (rewrite H; apply elem_of_app; right; left).
  repeat (apply elem_of_cons in Hin as [Hin|Hin]; [discriminate|]). by apply elem_of_nil in Hin.
Defined.

End Tun.
