(* ===== verification/ReplayBody.v ===== *)
(** * ReplayBody: [internal/proxy/body.go]

    Request bodies kept for replay after an authentication challenge: in memory
    up to a limit, then in a temporary file counted against a spool budget shared
    by all requests.  The reads of the source, the context and the failures of
    the file system are inputs; temporary files are numbers and [files] is the
    directory.  A byte is a [Z]. *)

From S2P Require Export Prelude.

Module Rb.

Definition bytes := list Z.

Definition defaultMaxReplayBodyBytes : Z := Z.shiftl 256 20.
Definition defaultMaxReplaySpoolBytes : Z := Z.shiftl 512 20.

Record replayBodyLimits := mkLimits { memoryBytes : Z; maxBodyBytes : Z }.

(** The process: the budget ([max], [used]) and the temporary directory. *)
Record world := mkWorld {
  bMax : Z; bUsed : Z; files : gmap nat bytes; nextFile : nat }.

Definition newReplayBudget (m : Z) : world := mkWorld (if m <? 0 then 0 else m) 0 ∅ 0.

Definition set_used (w : world) (u : Z) : world := mkWorld (bMax w) u (files w) (nextFile w).
Definition set_files (w : world) (f : gmap nat bytes) : world :=
  mkWorld (bMax w) (bUsed w) f (nextFile w).

(** The compare-and-swap loop of [reserve] is one atomic step. *)
Definition reserve (n : Z) (w : world) : bool * world :=
  if n <=? 0 then (true, w)
  else if (bMax w <? bUsed w) || (bMax w - bUsed w <? n) then (false, w)
  else (true, set_used w (bUsed w + n)).

Definition release (n : Z) (w : world) : world :=
  if n <=? 0 then w else set_used w (bUsed w - n).

Inductive BodyErr :=
| EInvalidLimits | ETooLarge | EQuota | EContext | ECreate | EWrite | ERead | EClose | EClosed
| ERemove.

Record replayableBody := mkBody {
  bData : bytes; bPath : option nat; bSize : Z; bClosed : bool; bReserved : Z }.

(** *** Building a body *)

(** The locals of [newReplayableBodyWithLimits]; [file] and [path] are set
    together, so one field stands for both. *)
Record locals := mkLocals { memory : bytes; path : option nat; reserved : Z; total : Z }.

(** Which file operations of a chunk succeed. *)
Record Faults := mkFaults { createOk : bool; writeMemoryOk : bool; writeChunkOk : bool }.

Definition createTemp (w : world) : nat * world :=
  (nextFile w, mkWorld (bMax w) (bUsed w) (<[nextFile w := []]> (files w)) (S (nextFile w))).

Definition append (p : nat) (data : bytes) (w : world) : world :=
  set_files w (<[p := default [] (files w !! p) ++ data]> (files w)).

(** [writeChunk]; what a failed write left in the file is not tracked, since the
    file is never read again. *)
Definition writeChunk (lim : replayBodyLimits) (f : Faults) (chunk : bytes) (l : locals) (w : world)
  : option BodyErr * locals * world :=
  match path l with
  | None =>
      if total l + zlen chunk <=? memoryBytes lim
      then (None, mkLocals (memory l ++ chunk) None (reserved l) (total l), w)
      else if negb (createOk f) then (Some ECreate, l, w)
      else
        let '(p, w) := createTemp w in
        let l := mkLocals (memory l) (Some p) (reserved l) (total l) in
        let needed := zlen (memory l) + zlen chunk in
        let '(ok, w) := reserve needed w in
        if negb ok then (Some EQuota, l, w)
        else
          let l := mkLocals (memory l) (path l) (reserved l + needed) (total l) in
          if negb (writeMemoryOk f) then (Some EWrite, l, w)
          else
            let w := append p (memory l) w in
            let l := mkLocals [] (path l) (reserved l) (total l) in
            if negb (writeChunkOk f) then (Some EWrite, l, w)
            else (None, l, append p chunk w)
  | Some p =>
      let needed := zlen chunk in
      let '(ok, w) := reserve needed w in
      if negb ok then (Some EQuota, l, w)
      else
        let l := mkLocals (memory l) (path l) (reserved l + needed) (total l) in
        if negb (writeChunkOk f) then (Some EWrite, l, w)
        else (None, l, append p chunk w)
  end.

(** [cleanup]: [removeOk] includes the file being gone already. *)
Definition cleanup (removeOk : bool) (l : locals) (w : world) : world :=
  match path l with
  | Some p => if removeOk then release (reserved l) (set_files w (delete p (files w))) else w
  | None => if negb (reserved l =? 0) then release (reserved l) w else w
  end.

Inductive ReadEnd := RdMore | RdEOF | RdError.

(** One iteration of the read loop. *)
Record ReadEv := mkRead {
  ctxBefore : bool; chunk : bytes; readEnd : ReadEnd; ctxAfter : bool; faults : Faults }.

(** The loop; [None] while the source has not ended. *)
Fixpoint readLoop (lim : replayBodyLimits) (removeOk : bool) (evs : list ReadEv)
    (l : locals) (w : world) : option (result BodyErr locals) * world :=
  match evs with
  | [] => (None, w)
  | ev :: evs' =>
      let fail e l w := (Some (Err e), cleanup removeOk l w) in
      if ctxBefore ev then fail EContext l w
      else
        let after l w :=
          match readEnd ev with
          | RdMore => readLoop lim removeOk evs' l w
          | RdEOF => if ctxAfter ev then fail EContext l w else (Some (Ok l), w)
          | RdError => if ctxAfter ev then fail EContext l w else fail ERead l w
          end in
        if 0 <? zlen (chunk ev) then
          if maxBodyBytes lim <? total l + zlen (chunk ev) then fail ETooLarge l w
          else
            let '((err, l), w) := writeChunk lim (faults ev) (chunk ev) l w in
            match err with
            | Some e => fail e l w
            | None => after (mkLocals (memory l) (path l) (reserved l)
                               (total l + zlen (chunk ev))) w
            end
        else after l w
  end.

(** What happens once the source ended. *)
Record EndEnv := mkEnd { ctxEnd : bool; closeOk : bool; removeOk : bool }.

Definition finishBody (env : EndEnv) (l : locals) (w : world)
  : result BodyErr replayableBody * world :=
  if ctxEnd env then (Err EContext, cleanup (removeOk env) l w)
  else match path l with
       | Some p =>
           if negb (closeOk env) then
             (Err EClose, if removeOk env
                          then release (reserved l) (set_files w (delete p (files w))) else w)
           else (Ok (mkBody [] (Some p) (total l) false (reserved l)), w)
       | None => (Ok (mkBody (memory l) None (total l) false 0), w)
       end.

(** [noBody]: [src] is nil or [http.NoBody]. *)
Definition newReplayableBodyWithLimits (lim : replayBodyLimits) (noBody : bool)
    (contentLength : Z) (evs : list ReadEv) (env : EndEnv) (w : world)
  : option (result BodyErr replayableBody) * world :=
  if (memoryBytes lim <? 0) || (maxBodyBytes lim <? 0) || (maxBodyBytes lim <? memoryBytes lim)
  then (Some (Err EInvalidLimits), w)
  else if noBody then (Some (Ok (mkBody [] None 0 false 0)), w)
  else if (0 <=? contentLength) && (maxBodyBytes lim <? contentLength)
  then (Some (Err ETooLarge), w)
  else match readLoop lim (removeOk env) evs (mkLocals [] None 0 0) w with
       | (None, w) => (None, w)
       | (Some (Err e), w) => (Some (Err e), w)
       | (Some (Ok l), w) => let '(r, w) := finishBody env l w in (Some r, w)
       end.

(** *** Using a body *)

Definition Open (b : replayableBody) (w : world) : result BodyErr bytes :=
  if bClosed b then Err EClosed
  else if bSize b =? 0 then Ok []
  else match bPath b with
       | Some p => match files w !! p with Some d => Ok d | None => Err ERead end
       | None => Ok (bData b)
       end.

Definition Size (b : replayableBody) : Z := bSize b.

(** [Close]; [removed] says whether removing the file succeeds. *)
Definition Close (removed : bool) (b : replayableBody) (w : world)
  : option BodyErr * replayableBody * world :=
  if bClosed b then (None, b, w)
  else
    let done w := (None, mkBody [] None 0 true 0, release (bReserved b) w) in
    match bPath b with
    | Some p => if removed then done (set_files w (delete p (files w)))
                else (Some ERemove, b, w)
    | None => done w
    end.

(** ** Lemmas: the budget *)

Definition budget_ok (w : world) : Prop := 0 <= bUsed w <= bMax w.

Lemma reserve_spec n w ok w' :
  reserve n w = (ok, w') -> 0 <= n -> budget_ok w ->
  budget_ok w' /\ bMax w' = bMax w /\ files w' = files w /\ nextFile w' = nextFile w /\
  bUsed w' = bUsed w + (if ok then n else 0) /\
  (ok = false -> bMax w < bUsed w + n).
Proof.
  unfold reserve, budget_ok. intros H Hn Hw. destruct (Z.leb_spec n 0).
  - injection H as <- <-. split_and!; try done; lia.
  - destruct (_ || _) eqn:E; injection H as <- <-; simpl.
    + split_and!; try done; lia.
    + to_prop. split_and!; try done; simpl; lia.
Qed.

Lemma release_used n w : 0 <= n -> bUsed (release n w) = bUsed w - n.
Proof. intros. unfold release. destruct (Z.leb_spec n 0); simpl; lia. Qed.

Lemma release_frame n w :
  bMax (release n w) = bMax w /\ files (release n w) = files w /\ nextFile (release n w) = nextFile w.
Proof. unfold release. by case_if. Qed.

(** What the locals and the directory hold of the [content] read so far, in a
    world that began as [w0]. *)
Record building (lim : replayBodyLimits) (w0 : world) (content : bytes) (l : locals) (w : world)
  : Prop := mkBuilding {
  bg_total : total l = zlen content;
  bg_limit : total l <= maxBodyBytes lim;
  bg_budget : budget_ok w /\ bMax w = bMax w0 /\ bUsed w = bUsed w0 + reserved l;
  bg_next : (nextFile w0 <= nextFile w)%nat;
  bg_where : match path l with
             | None => memory l = content /\ reserved l = 0 /\ total l <= memoryBytes lim /\
                       files w = files w0 /\ nextFile w = nextFile w0
             | Some p => p = nextFile w0 /\ nextFile w = S p /\ memory l = [] /\
                         reserved l = zlen content /\ files w = <[p := content]> (files w0)
             end }.

(** A temporary file of this body at most, with the reservation it had. *)
Definition leftover (w0 : world) (l : locals) (w : world) : Prop :=
  budget_ok w /\ bMax w = bMax w0 /\ bUsed w = bUsed w0 + reserved l /\ 0 <= reserved l /\
  match path l with
  | None => files w = files w0 /\ nextFile w = nextFile w0 /\ reserved l = 0
  | Some p => p = nextFile w0 /\ nextFile w = S p /\ exists d, files w = <[p := d]> (files w0)
  end.

Lemma building_leftover lim w0 content l w : building lim w0 content l w -> leftover w0 l w.
Proof.
  intros [Ht Hl (Hb & Hm & Hu) Hn Hw]. unfold leftover. destruct (path l) as [p|].
  - destruct Hw as (-> & Hnx & _ & Hr & ->). split_and!; try done; [|by eauto].
    rewrite Hr. unfold zlen. lia.
  - destruct Hw as (_ & Hr & _ & -> & Hnx). rewrite Hr in *. split_and!; try done; lia.
Qed.

(** No file has the name the next one will get. *)
Definition dir_ok (w : world) : Prop := forall p, is_Some (files w !! p) -> (p < nextFile w)%nat.

Lemma dir_fresh w : dir_ok w -> files w !! nextFile w = None.
Proof.
  intros H. destruct (files w !! nextFile w) eqn:E; [|done].
  assert (nextFile w < nextFile w)%nat by (apply H; eauto). lia.
Qed.

Lemma append_lookup p d w old :
  files w !! p = Some old -> files (append p d w) = <[p := old ++ d]> (files w).
Proof. intros H. unfold append. simpl. by rewrite H. Qed.

Lemma spool_chunk lim w0 f ch l w err l' w' content p :
  path l = Some p -> building lim w0 content l w -> total l + zlen ch <= maxBodyBytes lim ->
  writeChunk lim f ch l w = (err, l', w') ->
  match err with
  | None => building lim w0 (content ++ ch)
              (mkLocals (memory l') (path l') (reserved l') (total l + zlen ch)) w'
  | Some _ => leftover w0 l' w'
  end.
Proof.
  intros Hp [Ht Hl (Hb & Hm & Hu) Hn Hw] Hmax. unfold writeChunk. rewrite Hp in *.
  destruct Hw as (-> & Hnx & Hmem & Hr & Hf). pose proof (zlen_nonneg ch). pose proof (zlen_nonneg content).
  destruct (reserve (zlen ch) w) as [ok w1] eqn:Er.
  destruct (reserve_spec _ _ _ _ Er ltac:(done) Hb) as (Hb1 & Hm1 & Hf1 & Hn1 & Hu1 & _).
  destruct ok; simpl.
  - destruct (writeChunkOk f); simpl; intros [= <- <- <-].
    + assert (files w1 !! nextFile w0 = Some content) as Hlk by (rewrite Hf1, Hf; apply lookup_insert_eq).
      split; cbn [total path reserved memory]; rewrite ?zlen_app; [lia|lia| |simpl; lia|].
      * split; [exact Hb1|]. simpl. split; [congruence|lia].
      * rewrite (append_lookup _ _ _ _ Hlk), Hf1, Hf, insert_insert_eq. simpl.
        split_and!; done || lia || congruence.
    + unfold leftover. simpl. split_and!; [apply Hb1|congruence|lia|lia|done|congruence|].
      exists content. congruence.
  - intros [= <- <- <-]. unfold leftover. rewrite Hp.
    split_and!; [apply Hb1|congruence|lia|lia|done|congruence|]. exists content. congruence.
Qed.

Lemma first_chunk lim w0 f ch l w err l' w' content :
  path l = None -> dir_ok w0 -> building lim w0 content l w ->
  total l + zlen ch <= maxBodyBytes lim ->
  writeChunk lim f ch l w = (err, l', w') ->
  match err with
  | None => building lim w0 (content ++ ch)
              (mkLocals (memory l') (path l') (reserved l') (total l + zlen ch)) w'
  | Some _ => leftover w0 l' w'
  end.
Proof.
  intros Hp Hd B Hmax. pose proof (building_leftover _ _ _ _ _ B) as Hleft.
  destruct B as [Ht Hl (Hb & Hm & Hu) Hn Hw]. unfold writeChunk. rewrite Hp in *.
  destruct Hw as (Hmem & Hr & Hlim & Hf & Hnx). pose proof (zlen_nonneg ch).
  pose proof (zlen_nonneg content).
  destruct (Z.leb_spec (total l + zlen ch) (memoryBytes lim)).
  { intros [= <- <- <-]. split; simpl; rewrite ?zlen_app; [lia|lia|by split_and!|lia|].
    rewrite Hmem. by split_and!. }
  destruct (createOk f); simpl; [|by intros [= <- <- <-]].
  rewrite Hnx, Hf, Hmem, Hr.
  set (w1 := mkWorld _ _ _ _).
  destruct (reserve (zlen content + zlen ch) w1) as [ok w2] eqn:Er.
  destruct (reserve_spec _ _ _ _ Er ltac:(lia) Hb) as (Hb2 & Hm2 & Hf2 & Hn2 & Hu2 & _).
  subst w1. simpl in Hm2, Hf2, Hn2, Hu2.
  destruct ok; simpl; [|intros [= <- <- <-]; unfold leftover; simpl;
    split_and!; [apply Hb2|congruence|lia|lia|done|congruence|by exists []]].
  destruct (writeMemoryOk f); simpl; [|intros [= <- <- <-]; unfold leftover; simpl;
    split_and!; [apply Hb2|congruence|lia|lia|done|congruence|by exists []]].
  assert (files w2 !! nextFile w0 = Some []) as Hlk by (rewrite Hf2; apply lookup_insert_eq).
  pose proof (append_lookup _ content _ _ Hlk) as Hf3. rewrite Hf2, insert_insert_eq in Hf3.
  destruct (writeChunkOk f); simpl; intros [= <- <- <-].
  - assert (files (append (nextFile w0) content w2) !! nextFile w0 = Some content) as Hlk3
      by (rewrite Hf3; apply lookup_insert_eq).
    pose proof (append_lookup _ ch _ _ Hlk3) as Hf4. rewrite Hf3, insert_insert_eq in Hf4.
    split; cbn [total path reserved memory]; rewrite ?zlen_app; [lia|lia| |simpl; lia|].
    + split; [exact Hb2|]. simpl. split; [congruence|lia].
    + split_and!; [done|simpl; congruence|done|lia|exact Hf4].
  - unfold leftover. cbn [path reserved].
    split_and!; [apply Hb2|simpl; congruence|simpl; lia|lia|done|simpl; congruence|by exists content].
Qed.

Lemma writeChunk_spec lim w0 f ch l w err l' w' content :
  dir_ok w0 -> building lim w0 content l w -> total l + zlen ch <= maxBodyBytes lim ->
  writeChunk lim f ch l w = (err, l', w') ->
  match err with
  | None => building lim w0 (content ++ ch)
              (mkLocals (memory l') (path l') (reserved l') (total l + zlen ch)) w'
  | Some _ => leftover w0 l' w'
  end.
Proof.
  intros Hd B Hmax. destruct (path l) eqn:Hp; [by eapply spool_chunk|by eapply first_chunk].
Qed.

(** What a failed construction may leave: nothing, or the one file it could not
    remove together with that file's reservation. *)
Definition failed_ok (rm : bool) (w0 w : world) : Prop :=
  budget_ok w /\ bMax w = bMax w0 /\ (nextFile w0 <= nextFile w <= S (nextFile w0))%nat /\
  (bUsed w = bUsed w0 /\ files w = files w0 \/
   rm = false /\ bUsed w0 <= bUsed w /\ nextFile w = S (nextFile w0) /\
   exists d, files w = <[nextFile w0 := d]> (files w0)).

Lemma removed_file rm w0 l w p :
  budget_ok w0 -> dir_ok w0 -> leftover w0 l w -> path l = Some p ->
  failed_ok rm w0 (if rm then release (reserved l) (set_files w (delete p (files w))) else w).
Proof.
  intros Hb0 Hd (Hb & Hm & Hu & Hr & Hp) Ep. rewrite Ep in Hp. destruct Hp as (-> & Hnx & d & Hf).
  unfold failed_ok. destruct rm.
  - destruct (release_frame (reserved l) (set_files w (delete (nextFile w0) (files w)))) as (E1 & E2 & E3).
    unfold budget_ok. rewrite E1, E2, E3, release_used by done. simpl. unfold budget_ok in Hb0.
    split_and!; [lia|lia|done|lia|lia|]. left. split; [lia|].
    rewrite Hf. apply delete_insert_id, dir_fresh, Hd.
  - split_and!; [apply Hb|done|lia|lia|]. right. split_and!; [done|lia|done|by exists d].
Qed.

Lemma cleanup_spec rm w0 l w :
  budget_ok w0 -> dir_ok w0 -> leftover w0 l w -> failed_ok rm w0 (cleanup rm l w).
Proof.
  intros Hb0 Hd Hl. unfold cleanup. destruct (path l) as [p|] eqn:Ep; [by apply removed_file|].
  destruct Hl as (Hb & Hm & Hu & Hr & Hp). rewrite Ep in Hp. destruct Hp as (Hf & Hnx & Hr0).
  rewrite Hr0. simpl. unfold failed_ok. split_and!; [apply Hb|done|lia|lia|].
  left. split; [lia|done].
Qed.

(** The bytes of the source up to the read that ends it. *)
Fixpoint sourceBytes (evs : list ReadEv) : bytes :=
  match evs with
  | [] => []
  | ev :: evs' => chunk ev ++ match readEnd ev with RdMore => sourceBytes evs' | _ => [] end
  end.

Lemma readLoop_spec lim rm w0 evs l w content r w' :
  budget_ok w0 -> dir_ok w0 -> building lim w0 content l w ->
  readLoop lim rm evs l w = (r, w') ->
  match r with
  | None => exists content' l', building lim w0 content' l' w'
  | Some (Err _) => failed_ok rm w0 w'
  | Some (Ok l') => building lim w0 (content ++ sourceBytes evs) l' w'
  end.
Proof.
  intros Hb0 Hd. revert content l w. induction evs as [|ev evs IH]; intros content l w B; simpl.
  { intros [= <- <-]. by exists content, l. }
  destruct (ctxBefore ev).
  { intros [= <- <-]. by eapply cleanup_spec, building_leftover. }
  assert (forall l1 w1, building lim w0 (content ++ chunk ev) l1 w1 ->
    match readEnd ev with
    | RdMore => readLoop lim rm evs l1 w1
    | RdEOF => if ctxAfter ev then (Some (Err EContext), cleanup rm l1 w1) else (Some (Ok l1), w1)
    | RdError => if ctxAfter ev then (Some (Err EContext), cleanup rm l1 w1)
                 else (Some (Err ERead), cleanup rm l1 w1)
    end = (r, w') ->
    match r with
    | None => exists content' l', building lim w0 content' l' w'
    | Some (Err _) => failed_ok rm w0 w'
    | Some (Ok l') => building lim w0 (content ++ chunk ev ++
        match readEnd ev with RdMore => sourceBytes evs | _ => [] end) l' w'
    end) as Hafter.
  { intros l1 w1 B1. pose proof (building_leftover _ _ _ _ _ B1) as L1.
    pose proof (cleanup_spec rm w0 l1 w1 Hb0 Hd L1). rewrite app_assoc.
    destruct (readEnd ev); [by apply IH| |]; (destruct (ctxAfter ev); intros [= <- <-]; [done|]);
      [by rewrite app_nil_r|done]. }
  destruct (Z.ltb_spec 0 (zlen (chunk ev))) as [Hpos|Hz].
  - destruct (Z.ltb_spec (maxBodyBytes lim) (total l + zlen (chunk ev))) as [|Hfit].
    { intros [= <- <-]. by eapply cleanup_spec, building_leftover. }
    destruct (writeChunk lim (faults ev) (chunk ev) l w) as [[err l1] w1] eqn:Ew.
    pose proof (writeChunk_spec _ _ _ _ _ _ _ _ _ _ Hd B Hfit Ew) as Hs.
    destruct err; [intros [= <- <-]; by apply cleanup_spec|]. apply Hafter.
    rewrite (bg_total _ _ _ _ _ B) in Hs.
    assert (total l1 = total l) as ->; [|by rewrite (bg_total _ _ _ _ _ B)].
    clear -Ew. unfold writeChunk in Ew. repeat case_match; simplify_eq/=; done.
  - apply Hafter. assert (chunk ev = []) as ->; [|by rewrite app_nil_r].
    destruct (chunk ev); [done|]. unfold zlen in Hz. simpl in Hz. lia.
Qed.

(** ** Lemmas: one construction *)

(** A body holding [content], made in world [w0]. *)
Definition holds (b : replayableBody) (content : bytes) (w0 w : world) : Prop :=
  bClosed b = false /\ bSize b = zlen content /\
  match bPath b with
  | None => bData b = content /\ bReserved b = 0 /\ files w = files w0 /\ nextFile w = nextFile w0
  | Some p => p = nextFile w0 /\ nextFile w = S p /\ bReserved b = zlen content /\
              files w = <[p := content]> (files w0)
  end.

Lemma construction lim noBody cl evs env w0 r w :
  budget_ok w0 -> dir_ok w0 ->
  newReplayableBodyWithLimits lim noBody cl evs env w0 = (Some r, w) ->
  match r with
  | Ok b => budget_ok w /\ bMax w = bMax w0 /\ bUsed w = bUsed w0 + bReserved b /\
            (noBody = false -> bSize b <= maxBodyBytes lim) /\
            (bPath b = None -> noBody = false -> bSize b <= memoryBytes lim) /\
            holds b (if noBody then [] else sourceBytes evs) w0 w
  | Err _ => failed_ok (removeOk env) w0 w
  end.
Proof.
  intros Hb Hd. unfold newReplayableBodyWithLimits.
  assert (failed_ok (removeOk env) w0 w0) as Hsame.
  { unfold failed_ok. split_and!; [apply Hb|done|lia|lia|]. by left. }
  destruct (_ || _) eqn:Elim; [by intros [= <- <-]|]. to_prop. destruct noBody.
  { intros [= <- <-]. simpl. split_and!; [apply Hb|done|lia|done|done|]. by split_and!. }
  destruct (_ && _) eqn:Ecl; [by intros [= <- <-]|]. clear Ecl.
  destruct (readLoop lim (removeOk env) evs (mkLocals [] None 0 0) w0) as [rl w1] eqn:El.
  assert (building lim w0 [] (mkLocals [] None 0 0) w0) as B0.
  { split; simpl; [done|lia|split_and!; [apply Hb|done|lia]|lia|]. by split_and!. }
  pose proof (readLoop_spec _ _ _ _ _ _ _ _ _ Hb Hd B0 El) as Hs.
  destruct rl as [[l|e]|]; [|by intros [= <- <-]|done]. simpl in Hs.
  pose proof (building_leftover _ _ _ _ _ Hs) as Hleft. destruct Hs as [Ht Hl (Hbw & Hm & Hu) Hn Hw].
  unfold finishBody. destruct (ctxEnd env); [intros [= <- <-]; by apply cleanup_spec|].
  destruct (path l) as [p|] eqn:Ep.
  - destruct (closeOk env); simpl; intros [= <- <-]; [|by apply removed_file].
    destruct Hw as (-> & Hnx & _ & Hr & Hf). simpl. split_and!; [apply Hbw|done|done|done|done|].
    split; [done|]. simpl. by split_and!.
  - intros [= <- <-]. destruct Hw as (Hmem & Hr & Hlim & Hf & Hnx). simpl.
    split_and!; [apply Hbw|done|lia|done|done|]. split; [done|]. simpl. by split_and!.
Qed.

(** ** The process over its bodies

    [bodies] are the bodies made so far with the [contents] they were made from;
    [leaked] is the reservation of files a failed construction could not remove. *)
Record Process := mkProcess {
  pw : world; bodies : list replayableBody; contents : list bytes; leaked : Z }.

Inductive Event :=
| EvNew (lim : replayBodyLimits) (noBody : bool) (cl : Z) (evs : list ReadEv) (env : EndEnv)
| EvClose (i : nat) (removed : bool).

(** A construction whose source has not ended is not an event yet. *)
Definition step (s : Process) (e : Event) : Process :=
  match e with
  | EvNew lim noBody cl evs env =>
      match newReplayableBodyWithLimits lim noBody cl evs env (pw s) with
      | (Some (Ok b), w) =>
          mkProcess w (bodies s ++ [b]) (contents s ++ [if noBody then [] else sourceBytes evs])
            (leaked s)
      | (Some (Err _), w) =>
          mkProcess w (bodies s) (contents s) (leaked s + (bUsed w - bUsed (pw s)))
      | (None, _) => s
      end
  | EvClose i removed =>
      match bodies s !! i with
      | Some b => let '((_, b), w) := Close removed b (pw s) in
                  mkProcess w (<[i := b]> (bodies s)) (contents s) (leaked s)
      | None => s
      end
  end.

Definition boot (m : Z) : Process := mkProcess (newReplayBudget m) [] [] 0.

Fixpoint reservedSum (bs : list replayableBody) : Z :=
  match bs with [] => 0 | b :: bs' => bReserved b + reservedSum bs' end.

Definition body_ok (w : world) (b : replayableBody) (c : bytes) : Prop :=
  0 <= bReserved b /\
  (if bClosed b return Prop then bReserved b = 0 /\ bPath b = None
   else bSize b = zlen c /\
        match bPath b with
        | Some p => files w !! p = Some c /\ bReserved b = zlen c
        | None => bData b = c /\ bReserved b = 0
        end).

Record inv (s : Process) : Prop := mkInv {
  iv_budget : budget_ok (pw s);
  iv_dir : dir_ok (pw s);
  iv_sum : bUsed (pw s) = reservedSum (bodies s) + leaked s;
  iv_leak : 0 <= leaked s;
  iv_bodies : Forall2 (body_ok (pw s)) (bodies s) (contents s);
  iv_paths : forall i j bi bj p, bodies s !! i = Some bi -> bodies s !! j = Some bj ->
    bPath bi = Some p -> bPath bj = Some p -> i = j }.

Lemma reservedSum_app a b : reservedSum (a ++ b) = reservedSum a + reservedSum b.
Proof. induction a as [|x a IH]; simpl; lia. Qed.

Lemma reservedSum_insert bs i b b' :
  bs !! i = Some b -> reservedSum (<[i := b']> bs) = reservedSum bs - bReserved b + bReserved b'.
Proof.
  revert i. induction bs as [|x bs IH]; intros [|i] H; simplify_eq/=; [lia|].
  rewrite (IH i H). lia.
Qed.

(** A body survives any change of the directory that keeps its file. *)
Lemma body_ok_mono w w' b c :
  (forall p d, bPath b = Some p -> files w !! p = Some d -> files w' !! p = Some d) ->
  body_ok w b c -> body_ok w' b c.
Proof.
  intros Hf (Hr & H). split; [done|]. destruct (bClosed b); [done|].
  destruct H as [? H]. split; [done|]. destruct (bPath b); [|done].
  destruct H as [H ?]. split; [by apply Hf|done].
Qed.

Lemma body_path_file w bs cs i b p :
  Forall2 (body_ok w) bs cs -> bs !! i = Some b -> bPath b = Some p -> is_Some (files w !! p).
Proof.
  intros Hall Hi Hp. destruct (Forall2_lookup_l _ _ _ _ _ Hall Hi) as (c & _ & (_ & H)).
  destruct (bClosed b); [destruct H; congruence|]. destruct H as [_ H]. rewrite Hp in H.
  destruct H as [-> _]. by eauto.
Qed.

Lemma bodies_mono w w' bs cs :
  dir_ok w -> (files w' = files w \/ exists d, files w' = <[nextFile w := d]> (files w)) ->
  Forall2 (body_ok w) bs cs -> Forall2 (body_ok w') bs cs.
Proof.
  intros Hd Hf Hall. apply Forall2_same_length_lookup.
  split; [by eapply Forall2_length|]. intros i b c Hb Hc.
  eapply body_ok_mono; [|by eapply Forall2_lookup_lr]. intros p d Hp Hpd.
  destruct Hf as [->|[d' ->]]; [done|]. rewrite lookup_insert_ne; [done|].
  intros <-. assert (nextFile w < nextFile w)%nat by (apply Hd; eauto). lia.
Qed.

Lemma dir_grow w w' :
  dir_ok w -> (files w' = files w /\ (nextFile w <= nextFile w')%nat \/
    (exists d, files w' = <[nextFile w := d]> (files w)) /\ nextFile w' = S (nextFile w)) ->
  dir_ok w'.
Proof.
  intros Hd [[Hf Hn]|[[d Hf] Hn]] p; rewrite Hf.
  - intros H%Hd. lia.
  - rewrite Hn. destruct (decide (p = nextFile w)) as [->|]; [lia|].
    rewrite lookup_insert_ne by done. intros H%Hd. lia.
Qed.

Lemma new_inv s lim noBody cl evs env :
  inv s -> inv (step s (EvNew lim noBody cl evs env)).
Proof.
  intros [Hb Hd Hsum Hleak Hbs Hp]. simpl.
  destruct (newReplayableBodyWithLimits lim noBody cl evs env (pw s)) as [[r|] w] eqn:E; [|by split].
  pose proof (construction _ _ _ _ _ _ _ _ Hb Hd E) as Hc. destruct r as [b|e].
  - destruct Hc as (Hbw & Hm & Hu & _ & _ & (Hcl & Hsz & Hw)).
    set (c := if noBody then [] else sourceBytes evs) in *.
    assert (files w = files (pw s) \/ exists d, files w = <[nextFile (pw s) := d]> (files (pw s))) as Hf.
    { destruct (bPath b); [right|left]; destruct Hw as (Hpn&?&?&Hfw); [rewrite Hpn in Hfw; by eexists|done]. }
    assert (body_ok w b c) as Hok.
    { split; [|rewrite Hcl].
      - destruct (bPath b); destruct Hw as (?&?&?&?); [unfold zlen in *; lia|lia].
      - split; [done|]. destruct (bPath b) as [p|]; destruct Hw as (?&?&?&?); [|done].
        split; [|done]. rewrite H2. apply lookup_insert_eq. }
    assert (forall i bi p, bodies s !! i = Some bi -> bPath bi = Some p -> bPath b <> Some p) as Hfresh.
    { intros i bi p Hi Hpi Hpb. rewrite Hpb in Hw. destruct Hw as (-> & _).
      pose proof (body_path_file _ _ _ _ _ _ Hbs Hi Hpi) as Hfile. apply Hd in Hfile. lia. }
    split; simpl.
    + done.
    + eapply dir_grow; [exact Hd|]. destruct (bPath b); destruct Hw as (Hpn&?&?&Hfw); [right|left].
      * rewrite Hpn in *. split; [by eexists|]. congruence.
      * split; [done|lia].
    + rewrite reservedSum_app. simpl. lia.
    + done.
    + apply Forall2_app; [by eapply bodies_mono|by constructor].
    + intros i j bi bj p Hi Hj Hpi Hpj.
      apply lookup_snoc_Some in Hi as [[Hli Hi]|[-> <-]], Hj as [[Hlj Hj]|[-> <-]].
      * by eapply Hp.
      * by destruct (Hfresh _ _ _ Hi Hpi).
      * by destruct (Hfresh _ _ _ Hj Hpj).
      * done.
  - destruct Hc as (Hbw & Hm & Hn & Hcase).
    assert (bUsed (pw s) <= bUsed w) as Hle by (destruct Hcase as [[? _]|(_ & ? & _)]; lia).
    split; simpl; [done| |lia|lia| |done].
    + eapply dir_grow; [exact Hd|]. destruct Hcase as [[_ Hf]|(_ & _ & Hnx & Hf)]; [left|by right].
      split; [done|lia].
    + eapply bodies_mono; [exact Hd| |exact Hbs].
      destruct Hcase as [[_ ?]|(_ & _ & _ & ?)]; [by left|by right].
Qed.

Lemma reserved_in_sum w bs cs i b :
  Forall2 (body_ok w) bs cs -> bs !! i = Some b -> bReserved b <= reservedSum bs.
Proof.
  intros Hall. assert (0 <= reservedSum bs) as Hpos.
  { induction Hall as [|? ? ? ? [? _] _ IH]; simpl; lia. }
  revert i Hpos. induction Hall as [|x y xs ys [Hx _] Hxs IH]; intros i Hpos Hi; [done|].
  assert (0 <= reservedSum xs) as Hxs0.
  { clear -Hxs. induction Hxs as [|? ? ? ? [? _] _ IH]; simpl; lia. }
  destruct i as [|i]; simplify_eq/=; [lia|]. specialize (IH i Hxs0 Hi). lia.
Qed.

Lemma close_inv s i removed : inv s -> inv (step s (EvClose i removed)).
Proof.
  intros I. pose proof I as [Hb Hd Hsum Hleak Hbs Hp]. simpl.
  destruct (bodies s !! i) as [b|] eqn:Hi; [|done].
  destruct (Forall2_lookup_l _ _ _ _ _ Hbs Hi) as (c & Hc & (Hr & Hok)).
  assert (forall s', s' = mkProcess (pw s) (<[i := b]> (bodies s)) (contents s) (leaked s) -> inv s')
    as Hsame by (intros s' ->; rewrite list_insert_id by done; by destruct s).
  unfold Close. destruct (bClosed b) eqn:Ecl; [by apply Hsame|]. destruct Hok as [Hsz Hok].
  set (b' := mkBody [] None 0 true 0).
  assert (forall f, (forall p, f !! p = None \/ f !! p = files (pw s) !! p) ->
    (forall j bj p, j <> i -> bodies s !! j = Some bj -> bPath bj = Some p ->
       f !! p = files (pw s) !! p) ->
    inv (mkProcess (release (bReserved b) (set_files (pw s) f)) (<[i := b']> (bodies s))
           (contents s) (leaked s))) as Hdone.
  { intros f Hsub Hkeep. destruct (release_frame (bReserved b) (set_files (pw s) f)) as (E1 & E2 & E3).
    split; simpl.
    - unfold budget_ok in *. rewrite E1, release_used by done. simpl.
      assert (bReserved b <= reservedSum (bodies s)); [|lia].
      by eapply reserved_in_sum.
    - intros p. rewrite E2, E3. simpl. intros [d Hpd]. apply Hd.
      destruct (Hsub p) as [E|E]; rewrite E in Hpd; [done|by eauto].
    - rewrite release_used by done. simpl. rewrite (reservedSum_insert _ _ _ _ Hi). simpl. lia.
    - done.
    - apply Forall2_same_length_lookup. split.
      { rewrite length_insert. by eapply Forall2_length. }
      intros j x y Hx Hy. destruct (decide (j = i)) as [->|Hne].
      + rewrite list_lookup_insert_eq in Hx by (by eapply lookup_lt_Some). injection Hx as <-.
        by split.
      + rewrite list_lookup_insert_ne in Hx by done.
        eapply body_ok_mono; [|by eapply Forall2_lookup_lr].
        intros p d Hpx Hpd. rewrite E2. simpl. by rewrite (Hkeep j x p).
    - intros j k bj bk p Hj Hk Hpj Hpk.
      destruct (decide (j = i)) as [->|Hji].
      { rewrite list_lookup_insert_eq in Hj by (by eapply lookup_lt_Some). by simplify_eq. }
      destruct (decide (k = i)) as [->|Hki].
      { rewrite list_lookup_insert_eq in Hk by (by eapply lookup_lt_Some). by simplify_eq. }
      rewrite list_lookup_insert_ne in Hj, Hk by done. by eapply Hp. }
  destruct (bPath b) as [p|] eqn:Ep.
  - destruct removed; [|by apply Hsame]. apply Hdone.
    + intros q. destruct (decide (q = p)) as [->|]; [left; apply lookup_delete_eq|right].
      by rewrite lookup_delete_ne.
    + intros j bj q Hne Hj Hq. rewrite lookup_delete_ne; [done|]. intros ->.
      apply Hne. by eapply Hp.
  - specialize (Hdone (files (pw s))). replace (pw s) with (set_files (pw s) (files (pw s))) at 1
      by (by destruct (pw s)). apply Hdone; [by right|done].
Qed.

Lemma step_process_inv s e : inv s -> inv (step s e).
Proof. destruct e; [apply new_inv|apply close_inv]. Qed.

Lemma boot_inv m : inv (boot m).
Proof.
  split; simpl; try done.
  - unfold budget_ok, newReplayBudget. simpl. case_if; to_prop; lia.
  - intros p. simpl. rewrite lookup_empty. by intros [].
Qed.

(** ** Properties *)

(** a body that is built holds exactly the bytes of the source up to its end,
    within the per-request limit: in memory, reserving nothing, only up to the
    memory limit, otherwise in its own file with a reservation of its exact size;
    a construction that fails leaves the budget and the directory as they were,
    unless it could not remove its file. *)
Theorem replay_body_faithful lim noBody cl evs env w0 r w :
  budget_ok w0 -> dir_ok w0 ->
  newReplayableBodyWithLimits lim noBody cl evs env w0 = (Some r, w) ->
  match r with
  | Ok b =>
      let content := if noBody then [] else sourceBytes evs in
      Open b w = Ok content /\ Size b = zlen content /\
      (noBody = false -> Size b <= maxBodyBytes lim) /\
      (bPath b = None -> bReserved b = 0 /\ (noBody = false -> Size b <= memoryBytes lim)) /\
      (bPath b <> None -> bReserved b = Size b) /\
      bUsed w = bUsed w0 + bReserved b /\ bUsed w <= bMax w
  | Err _ => removeOk env = true -> bUsed w = bUsed w0 /\ files w = files w0
  end.
Proof.
  intros Hb Hd H. pose proof (construction _ _ _ _ _ _ _ _ Hb Hd H) as Hc. destruct r as [b|e].
  - destruct Hc as (Hbw & Hm & Hu & Hmax & Hmem & (Hcl & Hsz & Hw)). intros content.
    split_and!; try done; [| | |apply Hbw].
    + unfold Open. rewrite Hcl. destruct (Z.eqb_spec (bSize b) 0) as [E|E].
      * f_equal. symmetry. apply length_zero_iff_nil.
        assert (zlen content = 0) as Hz by (rewrite <- E; symmetry; exact Hsz).
        unfold zlen in Hz. lia.
      * destruct (bPath b) as [p|]; destruct Hw as (Hp & Hn & Hr & Hf); [|by rewrite Hp].
        rewrite Hf, lookup_insert_eq. done.
    + intros Hpath. rewrite Hpath in Hw. destruct Hw as (_ & Hr & _). auto.
    + intros Hpath. destruct (bPath b); [|done]. destruct Hw as (_ & _ & Hr & _).
      unfold Size. congruence.
  - intros Hrm. destruct Hc as (_ & _ & _ & [Hc|[Hc _]]); [done|congruence].
Qed.

(** C32: the spool budget is conserved: over every history of bodies built and
    closed, with any failures, the bytes in use are exactly those reserved by the
    bodies not yet closed plus those of files that could not be removed, and stay
    within the budget; every body not yet closed can still be opened and yields
    the bytes it was made from, and a closed one holds nothing. *)
Theorem replay_budget_conserved m evs :
  let s := run step (boot m) evs in
  bUsed (pw s) = reservedSum (bodies s) + leaked s /\ 0 <= leaked s /\
  0 <= bUsed (pw s) <= bMax (pw s) /\
  forall i b c, bodies s !! i = Some b -> contents s !! i = Some c ->
    if bClosed b return Prop then bReserved b = 0 /\ Open b (pw s) = Err EClosed
    else Open b (pw s) = Ok c.
Proof.
  intros s. assert (inv s) as I
    by (apply (run_invariant step inv); [apply boot_inv|intros; by apply step_process_inv]).
  pose proof (iv_budget _ I) as Hb. unfold budget_ok in Hb.
  split_and!; [apply I|apply I|apply Hb|apply Hb|]. intros i b c Hi Hc.
  destruct (Forall2_lookup_lr _ _ _ _ _ _ (iv_bodies _ I) Hi Hc) as [_ H]. unfold Open.
  destruct (bClosed b); [by destruct H|]. destruct H as [Hsz H].
  destruct (Z.eqb_spec (bSize b) 0) as [E|E].
  - destruct c; [done|]. unfold zlen in Hsz. simpl in Hsz. lia.
  - destruct (bPath b); destruct H as [H _]; by rewrite H.
Qed.

(** ** Witnesses *)

Definition wit_limits := mkLimits 4 100.
Definition wit_reads : list ReadEv :=
  [mkRead false [1; 2; 3] RdMore false (mkFaults true true true);
   mkRead false [4; 5] RdMore false (mkFaults true true true);
   mkRead false [] RdEOF false (mkFaults true true true)].
Definition wit_world := newReplayBudget 1000.
Definition wit_body := mkBody [] (Some 0%nat) 5 false 5.
Definition wit_after := mkWorld 1000 5 {[0%nat := [1; 2; 3; 4; 5]]} 1.

Lemma replay_body_faithful_witness :
  Open wit_body wit_after = Ok [1; 2; 3; 4; 5] /\ bReserved wit_body = Size wit_body.
Proof.
  pose proof (replay_body_faithful wit_limits false (-1) wit_reads (mkEnd false true true)
    wit_world (Ok wit_body) wit_after) as H.
  destruct H as (H1 & _ & _ & _ & H2 & _).
  - unfold budget_ok, wit_world, newReplayBudget. simpl. lia.
  - intros p. unfold wit_world. simpl. rewrite lookup_empty. by intros [].
  - reflexivity.
  - split; [exact H1|]. apply H2. discriminate.
Defined.

End Rb.
