(* ===== verification/SystemProxy.v ===== *)
(** * SystemProxy: [internal/systemproxy/systemproxy.go]

    The manual proxy configuration as the operating system stores it, and the
    resolver's life cycle.  The platform resolver behind [resolverBackend] is an
    argument. *)

From S2P Require Export Prelude GoStrings.

Module Sys.

Record ManualProxyMap := mkManual { Default : string; ByScheme : gmap string string }.

Definition Empty (m : ManualProxyMap) : bool :=
  String.eqb (Default m) "" && (size (ByScheme m) =? 0)%nat.

Definition ForScheme (m : ManualProxyMap) (scheme : string) : string :=
  match ByScheme m !! ToLower (TrimSpace scheme) with
  | Some proxy => if String.eqb proxy "" then Default m else proxy
  | None => Default m
  end.

(** One item of [ParseManualProxyString], if it names a proxy. *)
Definition manualItem (item : string) : option string :=
  let item := TrimSpace item in
  if String.eqb item "" then None
  else match Cut item "=" with
       | Some (scheme, proxy) =>
           let scheme := TrimSpace scheme in
           let proxy := TrimSpace proxy in
           if String.eqb scheme "ftp" then None
           else if String.eqb scheme "socks" && negb (Contains proxy "://")
                then Some ("socks5://" +:+ proxy) else Some proxy
       | None => Some item
       end.

(** Keep the first of each value: the [seen] loop. *)
Fixpoint dedupe (seen : list string) (l : list string) : list string :=
  match l with
  | [] => []
  | x :: l' => if existsb (String.eqb x) seen then dedupe seen l' else x :: dedupe (x :: seen) l'
  end.

Definition ParseManualProxyString (proxyServer : string) : string :=
  Join (dedupe [] (omap manualItem
    (FieldsFunc (fun c => in_chars "; ," c) (ToLower proxyServer)))) ",".

(** One item of the [;]-separated form. *)
Definition addManualItem (out : ManualProxyMap) (item : string) : ManualProxyMap :=
  let item := TrimSpace item in
  if String.eqb item "" then out
  else match Cut item "=" with
       | None => let value := ParseManualProxyString item in
                 if negb (String.eqb value "") then mkManual value (ByScheme out) else out
       | Some (scheme, proxy) =>
           let scheme := ToLower (TrimSpace scheme) in
           let proxy := TrimSpace proxy in
           if String.eqb scheme "" || String.eqb proxy "" then out
           else
             let proxy := if String.eqb scheme "socks" && negb (Contains proxy "://")
                          then "socks5://" +:+ proxy else proxy in
             mkManual (Default out) (<[scheme := ParseManualProxyString proxy]> (ByScheme out))
       end.

Definition ParseManualProxyMap (proxyServer : string) : ManualProxyMap :=
  let trimmed := TrimSpace proxyServer in
  if String.eqb trimmed "" then mkManual "" ∅
  else if negb (Contains trimmed "=") then mkManual (ParseManualProxyString trimmed) ∅
  else fold_left addManualItem (Split trimmed ";") (mkManual "" ∅).

Record Config := mkConfig {
  ManualProxy : ManualProxyMap; PACURL : string; Bypass : string;
  Supported : bool; Found : bool; IsPAC : bool; AutoDetect : bool }.

Definition configFromDiscoveredSources (autoDetect : bool) (pacURL proxy bypass : string) : Config :=
  let isPAC := negb (String.eqb pacURL "") in
  let manual := ParseManualProxyMap proxy in
  mkConfig manual pacURL bypass true (autoDetect || isPAC || negb (Empty manual)) isPAC autoDetect.

(** ** The resolver *)

Section Resolver.
(** What the platform resolver answers. *)
Context {RErr : Type} (backendResolve : string -> Config -> result RErr string).

Record Resolver := mkResolver { hasBackend : bool; closed : bool; backendCloses : nat }.

Definition newResolverWithBackend (backend : bool) : Resolver := mkResolver backend false 0.

Inductive ResolveErr := ErrResolverClosed | ErrBackend (e : RErr).

Definition ResolveProxyForURL (rawurl : string) (cfg : Config) (r : Resolver)
  : result ResolveErr string :=
  if negb (AutoDetect cfg) && negb (IsPAC cfg) then Ok ""
  else if closed r || negb (hasBackend r) then Err ErrResolverClosed
  else match backendResolve rawurl cfg with Ok s => Ok s | Err e => Err (ErrBackend e) end.

Definition Close (r : Resolver) : Resolver :=
  if closed r then r
  else mkResolver (hasBackend r) true (if hasBackend r then S (backendCloses r) else backendCloses r).

End Resolver.

(** ** Lemmas *)

Lemma dedupe_spec seen l :
  NoDup (dedupe seen l) /\ forall x, x ∈ dedupe seen l <-> x ∈ l /\ x ∉ seen.
Proof.
  revert seen. induction l as [|x l IH]; intros seen; simpl.
  - split; [constructor|]. intros x. split; [by intros ?%elem_of_nil|by intros [?%elem_of_nil _]].
  - assert (existsb (String.eqb x) seen = bool_decide (x ∈ seen)) as ->.
    { clear. apply eq_true_iff_eq. rewrite existsb_exists, bool_decide_eq_true, list_elem_of_In.
      split; [intros (y & Hy & ->%String.eqb_eq); done|]. intros H. exists x. by rewrite String.eqb_refl. }
    destruct (bool_decide (x ∈ seen)) eqn:E; to_prop.
    + destruct (IH seen) as [H1 H2]. split; [done|]. intros y. rewrite H2, elem_of_cons.
      split; [tauto|]. intros [[->|?] ?]; done.
    + destruct (IH (x :: seen)) as [H1 H2]. split.
      * constructor; [|done]. rewrite H2. intros [_ H]. apply H. left.
      * intros y. rewrite !elem_of_cons, H2, not_elem_of_cons.
        destruct (decide (y = x)) as [->|]; tauto.
Qed.

Example manual1 : ParseManualProxyMap "http=P1:80;https=P2:443;socks=s:1080" =
  mkManual "" (<["socks" := "socks5://s:1080"]> (<["https" := "p2:443"]> {["http" := "p1:80"]})).
Proof. reflexivity. Qed.

End Sys.
