(* ===== verification/Pac.v ===== *)
(** * Pac: [internal/pac/pac.go]

    Result normalisation, source decoding, the load and retry state of a PAC, and
    the address choices of [myIpAddress] and [dnsResolve].  The JavaScript engine
    (goja), the HTTP client and [mime.ParseMediaType] are not modelled: what a
    load or an evaluation returns is an input.  Bytes are [Z]; a decoded text is
    its UTF-8 bytes. *)

From S2P Require Export Prelude GoStrings NetAddr Utf8.

Module Pc.

Definition directProxy : string := "DIRECT".
Definition localhostIP : string := "127.0.0.1".
Definition maxPACResultBytes : Z := Z.shiftl 16 10.
Definition maxPACCandidates : Z := 32.
Definition pacRetryInterval : Duration := 30 * Second.

(** ** Results *)

Inductive PacErr :=
| ETooLong | ETooMany | ENoCandidates | EMalformed (token : string) | EUnsupported (kind : string).

Definition ValidateCanonicalResult (proxies : string) : option PacErr :=
  if maxPACResultBytes <? slen proxies then Some ETooLong
  else
    let count := Z.of_nat (length (bfilter (fun raw => negb (String.eqb (TrimSpace raw) ""))
                                     (Split proxies ","))) in
    if maxPACCandidates <? count then Some ETooMany
    else if count =? 0 then Some ENoCandidates else None.

(** One directive: the switch of the loop body. *)
Definition directive (token : string) : result PacErr string :=
  let fields := Fields token in
  match fields with
  | [f] => if EqualFold f directProxy then Ok directProxy else Err (EMalformed token)
  | [f; target] =>
      let kind := ToUpper f in
      if ContainsAny target ",;" then Err (EMalformed target)
      else if String.eqb kind "PROXY" || String.eqb kind "HTTP" then Ok target
      else if String.eqb kind "HTTPS" then Ok ("https://" +:+ target)
      else if String.eqb kind "SOCKS4" then Ok ("socks4://" +:+ target)
      else if String.eqb kind "SOCKS4A" then Ok ("socks4a://" +:+ target)
      else if String.eqb kind "SOCKS5" then Ok ("socks5://" +:+ target)
      else if String.eqb kind "SOCKS" then Ok ("socks5://" +:+ target)
      else Err (EUnsupported f)
  | _ => Err (EMalformed token)
  end.

Definition normalizeStep (normalized : list string) (raw : string) : result PacErr (list string) :=
  let token := TrimSpace raw in
  if String.eqb token "" then Ok normalized
  else if maxPACCandidates <=? Z.of_nat (length normalized) then Err ETooMany
  else c ← directive token; Ok (normalized ++ [c]).

Definition NormalizeResult (proxies : string) : result PacErr string :=
  if maxPACResultBytes <? slen proxies then Err ETooLong
  else
    normalized ← foldM normalizeStep (Split proxies ";") [];
    match normalized with
    | [] => Err ENoCandidates
    | _ => Ok (Join normalized ",")
    end.

(** [FindProxyForURLWithError] after the evaluation; [FindProxyForURL] turns any
    error into DIRECT. *)
Definition FindProxyForURLWithError {LErr} (evaluated : result LErr string)
  : result (LErr + PacErr) string :=
  match evaluated with
  | Err e => Err (inl e)
  | Ok out => match NormalizeResult out with Ok s => Ok s | Err e => Err (inr e) end
  end.
Definition FindProxyForURL {LErr} (evaluated : result LErr string) : string :=
  match FindProxyForURLWithError evaluated with Ok s => s | Err _ => directProxy end.

(** ** Loading *)

Section Load.
Context {Runtime LErr : Type}.

Record Pac := mkPac {
  runtime : option Runtime; lastLoadAttempt : Time; lastLoadErr : option LErr }.

Definition Close (p : Pac) : Pac := mkPac None zeroTime None.

(** [load()] returned [loaded] and finished at [at_]. *)
Definition afterLoad (loaded : result LErr Runtime) (at_ : Time) (p : Pac)
  : result LErr Runtime * Pac :=
  match loaded with
  | Err e => (Err e, mkPac (runtime p) at_ (Some e))
  | Ok rt => (Ok rt, mkPac (Some rt) at_ None)
  end.

Definition Load (loaded : result LErr Runtime) (at_ : Time) (p : Pac) : option LErr * Pac :=
  match runtime p with
  | Some _ => (None, p)
  | None => let '(r, p) := afterLoad loaded at_ p in
            (match r with Err e => Some e | Ok _ => None end, p)
  end.

(** The Boolean says whether a load was attempted. *)
Definition ensureLoaded (now : Time) (loaded : result LErr Runtime) (at_ : Time) (p : Pac)
  : result LErr Runtime * bool * Pac :=
  match runtime p with
  | Some rt => (Ok rt, false, p)
  | None =>
      match lastLoadErr p with
      | Some e => if subT now (lastLoadAttempt p) <? pacRetryInterval
                  then (Err e, false, p)
                  else let '(r, p) := afterLoad loaded at_ p in (r, true, p)
      | None => let '(r, p) := afterLoad loaded at_ p in (r, true, p)
      end
  end.

Record Request := mkRequest { rqNow : Time; rqLoaded : result LErr Runtime; rqDone : Time }.

(** The load attempts (start, end) of a sequence of requests. *)
Fixpoint attempts (p : Pac) (rs : list Request) : list (Time * Time) :=
  match rs with
  | [] => []
  | r :: rs' =>
      let '((_, tried), p) := ensureLoaded (rqNow r) (rqLoaded r) (rqDone r) p in
      (if tried then [(rqNow r, rqDone r)] else []) ++ attempts p rs'
  end.

End Load.
#[global] Arguments Pac : clear implicits.
#[global] Arguments Request : clear implicits.

(** ** Decoding *)

Inductive byteOrder := LittleEndian | BigEndian.

Definition Uint16 (o : byteOrder) (a b : Z) : Z :=
  match o with LittleEndian => a + b * 256 | BigEndian => a * 256 + b end.
Definition Uint32 (o : byteOrder) (a b c d : Z) : Z :=
  match o with
  | LittleEndian => ((d * 256 + c) * 256 + b) * 256 + a
  | BigEndian => ((a * 256 + b) * 256 + c) * 256 + d
  end.

Inductive DecodeErr :=
| DNotASCII | DNotUTF8 | DNoBOM | DNoOrder | DOddLength | DSurrogate | DCodePoint | DUnsupported.

Fixpoint units16 (o : byteOrder) (data : bytes) : option (list Z) :=
  match data with
  | [] => Some []
  | a :: b :: rest => us ← units16 o rest; Some (Uint16 o a b :: us)
  | [_] => None
  end.

Fixpoint runes16 (us : list Z) : result DecodeErr (list Z) :=
  match us with
  | [] => Ok []
  | u :: us1 =>
      if (55296 <=? u) && (u <=? 56319) then
        match us1 with
        | v :: us2 => if (v <? 56320) || (57343 <? v) then Err DSurrogate
                      else rs ← runes16 us2; Ok (surrogates u v :: rs)
        | [] => Err DSurrogate
        end
      else if (56320 <=? u) && (u <=? 57343) then Err DSurrogate
      else rs ← runes16 us1; Ok (u :: rs)
  end.

Definition hasPrefix (data pre : bytes) : bool := bool_decide (take (length pre) data = pre).

Definition decodeUTF16 (data : bytes) (order : option byteOrder) (requireBOM : bool)
  : result DecodeErr bytes :=
  let finish order data :=
    match order with
    | None => Err DNoOrder
    | Some o => match units16 o data with
                | None => Err DOddLength
                | Some us => rs ← runes16 us; Ok (runes_bytes rs)
                end
    end in
  if hasPrefix data [255; 254] then finish (Some LittleEndian) (drop 2 data)
  else if hasPrefix data [254; 255] then finish (Some BigEndian) (drop 2 data)
  else if requireBOM then Err DNoBOM
  else finish order data.

Fixpoint runes32 (o : byteOrder) (data : bytes) : result DecodeErr (list Z) :=
  match data with
  | [] => Ok []
  | a :: b :: c :: d :: rest =>
      let value := Uint32 o a b c d in
      if (1114111 <? value) || ((55296 <=? value) && (value <=? 57343)) then Err DCodePoint
      else rs ← runes32 o rest; Ok (value :: rs)
  | _ => Err DOddLength
  end.

Definition decodeUTF32 (data : bytes) (o : byteOrder) : result DecodeErr bytes :=
  if negb (Z.of_nat (length data) mod 4 =? 0) then Err DOddLength
  else rs ← runes32 o data; Ok (runes_bytes rs).

Definition windows1252High : list Z :=
  [8364; 129; 8218; 402; 8222; 8230; 8224; 8225; 710; 8240; 352; 8249; 338; 141; 381; 143;
   144; 8216; 8217; 8220; 8221; 8226; 8211; 8212; 732; 8482; 353; 8250; 339; 157; 382; 376].

Definition windows1251High : list Z :=
  [1026; 1027; 8218; 1107; 8222; 8230; 8224; 8225; 8364; 8240; 1033; 8249; 1034; 1036; 1035; 1039;
   1106; 8216; 8217; 8220; 8221; 8226; 8211; 8212; 152; 8482; 1113; 8250; 1114; 1116; 1115; 1119;
   160; 1038; 1118; 1032; 164; 1168; 166; 167; 1025; 169; 1028; 171; 172; 173; 174; 1031;
   176; 177; 1030; 1110; 1169; 181; 182; 183; 1105; 8470; 1108; 187; 1112; 1029; 1109; 1111].

Inductive SingleByte := Latin1 | Cp1252 | Cp1251.

Definition singleRune (e : SingleByte) (b : Z) : Z :=
  match e with
  | Latin1 => b
  | Cp1252 => if (128 <=? b) && (b <=? 159) then default 0 (windows1252High !! Z.to_nat (b - 128)) else b
  | Cp1251 => if b <? 128 then b
              else if b <? 192 then default 0 (windows1251High !! Z.to_nat (b - 128))
              else 1040 + (b - 192)
  end.

Definition decodeSingleByte (data : bytes) (e : SingleByte) : bytes :=
  runes_bytes (map (singleRune e) data).

Definition decodeSingleByteStrict (data : bytes) (e : SingleByte) : option bytes :=
  if existsb (fun b => match e with
                       | Cp1252 => existsb (Z.eqb b) [129; 141; 143; 144; 157]
                       | Cp1251 => b =? 152
                       | Latin1 => false
                       end) data
  then None else Some (decodeSingleByte data e).

Definition bom8 : bytes := [239; 187; 191].
Definition bom32BE : bytes := [0; 0; 254; 255].
Definition bom32LE : bytes := [255; 254; 0; 0].
Definition trimPrefix (data pre : bytes) : bytes :=
  if hasPrefix data pre then drop (length pre) data else data.

Definition normName (name : string) : string :=
  let name := ReplaceChar (ToLower (TrimSpace name)) "_" "-" in
  if String.eqb name "" then "auto" else name.

(** The detection by byte-order mark and validity. *)
Definition decodeAuto (data : bytes) : result DecodeErr bytes :=
  if hasPrefix data bom32BE then decodeUTF32 (drop 4 data) BigEndian
  else if hasPrefix data bom32LE then decodeUTF32 (drop 4 data) LittleEndian
  else if hasPrefix data bom8 then Ok (trimPrefix data bom8)
  else if hasPrefix data [255; 254] || hasPrefix data [254; 255] then decodeUTF16 data None true
  else if utf8_valid data then Ok data
  else match decodeSingleByteStrict data Cp1252 with
       | Some out => Ok out
       | None => match decodeSingleByteStrict data Cp1251 with
                 | Some out => Ok out
                 | None => Ok (decodeSingleByte data Latin1)
                 end
       end.

Definition is_one_of (name : string) (l : list string) : bool := existsb (String.eqb name) l.

Definition decodeNamed (data : bytes) (name : string) : result DecodeErr bytes :=
  if is_one_of name ["ascii"; "us-ascii"] then
    if existsb (fun b => 127 <? b) data then Err DNotASCII else Ok data
  else if is_one_of name ["utf-8"; "utf8"; "utf-8-sig"] then
    let data := trimPrefix data bom8 in
    if utf8_valid data then Ok data else Err DNotUTF8
  else if is_one_of name ["latin-1"; "latin1"; "iso-8859-1"; "iso8859-1"] then
    Ok (decodeSingleByte data Latin1)
  else if is_one_of name ["cp1252"; "windows-1252"; "windows1252"] then
    Ok (decodeSingleByte data Cp1252)
  else if is_one_of name ["cp1251"; "windows-1251"; "windows1251"] then
    Ok (decodeSingleByte data Cp1251)
  else if is_one_of name ["utf-16"; "utf16"] then decodeUTF16 data None true
  else if is_one_of name ["utf-16le"; "utf16le"] then decodeUTF16 data (Some LittleEndian) false
  else if is_one_of name ["utf-16be"; "utf16be"] then decodeUTF16 data (Some BigEndian) false
  else if is_one_of name ["utf-32"; "utf32"] then
    if hasPrefix data bom32BE then decodeUTF32 (drop 4 data) BigEndian
    else if hasPrefix data bom32LE then decodeUTF32 (drop 4 data) LittleEndian
    else Err DNoBOM
  else if is_one_of name ["utf-32le"; "utf32le"] then
    decodeUTF32 (trimPrefix data bom32LE) LittleEndian
  else if is_one_of name ["utf-32be"; "utf32be"] then
    decodeUTF32 (trimPrefix data bom32BE) BigEndian
  else Err DUnsupported.

(** [charset] is what [contentTypeCharset] finds in the content type, or "". *)
Definition decodePAC (data : bytes) (name charset : string) : result DecodeErr bytes :=
  let name := normName name in
  if String.eqb name "auto" then
    if negb (String.eqb charset "") then
      let name := normName charset in
      if String.eqb name "auto" then decodeAuto data else decodeNamed data name
    else decodeAuto data
  else decodeNamed data name.

(** ** Addresses *)

(** Interface addresses, in 16-byte form. *)
Definition usable (ip : IP) : bool :=
  match to_v4 ip with
  | None => false
  | Some _ => negb (IsLoopback ip || IsUnspecified ip || IsMulticast ip || IsLinkLocalUnicast ip)
  end.

Definition rank (ip : IP) : Z := if IsPrivate ip then 0 else 1.

(** The order [sort.Slice] sorts by; 4-byte addresses compare as numbers. *)
Definition better (a b : IP) : bool :=
  if negb (rank a =? rank b) then rank a <? rank b else a <? b.

(** The first of the sorted candidates. *)
Definition selectMyIPAddressFrom (addrs : list IP) : string :=
  match bfilter usable addrs with
  | [] => localhostIP
  | ip :: ips => IPString (fold_left (fun best x => if better x best then x else best) ips ip)
  end.

Definition DNSResolve (ips : list IP) : string :=
  match ips with
  | [] => ""
  | ip0 :: _ => match List.find is_v4 ips with
                | Some ip => IPString ip
                | None => IPString ip0
                end
  end.

(** ** Lemmas: results *)

Definition is_token (t : string) : bool := negb (String.eqb t "").
Definition tokensOf (l : list string) : list string := bfilter is_token (map TrimSpace l).

Lemma not_any_no_char s cs c :
  ContainsAny s cs = false -> in_chars cs c = true -> no_char c s = true.
Proof.
  unfold ContainsAny, str_exists, no_char. intros H Hc. apply negb_false_iff in H.
  revert H. apply str_forall_impl. intros d Hd. apply negb_true_iff in Hd. apply negb_true_iff.
  destruct (Ascii.eqb_spec d c) as [->|]; congruence.
Qed.

Lemma directive_no_comma token c : directive token = Ok c -> no_char "," c = true.
Proof.
  unfold directive. destruct (Fields token) as [|f [|target [|]]]; try done.
  - case_if; [|done]. by intros [= <-].
  - destruct (ContainsAny target ",;") eqn:E; [done|].
    pose proof (not_any_no_char target ",;" "," E eq_refl) as Ht.
    assert (forall pre, no_char "," pre = true -> no_char "," (pre +:+ target) = true) as Hp.
    { intros pre Hpre. unfold no_char in *. by rewrite str_forall_app, Hpre, Ht. }
    repeat case_if; intros [= <-]; first [done | by apply (Hp "https://") | by apply (Hp "socks4://")
      | by apply (Hp "socks4a://") | by apply (Hp "socks5://")].
Qed.

Lemma normalizeStep_blank acc raw :
  is_token (TrimSpace raw) = false -> normalizeStep acc raw = Ok acc.
Proof. unfold normalizeStep, is_token. by destruct (String.eqb (TrimSpace raw) ""). Qed.

Lemma normalizeStep_token acc raw :
  is_token (TrimSpace raw) = true ->
  normalizeStep acc raw =
    if maxPACCandidates <=? Z.of_nat (length acc) then Err ETooMany
    else c ← directive (TrimSpace raw); Ok (acc ++ [c]).
Proof. unfold normalizeStep, is_token. by destruct (String.eqb (TrimSpace raw) ""). Qed.

Lemma tokensOf_cons raw l :
  tokensOf (raw :: l) =
    if is_token (TrimSpace raw) then TrimSpace raw :: tokensOf l else tokensOf l.
Proof. done. Qed.

Lemma normalize_fold l acc out :
  Z.of_nat (length acc) <= maxPACCandidates ->
  foldM normalizeStep l acc = Ok out <->
  exists cs, out = acc ++ cs /\ Forall2 (fun t c => directive t = Ok c) (tokensOf l) cs /\
    Z.of_nat (length out) <= maxPACCandidates.
Proof.
  revert acc out. induction l as [|raw l IH]; intros acc out Hacc.
  - simpl. split.
    + intros [= <-]. exists []. by rewrite app_nil_r.
    + intros (cs & -> & H & _). inversion H. by rewrite app_nil_r.
  - cbn [foldM]. rewrite tokensOf_cons. destruct (is_token (TrimSpace raw)) eqn:Et.
    2: { rewrite normalizeStep_blank by done. by apply IH. }
    rewrite normalizeStep_token by done.
    destruct (Z.leb_spec maxPACCandidates (Z.of_nat (length acc))) as [Hfull|Hroom].
    { split; [done|]. intros (cs & -> & H & Hlen). inversion H; subst.
      rewrite length_app in Hlen. simpl in Hlen. lia. }
    destruct (directive (TrimSpace raw)) as [c|e] eqn:Ed; cbn [mbind result_bind].
    + change (Ok c ≫= (fun c => Ok (acc ++ [c]))) with (@Ok PacErr _ (acc ++ [c])).
      cbn [mbind result_bind].
      rewrite IH by (rewrite length_app; simpl; lia). split.
      * intros (cs & -> & H & Hlen). exists (c :: cs). rewrite <- app_assoc.
        rewrite <- app_assoc in Hlen. split_and!; [done|by constructor|done].
      * intros (cs & -> & H & Hlen). inversion H as [|? c' ? cs' Hc Hcs]; subst.
        assert (c' = c) as -> by congruence. exists cs'. by rewrite <- app_assoc.
    + split; [done|]. intros (cs & -> & H & Hlen). inversion H; subst. congruence.
Qed.

(** ** Lemmas: decoding *)

Definition code_point (r : Z) : Prop := 0 <= r <= 1114111 /\ ~ (55296 <= r <= 57343).

(** UTF-16 and UTF-32 encodings. *)
Definition encode16 (r : Z) : list Z :=
  if r <? 65536 then [r] else [55296 + (r - 65536) / 1024; 56320 + (r - 65536) mod 1024].
Definition put16 (o : byteOrder) (u : Z) : bytes :=
  match o with LittleEndian => [u mod 256; u / 256] | BigEndian => [u / 256; u mod 256] end.
Definition put32 (o : byteOrder) (r : Z) : bytes :=
  let l := [r mod 256; r / 256 mod 256; r / 65536 mod 256; r / 16777216] in
  match o with LittleEndian => l | BigEndian => rev l end.
Definition bom16 (o : byteOrder) : bytes :=
  match o with LittleEndian => [255; 254] | BigEndian => [254; 255] end.

Lemma units16_put o us :
  units16 o (mjoin (map (put16 o) us)) = Some us.
Proof.
  induction us as [|u us IH]; [done|]. simpl. destruct o; simpl; rewrite IH; simpl;
    do 2 f_equal; pose proof (Z.div_mod u 256 ltac:(lia)); lia.
Qed.

Lemma runes16_encode rs :
  Forall code_point rs -> runes16 (mjoin (map encode16 rs)) = Ok rs.
Proof.
  induction 1 as [|r rs [Hr Hs] _ IH]; [done|]. simpl. unfold encode16 at 1.
  destruct (Z.ltb_spec r 65536) as [Hlt|Hge]; simpl.
  - replace ((55296 <=? r) && (r <=? 56319)) with false by lia.
    replace ((56320 <=? r) && (r <=? 57343)) with false by lia. by rewrite IH.
  - pose proof (Z.div_mod (r - 65536) 1024 ltac:(lia)).
    pose proof (Z.mod_pos_bound (r - 65536) 1024 ltac:(lia)).
    assert (0 <= (r - 65536) / 1024 <= 1023) by
      (split; [apply Z.div_pos; lia|enough ((r - 65536) / 1024 < 1024) by lia; apply Z.div_lt_upper_bound; lia]).
    set (q := (r - 65536) / 1024) in *. set (m := (r - 65536) mod 1024) in *.
    replace ((55296 <=? 55296 + q) && (55296 + q <=? 56319)) with true by lia.
    replace ((56320 + m <? 56320) || (57343 <? 56320 + m)) with false by lia.
    rewrite IH. simpl. do 2 f_equal. unfold surrogates. lia.
Qed.

Lemma runes32_put o rs :
  Forall code_point rs -> runes32 o (mjoin (map (put32 o) rs)) = Ok rs.
Proof.
  induction 1 as [|r rs [Hr Hs] _ IH]; [done|].
  assert (Uint32 LittleEndian (r mod 256) (r / 256 mod 256) (r / 65536 mod 256) (r / 16777216) = r) as Hval.
  { unfold Uint32. pose proof (Z.div_mod r 256 ltac:(lia)).
    pose proof (Z.div_mod (r / 256) 256 ltac:(lia)).
    pose proof (Z.div_mod (r / 65536) 256 ltac:(lia)).
    rewrite (Z.div_div r 256 256) in * by lia. rewrite (Z.div_div r 65536 256) in * by lia.
    change (256 * 256) with 65536 in *. change (65536 * 256) with 16777216 in *. lia. }
  destruct o; simpl; unfold Uint32 in *; simpl in *; rewrite Hval;
    replace ((1114111 <? r) || (55296 <=? r) && (r <=? 57343)) with false by lia; by rewrite IH.
Qed.

Lemma put32_length o rs : Z.of_nat (length (mjoin (map (put32 o) rs))) mod 4 = 0.
Proof.
  assert (length (mjoin (map (put32 o) rs)) = 4 * length rs)%nat as ->.
  { induction rs as [|r rs IH]; [done|]. simpl. rewrite length_app, IH. destruct o; simpl; lia. }
  replace (Z.of_nat (4 * length rs)) with (Z.of_nat (length rs) * 4) by lia. apply Z.mod_mul. lia.
Qed.

(** ** Lemmas: loading *)

Section LoadLemmas.
Context {Runtime LErr : Type}.

(** Each attempt starts at least [gap] after the end of the one before it. *)
Fixpoint spaced (gap : Duration) (l : list (Time * Time)) : Prop :=
  match l with
  | [] => True
  | (_, done) :: l' =>
      match l' with [] => True | (next, _) :: _ => gap <= next - done end /\ spaced gap l'
  end.

Lemma attempts_spaced (p : Pac Runtime LErr) rs :
  spaced pacRetryInterval (attempts p rs) /\
  (runtime p <> None -> attempts p rs = []) /\
  (forall e s d l, lastLoadErr p = Some e -> attempts p rs = (s, d) :: l ->
     pacRetryInterval <= s - lastLoadAttempt p).
Proof.
  revert p. induction rs as [|r rs IH]; intros p; [done|]. simpl. unfold ensureLoaded.
  destruct (runtime p) as [rt|] eqn:Er.
  { destruct (IH p) as (H1 & H2 & H3). simpl. rewrite H2 by congruence. split_and!; done. }
  assert (forall p1 o, afterLoad (rqLoaded r) (rqDone r) p = (o, p1) ->
    spaced pacRetryInterval ((rqNow r, rqDone r) :: attempts p1 rs)) as Hnext.
  { intros p1 o Ha. destruct (IH p1) as (H1 & H2 & H3).
    unfold afterLoad in Ha. destruct (rqLoaded r) as [rt|e]; injection Ha as <- <-.
    - rewrite H2 by done. done.
    - specialize (H3 e). simpl in H3. destruct (attempts _ rs) as [|[s d] l]; [done|].
      split; [|exact H1]. pose proof (H3 s d l eq_refl eq_refl). lia. }
  destruct (lastLoadErr p) as [e|] eqn:Ee.
  - destruct (Z.ltb_spec (subT (rqNow r) (lastLoadAttempt p)) pacRetryInterval) as [Hlt|Hge]; simpl.
    + destruct (IH p) as (H1 & H2 & H3). rewrite Ee in H3. split_and!; [done|congruence|done].
    + destruct (afterLoad _ _ p) as [o p1] eqn:Ea. simpl. specialize (Hnext p1 o eq_refl).
      split; [exact Hnext|split; [congruence|]]. intros e' s d l _ [= <- <- <-].
      unfold subT, pacRetryInterval, min_int64, max_int64, Second in *. lia.
  - destruct (afterLoad _ _ p) as [o p1] eqn:Ea. simpl. specialize (Hnext p1 o eq_refl).
    split; [exact Hnext|split; congruence].
Qed.

End LoadLemmas.

(** ** Properties *)

(** [NormalizeResult] accepts exactly the results whose directives are all
    well formed, one to 32 of them, within the size limit, and what it returns
    splits back into exactly their candidates, in order. *)
Theorem normalize_result_spec proxies out :
  NormalizeResult proxies = Ok out <->
  slen proxies <= maxPACResultBytes /\
  exists cs, Forall2 (fun t c => directive t = Ok c) (tokensOf (Split proxies ";")) cs /\
    1 <= Z.of_nat (length cs) <= maxPACCandidates /\ out = Join cs "," /\ Split out "," = cs.
Proof.
  unfold NormalizeResult. destruct (Z.ltb_spec maxPACResultBytes (slen proxies)) as [|Hlen].
  { split; [done|]. intros [? _]. lia. }
  assert (forall cs, Forall2 (fun t c => directive t = Ok c) (tokensOf (Split proxies ";")) cs ->
    cs <> [] -> Split (Join cs ",") "," = cs) as Hsplit.
  { intros cs Hcs Hne. apply Split_Join; [done|]. clear -Hcs.
    induction Hcs as [|t c ts cs Hc _ IH]; [done|]. constructor; [by eapply directive_no_comma|done]. }
  split.
  - destruct (foldM normalizeStep (Split proxies ";") []) as [cs|e] eqn:E; [|done].
    apply normalize_fold in E as (cs' & -> & Hcs & Hle); [|done]. simpl.
    intros Hout. split; [done|]. exists cs'. destruct cs' as [|c cs']; [done|].
    assert (out = Join (c :: cs') ",") as -> by (by injection Hout).
    split_and!; [done|simpl; lia|done|done|by apply (Hsplit (c :: cs'))].
  - intros (_ & cs & Hcs & Hle & -> & _).
    assert (foldM normalizeStep (Split proxies ";") [] = Ok cs) as ->.
    { apply normalize_fold; [done|]. exists cs. split_and!; [done|done|lia]. }
    simpl. destruct cs; [simpl in Hle; lia|done].
Qed.

(** PAC sources decode exactly: a text of Unicode scalar values encoded as
    UTF-16 with a byte-order mark, or as UTF-32 of either byte order, decodes to
    its UTF-8 form. *)
Theorem pac_decoding_roundtrip rs o :
  Forall code_point rs ->
  decodeUTF16 (bom16 o ++ mjoin (map (put16 o) (mjoin (map encode16 rs)))) None true
    = Ok (runes_bytes rs) /\
  decodeUTF16 (bom16 o ++ mjoin (map (put16 o) (mjoin (map encode16 rs)))) (Some LittleEndian) false
    = Ok (runes_bytes rs) /\
  decodeUTF32 (mjoin (map (put32 o) rs)) o = Ok (runes_bytes rs).
Proof.
  intros Hrs. assert (forall ord req,
    decodeUTF16 (bom16 o ++ mjoin (map (put16 o) (mjoin (map encode16 rs)))) ord req
    = Ok (runes_bytes rs)) as H16.
  { intros ord req. unfold decodeUTF16. destruct o; unfold hasPrefix; simpl;
      rewrite drop_0, units16_put, runes16_encode by done; done. }
  split_and!; [apply H16|apply H16|]. unfold decodeUTF32. rewrite put32_length. simpl.
  by rewrite runes32_put.
Qed.

(** a broken PAC source is not fetched on every request: over any sequence of
    requests, each load attempt begins at least 30 seconds after the failed one
    before it, and none is made once a generation is active. *)
Theorem pac_retry_spaced {Runtime LErr} (p : Pac Runtime LErr) rs :
  spaced pacRetryInterval (attempts p rs) /\ (runtime p <> None -> attempts p rs = []).
Proof. destruct (attempts_spaced p rs) as (? & ? & _). done. Qed.

(** ** Witnesses *)

Lemma pac_decoding_roundtrip_witness :
  decodeUTF16 (bom16 BigEndian ++ mjoin (map (put16 BigEndian) (mjoin (map encode16 [102; 128512]))))
    None true = Ok (runes_bytes [102; 128512]) /\
  runes_bytes [102; 128512] = [102; 240; 159; 152; 128].
Proof.
  split; [|reflexivity]. apply (pac_decoding_roundtrip [102; 128512] BigEndian).
  unfold code_point. repeat constructor; lia.
Defined.

Example normalize1 :
  NormalizeResult "PROXY p1:8080; SOCKS s:1080 ;; direct" = Ok "p1:8080,socks5://s:1080,DIRECT".
Proof. reflexivity. Qed.

End Pc.
