(* ===== verification/PacUtils.v ===== *)
(** * PacUtils: the functions a PAC program may call, and how a program is loaded and run
    ([internal/pac/pac.go])

    The JavaScript prelude [pacUtils] is part of the sources: its functions on
    addresses, names, patterns and dates are translated here, with 32-bit integers
    where JavaScript has them and a calendar of its own for [Date].  Compiling and
    running the program itself is the library's; what the sources do around it, the
    reading of the text and the timer that interrupts it, is modelled. *)

From S2P Require Export Prelude GoStrings.
From S2P Require Import NetAddr GoText Pac.

Module Pu.

(** ** Names and addresses *)

Definition dnsDomainIs (host domain : string) : bool := HasSuffix host domain.
Definition dnsDomainLevels (host : string) : Z := zlen (Split host ".") - 1.

(** [/^(\d{1,3})\.(\d{1,3})\.(\d{1,3})\.(\d{1,3})$/]: four pieces of one to three digits,
    compared as numbers. *)
Definition octetText (s : string) : option Z :=
  if (1 <=? slen s) && (slen s <=? 3) then digits_val 0 s else None.
Definition isValidIpAddress (ipchars : string) : bool :=
  match Split ipchars "." with
  | [a; b; c; d] =>
      match octetText a, octetText b, octetText c, octetText d with
      | Some a, Some b, Some c, Some d => negb ((255 <? a) || (255 <? b) || (255 <? c) || (255 <? d))
      | _, _, _, _ => false
      end
  | _ => false
  end.

(** The result of a bit operation. *)
Definition i32 (z : Z) : Z := (z + 2 ^ 31) mod 2 ^ 32 - 2 ^ 31.

(** [bytes[i] & 0xff]: a piece that is no number, or missing, counts as 0. *)
Definition byteOf (pieces : list string) (i : nat) : Z :=
  match pieces !! i with
  | Some p => if String.eqb p "" then 0 else match digits_val 0 p with Some v => Z.land v 255 | None => 0 end
  | None => 0
  end.
Definition convert_addr (ipchars : string) : Z :=
  let bytes := Split ipchars "." in
  let shl z n := i32 (Z.shiftl z n) in
  Z.lor (Z.lor (Z.lor (shl (byteOf bytes 0) 24) (shl (byteOf bytes 1) 16)) (shl (byteOf bytes 2) 8)) (byteOf bytes 3).

Definition isInNet (dnsResolve : string -> string) (ipaddr pattern maskstr : string) : bool :=
  if negb (isValidIpAddress pattern) || negb (isValidIpAddress maskstr) then false
  else
    let compare ipaddr :=
      let host := convert_addr ipaddr in
      let pat := convert_addr pattern in
      let mask := convert_addr maskstr in
      Z.land host mask =? Z.land pat mask in
    if negb (isValidIpAddress ipaddr) then
      let ipaddr := dnsResolve ipaddr in
      if String.eqb ipaddr "" then false else compare ipaddr
    else compare ipaddr.

Definition isPlainHostName (host : string) : bool := negb (ContainsAny host ".:").
Definition isResolvable (dnsResolve : string -> string) (host : string) : bool := negb (String.eqb (dnsResolve host) "").
Definition localHostOrDomainIs (host hostdom : string) : bool := String.eqb host hostdom || HasPrefix hostdom (host +:+ ".").

(** ** Shell patterns *)

Definition backslash : ascii := chr 92.

(** [shexp.replace(/[.+^${}()|[\]\\]/g, '\\$&')]. *)
Definition special (c : ascii) : bool := in_chars (".+^${}()|[]" +:+ String backslash "") c.
Fixpoint escape (s : string) : string :=
  match s with
  | EmptyString => ""
  | String c s => if special c then String backslash (String c (escape s)) else String c (escape s)
  end.
(** [.replace(/\*/g, '.*')] and [.replace(/\?/g, '.')]. *)
Fixpoint stars (s : string) : string :=
  match s with EmptyString => "" | String c s => if Ascii.eqb c "*" then String "." (String "*" (stars s)) else String c (stars s) end.
Definition marks (s : string) : string := ReplaceChar s "?" ".".
Definition shExpRegExp (shexp : string) : string := marks (stars (escape shexp)).

(** What a regular expression of this kind means: literals, [\c], [.] and [.*]. *)
Inductive Token := Lit (c : ascii) | AnyOne | AnyMany.
Fixpoint parseRegExp (re : string) : list Token :=
  match re with
  | EmptyString => []
  | String c rest =>
      if Ascii.eqb c backslash then
        match rest with String d rest => Lit d :: parseRegExp rest | EmptyString => [] end
      else if Ascii.eqb c "." then
        match rest with
        | String d rest' => if Ascii.eqb d "*" then AnyMany :: parseRegExp rest' else AnyOne :: parseRegExp rest
        | EmptyString => [AnyOne]
        end
      else Lit c :: parseRegExp rest
  end.

(** [.] matches no line break. *)
Definition dot (c : ascii) : bool := negb (Ascii.eqb c LF || Ascii.eqb c CR).
(** The whole string, as between [^] and [$]. *)
Fixpoint matches (ts : list Token) (s : string) : bool :=
  match ts with
  | [] => String.eqb s ""
  | Lit c :: ts => match s with String d s => Ascii.eqb c d && matches ts s | EmptyString => false end
  | AnyOne :: ts => match s with String d s => dot d && matches ts s | EmptyString => false end
  | AnyMany :: ts =>
      (fix many s := matches ts s || match s with String d s => dot d && many s | EmptyString => false end) s
  end.
Definition shExpMatch (str shexp : string) : bool := matches (parseRegExp (shExpRegExp shexp)) str.

(** ** Days and times *)

Definition wdays : list (string * Z) := [("SUN", 0); ("MON", 1); ("TUE", 2); ("WED", 3); ("THU", 4); ("FRI", 5); ("SAT", 6)].
Definition months : list (string * Z) :=
  [("JAN", 0); ("FEB", 1); ("MAR", 2); ("APR", 3); ("MAY", 4); ("JUN", 5); ("JUL", 6); ("AUG", 7); ("SEP", 8); ("OCT", 9); ("NOV", 10); ("DEC", 11)].
(** [name in table ? table[name] : -1]; no argument names a property that every object has. *)
Definition named (table : list (string * Z)) (name : string) : Z :=
  match List.find (fun e => String.eqb name (fst e)) table with Some e => snd e | None => -1 end.

(** A [Date] by its fields: month from 0, the milliseconds of the day. *)
Record JSDate := mkDate { dYear : Z; dMonth : Z; dDate : Z; dMs : Z }.
(** The current time: its local fields, the zone that gives their UTC fields (one without
    local times that a change of the clock skips), and the days of the week. *)
Record Now := mkNow { local : JSDate; toUTC : JSDate -> JSDate; localDay : Z; utcDay : Z }.
Definition utc (now : Now) : JSDate := toUTC now (local now).

Definition weekdayRange (now : Now) (args : list string) : bool :=
  match args with
  | [] => false
  | first :: _ =>
      let gmt := bool_decide (last args = Some "GMT") in
      let argc := if gmt then zlen args - 1 else zlen args in
      let wday := if gmt then utcDay now else localDay now in
      let wd1 := named wdays first in
      let wd2 := if argc =? 2 then named wdays (nth 1 args "") else wd1 in
      if (wd1 =? -1) || (wd2 =? -1) then false
      else if wd1 <=? wd2 then (wd1 <=? wday) && (wday <=? wd2)
      else (wday <=? wd2) || (wd1 <=? wday)
  end.

Definition inWrappedRange (value start_ end_ : Z) : bool :=
  if start_ <=? end_ then (start_ <=? value) && (value <=? end_) else (start_ <=? value) || (value <=? end_).

Definition hoursOf (d : JSDate) : Z := dMs d / 3600000.

(** The numbers, and whether ["GMT"] follows; [None] is the exception. *)
Definition timeRange (now : Now) (args : list Z) (gmt : bool) : option bool :=
  match args, gmt with
  | [], false => Some false
  | _, _ =>
      let d := if gmt then utc now else local now in
      let hour := hoursOf d in
      let minute := dMs d / 60000 mod 60 in
      let second := dMs d / 1000 mod 60 in
      let millisecond := dMs d mod 1000 in
      let t := ((hour * 60 + minute) * 60 + second) * 1000 + millisecond in
      match args with
      | [a] => Some (hour =? a)
      | [a; b] => Some (inWrappedRange hour a b)
      | [a; b; c; e] => Some (inWrappedRange t ((a * 60 + b) * 60 * 1000) (((c * 60 + e) * 60 + 59) * 1000 + 999))
      | [a; b; c; e; f; g] =>
          Some (inWrappedRange t (((a * 60 + b) * 60 + c) * 1000) (((e * 60 + f) * 60 + g) * 1000 + 999))
      | _ => None
      end
  end.

(** *** The calendar of [Date] *)

Definition isLeap (y : Z) : bool := (y mod 4 =? 0) && (negb (y mod 100 =? 0) || (y mod 400 =? 0)).
Definition monthDays (y m : Z) : Z :=
  if m =? 1 then (if isLeap y then 29 else 28) else if existsb (Z.eqb m) [3; 5; 8; 10] then 30 else 31.

(** Days beyond the end of the month, or before its start, move to the next or the last one. *)
Fixpoint carryDays (fuel : nat) (y m d : Z) : Z * Z * Z :=
  match fuel with
  | O => (y, m, d)
  | S fuel =>
      if d <? 1 then
        let '(y', m') := if m =? 0 then (y - 1, 11) else (y, m - 1) in carryDays fuel y' m' (d + monthDays y' m')
      else if monthDays y m <? d then
        let '(y', m') := if m =? 11 then (y + 1, 0) else (y, m + 1) in carryDays fuel y' m' (d - monthDays y m)
      else (y, m, d)
  end.
Definition MakeDay (y m d : Z) : Z * Z * Z := carryDays (Z.to_nat (Z.abs d / 28 + 2)) (y + m / 12) (m mod 12) d.
Definition makeDate (y m d ms : Z) : JSDate := let '(y, m, d) := MakeDay y m d in mkDate y m d ms.

Definition setDate (n : Z) (d : JSDate) : JSDate := makeDate (dYear d) (dMonth d) n (dMs d).
Definition setMonth (n : Z) (d : JSDate) : JSDate := makeDate (dYear d) n (dDate d) (dMs d).
Definition setFullYear (n : Z) (d : JSDate) : JSDate := makeDate n (dMonth d) (dDate d) (dMs d).

Definition setMs (ms : Z) (d : JSDate) : JSDate := mkDate (dYear d) (dMonth d) (dDate d) ms.
Definition setHours (h : Z) (d : JSDate) : JSDate := setMs (h * 3600000 + dMs d mod 3600000) d.
Definition setMinutes (m : Z) (d : JSDate) : JSDate := setMs (hoursOf d * 3600000 + m * 60000 + dMs d mod 60000) d.
Definition setSeconds (s : Z) (d : JSDate) : JSDate := setMs (dMs d / 60000 * 60000 + s * 1000 + dMs d mod 1000) d.

(** [tmpDate] is [date] itself: each field is read after the earlier ones were written. *)
Definition toGMT (zone : JSDate -> JSDate) (date : JSDate) : JSDate :=
  let date := setFullYear (dYear (zone date)) date in
  let date := setMonth (dMonth (zone date)) date in
  let date := setDate (dDate (zone date)) date in
  let date := setHours (hoursOf (zone date)) date in
  let date := setMinutes (dMs (zone date) / 60000 mod 60) date in
  setSeconds (dMs (zone date) / 1000 mod 60) date.

(** [<=] on dates. *)
Definition dateLe (a b : JSDate) : bool :=
  if negb (dYear a =? dYear b) then dYear a <? dYear b
  else if negb (dMonth a =? dMonth b) then dMonth a <? dMonth b
  else if negb (dDate a =? dDate b) then dDate a <? dDate b
  else dMs a <=? dMs b.

(** An argument: a number, or a text [parseInt] reads no number in. *)
Inductive DArg := Num (n : Z) | Name (s : string).

Definition dateRange (now : Now) (args : list DArg) (gmt : bool) : bool :=
  if zlen args + (if gmt then 1 else 0) <? 1 then false else
  match args with
  | [a] =>
      let d := if gmt then utc now else local now in
      match a with
      | Name s => dMonth d =? named months s
      | Num n => if n <? 32 then dDate d =? n else dYear d =? n
      end
  | _ =>
      let argc := zlen args in
      let half := Z.to_nat (argc / 2) in
      let date := local now in
      let year := dYear date in
      let set_ d a :=
        match a with Name s => setMonth (named months s) d | Num n => if n <? 32 then setDate n d else setFullYear n d end in
      let date1 := fold_left set_ (take half args) (mkDate year 0 1 0) in
      let date2 := fold_left set_ (drop half args) (mkDate year 11 31 86399000) in
      let adjustMonth := existsb (fun a => match a with Num n => n <? 32 | _ => false end) (take half args) && (argc <=? 2) in
      let adjust d := if adjustMonth then setMonth (dMonth date) d else d in
      let date1 := adjust date1 in
      let date2 := adjust date2 in
      let date :=
        if gmt then toGMT (toUTC now) date else date in
      if dateLe date1 date2 then dateLe date1 date && dateLe date date2 else dateLe date date2 || dateLe date1 date
  end.

(** ** Loading *)

Definition maxPACBytes : Z := Z.shiftl 4 20.

Inductive ReadErr := EGet | EStatus (code : Z) | EBody | ETooLarge | EFile.
(** The answer to the request: its status, content type and body, which may break off. *)
Record Response := mkResponse { rStatus : Z; rContentType : string; rBody : bytes; rBroken : bool }.

(** [io.ReadAll] of a [LimitReader] reads the body or one byte more than is wanted. *)
Definition readPACSource (location : string) (get : string -> option Response) (readFile : string -> option bytes)
  : result ReadErr (bytes * string) :=
  let loc := ToLower location in
  if HasPrefix loc "http://" || HasPrefix loc "https://" then
    match get location with
    | None => Err EGet
    | Some resp =>
        if (rStatus resp <? 200) || (300 <=? rStatus resp) then Err (EStatus (rStatus resp))
        else
          let data := take (Z.to_nat (maxPACBytes + 1)) (rBody resp) in
          if rBroken resp && (zlen (rBody resp) <=? maxPACBytes) then Err EBody
          else if maxPACBytes <? zlen data then Err ETooLarge
          else Ok (data, rContentType resp)
    end
  else match readFile location with Some data => Ok (data, "") | None => Err EFile end.

Section Load.
(** The library: the program of a text, and a runtime of a program, in which the
    prelude's natives are set. *)
Context {Program VM : Type} (compile : bytes -> option Program) (newVM : Program -> option VM) (charset : string -> string)
  (pacUtils : bytes).

Inductive LoadErr := LRead (e : ReadErr) | LDecode (e : Pc.DecodeErr) | LCompile | LInit.
Record pacRuntime := mkRuntime { program : Program; myIP : string; rtVM : VM }.

Definition load (location encoding : string) (get : string -> option Response) (readFile : string -> option bytes) (addrs : list IP)
  : result LoadErr pacRuntime :=
  match readPACSource location get readFile with
  | Err e => Err (LRead e)
  | Ok (data, contentType) =>
      match Pc.decodePAC data encoding (charset contentType) with
      | Err e => Err (LDecode e)
      | Ok text =>
          match compile (pacUtils ++ [10] ++ text) with
          | None => Err LCompile
          | Some prog =>
              match newVM prog with
              | None => Err LInit
              | Some vm => Ok (mkRuntime prog (Pc.selectMyIPAddressFrom addrs) vm)
              end
          end
      end
  end.
End Load.

(** ** The timer around an evaluation: [runPACBounded]

    The function of the timer runs in a goroutine of its own: it interrupts the runtime, then
    closes the channel. *)

Inductive Timer := Armed | Stopped | Firing | Interrupted | Closed.
Inductive Main := Running | Stopping | Waiting | Clearing | Finished.
Record Bounded := mkBounded { timer : Timer; main : Main; flag : bool (* the interrupt of the runtime *) }.

Definition startBounded (timeout : Duration) : Bounded := mkBounded (if timeout <=? 0 then Stopped else Armed) Running false.

Inductive BStep (timeout : Duration) : Bounded -> Bounded -> Prop :=
| b_fire m f : BStep timeout (mkBounded Armed m f) (mkBounded Firing m f)
| b_interrupt m f : BStep timeout (mkBounded Firing m f) (mkBounded Interrupted m true)
| b_close m f : BStep timeout (mkBounded Interrupted m f) (mkBounded Closed m f)
| b_return t f : BStep timeout (mkBounded t Running f) (mkBounded t (if timeout <=? 0 then Finished else Stopping) f)
| b_stop f : BStep timeout (mkBounded Armed Stopping f) (mkBounded Stopped Clearing f)
| b_late t f : t <> Armed -> BStep timeout (mkBounded t Stopping f) (mkBounded t Waiting f)
| b_closed f : BStep timeout (mkBounded Closed Waiting f) (mkBounded Closed Clearing f)
| b_clear t f : BStep timeout (mkBounded t Clearing f) (mkBounded t Finished false).

(** * Lemmas *)

(** ** Addresses *)

Lemma testbit_high y n i : 0 <= y < 2 ^ n -> n <= i -> Z.testbit y i = false.
Proof.
  intros Hy Hi. assert (0 <= n) by (destruct (decide (0 <= n)); [done|rewrite Z.pow_neg_r in Hy by lia; lia]).
  rewrite <- (Z.mod_small y (2 ^ n)) by done. by apply Z.mod_pow2_bits_high.
Qed.

Lemma lor_disjoint x y n : 0 <= n -> 0 <= y < 2 ^ n -> Z.lor (x * 2 ^ n) y = x * 2 ^ n + y.
Proof.
  intros Hn Hy. assert (Z.land (x * 2 ^ n) y = 0) as E.
  { rewrite <- Z.shiftl_mul_pow2 by done. apply Z.bits_inj'. intros i Hi. rewrite Z.land_spec, Z.bits_0.
    destruct (decide (i < n)); [by rewrite Z.shiftl_spec_low|].
    by rewrite (testbit_high y n) by lia; rewrite andb_false_r. }
  rewrite <- Z.lxor_lor, <- Z.add_nocarry_lxor; done.
Qed.

(** The address of a text of four octets, as one number. *)
Definition quad (s : string) : option Z :=
  match Split s "." with
  | [a; b; c; d] =>
      a ← octetText a; b ← octetText b; c ← octetText c; d ← octetText d;
      if (a <=? 255) && (b <=? 255) && (c <=? 255) && (d <=? 255) then Some (((a * 256 + b) * 256 + c) * 256 + d) else None
  | _ => None
  end.

Lemma digits_val_nonneg s a v : 0 <= a -> digits_val a s = Some v -> 0 <= v.
Proof. revert a. induction s as [|c s IH]; intros a Ha; cbn; [by intros [= <-]|].
  destruct (is_digit c) eqn:E; [|done]. apply IH. pose proof (digit_val_range c E). lia. Qed.

Lemma octetText_byte s v : octetText s = Some v -> digits_val 0 s = Some v /\ s <> "" /\ 0 <= v.
Proof.
  unfold octetText. intros H. destruct (_ && _) eqn:E; [|done]. to_prop.
  split; [done|]. split; [by intros ->|]. by eapply digits_val_nonneg, H.
Qed.

Lemma byteOf_octet l i p v : l !! i = Some p -> octetText p = Some v -> v <= 255 -> byteOf l i = v.
Proof.
  intros Hp (Hv & Hne & H0)%octetText_byte Hle. unfold byteOf. rewrite Hp, Hv.
  destruct (String.eqb_spec p ""); [done|]. change 255 with (Z.ones 8). rewrite Z.land_ones by lia. apply Z.mod_small. lia.
Qed.

Lemma octet_bounds s v : octetText s = Some v -> 0 <= v.
Proof. by intros (_ & _ & ?)%octetText_byte. Qed.

Lemma quad_valid s h : quad s = Some h -> isValidIpAddress s = true.
Proof.
  unfold quad, isValidIpAddress. destruct (Split s ".") as [|a [|b [|c [|d [|]]]]]; try done.
  destruct (octetText a), (octetText b), (octetText c), (octetText d); cbn [mbind option_bind]; try done.
  destruct (_ && _) eqn:E; [|done]. lia.
Qed.

(** The address of a valid text is the number of its octets, in 32 bits with a sign. *)
Lemma convert_quad s h : quad s = Some h -> 0 <= h < 2 ^ 32 /\ convert_addr s = (if h <? 2 ^ 31 then h else h - 2 ^ 32).
Proof.
  unfold quad, convert_addr. destruct (Split s ".") as [|a [|b [|c [|d [|]]]]]; try done.
  destruct (octetText a) as [va|] eqn:Ea; [|done]. destruct (octetText b) as [vb|] eqn:Eb; [|done].
  destruct (octetText c) as [vc|] eqn:Ec; [|done]. destruct (octetText d) as [vd|] eqn:Ed; [|done]. cbn [mbind option_bind].
  destruct (_ && _) eqn:E; [|done]. to_prop. intros Hq. assert (((va * 256 + vb) * 256 + vc) * 256 + vd = h) as <- by congruence.
  rewrite (byteOf_octet [a; b; c; d] 0 a va eq_refl Ea), (byteOf_octet [a; b; c; d] 1 b vb eq_refl Eb), (byteOf_octet [a; b; c; d] 2 c vc eq_refl Ec),
    (byteOf_octet [a; b; c; d] 3 d vd eq_refl Ed) by done.
  apply octet_bounds in Ea, Eb, Ec, Ed. split; [lia|]. rewrite !Z.shiftl_mul_pow2 by done.
  assert (forall x n, 0 <= x <= 255 -> 0 <= n <= 16 -> i32 (x * 2 ^ n) = x * 2 ^ n) as Hs.
  { intros x n Hx Hn. assert (0 < 2 ^ n <= 2 ^ 16) by (split; [apply Z.pow_pos_nonneg; lia|apply Z.pow_le_mono_r; lia]).
    unfold i32. rewrite Z.mod_small; [lia|nia]. }
  rewrite (Hs vb 16), (Hs vc 8) by lia.
  assert (i32 (va * 2 ^ 24) = (if va <? 128 then va else va - 256) * 2 ^ 24) as ->.
  { unfold i32. destruct (Z.ltb_spec va 128); [rewrite Z.mod_small; lia|].
    rewrite <- (Z.mod_add _ (-1)) by done. rewrite Z.mod_small; lia. }
  set (v := if va <? 128 then va else va - 256). rewrite (lor_disjoint _ (vb * 2 ^ 16) 24) by lia.
  replace (v * 2 ^ 24 + vb * 2 ^ 16) with ((v * 2 ^ 8 + vb) * 2 ^ 16) by lia. rewrite (lor_disjoint _ (vc * 2 ^ 8) 16) by lia.
  replace ((v * 2 ^ 8 + vb) * 2 ^ 16 + vc * 2 ^ 8) with (((v * 2 ^ 8 + vb) * 2 ^ 8 + vc) * 2 ^ 8) by lia.
  rewrite (lor_disjoint _ vd 8) by lia. subst v.
  destruct (Z.ltb_spec va 128), (Z.ltb_spec (((va * 256 + vb) * 256 + vc) * 256 + vd) (2 ^ 31)); lia.
Qed.

Lemma land_prefix x k : 0 <= k -> Z.land x (- 2 ^ k) = x / 2 ^ k * 2 ^ k.
Proof.
  intros Hk. replace (- 2 ^ k) with (Z.lnot (Z.ones k)) by (rewrite Z.ones_equiv; unfold Z.lnot; lia).
  change (Z.land x (Z.lnot (Z.ones k))) with (Z.land x (Z.lnot (Z.ones k))). rewrite <- Z.ldiff_land, Z.ldiff_ones_r by done.
  by rewrite Z.shiftl_mul_pow2, Z.shiftr_div_pow2 by done.
Qed.

(** on a mask of [n] leading ones [isInNet] compares the first [n] bits of the address with those of
    the pattern, for every valid text, whatever the signs of the 32-bit numbers in between. *)
Theorem in_net_compares_prefix dnsResolve ip pat mask h p n :
  quad ip = Some h -> quad pat = Some p -> 0 <= n <= 32 -> quad mask = Some (2 ^ 32 - 2 ^ (32 - n)) ->
  isInNet dnsResolve ip pat mask = (h / 2 ^ (32 - n) =? p / 2 ^ (32 - n)).
Proof.
  intros Hi Hp Hn Hm. unfold isInNet. rewrite (quad_valid _ _ Hi), (quad_valid _ _ Hp), (quad_valid _ _ Hm). cbn [negb orb].
  apply convert_quad in Hi as [Bi ->], Hp as [Bp ->], Hm as [Bm ->].
  destruct (decide (n = 0)) as [->|].
  { cbn [Z.sub Z.opp Z.add Z.pow]. rewrite !Z.div_small by (cbn in *; lia). by rewrite !Z.land_0_r. }
  set (k := 32 - n). assert (0 <= k <= 31) by lia. assert (2 ^ 32 = 2 ^ n * 2 ^ k) as E32 by (rewrite <- Z.pow_add_r by lia; f_equal; lia).
  assert (0 < 2 ^ k <= 2 ^ 31) as Hk by (split; [apply Z.pow_pos_nonneg; lia|apply Z.pow_le_mono_r; lia]).
  replace (2 ^ 32 - 2 ^ k <? 2 ^ 31) with false by lia. replace (2 ^ 32 - 2 ^ k - 2 ^ 32) with (- 2 ^ k) by lia.
  rewrite !land_prefix by lia.
  assert (forall x, (x - 2 ^ 32) / 2 ^ k = x / 2 ^ k - 2 ^ n) as Hd
    by (intros x; rewrite E32; replace (x - 2 ^ n * 2 ^ k) with (x + (- 2 ^ n) * 2 ^ k) by lia; rewrite Z.div_add by lia; lia).
  assert (forall x, 0 <= x < 2 ^ 32 -> 0 <= x / 2 ^ k < 2 ^ n) as Hb
    by (intros x Hx; split; [apply Z.div_pos; lia|apply Z.div_lt_upper_bound; lia]).
  pose proof (Hb h Bi). pose proof (Hb p Bp).
  assert (2 ^ 31 = 2 ^ (n - 1) * 2 ^ k) as E31 by (rewrite <- Z.pow_add_r by lia; f_equal; lia).
  assert (forall x, 2 ^ 31 <= x -> 2 ^ (n - 1) <= x / 2 ^ k) as Hu by (intros x Hx; apply Z.div_le_lower_bound; lia).
  assert (forall x, x < 2 ^ 31 -> x / 2 ^ k < 2 ^ (n - 1)) as Hl by (intros x Hx; apply Z.div_lt_upper_bound; lia).
  destruct (Z.ltb_spec h (2 ^ 31)), (Z.ltb_spec p (2 ^ 31)); rewrite ?Hd; apply eq_true_iff_eq; rewrite !Z.eqb_eq; [nia| |  |nia].
  - specialize (Hl h). specialize (Hu p). nia.
  - specialize (Hl p). specialize (Hu h). nia.
Qed.

Theorem in_net_compares_prefix_witness :
  isInNet (fun _ => "") "192.168.7.9" "192.168.0.0" "255.255.0.0" = (3232237321 / 2 ^ 16 =? 3232235520 / 2 ^ 16).
Proof.
  apply (in_net_compares_prefix (fun _ => "") "192.168.7.9" "192.168.0.0" "255.255.0.0" 3232237321 3232235520 16);
    [by vm_compute|by vm_compute|lia|by vm_compute].
Defined.

(** The conversion of anything that is not four octets is not an address: the text of an IPv6
    address has one piece, and a name that resolves to one is taken for 0.0.0.0. *)
Example ipv6_counts_as_zero : isInNet (fun _ => Pc.DNSResolve [Z.shiftl 0x20010db8 96 + 1]) "ipv6.example" "0.0.0.0" "255.0.0.0" = true.
Proof. reflexivity. Qed.

(** ** Shell patterns *)

(** What a pattern means: [*] any text, [?] any character, the others themselves. *)
Inductive Glob : string -> string -> Prop :=
| glob_end : Glob "" ""
| glob_star p s t : str_forall dot s = true -> Glob p t -> Glob (String "*" p) (s +:+ t)
| glob_mark p c t : dot c = true -> Glob p t -> Glob (String "?" p) (String c t)
| glob_char c p t : c <> "*"%char -> c <> "?"%char -> Glob p t -> Glob (String c p) (String c t).

Definition tokenOf (c : ascii) : Token := if Ascii.eqb c "*" then AnyMany else if Ascii.eqb c "?" then AnyOne else Lit c.
Fixpoint tokens (p : string) : list Token := match p with EmptyString => [] | String c p => tokenOf c :: tokens p end.

Lemma special_marks c : special c = true -> Ascii.eqb c "*" = false /\ Ascii.eqb c "?" = false.
Proof. destruct c as [[] [] [] [] [] [] [] []]; vm_compute; try done; auto. Qed.
Lemma special_not c : special c = false -> Ascii.eqb c backslash = false /\ Ascii.eqb c "." = false.
Proof. destruct c as [[] [] [] [] [] [] [] []]; vm_compute; try done; auto. Qed.

Lemma shExpRegExp_cons c p :
  shExpRegExp (String c p) =
    (if special c then String backslash (String c (shExpRegExp p))
     else if Ascii.eqb c "*" then String "." (String "*" (shExpRegExp p))
     else if Ascii.eqb c "?" then String "." (shExpRegExp p) else String c (shExpRegExp p)).
Proof.
  unfold shExpRegExp. cbn [escape]. destruct (special c) eqn:E.
  - destruct (special_marks c E) as [E1 E2]. cbn [stars]. rewrite E1. change (Ascii.eqb backslash "*") with false. cbn [stars].
    unfold marks, ReplaceChar. cbn [str_map]. rewrite E2. reflexivity.
  - cbn [stars]. destruct (Ascii.eqb c "*"); [reflexivity|]. unfold marks, ReplaceChar. cbn [str_map].
    by destruct (Ascii.eqb c "?").
Qed.

Lemma shExpRegExp_head p d r : shExpRegExp p = String d r -> Ascii.eqb d "*" = false.
Proof.
  destruct p as [|c p]; [done|]. rewrite shExpRegExp_cons. destruct (special c); [by intros [= <-]|].
  destruct (Ascii.eqb c "*") eqn:E; [by intros [= <-]|]. destruct (Ascii.eqb c "?"); intros [= <-]; done.
Qed.

(** The regular expression is read as the pattern was meant. *)
Lemma parse_shExp p : parseRegExp (shExpRegExp p) = tokens p.
Proof.
  induction p as [|c p IH]; [done|]. rewrite shExpRegExp_cons. cbn [tokens]. unfold tokenOf.
  destruct (special c) eqn:E.
  { destruct (special_marks c E) as [-> ->]. cbn [parseRegExp]. by rewrite Ascii.eqb_refl, IH. }
  destruct (special_not c E) as [E1 E2]. destruct (Ascii.eqb c "*"); [cbn; by rewrite IH|]. destruct (Ascii.eqb c "?").
  - rewrite <- IH. cbn [parseRegExp]. change (Ascii.eqb "." backslash) with false. change (Ascii.eqb "." ".") with true. cbn iota.
    destruct (shExpRegExp p) as [|d r] eqn:Er; [done|]. by rewrite (shExpRegExp_head _ _ _ Er).
  - cbn [parseRegExp]. by rewrite E1, E2, IH.
Qed.

Lemma matches_many ts s :
  matches (AnyMany :: ts) s = matches ts s || match s with String d s => dot d && matches (AnyMany :: ts) s | EmptyString => false end.
Proof. by destruct s. Qed.

Lemma matches_star ts s : matches (AnyMany :: ts) s = true <-> exists u t, s = u +:+ t /\ str_forall dot u = true /\ matches ts t = true.
Proof.
  induction s as [|c s IH]; rewrite matches_many, orb_true_iff.
  - split; [intros [H|]; [|done]; by exists "", ""|]. intros (u & t & H & _ & Ht). left. by destruct u, t.
  - rewrite andb_true_iff, IH. split.
    + intros [H|[Hd (u & t & -> & Hu & Ht)]]; [by exists "", (String c s)|]. exists (String c u), t. cbn [str_forall]. by rewrite Hd, Hu.
    + intros (u & t & H & Hu & Ht). destruct u as [|c' u]; [left; cbn in H; by rewrite H|]. right.
      change (String c s = String c' (u +:+ t)) in H. cbn [str_forall] in Hu. to_prop.
      assert (c' = c) as -> by congruence. split; [done|]. exists u, t. split; [congruence|]. by split.
Qed.

Lemma tokens_glob p s : matches (tokens p) s = true <-> Glob p s.
Proof.
  revert s. induction p as [|c p IH]; intros s; cbn [tokens].
  - cbn [matches]. rewrite String.eqb_eq. split; [intros ->; constructor|]. by inversion 1.
  - unfold tokenOf. destruct (Ascii.eqb_spec c "*") as [->|Hs].
    + rewrite matches_star. split.
      * intros (u & t & -> & Hu & Ht). constructor; [done|]. by apply IH.
      * intros H. inversion H; subst; [|done]. eexists _, _. by rewrite IH.
    + destruct (Ascii.eqb_spec c "?") as [->|Hm].
      * destruct s as [|d s]; cbn [matches]; [split; [done|inversion 1]|]. rewrite andb_true_iff, IH.
        split; [by intros [? ?]; constructor|]. inversion 1; subst; done.
      * destruct s as [|d s]; cbn [matches]; [split; [done|inversion 1; by subst]|]. rewrite andb_true_iff, IH.
        split; [|inversion 1; subst; try done; by rewrite Ascii.eqb_refl].
        intros [->%Ascii.eqb_eq ?]. by constructor.
Qed.

(** C25: [shExpMatch] builds a regular expression by three replacements of text; it matches exactly the
    texts that fit the shell pattern, with every special character of the pattern standing for itself. *)
Theorem sh_exp_match_is_glob str shexp : shExpMatch str shexp = true <-> Glob shexp str.
Proof. unfold shExpMatch. rewrite parse_shExp. apply tokens_glob. Qed.

(** ** Wrapped ranges *)

Lemma cyclic_le n v s e :
  0 <= v < n -> 0 <= s < n -> 0 <= e < n ->
  (((v - s) mod n <=? (e - s) mod n) = if s <=? e then (s <=? v) && (v <=? e) else (s <=? v) || (v <=? e)).
Proof.
  intros Hv Hs He.
  assert (forall x, 0 <= x < n -> (x - s) mod n = if s <=? x then x - s else x - s + n) as Hm.
  { intros x Hx. destruct (Z.leb_spec s x); [apply Z.mod_small; lia|]. rewrite <- (Z.mod_add _ 1) by lia.
    rewrite Z.mul_1_l. apply Z.mod_small. lia. }
  rewrite !Hm by done. destruct (Z.leb_spec s v), (Z.leb_spec s e); lia.
Qed.

Lemma named_range table k w : Forall (fun e => 0 <= snd e < k) table -> named table w = -1 \/ 0 <= named table w < k.
Proof.
  intros Hf. unfold named. destruct (List.find _ _) as [e|] eqn:E; [right|by left].
  apply List.find_some in E as [Hin _]. rewrite Forall_forall in Hf. apply Hf. by apply list_elem_of_In.
Qed.
Lemma wday_range w : named wdays w = -1 \/ 0 <= named wdays w < 7.
Proof. apply named_range. unfold wdays. repeat constructor; cbn; lia. Qed.

(** between two days of the week [weekdayRange] holds on the days met when counting on from the first
    one to the second, across the end of the week too, in the zone asked for, and for no day when a name
    is unknown. *)
Theorem weekdays_wrap now w1 w2 (gmt : bool) :
  0 <= localDay now < 7 -> 0 <= utcDay now < 7 -> w2 <> "GMT" ->
  weekdayRange now ([w1; w2] ++ if gmt then ["GMT"] else []) =
    let day := if gmt then utcDay now else localDay now in
    negb (named wdays w1 =? -1) && negb (named wdays w2 =? -1) &&
    ((day - named wdays w1) mod 7 <=? (named wdays w2 - named wdays w1) mod 7).
Proof.
  intros Hl Hu Hg. unfold weekdayRange. destruct gmt; cbn [app last nth].
  2: rewrite bool_decide_eq_false_2 by congruence.
  1: rewrite bool_decide_eq_true_2 by done.
  all: match goal with |- context [if ?a =? 2 then _ else _] => change (a =? 2) with true end; cbn iota.
  all: destruct (wday_range w1) as [->|H1]; [done|]; destruct (wday_range w2) as [->|H2]; [by destruct (_ =? _)|].
  all: rewrite cyclic_le by lia; replace (named wdays w1 =? -1) with false by lia; replace (named wdays w2 =? -1) with false by lia;
    cbn [orb negb andb]; destruct (_ <=? _); [done|apply orb_comm].
Qed.

Definition saturday : Now := mkNow (mkDate 2024 2 2 82800000) (fun d => makeDate (dYear d) (dMonth d) (dDate d + 1) 14400000) 6 0.
Theorem weekdays_wrap_witness : weekdayRange saturday ["SAT"; "MON"; "GMT"] = true.
Proof. etransitivity; [apply (weekdays_wrap saturday "SAT" "MON" true); [vm_compute; intuition discriminate..|discriminate]|reflexivity]. Defined.

(** between two hours [timeRange] holds on the hours met when counting on from the first one to the
    second, across midnight too. *)
Theorem hours_wrap now a b (gmt : bool) :
  let hour := hoursOf (if gmt then utc now else local now) in
  0 <= hour < 24 -> 0 <= a < 24 -> 0 <= b < 24 ->
  timeRange now [a; b] gmt = Some ((hour - a) mod 24 <=? (b - a) mod 24).
Proof.
  intros hour Hh Ha Hb. unfold timeRange. fold hour. by rewrite cyclic_le by done.
Qed.

Theorem hours_wrap_witness : timeRange saturday [22; 6] false = Some true.
Proof. etransitivity; [apply (hours_wrap saturday 22 6 false); vm_compute; intuition discriminate|reflexivity]. Defined.

(** ** The calendar *)

(** The days before a date, counted from the beginning of the calendar. *)
Definition daysBeforeYear (y : Z) : Z := 365 * y + (y - 1) / 4 - (y - 1) / 100 + (y - 1) / 400.
Fixpoint daysBeforeMonth (y : Z) (m : nat) : Z :=
  match m with O => 0 | S m => daysBeforeMonth y m + monthDays y (Z.of_nat m) end.
Definition dayNumber (y m d : Z) : Z := daysBeforeYear y + daysBeforeMonth y (Z.to_nat m) + d.

Lemma monthDays_bounds y m : 28 <= monthDays y m <= 31.
Proof. unfold monthDays. destruct (m =? 1); [by destruct (isLeap y)|]. by destruct (existsb _ _). Qed.

Lemma year_length y : daysBeforeYear (y + 1) = daysBeforeYear y + if isLeap y then 366 else 365.
Proof.
  unfold daysBeforeYear, isLeap. replace (y + 1 - 1) with y by lia.
  destruct (Z.eqb_spec (y mod 4) 0), (Z.eqb_spec (y mod 100) 0), (Z.eqb_spec (y mod 400) 0); cbn [andb orb negb];
    Z.to_euclidean_division_equations; lia.
Qed.

Lemma december y : daysBeforeMonth y 11 + 31 = if isLeap y then 366 else 365.
Proof. unfold daysBeforeMonth, monthDays. destruct (isLeap y); reflexivity. Qed.

(** The month before, and the month after. *)
Lemma dayNumber_next y m d : 0 <= m < 12 ->
  dayNumber y m d = (let '(y', m') := if m =? 11 then (y + 1, 0) else (y, m + 1) in dayNumber y' m' (d - monthDays y m)).
Proof.
  intros Hm. destruct (Z.eqb_spec m 11) as [->|]; unfold dayNumber.
  - rewrite year_length. change (Z.to_nat 11) with 11%nat. change (monthDays y 11) with 31. pose proof (december y).
    change (daysBeforeMonth (y + 1) (Z.to_nat 0)) with 0. lia.
  - replace (Z.to_nat (m + 1)) with (S (Z.to_nat m)) by lia. cbn [daysBeforeMonth]. rewrite Z2Nat.id by lia. lia.
Qed.
Lemma dayNumber_prev y m d : 0 <= m < 12 ->
  dayNumber y m d = (let '(y', m') := if m =? 0 then (y - 1, 11) else (y, m - 1) in dayNumber y' m' (d + monthDays y' m')).
Proof.
  intros Hm. destruct (Z.eqb_spec m 0) as [->|].
  - rewrite (dayNumber_next (y - 1) 11) by lia. cbn [Z.eqb Pos.eqb]. by replace (y - 1 + 1) with y by lia;
      replace (d + monthDays (y - 1) 11 - monthDays (y - 1) 11) with d by lia.
  - rewrite (dayNumber_next y (m - 1)) by lia. destruct (Z.eqb_spec (m - 1) 11); [lia|].
    replace (m - 1 + 1) with m by lia. f_equal. lia.
Qed.

Definition validDay (y m d : Z) : Prop := 0 <= m < 12 /\ 1 <= d <= monthDays y m.

Lemma carryDays_spec fuel y m d :
  0 <= m < 12 -> validDay y m d \/ - 28 * Z.of_nat fuel < d <= 28 * Z.of_nat fuel + 28 ->
  let '(y', m', d') := carryDays fuel y m d in validDay y' m' d' /\ dayNumber y' m' d' = dayNumber y m d.
Proof.
  revert y m d. induction fuel as [|fuel IH]; intros y m d Hm H; cbn [carryDays].
  { split; [|done]. destruct H as [|H]; [done|]. pose proof (monthDays_bounds y m). split; lia. }
  pose proof (monthDays_bounds y m). destruct (Z.ltb_spec d 1) as [Hd|Hd].
  - pose proof (dayNumber_prev y m d Hm) as Hp. destruct (if m =? 0 then _ else _) as [y' m'] eqn:E.
    assert (0 <= m' < 12) by (destruct (Z.eqb_spec m 0); injection E as <- <-; lia).
    pose proof (monthDays_bounds y' m'). rewrite Hp. apply IH; [done|]. unfold validDay in *. lia.
  - destruct (Z.ltb_spec (monthDays y m) d) as [Hl|Hl]; [|by split].
    pose proof (dayNumber_next y m d Hm) as Hp. destruct (if m =? 11 then _ else _) as [y' m'] eqn:E.
    assert (0 <= m' < 12) by (destruct (Z.eqb_spec m 11); injection E as <- <-; lia).
    rewrite Hp. apply IH; [done|]. unfold validDay in *. lia.
Qed.

(** the fuel of the calendar is enough for every day of every month: a setter of [Date] ends on a day
    that exists, as many days from the beginning of the calendar as it was asked for. *)
Theorem calendar_is_exact y m d :
  let '(y', m', d') := MakeDay y m d in
  validDay y' m' d' /\ dayNumber y' m' d' = dayNumber (y + m / 12) (m mod 12) d.
Proof.
  unfold MakeDay. apply carryDays_spec; [apply Z.mod_pos_bound; lia|right].
  rewrite Z2Nat.id by (assert (0 <= Z.abs d / 28) by (apply Z.div_pos; lia); lia).
  pose proof (Z.div_mod (Z.abs d) 28 ltac:(lia)). pose proof (Z.mod_pos_bound (Z.abs d) 28 ltac:(lia)). lia.
Qed.

(** The range from January to February holds in March: the end is made from December 31, and
    [setMonth] of February 31 is March 2 or 3. *)
Definition secondOfMarch : Now := mkNow (mkDate 2024 2 2 0) (fun d => d) 6 6.
Example january_to_february : dateRange secondOfMarch [Name "JAN"; Name "FEB"] false = true.
Proof. reflexivity. Qed.

(** ** Sources and timers *)

(** the text of a program that comes over HTTP is the whole body of an answer with a 2xx status, and
    at most 4 MiB of it: an answer that redirects, breaks off, or is longer is an error. *)
Theorem pac_source_is_whole location get readFile data contentType :
  HasPrefix (ToLower location) "http://" || HasPrefix (ToLower location) "https://" = true ->
  readPACSource location get readFile = Ok (data, contentType) <->
  exists resp, get location = Some resp /\ 200 <= rStatus resp < 300 /\ rBroken resp = false /\
    data = rBody resp /\ zlen data <= maxPACBytes /\ contentType = rContentType resp.
Proof.
  intros Hh. unfold readPACSource. rewrite Hh. cbn zeta.
  assert (forall (b : bytes), zlen b <= maxPACBytes -> take (Z.to_nat (maxPACBytes + 1)) b = b) as Ht.
  { intros b Hb. apply take_ge. unfold zlen in Hb. lia. }
  assert (forall (b : bytes), maxPACBytes < zlen b -> zlen (take (Z.to_nat (maxPACBytes + 1)) b) = maxPACBytes + 1) as Hl.
  { intros b Hb. unfold zlen in *. rewrite length_take. assert (0 <= maxPACBytes) by done. lia. }
  destruct (get location) as [resp|]; [|split; [done|by intros (? & ? & _)]].
  transitivity (200 <= rStatus resp < 300 /\ rBroken resp = false /\ data = rBody resp /\ zlen data <= maxPACBytes /\
    contentType = rContentType resp).
  2: { split; [by intros H; exists resp|]. by intros (? & [= <-] & ?). }
  clear Hh. destruct (_ || _) eqn:Es; to_prop; [split; [done|lia]|].
  destruct (Z.leb_spec (zlen (rBody resp)) maxPACBytes) as [Hle|Hgt].
  - rewrite (Ht _ Hle), andb_true_r. destruct (rBroken resp); [by split; [|intros (_ & ? & _)]|].
    destruct (Z.ltb_spec maxPACBytes (zlen (rBody resp))); [lia|]. split; [by intros [= <- <-]|by intros (_ & _ & -> & _ & ->)].
  - rewrite (Hl _ Hgt), andb_false_r. destruct (Z.ltb_spec maxPACBytes (maxPACBytes + 1)); [|lia].
    split; [done|]. intros (_ & _ & -> & ? & _). lia.
Qed.

Definition smallAnswer : Response := mkResponse 200 "text/plain" [102; 111; 111] false.
Theorem pac_source_is_whole_witness :
  readPACSource "HTTP://wpad/wpad.dat" (fun _ => Some smallAnswer) (fun _ => None) = Ok ([102; 111; 111], "text/plain").
Proof.
  apply pac_source_is_whole; [reflexivity|]. exists smallAnswer. repeat split; vm_compute; intuition discriminate.
Defined.

(** The timer has no interrupt left to make once the channel is closed or it was stopped. *)
Definition quiet (t : Timer) : bool := match t with Stopped | Closed => true | _ => false end.
Definition boundedInv (timeout : Duration) (s : Bounded) : bool :=
  match main s with
  | Clearing => quiet (timer s)
  | Finished => quiet (timer s) && negb (flag s)
  | Running => negb (timeout <=? 0) || (quiet (timer s) && negb (flag s))
  | Stopping | Waiting => negb (timeout <=? 0)
  end.

Lemma boundedInv_step timeout s s' : BStep timeout s s' -> boundedInv timeout s = true -> boundedInv timeout s' = true.
Proof.
  intros Hs. unfold boundedInv.
  destruct Hs; destruct (timeout <=? 0); repeat match goal with x : Timer |- _ => destruct x | x : Main |- _ => destruct x | x : bool |- _ => destruct x end;
    cbn; done.
Qed.

(** an evaluation that has ended leaves no interrupt behind, neither one that is set nor one that the
    timer still makes: whatever happens after it, the next evaluation starts on a clear runtime. *)
Theorem no_interrupt_outlives timeout s s' :
  rtc (BStep timeout) (startBounded timeout) s -> main s = Finished -> rtc (BStep timeout) s s' ->
  main s' = Finished /\ flag s' = false.
Proof.
  intros Hr Hf Hr'.
  assert (forall a b, rtc (BStep timeout) a b -> boundedInv timeout a = true -> boundedInv timeout b = true) as Hinv.
  { intros a b Hab. induction Hab; [done|]. intros. by eauto using boundedInv_step. }
  assert (boundedInv timeout s = true) as Hs.
  { apply (Hinv _ _ Hr). unfold startBounded, boundedInv. by destruct (timeout <=? 0). }
  assert (main s' = Finished) as Hf'.
  { clear -Hf Hr'. induction Hr'; [done|]. apply IHHr'. by destruct H. }
  split; [done|]. specialize (Hinv _ _ Hr' Hs). unfold boundedInv in Hinv. rewrite Hf' in Hinv. to_prop. by destruct (flag s').
Qed.

(** An evaluation whose timer fires while it runs: it waits for the interrupt, and clears it. *)
Theorem no_interrupt_outlives_witness :
  flag (mkBounded Closed Finished false) = false /\ main (mkBounded Closed Finished false) = Finished.
Proof.
  apply and_comm, (no_interrupt_outlives 10 (mkBounded Closed Finished false)); [|reflexivity|constructor].
  apply (rtc_l _ _ (mkBounded Firing Running false)); [constructor|].
  apply (rtc_l _ _ (mkBounded Interrupted Running true)); [constructor|].
  apply (rtc_l _ _ (mkBounded Interrupted Stopping true)); [apply (b_return 10)|].
  apply (rtc_l _ _ (mkBounded Interrupted Waiting true)); [by constructor|].
  apply (rtc_l _ _ (mkBounded Closed Waiting true)); [constructor|].
  apply (rtc_l _ _ (mkBounded Closed Clearing true)); [constructor|].
  apply rtc_once. constructor.
Defined.

End Pu.
