(* ===== verification/Wproxy.v ===== *)
(** * Wproxy: [internal/wproxy/wproxy.go]

    Proxy lists, bypass rules, the discovery of the proxy source, and the choice
    of the candidates of one URL.  [net.IP] values are addresses of [NetAddr];
    the [map[string]bool] of bypass hosts, which only ever holds [true], is a set
    of strings.  DNS answers, PAC evaluations, the platform resolver and the
    environment are inputs of the operations that ask for them. *)

From S2P Require Export Prelude GoStrings NetAddr Url.
From S2P Require Pac SystemProxy.
Import Pac.Pc(ValidateCanonicalResult, PacErr, ETooLong, ETooMany, ENoCandidates).
Import SystemProxy.Sys(ManualProxyMap, mkManual, Empty, ForScheme, Config, mkConfig,
  ManualProxy, PACURL, Bypass, Supported, Found, IsPAC, AutoDetect).

Module Wp.

Inductive Mode := ModeNone | ModeAuto | ModePAC | ModeManual | ModeEnv | ModeConfig | ModeConfigPAC.
#[global] Instance Mode_eq_dec : EqDecision Mode.
Proof. solve_decision. Defined.

Inductive RouteSource :=
| RouteSourceDirect | RouteSourceConfig | RouteSourceConfigPAC | RouteSourceSystemAuto
| RouteSourceSystemPAC | RouteSourceSystemAutoPAC | RouteSourceSystemManual | RouteSourceEnvironment.

Definition directHost : string := "DIRECT".
Definition directKey : string := "direct://DIRECT:80".

Record Server := mkServer { sHost : string; sPort : Z; sScheme : string }.
#[global] Instance Server_eq_dec : EqDecision Server.
Proof. solve_decision. Defined.

Definition Direct : Server := mkServer directHost 80 "direct".

Inductive WErr :=
| EBadIP | EBadRange | EBadGlob
| EEmptyProxy | EBadURL | EScheme (scheme : string) | ENotAuthority | EEmptyAuthority
| EPort (raw : string) | ESplitHostPort | EEmptyHost | EHost (host : string)
| EWildcard (token : string) | ENotIP (token : string)
| ENoSource | EPACLoad | EResolverInit.

(** ** Address sets *)

Record IPSet := mkSet { nets : list IPNet; ranges : list (Z * Z) }.
Definition emptySet : IPSet := mkSet [] [].

Definition AddCIDR (cidr : string) (s : IPSet) : result WErr IPSet :=
  match ParseCIDR cidr with
  | Some (_, n) => Ok (mkSet (nets s ++ [n]) (ranges s))
  | None =>
      match ParseIP cidr with
      | None => Err EBadIP
      | Some ip =>
          let n := match to_v4 ip with Some v => mkIPNet v 32 32 | None => mkIPNet ip 128 128 end in
          Ok (mkSet (nets s ++ [n]) (ranges s))
      end
  end.

Definition AddRange (start end_ : string) (s : IPSet) : result WErr IPSet :=
  match ParseIP start ≫= to_v4, ParseIP end_ ≫= to_v4 with
  | Some a, Some b => Ok (mkSet (nets s) (ranges s ++ [(a, b)]))
  | _, _ => Err EBadRange
  end.

(** Byte [i] of a 4-byte address. *)
Definition byteAt (ip : Z) (i : Z) : Z := Z.shiftr ip (8 * (3 - i)) mod 256.

Fixpoint compareFrom (idx : list Z) (a b : Z) : Z :=
  match idx with
  | [] => 0
  | i :: idx' => if byteAt a i <? byteAt b i then -1
                else if byteAt b i <? byteAt a i then 1 else compareFrom idx' a b
  end.
Definition compareIP (a b : Z) : Z := compareFrom [0; 1; 2; 3] a b.

Definition Contains (s : IPSet) (ip : IP) : bool :=
  existsb (fun n => netContains n ip) (nets s) ||
  match to_v4 ip with
  | Some ip4 => existsb (fun r => (0 <=? compareIP ip4 r.1) && (compareIP ip4 r.2 <=? 0)) (ranges s)
  | None => false
  end.

Definition setSize (s : IPSet) : Z := Z.of_nat (length (nets s) + length (ranges s)).

Record noProxyMatcher := mkMatcher { mHost : string; mPort : Z; subdomainsOnly : bool; local : bool }.

(** ** Proxy lists *)

Definition validProxyScheme (scheme : string) : bool :=
  existsb (String.eqb scheme) ["http"; "https"; "socks"; "socks4"; "socks4a"; "socks5"].

Definition defaultProxyPort (scheme : string) : Z :=
  if String.eqb scheme "https" then 443
  else if existsb (String.eqb scheme) ["socks"; "socks4"; "socks4a"; "socks5"] then 1080
  else 80.

Definition parsePort (raw : string) : result WErr Z :=
  match Atoi raw with
  | Ok port => if (port <? 1) || (65535 <? port) then Err (EPort raw) else Ok port
  | Err _ => Err (EPort raw)
  end.

Definition badHostChars : string := String "032" (String "009" (String "013" (String "010" "/?#[]"))).

(** [None] is success. *)
Definition validateHost (host : string) : option WErr :=
  if String.eqb (TrimSpace host) "" then Some EEmptyHost
  else if ContainsAny host badHostChars then Some (EHost host) else None.

Definition checkHost (host : string) : result WErr () :=
  match validateHost host with Some e => Err e | None => Ok () end.

Definition parseAuthority (raw : string) (defaultPort : Z) : result WErr (string * Z) :=
  let value := TrimSpace raw in
  if String.eqb value "" then Err EEmptyAuthority
  else
    match ParseIP value with
    | Some ip => Ok (IPString ip, defaultPort)
    | None =>
        if HasPrefix value "[" && HasSuffix value "]" then
          match ParseIP (TrimSuffix (TrimPrefix value "[") "]") with
          | None => Err EBadIP
          | Some ip => Ok (IPString ip, defaultPort)
          end
        else if ContainsChar value ":" then
          match SplitHostPort value with
          | None => Err ESplitHostPort
          | Some (host, portText) =>
              port ← parsePort portText;
              _ ← checkHost host;
              Ok (host, port)
          end
        else
          _ ← checkHost value;
          Ok (value, defaultPort)
    end.

Definition parseProxyEndpoint (raw : string) : result WErr Server :=
  let proxystr := TrimSpace raw in
  if String.eqb proxystr "" then Err EEmptyProxy
  else
    '(host, port, scheme) ←
      (if GoStrings.Contains proxystr "://" then
         match urlParse proxystr with
         | None => Err EBadURL
         | Some u =>
             let scheme := ToLower (Scheme u) in
             if negb (validProxyScheme scheme) then Err (EScheme scheme)
             else if bool_decide (User u <> None) ||
                     (negb (String.eqb (Path u) "") && negb (String.eqb (Path u) "/")) ||
                     negb (String.eqb (RawQuery u) "") || negb (String.eqb (Fragment u) "")
             then Err ENotAuthority
             else
               port ← (if negb (String.eqb (Port u) "") then parsePort (Port u)
                       else Ok (defaultProxyPort scheme));
               Ok (Hostname u, port, scheme)
         end
       else
         '(host, port) ← parseAuthority proxystr 80;
         Ok (host, port, "http"));
    _ ← checkHost host;
    Ok (mkServer host port scheme).

Definition serverKey (s : Server) : string :=
  sScheme s +:+ "://" +:+ JoinHostPort (ToLower (sHost s)) (Itoa (sPort s)).

Definition addServer (acc : list Server * gset string) (key : string) (s : Server)
  : list Server * gset string :=
  let '(servers, seen) := acc in
  if bool_decide (key ∈ seen) then acc else (servers ++ [s], {[key]} ∪ seen).

(** The body of the loop of [ParseProxy]. *)
Definition parseProxyItem (acc : list Server * gset string) (item : string)
  : result WErr (list Server * gset string) :=
  let proxystr := TrimSpace item in
  if String.eqb proxystr "" then Ok acc
  else if EqualFold proxystr directHost then Ok (addServer acc directKey Direct)
  else server ← parseProxyEndpoint proxystr; Ok (addServer acc (serverKey server) server).

Definition ParseProxy (proxystrs : string) : result WErr (list Server) :=
  if String.eqb (TrimSpace proxystrs) "" then Ok []
  else '(servers, _) ← foldM parseProxyItem (Split proxystrs ",") ([], ∅); Ok servers.

(** ** Bypass rules *)

Definition parseIPToken (token : string) : option IP :=
  let token := if HasPrefix token "[" && HasSuffix token "]"
               then TrimSuffix (TrimPrefix token "[") "]" else token in
  ParseIP token.

Definition looksLikeIP (token : string) : bool :=
  bool_decide (is_Some (ParseIP token)) || (CountChar token "." =? 3) || ContainsChar token ":".

Definition looksLikeIPRange (token : string) : bool :=
  if negb (CountChar token "-" =? 1) then false
  else let '(a, b) := CutOr token "-" in looksLikeIP a && looksLikeIP b.

Definition isIPv4GlobCandidate (token : string) : bool :=
  let parts := Split token "." in
  (Z.of_nat (length parts) =? 4) &&
  forallb (fun part => String.eqb part "*" || is_ok (Atoi part)) parts.

Definition parseNoProxyHostPort (token : string) : result WErr (string * Z) :=
  match SplitHostPort token with
  | None => Err ESplitHostPort
  | Some (host, portText) =>
      _ ← checkHost host;
      port ← parsePort portText;
      Ok (host, port)
  end.

Definition normalizeHostRule (host : string) : string :=
  TrimSuffix (TrimPrefix (ToLower host) ".") ".".

Fixpoint globEnds (parts : list string) : result WErr (list string * list string) :=
  match parts with
  | [] => Ok ([], [])
  | p :: parts' =>
      if String.eqb p "*" then
        '(ss, es) ← globEnds parts'; Ok ("0" :: ss, "255" :: es)
      else if is_ok (Atoi p) then
        '(ss, es) ← globEnds parts'; Ok (p :: ss, p :: es)
      else Err EBadGlob
  end.

Definition addGlob (glob : string) (s : IPSet) : result WErr IPSet :=
  let parts := Split glob "." in
  if negb (Z.of_nat (length parts) =? 4) then Err EBadGlob
  else '(start, end_) ← globEnds parts; AddRange (Join start ".") (Join end_ ".") s.

Record NoProxyRules := mkRules { set_ : IPSet; hosts : gset string; matchers : list noProxyMatcher }.
Definition noRules : NoProxyRules := mkRules emptySet ∅ [].

Definition with_set (r : NoProxyRules) (s : IPSet) : NoProxyRules := mkRules s (hosts r) (matchers r).
Definition with_host (r : NoProxyRules) (key : string) (m : noProxyMatcher) : NoProxyRules :=
  mkRules (set_ r) ({[key]} ∪ hosts r) (matchers r ++ [m]).

(** The body of the loop of [parseNoProxy]; [raw] comes lower-cased. *)
Definition parseNoProxyItem (iponly : bool) (r : NoProxyRules) (raw : string)
  : result WErr NoProxyRules :=
  let bypass := TrimSpace raw in
  if String.eqb bypass "" then Ok r
  else if String.eqb bypass "<local>" then
    s ← AddCIDR "127.0.0.0/8" (set_ r);
    s ← AddCIDR "::1/128" s;
    Ok (mkRules s ({["localhost"]} ∪ hosts r)
          (if iponly then matchers r else matchers r ++ [mkMatcher "" 0 false true]))
  else if String.eqb bypass "*" && negb iponly then
    Ok (with_host r bypass (mkMatcher "*" 0 false false))
  else
    match parseIPToken bypass with
    | Some ip => with_set r <$> AddCIDR (IPString ip) (set_ r)
    | None =>
        if ContainsChar bypass "/" then with_set r <$> AddCIDR bypass (set_ r)
        else if looksLikeIPRange bypass then
          let '(a, b) := CutOr bypass "-" in with_set r <$> AddRange a b (set_ r)
        else if ContainsChar bypass "*" then
          if isIPv4GlobCandidate bypass then with_set r <$> addGlob bypass (set_ r)
          else if negb iponly && HasPrefix bypass "*." then
            let host := normalizeHostRule (TrimPrefix bypass "*.") in
            _ ← checkHost host;
            Ok (with_host r ("*." +:+ host) (mkMatcher host 0 true false))
          else Err (EWildcard bypass)
        else if iponly then Err (ENotIP bypass)
        else if ContainsChar bypass ":" then
          '(host, port) ← parseNoProxyHostPort bypass;
          Ok (with_host r (JoinHostPort host (Itoa port))
                (mkMatcher (normalizeHostRule host) port false false))
        else
          let host := normalizeHostRule bypass in
          _ ← checkHost host;
          Ok (with_host r bypass (mkMatcher host 0 false false))
    end.

Definition parseNoProxy (noproxystr : string) (iponly : bool) : result WErr NoProxyRules :=
  if String.eqb (TrimSpace noproxystr) "" then Ok noRules
  else
    let replaced := str_map (fun c => if Ascii.eqb c ";" || Ascii.eqb c " " then ","%char else c)
                      (ToLower noproxystr) in
    foldM (parseNoProxyItem iponly) (Split replaced ",") noRules.

Definition ParseNoProxy (noproxystr : string) (iponly : bool) : result WErr (IPSet * gset string) :=
  r ← parseNoProxy noproxystr iponly; Ok (set_ r, hosts r).

Definition mergeNoProxy (noproxy : string) (r : NoProxyRules) : result WErr NoProxyRules :=
  if String.eqb noproxy "" then Ok r
  else
    r2 ← parseNoProxy noproxy false;
    Ok (mkRules (mkSet (nets (set_ r) ++ nets (set_ r2)) (ranges (set_ r) ++ ranges (set_ r2)))
          (hosts r ∪ hosts r2) (matchers r ++ matchers r2)).

(** ** Discovery *)

Record environmentProxySet := mkEnvSet { byScheme : gmap string (list Server); all : list Server }.
Definition noEnv : environmentProxySet := mkEnvSet ∅ [].

Definition forScheme (e : environmentProxySet) (scheme : string) : list Server :=
  match byScheme e !! ToLower scheme with
  | Some (s :: servers) => s :: servers
  | _ => all e
  end.

(** [getenv] is [os.Getenv]: "" when the variable is unset. *)
Fixpoint firstEnv (getenv : string -> string) (keys : list string) : string :=
  match keys with
  | [] => ""
  | key :: keys' => let val := getenv key in
                    if negb (String.eqb val "") then val else firstEnv getenv keys'
  end.

Definition envScheme (getenv : string -> string) (scheme : string) (keys : list string)
  (acc : environmentProxySet * bool) : result WErr (environmentProxySet * bool) :=
  let raw := firstEnv getenv keys in
  if String.eqb raw "" then Ok acc
  else servers ← ParseProxy raw;
       Ok (mkEnvSet (<[scheme := servers]> (byScheme acc.1)) (all acc.1), true).

Definition discoverEnvironmentProxies (getenv : string -> string)
  : result WErr (environmentProxySet * bool) :=
  acc ← envScheme getenv "http" ["http_proxy"; "HTTP_PROXY"] (noEnv, false);
  acc ← envScheme getenv "https" ["https_proxy"; "HTTPS_PROXY"] acc;
  let raw := firstEnv getenv ["all_proxy"; "ALL_PROXY"] in
  if String.eqb raw "" then Ok acc
  else servers ← ParseProxy raw; Ok (mkEnvSet (byScheme acc.1) servers, true).

Definition routeSourceForMode (mode : Mode) : RouteSource :=
  match mode with
  | ModeConfig => RouteSourceConfig
  | ModeConfigPAC => RouteSourceConfigPAC
  | ModeAuto => RouteSourceSystemAuto
  | ModePAC => RouteSourceSystemPAC
  | ModeManual => RouteSourceSystemManual
  | ModeEnv => RouteSourceEnvironment
  | ModeNone => RouteSourceDirect
  end.

(** [wPAC] and [wResolver] say whether the field is set. *)
Record Wproxy := mkW {
  wMode : Mode; Source : RouteSource; SystemProxySupported : bool; Servers : list Server;
  rules : NoProxyRules; wPAC : bool; wResolver : bool; systemConfig : Config;
  environmentProxies : environmentProxySet }.

Definition noConfig : Config := mkConfig (mkManual "" ∅) "" "" false false false false.

(** What a construction meets outside the module. *)
Record Surroundings := mkSur {
  pacLoads : bool; discovered : Config; getenv : string -> string; resolverInits : bool }.

Definition set_source (w : Wproxy) (mode : Mode) (src : RouteSource) (servers : list Server) : Wproxy :=
  mkW mode src (SystemProxySupported w) servers (rules w) (wPAC w) (wResolver w) (systemConfig w)
    (environmentProxies w).
Definition set_rules (w : Wproxy) (r : NoProxyRules) : Wproxy :=
  mkW (wMode w) (Source w) (SystemProxySupported w) (Servers w) r (wPAC w) (wResolver w)
    (systemConfig w) (environmentProxies w).
Definition set_config (w : Wproxy) (c : Config) : Wproxy :=
  mkW (wMode w) (Source w) (SystemProxySupported w) (Servers w) (rules w) (wPAC w) (wResolver w) c
    (environmentProxies w).
Definition set_env (w : Wproxy) (e : environmentProxySet) : Wproxy :=
  mkW (wMode w) (Source w) (SystemProxySupported w) (Servers w) (rules w) (wPAC w) (wResolver w)
    (systemConfig w) e.

(** The branch [sysproxy.Found]. *)
Definition useSystemProxy (sysproxy : Config) (w : Wproxy) : result WErr Wproxy :=
  let w := set_config w sysproxy in
  let pacServers := [mkServer (PACURL sysproxy) 0 "pac"] in
  w ← (if AutoDetect sysproxy && IsPAC sysproxy then
         Ok (set_source w ModeAuto RouteSourceSystemAutoPAC pacServers)
       else if AutoDetect sysproxy then Ok (set_source w ModeAuto RouteSourceSystemAuto (Servers w))
       else if IsPAC sysproxy then Ok (set_source w ModePAC RouteSourceSystemPAC pacServers)
       else if negb (Empty (ManualProxy sysproxy)) then
         Ok (set_source w ModeManual RouteSourceSystemManual (Servers w))
       else Err ENoSource);
  set_rules w <$> mergeNoProxy (Bypass sysproxy) (rules w).

(** The branch without a system proxy. *)
Definition useEnvironment (getenv : string -> string) (w : Wproxy) : result WErr Wproxy :=
  r ← discoverEnvironmentProxies getenv;
  let '(envProxies, found) := (r : environmentProxySet * bool) in
  if found then
    let servers := forScheme envProxies "http" in
    let servers := match servers with [] => all envProxies | _ => servers end in
    let w := set_env (set_source w ModeEnv RouteSourceEnvironment servers) envProxies in
    set_rules w <$> mergeNoProxy (firstEnv getenv ["no_proxy"; "NO_PROXY"]) (rules w)
  else Ok (set_source w (wMode w) RouteSourceDirect (Servers w)).

Definition initResolver (s : Surroundings) (w : Wproxy) : result WErr Wproxy :=
  if bool_decide (wMode w = ModeAuto) || bool_decide (wMode w = ModePAC) then
    let cfg :=
      if Found (systemConfig w) then systemConfig w
      else mkConfig (mkManual "" ∅)
             (if bool_decide (wMode w = ModePAC) then default "" (sHost <$> head (Servers w)) else "")
             "" true true (bool_decide (wMode w = ModePAC)) (bool_decide (wMode w = ModeAuto)) in
    if resolverInits s then
      Ok (mkW (wMode w) (Source w) (SystemProxySupported w) (Servers w) (rules w) (wPAC w) true cfg
            (environmentProxies w))
    else Err EResolverInit
  else Ok w.

Definition NewWithDNS (mode : Mode) (servers : list Server) (noproxy : string) (s : Surroundings)
  : result WErr Wproxy :=
  r ← parseNoProxy noproxy false;
  let configPAC := bool_decide (mode = ModeConfigPAC) && (0 <? Z.of_nat (length servers)) in
  if configPAC && negb (pacLoads s) then Err EPACLoad
  else
    let w := mkW mode (routeSourceForMode mode) false servers r configPAC false noConfig noEnv in
    w ← (if bool_decide (mode = ModeNone) then
           let w := mkW mode (Source w) (Supported (discovered s)) servers r configPAC false noConfig noEnv in
           if Found (discovered s) then useSystemProxy (discovered s) w
           else useEnvironment (getenv s) w
         else Ok w);
    initResolver s w.

(** The Boolean says whether the system resolver was closed. *)
Definition Close (w : Wproxy) : bool * Wproxy :=
  (wResolver w,
   mkW (wMode w) (Source w) (SystemProxySupported w) (Servers w) (rules w) (wPAC w) false
     (systemConfig w) (environmentProxies w)).

(** ** Routing *)

Definition GetNetloc (rawurl : string) : result WErr (Server * string) :=
  if negb (GoStrings.Contains rawurl "://") then
    '(host, port) ← parseAuthority rawurl 80;
    Ok (mkServer host port "", "/")
  else
    match urlParse rawurl with
    | None => Err EBadURL
    | Some u =>
        let host := Hostname u in
        _ ← checkHost host;
        port ← (if negb (String.eqb (Port u) "") then parsePort (Port u)
                else Ok (let scheme := ToLower (Scheme u) in
                         if String.eqb scheme "https" then 443
                         else if String.eqb scheme "ftp" then 21 else 80));
        let path := EscapedPath u in
        let path := if String.eqb path "" then "/" else path in
        let path := if String.eqb (RawQuery u) "" then path else path +:+ "?" +:+ RawQuery u in
        Ok (mkServer host port (ToLower (Scheme u)), path)
    end.

(** One iteration of [hostMatchesNoProxy]. *)
Definition matcherHits (host : string) (port : Z) (m : noProxyMatcher) : bool :=
  if local m then bool_decide (ParseIP host = None) && negb (ContainsChar host ".")
  else if negb (mPort m =? 0) && negb (mPort m =? port) then false
  else if String.eqb (mHost m) "*" then true
  else if subdomainsOnly m then HasSuffix host ("." +:+ mHost m)
  else String.eqb host (mHost m) || HasSuffix host ("." +:+ mHost m).

Definition hostMatchesNoProxy (netloc : Server) (w : Wproxy) : bool :=
  existsb (matcherHits (normalizeHostRule (sHost netloc)) (sPort netloc)) (matchers (rules w)).

Section Routing.
(** What the DNS cache, the configured PAC and the platform resolver answer. *)
Context {PErr RErr : Type}.
Context (lookupIPs : string -> list IP).
Context (evalPAC : string -> string -> result PErr string).
Context (resolveSystem : string -> Config -> result RErr string).

Inductive RouteErr :=
| RNetloc (e : WErr) | RPAC (e : PErr) | RParse (e : WErr) | RNoResolver | RResolve (e : RErr)
| REmpty | RInvalid (e : PacErr).

Definition isNoProxy (netloc : Server) (w : Wproxy) : bool :=
  let host := normalizeHostRule (sHost netloc) in
  if hostMatchesNoProxy netloc w then true
  else if setSize (set_ (rules w)) =? 0 then false
  else match ParseIP host with
       | Some ip => Contains (set_ (rules w)) ip
       | None => existsb (Contains (set_ (rules w))) (lookupIPs host)
       end.

Definition parsed (out : string) : result RouteErr (list Server) :=
  match ParseProxy out with Ok l => Ok l | Err e => Err (RParse e) end.

(** The candidates once the target is known: [FindProxyForURL] after [GetNetloc]. *)
Definition candidates (rawurl : string) (netloc : Server) (w : Wproxy)
  : result RouteErr (list Server) :=
  if bool_decide (wMode w = ModeNone) then Ok [Direct]
  else if isNoProxy netloc w then Ok [Direct]
  else if bool_decide (wMode w = ModeConfigPAC) && wPAC w then
    match evalPAC rawurl (sHost netloc) with
    | Err e => Err (RPAC e)
    | Ok out => parsed out
    end
  else if bool_decide (wMode w = ModeEnv) then
    let servers := forScheme (environmentProxies w) (sScheme netloc) in
    let servers :=
      if (length servers =? 0)%nat && (0 <? length (Servers w))%nat &&
         bool_decide (byScheme (environmentProxies w) = ∅) &&
         (length (all (environmentProxies w)) =? 0)%nat
      then Servers w else servers in
    if (length servers =? 0)%nat then Ok [Direct] else Ok servers
  else if bool_decide (wMode w = ModeManual) && negb (Empty (ManualProxy (systemConfig w))) then
    let raw := ForScheme (ManualProxy (systemConfig w)) (sScheme netloc) in
    if String.eqb (TrimSpace raw) "" then Ok [Direct] else parsed raw
  else if bool_decide (wMode w = ModeAuto) || bool_decide (wMode w = ModePAC) then
    if negb (wResolver w) then Err RNoResolver
    else match resolveSystem rawurl (systemConfig w) with
         | Err e => Err (RResolve e)
         | Ok out =>
             if String.eqb (TrimSpace out) "" then Err REmpty
             else match ValidateCanonicalResult out with
                  | Some e => Err (RInvalid e)
                  | None => parsed out
                  end
         end
  else Ok (Servers w).

Definition FindProxyForURL (rawurl : string) (w : Wproxy)
  : result RouteErr (list Server * Server * string) :=
  match GetNetloc rawurl with
  | Err e => Err (RNetloc e)
  | Ok (netloc, path) => servers ← candidates rawurl netloc w; Ok (servers, netloc, path)
  end.

End Routing.

(** ** Lemmas: address comparison *)

Lemma byteAt_value v :
  0 <= v < 2 ^ 32 ->
  v = byteAt v 0 * 2 ^ 24 + byteAt v 1 * 2 ^ 16 + byteAt v 2 * 2 ^ 8 + byteAt v 3.
Proof.
  intros Hv. unfold byteAt. rewrite !Z.shiftr_div_pow2 by lia.
  change (8 * (3 - 0)) with 24. change (8 * (3 - 1)) with 16. change (8 * (3 - 2)) with 8.
  change (8 * (3 - 3)) with 0.
  change (2 ^ 24) with 16777216. change (2 ^ 16) with 65536. change (2 ^ 8) with 256.
  change (2 ^ 0) with 1. change (2 ^ 32) with 4294967296 in Hv.
  Z.to_euclidean_division_equations. lia.
Qed.

Lemma byteAt_range v i : 0 <= byteAt v i < 256.
Proof. apply Z.mod_pos_bound. lia. Qed.

Lemma compareIP_spec a b :
  0 <= a < 2 ^ 32 -> 0 <= b < 2 ^ 32 -> (0 <=? compareIP a b) = (b <=? a).
Proof.
  intros Ha Hb. pose proof (byteAt_value a Ha) as Ea. pose proof (byteAt_value b Hb) as Eb.
  unfold compareIP. cbn [compareFrom].
  pose proof (byteAt_range a 0). pose proof (byteAt_range a 1). pose proof (byteAt_range a 2).
  pose proof (byteAt_range a 3). pose proof (byteAt_range b 0). pose proof (byteAt_range b 1).
  pose proof (byteAt_range b 2). pose proof (byteAt_range b 3).
  change (2 ^ 24) with 16777216 in *. change (2 ^ 16) with 65536 in *. change (2 ^ 8) with 256 in *.
  repeat match goal with
  | |- context [Z.ltb ?x ?y] => destruct (Z.ltb_spec x y)
  end; simpl; symmetry; first [apply Z.leb_le; lia | apply Z.leb_gt; lia].
Qed.

Lemma compareIP_sym a b : compareIP a b = - compareIP b a.
Proof.
  unfold compareIP. generalize [0; 1; 2; 3]. intros l. induction l as [|i l IH]; [done|].
  simpl. destruct (Z.ltb_spec (byteAt a i) (byteAt b i)), (Z.ltb_spec (byteAt b i) (byteAt a i));
    [lia|done|done|done].
Qed.

Lemma in_range_spec ip a b :
  0 <= ip < 2 ^ 32 -> 0 <= a < 2 ^ 32 -> 0 <= b < 2 ^ 32 ->
  (0 <=? compareIP ip a) && (compareIP ip b <=? 0) = (a <=? ip) && (ip <=? b).
Proof.
  intros. rewrite compareIP_spec by done. f_equal.
  rewrite <- (compareIP_spec b ip) by done. rewrite (compareIP_sym b ip).
  destruct (Z.leb_spec (compareIP ip b) 0), (Z.leb_spec 0 (- compareIP ip b)); lia.
Qed.

(** ** Lemmas: dotted ranges *)

Lemma octet_plain s v : octet s = Some v -> str_forall is_digit s = true /\ s <> "".
Proof.
  intros (Hd & Hne & _)%octet_digits. split; [|done]. by apply digits_val_Some in Hd as [? _].
Qed.

Lemma digits_no_char s c :
  str_forall is_digit s = true -> is_digit c = false -> no_char c s = true.
Proof.
  intros Hs Hc. revert Hs. apply str_forall_impl. intros d Hd.
  apply negb_true_iff, Ascii.eqb_neq. by intros ->; rewrite Hd in Hc.
Qed.

Lemma octet_Atoi s v : octet s = Some v -> Atoi s = Ok v.
Proof.
  intros Ho. destruct (octet_plain s v Ho) as [Hd _]. apply octet_digits in Ho as (Hv & Hne & Hr).
  unfold Atoi. destruct s as [|c t]; [done|].
  assert (Ascii.eqb c "-" = false /\ Ascii.eqb c "+" = false) as [-> ->].
  { simpl in Hd. apply andb_true_iff in Hd as [Hc _].
    split; apply Ascii.eqb_neq; by intros ->. }
  rewrite Hv. unfold min_int64, max_int64.
  replace ((- 2 ^ 63 <=? v) && (v <=? 2 ^ 63 - 1)) with true by lia. done.
Qed.

Definition quad (a b c d : Z) : Z := ((a * 256 + b) * 256 + c) * 256 + d.

Lemma ParseIP_quad a b c d va vb vc vd :
  octet a = Some va -> octet b = Some vb -> octet c = Some vc -> octet d = Some vd ->
  ParseIP (Join [a; b; c; d] ".") = Some (of_v4 (quad va vb vc vd)).
Proof.
  intros Ha Hb Hc Hd. destruct (octet_plain a va Ha) as [Da _].
  assert (forall x, str_forall is_digit x = true -> no_char "." x = true) as Hdot
    by (intros; by apply digits_no_char).
  assert (Split (Join [a; b; c; d] ".") "." = [a; b; c; d]) as Hs.
  { apply Split_Join; [done|]. repeat constructor; apply Hdot; by eapply octet_plain. }
  unfold ParseIP.
  assert (ip_kind (Join [a; b; c; d] ".") = Some "."%char) as ->.
  { change (Join [a; b; c; d] ".") with (a +:+ String "." (Join [b; c; d] ".")).
    clear -Da. generalize (Join [b; c; d] "."). intros t. induction a as [|x a IH]; [done|].
    simpl in Da |- *. apply andb_true_iff in Da as [Dx Da]. rewrite IH by done.
    destruct (in_chars ".:%" x) eqn:E; [|done]. unfold in_chars in E. simpl in E.
    repeat (apply orb_true_iff in E as [E%Ascii.eqb_eq|E]; [by subst|]). done. }
  change (of_v4 <$> parseIPv4 (Join [a; b; c; d] ".") = Some (of_v4 (quad va vb vc vd))).
  unfold parseIPv4. rewrite Hs. by rewrite Ha, Hb, Hc, Hd.
Qed.

Lemma to_v4_of_v4 v : 0 <= v < 2 ^ 32 -> to_v4 (of_v4 v) = Some v.
Proof.
  intros Hv. unfold to_v4, is_v4, of_v4, v4prefix.
  assert (Z.shiftr (Z.shiftl 65535 32 + v) 32 = 65535) as ->.
  { rewrite Z.shiftr_div_pow2, Z.shiftl_mul_pow2 by lia.
    rewrite Z.div_add_l, Z.div_small by lia. lia. }
  rewrite Z.eqb_refl. f_equal. lia.
Qed.

Lemma quad_range a b c d :
  0 <= a <= 255 -> 0 <= b <= 255 -> 0 <= c <= 255 -> 0 <= d <= 255 -> 0 <= quad a b c d < 2 ^ 32.
Proof. unfold quad. change (2 ^ 32) with 4294967296. lia. Qed.

(** *** What a glob denotes *)

(** A part is a star or an octet; it matches one byte. *)
Definition glob_part (p : string) : Prop := p = "*" \/ is_Some (octet p).
Definition part_matches (p : string) (b : Z) : bool :=
  String.eqb p "*" || bool_decide (octet p = Some b).
Definition partLo (p : string) : Z := if String.eqb p "*" then 0 else default 0 (octet p).
Definition partHi (p : string) : Z := if String.eqb p "*" then 255 else default 0 (octet p).

Definition glob_matches (a b c d : string) (x : Z) : bool :=
  part_matches a (byteAt x 0) && part_matches b (byteAt x 1) &&
  part_matches c (byteAt x 2) && part_matches d (byteAt x 3).

(** Every part after a star is a star. *)
Definition star (p : string) : bool := String.eqb p "*".
Definition trailing (a b c d : string) : bool :=
  implb (star a) (star b) && implb (star b) (star c) && implb (star c) (star d).

Lemma part_bounds p :
  glob_part p -> 0 <= partLo p <= partHi p /\ partHi p <= 255 /\
  (forall b, 0 <= b < 256 -> part_matches p b = (partLo p <=? b) && (b <=? partHi p)) /\
  (star p = true -> partLo p = 0 /\ partHi p = 255) /\ (star p = false -> partLo p = partHi p).
Proof.
  unfold partLo, partHi, part_matches, star. intros [->|[v Hv]].
  - simpl. split_and!; by try lia.
  - assert (String.eqb p "*" = false) as ->.
    { apply String.eqb_neq. by intros ->. }
    destruct (octet_digits p v Hv) as (_ & _ & Hr). rewrite Hv. simpl. split_and!; try lia; try done.
    intros b Hb. rewrite (bool_decide_iff _ (b = v)) by (split; [by intros [= ->]|by intros ->]).
    destruct (bool_decide_reflect (b = v)); lia.
Qed.

Lemma globEnds_parts ps :
  Forall glob_part ps ->
  exists ss es, globEnds ps = Ok (ss, es) /\
    Forall2 (fun p s => octet s = Some (partLo p)) ps ss /\
    Forall2 (fun p s => octet s = Some (partHi p)) ps es.
Proof.
  induction 1 as [|p ps Hp _ (ss & es & IH & H1 & H2)]; [by eexists _, _|].
  cbn [globEnds]. destruct (String.eqb_spec p "*") as [->|Hne].
  - rewrite IH. exists ("0" :: ss), ("255" :: es). split_and!; [done| |]; by constructor.
  - destruct Hp as [?|[v Hv]]; [done|]. rewrite (octet_Atoi p v Hv). simpl. rewrite IH.
    exists (p :: ss), (p :: es). unfold partLo, partHi in *. apply String.eqb_neq in Hne.
    split_and!; [done| |]; constructor; rewrite ?Hne, ?Hv; done.
Qed.

Lemma Contains_range s lo hi x :
  0 <= lo < 2 ^ 32 -> 0 <= hi < 2 ^ 32 -> 0 <= x < 2 ^ 32 ->
  Contains (mkSet (nets s) (ranges s ++ [(lo, hi)])) (of_v4 x) =
  Contains s (of_v4 x) || ((lo <=? x) && (x <=? hi)).
Proof.
  intros. unfold Contains. rewrite to_v4_of_v4 by done. simpl nets. simpl ranges.
  rewrite existsb_app. cbn [existsb fst snd]. rewrite in_range_spec by done.
  by rewrite orb_false_r, orb_assoc.
Qed.

Lemma glob_interval a b c d x :
  Forall glob_part [a; b; c; d] -> 0 <= x < 2 ^ 32 ->
  let inside := (quad (partLo a) (partLo b) (partLo c) (partLo d) <=? x) &&
                (x <=? quad (partHi a) (partHi b) (partHi c) (partHi d)) in
  (glob_matches a b c d x = true -> inside = true) /\
  (trailing a b c d = true -> inside = glob_matches a b c d x).
Proof.
  intros Hp Hx. repeat (apply Forall_cons in Hp as [?H Hp]).
  destruct (part_bounds a H) as (Ba & Ba' & Ma & Sa & Na), (part_bounds b H0) as (Bb & Bb' & Mb & Sb & Nb),
    (part_bounds c H1) as (Bc & Bc' & Mc & Sc & Nc), (part_bounds d H2) as (Bd & Bd' & Md & Sd & Nd).
  pose proof (byteAt_range x 0). pose proof (byteAt_range x 1).
  pose proof (byteAt_range x 2). pose proof (byteAt_range x 3).
  pose proof (byteAt_value x Hx) as Ex.
  change (2 ^ 24) with 16777216 in *. change (2 ^ 16) with 65536 in *. change (2 ^ 8) with 256 in *.
  unfold glob_matches. rewrite Ma, Mb, Mc, Md by done. unfold quad. split.
  - intros Hm. to_prop. rewrite andb_true_iff, !Z.leb_le. lia.
  - unfold trailing. intros Ht. apply eq_iff_eq_true. rewrite !andb_true_iff, !Z.leb_le.
    destruct (star a), (star b), (star c), (star d); try done; lia.
Qed.

Lemma addGlob_range a b c d s :
  Forall glob_part [a; b; c; d] ->
  addGlob (Join [a; b; c; d] ".") s =
    Ok (mkSet (nets s) (ranges s ++
          [(quad (partLo a) (partLo b) (partLo c) (partLo d),
            quad (partHi a) (partHi b) (partHi c) (partHi d))])).
Proof.
  intros Hp. assert (Split (Join [a; b; c; d] ".") "." = [a; b; c; d]) as Hs.
  { apply Split_Join; [done|]. eapply Forall_impl; [exact Hp|].
    intros p [->|[v Hv]]; [done|]. apply octet_plain in Hv as [Hv _].
    by apply digits_no_char. }
  unfold addGlob. rewrite Hs. cbn [length Z.of_nat Pos.of_succ_nat Pos.succ Z.eqb Pos.eqb negb].
  destruct (globEnds_parts _ Hp) as (ss & es & -> & Hss & Hes).
  repeat match goal with
  | H : Forall2 _ (_ :: _) _ |- _ => apply Forall2_cons_inv_l in H as (?x & ?l & ? & H & ->)
  | H : Forall2 _ [] _ |- _ => apply Forall2_nil_inv_l in H as ->
  end.
  repeat (apply Forall_cons in Hp as [?Hq Hp]).
  cbn [mbind result_bind]. unfold AddRange.
  repeat match goal with H : glob_part _ |- _ => apply part_bounds in H as (? & ? & _) end.
  erewrite !ParseIP_quad by eassumption.
  cbn [mbind option_bind]. rewrite !to_v4_of_v4 by (apply quad_range; lia). done.
Qed.

(** ** Lemmas: proxy lists *)

Lemma parsePort_range raw port : parsePort raw = Ok port -> 1 <= port <= 65535.
Proof.
  unfold parsePort. destruct (Atoi raw) as [v|]; [|done]. case_if; [done|].
  intros [= <-]. to_prop. lia.
Qed.

Lemma checkHost_Ok host u : checkHost host = Ok u -> validateHost host = None.
Proof. unfold checkHost. by destruct (validateHost host). Qed.

Lemma parseAuthority_range raw d h p :
  1 <= d <= 65535 -> parseAuthority raw d = Ok (h, p) -> 1 <= p <= 65535.
Proof.
  unfold parseAuthority. intros Hd. case_if; [done|].
  destruct (ParseIP (TrimSpace raw)); [by intros [= _ <-]|]. case_if.
  { case_match; [|done]. by intros [= _ <-]. }
  case_if.
  - destruct (SplitHostPort _) as [[h' pt]|]; [|done].
    destruct (parsePort pt) as [q|] eqn:Eq; simpl; [|done].
    destruct (checkHost h'); simpl; [|done]. intros [= _ <-]. by eapply parsePort_range.
  - destruct (checkHost _); simpl; [|done]. by intros [= _ <-].
Qed.

Definition valid_server (s : Server) : Prop :=
  validProxyScheme (sScheme s) = true /\ 1 <= sPort s <= 65535 /\ validateHost (sHost s) = None.

Lemma defaultProxyPort_range scheme : 1 <= defaultProxyPort scheme <= 65535.
Proof. unfold defaultProxyPort. repeat case_if; lia. Qed.

Lemma parseProxyEndpoint_valid raw s : parseProxyEndpoint raw = Ok s -> valid_server s.
Proof.
  unfold parseProxyEndpoint. case_if; [done|].
  match goal with |- (?m ≫= _) = _ -> _ => destruct m as [[[host port] scheme]|e] eqn:Em end; [|done].
  cbn [mbind result_bind]. destruct (checkHost host) as [u|] eqn:Eh; [|done]. cbn [mbind result_bind].
  intros [= <-]. apply checkHost_Ok in Eh. unfold valid_server. simpl.
  enough (validProxyScheme scheme = true /\ 1 <= port <= 65535) by naive_solver.
  case_if_in Em.
  - destruct (urlParse _) as [u'|]; [|done].
    destruct (validProxyScheme (ToLower (Scheme u'))) eqn:Ev; [|done]. cbn [negb] in Em.
    case_if_in Em; [done|]. case_if_in Em.
    + destruct (parsePort (Port u')) as [q|] eqn:Eq; [|done].
      injection Em as <- <- <-. split; [done|]. by eapply parsePort_range.
    + injection Em as <- <- <-. split; [done|]. apply defaultProxyPort_range.
  - destruct (parseAuthority _ 80) as [[h q]|] eqn:Eq; [|done]. injection Em as <- <- <-.
    split; [done|]. eapply parseAuthority_range; [|done]. lia.
Qed.

(** The entry of one list item, and the key of an entry. *)
Definition parseItem (t : string) : result WErr Server :=
  if EqualFold t directHost then Ok Direct else parseProxyEndpoint t.
Definition keyOf (s : Server) : string := if decide (s = Direct) then directKey else serverKey s.

(** The first entry of each key, in order. *)
Fixpoint firsts (seen : gset string) (l : list Server) : list Server :=
  match l with
  | [] => []
  | s :: l' => if bool_decide (keyOf s ∈ seen) then firsts seen l'
               else s :: firsts ({[keyOf s]} ∪ seen) l'
  end.

Lemma valid_not_direct s : valid_server s -> s <> Direct.
Proof. intros (H & _) ->. done. Qed.

Lemma parseItem_valid t s : parseItem t = Ok s -> s = Direct \/ valid_server s.
Proof.
  unfold parseItem. case_if; [intros [= <-]; by left|].
  intros H%parseProxyEndpoint_valid. by right.
Qed.

Definition is_item (t : string) : bool := negb (String.eqb t "").
Definition itemsOf (l : list string) : list string := bfilter is_item (map TrimSpace l).

Lemma parseProxyItem_blank acc raw :
  is_item (TrimSpace raw) = false -> parseProxyItem acc raw = Ok acc.
Proof. unfold parseProxyItem, is_item. by destruct (String.eqb (TrimSpace raw) ""). Qed.

Lemma parseProxyItem_item acc raw :
  is_item (TrimSpace raw) = true ->
  parseProxyItem acc raw = (s ← parseItem (TrimSpace raw); Ok (addServer acc (keyOf s) s)).
Proof.
  unfold parseProxyItem, is_item, parseItem. destruct (String.eqb (TrimSpace raw) ""); [done|].
  intros _. case_if; [done|].
  destruct (parseProxyEndpoint (TrimSpace raw)) as [s|] eqn:Es; [|done].
  cbn [mbind result_bind]. unfold keyOf.
  by rewrite decide_False by (by eapply valid_not_direct, parseProxyEndpoint_valid).
Qed.

Lemma parse_fold l acc seen out seen' :
  foldM parseProxyItem l (acc, seen) = Ok (out, seen') ->
  exists ps, Forall2 (fun t s => parseItem t = Ok s) (itemsOf l) ps /\ out = acc ++ firsts seen ps.
Proof.
  revert acc seen. induction l as [|raw l IH]; intros acc seen; simpl.
  { intros [= <- <-]. exists []. by rewrite app_nil_r. }
  unfold itemsOf. cbn [map List.filter]. fold (itemsOf l).
  destruct (is_item (TrimSpace raw)) eqn:Ei.
  2: { rewrite parseProxyItem_blank by done. apply IH. }
  rewrite parseProxyItem_item by done.
  destruct (parseItem (TrimSpace raw)) as [s|] eqn:Es; [|done]. cbn [mbind result_bind].
  unfold addServer. destruct (bool_decide (keyOf s ∈ seen)) eqn:Ek;
    intros (ps & Hps & ->)%IH; exists (s :: ps); simpl; rewrite Ek.
  - split; [by constructor|done].
  - split; [by constructor|by rewrite <- app_assoc].
Qed.

Lemma parse_fold_total l acc seen ps :
  Forall2 (fun t s => parseItem t = Ok s) (itemsOf l) ps ->
  exists seen', foldM parseProxyItem l (acc, seen) = Ok (acc ++ firsts seen ps, seen').
Proof.
  revert acc seen ps. induction l as [|raw l IH]; intros acc seen ps; simpl.
  { intros H. inversion H; subst. simpl. rewrite app_nil_r. by eexists. }
  unfold itemsOf. cbn [map List.filter]. fold (itemsOf l).
  destruct (is_item (TrimSpace raw)) eqn:Ei.
  2: { rewrite parseProxyItem_blank by done. apply IH. }
  rewrite parseProxyItem_item by done. intros H. inversion H as [|? s ? ps' Hs Hps]; subst.
  rewrite Hs. cbn [mbind result_bind]. unfold addServer. simpl.
  destruct (bool_decide (keyOf s ∈ seen)); [by apply IH|].
  destruct (IH (acc ++ [s]) ({[keyOf s]} ∪ seen) ps' Hps) as [seen' ->].
  exists seen'. by rewrite <- app_assoc.
Qed.

Lemma firsts_NoDup seen ps :
  NoDup (map keyOf (firsts seen ps)) /\
  forall s, s ∈ firsts seen ps -> s ∈ ps /\ keyOf s ∉ seen.
Proof.
  revert seen. induction ps as [|s ps IH]; intros seen; simpl.
  { split; [constructor|]. by intros s ?%elem_of_nil. }
  destruct (bool_decide (keyOf s ∈ seen)) eqn:Ek; to_prop.
  - destruct (IH seen) as [H1 H2]. split; [done|]. intros s' [? ?]%H2. split; [by right|done].
  - destruct (IH ({[keyOf s]} ∪ seen)) as [H1 H2]. simpl. split.
    + constructor; [|done]. intros (s' & Hs' & Hin)%list_elem_of_fmap.
      apply H2 in Hin as [_ Hin]. set_solver.
    + intros s' [->|[? ?]%H2]%elem_of_cons; [split; [left|done]|].
      split; [by right|set_solver].
Qed.

Lemma firsts_key seen ps s :
  s ∈ ps -> keyOf s ∉ seen -> exists s', s' ∈ firsts seen ps /\ keyOf s' = keyOf s.
Proof.
  revert seen. induction ps as [|p ps IH]; intros seen; [by intros ?%elem_of_nil|].
  intros [->|Hin]%elem_of_cons Hk; simpl.
  - rewrite bool_decide_eq_false_2 by done. exists p. split; [left|done].
  - destruct (bool_decide (keyOf p ∈ seen)); [by apply IH|].
    destruct (decide (keyOf s = keyOf p)) as [->|Hne]; [exists p; split; [left|done]|].
    destruct (IH ({[keyOf p]} ∪ seen)) as (s' & ? & ?); [done|set_solver|].
    exists s'. split; [by right|done].
Qed.

Lemma firsts_id seen ps :
  NoDup (map keyOf ps) -> (forall s, s ∈ ps -> keyOf s ∉ seen) -> firsts seen ps = ps.
Proof.
  revert seen. induction ps as [|p ps IH]; intros seen; [done|]. simpl.
  intros [Hp Hnd]%NoDup_cons Hk. rewrite bool_decide_eq_false_2 by (apply Hk; left).
  f_equal. apply IH; [done|]. intros s Hs. apply not_elem_of_union. split.
  - intros Heq%elem_of_singleton. apply Hp. rewrite <- Heq. by apply list_elem_of_fmap_2.
  - apply Hk. by right.
Qed.

Lemma trim_blank_items s : TrimSpace s = "" -> itemsOf (Split s ",") = [].
Proof.
  intros H. assert (str_forall is_space s = true) as Hs.
  { unfold TrimSpace in H. apply trim_right_nil_iff in H.
    induction s as [|c s IH]; [done|]. simpl in *.
    destruct (is_space c) eqn:E; [by apply IH|]. simpl in H. by rewrite E in H. }
  rewrite Split_no_char.
  - unfold itemsOf. simpl. unfold is_item. by rewrite H.
  - revert Hs. apply str_forall_impl. intros c Hc. apply negb_true_iff, Ascii.eqb_neq. by intros ->.
Qed.

Lemma ParseProxy_firsts s out :
  ParseProxy s = Ok out <->
  exists ps, Forall2 (fun t p => parseItem t = Ok p) (itemsOf (Split s ",")) ps /\ out = firsts ∅ ps.
Proof.
  unfold ParseProxy. destruct (String.eqb_spec (TrimSpace s) "") as [E|E].
  { rewrite trim_blank_items by done. split.
    - intros [= <-]. by exists [].
    - intros (ps & H & ->). by inversion H. }
  split.
  - destruct (foldM _ _ _) as [[servers seen]|] eqn:Ef; [|done]. cbn [mbind result_bind].
    intros [= <-]. by apply parse_fold in Ef.
  - intros (ps & Hps & ->). destruct (parse_fold_total _ [] ∅ ps Hps) as [seen' ->]. done.
Qed.

(** ** Lemmas: printed endpoints *)

Definition plain_char (c : ascii) : bool := is_lower c || is_digit c || in_chars "-." c.
Definition plainHost (h : string) : Prop := h <> "" /\ str_forall plain_char h = true.
Definition plainServer (s : Server) : Prop :=
  validProxyScheme (sScheme s) = true /\ 1 <= sPort s <= 65535 /\ plainHost (sHost s).

Definition hostport (s : Server) : string := sHost s +:+ ":" +:+ Itoa (sPort s).
Definition endpoint (s : Server) : string := sScheme s +:+ "://" +:+ hostport s.

Definition hp_char (c : ascii) : bool := plain_char c || Ascii.eqb c ":".

Lemma parsePort_Itoa p : 1 <= p <= 65535 -> parsePort (Itoa p) = Ok p.
Proof.
  intros Hp. unfold parsePort. rewrite Atoi_Itoa by (unfold max_int64; lia).
  by replace ((p <? 1) || (65535 <? p)) with false by lia.
Qed.

Section Printed.
Variable s : Server.
Hypothesis Hs : plainServer s.

Lemma hostport_chars : str_forall hp_char (hostport s) = true.
Proof.
  destruct Hs as (_ & Hp & _ & Hh). unfold hostport. rewrite !str_forall_app, !andb_true_iff.
  split_and!; [revert Hh|done|generalize (Itoa_digits (sPort s) ltac:(lia))]; by apply class_impl.
Qed.

Lemma hostport_class (q : ascii -> bool) :
  forallb (fun c => implb (hp_char c) (q c)) all_ascii = true -> str_forall q (hostport s) = true.
Proof. intros H. generalize hostport_chars. by apply class_impl. Qed.

Lemma host_class (q : ascii -> bool) :
  forallb (fun c => implb (plain_char c) (q c)) all_ascii = true -> str_forall q (sHost s) = true.
Proof. intros H. destruct Hs as (_ & _ & _ & Hh). revert Hh. by apply class_impl. Qed.

Lemma host_not_bracket : HasPrefix (sHost s) "[" = false.
Proof.
  pose proof (host_class (fun c => negb (Ascii.eqb c "[")) eq_refl) as H.
  destruct Hs as (_ & _ & Hne & _). destruct (sHost s) as [|c t]; [done|].
  simpl in H. apply andb_true_iff in H as [H _]. apply negb_true_iff, Ascii.eqb_neq in H.
  unfold HasPrefix. cbn [String.prefix]. destruct (ascii_dec "[" c); done.
Qed.

Lemma hostport_not_bracket : HasPrefix (hostport s) "[" = false.
Proof.
  pose proof host_not_bracket as H. destruct Hs as (_ & _ & Hne & _). unfold hostport, HasPrefix in *.
  destruct (sHost s) as [|c t]; [done|]. cbn [String.append String.prefix] in *.
  destruct (ascii_dec "[" c); [by destruct t|done].
Qed.

Lemma CutLast_hostport : CutLast (hostport s) ":" = Some (sHost s, Itoa (sPort s)).
Proof.
  destruct Hs as (_ & Hp & _). apply CutLast_app. unfold no_char.
  generalize (Itoa_digits (sPort s) ltac:(lia)). by apply class_impl.
Qed.

Lemma unescape_hostport : unescape encHost (hostport s) = Some (hostport s).
Proof.
  pose proof (hostport_class (fun c => negb (Ascii.eqb c "%") && negb (shouldEscape encHost c)) eq_refl) as H.
  revert H. generalize (hostport s). intros t. induction t as [|c t IH]; [done|].
  simpl. intros [[Hc1 Hc2]%andb_true_iff Ht]%andb_true_iff. apply negb_true_iff in Hc1, Hc2.
  rewrite IH by done. rewrite Hc2, andb_false_r. simpl.
  by destruct c as [[] [] [] [] [] [] [] []].
Qed.

Lemma hostport_no_char c :
  negb (hp_char c) = true -> no_char c (hostport s) = true.
Proof.
  intros Hc. generalize hostport_chars. apply str_forall_impl. intros d Hd.
  apply negb_true_iff, Ascii.eqb_neq. intros ->. by rewrite Hd in Hc.
Qed.

Lemma scheme_cases (P : string -> Prop) :
  P "http" -> P "https" -> P "socks" -> P "socks4" -> P "socks4a" -> P "socks5" -> P (sScheme s).
Proof.
  intros H1 H2 H3 H4 H5 H6. destruct Hs as (Hv & _). unfold validProxyScheme in Hv. simpl in Hv.
  repeat (apply orb_true_iff in Hv as [Hv%String.eqb_eq|Hv]; [by rewrite Hv|]). done.
Qed.

Lemma endpoint_class (q : ascii -> bool) :
  forallb (fun c => implb (hp_char c || Ascii.eqb c "/") (q c)) all_ascii = true ->
  str_forall q (endpoint s) = true.
Proof.
  intros H. apply class_impl with (p := fun c => hp_char c || Ascii.eqb c "/"); [done|].
  unfold endpoint. rewrite !str_forall_app, !andb_true_iff. split_and!.
  - by apply (scheme_cases (fun sch => str_forall (fun c => hp_char c || Ascii.eqb c "/") sch = true)).
  - done.
  - apply hostport_class. reflexivity.
Qed.

Lemma endpoint_no_char c :
  negb (hp_char c || Ascii.eqb c "/") = true -> no_char c (endpoint s) = true.
Proof.
  intros Hc. pose proof (endpoint_class (fun d => hp_char d || Ascii.eqb d "/") ltac:(by vm_compute)) as H.
  revert H. apply str_forall_impl. intros d Hd. apply negb_true_iff, Ascii.eqb_neq. intros ->.
  by rewrite Hd in Hc.
Qed.

Lemma getScheme_endpoint : getScheme (endpoint s) = Some (sScheme s, "//" +:+ hostport s).
Proof.
  unfold endpoint.
  by apply (scheme_cases (fun sch => getScheme (sch +:+ "://" +:+ hostport s)
                                      = Some (sch, "//" +:+ hostport s))).
Qed.

Lemma authority_hostport : url_parseAuthority (hostport s) = Some (None, hostport s).
Proof.
  unfold url_parseAuthority.
  assert (CutLast (hostport s) "@" = None) as ->.
  { pose proof (hostport_no_char "@" eq_refl) as H. revert H. generalize (hostport s).
    intros t. induction t as [|c t IH]; [done|]. unfold no_char. simpl.
    intros [Hc Ht]%andb_true_iff. rewrite IH by done. by apply negb_true_iff in Hc as ->. }
  unfold parseHost. rewrite hostport_not_bracket, CutLast_hostport.
  destruct Hs as (_ & Hp & _). rewrite Itoa_digits by lia. rewrite unescape_hostport. done.
Qed.

Lemma no_fragment_endpoint :
  parse_no_fragment (endpoint s) = Some (mkURL (sScheme s) "" None (hostport s) "" "" "" false "").
Proof.
  assert (no_char "?" ("//" +:+ hostport s) = true) as Hq.
  { pose proof (hostport_no_char "?" eq_refl) as H. unfold no_char in *.
    by rewrite str_forall_app, H. }
  assert (no_char "/" (hostport s) = true) as Hslash by by apply hostport_no_char.
  unfold parse_no_fragment, has_ctl, str_exists.
  rewrite (endpoint_class (fun c => negb ((ord c <? 32) || (ord c =? 127)))) by by vm_compute.
  assert (String.eqb (endpoint s) "*" = false) as ->.
  { unfold endpoint. by apply (scheme_cases (fun sch => String.eqb (sch +:+ "://" +:+ hostport s) "*" = false)). }
  simpl negb. cbv iota. rewrite getScheme_endpoint. cbn [mbind option_bind].
  assert (ToLower (sScheme s) = sScheme s) as -> by by apply (scheme_cases (fun sch => ToLower sch = sch)).
  assert (String.eqb (sScheme s) "" = false) as ->
    by by apply (scheme_cases (fun sch => String.eqb sch "" = false)).
  assert (CountChar ("//" +:+ hostport s) "?" = 0) as ->.
  { revert Hq. generalize ("//" +:+ hostport s). intros t. unfold no_char. induction t as [|c t IH]; [done|].
    simpl. intros [Hc Ht]%andb_true_iff. apply negb_true_iff in Hc as ->. by rewrite IH. }
  rewrite andb_false_r. unfold CutOr. rewrite (proj2 (Cut_None _ "?")) by done.
  assert (forall t, HasPrefix ("//" +:+ t) "/" = true /\ HasPrefix ("//" +:+ t) "//" = true) as Hpre.
  { intros t. split; [apply (has_prefix_app "/" ("/" +:+ t))|apply has_prefix_app]. }
  destruct (Hpre (hostport s)) as [Hp1 Hp2].
  cbn [default fst snd]. rewrite Hp1, Hp2. cbn [negb andb orb].
  change (str_drop 2 ("//" +:+ hostport s)) with (str_drop 0 (hostport s)).
  assert (str_drop 0 (hostport s) = hostport s) as -> by by destruct (hostport s).
  rewrite (proj2 (Cut_None _ "/")) by done. rewrite authority_hostport. reflexivity.
Qed.

Lemma urlParse_endpoint :
  urlParse (endpoint s) = Some (mkURL (sScheme s) "" None (hostport s) "" "" "" false "").
Proof.
  unfold urlParse, CutOr. rewrite (proj2 (Cut_None _ "#")) by by apply endpoint_no_char.
  cbn [default]. rewrite no_fragment_endpoint. reflexivity.
Qed.

Lemma plain_checkHost : checkHost (sHost s) = Ok ().
Proof.
  unfold checkHost, validateHost. rewrite TrimSpace_no_space by (unfold no_space; by apply host_class).
  destruct Hs as (_ & _ & Hne & _). apply String.eqb_neq in Hne. rewrite Hne.
  unfold ContainsAny, str_exists.
  by rewrite (host_class (fun c => negb (in_chars badHostChars c)) eq_refl).
Qed.

Lemma endpoint_no_space : no_space (endpoint s) = true.
Proof. unfold no_space. apply endpoint_class. by vm_compute. Qed.

Lemma parse_endpoint : parseProxyEndpoint (endpoint s) = Ok s.
Proof.
  unfold parseProxyEndpoint. rewrite TrimSpace_no_space by apply endpoint_no_space.
  assert (String.eqb (endpoint s) "" = false /\ GoStrings.Contains (endpoint s) "://" = true) as [-> ->].
  { unfold endpoint. generalize (hostport s). intros t.
    apply (scheme_cases (fun sch => String.eqb (sch +:+ "://" +:+ t) "" = false /\
                                    GoStrings.Contains (sch +:+ "://" +:+ t) "://" = true)); by destruct t. }
  rewrite urlParse_endpoint. cbn [Scheme User Path RawQuery Fragment].
  assert (ToLower (sScheme s) = sScheme s) as -> by by apply (scheme_cases (fun sch => ToLower sch = sch)).
  destruct Hs as (Hv & Hp & _). rewrite Hv. cbn [negb].
  unfold Hostname, Port, url_splitHostPort. cbn [Host]. rewrite CutLast_hostport.
  rewrite Itoa_digits by lia. rewrite host_not_bracket. cbn [andb fst snd].
  pose proof (Itoa_nonempty (sPort s) ltac:(lia)) as Hne. apply String.eqb_neq in Hne. rewrite Hne.
  cbn. rewrite parsePort_Itoa by done. cbn. rewrite plain_checkHost. by destruct s.
Qed.

Lemma plain_serverKey : serverKey s = endpoint s.
Proof.
  unfold serverKey, endpoint, hostport. do 2 f_equal.
  assert (ToLower (sHost s) = sHost s) as ->.
  { pose proof (host_class (fun c => Ascii.eqb (lower_char c) c) eq_refl) as H.
    unfold ToLower. revert H. generalize (sHost s). intros t. induction t as [|c t IH]; [done|].
    simpl. intros [Hc%Ascii.eqb_eq Ht]%andb_true_iff. by rewrite Hc, IH. }
  unfold JoinHostPort. rewrite !ContainsChar_no_char.
  unfold no_char. rewrite (host_class (fun c => negb (Ascii.eqb c ":")) eq_refl).
  by rewrite (host_class (fun c => negb (Ascii.eqb c "%")) eq_refl).
Qed.

End Printed.

Lemma endpoint_item s : plainServer s -> parseItem (endpoint s) = Ok s /\ keyOf s = endpoint s.
Proof.
  intros Hs. split.
  - unfold parseItem. assert (EqualFold (endpoint s) directHost = false) as ->.
    { unfold EqualFold, endpoint. generalize (hostport s). intros t.
      apply (scheme_cases s Hs (fun sch => String.eqb (ToLower (sch +:+ "://" +:+ t)) (ToLower directHost)
                                             = false)); reflexivity. }
    by apply parse_endpoint.
  - unfold keyOf. rewrite decide_False; [by apply plain_serverKey|].
    intros ->. by destruct Hs as (H & _).
Qed.

Lemma endpoint_items l :
  l <> [] -> Forall plainServer l -> itemsOf (Split (Join (map endpoint l) ",") ",") = map endpoint l.
Proof.
  intros Hne Hl. rewrite Split_Join.
  - induction Hl as [|s l Hs _ IH]; [done|]. cbn [map]. unfold itemsOf. cbn [map List.filter].
    rewrite TrimSpace_no_space by by apply endpoint_no_space.
    unfold is_item at 1. assert (String.eqb (endpoint s) "" = false) as ->.
    { unfold endpoint. by apply (scheme_cases s Hs (fun sch => String.eqb (sch +:+ "://" +:+ hostport s) "" = false)). }
    simpl. f_equal. destruct l as [|s' l]; [done|]. by apply IH.
  - by destruct l.
  - apply Forall_map. eapply Forall_impl; [exact Hl|]. intros s Hs. by apply endpoint_no_char.
Qed.

(** ** Lemmas: label suffixes *)

Lemma has_suffix_iff s suf : HasSuffix s suf = true <-> exists pre, s = pre +:+ suf.
Proof.
  split; [intros H%has_suffix_inv; by eexists|]. intros [pre ->]. apply has_suffix_app.
Qed.

(** A host equals a rule or ends in "." and the rule exactly when its labels end
    in the labels of the rule. *)
Lemma label_suffix host rule :
  (String.eqb host rule || HasSuffix host ("." +:+ rule)) = true <->
  exists pre, Split host "." = pre ++ Split rule ".".
Proof.
  rewrite orb_true_iff, String.eqb_eq, has_suffix_iff. split.
  - intros [->|[pre ->]]; [by exists []|]. exists (Split pre "."). apply Split_app_sep.
  - intros [pre Hpre]. destruct (decide (pre = [])) as [->|Hne].
    + left. rewrite <- (Join_Split host "."), Hpre. apply Join_Split.
    + right. exists (Join pre "."). rewrite <- (Join_Split host "."), Hpre.
      assert (forall l1 l2, l1 <> [] -> l2 <> [] ->
        Join (l1 ++ l2) "." = Join l1 "." +:+ "." +:+ Join l2 ".") as Hj.
      { intros l1 l2 H1 H2. induction l1 as [|x l1 IH]; [done|].
        destruct l1 as [|y l1]; [by simpl; destruct l2|].
        cbn [app] in *. rewrite (Join_cons x (y :: l1 ++ l2)), (Join_cons x (y :: l1)) by done.
        rewrite IH by done. by rewrite <- !app_assoc_str. }
      rewrite Hj by (try done; apply Split_nonnil). by rewrite Join_Split.
Qed.

(** A host name rule: in normal form, and none of the other rule forms. *)
Definition nameRule (r : string) : Prop :=
  plainHost r /\ normalizeHostRule r = r /\ ParseIP r = None /\ looksLikeIPRange r = false.

Lemma parseNoProxy_name r :
  nameRule r ->
  parseNoProxy r false = Ok (mkRules emptySet {[r]} [mkMatcher r 0 false false]).
Proof.
  intros ((Hne & Hr) & Hnorm & Hip & Hrange).
  assert (forall q, forallb (fun c => implb (plain_char c) (q c)) all_ascii = true ->
            str_forall q r = true) as Hq by (intros; revert Hr; by apply class_impl).
  assert (TrimSpace r = r) as Ht by (apply TrimSpace_no_space; unfold no_space; by apply Hq).
  assert (forall c, negb (plain_char c) = true -> ContainsChar r c = false) as Hc.
  { intros c Hpc. rewrite ContainsChar_no_char. apply negb_false_iff. revert Hr.
    apply str_forall_impl. intros d Hd. apply negb_true_iff, Ascii.eqb_neq. intros ->. by rewrite Hd in Hpc. }
  pose proof (proj2 (String.eqb_neq r "") Hne) as He.
  unfold parseNoProxy. rewrite Ht, He.
  assert (str_map (fun c => if Ascii.eqb c ";" || Ascii.eqb c " " then ","%char else c) (ToLower r) = r) as ->.
  { pose proof (Hq (fun c => Ascii.eqb (let c := lower_char c in
      if Ascii.eqb c ";" || Ascii.eqb c " " then ","%char else c) c) eq_refl) as H.
    unfold ToLower. revert H. clear. induction r as [|c r IH]; [done|].
    simpl. intros [H%Ascii.eqb_eq Hr]%andb_true_iff. simpl in H. by rewrite H, IH. }
  rewrite Split_no_char by (unfold no_char; by apply Hq).
  cbn [foldM]. unfold parseNoProxyItem. rewrite Ht, He.
  assert (String.eqb r "<local>" = false /\ String.eqb r "*" = false) as [-> ->].
  { split; apply String.eqb_neq; by intros ->. }
  cbn [andb]. unfold parseIPToken.
  assert (HasPrefix r "[" = false) as ->.
  { pose proof (Hq (fun c => negb (Ascii.eqb c "[")) eq_refl) as H.
    destruct r as [|c r]; [done|]. simpl in H. apply andb_true_iff in H as [H _].
    apply negb_true_iff, Ascii.eqb_neq in H. unfold HasPrefix. cbn [String.prefix].
    destruct (ascii_dec "[" c); done. }
  cbn [andb]. rewrite Hip, !Hc by done. rewrite Hrange, Hnorm.
  assert (checkHost r = Ok ()) as ->.
  { unfold checkHost, validateHost. rewrite Ht, He. unfold ContainsAny, str_exists.
    by rewrite (Hq (fun c => negb (in_chars badHostChars c)) eq_refl). }
  cbn. unfold with_host, noRules. simpl. do 2 f_equal. by rewrite union_empty_r_L.
Qed.

(** ** Lemmas: routing *)

(** A list names DIRECT among its items. *)
Definition names_direct (out : string) : Prop :=
  exists item, item ∈ Split out "," /\ EqualFold (TrimSpace item) directHost = true.

Lemma itemsOf_elem t l : t ∈ itemsOf l <-> exists item, item ∈ l /\ t = TrimSpace item /\ t <> "".
Proof.
  unfold itemsOf. rewrite elem_of_bfilter, list_elem_of_In, in_map_iff. unfold is_item.
  rewrite negb_true_iff, String.eqb_neq. split.
  - intros (Hne & item & <- & Hin). exists item. by rewrite list_elem_of_In.
  - intros (item & Hin & -> & Hne). split; [done|]. exists item. by rewrite <- list_elem_of_In.
Qed.

Lemma parse_direct out l : ParseProxy out = Ok l -> Direct ∈ l -> names_direct out.
Proof.
  intros (ps & Hps & ->)%ParseProxy_firsts Hin. apply firsts_NoDup in Hin as [Hin _].
  apply list_elem_of_lookup in Hin as [i Hi].
  destruct (Forall2_lookup_r _ _ _ _ _ Hps Hi) as (t & Ht & Hp).
  apply list_elem_of_lookup_2, itemsOf_elem in Ht as (item & Hitem & -> & _).
  exists item. split; [done|]. unfold parseItem in Hp. destruct (EqualFold _ _); [done|].
  exfalso. by eapply valid_not_direct; [eapply parseProxyEndpoint_valid|].
Qed.

Lemma parsed_direct {PErr RErr} out l :
  @parsed PErr RErr out = Ok l -> Direct ∈ l -> names_direct out.
Proof.
  unfold parsed. destruct (ParseProxy out) eqn:E; [|done]. intros [= ->]. by eapply parse_direct.
Qed.

Lemma candidates_no_resolver {PErr RErr} lookupIPs (evalPAC : string -> string -> result PErr string)
    (resolveSystem : string -> Config -> result RErr string) rawurl netloc w :
  (wMode w = ModeAuto \/ wMode w = ModePAC -> wResolver w = true) ->
  candidates lookupIPs evalPAC resolveSystem rawurl netloc w <> Err RNoResolver.
Proof.
  intros Hready. assert (forall out, @parsed PErr RErr out <> Err RNoResolver) as Hp.
  { intros out. unfold parsed. by destruct (ParseProxy out). }
  unfold candidates. case_if; [done|]. case_if; [done|].
  case_if; [destruct (evalPAC _ _); [apply Hp|done]|].
  case_if; [cbv zeta; case_if; done|].
  case_if; [cbv zeta; case_if; [done|apply Hp]|].
  case_if; [|done].
  assert (wResolver w = true) as -> by
    (apply Hready; apply orb_true_iff in E4 as [?|?]; [left|right]; by eapply bool_decide_eq_true_1).
  cbn [negb]. destruct (resolveSystem _ _) as [out|]; [|done]. case_if; [done|].
  destruct (ValidateCanonicalResult out); [done|apply Hp].
Qed.

Lemma initResolver_ready s w w' :
  initResolver s w = Ok w' ->
  wMode w' = wMode w /\ (wMode w' = ModeAuto \/ wMode w' = ModePAC -> wResolver w' = true).
Proof.
  unfold initResolver. case_if.
  - case_if; [|done]. by intros [= <-].
  - intros [= <-]. split; [done|]. to_prop. naive_solver.
Qed.

Lemma envScheme_found g scheme keys acc acc' :
  envScheme g scheme keys acc = Ok acc' -> acc'.2 = false -> acc.2 = false /\ firstEnv g keys = "".
Proof.
  unfold envScheme. destruct (String.eqb_spec (firstEnv g keys) "") as [E|E].
  - by intros [= <-].
  - destruct (ParseProxy _); [|done]. by intros [= <-].
Qed.

Lemma discoverEnvironment_none g e :
  discoverEnvironmentProxies g = Ok (e, false) ->
  firstEnv g ["http_proxy"; "HTTP_PROXY"] = "" /\ firstEnv g ["https_proxy"; "HTTPS_PROXY"] = "" /\
  firstEnv g ["all_proxy"; "ALL_PROXY"] = "".
Proof.
  unfold discoverEnvironmentProxies.
  destruct (envScheme g "http" _ _) as [a1|] eqn:E1; [|done]. cbn [mbind result_bind].
  destruct (envScheme g "https" _ _) as [a2|] eqn:E2; [|done]. cbn [mbind result_bind].
  destruct (String.eqb_spec (firstEnv g ["all_proxy"; "ALL_PROXY"]) "") as [E|E].
  - intros [= ->]. apply envScheme_found in E2 as [H2 ?]; [|done].
    by apply envScheme_found in E1 as [_ ?].
  - by destruct (ParseProxy _).
Qed.

Lemma useSystemProxy_mode c w w' : useSystemProxy c w = Ok w' -> wMode w' <> ModeNone.
Proof.
  unfold useSystemProxy. cbv zeta.
  repeat case_if; cbn [mbind result_bind]; try done;
    match goal with |- context [mergeNoProxy ?a ?b] => destruct (mergeNoProxy a b) end;
    try done; by intros [= <-].
Qed.

(** ** Properties *)

(** parsing a proxy list fails or gives, in order, the first entry of each
    key among its items; every entry is DIRECT or has a known scheme, a port of
    1 to 65535 and a valid host, no key occurs twice and no item is lost. *)
Theorem proxy_list_spec str servers :
  ParseProxy str = Ok servers ->
  (exists ps, Forall2 (fun t s => parseItem t = Ok s) (itemsOf (Split str ",")) ps /\
     servers = firsts ∅ ps /\
     (forall s, s ∈ ps -> exists s', s' ∈ servers /\ keyOf s' = keyOf s)) /\
  NoDup (map keyOf servers) /\ Forall (fun s => s = Direct \/ valid_server s) servers.
Proof.
  intros (ps & Hps & ->)%ParseProxy_firsts. split_and!.
  - exists ps. split_and!; [done|done|]. intros s Hs. apply firsts_key; [done|set_solver].
  - apply firsts_NoDup.
  - apply Forall_forall. intros s Hs. apply firsts_NoDup in Hs as [Hs _].
    apply list_elem_of_lookup in Hs as [i Hi].
    destruct (Forall2_lookup_r _ _ _ _ _ Hps Hi) as (t & _ & Ht). by eapply parseItem_valid.
Qed.

(** a list of distinct endpoints with plain host names, printed as
    [scheme://host:port] and joined by commas, parses back to itself. *)
Theorem proxy_list_roundtrip servers :
  Forall plainServer servers -> NoDup servers ->
  ParseProxy (Join (map endpoint servers) ",") = Ok servers.
Proof.
  intros Hs Hnd. apply ParseProxy_firsts. destruct servers as [|s0 l]; [by exists []|].
  rewrite endpoint_items by done. exists (s0 :: l). split.
  - apply Forall2_fmap_l, Forall_Forall2_diag. eapply Forall_impl; [exact Hs|].
    intros s H. by apply endpoint_item.
  - symmetry. apply firsts_id; [|set_solver].
    assert (map keyOf (s0 :: l) = map endpoint (s0 :: l)) as ->.
    { apply map_ext_in. intros s Hin%list_elem_of_In. apply endpoint_item.
      by eapply Forall_forall in Hin. }
    apply NoDup_fmap_2_strong; [|done]. intros a b Ha Hb Heq.
    eapply Forall_forall in Ha, Hb; try exact Hs.
    pose proof (parse_endpoint a Ha) as Pa. rewrite Heq, parse_endpoint in Pa by done. by injection Pa.
Qed.

(** a glob rule of four parts, each a star or an octet, is always accepted
    and never misses an address it matches; when no octet follows a star it adds
    exactly the addresses it matches. *)
Theorem glob_membership a b c d s :
  Forall glob_part [a; b; c; d] ->
  exists s', addGlob (Join [a; b; c; d] ".") s = Ok s' /\
    forall x, 0 <= x < 2 ^ 32 ->
      (Contains s (of_v4 x) || glob_matches a b c d x = true -> Contains s' (of_v4 x) = true) /\
      (trailing a b c d = true ->
        Contains s' (of_v4 x) = Contains s (of_v4 x) || glob_matches a b c d x).
Proof.
  intros Hp. eexists. split; [by apply addGlob_range|]. intros x Hx.
  destruct (glob_interval a b c d x Hp Hx) as [H1 H2].
  rewrite Contains_range; [| | |done].
  - split; [|intros E; by rewrite (H2 E)]. intros [E|E]%orb_true_iff; [by rewrite E|]. by rewrite (H1 E), orb_true_r.
  - repeat (apply Forall_cons in Hp as [?Hq Hp]).
    repeat match goal with H : glob_part _ |- _ => apply part_bounds in H as (? & ? & _) end.
    apply quad_range; lia.
  - repeat (apply Forall_cons in Hp as [?Hq Hp]).
    repeat match goal with H : glob_part _ |- _ => apply part_bounds in H as (? & ? & _) end.
    apply quad_range; lia.
Qed.

(** a host-name bypass rule applies at label boundaries: it parses to one
    rule, which bypasses a target exactly when the labels of the target's host,
    without a leading or trailing dot and in any case, end in the rule's labels. *)
Theorem bypass_by_labels r w netloc :
  nameRule r -> parseNoProxy r false = Ok (rules w) ->
  hostMatchesNoProxy netloc w = true <->
  exists pre, Split (normalizeHostRule (sHost netloc)) "." = pre ++ Split r ".".
Proof.
  intros Hr Hw. rewrite parseNoProxy_name in Hw by done. injection Hw as Hw.
  unfold hostMatchesNoProxy. rewrite <- Hw. cbn [matchers existsb]. rewrite orb_false_r.
  unfold matcherHits. cbn [local mPort mHost subdomainsOnly]. simpl.
  assert (String.eqb r "*" = false) as ->.
  { apply String.eqb_neq. intros ->. by destruct Hr as ((_ & ?) & _). }
  apply label_suffix.
Qed.

(** C2: traffic goes direct only by a decision: the candidates of a URL include
    DIRECT only when no proxy source is configured, a bypass rule applies, the
    source has no proxy for the scheme, or the source itself names DIRECT; a
    failing PAC or platform resolver gives an error, never DIRECT. *)
Theorem direct_only_by_rule {PErr RErr} lookupIPs (evalPAC : string -> string -> result PErr string)
    (resolveSystem : string -> Config -> result RErr string) rawurl netloc w servers :
  candidates lookupIPs evalPAC resolveSystem rawurl netloc w = Ok servers ->
  Direct ∈ servers ->
  wMode w = ModeNone \/
  isNoProxy lookupIPs netloc w = true \/
  (wMode w = ModeConfigPAC /\ exists out, evalPAC rawurl (sHost netloc) = Ok out /\ names_direct out) \/
  (wMode w = ModeEnv /\ (forScheme (environmentProxies w) (sScheme netloc) = [] \/
     Direct ∈ forScheme (environmentProxies w) (sScheme netloc))) \/
  (wMode w = ModeManual /\ let raw := ForScheme (ManualProxy (systemConfig w)) (sScheme netloc) in
     TrimSpace raw = "" \/ names_direct raw) \/
  ((wMode w = ModeAuto \/ wMode w = ModePAC) /\
     exists out, resolveSystem rawurl (systemConfig w) = Ok out /\ names_direct out) \/
  Direct ∈ Servers w.
Proof.
  unfold candidates. intros Hc Hin.
  case_if_in Hc; [left; by to_prop|]. destruct (isNoProxy lookupIPs netloc w) eqn:Enp; [by right; left|].
  do 2 right. case_if_in Hc.
  { left. to_prop. split; [done|]. destruct (evalPAC _ _) as [out|]; [|done].
    exists out. split; [done|]. by eapply parsed_direct. }
  right. case_if_in Hc.
  { left. to_prop. split; [done|]. cbv zeta in Hc.
    destruct (forScheme (environmentProxies w) (sScheme netloc)) as [|s l]; [by left|].
    right. simpl in Hc. by injection Hc as <-. }
  right. case_if_in Hc.
  { left. to_prop. split; [done|]. cbv zeta in Hc.
    destruct (String.eqb_spec (TrimSpace (ForScheme (ManualProxy (systemConfig w)) (sScheme netloc))) "") as [E2|E2];
      [by left|]. right. by eapply parsed_direct. }
  right. case_if_in Hc.
  - left. split; [|].
    { match goal with H : _ || _ = true |- _ => apply orb_true_iff in H as [H|H] end;
        [left|right]; by eapply bool_decide_eq_true_1. }
    case_if_in Hc; [done|]. destruct (resolveSystem _ _) as [out|]; [|done].
    exists out. split; [done|]. case_if_in Hc; [done|].
    destruct (ValidateCanonicalResult out); [done|]. by eapply parsed_direct.
  - right. by injection Hc as <-.
Qed.

(** construction is complete: a router that was built can ask the resolver
    its mode needs, so routing never fails for the lack of one, and it stays
    without a proxy source only when none was requested, the system has none and
    none of the proxy variables is set. *)
Theorem construction_is_complete {PErr RErr} mode servers noproxy s w
    lookupIPs (evalPAC : string -> string -> result PErr string)
    (resolveSystem : string -> Config -> result RErr string) rawurl netloc :
  NewWithDNS mode servers noproxy s = Ok w ->
  candidates lookupIPs evalPAC resolveSystem rawurl netloc w <> Err RNoResolver /\
  (wMode w = ModeNone ->
    mode = ModeNone /\ Found (discovered s) = false /\
    firstEnv (getenv s) ["http_proxy"; "HTTP_PROXY"] = "" /\
    firstEnv (getenv s) ["https_proxy"; "HTTPS_PROXY"] = "" /\
    firstEnv (getenv s) ["all_proxy"; "ALL_PROXY"] = "").
Proof.
  unfold NewWithDNS. destruct (parseNoProxy noproxy false) as [r|]; [|done]. cbn [mbind result_bind].
  case_if; [done|].
  match goal with |- (?m ≫= _) = _ -> _ => destruct m as [w1|e] eqn:Em end; [|done].
  cbn [mbind result_bind]. intros Hi. apply initResolver_ready in Hi as [Hmode Hready]. split.
  - apply candidates_no_resolver. intros [?|?]; apply Hready; [by left|by right].
  - intros Hnone. rewrite Hmode in Hnone. destruct (bool_decide (mode = ModeNone)) eqn:Eb.
    + to_prop. split; [done|]. destruct (Found (discovered s)) eqn:Ef.
      { by apply useSystemProxy_mode in Em. }
      split; [done|]. unfold useEnvironment in Em.
      destruct (discoverEnvironmentProxies (getenv s)) as [[e found]|] eqn:Ed; [|done].
      destruct found; [|by eapply discoverEnvironment_none].
      cbn [mbind result_bind] in Em. cbv zeta in Em.
      destruct (mergeNoProxy _ _); [|done]. injection Em as <-. done.
    + injection Em as <-. simpl in Hnone. to_prop. done.
Qed.

(** ** Witnesses and examples *)

Definition wit_list : string := "p1.corp:3128, HTTPS://p2.corp , direct,P1.corp:3128,DIRECT".
Definition wit_servers : list Server :=
  [mkServer "p1.corp" 3128 "http"; mkServer "p2.corp" 443 "https"; Direct].

Lemma proxy_list_spec_witness :
  ParseProxy wit_list = Ok wit_servers /\ NoDup (map keyOf wit_servers).
Proof.
  split; [by vm_compute|]. apply (proxy_list_spec wit_list wit_servers). by vm_compute.
Defined.

Definition wit_plain : list Server :=
  [mkServer "p1.corp" 3128 "http"; mkServer "10.0.0.1" 1080 "socks4a"].

Lemma proxy_list_roundtrip_witness :
  Join (map endpoint wit_plain) "," = "http://p1.corp:3128,socks4a://10.0.0.1:1080" /\
  ParseProxy (Join (map endpoint wit_plain) ",") = Ok wit_plain.
Proof.
  split; [reflexivity|]. apply (proxy_list_roundtrip wit_plain).
  - repeat constructor; simpl; lia || done.
  - by apply (bool_decide_unpack (NoDup wit_plain)).
Defined.

Lemma glob_membership_witness :
  exists s', addGlob "10.1.*.*" emptySet = Ok s' /\ Contains s' (of_v4 167847681) = true.
Proof.
  destruct (glob_membership "10" "1" "*" "*" emptySet) as (s' & H1 & H2).
  - apply Forall_cons; split; [by right|]. apply Forall_cons; split; [by right|].
    apply Forall_cons; split; [by left|]. apply Forall_cons; split; [by left|]. by apply Forall_nil.
  - exists s'. split; [exact H1|]. apply (H2 167847681); [lia|reflexivity].
Defined.

Definition wit_w : Wproxy :=
  mkW ModeConfig RouteSourceConfig false wit_plain
    (mkRules emptySet {["corp.example"]} [mkMatcher "corp.example" 0 false false]) false false noConfig noEnv.

Lemma bypass_by_labels_witness :
  hostMatchesNoProxy (mkServer "App.Corp.Example." 443 "https") wit_w = true /\
  hostMatchesNoProxy (mkServer "notcorp.example" 443 "https") wit_w = false.
Proof.
  assert (nameRule "corp.example") as Hr by by vm_compute.
  assert (parseNoProxy "corp.example" false = Ok (rules wit_w)) as Hw by by apply parseNoProxy_name.
  split; [|reflexivity].
  apply (bypass_by_labels "corp.example" wit_w (mkServer "App.Corp.Example." 443 "https") Hr Hw).
  exists ["app"]. reflexivity.
Defined.

Definition wit_pac : Wproxy := set_source
  (mkW ModeConfigPAC RouteSourceConfigPAC false [] noRules true false noConfig noEnv)
  ModeConfigPAC RouteSourceConfigPAC [].

Lemma direct_only_by_rule_witness :
  let ev (_ _ : string) : result () string := Ok "p1:80,DIRECT" in
  let rs (_ : string) (_ : Config) : result () string := Ok "" in
  candidates (fun _ => []) ev rs "http://a.b/" (mkServer "a.b" 80 "http") wit_pac
    = Ok [mkServer "p1" 80 "http"; Direct] /\
  names_direct "p1:80,DIRECT".
Proof.
  intros ev rs. assert (candidates (fun _ => []) ev rs "http://a.b/" (mkServer "a.b" 80 "http") wit_pac
    = Ok [mkServer "p1" 80 "http"; Direct]) as Hc by by vm_compute.
  split; [exact Hc|].
  destruct (direct_only_by_rule _ _ _ _ _ _ _ Hc ltac:(set_solver))
    as [H|[H|[(_ & out & [= <-] & H)|[[H _]|[[H _]|[[[H|H] _]|H]]]]]];
    [done|done|exact H|done|done|done|done|by apply not_elem_of_nil in H].
Defined.

Definition wit_sur : Surroundings :=
  mkSur true noConfig (fun k => if String.eqb k "HTTP_PROXY" then "proxy.corp:8080" else "") true.

Lemma construction_is_complete_witness :
  exists w, NewWithDNS ModeNone [] "localhost" wit_sur = Ok w /\ wMode w <> ModeNone /\
  candidates (fun _ => []) (fun _ _ => Err ()) (fun _ _ => Err ()) "http://a.b/"
    (mkServer "a.b" 80 "http") w <> Err RNoResolver.
Proof.
  destruct (NewWithDNS ModeNone [] "localhost" wit_sur) as [w|e] eqn:E; [|by vm_compute in E].
  exists w. split; [done|]. split.
  - vm_compute in E. injection E as <-. done.
  - apply (construction_is_complete ModeNone [] "localhost" wit_sur w _ _ _ _ _ E).
Defined.

(** A star before an octet makes the rule wider than what it matches. *)
Example glob_overmatch :
  exists s', addGlob "10.*.0.1" emptySet = Ok s' /\
    glob_matches "10" "*" "0" "1" 168233225 = false /\ Contains s' (of_v4 168233225) = true.
Proof. eexists. split_and!; reflexivity. Qed.

Example noproxy1 :
  is_ok (parseNoProxy "<local>;10.0.0.0/8 192.168.1.5-192.168.1.9,*.corp.example,host:8080" false) = true /\
  is_ok (parseNoProxy "host" true) = false.
Proof. split; reflexivity. Qed.

Example netloc1 :
  GetNetloc "HTTPS://Example.com/a%20b?q" = Ok (mkServer "Example.com" 443 "https", "/a%20b?q") /\
  GetNetloc "[::1]:8080" = Ok (mkServer "::1" 8080 "", "/").
Proof. split; reflexivity. Qed.

End Wp.
