(* ===== verification/ProxyRuntime.v ===== *)
(** * ProxyRuntime: [internal/proxy/supervisor_runtime.go] and the CONNECT
    fallback of [internal/proxy/connect.go]

    How the proxy uses the supervisor: the key of a candidate, the ordering of
    the candidates of a URL, the classification of a failed attempt, and the loop
    that tries the candidates.  The ordering is proved against the interface
    [CandidateOrdering], which [Supervisor] discharges.  A Go error is a tree:
    its kind and what it wraps; what an attempt met on the network is an input. *)

From S2P Require Export Prelude GoStrings.
From S2P Require Import NetAddr.
From S2P Require Supervisor Wproxy.
Import Wproxy.Wp(Server, mkServer, sHost, sPort, sScheme, Direct, Server_eq_dec).
Import Supervisor.Sup(OutcomeKind, Candidate, mkCandidate, cKey, cDirect, Outcome, mkOutcome,
  ProxyKey, PenalizesCandidate, CandidateOrdering, ordering_permutes, ordering_direct, Record_).

#[local] Existing Instance Supervisor.Sup.Order_ordering.

Module Prt.

(** ** Keys and outcomes *)

Definition proxyScheme (server : Server) : string :=
  if String.eqb (sScheme server) "" then "http" else sScheme server.

Definition proxyKeyForSupervisor (server : Server) : ProxyKey :=
  if decide (server = Direct) then "direct://DIRECT:80"
  else proxyScheme server +:+ "://" +:+ JoinHostPort (sHost server) (Itoa (sPort server)).

Definition supervisorCandidate (server : Server) : Candidate :=
  mkCandidate (proxyKeyForSupervisor server) (bool_decide (server = Direct)).

Definition runtimeOutcome (kind : OutcomeKind) (candidate : Server) : Outcome :=
  mkOutcome kind
    (if negb (String.eqb (sHost candidate) "") || bool_decide (candidate = Direct)
     then proxyKeyForSupervisor candidate else "") 0.

(** ** Ordering *)

Definition group (servers : list Server) : gmap ProxyKey (list Server) :=
  fold_left (fun m s => let k := cKey (supervisorCandidate s) in
                        <[k := default [] (m !! k) ++ [s]]> m) servers ∅.

(** The loop over the ordered candidates; [None] is the defensive fallback. *)
Fixpoint pick (ordered : list Candidate) (byKey : gmap ProxyKey (list Server)) : option (list Server) :=
  match ordered with
  | [] => Some []
  | c :: rest =>
      match default [] (byKey !! cKey c) with
      | [] => None
      | s :: servers => r ← pick rest (<[cKey c := servers]> byKey); Some (s :: r)
      end
  end.

Section Ordering.
Context {T : Type} (order : Time -> list Candidate -> T -> list Candidate * T).

Definition orderProxyCandidates (now : Time) (sup : option T) (authoritative : list Server)
  : list Server * option T :=
  match sup with
  | None => (authoritative, None)
  | Some s =>
      if (length authoritative <? 2)%nat then (authoritative, Some s)
      else
        let '(ordered, s') := order now (map supervisorCandidate authoritative) s in
        (default authoritative (pick ordered (group authoritative)), Some s')
  end.
End Ordering.

(** ** Classification *)

Inductive ErrKind :=
| KCanceled | KDeadlineExceeded | KConnectStatus (code : Z) | KSocksDestination | KDNS
| KUnknownAuthority | KHostname | KCertInvalid | KRecordHeader | KOp (op : string) | KOther.
#[global] Instance ErrKind_eq_dec : EqDecision ErrKind.
Proof. solve_decision. Defined.

(** An error and the errors it wraps. *)
Inductive GoError := mkErr (kind : ErrKind) (wrapped : list GoError).

(** The order in which [errors.Is] and [errors.As] visit an error. *)
Fixpoint visit (e : GoError) : list ErrKind :=
  match e with mkErr k ws => k :: flat_map visit ws end.

Definition has (p : ErrKind -> bool) (e : GoError) : bool := existsb p (visit e).
Definition is_kind (k k' : ErrKind) : bool := bool_decide (k = k').

Definition asConnectStatus (e : GoError) : option Z :=
  head (omap (fun k => match k with KConnectStatus code => Some code | _ => None end) (visit e)).
Definition asOp (e : GoError) : option string :=
  head (omap (fun k => match k with KOp op => Some op | _ => None end) (visit e)).

Definition classifyProxyTransportOutcome (ctxDone : bool) (candidate : Server) (err : GoError) : OutcomeKind :=
  if ctxDone then Supervisor.Sup.OutcomeClientCancelled
  else if has (is_kind KCanceled) err || has (is_kind KDeadlineExceeded) err
  then Supervisor.Sup.OutcomeClientCancelled
  else if bool_decide (candidate = Direct) then Supervisor.Sup.OutcomeDestinationFailure
  else match asConnectStatus err with
       | Some code => if code =? 407 then Supervisor.Sup.OutcomeAuthExhausted
                      else Supervisor.Sup.OutcomeDestinationFailure
       | None =>
           if has (is_kind KSocksDestination) err then Supervisor.Sup.OutcomeDestinationFailure
           else if has (is_kind KDNS) err then Supervisor.Sup.OutcomeProxyDNSFailure
           else if has (is_kind KUnknownAuthority) err then Supervisor.Sup.OutcomeProxyTLSFailure
           else if has (is_kind KHostname) err then Supervisor.Sup.OutcomeProxyTLSFailure
           else if has (is_kind KCertInvalid) err then Supervisor.Sup.OutcomeProxyTLSFailure
           else if has (is_kind KRecordHeader) err then Supervisor.Sup.OutcomeProxyTLSFailure
           else match asOp err with
                | Some op => if String.eqb op "dial" then Supervisor.Sup.OutcomeProxyDialFailure
                             else Supervisor.Sup.OutcomeProxyProtocolFailure
                | None => Supervisor.Sup.OutcomeProxyProtocolFailure
                end
       end.

(** ** The CONNECT fallback *)

(** What one attempt met: the connection it opened, if any, its error, and
    whether the request's context was done after it. *)
Record Attempt := mkAttempt { opened : bool; aErr : option GoError; ctxDone : bool }.

Inductive Effect :=
| Recorded (kind : OutcomeKind) (p : Server)
| Recovered (kind : OutcomeKind) (p : Server)
| ClosedUpstream (p : Server).

Definition ctxError : GoError := mkErr KCanceled [].
Definition errNoCandidates : GoError := mkErr KOther [].

(** The loop of [connectWithProxyFallbackDial] over the ordered candidates. *)
Fixpoint tryCandidates (lastErr : option GoError) (l : list (Server * Attempt))
  : list Effect * result GoError Server :=
  match l with
  | [] => ([], Err (default errNoCandidates lastErr))
  | (p, a) :: rest =>
      let err := match aErr a with
                 | Some e => Some e
                 | None => if ctxDone a then Some ctxError else None
                 end in
      match err with
      | None => ([Recorded Supervisor.Sup.OutcomeSuccess p], Ok p)
      | Some e =>
          let kind := classifyProxyTransportOutcome (ctxDone a) p e in
          let note := if decide (kind = Supervisor.Sup.OutcomeAuthExhausted)
                      then Recorded kind p else Recovered kind p in
          let closing := if opened a then [ClosedUpstream p] else [] in
          if ctxDone a then (note :: closing, Err ctxError)
          else let '(effs, r) := tryCandidates (Some e) rest in (note :: closing ++ effs, r)
      end
  end.

(** [attempt] says what dialling a candidate meets. *)
Definition connectWithProxyFallbackDial {T} (order : Time -> list Candidate -> T -> list Candidate * T)
    (now : Time) (sup : option T) (proxies : list Server) (attempt : Server -> Attempt)
  : list Effect * result GoError Server :=
  let ordered := (orderProxyCandidates order now sup proxies).1 in
  tryCandidates None (map (fun p => (p, attempt p)) ordered).

(** ** Lemmas: ordering *)

Definition keyIs (k : ProxyKey) (s : Server) : bool := String.eqb (proxyKeyForSupervisor s) k.

Lemma group_spec servers k : default [] (group servers !! k) = bfilter (keyIs k) servers.
Proof.
  unfold group. enough (forall m,
    default [] (fold_left (fun m s => let k := cKey (supervisorCandidate s) in
      <[k := default [] (m !! k) ++ [s]]> m) servers m !! k) =
    default [] (m !! k) ++ bfilter (keyIs k) servers) as H by (rewrite H, lookup_empty; done).
  induction servers as [|s servers IH]; intros m; simpl; [by rewrite app_nil_r|].
  rewrite IH. simpl. unfold keyIs at 2. destruct (String.eqb_spec (proxyKeyForSupervisor s) k) as [->|Hne].
  - rewrite lookup_insert_eq. simpl. by rewrite <- app_assoc.
  - by rewrite lookup_insert_ne.
Qed.

(** [m] holds the servers of [rem] by key. *)
Definition holds (m : gmap ProxyKey (list Server)) (rem : list Server) : Prop :=
  forall k, default [] (m !! k) = bfilter (keyIs k) rem.

Lemma bfilter_split_first {A} (p : A -> bool) l x r :
  bfilter p l = x :: r ->
  exists l1 l2, l = l1 ++ x :: l2 /\ bfilter p l1 = [] /\ bfilter p l2 = r /\ p x = true.
Proof.
  induction l as [|y l IH]; simpl; [done|]. destruct (p y) eqn:E.
  - intros [= -> <-]. by exists [], l.
  - intros (l1 & l2 & -> & H1 & H2 & H3)%IH. exists (y :: l1), l2. simpl. rewrite E. done.
Qed.

Lemma pick_permutes ordered m rem :
  holds m rem -> map cKey ordered ≡ₚ map proxyKeyForSupervisor rem ->
  exists r, pick ordered m = Some r /\ r ≡ₚ rem /\ map proxyKeyForSupervisor r = map cKey ordered.
Proof.
  revert m rem. induction ordered as [|c ordered IH]; intros m rem Hm Hp; simpl.
  { simpl in Hp. apply Permutation_nil_l in Hp. destruct rem; [|done]. by exists []. }
  rewrite Hm. destruct (bfilter (keyIs (cKey c)) rem) as [|s r] eqn:Ef.
  { exfalso. assert (cKey c ∈ map proxyKeyForSupervisor rem) as Hin by (rewrite <- Hp; left).
    apply list_elem_of_fmap in Hin as (s & Hk & Hs).
    assert (s ∈ bfilter (keyIs (cKey c)) rem) as Hbad.
    { apply elem_of_bfilter. split; [|done]. unfold keyIs. by rewrite <- Hk, String.eqb_refl. }
    rewrite Ef in Hbad. by apply elem_of_nil in Hbad. }
  apply bfilter_split_first in Ef as (l1 & l2 & -> & H1 & H2 & Hs).
  assert (proxyKeyForSupervisor s = cKey c) as Hk by (by apply String.eqb_eq).
  destruct (IH (<[cKey c := r]> m) (l1 ++ l2)) as (out & Hout & Hperm & Hkeys).
  - intros k. rewrite List.filter_app.
    destruct (decide (cKey c = k)) as [<-|Hne].
    + rewrite lookup_insert_eq, H1. simpl. done.
    + rewrite lookup_insert_ne by done. rewrite Hm, List.filter_app. simpl.
      assert (keyIs k s = false) as ->; [|done]. unfold keyIs. rewrite Hk. by apply String.eqb_neq.
  - rewrite map_app in Hp |- *. simpl in Hp. rewrite Hk in Hp.
    rewrite <- Permutation_middle in Hp. by apply Permutation_cons_inv in Hp.
  - rewrite Hout. simpl. exists (s :: out). split_and!; [done| |].
    + rewrite Hperm. apply Permutation_middle.
    + simpl. by rewrite Hkeys, Hk.
Qed.

Lemma key_of_direct s : Wproxy.Wp.valid_server s -> proxyKeyForSupervisor s <> "direct://DIRECT:80".
Proof.
  intros (Hv & _) Heq. unfold proxyKeyForSupervisor in Heq.
  destruct (decide (s = Direct)) as [->|_]; [done|]. unfold proxyScheme in Heq.
  unfold Wproxy.Wp.validProxyScheme in Hv. simpl in Hv.
  repeat (apply orb_true_iff in Hv as [Hv%String.eqb_eq|Hv]; [by rewrite Hv in Heq|]). done.
Qed.

Lemma runtime_order_members order `{CandidateOrdering order} now sup authoritative :
  (orderProxyCandidates order now sup authoritative).1 ≡ₚ authoritative /\
  (Forall (fun s => s = Direct \/ Wproxy.Wp.valid_server s) authoritative ->
   forall i, authoritative !! i = Some Direct ->
     (orderProxyCandidates order now sup authoritative).1 !! i = Some Direct).
Proof.
  unfold orderProxyCandidates. destruct sup as [s|]; [|done]. case_if; [done|].
  destruct (order now (map supervisorCandidate authoritative) s) as [ordered s'] eqn:Eo. simpl.
  assert (ordered ≡ₚ map supervisorCandidate authoritative) as Hp.
  { pose proof (ordering_permutes now (map supervisorCandidate authoritative) s) as Hp. by rewrite Eo in Hp. }
  destruct (pick_permutes ordered (group authoritative) authoritative) as (r & -> & Hr & Hk).
  { intros k. apply group_spec. }
  { rewrite Hp. by rewrite map_map. }
  simpl. split; [done|]. intros Hv i Hi.
  assert (ordered !! i = Some (supervisorCandidate Direct)) as Hoi.
  { pose proof (ordering_direct now (map supervisorCandidate authoritative) s i (supervisorCandidate Direct)) as Hd.
    rewrite Eo in Hd. apply Hd; [|done]. by rewrite list_lookup_fmap, Hi. }
  assert (map proxyKeyForSupervisor r !! i = Some "direct://DIRECT:80") as Hri.
  { by rewrite Hk, list_lookup_fmap, Hoi. }
  rewrite list_lookup_fmap in Hri. destruct (r !! i) as [x|] eqn:Ex; [|done]. injection Hri as Hx.
  assert (x ∈ authoritative) as Hin by (rewrite <- Hr; by eapply list_elem_of_lookup_2).
  eapply Forall_forall in Hin; [|exact Hv]. destruct Hin as [->|Hval]; [done|].
  by apply key_of_direct in Hval.
Qed.

(** ** Lemmas: classification *)

Lemma has_false_head e p : has p e = false -> forall k, k ∈ visit e -> p k = false.
Proof.
  unfold has. intros H k Hk. apply list_elem_of_In in Hk. destruct (p k) eqn:E; [|done].
  assert (existsb p (visit e) = true) by (apply existsb_exists; by exists k). congruence.
Qed.

Lemma head_omap_None {A B} (f : A -> option B) l : head (omap f l) = None <-> forall x, x ∈ l -> f x = None.
Proof.
  induction l as [|x l IH]; simpl.
  - split; [|done]. by intros _ x ?%elem_of_nil.
  - destruct (f x) eqn:E; simpl.
    + split; [done|]. intros H. specialize (H x). rewrite E in H. by discriminate H; left.
    + rewrite IH. split; [|intros H y Hy; apply H; by right].
      intros H y [->|Hy]%elem_of_cons; [done|by apply H].
Qed.

(** The errors that are not the proxy's fault. *)
Definition excused (k : ErrKind) : bool :=
  match k with
  | KCanceled | KDeadlineExceeded | KConnectStatus _ | KSocksDestination => true
  | _ => false
  end.

Lemma asConnectStatus_None e : asConnectStatus e = None <-> forall code, KConnectStatus code ∉ visit e.
Proof.
  unfold asConnectStatus. rewrite head_omap_None. split.
  - intros H code Hin. by specialize (H _ Hin).
  - intros H k Hin. destruct k; try done. by destruct (H _ Hin).
Qed.

Lemma has_kind e k : has (is_kind k) e = true <-> k ∈ visit e.
Proof.
  unfold has. rewrite existsb_exists. split.
  - intros (x & Hx & Hk). unfold is_kind in Hk. to_prop. subst. by apply list_elem_of_In.
  - intros Hin. exists k. split; [by apply list_elem_of_In|]. by apply bool_decide_eq_true_2.
Qed.

Lemma has_excused e :
  has excused e = false <->
  KCanceled ∉ visit e /\ KDeadlineExceeded ∉ visit e /\ KSocksDestination ∉ visit e /\
  asConnectStatus e = None.
Proof.
  rewrite asConnectStatus_None. split.
  - intros H. pose proof (has_false_head e excused H) as Hk.
    split_and!; [..|intros code]; intros Hin; by apply Hk in Hin.
  - intros (H1 & H2 & H3 & H4). unfold has. destruct (existsb excused (visit e)) eqn:E; [|done].
    apply existsb_exists in E as (k & Hin & Hk). apply list_elem_of_In in Hin.
    destruct k; try done. by destruct (H4 _ Hin).
Qed.

Lemma classify_penalizes ctx p e :
  PenalizesCandidate (classifyProxyTransportOutcome ctx p e) =
  negb ctx && negb (bool_decide (p = Direct)) && negb (has excused e).
Proof.
  destruct (has excused e) eqn:Ex.
  - rewrite andb_false_r. unfold classifyProxyTransportOutcome.
    destruct ctx; [done|].
    destruct (has (is_kind KCanceled) e) eqn:E1; [done|].
    destruct (has (is_kind KDeadlineExceeded) e) eqn:E2; [done|]. simpl.
    case_if; [done|]. destruct (asConnectStatus e) as [code|] eqn:E3; [by case_if|].
    destruct (has (is_kind KSocksDestination) e) eqn:E4; [done|]. exfalso.
    assert (has excused e = false); [|congruence]. apply has_excused.
    assert (forall k, has (is_kind k) e = false -> k ∉ visit e) as Hn.
    { intros k Hk Hin%has_kind. congruence. }
    split_and!; auto.
  - apply has_excused in Ex as (H1 & H2 & H3 & H4).
    assert (forall k, k ∉ visit e -> has (is_kind k) e = false) as Hn.
    { intros k Hk. destruct (has (is_kind k) e) eqn:E; [|done]. by apply has_kind in E. }
    unfold classifyProxyTransportOutcome. rewrite H4, !(Hn KCanceled), !(Hn KDeadlineExceeded), (Hn KSocksDestination) by done.
    destruct ctx; [done|]. simpl. case_if; [done|].
    do 5 (case_if; [done|]). destruct (asOp e) as [op|]; [by case_if|done].
Qed.

(** Outcomes that are no verdict on a candidate leave the supervisor as it is. *)
Lemma record_neutral now o s :
  PenalizesCandidate (Supervisor.Sup.oKind o) = false ->
  Supervisor.Sup.oKind o <> Supervisor.Sup.OutcomeSuccess ->
  Supervisor.Sup.oKind o <> Supervisor.Sup.OutcomeInternalFailure ->
  Record_ now o s = s.
Proof.
  intros H1 H2 H3. unfold Record_, Supervisor.Sup.record. case_if; [done|].
  rewrite decide_False by done. rewrite H1. by rewrite decide_False.
Qed.

Lemma classify_kinds ctx p e :
  classifyProxyTransportOutcome ctx p e <> Supervisor.Sup.OutcomeSuccess /\
  classifyProxyTransportOutcome ctx p e <> Supervisor.Sup.OutcomeInternalFailure.
Proof.
  unfold classifyProxyTransportOutcome.
  repeat (case_if; [done|]). destruct (asConnectStatus e); [by case_if|].
  repeat (case_if; [done|]). destruct (asOp e); [by case_if|done].
Qed.

(** ** Lemmas: the fallback loop *)

Definition clean (a : Attempt) : Prop := aErr a = None /\ ctxDone a = false.
#[global] Instance clean_dec a : Decision (clean a).
Proof. unfold clean. destruct (aErr a); [right; naive_solver|]. destruct (ctxDone a); [right; naive_solver|by left]. Defined.

Definition noted (e : Effect) : option Server :=
  match e with Recorded _ p | Recovered _ p => Some p | ClosedUpstream _ => None end.

(** The candidates tried, and what was done about each of them. *)
Record tried_ok (attempt : Server -> Attempt) (ordered tried : list Server) (effs : list Effect)
    (r : result GoError Server) : Prop := mkTried {
  tr_prefix : exists rest, ordered = tried ++ rest /\
    (match r with
     | Ok p => last tried = Some p /\ clean (attempt p)
     | Err _ => rest = [] \/ exists q, last tried = Some q /\ ctxDone (attempt q) = true
     end);
  tr_failed : forall q, q ∈ tried -> clean (attempt q) -> r = Ok q;
  tr_noted : omap noted effs = tried;
  tr_closed : forall q, ClosedUpstream q ∈ effs <->
    q ∈ tried /\ opened (attempt q) = true /\ ~ clean (attempt q) }.

Lemma tryCandidates_spec attempt ordered lastErr effs r :
  tryCandidates lastErr (map (fun p => (p, attempt p)) ordered) = (effs, r) ->
  exists tried, tried_ok attempt ordered tried effs r.
Proof.
  revert lastErr effs r. induction ordered as [|p ordered IH]; intros lastErr effs r; cbn [map tryCandidates].
  { intros [= <- <-]. exists []. split.
    - exists []. by split; [|left].
    - by intros q ?%elem_of_nil.
    - done.
    - intros q. split; [by intros ?%elem_of_nil|by intros (?%elem_of_nil & _)]. }
  destruct (decide (clean (attempt p))) as [Hc|Hc].
  { destruct Hc as [He Hd]. rewrite He, Hd. intros [= <- <-]. exists [p]. split.
    - exists ordered. done.
    - by intros q ->%list_elem_of_singleton _.
    - done.
    - intros q. rewrite list_elem_of_singleton. split; [done|]. by intros (->%list_elem_of_singleton & _ & []). }
  assert (exists e, match aErr (attempt p) with Some e => Some e
            | None => if ctxDone (attempt p) then Some ctxError else None end = Some e) as [e ->].
  { unfold clean in Hc. destruct (aErr (attempt p)); [by eexists|].
    destruct (ctxDone (attempt p)); [by eexists|]. by destruct Hc. }
  set (note := if decide _ then Recorded _ p else Recovered _ p).
  set (closing := if opened (attempt p) then [ClosedUpstream p] else []).
  assert (noted note = Some p) as Hnote by (unfold note; by case_decide).
  assert (forall l, omap noted (note :: l) = p :: omap noted l) as Hcons
    by (intros l; cbn [omap list_omap]; by rewrite Hnote).
  assert (omap noted closing = []) as Hcl by (unfold closing; by destruct (opened _)).
  assert (forall q, ClosedUpstream q ∈ note :: closing <-> q = p /\ opened (attempt p) = true) as Hin.
  { intros q. rewrite elem_of_cons. unfold note, closing.
    destruct (opened (attempt p)); rewrite ?list_elem_of_singleton, ?elem_of_nil; case_decide; naive_solver. }
  destruct (ctxDone (attempt p)) eqn:Ed.
  { intros [= <- <-]. exists [p]. split.
    - exists ordered. split; [done|]. right. by exists p.
    - by intros q ->%list_elem_of_singleton ?.
    - by rewrite Hcons, Hcl.
    - intros q. rewrite Hin, list_elem_of_singleton. naive_solver. }
  destruct (tryCandidates (Some e) _) as [effs' r'] eqn:Et. intros [= <- <-].
  apply IH in Et as (tried & [(rest & -> & Hr) Hf Hn Hcs]). exists (p :: tried). split.
  - exists rest. split; [done|]. destruct r' as [p'|e'].
    + destruct Hr as [Hl ?]. split; [|done]. by destruct tried.
    + destruct Hr as [?|(q & Hl & ?)]; [by left|]. right. exists q. split; [|done]. by destruct tried.
  - intros q [->|Hq]%elem_of_cons; [done|by apply Hf].
  - by rewrite Hcons, omap_app, Hcl, Hn.
  - intros q. change (note :: closing ++ effs') with ((note :: closing) ++ effs').
    rewrite elem_of_app, Hin, Hcs, elem_of_cons. naive_solver.
Qed.

(** ** Properties *)

(** the supervisor only reorders: the candidates a request tries are a
    permutation of the authoritative ones, for any ordering that keeps its
    contract, and DIRECT keeps its places among valid servers. *)
Theorem runtime_order_is_faithful order `{CandidateOrdering order} now sup authoritative :
  (orderProxyCandidates order now sup authoritative).1 ≡ₚ authoritative /\
  (Forall (fun s => s = Direct \/ Wproxy.Wp.valid_server s) authoritative ->
   forall i, authoritative !! i = Some Direct ->
     (orderProxyCandidates order now sup authoritative).1 !! i = Some Direct).
Proof. apply (runtime_order_members order now sup authoritative). Qed.

(** only the proxy's own faults count against a candidate: a failed attempt
    is held against the candidate exactly when the request was still wanted, the
    candidate is a proxy, and the error is neither a refusal by the destination
    nor an authentication failure; otherwise the supervisor is left unchanged. *)
Theorem blame_is_exact now ctx p e s :
  let kind := classifyProxyTransportOutcome ctx p e in
  (PenalizesCandidate kind = true <-> ctx = false /\ p <> Direct /\ has excused e = false) /\
  (PenalizesCandidate kind = false -> Record_ now (runtimeOutcome kind p) s = s).
Proof.
  intros kind. split.
  - unfold kind. rewrite classify_penalizes, !andb_true_iff, !negb_true_iff, bool_decide_eq_false. tauto.
  - intros Hk. destruct (classify_kinds ctx p e). by apply record_neutral.
Qed.

(** the CONNECT fallback uses the first candidate that works: candidates are
    tried in order until one connects or the request is cancelled, each attempt
    is reported once, and of the connections opened exactly the failed ones are
    closed. *)
Theorem fallback_uses_first_working order `{CandidateOrdering order} now sup proxies attempt effs r :
  connectWithProxyFallbackDial order now sup proxies attempt = (effs, r) ->
  exists ordered tried, ordered ≡ₚ proxies /\ tried_ok attempt ordered tried effs r /\
    forall p, r = Ok p -> p ∈ proxies.
Proof.
  unfold connectWithProxyFallbackDial. intros (tried & Ht)%tryCandidates_spec.
  pose proof (proj1 (runtime_order_members order now sup proxies)) as Hp.
  exists (orderProxyCandidates order now sup proxies).1, tried. split_and!; [done|done|].
  intros p ->. destruct Ht as [(rest & Heq & Hl & _) _ _ _]. rewrite <- Hp, Heq.
  apply elem_of_app. left. by apply last_Some_elem_of.
Qed.

(** ** Witnesses *)

Definition wit_p : Server := mkServer "p1" 80 "http".
Definition wit_q : Server := mkServer "p2" 80 "http".
Definition wit_sup : Supervisor.Sup.t :=
  Record_ 100 (runtimeOutcome Supervisor.Sup.OutcomeProxyDialFailure wit_p)
    (Record_ 90 (runtimeOutcome Supervisor.Sup.OutcomeProxyDialFailure wit_p)
      (Supervisor.Sup.New (Supervisor.Sup.mkOwners true true true true))).

Lemma runtime_order_is_faithful_witness :
  (orderProxyCandidates Supervisor.Sup.Order 200 (Some wit_sup) [wit_p; Direct; wit_q]).1
    = [wit_q; Direct; wit_p] /\
  (orderProxyCandidates Supervisor.Sup.Order 200 (Some wit_sup) [wit_p; Direct; wit_q]).1
    ≡ₚ [wit_p; Direct; wit_q].
Proof.
  split; [by vm_compute|].
  exact (proj1 (runtime_order_is_faithful Supervisor.Sup.Order 200 (Some wit_sup) [wit_p; Direct; wit_q])).
Defined.

Definition wit_dial : GoError := mkErr (KOp "dial") [mkErr KOther []].

Lemma blame_is_exact_witness :
  PenalizesCandidate (classifyProxyTransportOutcome false wit_p wit_dial) = true /\
  Record_ 5 (runtimeOutcome (classifyProxyTransportOutcome true wit_p wit_dial) wit_p) wit_sup = wit_sup.
Proof.
  split.
  - apply (blame_is_exact 5 false wit_p wit_dial wit_sup). split_and!; [done|done|reflexivity].
  - apply (blame_is_exact 5 true wit_p wit_dial wit_sup). reflexivity.
Defined.

Definition wit_attempt (p : Server) : Attempt :=
  if decide (p = wit_q) then mkAttempt true None false else mkAttempt true (Some wit_dial) false.

Lemma fallback_uses_first_working_witness :
  let run := connectWithProxyFallbackDial Supervisor.Sup.Order 200 None [wit_p; wit_q; Direct] wit_attempt in
  run.2 = Ok wit_q /\ wit_q ∈ [wit_p; wit_q; Direct].
Proof.
  intros run. split; [by vm_compute|].
  destruct (fallback_uses_first_working Supervisor.Sup.Order 200 None [wit_p; wit_q; Direct] wit_attempt
    run.1 run.2 ltac:(by vm_compute)) as (ordered & tried & _ & _ & Hin).
  apply Hin. by vm_compute.
Defined.

End Prt.
