(* ===== verification/Socks.v ===== *)
(** * Socks: the SOCKS4a and SOCKS5 clients of [internal/proxy/transport.go]

    The dialogue of a dialled connection: the bytes written, the bytes consumed
    of what the proxy sends, and the outcome.  A byte is a [Z]; [stream] is what
    the proxy sends, [writes] how many writes succeed, and [ctxDone] whether the
    request was cancelled by the time the dialogue ended.  A failed dialogue
    closes the connection. *)

From S2P Require Export Prelude GoStrings NetAddr Utf8.

Module Socks.

Inductive SErr :=
| SWrite | SRead | SNoAuthRejected | STarget | SPort (port : Z) | SHostTooLong
| SDestination (version code : Z) | SAddressType (t : Z) | SCanceled.

(** [binary.BigEndian.AppendUint16] of a [uint16]. *)
Definition be16 (v : Z) : bytes := [v / 256; v mod 256].
(** The [n] low bytes of an address, most significant first. *)
Definition addrBytes (n : nat) (ip : Z) : bytes :=
  map (fun i => Z.shiftr ip (8 * Z.of_nat i) mod 256) (rev (seq 0 n)).

Definition socksPort (port : Z) : result SErr Z :=
  if (port <? 0) || (65535 <? port) then Err (SPort port) else Ok port.

Definition socksHostLen (host : string) : result SErr Z :=
  if 255 <? slen host then Err SHostTooLong else Ok (slen host).

(** [io.ReadFull] of [n] bytes: what was read and what is left. *)
Definition ReadFull (n : nat) (stream : bytes) : result SErr (bytes * bytes) :=
  if (length stream <? n)%nat then Err SRead else Ok (take n stream, drop n stream).

(** The target, as both clients read it. *)
Definition socksTarget (target : string) : result SErr (string * Z) :=
  match SplitHostPort target with
  | None => Err STarget
  | Some (host, portText) =>
      match Atoi portText with
      | Err _ => Err STarget
      | Ok port => port16 ← socksPort port; Ok (host, port16)
      end
  end.

Definition socks5Request (host : string) (port16 : Z) : result SErr bytes :=
  addr ← (match ParseIP host with
          | Some ip => Ok (match to_v4 ip with
                           | Some v => 1 :: addrBytes 4 v
                           | None => 4 :: addrBytes 16 ip
                           end)
          | None =>
              if 255 <? slen host then Err SHostTooLong
              else hostLen ← socksHostLen host; Ok (3 :: hostLen :: str_bytes host)
          end);
  Ok ([5; 1; 0] ++ addr ++ be16 port16).

Definition socks4Request (host : string) (port16 : Z) : bytes :=
  [4; 1] ++ be16 port16 ++
  match ParseIP host ≫= to_v4 with
  | Some v => addrBytes 4 v ++ [0]
  | None => [0; 0; 0; 1; 0] ++ str_bytes host ++ [0]
  end.

(** The reply to the request: what follows it on the connection. *)
Definition socks5Reply (stream : bytes) : result SErr bytes :=
  '(header, stream) ← ReadFull 4 stream;
  match header with
  | [h0; h1; _; h3] =>
      if negb (h0 =? 5) || negb (h1 =? 0) then Err (SDestination 5 h1)
      else
        '(skip, stream) ←
          (if h3 =? 1 then Ok (4, stream)
           else if h3 =? 3 then
             '(lenb, stream) ← ReadFull 1 stream; Ok (default 0 (head lenb), stream)
           else if h3 =? 4 then Ok (16, stream)
           else Err (SAddressType h3));
        '(_, stream) ← ReadFull (Z.to_nat skip + 2) stream;
        Ok stream
  | _ => Err SRead
  end.

(** A dialogue ends with the bytes written and the rest of the stream. *)
Definition finish (ctxDone : bool) (r : result SErr bytes) : result SErr bytes :=
  if ctxDone then Err SCanceled else r.

Definition dialSOCKS5 (ctxDone : bool) (writes : nat) (target : string) (stream : bytes)
  : list bytes * result SErr bytes :=
  let greeting := [5; 1; 0] in
  if (writes =? 0)%nat then ([], finish ctxDone (Err SWrite))
  else
    match ReadFull 2 stream with
    | Err e => ([greeting], finish ctxDone (Err e))
    | Ok (reply, stream) =>
        if negb (bool_decide (reply = [5; 0])) then ([greeting], finish ctxDone (Err SNoAuthRejected))
        else
          match ('(host, port16) ← socksTarget target; socks5Request host port16) with
          | Err e => ([greeting], finish ctxDone (Err e))
          | Ok req =>
              if (writes =? 1)%nat then ([greeting], finish ctxDone (Err SWrite))
              else ([greeting; req], finish ctxDone (socks5Reply stream))
          end
    end.

Definition dialSOCKS4 (ctxDone : bool) (writes : nat) (target : string) (stream : bytes)
  : list bytes * result SErr bytes :=
  match socksTarget target with
  | Err e => ([], finish ctxDone (Err e))
  | Ok (host, port16) =>
      let req := socks4Request host port16 in
      if (writes =? 0)%nat then ([], finish ctxDone (Err SWrite))
      else ([req], finish ctxDone
                     ('(reply, stream) ← ReadFull 8 stream;
                      let code := default 0 (reply !! 1%nat) in
                      if negb (code =? 90) then Err (SDestination 4 code) else Ok stream))
  end.

Definition dialSOCKSProxyWithDial (scheme : string) :=
  let scheme := ToLower scheme in
  if String.eqb scheme "socks4" || String.eqb scheme "socks4a" then dialSOCKS4 else dialSOCKS5.

(** ** The proxy's side: RFC 1928 and the SOCKS4a convention *)

Inductive SocksAddr := AddrIP (ip : IP) | AddrName (name : bytes).

Definition from_bytes (bs : bytes) : Z := fold_left (fun acc b => acc * 256 + b) bs 0.

Definition decode5 (req : bytes) : option (SocksAddr * Z) :=
  match req with
  | 5 :: 1 :: 0 :: 1 :: rest =>
      if (length rest =? 6)%nat
      then Some (AddrIP (of_v4 (from_bytes (take 4 rest))), from_bytes (drop 4 rest)) else None
  | 5 :: 1 :: 0 :: 4 :: rest =>
      if (length rest =? 18)%nat
      then Some (AddrIP (from_bytes (take 16 rest)), from_bytes (drop 16 rest)) else None
  | 5 :: 1 :: 0 :: 3 :: n :: rest =>
      let n := Z.to_nat n in
      if (length rest =? n + 2)%nat
      then Some (AddrName (take n rest), from_bytes (drop n rest)) else None
  | _ => None
  end.

(** The bytes before the first NUL, when the NUL is the last byte. *)
Fixpoint untilNul (bs : bytes) : option bytes :=
  match bs with
  | [] => None
  | b :: rest => if b =? 0 then (match rest with [] => Some [] | _ => None end)
                 else r ← untilNul rest; Some (b :: r)
  end.

Definition decode4 (req : bytes) : option (SocksAddr * Z) :=
  match req with
  | 4 :: 1 :: p1 :: p0 :: a :: b :: c :: d :: rest =>
      user ← (if (a =? 0) && (b =? 0) && (c =? 0) && negb (d =? 0)
              then match rest with 0 :: name => n ← untilNul name; Some (AddrName n) | _ => None end
              else match rest with [0] => Some (AddrIP (of_v4 (from_bytes [a; b; c; d]))) | _ => None end);
      Some (user, from_bytes [p1; p0])
  | _ => None
  end.

Example socks5a :
  socks5Request "example.org" 443 = Ok ([5; 1; 0; 3; 11] ++ str_bytes "example.org" ++ [1; 187]).
Proof. reflexivity. Qed.
Example socks5b : socks5Request "::1" 80 = Ok [5; 1; 0; 4; 0; 0; 0; 0; 0; 0; 0; 0; 0; 0; 0; 0; 0; 0; 0; 1; 0; 80].
Proof. reflexivity. Qed.
Example socks4a : socks4Request "10.1.2.3" 80 = [4; 1; 0; 80; 10; 1; 2; 3; 0].
Proof. reflexivity. Qed.

(** ** Lemmas: big-endian bytes *)

Lemma from_bytes_acc bs acc :
  fold_left (fun acc b => acc * 256 + b) bs acc = acc * 256 ^ Z.of_nat (length bs) + from_bytes bs.
Proof.
  unfold from_bytes. revert acc. induction bs as [|b bs IH]; intros acc; cbn [fold_left length]; [lia|].
  rewrite IH, (IH (0 * 256 + b)). rewrite Nat2Z.inj_succ, Z.pow_succ_r by lia. lia.
Qed.

Lemma from_bytes_cons b bs : from_bytes (b :: bs) = b * 256 ^ Z.of_nat (length bs) + from_bytes bs.
Proof. unfold from_bytes at 1. cbn [fold_left]. rewrite from_bytes_acc. lia. Qed.

Lemma addrBytes_S n ip :
  addrBytes (S n) ip = (Z.shiftr ip (8 * Z.of_nat n) mod 256) :: addrBytes n ip.
Proof. unfold addrBytes. rewrite seq_S, rev_app_distr. done. Qed.

Lemma addrBytes_length n ip : length (addrBytes n ip) = n.
Proof. unfold addrBytes. by rewrite length_map, length_rev, length_seq. Qed.

Lemma from_addrBytes n ip : from_bytes (addrBytes n ip) = ip mod 256 ^ Z.of_nat n.
Proof.
  induction n as [|n IH]; [by rewrite Z.mod_1_r|].
  rewrite addrBytes_S, from_bytes_cons, IH, addrBytes_length.
  rewrite Z.shiftr_div_pow2 by lia. rewrite Z.pow_mul_r by lia. change (2 ^ 8) with 256.
  rewrite Nat2Z.inj_succ, Z.pow_succ_r, (Z.mul_comm 256) by lia.
  rewrite (Z.rem_mul_r ip) by lia. lia.
Qed.

Lemma from_be16 v : 0 <= v < 65536 -> from_bytes (be16 v) = v.
Proof.
  intros Hv. unfold from_bytes, be16. cbn [fold_left].
  pose proof (Z.div_mod v 256 ltac:(lia)). lia.
Qed.

Lemma socksTarget_port target host port : socksTarget target = Ok (host, port) -> 0 <= port < 65536.
Proof.
  unfold socksTarget. destruct (SplitHostPort target) as [[h p]|]; [|done].
  destruct (Atoi p) as [v|]; [|done]. unfold socksPort. case_if; [done|].
  intros [= _ <-]. to_prop. lia.
Qed.

Lemma Ok_inv {E A} (a b : A) : @Ok E A a = Ok b -> a = b.
Proof. congruence. Qed.

(** What a request for [host] asks for. *)
Definition addrOf (host : string) : SocksAddr :=
  match ParseIP host with Some ip => AddrIP ip | None => AddrName (str_bytes host) end.

Lemma socks5_decodes host port req :
  0 <= port < 65536 -> socks5Request host port = Ok req -> decode5 req = Some (addrOf host, port).
Proof.
  intros Hp. unfold socks5Request, addrOf. destruct (ParseIP host) as [ip|] eqn:Eip.
  - apply ParseIP_range in Eip. cbn [mbind result_bind]. intros <-%Ok_inv.
    assert (forall n v, take n (addrBytes n v ++ be16 port) = addrBytes n v /\
      drop n (addrBytes n v ++ be16 port) = be16 port /\
      length (addrBytes n v ++ be16 port) = (n + 2)%nat) as Hn.
    { intros n v. rewrite take_app_length', drop_app_length' by by rewrite addrBytes_length.
      by rewrite length_app, addrBytes_length. }
    destruct (to_v4 ip) as [v|] eqn:Ev.
    + apply to_v4_range in Ev as [Hv ->]; [|exact Eip]. destruct (Hn 4%nat v) as (H1 & H2 & H3).
      cbn [app]. unfold decode5. rewrite H1, H2, H3, from_addrBytes, (from_be16 port Hp).
      rewrite Z.mod_small by exact Hv. reflexivity.
    + destruct (Hn 16%nat ip) as (H1 & H2 & H3).
      cbn [app]. unfold decode5. rewrite H1, H2, H3, from_addrBytes, (from_be16 port Hp).
      rewrite Z.mod_small by exact Eip. reflexivity.
  - destruct (Z.ltb_spec 255 (slen host)) as [|Hlen]; [done|]. unfold socksHostLen.
    replace (255 <? slen host) with false by lia. cbn [mbind result_bind]. intros <-%Ok_inv.
    cbn [app]. unfold decode5. rewrite <- str_bytes_length, Nat2Z.id.
    rewrite length_app, Nat.eqb_refl, take_app_length, drop_app_length, from_be16 by done. done.
Qed.

Lemma untilNul_app bs : Forall (fun b => b <> 0) bs -> untilNul (bs ++ [0]) = Some bs.
Proof.
  induction 1 as [|b bs Hb _ IH]; [done|]. cbn [app untilNul].
  apply Z.eqb_neq in Hb as ->. by rewrite IH.
Qed.

(** The IPv4 addresses the SOCKS4a convention reserves: 0.0.0.x, [x] not zero. *)
Definition reserved4a (v : Z) : bool := (0 <? v) && (v <? 256).

Definition addrOf4 (host : string) : SocksAddr :=
  match ParseIP host ≫= to_v4 with
  | Some v => AddrIP (of_v4 v)
  | None => AddrName (str_bytes host)
  end.

Lemma socks4_decodes host port :
  0 <= port < 65536 -> no_char "000" host = true ->
  (forall v, ParseIP host ≫= to_v4 = Some v -> reserved4a v = false) ->
  decode4 (socks4Request host port) = Some (addrOf4 host, port).
Proof.
  intros Hp Hnul Hres. pose proof (from_be16 port Hp) as Hport.
  unfold socks4Request, addrOf4. destruct (ParseIP host ≫= to_v4) as [v|] eqn:Ev.
  - specialize (Hres v eq_refl). assert (0 <= v < 2 ^ 32) as Hv.
    { destruct (ParseIP host) as [ip|] eqn:Eip; [|done]. apply ParseIP_range in Eip.
      by apply to_v4_range in Ev as [? _]. }
    pose proof (from_addrBytes 4 v) as Hfrom. rewrite Z.mod_small in Hfrom by done.
    unfold be16 in *. rewrite !addrBytes_S in *. change (addrBytes 0 v) with (@nil Z) in *.
    cbn [app] in *. revert Hfrom.
    generalize (Z.shiftr v (8 * Z.of_nat 3) mod 256), (Z.shiftr v (8 * Z.of_nat 2) mod 256),
      (Z.shiftr v (8 * Z.of_nat 1) mod 256), (Z.shiftr v (8 * Z.of_nat 0) mod 256),
      (Z.mod_pos_bound (Z.shiftr v (8 * Z.of_nat 0)) 256 ltac:(lia)).
    intros a b c d Hd Hfrom. unfold decode4. cbn [mbind option_bind].
    assert ((a =? 0) && (b =? 0) && (c =? 0) && negb (d =? 0) = false) as ->.
    { destruct (Z.eqb_spec a 0) as [->|]; [|done]. destruct (Z.eqb_spec b 0) as [->|]; [|done].
      destruct (Z.eqb_spec c 0) as [->|]; [|done]. destruct (Z.eqb_spec d 0) as [->|Hne]; [done|].
      exfalso. unfold from_bytes in Hfrom. cbn in Hfrom.
      unfold reserved4a in Hres. revert Hd Hfrom. lia. }
    by rewrite Hfrom, Hport.
  - unfold be16 in *. cbn [app]. unfold decode4. cbn [mbind option_bind Z.eqb andb negb].
    rewrite untilNul_app; [by rewrite Hport|]. unfold str_bytes. apply Forall_map.
    unfold no_char in Hnul. revert Hnul. clear. induction host as [|c host IH]; [constructor|].
    simpl. intros [Hc Hh]%andb_true_iff. constructor; [|by apply IH].
    apply negb_true_iff, Ascii.eqb_neq in Hc. intros Ho. apply Hc.
    rewrite <- (ascii_N_embedding c). unfold ord in Ho. by rewrite (N2Z.inj _ 0 Ho).
Qed.

(** ** Lemmas: replies *)

Lemma ReadFull_Ok n stream a b :
  ReadFull n stream = Ok (a, b) <-> stream = a ++ b /\ length a = n.
Proof.
  unfold ReadFull. destruct (Nat.ltb_spec (length stream) n) as [Hlt|Hge]; split.
  - done.
  - intros [-> <-]. rewrite length_app in Hlt. lia.
  - intros [= <- <-]. rewrite take_drop, length_take. split; [done|lia].
  - intros [-> <-]. by rewrite take_app_length, drop_app_length.
Qed.

(** A SOCKS5 success reply. *)
Inductive reply5 : bytes -> Prop :=
| reply5_v4 rsv bound : length bound = 6%nat -> reply5 (5 :: 0 :: rsv :: 1 :: bound)
| reply5_name rsv n bound : length bound = (Z.to_nat n + 2)%nat -> reply5 (5 :: 0 :: rsv :: 3 :: n :: bound)
| reply5_v6 rsv bound : length bound = 18%nat -> reply5 (5 :: 0 :: rsv :: 4 :: bound).

Lemma socks5Reply_Ok stream rest :
  socks5Reply stream = Ok rest <-> exists reply, reply5 reply /\ stream = reply ++ rest.
Proof.
  unfold socks5Reply. split.
  - destruct (ReadFull 4 stream) as [[header s1]|] eqn:E1; [|done]. cbn [mbind result_bind].
    apply ReadFull_Ok in E1 as [-> Hl].
    destruct header as [|h0 [|h1 [|h2 [|h3 [|]]]]]; try done.
    destruct (Z.eqb_spec h0 5) as [->|]; [|done]. destruct (Z.eqb_spec h1 0) as [->|]; [|done]. cbn [negb orb].
    destruct (Z.eqb_spec h3 1) as [->|].
    { cbn [mbind result_bind]. destruct (ReadFull _ s1) as [[bound s2]|] eqn:E2; [|done].
      apply ReadFull_Ok in E2 as [-> Hb]. intros [= ->].
      eexists. split; [by apply (reply5_v4 h2 bound)|]. done. }
    destruct (Z.eqb_spec h3 3) as [->|].
    { destruct (ReadFull 1 s1) as [[lenb s2]|] eqn:E2; [|done]. cbn [mbind result_bind].
      apply ReadFull_Ok in E2 as [-> Hb]. destruct lenb as [|m [|]]; try done. cbn [head default].
      destruct (ReadFull _ s2) as [[bound s3]|] eqn:E3; [|done].
      apply ReadFull_Ok in E3 as [-> Hb']. intros [= ->].
      eexists. split; [by apply (reply5_name h2 m bound)|]. done. }
    destruct (Z.eqb_spec h3 4) as [->|]; [|done]. cbn [mbind result_bind].
    destruct (ReadFull _ s1) as [[bound s2]|] eqn:E2; [|done].
    apply ReadFull_Ok in E2 as [-> Hb]. intros [= ->].
    eexists. split; [by apply (reply5_v6 h2 bound)|]. done.
  - intros (reply & Hr & ->). destruct Hr as [rsv bound Hb|rsv n bound Hb|rsv bound Hb].
    + rewrite (proj2 (ReadFull_Ok 4 _ [5; 0; rsv; 1] (bound ++ rest))) by done. cbn.
      by rewrite (proj2 (ReadFull_Ok 6 _ bound rest)).
    + rewrite (proj2 (ReadFull_Ok 4 _ [5; 0; rsv; 3] (n :: bound ++ rest))) by done. cbn [mbind result_bind Z.eqb Pos.eqb negb orb].
      rewrite (proj2 (ReadFull_Ok 1 _ [n] (bound ++ rest))) by done. cbn [mbind result_bind head default].
      by rewrite (proj2 (ReadFull_Ok (Z.to_nat n + 2) _ bound rest)).
    + rewrite (proj2 (ReadFull_Ok 4 _ [5; 0; rsv; 4] (bound ++ rest))) by done. cbn.
      by rewrite (proj2 (ReadFull_Ok 18 _ bound rest)).
Qed.

(** ** Properties *)

(** a SOCKS request says what was asked: the bytes sent for a target, read
    by the rules of SOCKS5 or of SOCKS4a, give back its address or host name and
    its port; for SOCKS4a the host name must hold no NUL and an IPv4 literal must
    not be one of the addresses the convention reserves. *)
Theorem socks_request_decodes target host port :
  socksTarget target = Ok (host, port) ->
  (forall req, socks5Request host port = Ok req -> decode5 req = Some (addrOf host, port)) /\
  (no_char "000" host = true ->
   (forall v, ParseIP host ≫= to_v4 = Some v -> reserved4a v = false) ->
   decode4 (socks4Request host port) = Some (addrOf4 host, port)).
Proof.
  intros Ht%socksTarget_port. split.
  - intros req. by apply socks5_decodes.
  - by apply socks4_decodes.
Qed.

(** a dialogue eats no tunnel byte: a SOCKS5 dial succeeds exactly when the
    request was not cancelled, both messages were sent for a valid target, and
    the proxy accepted the method and sent a complete success reply; what it
    leaves is everything after that reply.  The same holds for SOCKS4 with its
    8-byte reply. *)
Theorem socks_dial_exact ctxDone writes target stream rest :
  ((dialSOCKS5 ctxDone writes target stream).2 = Ok rest <->
     ctxDone = false /\ (2 <= writes)%nat /\
     is_ok ('(host, port) ← socksTarget target; socks5Request host port) = true /\
     exists reply, reply5 reply /\ stream = [5; 0] ++ reply ++ rest) /\
  ((dialSOCKS4 ctxDone writes target stream).2 = Ok rest <->
     ctxDone = false /\ (1 <= writes)%nat /\ is_ok (socksTarget target) = true /\
     exists reply, length reply = 8%nat /\ reply !! 1%nat = Some 90 /\ stream = reply ++ rest).
Proof.
  split.
  - unfold dialSOCKS5, finish. destruct ctxDone.
    { split; [|by intros (? & _)]. case_if; [done|]. destruct (ReadFull 2 stream) as [[r s]|]; [|done].
      case_if; [done|]. destruct ('(host, port) ← socksTarget target; _); [by case_if|done]. }
    destruct (Nat.eqb_spec writes 0) as [->|]; [split; [done|intros (_ & ? & _); lia]|].
    destruct (ReadFull 2 stream) as [[r s]|] eqn:E.
    2: { split; [done|]. intros (_ & _ & _ & reply & _ & ->).
         by rewrite (proj2 (ReadFull_Ok 2 _ [5; 0] (reply ++ rest))) in E. }
    apply ReadFull_Ok in E as [-> Hl]. destruct (bool_decide (r = [5; 0])) eqn:Er; to_prop; cbn [negb].
    2: { split; [done|]. intros (_ & _ & _ & reply & _ & Heq).
         destruct r as [|? [|? [|]]]; try done. by injection Heq as -> -> _. }
    subst r. destruct ('(host, port) ← socksTarget target; _) as [req|e]; cbn [is_ok].
    2: { split; [done|]. by intros (_ & _ & ? & _). }
    destruct (Nat.eqb_spec writes 1) as [->|]; [split; [done|intros (_ & ? & _); lia]|].
    cbn [snd]. rewrite socks5Reply_Ok. split.
    + intros (reply & Hr & ->). split_and!; [done|lia|done|]. by exists reply.
    + intros (_ & _ & _ & reply & Hr & Heq). exists reply. split; [done|].
      by apply (inj ([5; 0] ++.)) in Heq.
  - unfold dialSOCKS4, finish. destruct (socksTarget target) as [[host port]|e]; cbn [is_ok].
    2: { destruct ctxDone; (split; [done|]; by intros (_ & _ & ? & _)). }
    destruct ctxDone; [case_if; (split; [done|]; by intros (? & _))|].
    destruct (Nat.eqb_spec writes 0) as [->|]; [split; [done|intros (_ & ? & _); lia]|]. cbn [snd].
    destruct (ReadFull 8 stream) as [[reply s]|] eqn:E; cbn [mbind result_bind].
    + apply ReadFull_Ok in E as [-> Hl]. destruct reply as [|r0 [|c reply]]; [done|done|].
      change (default 0 ((r0 :: c :: reply) !! 1%nat)) with c. destruct (Z.eqb_spec c 90) as [->|Hne]; cbn [negb]; split.
      * intros [= ->]. split_and!; [done|lia|done|]. by exists (r0 :: 90 :: reply).
      * intros (_ & _ & _ & reply' & Hl' & _ & Heq). apply app_inj_1 in Heq as [_ ->]; [done|lia].
      * done.
      * intros (_ & _ & _ & reply' & Hl' & Hc' & Heq). apply app_inj_1 in Heq as [<- _]; [|lia].
        by injection Hc' as ->.
    + split; [done|]. intros (_ & _ & _ & reply & Hl & _ & ->).
      by rewrite (proj2 (ReadFull_Ok 8 _ reply rest)) in E.
Qed.

(** ** Witnesses *)

Lemma socks_request_decodes_witness :
  socksTarget "example.org:443" = Ok ("example.org", 443) /\
  decode5 ([5; 1; 0; 3; 11] ++ str_bytes "example.org" ++ [1; 187]) =
    Some (AddrName (str_bytes "example.org"), 443) /\
  decode4 (socks4Request "example.org" 443) = Some (AddrName (str_bytes "example.org"), 443).
Proof.
  assert (socksTarget "example.org:443" = Ok ("example.org", 443)) as Ht by reflexivity.
  destruct (socks_request_decodes "example.org:443" "example.org" 443 Ht) as [H5 H4].
  split_and!; [exact Ht| |].
  - apply H5. reflexivity.
  - apply H4; [reflexivity|]. intros v Hv. by vm_compute in Hv.
Defined.

Example socks_dial1 :
  dialSOCKS5 false 5 "a.b:80" ([5; 0; 5; 0; 0; 1; 10; 0; 0; 1; 4; 56] ++ [72; 105]) =
  ([[5; 1; 0]; [5; 1; 0; 3; 3; 97; 46; 98; 0; 80]], Ok [72; 105]).
Proof. reflexivity. Qed.

End Socks.
