(* ===== verification/Access.v ===== *)
(** * Access: who may use the proxy ([internal/proxy/proxy.go],
    [internal/proxy/auth_client.go], [internal/proxy/diagnostic.go])

    The checks a configuration passes before a server exists, the client filter,
    the record of authenticated connections, and the decision [ServeHTTP] takes
    before a request is handled.  How a method verifies credentials, the local
    interface addresses and the clock are inputs. *)

From S2P Require Export Prelude GoStrings NetAddr.
From S2P Require Wproxy.
Import Wproxy.Wp(IPSet, emptySet, Contains, Server, Direct, Server_eq_dec, sHost, sPort).

Module Acc.

Record Config := mkConfig {
  Gateway : bool; Hostonly : bool; Allow : string; Listen : string; ClientAuth : string;
  ClientUsername : string; ClientPassword : string }.

Definition allowAllIPv4 : string := "*.*.*.*".
Definition localhostName : string := "localhost".

Inductive CfgErr :=
| EClientAuth | EAllow (e : Wproxy.Wp.WErr) | EUsername | EPassword | EPlaintextBasic | EOpenGateway.

(** ** Client authentication methods *)

Fixpoint methodsOf (raws : list string) (methods : list string) : list string :=
  match raws with
  | [] => methods
  | raw :: raws' =>
      let method := ToUpper (TrimSpace raw) in
      if String.eqb method "" then methodsOf raws' methods
      else if String.eqb method "NONE" then []
      else if String.eqb method "ANY" then ["NEGOTIATE"; "NTLM"; "DIGEST"; "BASIC"]
      else if String.eqb method "ANYSAFE" then ["NEGOTIATE"; "NTLM"; "DIGEST"]
      else methodsOf raws' (methods ++ [method])
  end.

Definition clientAuthMethods (auth : string) : list string :=
  let auth := TrimSpace auth in
  if String.eqb auth "" then [] else methodsOf (Split auth ",") [].

Definition isSupportedClientAuth (auth : string) : bool :=
  existsb (String.eqb auth) ["NEGOTIATE"; "NTLM"; "DIGEST"; "BASIC"].

Definition validateClientAuth (auth : string) : option CfgErr :=
  if forallb isSupportedClientAuth (clientAuthMethods auth) then None else Some EClientAuth.

(** ** Validation *)

Definition validateAllow (allow : string) : option CfgErr :=
  if String.eqb (TrimSpace allow) "" then None
  else match Wproxy.Wp.ParseNoProxy allow true with Ok _ => None | Err e => Some (EAllow e) end.

Definition validateDownstreamCredentials (cfg : Config) : option CfgErr :=
  match clientAuthMethods (ClientAuth cfg) with
  | [] => None
  | _ =>
      if String.eqb (TrimSpace (ClientUsername cfg)) "" then Some EUsername
      else if String.eqb (ClientPassword cfg) "" then Some EPassword else None
  end.

Definition containsClientAuthMethod (methods : list string) (want : string) : bool :=
  existsb (fun method => String.eqb method want) methods.

Definition hasRestrictiveAllow (allow : string) : bool :=
  let allow := TrimSpace allow in
  if String.eqb allow "" then false
  else forallb (fun raw =>
         let token := ToLower (TrimSpace raw) in
         negb (existsb (String.eqb token) [""; "*"; allowAllIPv4; "0.0.0.0/0"; "::/0"]))
       (Split allow ",").

Definition isRemotePlaintextExposure (cfg : Config) : bool :=
  if Gateway cfg then true
  else if Hostonly cfg then false
  else existsb (fun raw =>
         let host := Trim (TrimSpace raw) "[]" in
         if String.eqb host "" then false
         else if EqualFold host localhostName then false
         else match ParseIP host with Some ip => negb (IsLoopback ip) | None => true end)
       (Split (Listen cfg) ",").

Definition validateGatewaySecurity (cfg : Config) : option CfgErr :=
  let methods := clientAuthMethods (ClientAuth cfg) in
  if isRemotePlaintextExposure cfg && containsClientAuthMethod methods "BASIC" then Some EPlaintextBasic
  else if negb (Gateway cfg) then None
  else if Hostonly cfg || hasRestrictiveAllow (Allow cfg) || (0 <? length methods)%nat then None
  else Some EOpenGateway.

Definition orElse (a b : option CfgErr) : option CfgErr := match a with Some e => Some e | None => b end.

(** ** The server's access state *)

Record Access := mkAccess {
  cfg : Config; clientAuthList : list string; allowSet : IPSet;
  authed : gmap string bool; hostIPs : option (list IP * Time) }.

(** The access part of [New]. *)
Definition New (c : Config) : result CfgErr Access :=
  match orElse (validateClientAuth (ClientAuth c))
          (orElse (validateAllow (Allow c))
            (orElse (validateDownstreamCredentials c) (validateGatewaySecurity c))) with
  | Some e => Err e
  | None =>
      let set :=
        if negb (String.eqb (Allow c) "") then
          match Wproxy.Wp.ParseNoProxy (Allow c) true with Ok (s, _) => s | Err _ => emptySet end
        else emptySet in
      Ok (mkAccess c (clientAuthMethods (ClientAuth c)) set ∅ None)
  end.

Definition listenHosts (c : Config) : list string :=
  if Gateway c || Hostonly c then ["0.0.0.0"]
  else
    let step acc raw :=
      let host := TrimSpace raw in
      if String.eqb host "" || existsb (String.eqb host) acc then acc else acc ++ [host] in
    match fold_left step (Split (Listen c) ",") [] with [] => ["127.0.0.1"] | hosts => hosts end.

Definition ListenAddrs (c : Config) (port : Z) : list string :=
  map (fun host => JoinHostPort host (Itoa port)) (listenHosts c).

Definition isLocalDoHProxyLoop (candidate : Server) (listenerPort : Z) : bool :=
  if bool_decide (candidate = Direct) || negb (sPort candidate =? listenerPort) then false
  else
    let host := Trim (ToLower (sHost candidate)) "[]" in
    if String.eqb host localhostName || String.eqb host (localhostName +:+ ".") then true
    else match ParseIP host with Some ip => IsLoopback ip || IsUnspecified ip | None => false end.

(** ** The client filter *)

Definition remoteHost (remoteAddr : string) : string :=
  match SplitHostPort remoteAddr with Some (host, _) => host | None => remoteAddr end.

Definition isLoopbackRemote (remoteAddr : string) : bool :=
  match ParseIP (Trim (remoteHost remoteAddr) "[]") with Some ip => IsLoopback ip | None => false end.

(** [fresh] is what [config.GetHostIPs] answers. *)
Definition cachedHostIPs (now : Time) (fresh : list IP) (a : Access) : list IP * Access :=
  let refresh := (fresh, mkAccess (cfg a) (clientAuthList a) (allowSet a) (authed a)
                           (Some (fresh, addT now (30 * Second)))) in
  match hostIPs a with
  | Some (ips, expires) => if before now expires then (ips, a) else refresh
  | None => refresh
  end.

Definition isClientAllowed (now : Time) (fresh : list IP) (remoteAddr : string) (a : Access)
  : bool * Access :=
  match ParseIP (remoteHost remoteAddr) with
  | None => (false, a)
  | Some ip =>
      let c := cfg a in
      let byHost :=
        if Hostonly c then
          let '(ips, a) := cachedHostIPs now fresh a in (existsb (Z.eqb ip) ips, a)
        else (true, a) in
      if negb (String.eqb (Allow c) "") && negb (String.eqb (Allow c) allowAllIPv4) &&
         negb (String.eqb (Allow c) "0.0.0.0/0")
      then
        if Contains (allowSet a) ip then (true, a)
        else if negb (Hostonly c) || Gateway c then (false, a)
        else byHost
      else byHost
  end.

(** ** Requests *)

(** [verifies method] is the outcome of the method's credential check. *)
Record Request := mkRequest {
  RemoteAddr : string; doctor : bool; quit : bool; connect : bool; hasProxyAuth : bool;
  verifies : string -> bool; rNow : Time; rFresh : list IP }.

Definition checkClientAuth (r : Request) (a : Access) : bool :=
  existsb (fun auth => isSupportedClientAuth auth && verifies r auth) (clientAuthList a).

Definition set_authed (a : Access) (m : gmap string bool) : Access :=
  mkAccess (cfg a) (clientAuthList a) (allowSet a) m (hostIPs a).

Definition isClientAuthed (remoteAddr : string) (a : Access) : bool :=
  default false (authed a !! remoteAddr).
Definition setClientAuthed (remoteAddr : string) (a : Access) : Access :=
  set_authed a (<[remoteAddr := true]> (authed a)).
Definition clearClientAuthed (remoteAddr : string) (a : Access) : Access :=
  match authed a !! remoteAddr with
  | Some _ => set_authed a (<[remoteAddr := false]> (authed a))
  | None => a
  end.
Definition clearClientState (remoteAddr : string) (a : Access) : Access :=
  set_authed a (delete remoteAddr (authed a)).

Definition authenticateClient (r : Request) (a : Access) : bool * Access :=
  if negb (hasProxyAuth r) && isClientAuthed (RemoteAddr r) a then (true, a)
  else if checkClientAuth r a then (true, setClientAuthed (RemoteAddr r) a)
  else (false, a).

Definition clientAuthEnabled (a : Access) : bool := (0 <? length (clientAuthList a))%nat.

Inductive Decision :=
| Forbidden | DoctorResponse | QuitAccepted | AuthRequired | HandleConnect | HandleHTTP.
#[global] Instance Decision_eq_dec : EqDecision Decision.
Proof. solve_decision. Defined.

Definition ServeHTTP (r : Request) (a : Access) : Decision * Access :=
  let local (ok : Decision) :=
    if negb (isLoopbackRemote (RemoteAddr r)) then (Forbidden, a)
    else let '(allowed, a) := isClientAllowed (rNow r) (rFresh r) (RemoteAddr r) a in
         (if allowed then ok else Forbidden, a) in
  if doctor r then local DoctorResponse
  else if quit r then local QuitAccepted
  else
    let '(allowed, a) := isClientAllowed (rNow r) (rFresh r) (RemoteAddr r) a in
    if negb allowed then (Forbidden, a)
    else
      let handled := if connect r then HandleConnect else HandleHTTP in
      if clientAuthEnabled a then
        let '(ok, a) := authenticateClient r a in
        if ok then (handled, a) else (AuthRequired, clearClientAuthed (RemoteAddr r) a)
      else (handled, a).

(** A connection's end, or its hijacking, clears its client state. *)
Inductive Event := EvRequest (r : Request) | EvConnEnd (remoteAddr : string).

Definition step (a : Access) (e : Event) : Access :=
  match e with
  | EvRequest r => (ServeHTTP r a).2
  | EvConnEnd remote => clearClientState remote a
  end.

(** ** Lemmas *)

Definition served (d : Decision) : Prop := d = HandleConnect \/ d = HandleHTTP.

(** The filter changes nothing but the address cache. *)
Lemma isClientAllowed_frame now fresh remote a :
  let a' := (isClientAllowed now fresh remote a).2 in
  cfg a' = cfg a /\ clientAuthList a' = clientAuthList a /\ allowSet a' = allowSet a /\ authed a' = authed a.
Proof.
  unfold isClientAllowed. destruct (ParseIP _) as [ip|]; [|done].
  assert (forall a', a' = (if Hostonly (cfg a) then
      let '(ips, a) := cachedHostIPs now fresh a in (existsb (Z.eqb ip) ips, a) else (true, a)).2 ->
    cfg a' = cfg a /\ clientAuthList a' = clientAuthList a /\ allowSet a' = allowSet a /\ authed a' = authed a)
    as Hb.
  { intros a' ->. case_if; [|done]. unfold cachedHostIPs.
    destruct (hostIPs a) as [[ips exp]|]; [case_if|]; done. }
  case_if; [|by apply Hb]. case_if; [done|]. case_if; [done|]. by apply Hb.
Qed.

(** The addresses the filter compares with when it asks for host-only access. *)
Definition localIPs (now : Time) (fresh : list IP) (a : Access) : list IP := (cachedHostIPs now fresh a).1.

Lemma isClientAllowed_true now fresh remote a :
  (isClientAllowed now fresh remote a).1 = true ->
  exists ip, ParseIP (remoteHost remote) = Some ip /\
    let trivial := Allow (cfg a) = "" \/ Allow (cfg a) = allowAllIPv4 \/ Allow (cfg a) = "0.0.0.0/0" in
    (Contains (allowSet a) ip = true /\ ~ trivial) \/
    (Hostonly (cfg a) = true /\ ip ∈ localIPs now fresh a /\ (Gateway (cfg a) = true -> trivial)) \/
    (Hostonly (cfg a) = false /\ trivial).
Proof.
  unfold isClientAllowed. destruct (ParseIP _) as [ip|]; [|done]. intros H. exists ip. split; [done|]. cbv zeta.
  assert (forall P : Prop, (Gateway (cfg a) = true -> P) -> (Hostonly (cfg a) = false -> P) ->
    (if Hostonly (cfg a) then
      let '(ips, a) := cachedHostIPs now fresh a in (existsb (Z.eqb ip) ips, a) else (true, a)).1 = true ->
    (Hostonly (cfg a) = true /\ ip ∈ localIPs now fresh a /\ (Gateway (cfg a) = true -> P)) \/
    (Hostonly (cfg a) = false /\ P)) as Hb.
  { intros P HP HP'. destruct (Hostonly (cfg a)) eqn:Eh; [|intros _; right; auto].
    unfold localIPs. destruct (cachedHostIPs now fresh a) as [ips a'] eqn:Ec. simpl. intros He.
    left. split_and!; [done| |done]. apply existsb_exists in He as (x & Hx & Heq).
    apply Z.eqb_eq in Heq as ->. by apply list_elem_of_In. }
  destruct (String.eqb_spec (Allow (cfg a)) ""); [right; apply Hb; auto|].
  destruct (String.eqb_spec (Allow (cfg a)) allowAllIPv4); [right; apply Hb; auto|].
  destruct (String.eqb_spec (Allow (cfg a)) "0.0.0.0/0"); [right; apply Hb; auto|]. cbn [negb andb] in H.
  destruct (Contains (allowSet a) ip); [left; split; [done|tauto]|].
  destruct (Hostonly (cfg a)) eqn:Eh; [|done]. destruct (Gateway (cfg a)) eqn:Eg; [done|]. cbn [negb orb] in H.
  right. left. split_and!; [done| |done]. specialize (Hb True (fun _ => I) (fun _ => I)).
  by destruct (Hb H) as [(_ & ? & _)|[? _]].
Qed.

Lemma restrictive_not_trivial allow :
  hasRestrictiveAllow allow = true -> allow <> "" /\ allow <> allowAllIPv4 /\ allow <> "0.0.0.0/0".
Proof. intros H. split_and!; intros ->; by vm_compute in H. Qed.

Lemma New_checks c a :
  New c = Ok a ->
  cfg a = c /\ clientAuthList a = clientAuthMethods (ClientAuth c) /\
  validateClientAuth (ClientAuth c) = None /\ validateDownstreamCredentials c = None /\
  validateGatewaySecurity c = None /\ authed a = ∅.
Proof.
  unfold New. destruct (validateClientAuth (ClientAuth c)); [done|]. destruct (validateAllow (Allow c)); [done|].
  destruct (validateDownstreamCredentials c); [done|]. destruct (validateGatewaySecurity c); [done|].
  cbn [orElse]. by intros [= <-].
Qed.

Lemma step_config a e :
  cfg (step a e) = cfg a /\ clientAuthList (step a e) = clientAuthList a /\ allowSet (step a e) = allowSet a.
Proof.
  destruct e as [r|remote]; [|done]. simpl. unfold ServeHTTP.
  pose proof (isClientAllowed_frame (rNow r) (rFresh r) (RemoteAddr r) a) as (H1 & H2 & H3 & _).
  destruct (isClientAllowed (rNow r) (rFresh r) (RemoteAddr r) a) as [ok a'] eqn:E. simpl in H1, H2, H3.
  cbv zeta. destruct (doctor r); [by destruct (isLoopbackRemote _)|].
  destruct (quit r); [by destruct (isLoopbackRemote _)|].
  destruct ok; [|done]. cbn [negb]. destruct (clientAuthEnabled a'); [|done].
  unfold authenticateClient, setClientAuthed, clearClientAuthed, set_authed.
  destruct (negb _ && _); [done|]. destruct (checkClientAuth r a'); [done|]. cbn.
  by destruct (authed a' !! RemoteAddr r).
Qed.

Lemma run_config a evs :
  cfg (run step a evs) = cfg a /\ clientAuthList (run step a evs) = clientAuthList a /\
  allowSet (run step a evs) = allowSet a.
Proof.
  apply (run_invariant step (fun s => cfg s = cfg a /\ clientAuthList s = clientAuthList a /\
    allowSet s = allowSet a)); [done|]. intros s e (<- & <- & <-). apply step_config.
Qed.

Lemma ServeHTTP_served r a d a' :
  ServeHTTP r a = (d, a') -> served d ->
  (isClientAllowed (rNow r) (rFresh r) (RemoteAddr r) a).1 = true /\
  (clientAuthEnabled a = true ->
     (hasProxyAuth r = false /\ isClientAuthed (RemoteAddr r) a = true /\ authed a' = authed a) \/
     (checkClientAuth r a = true /\ authed a' = <[RemoteAddr r := true]> (authed a))).
Proof.
  unfold ServeHTTP. pose proof (isClientAllowed_frame (rNow r) (rFresh r) (RemoteAddr r) a) as (H1 & H2 & H3 & H4).
  destruct (isClientAllowed (rNow r) (rFresh r) (RemoteAddr r) a) as [ok a1] eqn:E. simpl in H1, H2, H3, H4.
  cbv zeta. intros H Hd.
  destruct (doctor r).
  { destruct (isLoopbackRemote _), ok; injection H as <- _; by destruct Hd. }
  destruct (quit r).
  { destruct (isLoopbackRemote _), ok; injection H as <- _; by destruct Hd. }
  destruct ok; [|by injection H as <- _; destruct Hd]. split; [done|]. intros He. cbn [negb] in H.
  assert (clientAuthEnabled a1 = true) as He1 by (unfold clientAuthEnabled in *; by rewrite H2).
  rewrite He1 in H. unfold authenticateClient in H.
  assert (isClientAuthed (RemoteAddr r) a1 = isClientAuthed (RemoteAddr r) a) as Hia
    by (unfold isClientAuthed; by rewrite H4).
  assert (checkClientAuth r a1 = checkClientAuth r a) as Hck by (unfold checkClientAuth; by rewrite H2).
  rewrite Hia, Hck in H.
  destruct (negb (hasProxyAuth r) && isClientAuthed (RemoteAddr r) a) eqn:Eb.
  - left. apply andb_true_iff in Eb as [Eb1 Eb2]. apply negb_true_iff in Eb1. injection H as _ <-. done.
  - right. destruct (checkClientAuth r a) eqn:Ec; [|by injection H as <- _; destruct Hd].
    injection H as _ <-. split; [done|]. simpl. by rewrite H4.
Qed.

Lemma ServeHTTP_authed r a remote :
  authed (ServeHTTP r a).2 !! remote = Some true ->
  authed a !! remote = Some true \/ (RemoteAddr r = remote /\ checkClientAuth r a = true).
Proof.
  unfold ServeHTTP. pose proof (isClientAllowed_frame (rNow r) (rFresh r) (RemoteAddr r) a) as (H1 & H2 & H3 & H4).
  destruct (isClientAllowed (rNow r) (rFresh r) (RemoteAddr r) a) as [ok a1] eqn:E. simpl in H1, H2, H3, H4.
  assert (checkClientAuth r a1 = checkClientAuth r a) as Hck by (unfold checkClientAuth; by rewrite H2).
  cbv zeta. intros H.
  destruct (doctor r); [destruct (isLoopbackRemote _), ok; left; simpl in H; first [exact H|by rewrite <- H4]|].
  destruct (quit r); [destruct (isLoopbackRemote _), ok; left; simpl in H; first [exact H|by rewrite <- H4]|].
  destruct ok; [|left; simpl in H; by rewrite <- H4]. cbn [negb] in H.
  destruct (clientAuthEnabled a1); [|left; simpl in H; by rewrite <- H4].
  unfold authenticateClient in H. rewrite Hck in H.
  destruct (negb _ && _); [left; simpl in H; by rewrite <- H4|].
  destruct (checkClientAuth r a).
  - simpl in H. destruct (decide (RemoteAddr r = remote)) as [<-|Hne]; [by right|].
    rewrite lookup_insert_ne in H by done. left. by rewrite <- H4.
  - simpl in H. unfold clearClientAuthed in H. left. rewrite <- H4.
    destruct (authed a1 !! RemoteAddr r); [|done]. simpl in H.
    destruct (decide (RemoteAddr r = remote)) as [<-|Hne]; [by rewrite lookup_insert_eq in H|].
    by rewrite lookup_insert_ne in H.
Qed.

Lemma authed_origin evs a0 remote :
  authed a0 = ∅ -> isClientAuthed remote (run step a0 evs) = true ->
  exists pre r post, evs = pre ++ EvRequest r :: post /\ RemoteAddr r = remote /\
    checkClientAuth r a0 = true /\ EvConnEnd remote ∉ post.
Proof.
  intros Ha0. induction evs as [|e evs IH] using rev_ind.
  { unfold isClientAuthed. simpl. by rewrite Ha0, lookup_empty. }
  rewrite run_app. change (run step (run step a0 evs) [e]) with (step (run step a0 evs) e).
  intros H. unfold isClientAuthed in H.
  assert (authed (step (run step a0 evs) e) !! remote = Some true) as Ht.
  { destruct (authed (step _ e) !! remote) as [[]|]; done. }
  assert (isClientAuthed remote (run step a0 evs) = true -> e <> EvConnEnd remote ->
    exists pre r post, evs ++ [e] = pre ++ EvRequest r :: post /\ RemoteAddr r = remote /\
      checkClientAuth r a0 = true /\ EvConnEnd remote ∉ post) as Hold.
  { intros (pre & r & post & -> & Hr & Hc & Hp)%IH Hne. exists pre, r, (post ++ [e]).
    rewrite <- app_assoc. split_and!; [done|done|done|].
    rewrite not_elem_of_app, list_elem_of_singleton. split; [done|]. by intros <-. }
  destruct e as [r|remote']; simpl in Ht.
  - apply ServeHTTP_authed in Ht as [Ht|[Hr Hc]].
    + apply Hold; [|done]. unfold isClientAuthed. by rewrite Ht.
    + exists evs, r, []. split_and!; [done|done| |by apply not_elem_of_nil].
      unfold checkClientAuth in *. by destruct (run_config a0 evs) as (_ & <- & _).
  - destruct (decide (remote' = remote)) as [<-|Hne]; [by rewrite lookup_delete_eq in Ht|].
    apply Hold; [|congruence]. rewrite lookup_delete_ne in Ht by done. unfold isClientAuthed. by rewrite Ht.
Qed.

(** ** Properties *)

(** C3: a gateway is never open: in any history of a server that [New] accepted
    as a gateway, a request is handled only for a client the allow set contains,
    a local address under host-only access, or an authenticated client; and a
    server exposed to remote clients never offers BASIC. *)
Theorem gateway_never_open c a0 evs r d a' :
  New c = Ok a0 -> Gateway c = true -> ServeHTTP r (run step a0 evs) = (d, a') -> served d ->
  "BASIC" ∉ clientAuthList a0 /\
  exists ip, ParseIP (remoteHost (RemoteAddr r)) = Some ip /\
    (Contains (allowSet a0) ip = true \/
     (Hostonly c = true /\ ip ∈ localIPs (rNow r) (rFresh r) (run step a0 evs)) \/
     (clientAuthList a0 <> [] /\
       (checkClientAuth r a0 = true \/
        exists pre r0 post, evs = pre ++ EvRequest r0 :: post /\ RemoteAddr r0 = RemoteAddr r /\
          checkClientAuth r0 a0 = true /\ EvConnEnd (RemoteAddr r) ∉ post))).
Proof.
  intros (Hc & Hl & _ & _ & Hg & He)%New_checks Hgw Hs Hd.
  destruct (run_config a0 evs) as (R1 & R2 & R3). rewrite Hc in R1.
  unfold validateGatewaySecurity in Hg. unfold isRemotePlaintextExposure in Hg. rewrite Hgw in Hg.
  rewrite <- Hl in Hg. destruct (containsClientAuthMethod (clientAuthList a0) "BASIC") eqn:Eb; [done|].
  cbn [andb negb] in Hg. split.
  { intros Hin. assert (containsClientAuthMethod (clientAuthList a0) "BASIC" = true); [|congruence].
    unfold containsClientAuthMethod. apply existsb_exists. exists "BASIC".
    split; [by apply list_elem_of_In|done]. }
  apply ServeHTTP_served in Hs as [Hallow Hauth]; [|done].
  apply isClientAllowed_true in Hallow as (ip & Hip & Hallow). exists ip. split; [done|].
  rewrite R1, R3 in Hallow.
  destruct (clientAuthEnabled (run step a0 evs)) eqn:Een.
  - right. right. split.
    { unfold clientAuthEnabled in Een. rewrite R2 in Een. intros Hnil. by rewrite Hnil in Een. }
    destruct (Hauth eq_refl) as [(_ & Hia & _)|[Hck _]].
    + right. by apply authed_origin.
    + left. unfold checkClientAuth in *. by rewrite R2 in Hck.
  - cbv zeta in Hallow. destruct Hallow as [[? _]|[(? & ? & _)|[Hh Ht]]]; [by left|by right; left|].
    exfalso. rewrite Hh in Hg. unfold clientAuthEnabled in Een. rewrite R2 in Een. rewrite Een in Hg.
    destruct (hasRestrictiveAllow (Allow c)) eqn:Er; [|done].
    apply restrictive_not_trivial in Er. tauto.
Qed.

(** C4: the record of an authenticated connection is sound: when client
    authentication is on, a request is handled only if its own credentials
    verify, or an earlier request of the same connection verified and the
    connection has not ended since. *)
Theorem served_only_authenticated c a0 evs r d a' :
  New c = Ok a0 -> clientAuthEnabled a0 = true ->
  ServeHTTP r (run step a0 evs) = (d, a') -> served d ->
  checkClientAuth r a0 = true \/
  (hasProxyAuth r = false /\
   exists pre r0 post, evs = pre ++ EvRequest r0 :: post /\ RemoteAddr r0 = RemoteAddr r /\
     checkClientAuth r0 a0 = true /\ EvConnEnd (RemoteAddr r) ∉ post).
Proof.
  intros (_ & _ & _ & _ & _ & He)%New_checks Hen Hs Hd.
  destruct (run_config a0 evs) as (_ & R2 & _).
  apply ServeHTTP_served in Hs as [_ Hauth]; [|done].
  destruct Hauth as [(Hp & Hia & _)|[Hck _]]; [unfold clientAuthEnabled in *; by rewrite R2| |].
  - right. split; [done|]. by apply authed_origin.
  - left. unfold checkClientAuth in *. by rewrite R2 in Hck.
Qed.

(** ** Witnesses *)

Definition wit_cfg : Config := mkConfig true false "" "" "ANYSAFE" "user" "secret".
Definition wit_req (cred : bool) : Request :=
  mkRequest "203.0.113.7:5000" false false true cred (fun m => cred && String.eqb m "DIGEST") 0 [].

Lemma gateway_never_open_witness :
  exists a0 a', New wit_cfg = Ok a0 /\ ServeHTTP (wit_req true) (run step a0 []) = (HandleConnect, a') /\
  "BASIC" ∉ clientAuthList a0.
Proof.
  destruct (New wit_cfg) as [a0|e] eqn:E; [|by vm_compute in E].
  destruct (ServeHTTP (wit_req true) (run step a0 [])) as [d a'] eqn:Es.
  assert (d = HandleConnect) as ->.
  { vm_compute in E. injection E as <-. vm_compute in Es. by injection Es as <- _. }
  exists a0, a'. split_and!; [done|done|].
  apply (gateway_never_open wit_cfg a0 [] (wit_req true) HandleConnect a' E eq_refl Es). by left.
Defined.

Lemma served_only_authenticated_witness :
  exists a0 a', New wit_cfg = Ok a0 /\
  ServeHTTP (wit_req false) (run step a0 [EvRequest (wit_req true)]) = (HandleConnect, a') /\
  checkClientAuth (wit_req false) a0 = false.
Proof.
  destruct (New wit_cfg) as [a0|e] eqn:E; [|by vm_compute in E].
  destruct (ServeHTTP (wit_req false) (run step a0 [EvRequest (wit_req true)])) as [d a'] eqn:Es.
  pose proof E as E'. vm_compute in E'. injection E' as E'.
  assert (d = HandleConnect /\ clientAuthEnabled a0 = true) as [-> Hen].
  { subst a0. vm_compute in Es. by injection Es as <- _. }
  exists a0, a'. split_and!; [done|done|].
  destruct (served_only_authenticated wit_cfg a0 _ (wit_req false) HandleConnect a' E Hen Es ltac:(by left))
    as [H|[_ _]]; by subst a0.
Defined.

(** The gateway check reads the allow list by commas only, the filter also by
    semicolons: this gateway is accepted as restricted and serves everyone. *)
Example open_gateway :
  let c := mkConfig true false "10.0.0.0/8;0.0.0.0/0" "" "" "" "" in
  hasRestrictiveAllow (Allow c) = true /\
  exists a, New c = Ok a /\ (isClientAllowed 0 [] "203.0.113.7:5000" a).1 = true.
Proof. split; [reflexivity|]. eexists. split; reflexivity. Qed.

End Acc.
