(* ===== verification/UpstreamAuth.v ===== *)
(** * UpstreamAuth: the choice of an upstream authentication
    ([internal/proxy/auth_upstream.go], [auth_mechanism.go],
    [auth_mechanism_state.go], and the SPNEGO wrapping of [auth_client.go])

    The modes a setting allows, the splitting of [Proxy-Authenticate] values and
    the choice among them, the header built for a challenge, the DER and SPNEGO
    encodings around an NTLM token, and the mechanism that is reported.  A byte
    is a [Z].  MD5, the client nonce and the NTLM messages (crypto/md5,
    crypto/rand and the ntlmssp package) are parameters. *)

From S2P Require Export Prelude GoStrings Base64 Utf8.

Module Ua.



(** ** Modes *)

Definition isKnownAuthScheme (scheme : string) : bool :=
  existsb (String.eqb (ToUpper scheme)) ["NEGOTIATE"; "NTLM"; "DIGEST"; "BASIC"].

Definition removeAuthMode (modes : list string) (remove : string) : list string :=
  bfilter (fun mode => negb (String.eqb mode remove)) modes.

Definition safeModes : list string := ["NEGOTIATE"; "NTLM"; "DIGEST"].
Definition anyModes : list string := ["NEGOTIATE"; "NTLM"; "DIGEST"; "BASIC"].

(** The table of prefixes: name, base, and whether only the method is kept. *)
Definition prefixes : list (string * list string * bool) :=
  [("SAFENO", safeModes, false); ("ONLY", anyModes, true); ("NO", anyModes, false)].

Fixpoint prefixModes (auth : string) (ps : list (string * list string * bool)) : option (list string) :=
  match ps with
  | [] => None
  | (name, base, only) :: ps' =>
      match CutPrefix auth name with
      | Some method =>
          if isKnownAuthScheme method
          then Some (if only : bool then [method] else removeAuthMode base method)
          else prefixModes auth ps'
      | None => prefixModes auth ps'
      end
  end.

Definition upstreamAuthModes (auth : string) : list string :=
  let auth := ToUpper (TrimSpace auth) in
  if String.eqb auth "" || String.eqb auth "ANY" then anyModes
  else if String.eqb auth "NONE" then []
  else if String.eqb auth "ANYSAFE" then safeModes
  else default [auth] (prefixModes auth prefixes).

(** [true]: the setting is accepted. *)
Definition validateUpstreamAuth (auth : string) : bool :=
  let auth := ToUpper (TrimSpace auth) in
  existsb (String.eqb auth) [""; "ANY"; "ANYSAFE"; "NONE"] ||
  existsb (fun prefix => match CutPrefix auth prefix with
                         | Some method => isKnownAuthScheme method
                         | None => false
                         end) ["SAFENO"; "ONLY"; "NO"] ||
  isKnownAuthScheme auth.

Record Credentials := mkCreds { Auth : string; Username : string; Password : string }.

Definition effectiveUpstreamAuth (c : Credentials) : string :=
  if String.eqb (TrimSpace (Auth c)) "" && negb (String.eqb (Username c) "") &&
     negb (String.eqb (Password c) "")
  then "ANYSAFE" else Auth c.

Definition isConnectionAuth (auth : string) : bool := EqualFold auth "NTLM" || EqualFold auth "NEGOTIATE".
Definition hasConnectionAuthMode (auth : string) : bool := existsb isConnectionAuth (upstreamAuthModes auth).
Definition containsAuthMode (modes : list string) (want : string) : bool :=
  existsb (fun mode => EqualFold mode want) modes.

(** ** Challenges *)

Definition quote : ascii := "034".

(** Split at the commas outside quotes; [acc] is the current part, reversed. *)
Fixpoint quotedSplit (inQuote : bool) (s : string) : list string :=
  match s with
  | "" => [""]
  | String c t =>
      if Ascii.eqb c "," && negb inQuote then "" :: quotedSplit inQuote t
      else
        let inQuote := if Ascii.eqb c quote then negb inQuote else inQuote in
        match quotedSplit inQuote t with
        | w :: ws => String c w :: ws
        | [] => [String c ""]
        end
  end.

Definition splitAuthParams (header : string) : list string := quotedSplit false header.

Definition authSchemeFromChallenge (challenge : string) : string :=
  ToUpper (CutOr (TrimSpace challenge) " ").1.

Definition appendToLast (parts : list string) (part : string) : list string :=
  match rev parts with
  | last :: front => rev front ++ [last +:+ ", " +:+ part]
  | [] => [part]
  end.

Definition addPart (parts : list string) (raw : string) : list string :=
  let part := TrimSpace raw in
  if String.eqb part "" then parts
  else if isKnownAuthScheme (authSchemeFromChallenge part) || (length parts =? 0)%nat
  then parts ++ [part]
  else appendToLast parts part.

Definition splitProxyAuthenticateValues (header : string) : list string :=
  fold_left addPart (quotedSplit false header) [].

Definition findProxyAuthenticateChallenge (challenges : list string) (scheme : string) : string :=
  match List.find (fun part => EqualFold (authSchemeFromChallenge part) scheme)
          (flat_map splitProxyAuthenticateValues challenges) with
  | Some part => TrimSpace part
  | None => ""
  end.

Fixpoint selectFrom (modes challenges : list string) : string :=
  match modes with
  | [] => ""
  | scheme :: modes' =>
      let challenge := findProxyAuthenticateChallenge challenges scheme in
      if negb (String.eqb challenge "") then challenge else selectFrom modes' challenges
  end.

Definition selectProxyAuthenticateChallenge (auth : string) (challenges : list string) : string :=
  selectFrom (upstreamAuthModes auth) challenges.

Definition addParam (params : gmap string string) (part : string) : gmap string string :=
  match Cut (TrimSpace part) "=" with
  | None => params
  | Some (key, val) =>
      <[ToLower (TrimSpace key) := Trim (TrimSpace val) (String quote "")]> params
  end.
Definition parseAuthParams (header : string) : gmap string string :=
  fold_left addParam (splitAuthParams header) ∅.

Definition selectDigestQop (qop : string) : option string :=
  let qop := TrimSpace qop in
  if String.eqb qop "" then Some ""
  else if existsb (fun part => EqualFold (TrimSpace part) "auth") (Split qop ",")
  then Some "auth" else None.

(** ** DER and SPNEGO *)

Definition maxSPNEGOTokenLen : Z := 16 * 1024.

Definition isNTLMSSP (token : bytes) : bool :=
  (12 <=? zlen token) && bool_decide (take 8 token = [78; 84; 76; 77; 83; 83; 80; 0]).

Definition spnegoOIDValue : bytes := [43; 6; 1; 5; 5; 2].
Definition ntlmOIDValue : bytes := [43; 6; 1; 4; 1; 130; 55; 2; 2; 10].
Definition kerberosOIDValue : bytes := [42; 134; 72; 134; 247; 18; 1; 2; 2].

(** The tag, the content and what follows. *)
Definition readDERTLV (data : bytes) : option (Z * bytes * bytes) :=
  if (zlen data <? 2) || (maxSPNEGOTokenLen <? zlen data) then None
  else
    match data with
    | tag :: lengthByte :: rest =>
        '(length, rest) ←
          (if negb (Z.land lengthByte 128 =? 0) then
             let count := Z.land lengthByte 127 in
             if (count =? 0) || (2 <? count) || (zlen rest <? count) then None
             else
               let n := Z.to_nat count in
               Some (fold_left (fun acc b => Z.lor (Z.shiftl acc 8) b) (take n rest) 0, drop n rest)
           else Some (lengthByte, rest));
        if zlen rest <? length then None
        else Some (tag, take (Z.to_nat length) rest, drop (Z.to_nat length) rest)
    | _ => None
    end.

Fixpoint lengthBytes (fuel : nat) (n : Z) (buf : bytes) : bytes :=
  match fuel with
  | O => buf
  | S f => if n >? 0 then lengthBytes f (Z.shiftr n 8) (n mod 256 :: buf) else buf
  end.

(** The length is that of a slice; four bytes hold it (lemma [derLength_small]
    covers the tokens [readDERTLV] accepts). *)
Definition derLength (length : Z) : bytes :=
  if length <? 128 then [length]
  else let buf := lengthBytes 4 length [] in Z.lor 128 (zlen buf) :: buf.

Definition derTLV (tag : Z) (content : bytes) : bytes := tag :: derLength (zlen content) ++ content.

Definition spnegoNegTokenInit (ntlmToken : bytes) : bytes :=
  let mechList := derTLV 160 (derTLV 48 (derTLV 6 ntlmOIDValue)) in
  let mechToken := derTLV 162 (derTLV 4 ntlmToken) in
  let negTokenInit := derTLV 160 (derTLV 48 (mechList ++ mechToken)) in
  derTLV 96 (derTLV 6 spnegoOIDValue ++ negTokenInit).

Definition spnegoNegTokenResp (ntlmToken : bytes) : bytes :=
  let negState := derTLV 160 (derTLV 10 [1]) in
  let supportedMech := derTLV 161 (derTLV 6 ntlmOIDValue) in
  let responseToken := derTLV 162 (derTLV 4 ntlmToken) in
  derTLV 161 (derTLV 48 ((negState ++ supportedMech) ++ responseToken)).

(** The loop over the fields; each one is at least two bytes. *)
Fixpoint findSPNEGONTLMToken (fuel : nat) (seq : bytes) : option bytes :=
  match fuel with
  | O => None
  | S f =>
      match seq with
      | [] => None
      | _ =>
          '(tag, content, rest) ← readDERTLV seq;
          if negb (tag =? 162) then findSPNEGONTLMToken f rest
          else
            '(octetTag, octets, octetRest) ← readDERTLV content;
            if negb (octetTag =? 4) || negb (zlen octetRest =? 0) || negb (isNTLMSSP octets) then None
            else Some octets
      end
  end.

(** The body of an application-tagged SPNEGO token, or the token itself. *)
Definition innerToken (token : bytes) : option bytes :=
  match readDERTLV token with
  | Some (tag, content, rest) =>
      if (tag =? 96) && (zlen rest =? 0) then
        '(oidTag, oidContent, remainder) ← readDERTLV content;
        if negb (oidTag =? 6) || negb (bool_decide (oidContent = spnegoOIDValue)) then None
        else Some remainder
      else Some token
  | None => Some token
  end.

Definition unwrapSPNEGONTLMToken (token : bytes) : option bytes :=
  if isNTLMSSP token then Some token
  else
    token ← innerToken token;
    '(tag, content, rest) ← readDERTLV token;
    if negb (zlen rest =? 0) || (negb (tag =? 160) && negb (tag =? 161)) then None
    else
      '(seqTag, seqContent, seqRest) ← readDERTLV content;
      if negb (seqTag =? 48) || negb (zlen seqRest =? 0) then None
      else findSPNEGONTLMToken (length seqContent) seqContent.

(** ** The reported mechanism *)

Fixpoint selectedMech (fuel : nat) (seqContent : bytes) : string :=
  match fuel with
  | O => ""
  | S f =>
      match seqContent with
      | [] => ""
      | _ =>
          match readDERTLV seqContent with
          | None => ""
          | Some (fieldTag, fieldContent, fieldRest) =>
              if negb (fieldTag =? 161) then selectedMech f fieldRest
              else match readDERTLV fieldContent with
                   | None => ""
                   | Some (oidTag, oidContent, oidRest) =>
                       if negb (oidTag =? 6) || negb (zlen oidRest =? 0) then ""
                       else if bool_decide (oidContent = kerberosOIDValue) then "Kerberos"
                       else if bool_decide (oidContent = ntlmOIDValue) then "NTLM"
                       else "Negotiate"
                   end
          end
      end
  end.

Definition selectedSPNEGOMechanism (token : bytes) : string :=
  match innerToken token with
  | None => ""
  | Some token =>
      match readDERTLV token with
      | None => ""
      | Some (tag, content, rest) =>
          if negb (tag =? 161) || negb (zlen rest =? 0) then ""
          else match readDERTLV content with
               | None => ""
               | Some (seqTag, seqContent, seqRest) =>
                   if negb (seqTag =? 48) || negb (zlen seqRest =? 0) then ""
                   else selectedMech (length seqContent) seqContent
               end
      end
  end.

Definition classifyUpstreamAuthMechanism (header : string) : string :=
  let cut := Cut (TrimSpace header) " " in
  let '(scheme, token) := default (TrimSpace header, "") cut in
  let upper := ToUpper (TrimSpace scheme) in
  if String.eqb upper "NTLM" then "NTLM"
  else if String.eqb upper "NEGOTIATE" then
    if bool_decide (cut = None) || String.eqb (TrimSpace token) "" then "Negotiate"
    else
      match b64_decode (TrimSpace token) with
      | None => "Negotiate"
      | Some raw =>
          if isNTLMSSP raw then "NTLM"
          else match unwrapSPNEGONTLMToken raw with
               | Some _ => "NTLM"
               | None => let selected := selectedSPNEGOMechanism raw in
                         if negb (String.eqb selected "") then selected else "Negotiate"
               end
      end
  else if String.eqb upper "DIGEST" then "Digest"
  else if String.eqb upper "BASIC" then "Basic"
  else TrimSpace scheme.

Definition authMechanismSpecificity (mechanism : string) : Z :=
  if EqualFold mechanism "Negotiate" then 1
  else if existsb (EqualFold mechanism) ["Basic"; "Digest"; "NTLM"; "Kerberos"] then 2
  else 0.

(** [authMechanismObservation]: the mechanism observed so far. *)
Definition ObserveMechanism (mechanism current : string) : string :=
  if authMechanismSpecificity mechanism =? 0 then current
  else if authMechanismSpecificity mechanism <? authMechanismSpecificity current then current
  else mechanism.
Definition ObserveHeader (header current : string) : string :=
  ObserveMechanism (classifyUpstreamAuthMechanism header) current.

(** [authMechanismTracker.Record]. *)
Definition TrackerRecord (mechanism : string) (value : option string) : option string :=
  if authMechanismSpecificity mechanism =? 0 then value else Some mechanism.
Definition recordSuccessfulAuthMechanism (status : option Z) (failed attempted : bool)
  (mechanism : string) (value : option string) : option string :=
  match status with
  | None => value
  | Some code => if failed || negb attempted || (code =? 407) then value
                 else TrackerRecord mechanism value
  end.

(** ** The header *)

Definition canonicalConnectionAuthScheme (scheme : string) : string :=
  if EqualFold scheme "NTLM" then "NTLM" else "Negotiate".

Section Header.
(** MD5 in hexadecimal, and the messages of the ntlmssp package. *)
Context (md5hex : string -> string).
Context (NewNegotiateMessage : option bytes).
Context (NewAuthenticateMessage : bytes -> string -> string -> option bytes).

(** "" stands for every way the code ends without a header. *)
Definition connectionProxyAuthHeader (c : Credentials) (authMode challengeHeader : string) : string :=
  if String.eqb (Username c) "" || String.eqb (Password c) "" then ""
  else
    let '(scheme, token) := CutOr (TrimSpace challengeHeader) " " in
    if negb (EqualFold scheme authMode) then ""
    else
      let header msg := canonicalConnectionAuthScheme scheme +:+ " " +:+ b64_encode msg in
      if String.eqb (TrimSpace token) "" then
        match NewNegotiateMessage with
        | None => ""
        | Some msg => header (if EqualFold authMode "NEGOTIATE" then spnegoNegTokenInit msg else msg)
        end
      else
        match b64_decode (TrimSpace token) with
        | None => ""
        | Some challenge =>
            let wrapped := EqualFold authMode "NEGOTIATE" && negb (isNTLMSSP challenge) in
            match (if wrapped then unwrapSPNEGONTLMToken challenge else Some challenge) with
            | None => ""
            | Some challenge =>
                match NewAuthenticateMessage challenge (Username c) (Password c) with
                | None => ""
                | Some msg => header (if wrapped then spnegoNegTokenResp msg else msg)
                end
            end
        end.

Definition q (s : string) : string := String quote (s +:+ String quote "").

(** [nc] and [cnonce] are what [nextDigestNC] and [newCnonce] answer. *)
Definition digestHeader (c : Credentials) (method uri challenge nc cnonce : string) : string :=
  match Cut (TrimSpace challenge) " " with
  | None => ""
  | Some (scheme, paramsText) =>
      if negb (EqualFold scheme "Digest") || String.eqb (TrimSpace paramsText) "" then ""
      else
        let params := parseAuthParams (TrimSpace paramsText) in
        let get k := default "" (params !! k) in
        let realm := get "realm" in
        let nonce := get "nonce" in
        let algorithm := TrimSpace (get "algorithm") in
        match selectDigestQop (get "qop") with
        | None => ""
        | Some qop =>
            if String.eqb realm "" || String.eqb nonce "" ||
               (negb (String.eqb algorithm "") && negb (EqualFold algorithm "MD5")) then ""
            else
              let ha1 := md5hex (Username c +:+ ":" +:+ realm +:+ ":" +:+ Password c) in
              let ha2 := md5hex (method +:+ ":" +:+ uri) in
              let common := "Digest username=" +:+ q (Username c) +:+ ", realm=" +:+ q realm +:+
                            ", nonce=" +:+ q nonce +:+ ", uri=" +:+ q uri in
              if String.eqb qop "" then
                common +:+ ", response=" +:+ q (md5hex (ha1 +:+ ":" +:+ nonce +:+ ":" +:+ ha2))
              else
                common +:+ ", qop=" +:+ qop +:+ ", nc=" +:+ nc +:+ ", cnonce=" +:+ q cnonce +:+
                ", response=" +:+ q (md5hex (ha1 +:+ ":" +:+ nonce +:+ ":" +:+ nc +:+ ":" +:+ cnonce +:+
                                            ":" +:+ qop +:+ ":" +:+ ha2))
        end
  end.

Definition basicHeader (c : Credentials) : string :=
  "Basic " +:+ b64_encode (str_bytes (Username c +:+ ":" +:+ Password c)).

Definition upstreamProxyAuthHeader (c : Credentials) (method uri challenge passthroughAuth nc cnonce : string)
  : string :=
  let authModes := upstreamAuthModes (effectiveUpstreamAuth c) in
  if (length authModes =? 0)%nat then passthroughAuth
  else if String.eqb (Username c) "" || String.eqb (Password c) "" then ""
  else
    let challengeScheme := authSchemeFromChallenge challenge in
    if String.eqb challengeScheme "" || negb (containsAuthMode authModes challengeScheme) then ""
    else if String.eqb challengeScheme "DIGEST" then digestHeader c method uri challenge nc cnonce
    else if isConnectionAuth challengeScheme then connectionProxyAuthHeader c challengeScheme challenge
    else basicHeader c.

Definition UpstreamProxyAuthHeader (c : Credentials) (method uri : string) (challenges : list string)
  (nc cnonce : string) : string :=
  let challenge := if (length challenges =? 0)%nat then ""
                   else selectProxyAuthenticateChallenge (effectiveUpstreamAuth c) challenges in
  upstreamProxyAuthHeader c method uri challenge "" nc cnonce.

End Header.

(** [drainUpstream407Body]: how the copy of up to [maxUpstream407Body + 1] bytes
    ended; [true] is success. *)
Definition maxUpstream407Body : Z := Z.shiftl 64 10.
Inductive CopyEnd := CopyFull (n : Z) | CopyEOF | CopyFailed.
Definition drainUpstream407Body (body : option CopyEnd) : bool :=
  match body with
  | None => true
  | Some (CopyFull n) => negb (maxUpstream407Body <? n)
  | Some CopyEOF => true
  | Some CopyFailed => false
  end.

(** [sspiSessionAuth]: [true] is [Authenticate], [false] is [Negotiate]. *)
Definition sspiSessionAuth (challenge : string) : bool :=
  match Cut (TrimSpace challenge) " " with
  | Some (_, tokenPart) => negb (String.eqb (TrimSpace tokenPart) "")
  | None => false
  end.

(** ** Lemmas: case and white space *)

Lemma EqualFold_upper a b : EqualFold a b = true -> ToUpper a = ToUpper b.
Proof.
  unfold EqualFold. intros H%String.eqb_eq. by rewrite <- (ToUpper_ToLower a), <- (ToUpper_ToLower b), H.
Qed.

Lemma ToUpper_drop n s : ToUpper (str_drop n s) = str_drop n (ToUpper s).
Proof. revert s. induction n as [|n IH]; intros [|c s]; try done. simpl. apply IH. Qed.

(** A string with a character that is not white space. *)
Definition nonblank (s : string) : Prop := str_forall is_space s = false.

Lemma TrimSpace_nonblank s : TrimSpace s <> "" <-> nonblank s.
Proof.
  unfold nonblank, TrimSpace. rewrite trim_right_nil_iff.
  assert (str_forall is_space (trim_left is_space s) = str_forall is_space s) as ->.
  { induction s as [|c s IH]; [done|]. simpl. destruct (is_space c) eqn:E; [done|]. simpl. by rewrite E. }
  destruct (str_forall is_space s); split; congruence.
Qed.

Lemma nonblank_app_l a b : nonblank a -> nonblank (a +:+ b).
Proof. unfold nonblank. rewrite str_forall_app. by intros ->. Qed.

Lemma scheme_TrimSpace s : authSchemeFromChallenge (TrimSpace s) = authSchemeFromChallenge s.
Proof. unfold authSchemeFromChallenge. by rewrite TrimSpace_idem. Qed.

(** ** Lemmas: modes *)

Lemma known_upper s : ToUpper s = s -> isKnownAuthScheme s = true -> s ∈ anyModes.
Proof.
  unfold isKnownAuthScheme. intros -> H. simpl in H.
  repeat (apply orb_true_iff in H as [H%String.eqb_eq|H]; [subst; set_solver|]). done.
Qed.

Lemma prefixModes_known auth ps modes :
  ToUpper auth = auth -> Forall (fun p => p.1.2 ⊆ anyModes) ps ->
  prefixModes auth ps = Some modes -> modes ⊆ anyModes.
Proof.
  intros Hu. induction 1 as [|[[name base] only] ps Hb _ IH]; [done|]. cbn [prefixModes].
  destruct (CutPrefix auth name) as [method|] eqn:Ec; [|apply IH].
  destruct (isKnownAuthScheme method) eqn:Ek; [|apply IH]. intros [= <-].
  destruct only.
  - intros x ->%list_elem_of_singleton. apply known_upper; [|done].
    unfold CutPrefix in Ec. destruct (HasPrefix auth name); [|done]. injection Ec as <-.
    by rewrite ToUpper_drop, Hu.
  - unfold removeAuthMode. intros x [_ Hx]%elem_of_bfilter. by apply Hb.
Qed.

Lemma modes_known auth : validateUpstreamAuth auth = true -> upstreamAuthModes auth ⊆ anyModes.
Proof.
  unfold validateUpstreamAuth, upstreamAuthModes. cbv zeta.
  set (a := ToUpper (TrimSpace auth)). assert (ToUpper a = a) as Hu by apply ToUpper_idem.
  clearbody a. intros Hv. case_if; [done|]. case_if; [intros x ?%elem_of_nil; done|].
  case_if; [unfold safeModes, anyModes; set_solver|].
  destruct (prefixModes a prefixes) as [modes|] eqn:Ep; simpl.
  { eapply prefixModes_known; [done| |exact Ep]. unfold prefixes, safeModes, anyModes.
    apply Forall_forall. intros x Hx. rewrite !elem_of_cons, elem_of_nil in Hx.
    destruct Hx as [->|[->|[->|[]]]]; simpl; set_solver. }
  intros x ->%list_elem_of_singleton. apply known_upper; [done|].
  apply orb_false_iff in E as [E E']. cbn [existsb] in Hv. rewrite E, E', E0, E1 in Hv. cbn [orb] in Hv.
  unfold prefixes in Ep. cbn [prefixModes existsb] in Ep, Hv.
  destruct (CutPrefix a "SAFENO") as [m1|]; [destruct (isKnownAuthScheme m1); [done|]|];
    (destruct (CutPrefix a "ONLY") as [m2|]; [destruct (isKnownAuthScheme m2); [done|]|]);
    (destruct (CutPrefix a "NO") as [m3|]; [destruct (isKnownAuthScheme m3); [done|]|]); done.
Qed.

Lemma effective_valid c : validateUpstreamAuth (Auth c) = true -> validateUpstreamAuth (effectiveUpstreamAuth c) = true.
Proof. unfold effectiveUpstreamAuth. by case_if. Qed.

(** ** Lemmas: challenges *)

Lemma addPart_nonblank parts raw : Forall nonblank parts -> Forall nonblank (addPart parts raw).
Proof.
  intros Hp. unfold addPart. destruct (String.eqb_spec (TrimSpace raw) "") as [E|E]; [done|].
  assert (nonblank (TrimSpace raw)) as Hr.
  { apply TrimSpace_nonblank. by rewrite TrimSpace_idem. }
  case_if; [apply Forall_app; split; [done|by repeat constructor]|].
  unfold appendToLast. destruct (rev parts) as [|last front] eqn:Er; [by repeat constructor|].
  assert (Forall nonblank (last :: front)) as H by (rewrite <- Er; by apply Forall_rev).
  apply Forall_cons in H as [Hl Hf]. apply Forall_app. split; [by apply Forall_rev|].
  repeat constructor. by apply nonblank_app_l.
Qed.

Lemma split_nonblank header : Forall nonblank (splitProxyAuthenticateValues header).
Proof.
  unfold splitProxyAuthenticateValues. generalize (quotedSplit false header). intros l.
  assert (forall parts, Forall nonblank parts -> Forall nonblank (fold_left addPart l parts)) as H.
  { induction l as [|raw l IH]; intros parts Hp; [done|]. simpl. by apply IH, addPart_nonblank. }
  apply H. constructor.
Qed.

Definition offeredParts (challenges : list string) : list string :=
  flat_map splitProxyAuthenticateValues challenges.
(** The schemes the challenges offer. *)
Definition offered (challenges : list string) : list string :=
  map authSchemeFromChallenge (offeredParts challenges).

Lemma offeredParts_nonblank challenges part : part ∈ offeredParts challenges -> nonblank part.
Proof.
  unfold offeredParts. rewrite list_elem_of_In, in_flat_map. intros (h & _ & Hin).
  pose proof (split_nonblank h) as H. rewrite Forall_forall in H. apply H. by apply list_elem_of_In.
Qed.

Lemma find_Some challenges scheme ch :
  findProxyAuthenticateChallenge challenges scheme = ch -> ch <> "" ->
  authSchemeFromChallenge ch ∈ offered challenges /\ ToUpper (authSchemeFromChallenge ch) = ToUpper scheme.
Proof.
  unfold findProxyAuthenticateChallenge. destruct (List.find _ _) as [part|] eqn:Ef; [|done].
  intros <- _. apply find_some in Ef as [Hin Heq]. rewrite scheme_TrimSpace. split.
  - apply list_elem_of_fmap_2. by apply list_elem_of_In.
  - by apply EqualFold_upper.
Qed.

Lemma find_None challenges scheme :
  findProxyAuthenticateChallenge challenges scheme = "" -> scheme ∉ offered challenges.
Proof.
  unfold findProxyAuthenticateChallenge. destruct (List.find _ _) as [part|] eqn:Ef.
  - apply find_some in Ef as [Hin _]. intros Ht. exfalso. revert Ht.
    apply TrimSpace_nonblank, (offeredParts_nonblank challenges). by apply list_elem_of_In.
  - intros _ (part & -> & Hin)%list_elem_of_fmap. apply list_elem_of_In in Hin.
    pose proof (find_none _ _ Ef part Hin) as Hn. simpl in Hn. unfold EqualFold in Hn.
    by rewrite String.eqb_refl in Hn.
Qed.

Lemma selectFrom_spec modes challenges ch :
  selectFrom modes challenges = ch -> ch <> "" ->
  exists pre m post, modes = pre ++ m :: post /\ findProxyAuthenticateChallenge challenges m = ch /\
    forall m', m' ∈ pre -> m' ∉ offered challenges.
Proof.
  induction modes as [|m modes IH]; simpl; [by intros <-|].
  destruct (String.eqb_spec (findProxyAuthenticateChallenge challenges m) "") as [E|E]; cbn [negb].
  - intros H Hne. destruct (IH H Hne) as (pre & m1 & post & -> & H1 & H2).
    exists (m :: pre), m1, post. split_and!; [done|done|].
    intros m' [->|Hin]%elem_of_cons; [by apply find_None|by apply H2].
  - intros <- _. exists [], m, modes. split_and!; [done|done|]. by intros m' ?%elem_of_nil.
Qed.

(** ** Lemmas: headers *)

Lemma not_basic pre s : String.prefix "Basic " (pre +:+ s) = true ->
  (String.prefix pre "Basic " || String.prefix "Basic " pre) = true.
Proof.
  generalize "Basic ". intros b. revert b. induction pre as [|c pre IH]; intros b; [by destruct b|].
  destruct b as [|d b]; [done|]. cbn [String.append String.prefix].
  destruct (ascii_dec d c) as [->|]; [|done]. destruct (ascii_dec c c); [|done]. apply IH.
Qed.

Lemma digest_not_basic md5 c method uri ch nc cn :
  HasPrefix (digestHeader md5 c method uri ch nc cn) "Basic " = false.
Proof.
  destruct (HasPrefix (digestHeader md5 c method uri ch nc cn) "Basic ") eqn:E; [|done]. exfalso.
  unfold digestHeader in E. destruct (Cut _ _) as [[scheme params]|]; [|done].
  case_if_in E; [done|]. cbv zeta in E. destruct (selectDigestQop _) as [qop|]; [|done].
  case_if_in E; [done|].
  case_if_in E; rewrite <- ?app_assoc_str in E; unfold HasPrefix in E;
    apply (not_basic "Digest username=") in E; by vm_compute in E.
Qed.

Lemma connection_not_basic neg authMsg c mode ch :
  HasPrefix (connectionProxyAuthHeader neg authMsg c mode ch) "Basic " = false.
Proof.
  destruct (HasPrefix _ _) eqn:E; [|done]. exfalso.
  assert (forall scheme msg, HasPrefix (canonicalConnectionAuthScheme scheme +:+ " " +:+ b64_encode msg) "Basic "
    = false) as Hno.
  { intros scheme msg. unfold canonicalConnectionAuthScheme. by destruct (EqualFold scheme "NTLM"). }
  unfold connectionProxyAuthHeader in E. case_if_in E; [done|].
  destruct (CutOr _ _) as [scheme token]. case_if_in E; [done|]. cbv zeta in E. case_if_in E.
  - destruct neg as [msg|]; [|done]. by rewrite Hno in E.
  - destruct (b64_decode _) as [chal|]; [|done].
    match type of E with context [match ?x with Some _ => _ | None => "" end] => destruct x as [chal'|]; [|done] end.
    destruct (authMsg _ _ _) as [msg|]; [|done]. by rewrite Hno in E.
Qed.

(** ** Lemmas: DER *)

Lemma lor_byte a b : 0 <= b < 256 -> Z.lor (Z.shiftl a 8) b = a * 256 + b.
Proof.
  intros Hb. assert (Z.land (Z.shiftl a 8) b = 0) as H0.
  { apply Z.bits_inj'. intros n Hn. rewrite Z.land_spec, Z.bits_0.
    destruct (Z.ltb_spec n 8) as [Hlt|Hge].
    - by rewrite Z.shiftl_spec_low.
    - rewrite <- (Z.mod_small b (2 ^ 8)) by lia. rewrite Z.mod_pow2_bits_high by lia. apply andb_false_r. }
  pose proof (Z.add_lor_land (Z.shiftl a 8) b) as H. rewrite H0 in H.
  rewrite (Z.shiftl_mul_pow2 a 8) in * by lia. change (2 ^ 8) with 256 in *. lia.
Qed.

(** The length field of the contents a token may have. *)
Lemma derLength_small l :
  0 <= l <= maxSPNEGOTokenLen ->
  derLength l = if l <? 128 then [l] else if l <? 256 then [129; l] else [130; l / 256; l mod 256].
Proof.
  unfold maxSPNEGOTokenLen. intros Hl. unfold derLength. destruct (Z.ltb_spec l 128); [done|].
  pose proof (Z.div_mod l 256 ltac:(lia)). pose proof (Z.mod_pos_bound l 256 ltac:(lia)).
  cbn [lengthBytes]. replace (l >? 0) with true by lia. rewrite Z.shiftr_div_pow2 by lia. change (2 ^ 8) with 256.
  destruct (Z.ltb_spec l 256).
  - rewrite (Z.div_small l 256) by lia. cbn. by rewrite Z.mod_small by lia.
  - replace (l / 256 >? 0) with true by lia. rewrite Z.shiftr_div_pow2 by lia. change (2 ^ 8) with 256.
    rewrite (Z.div_small (l / 256) 256) by lia. cbn. by rewrite (Z.mod_small (l / 256) 256) by lia.
Qed.

Lemma derTLV_blen tag content :
  zlen content <= maxSPNEGOTokenLen -> zlen (derTLV tag content) <= zlen content + 4 /\ 2 <= zlen (derTLV tag content).
Proof.
  intros Hl. unfold derTLV. rewrite derLength_small by (pose proof (zlen_nonneg content); lia).
  pose proof (zlen_nonneg content).
  repeat case_if; rewrite ?zlen_cons, ?zlen_app, ?zlen_cons; change (zlen []) with 0; lia.
Qed.

Lemma land128_small l : 0 <= l < 128 -> Z.land l 128 = 0.
Proof.
  intros Hl. assert (forallb (fun l => Z.land l 128 =? 0) (seqZ 0 128) = true) as H by by vm_compute.
  rewrite forallb_forall in H. apply Z.eqb_eq, H, list_elem_of_In, elem_of_seqZ. lia.
Qed.

Lemma readDERTLV_derTLV tag content rest :
  zlen (derTLV tag content ++ rest) <= maxSPNEGOTokenLen ->
  readDERTLV (derTLV tag content ++ rest) = Some (tag, content, rest).
Proof.
  intros Hlen. pose proof (zlen_nonneg rest) as Hr. pose proof (zlen_nonneg content) as Hc.
  assert (zlen content <= maxSPNEGOTokenLen) as Hle.
  { rewrite zlen_app in Hlen. unfold derTLV in Hlen. rewrite zlen_cons, zlen_app in Hlen.
    pose proof (zlen_nonneg (derLength (zlen content))). lia. }
  destruct (derTLV_blen tag content Hle) as [_ H2].
  unfold readDERTLV. replace (_ || _) with false by (rewrite zlen_app in *; lia).
  unfold derTLV. rewrite derLength_small by lia. rewrite <- app_comm_cons.
  destruct (Z.ltb_spec (zlen content) 128) as [L1|L1].
  - cbn [app]. rewrite land128_small by lia. cbn [Z.eqb negb mbind option_bind].
    rewrite zlen_app. replace (zlen content + zlen rest <? zlen content) with false by lia.
    by rewrite take_zlen, drop_zlen.
  - destruct (Z.ltb_spec (zlen content) 256) as [L2|L2]; cbn [app].
    + change (negb (Z.land 129 128 =? 0)) with true. change (Z.land 129 127) with 1. cbv iota zeta.
      change ((1 =? 0) || (2 <? 1)) with false. cbn [orb].
      rewrite zlen_cons, zlen_app. replace (1 + (zlen content + zlen rest) <? 1) with false by lia.
      change (Z.to_nat 1) with 1%nat. cbn [take drop]. rewrite take_0, drop_0. cbn [fold_left].
      rewrite lor_byte by lia.
      cbn [mbind option_bind]. rewrite zlen_app.
      replace (zlen content + zlen rest <? 0 * 256 + zlen content) with false by lia.
      replace (0 * 256 + zlen content) with (zlen content) by lia. by rewrite take_zlen, drop_zlen.
    + change (negb (Z.land 130 128 =? 0)) with true. change (Z.land 130 127) with 2. cbv iota zeta.
      change ((2 =? 0) || (2 <? 2)) with false. cbn [orb].
      rewrite !zlen_cons, zlen_app. replace (1 + (1 + (zlen content + zlen rest)) <? 2) with false by lia.
      change (Z.to_nat 2) with 2%nat. cbn [take drop]. rewrite take_0, drop_0. cbn [fold_left].
      pose proof (Z.div_mod (zlen content) 256 ltac:(lia)). pose proof (Z.mod_pos_bound (zlen content) 256 ltac:(lia)).
      unfold maxSPNEGOTokenLen in Hle.
      rewrite (lor_byte 0) by lia. rewrite lor_byte by lia.
      replace ((0 * 256 + zlen content / 256) * 256 + zlen content mod 256) with (zlen content) by lia.
      cbn [mbind option_bind]. rewrite zlen_app.
      replace (zlen content + zlen rest <? zlen content) with false by lia. by rewrite take_zlen, drop_zlen.
Qed.

Lemma readDERTLV_whole tag content :
  zlen (derTLV tag content) <= maxSPNEGOTokenLen -> readDERTLV (derTLV tag content) = Some (tag, content, []).
Proof.
  intros H. pose proof (readDERTLV_derTLV tag content []) as Hr. rewrite app_nil_r in Hr. by apply Hr.
Qed.

Lemma derTLV_ge tag content : zlen content <= zlen (derTLV tag content).
Proof.
  unfold derTLV. rewrite zlen_cons, zlen_app. pose proof (zlen_nonneg (derLength (zlen content))). lia.
Qed.

Lemma isNTLMSSP_derTLV tag content : tag <> 78 -> isNTLMSSP (derTLV tag content) = false.
Proof.
  intros Ht. unfold isNTLMSSP, derTLV. apply andb_false_intro2, bool_decide_eq_false.
  cbn [take]. by intros [= ? _].
Qed.

(** A field list whose last field is the token. *)
Lemma find_last fuel t :
  isNTLMSSP t = true -> zlen (derTLV 162 (derTLV 4 t)) <= maxSPNEGOTokenLen ->
  findSPNEGONTLMToken (S fuel) (derTLV 162 (derTLV 4 t)) = Some t.
Proof.
  intros Ht Hlen. cbn [findSPNEGONTLMToken].
  pose proof (derTLV_ge 162 (derTLV 4 t)).
  destruct (derTLV 162 (derTLV 4 t)) as [|x l] eqn:E; [done|]. rewrite <- E in *.
  rewrite readDERTLV_whole by done. cbn [mbind option_bind Z.eqb Pos.eqb negb].
  rewrite readDERTLV_whole by lia. cbn [mbind option_bind Z.eqb Pos.eqb negb orb].
  by rewrite Ht.
Qed.

Lemma find_skip fuel tag content rest :
  tag <> 162 -> zlen (derTLV tag content ++ rest) <= maxSPNEGOTokenLen ->
  findSPNEGONTLMToken (S fuel) (derTLV tag content ++ rest) = findSPNEGONTLMToken fuel rest.
Proof.
  intros Ht Hlen. cbn [findSPNEGONTLMToken].
  destruct (derTLV tag content ++ rest) as [|x l] eqn:E; [done|]. rewrite <- E in *.
  rewrite readDERTLV_derTLV by done. cbn [mbind option_bind].
  by apply Z.eqb_neq in Ht as ->.
Qed.

(** The sequence inside one of the two choices. *)
Lemma choice_fields tag fields :
  tag = 160 \/ tag = 161 -> zlen (derTLV tag (derTLV 48 fields)) <= maxSPNEGOTokenLen ->
  ('(tag, content, rest) ← readDERTLV (derTLV tag (derTLV 48 fields));
    if negb (zlen rest =? 0) || (negb (tag =? 160) && negb (tag =? 161)) then None
    else
      '(seqTag, seqContent, seqRest) ← readDERTLV content;
      if negb (seqTag =? 48) || negb (zlen seqRest =? 0) then None
      else findSPNEGONTLMToken (length seqContent) seqContent)
  = findSPNEGONTLMToken (length fields) fields.
Proof.
  intros Ht Hlen. pose proof (derTLV_ge tag (derTLV 48 fields)).
  rewrite readDERTLV_whole by done. cbn [mbind option_bind].
  assert (negb (zlen [] =? 0) || (negb (tag =? 160) && negb (tag =? 161)) = false) as ->
    by (by destruct Ht as [->| ->]).
  rewrite readDERTLV_whole by lia. done.
Qed.

Lemma length_derTLV tag content : (2 <= length (derTLV tag content))%nat.
Proof.
  unfold derTLV. cbn [length]. rewrite length_app. unfold derLength.
  destruct (zlen content <? 128); cbv zeta; cbn [length]; lia.
Qed.

(** ** Properties *)

(** the SPNEGO wrapping is a round trip: an NTLM token wrapped as a first or
    as a further negotiation message is found again by unwrapping, when the
    message is within the size the reader accepts. *)
Theorem spnego_roundtrip t :
  isNTLMSSP t = true ->
  (zlen (spnegoNegTokenInit t) <= maxSPNEGOTokenLen ->
     unwrapSPNEGONTLMToken (spnegoNegTokenInit t) = Some t) /\
  (zlen (spnegoNegTokenResp t) <= maxSPNEGOTokenLen ->
     unwrapSPNEGONTLMToken (spnegoNegTokenResp t) = Some t).
Proof.
  intros Ht. split; intros Hlen; unfold unwrapSPNEGONTLMToken.
  - unfold spnegoNegTokenInit in *. cbv zeta in *.
    set (mechList := derTLV 160 (derTLV 48 (derTLV 6 ntlmOIDValue))) in *.
    set (fields := mechList ++ derTLV 162 (derTLV 4 t)) in *.
    set (inner := derTLV 160 (derTLV 48 fields)) in *.
    pose proof (derTLV_ge 96 (derTLV 6 spnegoOIDValue ++ inner)).
    assert (zlen inner <= maxSPNEGOTokenLen) as Hi
      by (rewrite zlen_app in *; pose proof (zlen_nonneg (derTLV 6 spnegoOIDValue)); lia).
    assert (zlen fields <= maxSPNEGOTokenLen) as Hf.
    { pose proof (derTLV_ge 160 (derTLV 48 fields)). pose proof (derTLV_ge 48 fields). unfold inner in Hi. lia. }
    rewrite isNTLMSSP_derTLV by done.
    assert (innerToken (derTLV 96 (derTLV 6 spnegoOIDValue ++ inner)) = Some inner) as ->.
    { unfold innerToken. rewrite readDERTLV_whole by done. change ((96 =? 96) && (zlen [] =? 0)) with true.
      cbv iota. rewrite readDERTLV_derTLV by lia. cbn [mbind option_bind].
      by rewrite bool_decide_eq_true_2. }
    change (Some inner ≫= ?k) with (k inner). unfold inner. rewrite choice_fields by auto.
    pose proof (length_derTLV 162 (derTLV 4 t)) as Hl2.
    assert (exists n, length fields = S (S n)) as [n ->].
    { unfold fields. rewrite length_app. destruct (length (derTLV 162 _)) as [|[|m]]; [lia|lia|].
      exists (length mechList + m)%nat. lia. }
    unfold fields, mechList in *. rewrite find_skip by done. apply find_last; [done|].
    rewrite zlen_app in Hf. pose proof (zlen_nonneg (derTLV 160 (derTLV 48 (derTLV 6 ntlmOIDValue)))). lia.
  - unfold spnegoNegTokenResp in *. cbv zeta in *.
    set (st := derTLV 160 (derTLV 10 [1])) in *.
    set (mech := derTLV 161 (derTLV 6 ntlmOIDValue)) in *.
    rewrite <- app_assoc in *.
    set (fields := st ++ mech ++ derTLV 162 (derTLV 4 t)) in *.
    assert (zlen fields <= maxSPNEGOTokenLen) as Hf.
    { pose proof (derTLV_ge 161 (derTLV 48 fields)). pose proof (derTLV_ge 48 fields). lia. }
    rewrite isNTLMSSP_derTLV by done.
    assert (innerToken (derTLV 161 (derTLV 48 fields)) = Some (derTLV 161 (derTLV 48 fields))) as ->.
    { unfold innerToken. by rewrite readDERTLV_whole. }
    cbn [mbind option_bind]. rewrite choice_fields by auto.
    pose proof (length_derTLV 162 (derTLV 4 t)) as Hl2. pose proof (length_derTLV 160 (derTLV 10 [1])) as Hl3.
    fold st in Hl3. assert (exists n, length fields = S (S (S n))) as [n ->].
    { unfold fields. rewrite !length_app. destruct (length st) as [|[|k]]; [lia|lia|].
      destruct (length (derTLV 162 (derTLV 4 t))) as [|j]; [lia|]. exists (k + length mech + j)%nat. lia. }
    pose proof (zlen_nonneg st). pose proof (zlen_nonneg mech).
    unfold fields, st in *. rewrite find_skip by done. rewrite !zlen_app in Hf.
    unfold mech in *. rewrite find_skip by (rewrite ?zlen_app; lia). apply find_last; [done|lia].
Qed.

(** the password is sent in the clear only by policy: a Basic header is
    built only when the server offers the Basic scheme, the setting allows it,
    and the server offers none of the modes the setting puts before it. *)
Theorem basic_only_by_policy md5 neg authMsg c method uri challenges nc cnonce :
  validateUpstreamAuth (Auth c) = true ->
  HasPrefix (UpstreamProxyAuthHeader md5 neg authMsg c method uri challenges nc cnonce) "Basic " = true ->
  "BASIC" ∈ offered challenges /\
  exists pre post, upstreamAuthModes (effectiveUpstreamAuth c) = pre ++ "BASIC" :: post /\
    forall m, m ∈ pre -> m ∉ offered challenges.
Proof.
  intros Hv. pose proof (modes_known _ (effective_valid c Hv)) as Hknown.
  unfold UpstreamProxyAuthHeader, upstreamProxyAuthHeader. cbv zeta.
  set (ch := if (length challenges =? 0)%nat then "" else _).
  case_if; [done|]. case_if; [done|]. case_if; [done|]. case_if; [by rewrite digest_not_basic|].
  case_if; [by rewrite connection_not_basic|]. intros _.
  assert (ch <> "") as Hne by (intros ->; done).
  assert (selectFrom (upstreamAuthModes (effectiveUpstreamAuth c)) challenges = ch) as Hsel.
  { unfold ch in *. by destruct (length challenges =? 0)%nat. }
  apply selectFrom_spec in Hsel as (pre & m & post & Hm & Hf & Hpre); [|done].
  apply find_Some in Hf as [Hin Hup]; [|done].
  assert (ToUpper (authSchemeFromChallenge ch) = authSchemeFromChallenge ch) as Hu
    by (unfold authSchemeFromChallenge; apply ToUpper_idem).
  assert (m ∈ anyModes) as Hmin by (apply Hknown; rewrite Hm; set_solver).
  assert (ToUpper m = m) as Hmu.
  { unfold anyModes in Hmin. rewrite !elem_of_cons, elem_of_nil in Hmin.
    by destruct Hmin as [->|[->|[->|[->|[]]]]]. }
  assert (authSchemeFromChallenge ch = m) as Hscheme by congruence. rewrite Hscheme in *.
  assert (m = "BASIC") as ->.
  { unfold anyModes in Hmin. rewrite !elem_of_cons, elem_of_nil in Hmin.
    by destruct Hmin as [->|[->|[->|[->|[]]]]]. }
  split; [done|]. by exists pre, post.
Qed.

(** ** Witnesses and examples *)

Definition wit_ntlm : bytes := [78; 84; 76; 77; 83; 83; 80; 0; 1; 0; 0; 0] ++ replicate 300 7.

Lemma spnego_roundtrip_witness :
  unwrapSPNEGONTLMToken (spnegoNegTokenInit wit_ntlm) = Some wit_ntlm /\
  unwrapSPNEGONTLMToken (spnegoNegTokenResp wit_ntlm) = Some wit_ntlm.
Proof.
  destruct (spnego_roundtrip wit_ntlm ltac:(by vm_compute)) as [H1 H2].
  split; [apply H1|apply H2]; apply Z.leb_le; vm_compute; reflexivity.
Defined.

Definition wit_creds : Credentials := mkCreds "NODIGEST" "user" "pass".
Definition wit_challenges : list string := ["Digest realm=x, Basic realm=y"].

Lemma basic_only_by_policy_witness :
  UpstreamProxyAuthHeader (fun s => s) None (fun _ _ _ => None) wit_creds "GET" "/" wit_challenges "" ""
    = "Basic dXNlcjpwYXNz" /\
  "BASIC" ∈ offered wit_challenges.
Proof.
  split; [by vm_compute|].
  apply (basic_only_by_policy (fun s => s) None (fun _ _ _ => None) wit_creds "GET" "/" wit_challenges "" "");
    by vm_compute.
Defined.

Example modes1 : upstreamAuthModes " safenontlm " = ["NEGOTIATE"; "DIGEST"]. Proof. reflexivity. Qed.
Example modes2 : upstreamAuthModes "ONLYBASIC" = ["BASIC"]. Proof. reflexivity. Qed.
Example mech1 :
  classifyUpstreamAuthMechanism ("Negotiate " +:+ b64_encode (spnegoNegTokenInit wit_ntlm)) = "NTLM".
Proof. vm_compute. reflexivity. Qed.

End Ua.
