(* ===== verification/Update.v ===== *)
(** * Update: release versions, discovery and update ownership
    ([internal/update/update.go], [internal/update/policy.go])

    Which versions are accepted and how they are ordered, which release a check
    offers, the digests and URLs a download must have, and which package manager
    owns an executable.  The HTTP answers of the release service, the
    environment and SHA-256 are parameters. *)

From S2P Require Export Prelude GoStrings GoText Url.

Module Upd.

Inductive UErr :=
| EVersion | ERepository | EChannel | ENonStable | ENoRelease | EFetch
| ERunner | EDirect | EProvider | ECommand | EMode | ENoExecutable | EConflict | EHintConflict | EAmbiguous
| ENilReader | EDigestKind | EDigestLength | EDigestText | EDigestMismatch
| EAssetName | EDuplicateChecksum | EChecksumLength | EChecksumText | EReadChecksums | ENoChecksum
| EURL | EURLHost | EURLPath.
#[global] Instance UErr_eq_dec : EqDecision UErr.
Proof. solve_decision. Defined.

(** ** Versions *)

(** [len(p) > 1 && p[0] == '0'] *)
Definition leading_zero (s : string) : bool :=
  (1 <? slen s) && match s with String c _ => Ascii.eqb c "0" | "" => false end.

Definition validSemverIdentifier (value : string) : bool :=
  str_forall (fun r => is_lower r || is_upper r || is_digit r || Ascii.eqb r "-") value.

Definition isNumeric (value : string) : bool :=
  negb (String.eqb value "") && str_forall is_digit value.

Definition corePart (p : string) : bool :=
  negb (String.eqb p "") && negb (leading_zero p) && is_ok (ParseUint p).

Definition prereleasePart (identifier : string) : bool :=
  negb (String.eqb identifier "") && validSemverIdentifier identifier &&
  negb (isNumeric identifier && leading_zero identifier).

Definition normalizeVersion (value : string) : result UErr string :=
  let v := TrimPrefix (TrimSpace value) "v" in
  if String.eqb v "" then Err EVersion
  else
    let withoutBuild := (CutOr v "+").1 in
    let '(core, prerelease) := CutOr withoutBuild "-" in
    let parts := Split core "." in
    if negb (length parts =? 3)%nat then Err EVersion
    else if negb (forallb corePart parts) then Err EVersion
    else if ContainsChar withoutBuild "-" then
      if String.eqb prerelease "" then Err EVersion
      else if forallb prereleasePart (Split prerelease ".") then Ok withoutBuild else Err EVersion
    else Ok withoutBuild.

Record semanticVersion := mkVersion { core : list Z; prerelease : list string }.

Definition parseSemanticVersion (value : string) : result UErr semanticVersion :=
  normalized ← normalizeVersion value;
  match Cut normalized "-" with
  | Some (c, p) => Ok (mkVersion (map ParseUintVal (Split c ".")) (Split p "."))
  | None => Ok (mkVersion (map ParseUintVal (Split normalized ".")) [])
  end.

(** The loop over the three core numbers; [None] when they are all equal. *)
Fixpoint compareCore (a b : list Z) : option Z :=
  match a, b with
  | x :: a', y :: b' => if x <? y then Some (-1) else if y <? x then Some 1 else compareCore a' b'
  | _, _ => None
  end.

Definition compareIdentifier (x y : string) : Z :=
  match isNumeric x, isNumeric y with
  | true, true => if ParseUintVal x <? ParseUintVal y then -1 else 1
  | true, false => -1
  | false, true => 1
  | false, false => if str_ltb x y then -1 else 1
  end.

(** The loop over the prerelease identifiers, then the comparison of lengths. *)
Fixpoint comparePrerelease (a b : list string) : Z :=
  match a, b with
  | [], [] => 0
  | [], _ :: _ => -1
  | _ :: _, [] => 1
  | x :: a', y :: b' => if String.eqb x y then comparePrerelease a' b' else compareIdentifier x y
  end.

Definition CompareVersions (a b : string) : Z :=
  match parseSemanticVersion a, parseSemanticVersion b with
  | Ok av, Ok bv =>
      match compareCore (core av) (core bv) with
      | Some r => r
      | None =>
          match prerelease av, prerelease bv with
          | [], [] => 0
          | [], _ => 1
          | _, [] => -1
          | p, q => comparePrerelease p q
          end
      end
  | _, _ => 0
  end.

(** ** Release discovery *)

Record Asset := mkAsset { aName : string; aURL : string; aDigest : string }.
Record Release := mkRelease { rVersion : string; rTag : string; rPrerelease : bool; rAssets : list Asset }.
Record githubRelease := mkGithub { TagName : string; Draft : bool; gPrerelease : bool; gAssets : list Asset }.
Record CheckResult := mkCheck { Current : string; Latest : string; Available : bool; cRelease : Release }.
Record Checker := mkChecker { APIBase : string; Repository : string; Channel : string }.

Definition Stable : string := "stable".
Definition PrereleaseChannel : string := "prerelease".
Definition DefaultRepository : string := "khanhkit/pxgo".
Definition defaultAPIBase : string := "https://api.github.com".
Definition productName : string := "pxgo".
Definition windowsExecutableName : string := "pxgo.exe".
Definition goosWindows : string := "windows".

Definition validRepository (repo : string) : bool :=
  match Split repo "/" with
  | [a; b] => negb (String.eqb a "") && negb (String.eqb b "") && negb (ContainsAny repo "?#\")
  | _ => false
  end.

(** One turn of the search for the greatest release. *)
Definition bestStep (best : option (githubRelease * string)) (candidate : githubRelease)
  : option (githubRelease * string) :=
  if Draft candidate then best
  else match normalizeVersion (TagName candidate) with
       | Err _ => best
       | Ok v =>
           match best with
           | Some (_, bestVersion) =>
               if 0 <? CompareVersions v bestVersion then Some (candidate, v) else best
           | None => Some (candidate, v)
           end
       end.

(** [getJSON]'s two uses: the latest release and the list of releases of an
    endpoint. *)
Record ReleaseService := mkService {
  getLatest : string -> result UErr githubRelease;
  getReleases : string -> result UErr (list githubRelease) }.

Definition Check_ (svc : ReleaseService) (c : Checker) (current : string) : result UErr CheckResult :=
  let base := TrimRight (APIBase c) "/" in
  let base := if String.eqb base "" then defaultAPIBase else base in
  let repo := if String.eqb (Repository c) "" then DefaultRepository else Repository c in
  if negb (validRepository repo) then Err ERepository
  else
    let channel := if String.eqb (Channel c) "" then Stable else Channel c in
    if negb (String.eqb channel Stable) && negb (String.eqb channel PrereleaseChannel) then Err EChannel
    else
      let endpoint := base +:+ "/repos/" +:+ repo +:+ "/releases" in
      rel ← (if String.eqb channel Stable then
               rel ← getLatest svc (endpoint +:+ "/latest");
               if Draft rel || gPrerelease rel then Err ENonStable else Ok rel
             else
               releases ← getReleases svc endpoint;
               match fold_left bestStep releases None with
               | Some (rel, _) => Ok rel
               | None => Err ENoRelease
               end);
      latest ← normalizeVersion (TagName rel);
      currentVersion ← normalizeVersion current;
      Ok (mkCheck currentVersion latest (0 <? CompareVersions latest currentVersion)
            (mkRelease latest (TagName rel) (gPrerelease rel) (gAssets rel))).

(** ** Managed upgrades and downloads *)

Definition ProviderDirect : string := "direct".
Definition ProviderWinGet : string := "winget".
Definition ProviderScoop : string := "scoop".
Definition ProviderBrew : string := "homebrew".
Definition ProviderAuto : string := "auto".

(** The fixed command of a package manager. *)
Definition upgradeCommand (provider : string) : result UErr (string * list string) :=
  if String.eqb provider ProviderWinGet then
    Ok (ProviderWinGet, ["upgrade"; "--id"; "KhanhKit.PxGo"; "--exact"; "--disable-interactivity";
                         "--accept-source-agreements"; "--accept-package-agreements"])
  else if String.eqb provider ProviderScoop then Ok (ProviderScoop, ["update"; productName])
  else if String.eqb provider ProviderBrew then Ok ("brew", ["upgrade"; productName])
  else if String.eqb provider ProviderDirect then Err EDirect
  else Err EProvider.

(** [run] tells whether the command succeeded. *)
Definition Upgrade (run : string -> list string -> bool) (provider : string) : option UErr :=
  match upgradeCommand provider with
  | Err e => Some e
  | Ok (name, args) => if run name args then None else Some ECommand
  end.

Definition AssetName (goos goarch : string) : string :=
  "pxgo_" +:+ goos +:+ "_" +:+ goarch +:+ "." +:+
  (if String.eqb goos goosWindows then "zip" else "tar.gz").

(** [content] is what reading the candidate gives, [None] for a read error. *)
Definition VerifySHA256 (sha256 : string -> list Z) (content : option string) (digest : string)
  : option UErr :=
  if negb (HasPrefix (ToLower digest) "sha256:") then Some EDigestKind
  else
    let want := TrimSpace (str_drop (String.length "sha256:") digest) in
    if negb (slen want =? 64) then Some EDigestLength
    else if negb (hexDecodes want) then Some EDigestText
    else match content with
         | None => Some EFetch
         | Some data => if EqualFold (hexEncode (sha256 data)) want then None else Some EDigestMismatch
         end.

(** One line of the checksum file; the state is the match so far, [""] for none. *)
Definition checksumLine (assetName match_ line : string) : result UErr string :=
  match Fields line with
  | [sum; name] =>
      if negb (String.eqb (TrimPrefix name "*") assetName) then Ok match_
      else if negb (String.eqb match_ "") then Err EDuplicateChecksum
      else if negb (slen sum =? 64) then Err EChecksumLength
      else if negb (hexDecodes sum) then Err EChecksumText
      else Ok (ToLower sum)
  | _ => Ok match_
  end.

Definition ChecksumForAsset (checksums assetName : string) : result UErr string :=
  if String.eqb (TrimSpace assetName) "" || ContainsAny assetName "/\" then Err EAssetName
  else
    let '(lines, tooLong) := scanLines maxScanTokenSize checksums in
    match_ ← foldM (checksumLine assetName) lines "";
    if tooLong then Err EReadChecksums
    else if String.eqb match_ "" then Err ENoChecksum else Ok match_.

Definition releasePath : string := "/khanhkit/pxgo/releases/download/".

Definition ValidateAssetURL (raw : string) : option UErr :=
  match urlParse raw with
  | None => Some EURL
  | Some u =>
      if negb (String.eqb (Scheme u) "https") || negb (EqualFold (Hostname u) "github.com") then Some EURLHost
      else if negb (HasPrefix (EscapedPath u) releasePath) then Some EURLPath else None
  end.

(** ** Policy values *)

Definition parseMode (known : list string) (dflt : string) (err : UErr) (value : string) : result UErr string :=
  let mode := ToLower (TrimSpace value) in
  let mode := if String.eqb mode "" then dflt else mode in
  if existsb (String.eqb mode) known then Ok mode else Err err.

Definition ParseAutoMode : string -> result UErr string := parseMode ["off"; "notify"; "install"] "off" EMode.
Definition ParseChannel : string -> result UErr string := parseMode [Stable; PrereleaseChannel] Stable EChannel.
Definition ParseProvider : string -> result UErr string :=
  parseMode [ProviderAuto; ProviderDirect; ProviderWinGet; ProviderScoop; ProviderBrew] ProviderAuto EProvider.

(** ** Ownership of an executable *)

Section Ownership.

(** [os.Getenv], and [filepath.EvalSymlinks] ([None]: an error or an empty path). *)
Context (getenv : string -> string) (evalSymlinks : string -> option string).

Definition managedPath (value : string) (caseInsensitive : bool) : string :=
  let cleaned := pathClean (ReplaceChar (TrimSpace value) "\" "/") in
  if caseInsensitive then ToLower cleaned else cleaned.

Definition managedEnvRoot (key : string) (caseInsensitive : bool) : string :=
  let value := TrimSpace (getenv key) in
  if String.eqb value "" then ""
  else managedPath (default value (evalSymlinks value)) caseInsensitive.

Definition underManagedRoot (full root : string) : option string :=
  if String.eqb root "" then None else CutPrefix full (root +:+ "/").

(** [^[a-z]:$] *)
Definition drive (s : string) : bool :=
  match s with String c (String d "") => is_lower c && Ascii.eqb d ":" | _ => false end.
Definition nonempty (s : string) : bool := negb (String.eqb s "").

Definition scoopDefaultRoot (root : string) : bool :=
  match Split root "/" with
  | [d; a; b] => drive d && String.eqb a "programdata" && String.eqb b "scoop"
  | [d; a; u; b] => drive d && String.eqb a "users" && nonempty u && String.eqb b "scoop"
  | _ => false
  end.

(** The four WinGet roots differ in their last element. *)
Definition wingetUser (last root : string) : bool :=
  match Split root "/" with
  | [d; a; u; b; c; e; f; l] =>
      drive d && String.eqb a "users" && nonempty u && String.eqb b "appdata" && String.eqb c "local" &&
      String.eqb e "microsoft" && String.eqb f "winget" && String.eqb l last
  | _ => false
  end.
Definition wingetMachine (last root : string) : bool :=
  match Split root "/" with
  | [d; a; f; l] =>
      drive d && (String.eqb a "program files" || String.eqb a "program files (x86)") &&
      String.eqb f "winget" && String.eqb l last
  | _ => false
  end.

Definition isKnownScoopRoot (root : string) : bool :=
  scoopDefaultRoot root ||
  (nonempty root && (String.eqb root (managedEnvRoot "SCOOP" true) ||
                     String.eqb root (managedEnvRoot "SCOOP_GLOBAL" true))).

Definition isScoopOwned (full : string) : bool :=
  match CutLastStr full "/apps/pxgo/" with
  | None => false
  | Some (root, rest) =>
      isKnownScoopRoot root &&
      match Split rest "/" with [v; e] => nonempty v && String.eqb e windowsExecutableName | _ => false end
  end.

Definition wingetPackageDir (packageDir : string) : bool :=
  String.eqb packageDir "khanhkit.pxgo" ||
  (HasPrefix packageDir "khanhkit.pxgo_" && (slen "khanhkit.pxgo_" <? slen packageDir)).

Definition validWingetPackagePath (relative : string) : bool :=
  match Split relative "/" with
  | [p; e] | [p; _; e] => String.eqb e windowsExecutableName && wingetPackageDir p
  | _ => false
  end.

Definition wingetRoots : list string :=
  [managedEnvRoot "LOCALAPPDATA" true +:+ "/microsoft/winget/packages";
   managedEnvRoot "PROGRAMFILES" true +:+ "/winget/packages";
   managedEnvRoot "PROGRAMFILES(X86)" true +:+ "/winget/packages"].

Definition isWingetOwned (full : string) : bool :=
  existsb (fun root =>
    negb (String.eqb root "/microsoft/winget/packages" || String.eqb root "/winget/packages") &&
    match underManagedRoot full root with Some r => validWingetPackagePath r | None => false end) wingetRoots ||
  match CutLastStr full "/packages/" with
  | None => false
  | Some (pre, rest) =>
      let root := pre +:+ "/packages" in
      (wingetUser "packages" root || wingetMachine "packages" root) && validWingetPackagePath rest
  end.

Definition brewRoots : list string :=
  ["/opt/homebrew"; "/usr/local"; "/home/linuxbrew/.linuxbrew"] ++
  (let root := managedEnvRoot "HOMEBREW_PREFIX" false in if nonempty root then [root] else []) ++
  (let root := managedEnvRoot "HOMEBREW_CELLAR" false in
   if nonempty root && HasSuffix root "/Cellar" then [TrimSuffix root "/Cellar"] else []).

Definition isBrewOwned (full : string) : bool :=
  existsb (fun root =>
    match underManagedRoot full (root +:+ "/Cellar/pxgo") with
    | None => false
    | Some relative =>
        match Split relative "/" with
        | [v; b; e] => nonempty v && String.eqb b "bin" && String.eqb e productName
        | _ => false
        end
    end) brewRoots.

Definition is_unix (goos : string) : bool := String.eqb goos "darwin" || String.eqb goos "linux".

Definition detectManagedProvider (executable goos : string) : option string :=
  let full := managedPath executable (EqualFold goos goosWindows) in
  let goos := ToLower (TrimSpace goos) in
  if String.eqb goos goosWindows then
    if isScoopOwned full then Some ProviderScoop
    else if isWingetOwned full then Some ProviderWinGet else None
  else if is_unix goos then if isBrewOwned full then Some ProviderBrew else None
  else None.

(** [(?i)/cellar/pxgo/[^/]+/bin/pxgo$] on the elements of a path, last first. *)
Definition brewManagedExecutableHint (full : string) : bool :=
  match rev (Split (ToLower full) "/") with
  | e :: b :: v :: p :: c :: _ :: _ =>
      String.eqb e "pxgo" && String.eqb b "bin" && nonempty v && String.eqb p "pxgo" && String.eqb c "cellar"
  | _ => false
  end.

Definition brewDefaultRootHint (full : string) : bool :=
  existsb (fun root =>
    match CutPrefix (ToLower full) (root +:+ "/cellar/") with
    | None => false
    | Some r =>
        match Split r "/" with
        | [f; v; b; e] => nonempty f && nonempty v && String.eqb b "bin" && String.eqb e "pxgo"
        | _ => false
        end
    end) ["/opt/homebrew"; "/usr/local"; "/home/linuxbrew/.linuxbrew"].

Definition scoopHint (full : string) : bool :=
  match CutLastStr full "/scoop/apps/" with
  | Some (pre, item) => HasPrefix item "pxgo/" || isKnownScoopRoot (pre +:+ "/scoop")
  | None => false
  end ||
  (HasSuffix full "/shims/pxgo.exe" && isKnownScoopRoot (TrimSuffix full "/shims/pxgo.exe")).

Definition wingetHint (full : string) : bool :=
  match CutLastStr full "/winget/packages/" with
  | Some (pre, item) =>
      let root := pre +:+ "/winget/packages" in
      wingetPackageDir (CutOr item "/").1 || wingetUser "packages" root || wingetMachine "packages" root
  | None => false
  end ||
  (HasSuffix full "/links/pxgo.exe" &&
   let root := TrimSuffix full "/pxgo.exe" in
   wingetUser "links" root || wingetMachine "links" root ||
   String.eqb root (managedEnvRoot "LOCALAPPDATA" true +:+ "/microsoft/winget/links") ||
   String.eqb root (managedEnvRoot "PROGRAMFILES" true +:+ "/winget/links") ||
   String.eqb root (managedEnvRoot "PROGRAMFILES(X86)" true +:+ "/winget/links")).

Definition brewHint (full : string) : bool :=
  brewManagedExecutableHint full || brewDefaultRootHint full ||
  existsb (fun root =>
    nonempty root && HasPrefix full (root +:+ "/Cellar/") && HasSuffix full "/bin/pxgo")
    [managedEnvRoot "HOMEBREW_PREFIX" false; TrimSuffix (managedEnvRoot "HOMEBREW_CELLAR" false) "/Cellar"].

Definition detectManagedProviderHint (executable goos : string) : option string :=
  let full := managedPath executable (EqualFold goos goosWindows) in
  let goos := ToLower (TrimSpace goos) in
  if String.eqb goos goosWindows then
    if scoopHint full then Some ProviderScoop
    else if wingetHint full then Some ProviderWinGet else None
  else if is_unix goos then if brewHint full then Some ProviderBrew else None
  else None.

Definition ResolveProvider (configured executable goos : string) : result UErr string :=
  let configured := if String.eqb configured "" then ProviderAuto else configured in
  match ParseProvider configured with
  | Err e => Err e
  | Ok _ =>
      if String.eqb (TrimSpace executable) "" then Err ENoExecutable
      else
        let owned := detectManagedProvider executable goos in
        let hint := detectManagedProviderHint executable goos in
        if negb (String.eqb configured ProviderAuto) then
          match owned with
          | Some detected => if String.eqb configured detected then Ok configured else Err EConflict
          | None =>
              match hint with
              | Some hinted => if String.eqb configured hinted then Ok configured else Err EHintConflict
              | None => Ok configured
              end
          end
        else match owned with
             | Some detected => Ok detected
             | None => match hint with Some _ => Err EAmbiguous | None => Ok ProviderDirect end
             end
  end.

End Ownership.

(** ** The precedence of semantic versions, as the standard states it

    Core numbers first; a version with a prerelease precedes the one without;
    identifiers in order, numbers before words, numbers by value, words by
    their bytes; a shorter list precedes a longer one it begins. *)

Definition numeric_value (x : string) (v : Z) : Prop := isNumeric x = true /\ digits_val 0 x = Some v.

Inductive ident_lt : string -> string -> Prop :=
| ident_numbers x y vx vy : numeric_value x vx -> numeric_value y vy -> vx < vy -> ident_lt x y
| ident_number_word x y : isNumeric x = true -> isNumeric y = false -> ident_lt x y
| ident_words x y : isNumeric x = false -> isNumeric y = false -> str_ltb x y = true -> ident_lt x y.

Inductive list_lt {A} (lt : A -> A -> Prop) : list A -> list A -> Prop :=
| list_lt_nil y ys : list_lt lt [] (y :: ys)
| list_lt_head x y xs ys : lt x y -> list_lt lt (x :: xs) (y :: ys)
| list_lt_tail x xs ys : list_lt lt xs ys -> list_lt lt (x :: xs) (x :: ys).

Inductive semver_lt : semanticVersion -> semanticVersion -> Prop :=
| semver_core v w : list_lt Z.lt (core v) (core w) -> semver_lt v w
| semver_release v w : core v = core w -> prerelease v <> [] -> prerelease w = [] -> semver_lt v w
| semver_prerelease v w : core v = core w -> prerelease v <> [] -> prerelease w <> [] ->
    list_lt ident_lt (prerelease v) (prerelease w) -> semver_lt v w.

(** Numeric prerelease identifiers that fit a machine word. *)
Definition fits (v : semanticVersion) : Prop :=
  Forall (fun x => isNumeric x = true -> is_ok (ParseUint x) = true) (prerelease v).

(** ** Lemmas: identifiers *)

Definition ident_ok (x : string) : Prop :=
  prereleasePart x = true /\ (isNumeric x = true -> is_ok (ParseUint x) = true).

Lemma ParseUint_digits s v : ParseUint s = Ok v -> digits_val 0 s = Some v /\ ParseUintVal s = v.
Proof.
  intros H. split; [|by unfold ParseUintVal; rewrite H].
  unfold ParseUint in H. destruct s; [done|]. destruct (digits_val _ _); [|done]. case_if_in H; congruence.
Qed.

Lemma is_ok_inv {E A} (r : result E A) : is_ok r = true -> exists a, r = Ok a.
Proof. destruct r; [by eauto|done]. Qed.

(** Digits without a leading zero are determined by their value. *)
Lemma canonical_shorter s t v :
  s <> "" -> slen s < slen t -> leading_zero t = false ->
  digits_val 0 s = Some v -> digits_val 0 t <> Some v.
Proof.
  intros Hne Hl Hz Hs Ht. apply digits_val_bounds in Hs as [_ Hs]; [|lia].
  destruct t as [|c t]; [unfold slen in Hl; simpl in Hl; lia|].
  pose proof (slen_nonneg s). assert (slen (String c t) = slen t + 1) as E by (unfold slen; cbn [String.length]; lia).
  simpl in Ht. destruct (is_digit c) eqn:Ed; [|done]. apply digit_val_range in Ed.
  assert (digit_val c <> 0) as H0.
  { intros H0. assert (c = "0"%char) as -> by (apply digit_val_inj; by rewrite H0).
    unfold leading_zero in Hz. change (Ascii.eqb "0" "0") with true in Hz. rewrite andb_true_r in Hz. apply Z.ltb_ge in Hz.
    destruct s; [done|]. unfold slen in *. cbn [String.length] in *. lia. }
  apply digits_val_bounds in Ht as [Ht _]; [|lia].
  pose proof (Z.pow_le_mono_r 10 (slen s) (slen t)). pose proof (Z.pow_pos_nonneg 10 (slen t)).
  unfold slen in *. nia.
Qed.

Lemma canonical_inj s t v :
  s <> "" -> t <> "" -> leading_zero s = false -> leading_zero t = false ->
  digits_val 0 s = Some v -> digits_val 0 t = Some v -> s = t.
Proof.
  intros Ns Nt Zs Zt Hs Ht. destruct (Z.lt_trichotomy (slen s) (slen t)) as [H|[H|H]].
  - by destruct (canonical_shorter s t v Ns H Zt Hs).
  - by destruct (digits_val_inj s t 0 0 v).
  - by destruct (canonical_shorter t s v Nt H Zs Ht).
Qed.

Lemma corePart_val p : corePart p = true ->
  p <> "" /\ leading_zero p = false /\ digits_val 0 p = Some (ParseUintVal p).
Proof.
  unfold corePart. intros H. to_prop. apply is_ok_inv in H0 as [v H0].
  apply ParseUint_digits in H0 as [? <-]. done.
Qed.

Lemma ident_numeric x : ident_ok x -> isNumeric x = true ->
  leading_zero x = false /\ numeric_value x (ParseUintVal x).
Proof.
  intros [Hp Hf] Hn. destruct (is_ok_inv _ (Hf Hn)) as [v Hv]. apply ParseUint_digits in Hv as [Hv <-].
  unfold prereleasePart in Hp. rewrite Hn, andb_true_l in Hp. to_prop. by split.
Qed.

Lemma numeric_value_nonempty x v : numeric_value x v -> x <> "".
Proof. by intros [H _] ->. Qed.

Lemma numeric_value_det x v w : numeric_value x v -> numeric_value x w -> v = w.
Proof. intros [_ ?] [_ ?]. congruence. Qed.

Lemma ident_lt_irrefl x : ~ ident_lt x x.
Proof.
  intros H. inversion H; subst; [|congruence|by rewrite str_ltb_irrefl in *].
  assert (vx = vy) by (by eapply numeric_value_det). lia.
Qed.

Lemma ident_lt_trans x y z : ident_lt x y -> ident_lt y z -> ident_lt x z.
Proof.
  intros H1 H2. inversion H1; subst; inversion H2; subst;
    repeat match goal with H : numeric_value _ _ |- _ => pose proof (proj1 H); revert H end; intros;
    try congruence.
  - eapply ident_numbers; [done..|]. assert (vy = vx0) by (by eapply numeric_value_det). lia.
  - by apply ident_number_word.
  - by apply ident_number_word.
  - apply ident_words; [done..|]. by eapply str_ltb_trans.
Qed.

(** The comparison of two different identifiers decides [ident_lt]. *)
Lemma compareIdentifier_spec x y :
  ident_ok x -> ident_ok y -> x <> y ->
  (compareIdentifier x y = -1 /\ ident_lt x y) \/ (compareIdentifier x y = 1 /\ ident_lt y x).
Proof.
  intros Hx Hy Hne. unfold compareIdentifier.
  destruct (isNumeric x) eqn:Nx, (isNumeric y) eqn:Ny.
  - destruct (ident_numeric x Hx Nx) as [Zx Vx], (ident_numeric y Hy Ny) as [Zy Vy].
    destruct (Z.ltb_spec (ParseUintVal x) (ParseUintVal y)) as [H|H]; [left|right].
    + split; [done|]. by eapply ident_numbers.
    + split; [done|]. eapply ident_numbers; [done..|]. destruct (Z.eq_dec (ParseUintVal y) (ParseUintVal x)) as [E|]; [|lia].
      destruct Hne. pose proof (numeric_value_nonempty _ _ Vx). pose proof (numeric_value_nonempty _ _ Vy).
      destruct Vx as [_ Vx], Vy as [_ Vy]. rewrite E in Vy. by eapply canonical_inj.
  - left. split; [done|]. by apply ident_number_word.
  - right. split; [done|]. by apply ident_number_word.
  - destruct (str_ltb x y) eqn:E; [left|right]; (split; [done|]); apply ident_words; try done.
    by apply str_ltb_total.
Qed.

(** ** Lemmas: lists *)

Lemma list_lt_irrefl {A} (lt : A -> A -> Prop) l : (forall x, ~ lt x x) -> ~ list_lt lt l l.
Proof. intros Hlt. induction l as [|x l IH]; intros H; inversion H; subst; [by eapply Hlt|by apply IH]. Qed.

Lemma list_lt_trans {A} (lt : A -> A -> Prop) a b c :
  (forall x y z, lt x y -> lt y z -> lt x z) -> list_lt lt a b -> list_lt lt b c -> list_lt lt a c.
Proof.
  intros Hlt H. revert c. induction H; intros c H2; inversion H2; subst; eauto using @list_lt.
Qed.

Lemma comparePrerelease_spec p q :
  Forall ident_ok p -> Forall ident_ok q ->
  (comparePrerelease p q = 0 /\ p = q) \/ (comparePrerelease p q = -1 /\ list_lt ident_lt p q) \/
  (comparePrerelease p q = 1 /\ list_lt ident_lt q p).
Proof.
  intros Hp. revert q. induction Hp as [|x p Hx _ IH]; intros [|y q] Hq; simpl; [naive_solver|..].
  - right; left. split; [done|constructor].
  - right; right. split; [done|constructor].
  - inversion_clear Hq as [|? ? Hy Hq']. destruct (String.eqb_spec x y) as [->|Hne].
    + destruct (IH q Hq') as [[-> ->]|[[-> H]|[-> H]]]; [by left|right; left|right; right];
        (split; [done|by constructor]).
    + right. destruct (compareIdentifier_spec x y Hx Hy Hne) as [[-> H]|[-> H]]; [left|right];
        (split; [done|by constructor]).
Qed.

Lemma compareCore_spec a b :
  length a = length b ->
  (compareCore a b = None /\ a = b) \/ (compareCore a b = Some (-1) /\ list_lt Z.lt a b) \/
  (compareCore a b = Some 1 /\ list_lt Z.lt b a).
Proof.
  revert b. induction a as [|x a IH]; intros [|y b]; simpl; try done; [by left|]. intros [= Hl].
  destruct (Z.ltb_spec x y); [right; left; split; [done|by constructor]|].
  destruct (Z.ltb_spec y x); [right; right; split; [done|by constructor]|].
  assert (x = y) as -> by lia.
  destruct (IH b Hl) as [[-> ->]|[[-> ?]|[-> ?]]]; [by left|right; left|right; right]; (split; [done|by constructor]).
Qed.

(** ** Lemmas: versions *)

(** An accepted version is three core numbers and its prerelease identifiers. *)
Lemma normalize_shape value n : normalizeVersion value = Ok n ->
  exists parts ids, length parts = 3%nat /\ Forall (fun p => corePart p = true) parts /\
    Forall (fun x => prereleasePart x = true) ids /\
    parseSemanticVersion value = Ok (mkVersion (map ParseUintVal parts) ids) /\
    n = Join parts "." +:+ match ids with [] => "" | _ => "-" +:+ Join ids "." end.
Proof.
  intros Hn. pose proof Hn as Hp. unfold parseSemanticVersion. rewrite Hn. cbn [mbind result_bind].
  unfold normalizeVersion in Hn. case_if_in Hn; [done|].
  set (n' := (CutOr _ "+").1) in Hn. unfold CutOr in Hn. destruct (Cut n' "-") as [[c p]|] eqn:Ec; cbn [from_option id] in Hn;
    cbv iota beta in Hn; (case_if_in Hn; [done|]); (case_if_in Hn; [done|]); rewrite ContainsChar_no_char in Hn; to_prop;
    rewrite forallb_forall in E1.
  - assert (no_char "-" n' = false) as Hc.
    { destruct (no_char "-" n') eqn:Hc; [|done]. apply Cut_None in Hc. congruence. }
    rewrite Hc in Hn. simpl in Hn. case_if_in Hn; [done|]. case_if_in Hn; [|done]. injection Hn as <-.
    rewrite Ec. exists (Split c "."), (Split p "."). rewrite forallb_forall in E3.
    apply Nat.eqb_eq in E0. split_and!; try done; try (apply Forall_forall; intros x Hx; apply list_elem_of_In in Hx; by auto).
    rewrite (Join_Split c "."), (Join_Split p "."). apply Cut_inv in Ec as [-> _]. by destruct (Split p ".") eqn:Es; [apply Split_nonnil in Es|].
  - assert (no_char "-" n' = true) as Hc by by apply Cut_None. rewrite Hc in Hn. simpl in Hn. injection Hn as <-.
    rewrite Ec. exists (Split n' "."), []. apply Nat.eqb_eq in E0.
    split_and!; try done; try (apply Forall_forall; intros x Hx; apply list_elem_of_In in Hx; by auto).
    by rewrite Join_Split, app_nil_r_str.
Qed.

Lemma parse_normalized value v : parseSemanticVersion value = Ok v -> exists n, normalizeVersion value = Ok n.
Proof. unfold parseSemanticVersion. destruct (normalizeVersion value); [by eauto|done]. Qed.

Lemma cores_inj p q :
  Forall (fun x => corePart x = true) p -> Forall (fun x => corePart x = true) q ->
  map ParseUintVal p = map ParseUintVal q -> p = q.
Proof.
  intros Hp. revert q. induction Hp as [|x p Hx _ IH]; intros [|y q] Hq; simpl; try done. intros [= E Em].
  inversion_clear Hq as [|? ? Hy Hq']. rewrite (IH q Hq' Em). f_equal.
  apply corePart_val in Hx as (? & ? & Hx), Hy as (? & ? & Hy). rewrite E in Hx. by eapply canonical_inj.
Qed.

Lemma parse_inj a b v :
  parseSemanticVersion a = Ok v -> parseSemanticVersion b = Ok v -> normalizeVersion a = normalizeVersion b.
Proof.
  intros Ha Hb. destruct (parse_normalized a v Ha) as [n Hn], (parse_normalized b v Hb) as [m Hm].
  destruct (normalize_shape a n Hn) as (p & i & _ & Hp & _ & Pa & ->),
    (normalize_shape b m Hm) as (q & j & _ & Hq & _ & Pb & ->).
  rewrite Hn, Hm. assert (map ParseUintVal p = map ParseUintVal q /\ i = j) as [Ec ->] by (split; congruence).
  by rewrite (cores_inj p q).
Qed.

Lemma parse_ok value v :
  parseSemanticVersion value = Ok v -> fits v ->
  length (core v) = 3%nat /\ Forall ident_ok (prerelease v).
Proof.
  intros Hp Hf. destruct (parse_normalized value v Hp) as [n Hn].
  destruct (normalize_shape value n Hn) as (p & i & Hl & _ & Hi & Pv & _).
  assert (v = mkVersion (map ParseUintVal p) i) as -> by congruence. simpl. rewrite length_map. split; [done|].
  unfold fits in Hf. simpl in Hf. apply Forall_forall. intros x Hx. rewrite Forall_forall in Hi, Hf. split; auto.
Qed.

Lemma compare_decides a b va vb :
  parseSemanticVersion a = Ok va -> parseSemanticVersion b = Ok vb -> fits va -> fits vb ->
  (CompareVersions a b = 0 /\ va = vb) \/ (CompareVersions a b = -1 /\ semver_lt va vb) \/
  (CompareVersions a b = 1 /\ semver_lt vb va).
Proof.
  intros Pa Pb Fa Fb. destruct (parse_ok a va Pa Fa) as [La Ia], (parse_ok b vb Pb Fb) as [Lb Ib].
  unfold CompareVersions. rewrite Pa, Pb. destruct va as [ca pa], vb as [cb pb]. simpl in *.
  destruct (compareCore_spec ca cb ltac:(congruence)) as [[-> ->]|[[-> H]|[-> H]]].
  - destruct pa as [|x pa], pb as [|y pb]; [by left|right; right|right; left|].
    1,2: split; [done|by apply semver_release].
    change (if String.eqb x y then comparePrerelease pa pb else compareIdentifier x y)
      with (comparePrerelease (x :: pa) (y :: pb)).
    destruct (comparePrerelease_spec (x :: pa) (y :: pb) Ia Ib) as [[-> H]|[[-> H]|[-> H]]];
      [left; split; [done|congruence]|right; left|right; right]; (split; [done|by apply semver_prerelease]).
  - right; left. split; [done|by apply semver_core].
  - right; right. split; [done|by apply semver_core].
Qed.

#[global] Instance semver_lt_strict : StrictOrder semver_lt.
Proof.
  split.
  - intros v H. inversion H; subst; [|done|].
    + by eapply (list_lt_irrefl Z.lt); [apply Z.lt_irrefl|].
    + by eapply (list_lt_irrefl ident_lt); [apply ident_lt_irrefl|].
  - intros u v w H1 H2. inversion H1 as [? ? Hc|? ? Ec Hu Hv|? ? Ec Hu Hv Hl]; subst;
      inversion H2 as [? ? Hc'|? ? Ec' Hv' Hw|? ? Ec' Hv' Hw Hl']; subst; try done.
    + apply semver_core. eapply list_lt_trans; [apply Z.lt_trans|done|done].
    + apply semver_core. by rewrite <- Ec'.
    + apply semver_core. by rewrite <- Ec'.
    + apply semver_core. by rewrite Ec.
    + apply semver_core. by rewrite Ec.
    + apply semver_release; [congruence|done|done].
    + apply semver_prerelease; [congruence|done|done|]. eapply list_lt_trans; [apply ident_lt_trans|done|done].
Qed.

(** ** Lemmas: the greatest release *)

(** The tag of an accepted release, read as a version. *)
Definition tagged (g : githubRelease) (v : semanticVersion) : Prop :=
  Draft g = false /\ parseSemanticVersion (TagName g) = Ok v.

(** The characters of a normalised version. *)
Definition version_char (c : ascii) : bool :=
  is_lower c || is_upper c || is_digit c || Ascii.eqb c "-" || Ascii.eqb c ".".

Lemma Join_forall p ws sep :
  str_forall p sep = true -> Forall (fun w => str_forall p w = true) ws -> str_forall p (Join ws sep) = true.
Proof.
  intros Hs. induction 1 as [|w ws Hw H IH]; [done|]. destruct ws as [|w' ws]; [done|].
  change (Join (w :: w' :: ws) sep) with (w +:+ sep +:+ Join (w' :: ws) sep). by rewrite !str_forall_app, Hw, Hs, IH.
Qed.

Lemma corePart_chars p : corePart p = true -> str_forall is_digit p = true.
Proof. intros (_ & _ & H)%corePart_val. by apply digits_val_Some in H as [? _]. Qed.

Lemma normalized_chars value n : normalizeVersion value = Ok n ->
  str_forall version_char n = true /\ exists c t, n = String c t /\ is_digit c = true.
Proof.
  intros (p & i & Hl & Hp & Hi & _ & ->)%normalize_shape. split.
  - rewrite str_forall_app, Join_forall; [|done|].
    + destruct i as [|x i]; [done|]. rewrite str_forall_app, Join_forall; [done|done|].
      eapply Forall_impl; [exact Hi|]. intros w Hw. unfold prereleasePart, validSemverIdentifier in Hw. to_prop.
      eapply class_impl; [|done]. by vm_compute.
    + eapply Forall_impl; [exact Hp|]. intros w Hw. apply corePart_chars in Hw.
      eapply class_impl; [|done]. by vm_compute.
  - destruct p as [|w [|w2 p]]; try done. inversion_clear Hp as [|? ? Hw _].
    pose proof (corePart_chars w Hw) as Hc. apply corePart_val in Hw as (Hne & _). destruct w as [|c w]; [done|].
    simpl in Hc. to_prop. by eexists _, _.
Qed.

Lemma normalize_idem value n : normalizeVersion value = Ok n -> normalizeVersion n = Ok n.
Proof.
  intros H. destruct (normalized_chars value n H) as [Hc (c & t & En & Hd)].
  assert (TrimPrefix (TrimSpace n) "v" = n) as Et.
  { rewrite TrimSpace_no_space; [|eapply class_impl; [|exact Hc]; by vm_compute]. subst n.
    unfold TrimPrefix. destruct (HasPrefix _ _) eqn:Ep; [|done]. apply has_prefix_inv in Ep.
    injection Ep as ->. by vm_compute in Hd. }
  assert (Cut n "+" = None) as Ep.
  { apply Cut_None. eapply class_impl; [|exact Hc]. by vm_compute. }
  unfold normalizeVersion in H |- *. rewrite Et. case_if_in H; [done|].
  replace (String.eqb n "") with false by (by rewrite En).
  assert (CutOr n "+" = (n, "")) as -> by (unfold CutOr; by rewrite Ep). cbn [fst].
  set (n' := (CutOr _ "+").1) in H.
  assert (n' = n) as ->; [|exact H].
  destruct (CutOr n' "-") as [a b]. do 2 (case_if_in H; [done|]). case_if_in H; [|congruence].
  case_if_in H; [done|]. case_if_in H; congruence.
Qed.

Lemma parse_idem value n : normalizeVersion value = Ok n -> parseSemanticVersion n = parseSemanticVersion value.
Proof. intros H. unfold parseSemanticVersion. by rewrite H, (normalize_idem value n H). Qed.

(** What the search keeps: the first accepted release of those seen, or one no
    accepted release precedes. *)
Definition best_of (seen : list githubRelease) (best : option (githubRelease * string)) : Prop :=
  match best with
  | None => forall g v, g ∈ seen -> ~ tagged g v
  | Some (g, n) => g ∈ seen /\ normalizeVersion (TagName g) = Ok n /\
      exists v, tagged g v /\ forall g' v', g' ∈ seen -> tagged g' v' -> ~ semver_lt v v'
  end.

Lemma best_of_skip seen best g :
  (forall v, ~ tagged g v) -> best_of seen best -> best_of (seen ++ [g]) best.
Proof.
  intros Hg. destruct best as [[b n]|]; simpl.
  - intros (Hin & Hn & v & Hv & Hmax). split_and!; [set_solver|done|]. exists v. split; [done|].
    intros g' v' [?| ->%list_elem_of_singleton]%elem_of_app Ht; [by eapply Hmax|]. by apply Hg in Ht.
  - intros Hb g' v' [?| ->%list_elem_of_singleton]%elem_of_app; eauto.
Qed.

(** A release joins the seen ones: it suffices that none of them, nor itself,
    is preceded by the version kept. *)
Lemma best_of_snoc seen g b n v :
  b ∈ seen ++ [g] -> normalizeVersion (TagName b) = Ok n -> tagged b v ->
  (forall g' v', g' ∈ seen -> tagged g' v' -> ~ semver_lt v v') ->
  (forall v', tagged g v' -> ~ semver_lt v v') -> best_of (seen ++ [g]) (Some (b, n)).
Proof.
  intros Hin Hn Hv Hmax Hg. simpl. split_and!; [done|done|]. exists v. split; [done|].
  intros g' v' [?| ->%list_elem_of_singleton]%elem_of_app Ht; eauto.
Qed.

Lemma tagged_det g v w : tagged g v -> tagged g w -> v = w.
Proof. intros [_ ?] [_ ?]. congruence. Qed.

Lemma not_before_self g v v' : tagged g v -> tagged g v' -> ~ semver_lt v v'.
Proof. intros H1 H2. rewrite (tagged_det g v v' H1 H2). apply (irreflexivity semver_lt). Qed.

Lemma bestStep_best seen best g :
  (forall g' v, g' ∈ seen ++ [g] -> tagged g' v -> fits v) ->
  best_of seen best -> best_of (seen ++ [g]) (bestStep best g).
Proof.
  intros Hfit Hb. unfold bestStep. destruct (Draft g) eqn:Ed.
  { apply best_of_skip; [|done]. intros v [? _]. congruence. }
  destruct (normalizeVersion (TagName g)) as [n|e] eqn:En.
  2: { apply best_of_skip; [|done]. intros v [_ [? ?]%parse_normalized]. congruence. }
  destruct (normalize_shape _ _ En) as (p & i & _ & _ & _ & Pg & _).
  set (vg := mkVersion _ _) in Pg. assert (tagged g vg) as Tg by done.
  assert (g ∈ seen ++ [g]) as Hg by set_solver.
  destruct best as [[b m]|]; simpl in Hb.
  2: { eapply best_of_snoc; [done|done|done| |]; [|by intros; eapply not_before_self].
       intros g' v' Hg' Ht. by apply Hb in Ht. }
  destruct Hb as (Hin & Hm & v & Hv & Hmax). assert (b ∈ seen ++ [g]) as Hb by set_solver.
  pose proof (parse_idem _ _ En) as In. pose proof (parse_idem _ _ Hm) as Im.
  destruct (compare_decides n m vg v) as [[-> <-]|[[-> Hlt]|[-> Hlt]]];
    [by rewrite In|rewrite Im; apply Hv|exact (Hfit g vg Hg Tg)|exact (Hfit b v Hb Hv)|..]; simpl.
  - eapply best_of_snoc; eauto. intros. by eapply not_before_self.
  - eapply best_of_snoc; eauto. intros v' Hv' H. rewrite <- (tagged_det g vg v') in H by done.
    apply (irreflexivity semver_lt v). by etransitivity.
  - eapply best_of_snoc; [done|done|done| |]; [|by intros; eapply not_before_self].
    intros g' v' Hg' Ht H. apply (Hmax g' v' Hg' Ht). by etransitivity.
Qed.

Lemma best_release releases :
  (forall g v, g ∈ releases -> tagged g v -> fits v) -> best_of releases (fold_left bestStep releases None).
Proof.
  induction releases as [|g l IH] using rev_ind; intros Hf; [by intros g v Hg%elem_of_nil|].
  rewrite fold_left_app. apply bestStep_best; [done|]. apply IH. intros g' v Hg Ht.
  eapply (Hf g'); [by apply elem_of_app; left|done].
Qed.

(** Every version the service names has numbers that fit. *)
Definition service_fits (svc : ReleaseService) : Prop :=
  (forall e g v, getLatest svc e = Ok g -> tagged g v -> fits v) /\
  (forall e l g v, getReleases svc e = Ok l -> g ∈ l -> tagged g v -> fits v).

(** What a check may offer: the latest stable release, or the greatest of a list. *)
Definition offered (svc : ReleaseService) (c : Checker) (g : githubRelease) (v : semanticVersion) : Prop :=
  exists e,
    (getLatest svc e = Ok g /\ gPrerelease g = false) \/
    (Channel c = PrereleaseChannel /\ exists l, getReleases svc e = Ok l /\ g ∈ l /\
       forall g' v', g' ∈ l -> tagged g' v' -> ~ semver_lt v v').

Lemma offered_fits svc c g v : service_fits svc -> offered svc c g v -> tagged g v -> fits v.
Proof. intros [H1 H2] (e & [[He _]|(_ & l & He & Hin & _)]) Ht; eauto. Qed.

Lemma Check_inv svc c current r :
  service_fits svc -> Check_ svc c current = Ok r ->
  exists g v, tagged g v /\ normalizeVersion (TagName g) = Ok (Latest r) /\ rTag (cRelease r) = TagName g /\
    offered svc c g v /\ normalizeVersion current = Ok (Current r) /\
    Available r = (0 <? CompareVersions (Latest r) (Current r)).
Proof.
  intros Hf Hc. unfold Check_ in Hc. case_if_in Hc; [done|]. set (channel := if String.eqb (Channel c) "" then _ else _) in Hc.
  case_if_in Hc; [done|].
  set (endpoint := _ +:+ "/repos/" +:+ _) in Hc.
  destruct (if String.eqb channel Stable then _ else _) as [g|] eqn:Eg in Hc; [|done]. cbn [mbind result_bind] in Hc.
  destruct (normalizeVersion (TagName g)) as [n|] eqn:En; [|done]. cbn [mbind result_bind] in Hc.
  destruct (normalizeVersion current) as [m|] eqn:Em; [|done]. cbn [mbind result_bind] in Hc. injection Hc as <-. simpl.
  destruct (normalize_shape _ _ En) as (p & i & _ & _ & _ & Pg & _). exists g, (mkVersion (map ParseUintVal p) i).
  destruct (String.eqb channel Stable) eqn:Ech.
  - destruct (getLatest svc _) as [g'|] eqn:El; [|done]. cbn [mbind result_bind] in Eg. case_if_in Eg; [done|].
    injection Eg as ->. apply orb_false_iff in E1 as [Ed Ep]. split_and!; try done. eexists. left. by split.
  - assert (Channel c = PrereleaseChannel) as Hch.
    { subst channel. case_if_in E0; to_prop; try done. by destruct E0 as [?|H]; to_prop. }
    destruct (getReleases svc endpoint) as [l|] eqn:El; [|done]. cbn [mbind result_bind] in Eg.
    assert (forall g v, g ∈ l -> tagged g v -> fits v) as Hl by (intros; eapply Hf; eauto).
    pose proof (best_release l Hl) as Hb. destruct (fold_left bestStep l None) as [[g' n']|]; [|done]. injection Eg as ->.
    destruct Hb as (Hin & Hn & v & Hv & Hmax). rewrite (tagged_det g _ v (conj (proj1 Hv) Pg) Hv).
    split_and!; try done. exists endpoint. right. split; [done|]. eauto.
Qed.

(** ** Properties *)

(** [CompareVersions] is the precedence of semantic versions: on accepted
    versions whose numeric identifiers fit a machine word it tells exactly which
    one comes first, that order is strict and transitive, and two versions are
    equal exactly when their normalised texts are. *)
Theorem versions_by_precedence a b va vb :
  parseSemanticVersion a = Ok va -> parseSemanticVersion b = Ok vb -> fits va -> fits vb ->
  (CompareVersions a b = -1 <-> semver_lt va vb) /\ (CompareVersions a b = 1 <-> semver_lt vb va) /\
  (CompareVersions a b = 0 <-> normalizeVersion a = normalizeVersion b) /\ StrictOrder semver_lt.
Proof.
  intros Pa Pb Fa Fb. pose proof (irreflexivity semver_lt) as Hirr.
  assert (semver_lt va vb -> semver_lt vb va -> False) as Hasym.
  { intros H1 H2. apply (Hirr va). by etransitivity. }
  assert (normalizeVersion a = normalizeVersion b <-> va = vb) as Hn.
  { split; [|intros ->; by apply (parse_inj a b vb)].
    intros E. unfold parseSemanticVersion in Pa, Pb. rewrite E in Pa. congruence. }
  rewrite Hn. split_and!; try (destruct (compare_decides a b va vb) as [[-> ->]|[[-> H]|[-> H]]]; try done;
    split; intros H'; subst; try done; try (by apply Hirr in H'); try (by apply Hirr in H);
    by destruct Hasym).
  apply semver_lt_strict.
Qed.

(** a check never offers an older or an unaccepted release: it offers a
    release that is not a draft, on the stable channel not a prerelease, on the
    prerelease channel one that no accepted release comes after; and it is
    announced as an update exactly when the running version comes before it. *)
Theorem check_offers_newest svc c current r w :
  service_fits svc -> parseSemanticVersion current = Ok w -> fits w ->
  Check_ svc c current = Ok r ->
  exists g v, tagged g v /\ offered svc c g v /\ normalizeVersion (TagName g) = Ok (Latest r) /\
    rTag (cRelease r) = TagName g /\ (Available r = true <-> semver_lt w v).
Proof.
  intros Hf Hw Fw Hc. destruct (Check_inv svc c current r Hf Hc) as (g & v & Hv & Hn & Ht & Ho & Hm & ->).
  exists g, v. split_and!; try done.
  rewrite Z.ltb_lt, <- (parse_idem _ _ Hm) in *.
  destruct (compare_decides (Latest r) (Current r) v w) as [[-> ->]|[[-> H]|[-> H]]].
  - rewrite (parse_idem _ _ Hn). apply Hv.
  - done.
  - by eapply offered_fits.
  - done.
  - split; [lia|]. by intros ?%(irreflexivity semver_lt).
  - split; [lia|]. intros H'. destruct (irreflexivity semver_lt v). by etransitivity.
  - split; [done|lia].
Qed.

(** an executable is only updated by its owner: a provider is resolved to
    the package manager the path belongs to, and to direct replacement only for
    a path that no package manager owns or looks like owning. *)
Theorem provider_respects_owner getenv evalSymlinks configured executable goos p :
  ResolveProvider getenv evalSymlinks configured executable goos = Ok p ->
  (forall o, detectManagedProvider getenv evalSymlinks executable goos = Some o -> p = o) /\
  (detectManagedProvider getenv evalSymlinks executable goos = None ->
   forall h, detectManagedProviderHint getenv evalSymlinks executable goos = Some h -> p = h) /\
  (p = ProviderDirect -> detectManagedProvider getenv evalSymlinks executable goos = None /\
     detectManagedProviderHint getenv evalSymlinks executable goos = None).
Proof.
  unfold ResolveProvider. set (conf := if String.eqb configured "" then _ else _).
  destruct (ParseProvider conf); [|done]. case_if; [done|].
  assert (forall o, detectManagedProvider getenv evalSymlinks executable goos = Some o -> o <> ProviderDirect) as Ho.
  { unfold detectManagedProvider. intros o. repeat case_if; intros [= <-]; by vm_compute. }
  assert (forall h, detectManagedProviderHint getenv evalSymlinks executable goos = Some h -> h <> ProviderDirect) as Hh.
  { unfold detectManagedProviderHint. intros h. repeat case_if; intros [= <-]; by vm_compute. }
  destruct (detectManagedProvider _ _ _ _) as [o|]; [specialize (Ho o eq_refl)|];
    destruct (detectManagedProviderHint _ _ _ _) as [h|]; try specialize (Hh h eq_refl);
    repeat case_if; intros [= <-]; to_prop; split_and!; intros; simplify_eq; done.
Qed.

(** ** Witnesses *)

Definition wit_release (tag : string) (pre : bool) : githubRelease := mkGithub tag false pre [].
Definition wit_service : ReleaseService :=
  mkService (fun _ => Ok (wit_release "v1.3.0" false))
    (fun _ => Ok [wit_release "v1.3.0" false; wit_release "v1.4.0-rc.2" true; wit_release "v1.4.0-rc.10" true;
                  mkGithub "v9.0.0" true false []]).

Ltac fits_tac := repeat first [apply Forall_cons; split | apply Forall_nil; done]; intros ?; vm_compute in *; done.

Lemma versions_by_precedence_witness :
  CompareVersions "v1.4.0-rc.2" "1.4.0-rc.10+linux" = -1 /\
  semver_lt (mkVersion [1; 4; 0] ["rc"; "2"]) (mkVersion [1; 4; 0] ["rc"; "10"]).
Proof.
  split; [by vm_compute|].
  refine (proj1 (proj1 (versions_by_precedence "v1.4.0-rc.2" "1.4.0-rc.10+linux" _ _ _ _ _ _)) _);
    [by vm_compute|by vm_compute|fits_tac|fits_tac|by vm_compute].
Defined.

Lemma wit_service_fits : service_fits wit_service.
Proof.
  assert (forall g v, tagged g v -> TagName g ∈ ["v1.3.0"; "v1.4.0-rc.2"; "v1.4.0-rc.10"; "v9.0.0"] -> fits v) as H.
  { intros g v [_ Hp] Hin. rewrite !elem_of_cons, elem_of_nil in Hin.
    destruct Hin as [E|[E|[E|[E|[]]]]]; rewrite E in Hp; vm_compute in Hp; injection Hp as <-; fits_tac. }
  split.
  - intros e g v [= <-] Ht. apply (H _ _ Ht). set_solver.
  - intros e l g v [= <-] Hg Ht. rewrite !elem_of_cons, elem_of_nil in Hg. apply (H _ _ Ht). rewrite !elem_of_cons. naive_solver.
Qed.

Lemma check_offers_newest_witness :
  let c := mkChecker "" "" PrereleaseChannel in
  exists r, Check_ wit_service c "1.4.0-rc.2" = Ok r /\ Available r = true /\
    exists g v, tagged g v /\ offered wit_service c g v /\ normalizeVersion (TagName g) = Ok (Latest r) /\
      rTag (cRelease r) = TagName g /\ (Available r = true <-> semver_lt (mkVersion [1; 4; 0] ["rc"; "2"]) v).
Proof.
  eexists. split; [by vm_compute|]. split; [done|].
  eapply (check_offers_newest wit_service (mkChecker "" "" PrereleaseChannel) "1.4.0-rc.2");
    [exact wit_service_fits|by vm_compute|fits_tac|by vm_compute].
Defined.

Lemma provider_respects_owner_witness :
  let getenv := fun _ : string => "" in let eval := fun _ : string => @None string in
  let exe := "C:\Users\me\scoop\apps\pxgo\1.2.0\pxgo.exe" in
  detectManagedProvider getenv eval exe "windows" = Some ProviderScoop /\ ProviderScoop = ProviderScoop.
Proof.
  split; [by vm_compute|].
  refine (proj1 (provider_respects_owner (fun _ => "") (fun _ => None) "auto"
    "C:\Users\me\scoop\apps\pxgo\1.2.0\pxgo.exe" "windows" ProviderScoop _) _ _); by vm_compute.
Defined.

(** ** Examples *)

(** Two identifiers of 2^64 and more: both orders answer "greater". *)
Example huge_identifiers :
  let a := "1.0.0-18446744073709551616" in let b := "1.0.0-18446744073709551617" in
  CompareVersions a b = 1 /\ CompareVersions b a = 1.
Proof. by vm_compute. Qed.

Example versions1 :
  (normalizeVersion " v1.2.3-a.0+x ", normalizeVersion "1.2.03", normalizeVersion "1.2", normalizeVersion "1.2.3-01")
  = (Ok "1.2.3-a.0", Err EVersion, Err EVersion, Err EVersion).
Proof. by vm_compute. Qed.

Example checksum1 :
  let sum := "0123456789ABCDEF0123456789abcdef0123456789abcdef0123456789abcdef" in
  ChecksumForAsset (sum +:+ "  *a.zip" +:+ String LF "") "a.zip" = Ok (ToLower sum) /\
  ChecksumForAsset "" "a.zip" = Err ENoChecksum /\ ChecksumForAsset "" "a/b" = Err EAssetName.
Proof. by vm_compute. Qed.

Example brew1 :
  detectManagedProvider (fun _ => "") (fun _ => None) "/opt/homebrew/Cellar/pxgo/1.0/bin/pxgo" "darwin" = Some ProviderBrew /\
  detectManagedProviderHint (fun _ => "") (fun _ => None) "/tmp/Cellar/pxgo/1.0/bin/pxgo" "linux" = Some ProviderBrew.
Proof. by vm_compute. Qed.

End Upd.
