(* ===== verification/Staging.v ===== *)
(** * Staging: download, verify and install an update
    ([internal/update/staging.go], [apply_unix.go], [apply_windows.go], [service.go])

    HTTP answers, archive readers, SHA-256, the version a candidate prints and
    the outcome of each file operation are inputs; the staging directories, the
    files beside the executable and the update lock are state. *)

From S2P Require Export Update.

Module Stg.
Import Upd.

Inductive SErr :=
| ENoUpdate | EUpd (e : UErr) | ENotFound (name : string) | EAmbiguousAsset (name : string)
| EURLForm | EPinned | EHost | ERedirects | EHTTP | EStatus | ERead | ESizeLimit
| EDigestForm | EDigestDisagrees | EMkdir | ECreate | ESync | EChecksum | EArchiveDigest
| EArchiveKind | EArchive | EDuplicateBinary | ENoBinary | EBinaryEntry | ESizeMismatch
| ECandidateRun | ECandidateVersion
| ECancelled | ESamePath | ETarget | ECandidateFile | ETemp | ECopy | EBackupExists | EBackup
| EActivate (rollback : bool) | EInstalledVersion (rollback : bool) | ERemoveBackup
| ENotStaged | EBusy | ELock | EParent | EHelperName | ERestart.

(** ** Assets and URLs *)

Definition checksumsAssetName : string := "checksums.txt".
Definition maxChecksumsBytes : Z := 2 * 1024 * 1024.
Definition maxArchiveBytes : Z := 512 * 1024 * 1024.
Definition maxCandidateBytes : Z := 256 * 1024 * 1024.

Definition exactAsset (assets : list Asset) (name : string) : result SErr Asset :=
  match bfilter (fun a => String.eqb (aName a) name) assets with
  | [] => Err (ENotFound name)
  | [a] => Ok a
  | _ => Err (EAmbiguousAsset name)
  end.

Definition ValidateDownloadURL (raw : string) (redirect : bool) : option SErr :=
  match urlParse raw with
  | None => Some EURLForm
  | Some u =>
      if negb (String.eqb (Scheme u) "https") || bool_decide (is_Some (User u)) then Some EURLForm
      else
        let host := ToLower (Hostname u) in
        if String.eqb host "github.com" then
          if HasPrefix (EscapedPath u) releasePath then None else Some EPinned
        else if redirect && (String.eqb host "release-assets.githubusercontent.com" ||
                             String.eqb host "objects.githubusercontent.com") then None
        else Some EHost
  end.

(** What a GET of a URL meets: the redirects in order, then the answer; [body]
    is [None] when reading it fails. *)
Record Answer := mkAnswer { redirects : list string; status : Z; body : option string }.
Definition Client := string -> option Answer.
Definition Validator := string -> bool -> option SErr.

(** The redirect check of [clientWithRedirectValidation]; [seen] is [len(via)]. *)
Fixpoint checkRedirects (validator : Validator) (seen : nat) (urls : list string) : option SErr :=
  match urls with
  | [] => None
  | u :: urls' =>
      match validator u true with
      | Some e => Some e
      | None => if (10 <=? seen)%nat then Some ERedirects else checkRedirects validator (S seen) urls'
      end
  end.

Definition doGet (client : Client) (validator : Validator) (rawURL : string) : result SErr (option string) :=
  match validator rawURL false with
  | Some e => Err e
  | None =>
      match client rawURL with
      | None => Err EHTTP
      | Some a =>
          match checkRedirects validator 1 (redirects a) with
          | Some e => Err e
          | None => if status a =? 200 then Ok (body a) else Err EStatus
          end
      end
  end.

Definition downloadBytes (client : Client) (validator : Validator) (rawURL : string) (limit : Z) : result SErr string :=
  b ← doGet client validator rawURL;
  match b with
  | None => Err ERead
  | Some data => if limit <? slen data then Err ESizeLimit else Ok data
  end.

(** ** Archives *)

(** An entry of a zip or tar archive; [eData] is [None] when reading it fails. *)
Inductive Kind := KRegular | KDir | KOther.
#[global] Instance Kind_eq_dec : EqDecision Kind.
Proof. solve_decision. Defined.
Record Entry := mkEntry { eName : string; eKind : Kind; eSize : Z; eData : option string }.

Record StageEnv := mkStageEnv {
  sha256 : string -> list Z;
  zipEntries : string -> option (list Entry);          (** [zip.OpenReader] *)
  tarEntries : string -> option (list Entry * bool);   (** the entries, and whether the stream ends well *)
  runsVersion : string -> option string;               (** what a candidate prints for [--version] *)
  mkdirOk : bool; createOk : string -> bool; syncOk : bool; closeOk : bool; removeAllOk : bool;
  runtimeGOOS : string; runtimeGOARCH : string }.

Definition toSlash (env : StageEnv) (name : string) : string :=
  if String.eqb (runtimeGOOS env) goosWindows then ReplaceChar name "\" "/" else name.

(** A staging directory: its files by name. *)
Abbreviation Dir := (gmap string string).

(** A failed copy leaves a file that only its directory's removal disposes of:
    its content is not modelled.  [O_EXCL] creation, a copy of at most one byte over the limit, then the sizes. *)
Definition writeCandidate (env : StageEnv) (name : string) (source : option string) (expected : Z) (d : Dir)
  : option SErr * Dir :=
  if negb (createOk env name) || bool_decide (is_Some (d !! name)) then (Some ECreate, d)
  else match source with
       | None => (Some ECopy, <[name := ""]> d)
       | Some data =>
           let data := str_takeZ (maxCandidateBytes + 1) data in
           let d := <[name := data]> d in
           if negb (closeOk env) then (Some ECopy, d)
           else if (maxCandidateBytes <? slen data) || negb (slen data =? expected) then (Some ESizeMismatch, d)
           else (None, d)
       end.

Definition extractZipCandidate (env : StageEnv) (archive binaryName : string) (d : Dir) : option SErr * Dir :=
  match zipEntries env archive with
  | None => (Some EArchive, d)
  | Some entries =>
      match bfilter (fun e => String.eqb (toSlash env (eName e)) binaryName) entries with
      | [] => (Some ENoBinary, d)
      | [e] =>
          if bool_decide (eKind e = KDir) || (maxCandidateBytes <? eSize e) then (Some EBinaryEntry, d)
          else writeCandidate env binaryName (eData e) (eSize e) d
      | _ => (Some EDuplicateBinary, d)
      end
  end.

(** The loop over a tar stream, which writes the candidate as it finds it. *)
Fixpoint tarLoop (env : StageEnv) (binaryName : string) (entries : list Entry) (ends : bool) (found : bool) (d : Dir)
  : option SErr * Dir :=
  match entries with
  | [] => (if negb ends then Some EArchive else if found then None else Some ENoBinary, d)
  | e :: entries' =>
      if negb (String.eqb (toSlash env (eName e)) binaryName) then tarLoop env binaryName entries' ends found d
      else if found then (Some EDuplicateBinary, d)
      else if negb (bool_decide (eKind e = KRegular)) || (eSize e <? 0) || (maxCandidateBytes <? eSize e) then (Some EBinaryEntry, d)
      else match writeCandidate env binaryName (eData e) (eSize e) d with
           | (Some err, d) => (Some err, d)
           | (None, d) => tarLoop env binaryName entries' ends true d
           end
  end.

Definition extractTarCandidate (env : StageEnv) (archive binaryName : string) (d : Dir) : option SErr * Dir :=
  match tarEntries env archive with
  | None => (Some EArchive, d)
  | Some (entries, ends) => tarLoop env binaryName entries ends false d
  end.

Definition extractCandidate (env : StageEnv) (archive assetName binaryName : string) (d : Dir) : option SErr * Dir :=
  if HasSuffix assetName ".zip" then extractZipCandidate env archive binaryName d
  else if HasSuffix assetName ".tar.gz" then extractTarCandidate env archive binaryName d
  else (Some EArchiveKind, d).

Definition verifyCandidateVersion (runs : string -> option string) (content want : string) : option SErr :=
  match runs content with
  | None => Some ECandidateRun
  | Some output =>
      match normalizeVersion (TrimSpace output), normalizeVersion want with
      | Ok got, Ok wantVersion => if String.eqb got wantVersion then None else Some ECandidateVersion
      | Err e, _ | _, Err e => Some (EUpd e)
      end
  end.

(** ** Staging *)

(** The staging directories that exist, by the number of their creation. *)
Record Staging := mkStaging { dirs : gmap nat Dir; nextDir : nat }.
Definition put (w : Staging) (id : nat) (d : Dir) : Staging := mkStaging (<[id := d]> (dirs w)) (nextDir w).

Record StagedCandidate := mkStaged {
  sCheck : CheckResult; sAssetName : string; sArchive : string; sBinary : string; sSHA256 : string; sDir : nat }.

(** [StagedCandidate.Cleanup]. *)
Definition cleanupStaged (removeOk : bool) (id : nat) (w : Staging) : Staging :=
  if removeOk then mkStaging (delete id (dirs w)) (nextDir w) else w.

Definition downloadFile (env : StageEnv) (client : Client) (validator : Validator) (rawURL name : string) (limit : Z) (d : Dir)
  : result SErr string * Dir :=
  match doGet client validator rawURL with
  | Err e => (Err e, d)
  | Ok b =>
      if negb (createOk env name) || bool_decide (is_Some (d !! name)) then (Err ECreate, d)
      else match b with
           | None => (Err ERead, <[name := ""]> d)
           | Some data =>
               let data := str_takeZ (limit + 1) data in
               let d := <[name := data]> d in
               if limit <? slen data then (Err ESizeLimit, d)
               else if negb (syncOk env) then (Err ESync, d)
               else (Ok (hexEncode (sha256 env data)), d)
           end
  end.

Definition digestAgrees (asset : Asset) (checksum : string) : option SErr :=
  if String.eqb (aDigest asset) "" then None
  else
    let digest := TrimSpace (aDigest asset) in
    if negb (HasPrefix (ToLower digest) "sha256:") then Some EDigestForm
    else if negb (EqualFold (TrimPrefix (ToLower digest) "sha256:") checksum) then Some EDigestDisagrees
    else None.

(** The part of [StageCheck] inside the directory it made: download, compare,
    extract, run.  The platform decides the asset and the binary name. *)
Definition fillDir (env : StageEnv) (client : Client) (validator : Validator) (goos goarch : string)
  (check : CheckResult) (asset : Asset) (checksum : string) (d : Dir) : result SErr (string * string) * Dir :=
  let assetName := AssetName goos goarch in
  match downloadFile env client validator (aURL asset) assetName maxArchiveBytes d with
  | (Err e, d) => (Err e, d)
  | (Ok archiveSHA, d) =>
      if negb (EqualFold archiveSHA checksum) then (Err EChecksum, d)
      else if negb (String.eqb (aDigest asset) "") &&
              negb (EqualFold ("sha256:" +:+ archiveSHA) (TrimSpace (aDigest asset))) then (Err EArchiveDigest, d)
      else
        let binaryName := if String.eqb goos goosWindows then windowsExecutableName else productName in
        let archive := default "" (d !! assetName) in
        match extractCandidate env archive assetName binaryName d with
        | (Some e, d) => (Err e, d)
        | (None, d) =>
            let content := default "" (d !! binaryName) in
            let verdict :=
              if String.eqb goos (runtimeGOOS env) && String.eqb goarch (runtimeGOARCH env)
              then verifyCandidateVersion (runsVersion env) content (Latest check) else None in
            match verdict with
            | Some e => (Err e, d)
            | None => (Ok (archiveSHA, binaryName), d)
            end
        end
  end.

Definition StageCheck (env : StageEnv) (client : Client) (validator : Validator) (goos goarch : string)
  (check : CheckResult) (w : Staging) : result SErr StagedCandidate * Staging :=
  if negb (Available check) then (Err ENoUpdate, w)
  else
    let goos := if String.eqb goos "" then runtimeGOOS env else goos in
    let goarch := if String.eqb goarch "" then runtimeGOARCH env else goarch in
    let assetName := AssetName goos goarch in
    match (asset ← exactAsset (rAssets (cRelease check)) assetName;
           checksumsAsset ← exactAsset (rAssets (cRelease check)) checksumsAssetName;
           checksums ← downloadBytes client validator (aURL checksumsAsset) maxChecksumsBytes;
           match ChecksumForAsset checksums assetName with
           | Err e => Err (EUpd e)
           | Ok checksum =>
               match digestAgrees asset checksum with
               | Some e => Err e
               | None => Ok (asset, checksum)
               end
           end) with
    | Err e => (Err e, w)
    | Ok (asset, checksum) =>
        if negb (mkdirOk env) then (Err EMkdir, w)
        else
          let id := nextDir w in
          let w := mkStaging (<[id := ∅]> (dirs w)) (S id) in
          match fillDir env client validator goos goarch check asset checksum ∅ with
          | (Err e, d) => (Err e, cleanupStaged (removeAllOk env) id (put w id d))
          | (Ok (sha, binaryName), d) =>
              (Ok (mkStaged check assetName assetName binaryName sha id), put w id d)
          end
    end.

(** ** Replacing the executable *)

Record File := mkFile { fContent : string; fRegular : bool }.
Abbreviation Files := (gmap string File).

Definition rename (a b : string) (fs : Files) : Files :=
  match fs !! a with Some f => <[b := f]> (delete a fs) | None => fs end.

(** The outcomes of the operations of one replacement. *)
Record ApplyEnv := mkApplyEnv {
  ctxDone : bool; tempOk : bool; copyOk : bool; finishOk : bool; statBackupOk : bool; renameBackupOk : bool;
  renameTargetOk : bool; rollbackOk : bool; removeTargetOk : bool; removeBackupOk : bool; removeTempOk : bool;
  runs : string -> option string }.

Definition backupOf (target : string) : string := target +:+ ".pxgo-update-backup".

Inductive Outcome := Failed (e : SErr) | Installed (backupRemoved : bool).

(** The steps both platforms share, from the creation of the temporary file on,
    with every state of the directory they go through, in order. *)
Definition replaceTarget (env : ApplyEnv) (tmp target content version : string) (fs : Files)
  : Outcome * list Files :=
  let backup := backupOf target in
  let dropTemp fs := if removeTempOk env then delete tmp fs else fs in
  let fail e fs := (Failed e, [fs; dropTemp fs]) in
  if negb (tempOk env) then (Failed ETemp, [])
  else
    let fs0 := <[tmp := mkFile "" true]> fs in
    if negb (copyOk env) then fail ECopy fs0
    else
      let fs1 := <[tmp := mkFile content true]> fs0 in
      if negb (finishOk env) then fail ESync fs1
      else if bool_decide (is_Some (fs1 !! backup)) then fail EBackupExists fs1
      else if negb (statBackupOk env) then fail EBackup fs1
      else if negb (renameBackupOk env) then fail EBackup fs1
      else
        let fs2 := rename target backup fs1 in
        if negb (renameTargetOk env) then
          let fs3 := if rollbackOk env then rename backup target fs2 else fs2 in
          (Failed (EActivate (rollbackOk env)), [fs1; fs2; fs3; dropTemp fs3])
        else
          let fs3 := rename tmp target fs2 in
          match verifyCandidateVersion (runs env) content version with
          | Some _ =>
              let fs4 := if removeTargetOk env then delete target fs3 else fs3 in
              let fs5 := if rollbackOk env then rename backup target fs4 else fs4 in
              (Failed (EInstalledVersion (rollbackOk env)), [fs1; fs2; fs3; fs4; fs5])
          | None =>
              let fs4 := if removeBackupOk env then delete backup fs3 else fs3 in
              (Installed (removeBackupOk env), [fs1; fs2; fs3; fs4])
          end.

Definition regularAt (fs : Files) (path : string) : bool :=
  match fs !! path with Some f => fRegular f | None => false end.

(** [ApplyCandidateWithRestartState] on Unix, on absolute paths; [staged] is the
    file at the candidate's path.  A leftover backup is an error although the new
    executable is in place. *)
Definition applyUnix (env : ApplyEnv) (tmp candidate target version : string) (staged : option File) (fs : Files)
  : option SErr * list Files :=
  if ctxDone env then (Some ECancelled, [])
  else if String.eqb candidate target then (Some ESamePath, [])
  else if negb (regularAt fs target) then (Some ETarget, [])
  else match staged with
       | None => (Some ECandidateFile, [])
       | Some c =>
           if negb (fRegular c) then (Some ECandidateFile, [])
           else match replaceTarget env tmp target (fContent c) version fs with
                | (Failed e, trace) => (Some e, trace)
                | (Installed removed, trace) => (if removed then None else Some ERemoveBackup, trace)
                end
       end.

(** [runApplyHelper] on Windows: the staged candidate, running as the helper,
    copies itself over the target once the parent has gone. *)
Record HelperEnv := mkHelperEnv {
  hApply : ApplyEnv; parentExits : bool; lockFree : bool; restart : bool; restartOk : bool }.

Definition runApplyHelper (env : HelperEnv) (parentPID : Z) (tmp helper target version content : string) (fs : Files)
  : option SErr * list Files :=
  if parentPID <=? 0 then (Some EParent, [])
  else if negb (is_ok (normalizeVersion version)) then (Some (EUpd EVersion), [])
  else if negb (EqualFold (pathBase target) windowsExecutableName) then (Some EHelperName, [])
  else if EqualFold helper target then (Some ESamePath, [])
  else if negb (parentExits env) then (Some EParent, [])
  else if negb (lockFree env) then (Some EBusy, [])
  else if negb (regularAt fs target) then (Some ETarget, [])
  else match replaceTarget (hApply env) tmp target content version fs with
       | (Failed e, trace) => (Some e, trace)
       | (Installed _, trace) => (if restart env && negb (restartOk env) then Some ERestart else None, trace)
       end.

Definition safeToRestartExistingTarget (target : string) (fs : Files) : bool :=
  regularAt fs target && bool_decide (fs !! backupOf target = None).

(** ** The service *)

Record Status := mkStatus {
  stCheck : CheckResult; stProvider : string; stChannel : string; Applied : bool; Deferred : bool }.

Record Service := mkService {
  sChecker : Checker; sService : ReleaseService; sProvider : string; sChannel : string;
  sExecutable : string; sGOOS : string; sGOARCH : string; sStatePath : string;
  sGetenv : string -> string; sEval : string -> option string }.

Definition serviceCheck (s : Service) (current : string) : result SErr Status :=
  match ResolveProvider (sGetenv s) (sEval s) (sProvider s) (default (sExecutable s) (sEval s (sExecutable s))) (sGOOS s) with
  | Err e => Err (EUpd e)
  | Ok provider =>
      let channel := if String.eqb (sChannel s) "" then Stable else sChannel s in
      match ParseChannel channel with
      | Err e => Err (EUpd e)
      | Ok _ =>
          match Check_ (sService s) (mkChecker (APIBase (sChecker s)) (Repository (sChecker s)) channel) current with
          | Err e => Err (EUpd e)
          | Ok r => Ok (mkStatus r provider channel false false)
          end
      end
  end.

(** The staging directories, whether the update lock is held, and the files
    beside the executable. *)
Record World := mkWorld { staging : Staging; locked : bool; files : Files }.
Definition set_staging (w : World) (s : Staging) : World := mkWorld s (locked w) (files w).

Record PreparedUpdate := mkPrepared { pStatus : Status; pStaged : option StagedCandidate; pLock : bool }.

(** [acquireUpdateLock]: no path, no lock. *)
Definition acquireUpdateLock (s : Service) (openOk : bool) (w : World) : result SErr bool * World :=
  if String.eqb (sStatePath s) "" then (Ok false, w)
  else if negb openOk then (Err ELock, w)
  else if locked w then (Err EBusy, w)
  else (Ok true, mkWorld (staging w) true (files w)).

Definition Cleanup (removeOk : bool) (p : PreparedUpdate) (w : World) : World :=
  let w := match pStaged p with Some c => set_staging w (cleanupStaged removeOk (sDir c) (staging w)) | None => w end in
  if pLock p then mkWorld (staging w) false (files w) else w.

(** [CleanupStaleStaging] of the directories [stale] tells to be old. *)
Definition cleanupStale (stale : nat -> bool) (w : World) : World :=
  set_staging w (mkStaging (filter (fun kv => stale kv.1 = false) (dirs (staging w))) (nextDir (staging w))).

Definition Prepare (s : Service) (env : StageEnv) (client : Client) (openOk : bool) (stale : nat -> bool)
  (current : string) (w : World) : result SErr PreparedUpdate * World :=
  match acquireUpdateLock s openOk w with
  | (Err e, w) => (Err e, w)
  | (Ok lock, w) =>
      let release := Cleanup (removeAllOk env) (mkPrepared (mkStatus (mkCheck "" "" false (mkRelease "" "" false [])) "" "" false false) None lock) in
      let w := cleanupStale stale w in
      match serviceCheck s current with
      | Err e => (Err e, release w)
      | Ok st =>
          if negb (Available (stCheck st)) || negb (String.eqb (stProvider st) ProviderDirect)
          then (Ok (mkPrepared st None lock), w)
          else
            match StageCheck env client ValidateDownloadURL (sGOOS s) (sGOARCH s) (stCheck st) (staging w) with
            | (Err e, sw) => (Err e, release (set_staging w sw))
            | (Ok c, sw) => (Ok (mkPrepared st (Some c) lock), set_staging w sw)
            end
      end
  end.

(** [ApplyPrepared] on Unix; [managed] tells whether the package manager's
    command and the check of the installed version succeeded, and [binaryPath]
    is the path of the staged binary. *)
Definition ApplyPrepared (s : Service) (env : ApplyEnv) (managed : string -> bool) (removeOk : bool)
  (tmp binaryPath : string) (p : PreparedUpdate) (w : World)
  : result SErr Status * (PreparedUpdate * World) :=
  let st := pStatus p in
  if negb (Available (stCheck st)) then (Ok st, (p, w))
  else if negb (String.eqb (stProvider st) ProviderDirect) then
    if managed (stProvider st) then
      let st := mkStatus (stCheck st) (stProvider st) (stChannel st) true false in
      (Ok st, (mkPrepared st (pStaged p) (pLock p), w))
    else (Err (EUpd ECommand), (p, w))
  else match pStaged p with
       | None => (Err ENotStaged, (p, w))
       | Some c =>
           let content := dirs (staging w) !! sDir c ≫= (fun d => d !! sBinary c) in
           let staged := (fun content => mkFile content true) <$> content in
           match applyUnix env tmp binaryPath (sExecutable s) (Latest (stCheck st)) staged (files w) with
           | (Some e, trace) => (Err e, (p, mkWorld (staging w) (locked w) (List.last trace (files w))))
           | (None, trace) =>
               let st := mkStatus (stCheck st) (stProvider st) (stChannel st) true false in
               let w := mkWorld (staging w) (locked w) (List.last trace (files w)) in
               (Ok st, (mkPrepared st None false, Cleanup removeOk p w))
           end
       end.

Definition UpdateNow (s : Service) (senv : StageEnv) (client : Client) (openOk : bool) (stale : nat -> bool)
  (aenv : ApplyEnv) (managed : string -> bool) (tmp binaryPath current : string) (w : World)
  : result SErr Status * World :=
  match Prepare s senv client openOk stale current w with
  | (Err e, w) => (Err e, w)
  | (Ok p, w) =>
      let '(r, (p, w)) := ApplyPrepared s aenv managed (removeAllOk senv) tmp binaryPath p w in
      (r, Cleanup (removeAllOk senv) p w)
  end.

(** ** Lemmas: downloads *)

Lemma limits_nonneg : 0 <= maxCandidateBytes /\ 0 <= maxArchiveBytes.
Proof. unfold maxCandidateBytes, maxArchiveBytes. lia. Qed.
#[local] Opaque maxCandidateBytes maxArchiveBytes maxChecksumsBytes.

(** A request meets only URLs the validator accepts. *)
Definition trusted (validator : Validator) (rawURL : string) (a : Answer) : Prop :=
  validator rawURL false = None /\ Forall (fun u => validator u true = None) (redirects a) /\
  (length (redirects a) <= 9)%nat /\ status a = 200.

Lemma checkRedirects_ok validator seen urls :
  (seen <= 10)%nat -> checkRedirects validator seen urls = None ->
  Forall (fun u => validator u true = None) urls /\ (seen + length urls <= 10)%nat.
Proof.
  revert seen. induction urls as [|u urls IH]; intros seen Hs; cbn [checkRedirects length]; [by split; [constructor|lia]|].
  destruct (validator u true) eqn:E; [done|]. destruct (Nat.leb_spec 10 seen); [done|]. intros H'.
  apply IH in H' as [? ?]; [|lia]. split; [by constructor|lia].
Qed.

Lemma doGet_ok client validator rawURL b :
  doGet client validator rawURL = Ok b ->
  exists a, client rawURL = Some a /\ trusted validator rawURL a /\ b = body a.
Proof.
  unfold doGet. destruct (validator rawURL false) eqn:E; [done|]. destruct (client rawURL) as [a|]; [|done].
  destruct (checkRedirects _ _ _) eqn:Er; [done|]. apply checkRedirects_ok in Er as [? ?]; [|lia].
  case_if; [|done]. intros [= <-]. exists a. unfold trusted. to_prop. split_and!; try done; lia.
Qed.

(** A copy of one byte more than the limit that stays within it is whole. *)
Lemma take_within limit data :
  0 <= limit -> slen (str_takeZ (limit + 1) data) <= limit ->
  str_takeZ (limit + 1) data = data /\ slen data <= limit.
Proof.
  intros Hl Ht. destruct (decide (slen data <= limit + 1)) as [H|H].
  - rewrite str_takeZ_all in * by lia. done.
  - rewrite str_takeZ_length in Ht by lia. lia.
Qed.

Lemma downloadFile_ok env client validator rawURL name limit d sha d' :
  0 <= limit ->
  downloadFile env client validator rawURL name limit d = (Ok sha, d') ->
  exists a data, client rawURL = Some a /\ trusted validator rawURL a /\ body a = Some data /\
    slen data <= limit /\ d' = <[name := data]> d /\ sha = hexEncode (sha256 env data).
Proof.
  intros Hl. unfold downloadFile. destruct (doGet _ _ _) as [b|] eqn:Eg; [|done]. apply doGet_ok in Eg as (a & Ha & Ht & ->).
  case_if; [done|]. destruct (body a) as [data|] eqn:Eb; [|done]. case_if; [done|]. case_if; [done|]. intros [= <- <-].
  destruct (take_within limit data Hl) as [Et ?]; [lia|]. rewrite Et. by exists a, data.
Qed.

(** ** Lemmas: archives *)

(** The archive has one entry of the name, a file with this content and size. *)
Definition candidateIn (env : StageEnv) (entries : list Entry) (binaryName data : string) : Prop :=
  exists e, bfilter (fun e => String.eqb (toSlash env (eName e)) binaryName) entries = [e] /\
    eKind e <> KDir /\ eData e = Some data /\ eSize e = slen data /\ slen data <= maxCandidateBytes.

Definition holdsCandidate (env : StageEnv) (archive binaryName data : string) : Prop :=
  exists entries, candidateIn env entries binaryName data /\
    (zipEntries env archive = Some entries \/ tarEntries env archive = Some (entries, true)).

Lemma writeCandidate_ok env name source expected d d' :
  writeCandidate env name source expected d = (None, d') ->
  exists data, source = Some data /\ slen data = expected /\ slen data <= maxCandidateBytes /\ d' = <[name := data]> d.
Proof.
  unfold writeCandidate. case_if; [done|]. destruct source as [data|]; [|done]. case_if; [done|]. case_if; [done|].
  intros [= <-]. to_prop. destruct (take_within maxCandidateBytes data) as [Et ?]; [apply limits_nonneg|lia|]. rewrite Et in *. by exists data.
Qed.

Lemma tarLoop_ok env binaryName entries ends found d d' :
  tarLoop env binaryName entries ends found d = (None, d') ->
  ends = true /\
  if found then bfilter (fun e => String.eqb (toSlash env (eName e)) binaryName) entries = [] /\ d' = d
  else exists data, candidateIn env entries binaryName data /\ d' = <[binaryName := data]> d.
Proof.
  revert found d. induction entries as [|e entries IH]; intros found d; cbn [tarLoop].
  - destruct ends, found; simpl; intros H; by simplify_eq.
  - unfold candidateIn. cbn [List.filter]. destruct (String.eqb _ binaryName) eqn:En; cbn [negb]; [|by apply IH].
    destruct found; [done|]. case_if; [done|]. to_prop.
    destruct (writeCandidate _ _ _ _ _) as [[err|] d1] eqn:Ew; [done|].
    apply writeCandidate_ok in Ew as (data & Hd & Hs & Hm & ->). intros Hr. apply IH in Hr as [-> [Hf ->]].
    split; [done|]. exists data. split; [|done]. exists e. rewrite Hf. split_and!; try done. congruence.
Qed.

Lemma extractCandidate_ok env archive assetName binaryName d d' :
  extractCandidate env archive assetName binaryName d = (None, d') ->
  exists data, holdsCandidate env archive binaryName data /\ d' = <[binaryName := data]> d.
Proof.
  unfold extractCandidate. case_if; [|case_if; [|done]].
  - unfold extractZipCandidate. destruct (zipEntries env archive) as [entries|] eqn:Ez; [|done].
    destruct (bfilter _ entries) as [|e [|]] eqn:Ef; try done. case_if; [done|]. to_prop.
    intros (data & Hd & Hs & Hm & ->)%writeCandidate_ok. exists data. split; [|done].
    exists entries. split; [|by left]. exists e. split_and!; done.
  - unfold extractTarCandidate. destruct (tarEntries env archive) as [[entries ends]|] eqn:Et; [|done].
    intros [-> (data & Hc & ->)]%tarLoop_ok. exists data. split; [|done]. exists entries. eauto.
Qed.

(** ** Lemmas: staging *)

Lemma exactAsset_ok assets name a :
  exactAsset assets name = Ok a -> bfilter (fun x => String.eqb (aName x) name) assets = [a].
Proof. unfold exactAsset. destruct (bfilter _ assets) as [|x [|]]; by intros [= ->]. Qed.

(** What the staged directory holds, and what it was checked against. *)
Definition verified (env : StageEnv) (client : Client) (validator : Validator) (goos goarch : string)
  (check : CheckResult) (asset : Asset) (checksum sha binaryName archive binary : string) : Prop :=
  exists a, client (aURL asset) = Some a /\ trusted validator (aURL asset) a /\ body a = Some archive /\
    slen archive <= maxArchiveBytes /\ sha = hexEncode (sha256 env archive) /\ EqualFold sha checksum = true /\
    (aDigest asset <> "" -> EqualFold ("sha256:" +:+ sha) (TrimSpace (aDigest asset)) = true) /\
    binaryName = (if String.eqb goos goosWindows then windowsExecutableName else productName) /\
    holdsCandidate env archive binaryName binary /\
    (goos = runtimeGOOS env -> goarch = runtimeGOARCH env ->
     verifyCandidateVersion (runsVersion env) binary (Latest check) = None).

Lemma fillDir_ok env client validator goos goarch check asset checksum sha binaryName d' :
  fillDir env client validator goos goarch check asset checksum ∅ = (Ok (sha, binaryName), d') ->
  exists archive binary,
    verified env client validator goos goarch check asset checksum sha binaryName archive binary /\
    d' !! binaryName = Some binary /\
    (binaryName <> AssetName goos goarch -> d' !! AssetName goos goarch = Some archive).
Proof.
  unfold fillDir. destruct (downloadFile _ _ _ _ _ _ _) as [[s|] d1] eqn:Ed; [|done].
  apply downloadFile_ok in Ed as (a & archive & Ha & Ht & Hb & Hl & -> & ->); [|apply limits_nonneg].
  case_if; [done|]. case_if; [done|]. rewrite lookup_insert_eq. cbn [from_option id].
  set (binName := if String.eqb goos goosWindows then _ else _).
  destruct (extractCandidate _ _ _ _ _) as [[|] d2] eqn:Ex; [done|].
  apply extractCandidate_ok in Ex as (binary & Hc & ->). rewrite lookup_insert_eq. cbn [from_option id].
  destruct (if _ && _ then _ else _) eqn:Ev; [done|]. intros [= <- <- <-]. exists archive, binary.
  split_and!; [|by rewrite lookup_insert_eq|intros Hne; by rewrite lookup_insert_ne, lookup_insert_eq].
  exists a. to_prop. split_and!; try done.
  - intros Hd. destruct E0 as [E0|E0]; to_prop; [congruence|done].
  - intros -> ->. by rewrite !String.eqb_refl in Ev.
Qed.

(** ** Lemmas: replacing the executable *)

Lemma rename_lookup a b fs f c :
  fs !! a = Some f -> a <> b ->
  rename a b fs !! c = if decide (c = b) then Some f else if decide (c = a) then None else fs !! c.
Proof.
  intros Hf Hab. unfold rename. rewrite Hf. destruct (decide (c = b)) as [->|]; [by rewrite lookup_insert_eq|].
  rewrite lookup_insert_ne by done. destruct (decide (c = a)) as [->|]; [by rewrite lookup_delete_eq|].
  by rewrite lookup_delete_ne.
Qed.

(** The old executable is at the target or at the backup, or the new one is at
    the target and has shown its version. *)
Definition recoverable (runs : string -> option string) (target version : string) (old : File) (fs : Files) : Prop :=
  fs !! target = Some old \/ fs !! backupOf target = Some old \/
  exists f, fs !! target = Some f /\ verifyCandidateVersion runs (fContent f) version = None.

Lemma backup_ne target : backupOf target <> target.
Proof.
  intros E. assert (slen (backupOf target) = slen target) as H by by rewrite E.
  unfold backupOf in H. rewrite slen_app in H. change (slen ".pxgo-update-backup") with 19 in H. lia.
Qed.

(** The files other than the ones a replacement is about. *)
Definition same_elsewhere (tmp target : string) (fs fs' : Files) : Prop :=
  forall p, p <> tmp -> p <> target -> p <> backupOf target -> fs' !! p = fs !! p.

(** The directory once the old executable is the backup, and once the new one
    has its place. *)
Definition backedUp (tmp target : string) (old new : File) (fs : Files) : Files :=
  rename target (backupOf target) (<[tmp := new]> fs).

Lemma backedUp_lookup tmp target old new fs p :
  fs !! target = Some old -> fs !! tmp = None ->
  backedUp tmp target old new fs !! p =
    if decide (p = backupOf target) then Some old else if decide (p = target) then None
    else if decide (p = tmp) then Some new else fs !! p.
Proof.
  intros Ht Hn. assert (tmp <> target) as Hne by congruence. unfold backedUp.
  rewrite (rename_lookup _ _ _ old); [|by rewrite lookup_insert_ne|by apply not_eq_sym, backup_ne].
  repeat case_decide; try done; subst; by rewrite ?lookup_insert_eq, ?lookup_insert_ne.
Qed.

Lemma activated_lookup tmp target old new fs p :
  fs !! target = Some old -> fs !! tmp = None -> tmp <> backupOf target ->
  rename tmp target (backedUp tmp target old new fs) !! p =
    if decide (p = target) then Some new else if decide (p = tmp) then None
    else if decide (p = backupOf target) then Some old else fs !! p.
Proof.
  intros Ht Hn Hb. assert (tmp <> target) as Hne by congruence.
  rewrite (rename_lookup _ _ _ new); [|rewrite (backedUp_lookup _ _ old) by done; repeat case_decide; congruence|done].
  rewrite (backedUp_lookup _ _ old) by done. repeat case_decide; congruence.
Qed.

(** Rolling back from either state restores the directory. *)
Lemma rollback_lookup target old (fs s : Files) p :
  fs !! target = Some old -> fs !! backupOf target = None -> s !! backupOf target = Some old ->
  rename (backupOf target) target s !! p =
    if decide (p = target) then fs !! p else if decide (p = backupOf target) then fs !! p else s !! p.
Proof.
  intros Ht Hb Hs. rewrite (rename_lookup _ _ _ old) by (done || apply backup_ne).
  repeat case_decide; congruence.
Qed.

(** Splits a [Forall] over a listed trace into its states. *)
Ltac each_state := repeat (apply Forall_cons; split); try apply Forall_nil; try done.

Section Replace.
Context (env : ApplyEnv) (tmp target version : string) (old new : File) (fs : Files).
Hypotheses (Htarget : fs !! target = Some old) (Htmp : fs !! tmp = None)
  (Hbackup : fs !! backupOf target = None) (Hfresh : tmp <> backupOf target).

Let ok := recoverable (runs env) target version old.

(** The temporary file was written; nothing else was touched. *)
Lemma early_failure :
  let fs1 := <[tmp := new]> fs in
  let trace := [fs1; if removeTempOk env then delete tmp fs1 else fs1] in
  Forall ok (fs :: trace) /\ (removeTempOk env = true -> List.last trace fs = fs).
Proof.
  clear Hbackup Hfresh.
  assert (tmp <> target) as Hne by congruence. assert (delete tmp (<[tmp := new]> fs) = fs) as Hd by by apply delete_insert_id.
  assert (ok fs) as H0 by by left. assert (ok (<[tmp := new]> fs)) as H1 by (left; by rewrite lookup_insert_ne).
  simpl. split; [|by intros ->]. each_state. case_if; [by rewrite Hd|done].
Qed.

Lemma backedUp_ok : ok (backedUp tmp target old new fs).
Proof. clear Hbackup Hfresh. right; left. rewrite backedUp_lookup by done. by rewrite decide_True. Qed.

Lemma activated_ok : ok (rename tmp target (backedUp tmp target old new fs)).
Proof.
  right; left. rewrite activated_lookup by done. pose proof (backup_ne target). repeat case_decide; congruence.
Qed.

(** The new file could not be given the target's name. *)
Lemma activation_failure :
  let fs2 := backedUp tmp target old new fs in
  let fs3 := if rollbackOk env then rename (backupOf target) target fs2 else fs2 in
  let trace := [<[tmp := new]> fs; fs2; fs3; if removeTempOk env then delete tmp fs3 else fs3] in
  Forall ok (fs :: trace) /\ (rollbackOk env = true -> removeTempOk env = true -> List.last trace fs = fs).
Proof.
  assert (tmp <> target) as Hne by congruence. pose proof (backup_ne target) as Hbt.
  set (fs2 := backedUp tmp target old new fs).
  assert (forall p, rename (backupOf target) target fs2 !! p = if decide (p = tmp) then Some new else fs !! p) as Hr.
  { intros p. rewrite (rollback_lookup _ old fs); [|done|done|unfold fs2; rewrite backedUp_lookup by done; by rewrite decide_True].
    unfold fs2. rewrite backedUp_lookup by done. repeat case_decide; congruence. }
  assert (delete tmp (rename (backupOf target) target fs2) = fs) as Hd.
  { apply map_eq. intros p. destruct (decide (p = tmp)) as [->|]; [by rewrite lookup_delete_eq|].
    rewrite lookup_delete_ne, Hr by done. by rewrite decide_False. }
  cbv zeta. split; [|intros -> ->; exact Hd]. pose proof early_failure as [He _]. pose proof backedUp_ok as H2.
  apply Forall_cons in He as [H0 He]. apply Forall_cons in He as [H1 _].
  assert (ok (rename (backupOf target) target fs2)) as H3 by (left; rewrite Hr; by rewrite decide_False).
  assert (ok (delete tmp fs2)) as H4.
  { right; left. rewrite lookup_delete_ne by done. unfold fs2. rewrite backedUp_lookup by done. by rewrite decide_True. }
  each_state; repeat case_if; try done. by rewrite Hd.
Qed.

(** The installed version is wrong. *)
Lemma verification_failure :
  let fs3 := rename tmp target (backedUp tmp target old new fs) in
  let fs4 := if removeTargetOk env then delete target fs3 else fs3 in
  let fs5 := if rollbackOk env then rename (backupOf target) target fs4 else fs4 in
  ok fs4 /\ ok fs5 /\ (rollbackOk env = true -> fs5 = fs).
Proof.
  assert (tmp <> target) as Hne by congruence. pose proof (backup_ne target) as Hbt.
  set (fs3 := rename tmp target _). cbv zeta. set (fs4 := if removeTargetOk env then _ else _).
  assert (fs4 !! backupOf target = Some old) as Hb4.
  { subst fs4. case_if; rewrite ?lookup_delete_ne by done; unfold fs3; rewrite activated_lookup by done;
      repeat case_decide; congruence. }
  assert (rename (backupOf target) target fs4 = fs) as Hd.
  { apply map_eq. intros p. rewrite (rollback_lookup _ old fs) by done. repeat case_decide; try done.
    subst fs4. case_if; rewrite ?lookup_delete_ne by done; unfold fs3; rewrite activated_lookup by done;
      repeat case_decide; congruence. }
  split_and!; [by right; left|case_if; [rewrite Hd; by left|by right; left]|by intros ->].
Qed.

(** The new executable is in place and shows its version. *)
Lemma installation :
  verifyCandidateVersion (runs env) (fContent new) version = None ->
  let fs3 := rename tmp target (backedUp tmp target old new fs) in
  let fs4 := if removeBackupOk env then delete (backupOf target) fs3 else fs3 in
  ok fs4 /\ fs4 !! target = Some new /\ fs4 !! tmp = None /\
  (removeBackupOk env = true -> fs4 !! backupOf target = None) /\ same_elsewhere tmp target fs fs4.
Proof.
  intros Hv. assert (tmp <> target) as Hne by congruence. pose proof (backup_ne target) as Hbt.
  set (fs3 := rename tmp target _). cbv zeta. set (fs4 := if removeBackupOk env then _ else _).
  assert (forall p, p <> backupOf target -> fs4 !! p = fs3 !! p) as H4.
  { intros p Hp. subst fs4. case_if; [by rewrite lookup_delete_ne|done]. }
  assert (fs4 !! target = Some new) as Ht.
  { rewrite H4 by done. unfold fs3. rewrite activated_lookup by done. by rewrite decide_True. }
  split_and!; [right; right; by exists new|done| | |].
  - rewrite H4 by done. unfold fs3. rewrite activated_lookup by done. repeat case_decide; congruence.
  - subst fs4. intros ->. apply lookup_delete_eq.
  - intros p H1 H2 H3. rewrite H4 by done. unfold fs3. rewrite activated_lookup by done. by rewrite !decide_False.
Qed.

End Replace.

Lemma replaceTarget_spec env tmp target content version fs old out trace :
  fs !! target = Some old -> fs !! tmp = None -> tmp <> backupOf target ->
  replaceTarget env tmp target content version fs = (out, trace) ->
  Forall (recoverable (runs env) target version old) (fs :: trace) /\
  let final := List.last trace fs in
  match out with
  | Installed removed =>
      final !! target = Some (mkFile content true) /\ verifyCandidateVersion (runs env) content version = None /\
      final !! tmp = None /\ (removed = true -> final !! backupOf target = None) /\ same_elsewhere tmp target fs final
  | Failed _ => rollbackOk env = true -> removeTempOk env = true -> final = fs
  end.
Proof.
  intros Ht Hn Hne. unfold replaceTarget. cbv zeta. rewrite !insert_insert_eq.
  pose proof (early_failure env tmp target version old (mkFile "" true) fs Ht Hn) as [He0 Hd0].
  pose proof (early_failure env tmp target version old (mkFile content true) fs Ht Hn) as [He Hd].
  set (new := mkFile content true) in *.
  case_if; [intros [= <- <-]; split; [each_state; by left|done]|].
  case_if; [intros [= <- <-]; by split; [|intros _]|].
  do 2 (case_if; [intros [= <- <-]; by split; [|intros _]|]). rename E2 into Hb.
  do 2 (case_if; [intros [= <- <-]; by split; [|intros _]|]).
  apply bool_decide_eq_false in Hb. rewrite lookup_insert_ne, <- eq_None_not_Some in Hb by done.
  change (rename target (backupOf target) (<[tmp := new]> fs)) with (backedUp tmp target old new fs).
  case_if; [intros [= <- <-]; by apply activation_failure|].
  apply Forall_cons in He as [H0 He]. apply Forall_cons in He as [H1 _].
  pose proof (backedUp_ok env tmp target version old new fs Ht Hn) as H2.
  pose proof (activated_ok env tmp target version old new fs Ht Hn Hb Hne) as H3.
  destruct (verifyCandidateVersion (runs env) content version) eqn:Ev; intros [= <- <-].
  - destruct (verification_failure env tmp target version old new fs Ht Hn Hb Hne) as (H4 & H5 & Hf).
    split; [each_state|intros Hr _; by apply Hf].
  - destruct (installation env tmp target version old new fs Ht Hn Hb Hne Ev) as (H4 & Hr).
    split; [each_state|]. simpl. destruct Hr as (? & ? & ? & ?). by split_and!.
Qed.

(** The release's asset for the platform, the checksum file's line for it, and
    what was downloaded, extracted and run. *)
Definition staged_from (env : StageEnv) (client : Client) (validator : Validator) (goos goarch : string)
  (check : CheckResult) (c : StagedCandidate) (archive binary : string) : Prop :=
  let goos := if String.eqb goos "" then runtimeGOOS env else goos in
  let goarch := if String.eqb goarch "" then runtimeGOARCH env else goarch in
  let assetName := AssetName goos goarch in
  Available check = true /\
  exists asset sums text checksum,
    bfilter (fun a => String.eqb (aName a) assetName) (rAssets (cRelease check)) = [asset] /\
    bfilter (fun a => String.eqb (aName a) checksumsAssetName) (rAssets (cRelease check)) = [sums] /\
    (exists a, client (aURL sums) = Some a /\ trusted validator (aURL sums) a /\ body a = Some text) /\
    ChecksumForAsset text assetName = Ok checksum /\
    verified env client validator goos goarch check asset checksum (sSHA256 c) (sBinary c) archive binary.

Lemma downloadBytes_ok client validator rawURL limit data :
  downloadBytes client validator rawURL limit = Ok data ->
  exists a, client rawURL = Some a /\ trusted validator rawURL a /\ body a = Some data.
Proof.
  unfold downloadBytes. destruct (doGet _ _ _) as [b|] eqn:Eg; [|done]. apply doGet_ok in Eg as (a & Ha & Ht & ->).
  cbn [mbind result_bind]. destruct (body a) eqn:Eb; [|done]. case_if; [done|]. intros [= <-]. by exists a.
Qed.

Lemma StageCheck_spec env client validator goos goarch check w r w' :
  dirs w !! nextDir w = None ->
  StageCheck env client validator goos goarch check w = (r, w') ->
  match r with
  | Ok c =>
      exists archive binary d, staged_from env client validator goos goarch check c archive binary /\
        sDir c = nextDir w /\ dirs w' = <[sDir c := d]> (dirs w) /\ d !! sBinary c = Some binary
  | Err _ => removeAllOk env = true -> dirs w' = dirs w
  end.
Proof.
  intros Hd. unfold StageCheck, staged_from. destruct (Available check) eqn:Ea; [|by intros [= <- <-]]. cbn [negb].
  set (os := if String.eqb goos "" then _ else _). set (arch := if String.eqb goarch "" then _ else _).
  destruct (exactAsset _ (AssetName os arch)) as [asset|] eqn:Easset; [|by intros [= <- <-]].
  destruct (exactAsset _ checksumsAssetName) as [sums|] eqn:Esums; [|by intros [= <- <-]]. cbn [mbind result_bind].
  destruct (downloadBytes _ _ _ _) as [text|] eqn:Etext; [|by intros [= <- <-]]. cbn [mbind result_bind].
  destruct (ChecksumForAsset text _) as [checksum|] eqn:Esum; [|by intros [= <- <-]].
  destruct (digestAgrees asset checksum); [by intros [= <- <-]|].
  case_if; [by intros [= <- <-]|].
  destruct (fillDir _ _ _ _ _ _ _ _ _) as [[[sha bin]|] d] eqn:Ef; intros [= <- <-].
  - apply fillDir_ok in Ef as (archive & binary & Hv & Hb & _). exists archive, binary, d. cbn.
    rewrite insert_insert_eq. split_and!; try done. exists asset, sums, text, checksum.
    split_and!; try done; by first [apply exactAsset_ok|eapply downloadBytes_ok].
  - unfold cleanupStaged. intros ->. cbn. rewrite insert_insert_eq. by apply delete_insert_id.
Qed.

(** ** Lemmas: the service *)

Lemma serviceCheck_ok s current st :
  serviceCheck s current = Ok st ->
  ResolveProvider (sGetenv s) (sEval s) (sProvider s) (default (sExecutable s) (sEval s (sExecutable s))) (sGOOS s)
    = Ok (stProvider st) /\
  exists ch, Check_ (sService s) ch current = Ok (stCheck st).
Proof.
  unfold serviceCheck. destruct (ResolveProvider _ _ _ _ _); [|done]. destruct (ParseChannel _); [|done].
  destruct (Check_ _ _ _) eqn:Ec; [|done]. intros [= <-]. eauto.
Qed.

Definition stale_kept (stale : nat -> bool) (w : World) : gmap nat Dir :=
  filter (fun kv => stale kv.1 = false) (dirs (staging w)).

(** What [Prepare] leaves: no lock and nothing staged on an error; the lock, and
    a verified candidate for a direct update, otherwise. *)
Lemma Prepare_spec s env client openOk stale current w r w' :
  dirs (staging w) !! nextDir (staging w) = None ->
  Prepare s env client openOk stale current w = (r, w') ->
  files w' = files w /\
  match r with
  | Err _ => locked w' = locked w /\ (removeAllOk env = true -> dirs (staging w') ⊆ dirs (staging w))
  | Ok p =>
      serviceCheck s current = Ok (pStatus p) /\ pLock p = negb (String.eqb (sStatePath s) "") /\
      (pLock p = true -> locked w = false /\ locked w' = true) /\ (pLock p = false -> locked w' = locked w) /\
      match pStaged p with
      | None => (Available (stCheck (pStatus p)) = true -> stProvider (pStatus p) <> ProviderDirect) /\
          dirs (staging w') = stale_kept stale w
      | Some c => exists archive binary d,
          stProvider (pStatus p) = ProviderDirect /\
          staged_from env client ValidateDownloadURL (sGOOS s) (sGOARCH s) (stCheck (pStatus p)) c archive binary /\
          stale_kept stale w !! sDir c = None /\
          dirs (staging w') = <[sDir c := d]> (stale_kept stale w) /\ d !! sBinary c = Some binary
      end
  end.
Proof.
  intros Hd. unfold Prepare, acquireUpdateLock.
  assert (stale_kept stale w ⊆ dirs (staging w)) as Hsub by apply map_filter_subseteq.
  assert (stale_kept stale w !! nextDir (staging w) = None) as Hfresh.
  { destruct (stale_kept _ _ !! _) eqn:E; [|done]. eapply lookup_weaken in E; [|done]. congruence. }
  destruct (String.eqb (sStatePath s) "") eqn:Ep; [|destruct openOk; cbn [negb]; [|by intros [= <- <-]];
    destruct (locked w) eqn:El; [by intros [= <- <-]|]].
  all: destruct (serviceCheck s current) as [st|] eqn:Es; [|intros [= <- <-]; by rewrite ?El].
  all: case_if; [intros [= <- <-]; cbn; rewrite ?El; split_and!; try done; to_prop; destruct E as [E|E]; to_prop; congruence|].
  all: to_prop; destruct (StageCheck _ _ _ _ _ _ _) as [[c|] sw] eqn:Ec; apply StageCheck_spec in Ec; [|exact Hfresh| |exact Hfresh]; cbn in Ec;
    intros [= <- <-]; cbn; rewrite ?El.
  all: try (destruct Ec as (archive & binary & d & Hs & Hi & Hd' & Hb); split_and!; try done;
            exists archive, binary, d; split_and!; try done; congruence).
  all: split_and!; try done; intros Hr; rewrite (Ec Hr); exact Hsub.
Qed.

(** Applying changes the files only by the replacement with the staged binary,
    and what is left to clean up is what the prepared update held. *)
Lemma ApplyPrepared_spec s aenv managed tmp binaryPath p w r p' w' :
  ApplyPrepared s aenv managed true tmp binaryPath p w = (r, (p', w')) ->
  Cleanup true p' w' = Cleanup true p (mkWorld (staging w) (locked w) (files w')) /\
  (files w' <> files w -> exists c, pStaged p = Some c /\ Available (stCheck (pStatus p)) = true /\
     files w' = List.last (applyUnix aenv tmp binaryPath (sExecutable s) (Latest (stCheck (pStatus p)))
       ((fun content => mkFile content true) <$> (dirs (staging w) !! sDir c ≫= (fun d => d !! sBinary c))) (files w)).2 (files w)).
Proof.
  unfold ApplyPrepared. destruct (Available _) eqn:Ea; cbn [negb]; [|by destruct w; intros [= <- <- <-]].
  case_if; [case_if; by destruct w; intros [= <- <- <-]|].
  destruct (pStaged p) as [c|] eqn:Es; [|by destruct w; intros [= <- <- <-]].
  destruct (applyUnix _ _ _ _ _ _ _) as [[e|] trace] eqn:Eu; intros [= <- <- <-].
  - cbn. split; [done|]. intros _. exists c. split_and!; try done. by rewrite Eu.
  - unfold Cleanup. rewrite Es. cbn. split; [by destruct (pLock p)|]. destruct (pLock p); cbn; intros _; exists c;
      split_and!; try done; by rewrite Eu.
Qed.

(** ** Properties *)

(** C37: only a verified candidate is staged: its archive is the only asset of
    the platform's name, came over allowed URLs and redirects only, and has the
    SHA-256 the release's checksum file gives it and, if present, the asset's
    digest; the binary is the archive's only entry of its name, of the size
    declared, and on the running platform it prints the release's version.  A
    failed staging leaves no directory behind. *)
Theorem staged_is_verified env client validator goos goarch check w r w' :
  dirs w !! nextDir w = None ->
  StageCheck env client validator goos goarch check w = (r, w') ->
  match r with
  | Ok c =>
      exists archive binary d, staged_from env client validator goos goarch check c archive binary /\
        sDir c = nextDir w /\ dirs w' = <[sDir c := d]> (dirs w) /\ d !! sBinary c = Some binary
  | Err _ => removeAllOk env = true -> dirs w' = dirs w
  end.
Proof. apply StageCheck_spec. Qed.

(** The helper's replacement, whatever the outcome. *)
Lemma runApplyHelper_spec env pid tmp helper target version content fs old r trace :
  fs !! target = Some old -> fs !! tmp = None -> tmp <> backupOf target ->
  runApplyHelper env pid tmp helper target version content fs = (r, trace) ->
  Forall (recoverable (runs (hApply env)) target version old) (fs :: trace) /\
  (r = None \/ r = Some ERestart -> List.last trace fs !! target = Some (mkFile content true) /\
     verifyCandidateVersion (runs (hApply env)) content version = None) /\
  (forall e, r = Some e -> e <> ERestart -> rollbackOk (hApply env) = true -> removeTempOk (hApply env) = true ->
     List.last trace fs = fs) /\
  (r = Some ERestart -> restart env = true /\ restartOk env = false).
Proof.
  intros Ht Hn Hne. assert (forall e, recoverable e target version old fs) as H0 by (intros; by left). unfold runApplyHelper.
  do 7 (case_if; [intros [= <- <-]; split_and!; [each_state|by intros [|]|done|done]|]).
  destruct (replaceTarget _ _ _ _ _ _) as [out tr] eqn:Er.
  destruct (replaceTarget_spec _ _ _ _ _ _ _ _ _ Ht Hn Hne Er) as [Hrec Hout].
  destruct out as [e|removed]; intros [= <- <-].
  + assert (e <> ERestart) as Hne'.
    { intros ->. clear Hout. revert Er. unfold replaceTarget. repeat (case_if; [done|]). by destruct (verifyCandidateVersion _ _ _). }
    split_and!; [done|by intros [|[= ?]]| |by intros [= ?]]. intros _ [= <-] _ Hr Hrm. by apply Hout.
  + destruct Hout as (H1 & H2 & H3 & H4 & H5). split_and!; [done|done| |]; case_if; try done; [by intros ? [= <-]|].
    intros _. by to_prop.
Qed.

(** C5: an update never loses the executable: in every state a replacement goes
    through, on Unix and in the Windows helper, the old executable is at the
    target or at the backup, or the new one is at the target and has shown its
    version.  Success means the staged content is installed with nothing else
    touched; a failure whose rollback works leaves the directory as it was,
    save that Unix reports a backup it could not remove. *)
Theorem executable_never_lost target version tmp old fs r trace :
  fs !! target = Some old -> fs !! tmp = None -> tmp <> backupOf target ->
  (forall env candidate staged, applyUnix env tmp candidate target version staged fs = (r, trace) ->
     Forall (recoverable (runs env) target version old) (fs :: trace) /\
     (r = None -> exists c, staged = Some c /\
        List.last trace fs !! target = Some (mkFile (fContent c) true) /\
        List.last trace fs !! backupOf target = None /\
        verifyCandidateVersion (runs env) (fContent c) version = None /\
        same_elsewhere tmp target fs (List.last trace fs)) /\
     (forall e, r = Some e -> e <> ERemoveBackup -> rollbackOk env = true -> removeTempOk env = true ->
        List.last trace fs = fs)) /\
  (forall env pid helper content,
     runApplyHelper env pid tmp helper target version content fs = (r, trace) ->
     Forall (recoverable (runs (hApply env)) target version old) (fs :: trace) /\
     (r = None \/ r = Some ERestart -> List.last trace fs !! target = Some (mkFile content true) /\
        verifyCandidateVersion (runs (hApply env)) content version = None) /\
     (forall e, r = Some e -> e <> ERestart -> rollbackOk (hApply env) = true -> removeTempOk (hApply env) = true ->
        List.last trace fs = fs)).
Proof.
  intros Ht Hn Hne.
  assert (forall e, recoverable e target version old fs) as H0 by (intros; by left). split.
  - intros env candidate staged. unfold applyUnix.
    do 3 (case_if; [intros [= <- <-]; split_and!; [each_state|done|done]|]).
    destruct staged as [c|]; [|intros [= <- <-]; split_and!; [each_state|done|done]].
    case_if; [intros [= <- <-]; split_and!; [each_state|done|done]|].
    destruct (replaceTarget _ _ _ _ _ _) as [out tr] eqn:Er.
    destruct (replaceTarget_spec _ _ _ _ _ _ _ _ _ Ht Hn Hne Er) as [Hrec Hout].
    destruct out as [e|removed]; intros [= <- <-].
    + split_and!; [done|done|]. intros _ [= <-] _ Hr Hrm. by apply Hout.
    + destruct Hout as (H1 & H2 & H3 & H4 & H5). split_and!; [done| |].
      * destruct removed; [|done]. intros _. exists c. split_and!; auto.
      * destruct removed; [done|]. by intros _ [= <-].
  - intros env pid helper content Hr. by destruct (runApplyHelper_spec _ _ _ _ _ _ _ _ _ _ _ Ht Hn Hne Hr) as (? & ? & ? & _).
Qed.


(** ** Witnesses *)

Definition wit_binary : string := "ELF".
Definition wit_sum : string := "abababababababababababababababababababababababababababababababab".
Definition wit_url (name : string) : string := "https://github.com" +:+ releasePath +:+ "v2.0.0/" +:+ name.
Definition wit_env : StageEnv :=
  mkStageEnv (fun _ => repeat 171 32) (fun _ => None)
    (fun _ => Some ([mkEntry "README" KRegular 2 (Some "hi"); mkEntry "pxgo" KRegular 3 (Some wit_binary)], true))
    (fun _ => Some "v2.0.0") true (fun _ => true) true true true "linux" "amd64".
Definition wit_client : Client := fun url =>
  if HasSuffix url "checksums.txt" then Some (mkAnswer [] 200 (Some (wit_sum +:+ "  pxgo_linux_amd64.tar.gz")))
  else Some (mkAnswer ["https://objects.githubusercontent.com/x"] 200 (Some "archive")).
Definition wit_assets : list Asset :=
  [mkAsset "checksums.txt" (wit_url "checksums.txt") "";
   mkAsset "pxgo_linux_amd64.tar.gz" (wit_url "pxgo_linux_amd64.tar.gz") ("sha256:" +:+ wit_sum)].
Definition wit_check : CheckResult :=
  mkCheck "1.0.0" "2.0.0" true (mkRelease "2.0.0" "v2.0.0" false wit_assets).
Definition wit_staging : Staging := mkStaging ∅ 0.
Definition wit_staged : StagedCandidate :=
  mkStaged wit_check "pxgo_linux_amd64.tar.gz" "pxgo_linux_amd64.tar.gz" "pxgo" wit_sum 0.

Lemma staged_is_verified_witness :
  exists w', StageCheck wit_env wit_client ValidateDownloadURL "" "" wit_check wit_staging = (Ok wit_staged, w') /\
    exists archive binary d, staged_from wit_env wit_client ValidateDownloadURL "" "" wit_check wit_staged archive binary /\
      sDir wit_staged = 0%nat /\ dirs w' = <[sDir wit_staged := d]> ∅ /\ d !! sBinary wit_staged = Some binary.
Proof.
  eexists. split; [by vm_compute|].
  apply (staged_is_verified wit_env wit_client ValidateDownloadURL "" "" wit_check wit_staging (Ok wit_staged));
    [done|by vm_compute].
Defined.

Definition wit_files : Files := <["/opt/pxgo" := mkFile "old" true]> ∅.
Definition wit_apply : ApplyEnv :=
  mkApplyEnv false true true true true true true true true true true (fun c => if String.eqb c "ELF" then Some "2.0.0" else None).

Lemma executable_never_lost_witness :
  let out := applyUnix wit_apply "/opt/tmp" "/stage/pxgo" "/opt/pxgo" "2.0.0" (Some (mkFile "ELF" true)) wit_files in
  out.1 = None /\ length out.2 = 4%nat /\
  Forall (recoverable (runs wit_apply) "/opt/pxgo" "2.0.0" (mkFile "old" true)) (wit_files :: out.2).
Proof.
  intros out. split_and!; [by vm_compute | by vm_compute |].
  apply (proj1 (executable_never_lost "/opt/pxgo" "2.0.0" "/opt/tmp" (mkFile "old" true) wit_files out.1 out.2
      ltac:(by vm_compute) ltac:(by vm_compute) ltac:(by vm_compute)) wit_apply "/stage/pxgo" (Some (mkFile "ELF" true))
      (surjective_pairing out)).
Defined.

Definition wit_svc : Service :=
  mkService (mkChecker "" "" "")
    (Upd.mkService (fun _ => Ok (mkGithub "v2.0.0" false false wit_assets)) (fun _ => Ok []))
    "auto" "" "/opt/pxgo" "linux" "amd64" "/var/state.json" (fun _ => "") (fun _ => None).
Definition wit_world : World := mkWorld wit_staging false wit_files.


(** ** Examples *)

(** On Unix a backup that cannot be removed is reported as a failed update,
    although the new executable is installed and verified; the next update then
    stops at the leftover backup. *)
Example misreported_activation :
  let env := mkApplyEnv false true true true true true true true true false true (runs wit_apply) in
  let '(r, trace) := applyUnix env "/opt/tmp" "/stage/pxgo" "/opt/pxgo" "2.0.0" (Some (mkFile "ELF" true)) wit_files in
  let fs := List.last trace wit_files in
  r = Some ERemoveBackup /\ fs !! "/opt/pxgo" = Some (mkFile "ELF" true) /\
  (applyUnix env "/opt/tmp" "/stage/pxgo" "/opt/pxgo" "2.0.1" (Some (mkFile "ELF" true)) fs).1 = Some EBackupExists.
Proof. by vm_compute. Qed.

End Stg.
