(* ===== verification/ClientAuth.v ===== *)
(** * ClientAuth: how a client proves who it is ([internal/proxy/auth_client.go])

    Basic and Digest credentials, the nonces of Digest and the tables that keep
    each nonce count from being used twice, and the NTLM exchange with its
    challenge per connection.  The hash functions and the random bytes are
    parameters; the tables are state, changed one map operation at a time. *)

From S2P Require Export Prelude GoStrings GoText NetAddr Base64 Utf8.
From S2P Require UpstreamAuth.
Import UpstreamAuth.Ua(parseAuthParams, isNTLMSSP, unwrapSPNEGONTLMToken, spnegoNegTokenResp, maxSPNEGOTokenLen).

Module Ca.

Definition digestRealm : string := "PxClient".
Definition digestNonceLifetime : Duration := 120 * Second.
Definition digestNonceFutureSkew : Duration := 5 * Second.
Definition maxDigestCnonceLen : Z := 256.
Definition maxNTLMResponseLen : Z := 8192.

(** ** Digest nonces *)

(** Seconds from the zero time to 1970. *)
Definition unixEpoch : Z := 62135596800.
Definition Unix (t : Time) : Z := i64 (t / Second - unixEpoch).
Definition timeUnix (sec : Z) : Time := i64 (sec + unixEpoch) * Second.

Definition digestClientHost (remoteAddr : string) : string :=
  match SplitHostPort remoteAddr with Some (host, _) => host | None => remoteAddr end.

(** [strings.SplitN(s, ":", 3)] of three parts. *)
Definition split3 (s : string) : option (string * string * string) :=
  match Cut s ":" with
  | None => None
  | Some (a, s) => match Cut s ":" with None => None | Some (b, c) => Some (a, b, c) end
  end.

Fixpoint xor_all (a b : list ascii) (v : Z) : Z :=
  match a, b with
  | x :: a', y :: b' => xor_all a' b' (Z.lor v (Z.lxor (ord x) (ord y)))
  | _, _ => v
  end.
Definition subtleEqualHex (a b : string) : bool :=
  (slen a =? slen b) && (xor_all (String.list_ascii_of_string a) (String.list_ascii_of_string b) 0 =? 0).

Section Nonce.

(** HMAC-SHA-256 under the process's key. *)
Context (hmacSHA256 : string -> bytes).

Definition digestNonceMAC (tsText salt host : string) : bytes :=
  hmacSHA256 (tsText +:+ ":" +:+ salt +:+ ":" +:+ host +:+ ":" +:+ digestRealm).

(** [salt] is [newCnonce()]: sixteen hexadecimal digits. *)
Definition digestNonceAt (remoteAddr : string) (issuedAt : Time) (salt : string) : string :=
  let ts := Itoa (Unix issuedAt) in
  let mac := digestNonceMAC ts salt (digestClientHost remoteAddr) in
  b64_encode (str_bytes (ts +:+ ":" +:+ salt +:+ ":" +:+ hexEncode mac)).

Definition verifyDigestNonceAt (nonce remoteAddr : string) (now : Time) : bool :=
  match b64_decode nonce with
  | None => false
  | Some raw =>
      match split3 (bytes_str raw) with
      | None => false
      | Some (tsText, salt, macHex) =>
          match Atoi tsText with
          | Err _ => false
          | Ok ts =>
              let age := subT now (timeUnix ts) in
              if (digestNonceLifetime <? age) || (age <? - digestNonceFutureSkew) then false
              else subtleEqualHex macHex (hexEncode (digestNonceMAC tsText salt (digestClientHost remoteAddr)))
          end
      end
  end.

End Nonce.

(** ** The tables of nonce counts *)

Record NonceCount := mkNonceCount { count : Z; created : Time }.
Record Tables := mkTables {
  nonceCounts : gmap string NonceCount;   (** [digestNonceCounts], by upstream nonce *)
  seenNonces : gmap string Time;          (** [seenClientNonces]: "nonce|nc" to expiry *)
  lastPrune : Z }.

Definition nonceKey (nonce nc : string) : string := nonce +:+ "|" +:+ nc.

(** [strconv.FormatInt(v, 16)] padded to eight digits, as ["%08x"] does. *)
Definition hex08 (v : Z) : string :=
  let s := hex_digits 16 v "" in
  String.string_of_list_ascii (repeat "0"%char (8 - String.length s)) +:+ s.

Definition pruneDigestMaps (now : Time) (t : Tables) : Tables :=
  if Unix now - lastPrune t <? digestNonceLifetime / Second then t
  else mkTables
    (filter (fun kv => subT now (created kv.2) <= digestNonceLifetime) (nonceCounts t))
    (filter (fun kv => after now kv.2 = false) (seenNonces t)) (Unix now).

(** [now] is the reading for a new entry and [tp] the one of [pruneDigestMaps];
    the counter that is raised is the one found before the pruning, which may
    have dropped it from the table. *)
Definition nextDigestNC (now tp : Time) (nonce : string) (t : Tables) : string * Tables :=
  let v := default (mkNonceCount 0 now) (nonceCounts t !! nonce) in
  let t := pruneDigestMaps tp (mkTables (<[nonce := v]> (nonceCounts t)) (seenNonces t) (lastPrune t)) in
  let n := u64 (count v + 1) in
  let t := match nonceCounts t !! nonce with
           | Some w => mkTables (<[nonce := mkNonceCount n (created w)]> (nonceCounts t)) (seenNonces t) (lastPrune t)
           | None => t
           end in
  (hex08 n, t).

Definition digestNonceSeen (now : Time) (nonce nc : string) (t : Tables) : bool * Tables :=
  match seenNonces t !! nonceKey nonce nc with
  | None => (false, t)
  | Some expiry =>
      if after now expiry
      then (false, mkTables (nonceCounts t) (delete (nonceKey nonce nc) (seenNonces t)) (lastPrune t))
      else (true, t)
  end.

Definition digestNonceMarkIfNew (now tp : Time) (nonce nc : string) (t : Tables) : bool * Tables :=
  let key := nonceKey nonce nc in
  let loaded := bool_decide (is_Some (seenNonces t !! key)) in
  let seen := if loaded then seenNonces t else <[key := addT now digestNonceLifetime]> (seenNonces t) in
  (negb loaded, pruneDigestMaps tp (mkTables (nonceCounts t) seen (lastPrune t))).

(** ** Basic and Digest credentials *)

Record ClientConfig := mkClientConfig { ClientUsername : string; ClientPassword : string }.

(** [urlForms] are the request URL's [IsAbs], [String] and [RequestURI]. *)
Record Request := mkRequest {
  ProxyAuthorization : string; Method : string; RequestURI : string; rHost : string;
  urlForms : option (bool * string * string); RemoteAddr : string }.

Definition authScheme (r : Request) (want : string) : option string :=
  match Cut (ProxyAuthorization r) " " with
  | Some (scheme, token) => if EqualFold scheme want then Some (TrimSpace token) else None
  | None => None
  end.

Definition checkBasicClientAuth (c : ClientConfig) (r : Request) : bool :=
  match authScheme r "Basic" with
  | None => false
  | Some token =>
      match b64_decode token with
      | None => false
      | Some raw =>
          match Cut (bytes_str raw) ":" with
          | None => false
          | Some (user, pass) =>
              (String.eqb (ClientUsername c) "" || String.eqb user (ClientUsername c)) &&
              String.eqb pass (ClientPassword c)
          end
      end
  end.

Definition digestRequestTarget (r : Request) : string :=
  if negb (String.eqb (RequestURI r) "") then RequestURI r
  else if String.eqb (Method r) "CONNECT" && negb (String.eqb (rHost r) "") then rHost r
  else match urlForms r with
       | None => ""
       | Some (isAbs, full, uri) => if isAbs then full else uri
       end.

Definition validDigestNC (nc : string) : bool := (slen nc =? 8) && str_forall is_hex nc.

(** The parameters of a Digest header, as [checkDigestClientAuth] reads them. *)
Definition param (params : gmap string string) (name : string) : string := default "" (params !! name).

Section Digest.
Context (hmacSHA256 : string -> bytes) (md5hex : string -> string).

(** The checks before the response is compared; [now] is the reading of
    [verifyDigestNonce]. *)
Definition digestAcceptable (c : ClientConfig) (r : Request) (now : Time) (ps : gmap string string) : bool :=
  negb (String.eqb (param ps "username") "") &&
  (String.eqb (ClientUsername c) "" || String.eqb (param ps "username") (ClientUsername c)) &&
  String.eqb (param ps "realm") digestRealm && negb (String.eqb (param ps "uri") "") &&
  negb (String.eqb (param ps "response") "") && verifyDigestNonceAt hmacSHA256 (param ps "nonce") (RemoteAddr r) now &&
  String.eqb (param ps "uri") (digestRequestTarget r) &&
  EqualFold (param ps "qop") "auth" && validDigestNC (param ps "nc") && negb (String.eqb (param ps "cnonce") "") &&
  (slen (param ps "cnonce") <=? maxDigestCnonceLen) &&
  (String.eqb (param ps "algorithm") "" || EqualFold (param ps "algorithm") "MD5").

Definition digestExpected (c : ClientConfig) (r : Request) (ps : gmap string string) : string :=
  let ha1 := md5hex (param ps "username" +:+ ":" +:+ param ps "realm" +:+ ":" +:+ ClientPassword c) in
  let ha2 := md5hex (Method r +:+ ":" +:+ param ps "uri") in
  md5hex (ha1 +:+ ":" +:+ param ps "nonce" +:+ ":" +:+ param ps "nc" +:+ ":" +:+ param ps "cnonce" +:+ ":" +:+
          param ps "qop" +:+ ":" +:+ ha2).

(** The four clock readings of a check are [tv], [ts], [tm] and [tp], in order. *)
Definition checkDigestClientAuth (c : ClientConfig) (r : Request) (tv ts tm tp : Time) (t : Tables) : bool * Tables :=
  match authScheme r "Digest" with
  | None => (false, t)
  | Some token =>
      let ps := parseAuthParams token in
      if negb (digestAcceptable c r tv ps) then (false, t)
      else
        let '(seen, t) := digestNonceSeen ts (param ps "nonce") (param ps "nc") t in
        if seen then (false, t)
        else if negb (subtleEqualHex (param ps "response") (digestExpected c r ps)) then (false, t)
        else digestNonceMarkIfNew tm tp (param ps "nonce") (param ps "nc") t
  end.
End Digest.

(** ** NTLM messages *)

Definition le16 (m : bytes) (off : nat) : Z := default 0 (m !! off) + 256 * default 0 (m !! S off).
Definition le32 (m : bytes) (off : nat) : Z := le16 m off + 65536 * le16 m (S (S off)).
Definition slice (m : bytes) (start len : Z) : bytes := take (Z.to_nat len) (drop (Z.to_nat start) m).

Definition put32 (v : Z) : bytes := [v mod 256; v / 256 mod 256; v / 65536 mod 256; v / 16777216 mod 256].

Definition ntlmSignature : bytes := [78; 84; 76; 77; 83; 83; 80; 0].

(** [serverChallenge] is eight random bytes. *)
Definition newNTLMChallenge (serverChallenge : bytes) : bytes :=
  ntlmSignature ++ put32 2 ++ repeat 0 8 ++ put32 2693300737 ++ serverChallenge ++ repeat 0 16.

(** [utf16.Decode]: a surrogate without its pair is the replacement character. *)
Fixpoint utf16Decode (us : list Z) : list Z :=
  match us with
  | [] => []
  | u :: us' =>
      if is_hi u then
        match us' with
        | v :: us'' => if is_lo v then surrogates u v :: utf16Decode us''
                       else 65533 :: utf16Decode us'
        | [] => [65533]
        end
      else (if is_lo u then 65533 else u) :: utf16Decode us'
  end.

Fixpoint pairs16 (data : bytes) : option (list Z) :=
  match data with
  | [] => Some []
  | [_] => None
  | a :: b :: rest => us ← pairs16 rest; Some ((a + 256 * b) :: us)
  end.

Definition utf16leToString (data : bytes) : option string :=
  (fun us => runes_string (utf16Decode us)) <$> pairs16 data.

Definition utf16Encode (r : Z) : list Z :=
  if r <=? 65535 then [r] else [55296 + (r - 65536) / 1024; 56320 + (r - 65536) mod 1024].

Definition utf16le (s : string) : bytes :=
  mjoin (map (fun u => [u mod 256; u / 256]) (mjoin (map utf16Encode (string_runes s)))).

Record ntlmAuthenticateMessage := mkNTLM {
  lmResponse : bytes; ntResponse : bytes; domain : string; user : string }.

Inductive NTLMErr := EMessage | EField | EOffset | ERange | EResponse | EText.

(** [readField]: a length and a 16-bit offset; the offset's high half must be 0. *)
Definition readField (msg : bytes) (offset : nat) : result NTLMErr bytes :=
  if zlen msg <? Z.of_nat offset + 8 then Err EField
  else
    let length := le16 msg offset in
    if negb (le16 msg (offset + 6) =? 0) then Err EOffset
    else
      let start := le16 msg (offset + 4) in
      if (zlen msg <? start) || (zlen msg - start <? length) then Err ERange
      else Ok (slice msg start length).

Definition decodeText (unicode : bool) (data : bytes) : result NTLMErr string :=
  if unicode then match utf16leToString data with Some s => Ok s | None => Err EText end
  else Ok (bytes_str data).

Definition parseNTLMAuthenticateMessage (msg : bytes) : result NTLMErr ntlmAuthenticateMessage :=
  if (zlen msg <? 64) || (maxSPNEGOTokenLen <? zlen msg) || negb (bool_decide (take 8 msg = ntlmSignature)) ||
     negb (le32 msg 8 =? 3) then Err EMessage
  else
    let unicode := Z.odd (le32 msg 60) in
    lm ← readField msg 12;
    nt ← readField msg 20;
    if (maxNTLMResponseLen <? zlen lm) || (maxNTLMResponseLen <? zlen nt) then Err EResponse
    else
      domainRaw ← readField msg 28;
      userRaw ← readField msg 36;
      domain ← decodeText unicode domainRaw;
      user ← decodeText unicode userRaw;
      Ok (mkNTLM lm nt domain user).

Definition splitConfiguredNTLMName (username : string) : string * string :=
  match Cut username "\" with Some (before, after) => (after, before) | None => (username, "") end.

Section NTLM.

(** HMAC-MD5 of the concatenated parts, and MD4. *)
Context (hmacMD5 : bytes -> bytes -> bytes) (md4 : bytes -> bytes).

Definition ntlmHash (password : string) : bytes := md4 (utf16le password).

Definition verifyNTLMAuthenticate (msg challenge : bytes) (configuredUsername password : string) : bool :=
  if String.eqb password "" || (zlen challenge <? 32) then false
  else match parseNTLMAuthenticateMessage msg with
       | Err _ => false
       | Ok parsed =>
           if zlen (ntResponse parsed) <? 16 then false
           else
             let '(wantUser, wantDomain) := splitConfiguredNTLMName configuredUsername in
             if negb (String.eqb wantUser "") && negb (EqualFold (user parsed) wantUser) then false
             else if negb (String.eqb wantDomain "") && negb (EqualFold (domain parsed) wantDomain) then false
             else
               let domainForHash := if negb (String.eqb wantDomain "") then wantDomain else domain parsed in
               let ntlmV2Hash := hmacMD5 (ntlmHash password) (utf16le (ToUpper (user parsed) +:+ domainForHash)) in
               let nonce := slice challenge 24 8 in
               if bool_decide (hmacMD5 ntlmV2Hash (nonce ++ drop 16 (ntResponse parsed)) = take 16 (ntResponse parsed))
               then true
               else if 24 <=? zlen (lmResponse parsed) then
                 bool_decide (hmacMD5 ntlmV2Hash (nonce ++ drop 16 (lmResponse parsed)) = take 16 (lmResponse parsed))
               else false
       end.

(** ** The NTLM exchange *)

(** The challenge of each connection's state, and whether it came wrapped. *)
Definition Challenges := gmap string (bytes * bool).

Definition setNTLMChallenge (remote : string) (challenge : bytes) (usesSPNEGO : bool) (s : gmap string (bytes * bool))
  : gmap string (bytes * bool) := <[remote := (challenge, usesSPNEGO)]> s.
Definition ntlmChallenge (remote : string) (s : gmap string (bytes * bool)) : bytes :=
  default [] (fst <$> s !! remote).
Definition ntlmChallengeUsesSPNEGO (remote : string) (s : gmap string (bytes * bool)) : bool :=
  default false (snd <$> s !! remote).
Definition clearNTLMChallenge (remote : string) (s : gmap string (bytes * bool)) : gmap string (bytes * bool) :=
  match s !! remote with Some _ => <[remote := ([], false)]> s | None => s end.

Definition EncodedLen (n : Z) : Z := (n + 2) / 3 * 4.

(** The NTLM message a header carries, and whether it was wrapped in SPNEGO. *)
Definition ntlmToken (r : Request) (expectedScheme : string) : option (bytes * bool) :=
  match authScheme r expectedScheme with
  | None => None
  | Some token =>
      if EncodedLen maxSPNEGOTokenLen <? slen token then None
      else match b64_decode token with
           | None => None
           | Some raw =>
               if maxSPNEGOTokenLen <? zlen raw then None
               else if EqualFold expectedScheme "Negotiate" && negb (isNTLMSSP raw) then
                 match unwrapSPNEGONTLMToken raw with
                 | None => None
                 | Some raw => if isNTLMSSP raw then Some (raw, true) else None
                 end
               else if isNTLMSSP raw then Some (raw, false) else None
           end
  end.

(** [random] is what [newNTLMChallenge] draws, [None] if the draw fails. *)
Definition checkNTLMClientAuth (c : ClientConfig) (r : Request) (expectedScheme : string) (random : option bytes)
  (s : gmap string (bytes * bool)) : bool * gmap string (bytes * bool) :=
  match ntlmToken r expectedScheme with
  | None => (false, s)
  | Some (raw, usesSPNEGO) =>
      if le32 raw 8 =? 1 then
        match random with
        | None => (false, s)
        | Some rnd => (false, setNTLMChallenge (RemoteAddr r) (newNTLMChallenge rnd) usesSPNEGO s)
        end
      else if le32 raw 8 =? 3 then
        let challenge := ntlmChallenge (RemoteAddr r) s in
        if zlen challenge =? 0 then (false, s)
        else (verifyNTLMAuthenticate raw challenge (ClientUsername c) (ClientPassword c),
              clearNTLMChallenge (RemoteAddr r) s)
      else (false, s)
  end.

End NTLM.

(** ** A whole request *)

(** The state of client authentication; the random draws and the clock readings
    come with the request. *)
Record State := mkState { tables : Tables; challenges : gmap string (bytes * bool) }.
Record Draws := mkDraws { tv : Time; ts : Time; tm : Time; tp : Time; random : option bytes; salt : string }.

Section Check.
Context (hmacSHA256 : string -> bytes) (md5hex : string -> string) (hmacMD5 : bytes -> bytes -> bytes) (md4 : bytes -> bytes).

Definition checkMethod (c : ClientConfig) (r : Request) (d : Draws) (auth : string) (s : State) : bool * State :=
  if String.eqb auth "BASIC" then (checkBasicClientAuth c r, s)
  else if String.eqb auth "DIGEST" then
    let '(ok, t) := checkDigestClientAuth hmacSHA256 md5hex c r (tv d) (ts d) (tm d) (tp d) (tables s) in
    (ok, mkState t (challenges s))
  else if String.eqb auth "NTLM" then
    let '(ok, ch) := checkNTLMClientAuth hmacMD5 md4 c r "NTLM" (random d) (challenges s) in (ok, mkState (tables s) ch)
  else if String.eqb auth "NEGOTIATE" then
    let '(ok, ch) := checkNTLMClientAuth hmacMD5 md4 c r "Negotiate" (random d) (challenges s) in (ok, mkState (tables s) ch)
  else (false, s).

Fixpoint checkClientAuth (c : ClientConfig) (r : Request) (d : Draws) (auths : list string) (s : State) : bool * State :=
  match auths with
  | [] => (false, s)
  | auth :: auths' =>
      let '(ok, s) := checkMethod c r d auth s in
      if ok then (true, s) else checkClientAuth c r d auths' s
  end.

Definition clientAuthChallenge (r : Request) (d : Draws) (now : Time) (s : State) (auth : string) : list string :=
  let challenge := ntlmChallenge (RemoteAddr r) (challenges s) in
  if String.eqb auth "NEGOTIATE" then
    if zlen challenge =? 0 then ["Negotiate"]
    else ["Negotiate " +:+ b64_encode (if ntlmChallengeUsesSPNEGO (RemoteAddr r) (challenges s)
                                       then spnegoNegTokenResp challenge else challenge)]
  else if String.eqb auth "NTLM" then
    if zlen challenge =? 0 then ["NTLM"] else ["NTLM " +:+ b64_encode challenge]
  else if String.eqb auth "DIGEST" then
    let q s := String "034" (s +:+ String "034" "") in
    ["Digest realm=" +:+ q digestRealm +:+ ", nonce=" +:+
     q (digestNonceAt hmacSHA256 (RemoteAddr r) now (salt d)) +:+ ", qop=" +:+ q "auth" +:+ ", algorithm=" +:+ q "MD5"]
  else if String.eqb auth "BASIC" then ["Basic realm=" +:+ String "034" (digestRealm +:+ String "034" "")]
  else [].

Definition clientAuthChallenges (auths : list string) (r : Request) (d : Draws) (now : Time) (s : State) : list string :=
  mjoin (map (clientAuthChallenge r d now s) auths).
End Check.

(** ** Lemmas: text *)

Lemma split3_app a b c :
  no_char ":" a = true -> no_char ":" b = true -> split3 (a +:+ ":" +:+ b +:+ ":" +:+ c) = Some (a, b, c).
Proof.
  intros Ha Hb. change (a +:+ ":" +:+ b +:+ ":" +:+ c) with (a +:+ String ":" (b +:+ String ":" c)).
  unfold split3. by rewrite Cut_app, Cut_app.
Qed.

Lemma split3_inv s a b c : split3 s = Some (a, b, c) -> s = a +:+ ":" +:+ b +:+ ":" +:+ c.
Proof.
  unfold split3. destruct (Cut s ":") as [[x y]|] eqn:E1; [|done].
  destruct (Cut y ":") as [[z w]|] eqn:E2; [|done]. intros [= <- <- <-].
  apply Cut_inv in E1 as [-> _], E2 as [-> _]. done.
Qed.

Lemma xor_all_zero a b v :
  0 <= v -> length a = length b -> xor_all a b v = 0 <-> v = 0 /\ a = b.
Proof.
  revert b v. induction a as [|x a IH]; intros [|y b] v Hv; try done; cbn [xor_all length]; [naive_solver|].
  intros [= Hl]. rewrite IH; [|apply Z.lor_nonneg; split; [done|apply Z.lxor_nonneg; unfold ord; lia]|done].
  rewrite Z.lor_eq_0_iff, Z.lxor_eq_0_iff. split.
  - intros [[-> E%ord_inj] ->]. by subst.
  - by intros [-> [= -> ->]].
Qed.

(** The comparison that takes the same time for any text is equality. *)
Lemma subtleEqualHex_spec a b : subtleEqualHex a b = true <-> a = b.
Proof.
  unfold subtleEqualHex. split.
  - intros H. to_prop. assert (length (String.list_ascii_of_string a) = length (String.list_ascii_of_string b)) as Hl.
    { rewrite !list_ascii_length. unfold slen in *. lia. }
    apply xor_all_zero in H0 as [_ E]; [|done|done].
    by rewrite <- (String.string_of_list_ascii_of_string a), E, String.string_of_list_ascii_of_string.
  - intros ->. rewrite Z.eqb_refl. apply Z.eqb_eq. by apply xor_all_zero.
Qed.

(** ** Lemmas: the table of used counts, one operation of [sync.Map] at a time *)

(** The table is shared by all connections.  A goroutine that loads an expired
    entry deletes the key later, whatever the key holds by then: [pending] are
    the deletions that are still due. *)
Record Shared := mkShared { seen : gmap string Time; pending : gset string }.

Inductive SeenOp :=
| OpLoad (now : Time) (key : string)
| OpDelete (key : string)
| OpStore (now : Time) (key : string).

Definition stepSeen (s : Shared) (o : SeenOp) : Shared :=
  match o with
  | OpLoad now key =>
      match seen s !! key with
      | Some expiry => if after now expiry then mkShared (seen s) ({[key]} ∪ pending s) else s
      | None => s
      end
  | OpDelete key => if decide (key ∈ pending s) then mkShared (delete key (seen s)) (pending s ∖ {[key]}) else s
  | OpStore now key =>
      if decide (is_Some (seen s !! key)) then s
      else mkShared (<[key := addT now digestNonceLifetime]> (seen s)) (pending s)
  end.

Definition pruneOps (now : Time) (keys : list string) : list SeenOp :=
  mjoin (map (fun k => [OpLoad now k; OpDelete k]) keys).

(** How often the operations [ops] store [key] anew. *)
Fixpoint newMarks (key : string) (s : Shared) (ops : list SeenOp) : nat :=
  match ops with
  | [] => 0
  | o :: ops' =>
      (match o with
       | OpStore _ k => if decide (k = key /\ seen s !! key = None) then 1 else 0
       | _ => 0
       end + newMarks key (stepSeen s o) ops')%nat
  end.

(** While no reading passes [deadline], and every store of [key] outlives it,
    nothing deletes the key. *)
Definition timely (deadline : Time) (key : string) (o : SeenOp) : Prop :=
  match o with
  | OpLoad now _ => now <= deadline
  | OpDelete _ => True
  | OpStore now k => k = key -> deadline <= addT now digestNonceLifetime
  end.

Definition held (deadline : Time) (key : string) (s : Shared) : Prop :=
  key ∉ pending s /\ (forall e : Time, seen s !! key = Some e -> deadline <= e).

Lemma held_step deadline key s o : timely deadline key o -> held deadline key s ->
  held deadline key (stepSeen s o) /\ (is_Some (seen s !! key) -> is_Some (seen (stepSeen s o) !! key)).
Proof.
  intros Ht [Hp Hs]. destruct o as [now k|k|now k]; cbn [stepSeen timely] in *.
  - destruct (seen s !! k) as [e|] eqn:E; [|by repeat split]. case_if; [|by repeat split].
    unfold held. cbn [seen pending]. repeat split; [|done|done].
    intros [->%elem_of_singleton|]%elem_of_union; [|done].
    specialize (Hs _ E). unfold after in *. to_prop. lia.
  - case_decide; [|by repeat split]. unfold held. cbn [seen pending].
    assert (k <> key) by (by intros ->). rewrite lookup_delete_ne by done.
    repeat split; [set_solver|done|done].
  - case_decide as E; [by repeat split|]. unfold held. cbn [seen pending].
    destruct (decide (k = key)) as [->|]; [|rewrite lookup_insert_ne by done; by repeat split].
    rewrite lookup_insert_eq. repeat split; [done| |by eexists]. intros e [= <-]. by apply Ht.
Qed.

Lemma newMarks_held deadline key ops s : Forall (timely deadline key) ops -> held deadline key s ->
  (newMarks key s ops <= match seen s !! key with None => 1 | Some _ => 0 end)%nat.
Proof.
  intros Ho. revert s. induction Ho as [|o ops Ho _ IH]; intros s Hs; cbn [newMarks]; [lia|].
  destruct (held_step _ _ _ _ Ho Hs) as [Hs' Hk]. specialize (IH _ Hs').
  destruct (seen s !! key) as [e|] eqn:E.
  - destruct (Hk ltac:(by eexists)) as [e' Ee]. rewrite Ee in IH.
    destruct o; try lia. rewrite decide_False by naive_solver. lia.
  - destruct o as [now k|k|now k]; try (case_match; lia).
    case_decide as Ek; [|case_match; lia]. destruct Ek as [-> _]. cbn [stepSeen] in IH |- *.
    rewrite decide_False in IH |- * by (rewrite E; by intros [? ?]). cbn [seen] in IH.
    rewrite lookup_insert_eq in IH. lia.
Qed.

Lemma run_pruneOps now keys s : pending s = ∅ ->
  let s' := run stepSeen s (pruneOps now keys) in
  pending s' = ∅ /\
  forall k, seen s' !! k = if decide (k ∈ keys)
                           then e ← seen s !! k; if after now e then None else Some e else seen s !! k.
Proof.
  revert s. induction keys as [|k0 keys IH]; intros s Hp; [done|].
  change (pruneOps now (k0 :: keys)) with (OpLoad now k0 :: OpDelete k0 :: pruneOps now keys).
  set (s1 := stepSeen (stepSeen s (OpLoad now k0)) (OpDelete k0)).
  assert (pending s1 = ∅ /\ forall k, seen s1 !! k = if decide (k = k0)
            then e ← seen s !! k; if after now e then None else Some e else seen s !! k) as [Hp1 Hs1].
  { subst s1. cbn [stepSeen]. destruct (seen s !! k0) as [e|] eqn:E.
    - destruct (after now e) eqn:Ea; cbn [seen pending].
      + rewrite decide_True by set_solver. cbn [seen pending]. split; [set_solver|]. intros k.
        case_decide as Ek; [|by rewrite lookup_delete_ne].
        rewrite Ek, lookup_delete_eq, E. cbn [mbind option_bind]. by rewrite Ea.
      + rewrite decide_False by set_solver. split; [done|]. intros k. case_decide as Ek; [|done].
        rewrite Ek, E. cbn [mbind option_bind]. by rewrite Ea.
    - rewrite decide_False by set_solver. split; [done|]. intros k. case_decide as Ek; [|done]. by rewrite Ek, E. }
  destruct (IH s1 Hp1) as [Hp2 Hs2]. split; [exact Hp2|]. intros k.
  change (run stepSeen s _) with (run stepSeen s1 (pruneOps now keys)). rewrite Hs2, Hs1.
  destruct (decide (k = k0)) as [->|Hne].
  - rewrite (decide_True _ _ (P := k0 ∈ k0 :: keys)) by set_solver. case_decide; [|done].
    destruct (seen s !! k0) as [e|]; [|done]. cbn [mbind option_bind]. destruct (after now e) eqn:Ea; [done|].
    cbn [mbind option_bind]. by rewrite Ea.
  - destruct (decide (k ∈ keys)); [rewrite decide_True by set_solver|rewrite decide_False by set_solver]; done.
Qed.

(** The operations of the functions above, when nothing interferes. *)
Definition duePruneOps (now : Time) (t : Tables) : list SeenOp :=
  if Unix now - lastPrune t <? digestNonceLifetime / Second then []
  else pruneOps now (elements (dom (seenNonces t))).

Definition alone (t : Tables) : Shared := mkShared (seenNonces t) ∅.

Lemma prune_ops now t : alone (pruneDigestMaps now t) = run stepSeen (alone t) (duePruneOps now t).
Proof.
  unfold pruneDigestMaps, duePruneOps. case_if; [done|].
  destruct (run_pruneOps now (elements (dom (seenNonces t))) (alone t) eq_refl) as [Hp Hs].
  destruct (run stepSeen _ _) as [sn pn]. cbn [seen pending alone seenNonces] in *. subst pn.
  unfold alone. f_equal. cbn [seenNonces]. apply map_eq. intros k. rewrite Hs, map_lookup_filter.
  destruct (seenNonces t !! k) as [e|] eqn:Ek; cbn [mbind option_bind].
  - rewrite decide_True by (apply elem_of_elements, elem_of_dom; by eexists).
    cbn [snd]. unfold guard. by destruct (after now e).
  - by destruct (decide _).
Qed.

Lemma seen_ops now nonce nc t :
  let k := nonceKey nonce nc in let '(b, t') := digestNonceSeen now nonce nc t in
  alone t' = run stepSeen (alone t) [OpLoad now k; OpDelete k] /\ (b = false -> seenNonces t' !! k = None).
Proof.
  cbv zeta. unfold digestNonceSeen. set (k := nonceKey nonce nc). cbn [run fold_left stepSeen]. cbn [alone seen].
  destruct (seenNonces t !! k) as [e|] eqn:Ek.
  - destruct (after now e); cbn [seenNonces seen pending].
    + rewrite decide_True by set_solver. split; [|intros _; apply lookup_delete_eq].
      unfold alone. cbn [seenNonces pending]. f_equal. set_solver.
    + rewrite decide_False by set_solver. done.
  - rewrite decide_False by set_solver. done.
Qed.

Lemma mark_ops now tp nonce nc t :
  let k := nonceKey nonce nc in let '(b, t') := digestNonceMarkIfNew now tp nonce nc t in
  (b = true <-> seenNonces t !! k = None) /\
  exists prune, (forall n : Time, OpStore n k ∉ prune) /\ alone t' = run stepSeen (alone t) (OpStore now k :: prune).
Proof.
  cbv zeta. unfold digestNonceMarkIfNew. set (k := nonceKey nonce nc). split.
  { rewrite negb_true_iff, bool_decide_eq_false, <- eq_None_not_Some. done. }
  set (t1 := mkTables _ _ _). exists (duePruneOps tp t1). split.
  { intros n. unfold duePruneOps. case_if; [set_solver|]. unfold pruneOps.
    intros (l & Hl & (k' & -> & _)%list_elem_of_fmap)%list_elem_of_join. set_solver. }
  rewrite prune_ops. change (run stepSeen (alone t) (?o :: ?l)) with (run stepSeen (stepSeen (alone t) o) l). f_equal.
  subst t1. cbn [stepSeen]. unfold alone. cbn [seen seenNonces pending].
  case_decide as E; [by rewrite bool_decide_eq_true_2|]. by rewrite bool_decide_eq_false_2.
Qed.

Section DigestLemmas.
Context (hmacSHA256 : string -> bytes) (md5hex : string -> string).

(** An accepted Digest response is right, and stores its count anew. *)
Lemma digest_accept_inv c r tv ts tm tp t t' :
  checkDigestClientAuth hmacSHA256 md5hex c r tv ts tm tp t = (true, t') ->
  exists token, authScheme r "Digest" = Some token /\
    let ps := parseAuthParams token in let k := nonceKey (param ps "nonce") (param ps "nc") in
    digestAcceptable hmacSHA256 c r tv ps = true /\
    param ps "response" = digestExpected md5hex c r ps /\
    exists prune, let ops := OpLoad ts k :: OpDelete k :: OpStore tm k :: prune in
      (forall n : Time, OpStore n k ∉ prune) /\
    alone t' = run stepSeen (alone t) ops /\ newMarks k (alone t) ops = 1%nat.
Proof.
  unfold checkDigestClientAuth. destruct (authScheme r "Digest") as [token|]; [|done]. intros H. exists token. split; [done|].
  cbv zeta. set (ps := parseAuthParams token) in *. set (k := nonceKey _ _).
  destruct (digestAcceptable _ _ _ _ _); [|done]. split; [done|]. cbn [negb] in H.
  pose proof (seen_ops ts (param ps "nonce") (param ps "nc") t) as E. cbv zeta in E. fold k in E.
  destruct (digestNonceSeen _ _ _ _) as [b t1]. destruct E as [E1 E2]. destruct b; [done|].
  specialize (E2 eq_refl). destruct (subtleEqualHex _ _) eqn:Er; [|done]. apply subtleEqualHex_spec in Er.
  split; [done|]. cbn [negb] in H.
  pose proof (mark_ops tm tp (param ps "nonce") (param ps "nc") t1) as E. cbv zeta in E. fold k in E. rewrite H in E.
  destruct E as [_ (prune & Hp & E3)]. exists prune. split; [done|]. split.
  { rewrite E3, E1. done. }
  change (newMarks k (alone t) (?a :: ?b :: ?l)) with (newMarks k (run stepSeen (alone t) [a; b]) l).
  rewrite <- E1. cbn [newMarks]. rewrite decide_True by done.
  enough (forall s, newMarks k s prune = 0%nat) as -> by done.
  clear - Hp. induction prune as [|o prune IH]; intros s; [done|]. cbn [newMarks].
  rewrite IH by set_solver. destruct o as [| |n k']; [done|done|]. rewrite decide_False; [done|].
  intros [-> _]. apply (Hp n). set_solver.
Qed.
End DigestLemmas.

(** ** Nonces *)

Lemma digits_no_colon s : str_forall is_digit s = true -> no_char ":" s = true.
Proof.
  unfold no_char. apply str_forall_impl. intros c Hc. apply negb_true_iff, Ascii.eqb_neq. intros ->. done.
Qed.

Lemma timeUnix_Unix t : unixEpoch <= t / Second <= max_int64 -> timeUnix (Unix t) = t / Second * Second.
Proof.
  intros H. unfold timeUnix, Unix. assert (0 <= unixEpoch) by (unfold unixEpoch; lia).
  unfold max_int64 in *. rewrite (i64_small (_ - _)) by (unfold min_int64, max_int64; lia).
  rewrite i64_small by (unfold min_int64, max_int64; lia). f_equal. lia.
Qed.

Lemma nonce_window_spec now t :
  (digestNonceLifetime <? subT now t) || (subT now t <? - digestNonceFutureSkew) = false <->
  - digestNonceFutureSkew <= now - t <= digestNonceLifetime.
Proof.
  rewrite orb_false_iff, !Z.ltb_ge. unfold digestNonceLifetime, digestNonceFutureSkew, Second.
  pose proof (subT_gt now t (120 * 1000000000) ltac:(unfold min_int64, max_int64; lia)).
  pose proof (subT_lt now t (-(5 * 1000000000)) ltac:(unfold min_int64, max_int64; lia)). lia.
Qed.

(** The Digest nonces the proxy accepts are the ones it made.  A nonce that
    verifies at time [now] for a remote address carries a timestamp at most
    two minutes old and at most five seconds ahead, and the keyed digest of
    that timestamp, of its salt and of this address's host.  Conversely a nonce the proxy issued
    verifies in exactly that window, from any port of the host it was issued
    to, and from another host only if the keyed digests agree. *)
Theorem digest_nonce_window (hmacSHA256 : string -> bytes) :
  (forall nonce remote now, verifyDigestNonceAt hmacSHA256 nonce remote now = true ->
     exists raw tsText salt ts, b64_decode nonce = Some raw /\ Atoi tsText = Ok ts /\
       - digestNonceFutureSkew <= now - timeUnix ts <= digestNonceLifetime /\
       bytes_str raw = tsText +:+ ":" +:+ salt +:+ ":" +:+
                       hexEncode (digestNonceMAC hmacSHA256 tsText salt (digestClientHost remote))) /\
  (forall remote remote' issued salt now, no_char ":" salt = true -> unixEpoch <= issued / Second <= max_int64 ->
     verifyDigestNonceAt hmacSHA256 (digestNonceAt hmacSHA256 remote issued salt) remote' now = true <->
     - digestNonceFutureSkew <= now - issued / Second * Second <= digestNonceLifetime /\
     hexEncode (digestNonceMAC hmacSHA256 (Itoa (Unix issued)) salt (digestClientHost remote)) =
     hexEncode (digestNonceMAC hmacSHA256 (Itoa (Unix issued)) salt (digestClientHost remote'))).
Proof.
  split.
  - intros nonce remote now. unfold verifyDigestNonceAt.
    destruct (b64_decode nonce) as [raw|]; [|done]. destruct (split3 _) as [[[tsText salt] macHex]|] eqn:Es; [|done].
    destruct (Atoi tsText) as [ts|] eqn:Et; [|done]. cbv zeta. case_if; [done|].
    intros ->%subtleEqualHex_spec. exists raw, tsText, salt, ts. apply nonce_window_spec in E.
    repeat (split; [done|]). by apply split3_inv.
  - intros remote remote' issued salt now Hs Hi. unfold verifyDigestNonceAt, digestNonceAt.
    assert (0 <= Unix issued <= max_int64) as Hu.
    { unfold Unix. rewrite i64_small; unfold unixEpoch, max_int64, min_int64 in *; lia. }
    rewrite b64_roundtrip by apply str_bytes_bytes. rewrite bytes_str_bytes, split3_app, Atoi_Itoa by
      (try done; apply digits_no_colon, Itoa_digits; lia). cbv zeta.
    rewrite timeUnix_Unix by done. rewrite <- nonce_window_spec. destruct (_ || _); [naive_solver|].
    rewrite subtleEqualHex_spec. naive_solver.
Qed.

(** C22: A Digest response counts once.  A response that is accepted names a
    nonce of the proxy's, valid at that time, answers with the digest of the
    configured password for this method and target, and stores its nonce and
    count as a key that was not in the table.  And however the connections
    interleave their loads, stores and deletions in the shared table, a key is
    stored anew at most once until a reading of the clock passes [deadline],
    if every store of it is at most two minutes before the deadline: as a
    nonce verifies only for two minutes after its issue, its last moment is
    such a deadline. *)
Theorem digest_count_single_use (hmacSHA256 : string -> bytes) (md5hex : string -> string) :
  (forall c r tv ts tm tp t t', checkDigestClientAuth hmacSHA256 md5hex c r tv ts tm tp t = (true, t') ->
   exists token, authScheme r "Digest" = Some token /\
    let ps := parseAuthParams token in let k := nonceKey (param ps "nonce") (param ps "nc") in
    digestAcceptable hmacSHA256 c r tv ps = true /\ param ps "response" = digestExpected md5hex c r ps /\
    exists prune, let ops := OpLoad ts k :: OpDelete k :: OpStore tm k :: prune in
      alone t' = run stepSeen (alone t) ops /\ newMarks k (alone t) ops = 1%nat) /\
  (forall deadline key ops, Forall (timely deadline key) ops -> (newMarks key (mkShared ∅ ∅) ops <= 1)%nat).
Proof.
  split.
  - intros * (token & Ha & H)%digest_accept_inv. exists token. split; [done|]. cbv zeta in H |- *.
    destruct H as (H1 & H2 & prune & H3 & H4). split; [done|]. split; [done|]. by exists prune.
  - intros deadline key ops Ho.
    assert (held deadline key (mkShared ∅ ∅)) as Hh.
    { split; cbn [seen pending]; [set_solver|]. intros e. by rewrite lookup_empty. }
    pose proof (newMarks_held _ _ _ _ Ho Hh) as H. cbn [seen] in H. by rewrite lookup_empty in H.
Qed.

(** ** The exchange *)

Inductive NtEvent :=
| NtCheck (r : Request) (scheme : string) (random : option bytes)
| NtEnd (remote : string).

(** The message type of a request, when it carries an NTLM message. *)
Definition ntType (r : Request) (scheme : string) : option Z := (fun m => le32 (fst m) 8) <$> ntlmToken r scheme.

(** The events that replace or drop the challenge of a connection. *)
Definition ntTouches (remote : string) (e : NtEvent) : bool :=
  match e with
  | NtCheck r scheme random =>
      String.eqb (RemoteAddr r) remote &&
      (bool_decide (ntType r scheme = Some 3) || bool_decide (ntType r scheme = Some 1 /\ random <> None))
  | NtEnd rem => String.eqb rem remote
  end.

Section Exchange.
Context (hmacMD5 : bytes -> bytes -> bytes) (md4 : bytes -> bytes) (c : ClientConfig).

Definition ntStep (s : gmap string (bytes * bool)) (e : NtEvent) : gmap string (bytes * bool) :=
  match e with
  | NtCheck r scheme random => (checkNTLMClientAuth hmacMD5 md4 c r scheme random s).2
  | NtEnd remote => delete remote s
  end.

(** [rnd] was drawn for [remote] in [es], and nothing touched it since. *)
Definition drawn (remote : string) (es : list NtEvent) (rnd : bytes) : Prop :=
  exists pre r scheme mid, es = pre ++ NtCheck r scheme (Some rnd) :: mid /\
    RemoteAddr r = remote /\ ntType r scheme = Some 1 /\ Forall (fun e => ntTouches remote e = false) mid.

Lemma ntStep_untouched remote e s :
  ntTouches remote e = false -> ntStep s e !! remote = s !! remote.
Proof.
  destruct e as [r scheme random|rem]; cbn [ntTouches ntStep].
  - intros H. unfold checkNTLMClientAuth. unfold ntType in H. destruct (ntlmToken r scheme) as [[raw sp]|]; [|done].
    cbn [fmap option_fmap option_map fst] in H. destruct (String.eqb_spec (RemoteAddr r) remote) as [Er|Er].
    + cbn [andb] in H. apply orb_false_iff in H as [H3%bool_decide_eq_false H1%bool_decide_eq_false].
      destruct (Z.eqb_spec (le32 raw 8) 1) as [E1|]; [destruct random; [|done]; destruct H1; split; congruence|].
      destruct (Z.eqb_spec (le32 raw 8) 3); [congruence|done].
    + destruct (_ =? 1); [destruct random; [|done]; cbn [snd]; apply lookup_insert_ne; congruence|].
      destruct (_ =? 3); [|done]. destruct (_ =? 0); [done|]. cbn [snd]. unfold clearNTLMChallenge.
      case_match; [apply lookup_insert_ne; congruence|done].
  - intros H%String.eqb_neq. by apply lookup_delete_ne.
Qed.

Lemma ntStep_touched remote e s :
  ntTouches remote e = true ->
  ntlmChallenge remote (ntStep s e) = [] \/
  exists r scheme rnd, e = NtCheck r scheme (Some rnd) /\ RemoteAddr r = remote /\ ntType r scheme = Some 1 /\
    ntlmChallenge remote (ntStep s e) = newNTLMChallenge rnd.
Proof.
  destruct e as [r scheme random|rem]; cbn [ntTouches ntStep].
  - intros [<-%String.eqb_eq H]%andb_true_iff. unfold checkNTLMClientAuth. unfold ntType in *.
    apply orb_true_iff in H. rewrite !bool_decide_eq_true in H.
    destruct (ntlmToken r scheme) as [[raw sp]|] eqn:Et; [|by destruct H as [H|[H _]]].
    cbn [fmap option_fmap option_map fst] in H.
    destruct (Z.eqb_spec (le32 raw 8) 1) as [E1|E1].
    + destruct random as [rnd|]; [|destruct H as [H|[_ H]]; [congruence|done]]. right. exists r, scheme, rnd.
      repeat split; [by rewrite Et; cbn; rewrite E1|]. cbn [snd]. unfold ntlmChallenge, setNTLMChallenge.
      by rewrite lookup_insert_eq.
    + left. destruct (Z.eqb_spec (le32 raw 8) 3) as [E3|E3]; [|destruct H as [H|[H _]]; congruence].
      destruct (Z.eqb_spec (zlen (ntlmChallenge (RemoteAddr r) s)) 0) as [E0|E0]; cbn [snd].
      * unfold zlen in E0. destruct (ntlmChallenge (RemoteAddr r) s); [done|cbn in E0; lia].
      * unfold ntlmChallenge, clearNTLMChallenge. destruct (s !! RemoteAddr r) eqn:Es; [by rewrite lookup_insert_eq|by rewrite Es].
  - intros ->%String.eqb_eq. left. unfold ntlmChallenge. by rewrite lookup_delete_eq.
Qed.

(** Every challenge the proxy holds was drawn for its connection. *)
Lemma challenge_drawn remote es :
  let ch := ntlmChallenge remote (run ntStep ∅ es) in
  ch = [] \/ exists rnd, ch = newNTLMChallenge rnd /\ drawn remote es rnd.
Proof.
  induction es as [|e es IH] using rev_ind; [left; done|]. cbv zeta in *.
  unfold run in *. rewrite fold_left_app. cbn [fold_left].
  destruct (ntTouches remote e) eqn:Et.
  - destruct (ntStep_touched _ e (fold_left ntStep es ∅) Et) as [E|(r & scheme & rnd & -> & Er & Ety & Ec)]; [by left|].
    right. exists rnd. split; [done|]. by exists es, r, scheme, [].
  - unfold ntlmChallenge in *. rewrite ntStep_untouched by done.
    destruct IH as [IH|(rnd & IH & pre & r & scheme & mid & -> & Er & Ety & Hm)]; [by left|].
    right. exists rnd. split; [done|]. exists pre, r, scheme, (mid ++ [e]).
    rewrite <- app_assoc. repeat split; try done. apply Forall_app. by split; [|constructor].
Qed.
End Exchange.

(** NTLM is challenge and response, once.  From a fresh proxy, whatever
    requests and connection ends came before, in whatever order, a request is accepted by NTLM (bare or in
    Negotiate) only if it carries an authenticate message that answers, for the
    configured name and password, a challenge the proxy drew when the same
    remote address sent a negotiate message; nothing since then replaced or
    dropped that challenge, and after the request it is gone. *)
Theorem ntlm_answers_own_challenge hmacMD5 md4 c es r scheme random s' :
  checkNTLMClientAuth hmacMD5 md4 c r scheme random (run (ntStep hmacMD5 md4 c) ∅ es) = (true, s') ->
  exists rnd msg, drawn (RemoteAddr r) es rnd /\
    (exists spnego, ntlmToken r scheme = Some (msg, spnego)) /\ le32 msg 8 = 3 /\
    verifyNTLMAuthenticate hmacMD5 md4 msg (newNTLMChallenge rnd) (ClientUsername c) (ClientPassword c) = true /\
    ntlmChallenge (RemoteAddr r) s' = [].
Proof.
  set (s := run _ _ _). intros H.
  assert (ntType r scheme = Some 3 /\ ntlmChallenge (RemoteAddr r) s <> []) as [Hty Hne].
  { revert H. unfold checkNTLMClientAuth, ntType. destruct (ntlmToken r scheme) as [[raw sp]|]; [|done].
    destruct (_ =? 1); [by destruct random|]. destruct (Z.eqb_spec (le32 raw 8) 3) as [E|]; [|done].
    destruct (ntlmChallenge _ _); [done|]. intros _. split; [by cbn; rewrite E|done]. }
  destruct (challenge_drawn hmacMD5 md4 c (RemoteAddr r) es) as [E|(rnd & Ec & Hd)]; [done|]. fold s in Ec.
  assert (ntTouches (RemoteAddr r) (NtCheck r scheme random) = true) as Ht.
  { cbn [ntTouches]. by rewrite String.eqb_refl, (bool_decide_eq_true_2 (ntType r scheme = Some 3)). }
  destruct (ntStep_touched hmacMD5 md4 c _ _ s Ht) as [Hn|(? & ? & ? & [= <- <- _] & _ & Hc & _)]; [|congruence].
  cbn [ntStep] in Hn. rewrite H in Hn. unfold ntType in Hty.
  destruct (ntlmToken r scheme) as [[msg sp]|] eqn:Em; [|done]. injection Hty as Hty.
  exists rnd, msg. repeat split; [done|by exists sp|done| |done].
  revert H. unfold checkNTLMClientAuth. rewrite Em, Hty, Ec. cbn [Z.eqb Pos.eqb].
  destruct (_ =? 0); [done|]. by intros [= H _].
Qed.

(** ** Witnesses *)

Definition toyMAC (s : string) : bytes := [slen s mod 256; 7].
Definition issuedAt : Time := (unixEpoch + 1700000000) * Second.

Lemma digest_nonce_window_witness :
  let n := digestNonceAt toyMAC "10.0.0.1:5000" issuedAt "0011223344556677" in
  verifyDigestNonceAt toyMAC n "10.0.0.1:6000" (issuedAt + 100 * Second) = true /\
  verifyDigestNonceAt toyMAC n "10.0.0.1:6000" (issuedAt + 121 * Second) <> true /\
  exists raw, b64_decode n = Some raw.
Proof.
  cbv zeta.
  assert (verifyDigestNonceAt toyMAC (digestNonceAt toyMAC "10.0.0.1:5000" issuedAt "0011223344556677")
            "10.0.0.1:6000" (issuedAt + 100 * Second) = true) as H.
  { refine (proj2 (proj2 (digest_nonce_window toyMAC) _ _ issuedAt _ _ _ _) _);
      [by vm_compute|split; by vm_compute|split; [split; by vm_compute|by vm_compute]]. }
  split; [exact H|]. split.
  - by vm_compute.
  - destruct (proj1 (digest_nonce_window toyMAC) _ _ _ H) as (raw & _ & _ & _ & Hr & _). by exists raw.
Defined.

(** A hash whose every value is the text ["r"]. *)
Definition digestHeader : string :=
  "Digest username=u, realm=PxClient, nonce=" +:+ digestNonceAt toyMAC "10.0.0.1:5000" issuedAt "0011223344556677" +:+
  ", uri=h:443, response=r, qop=auth, nc=00000001, cnonce=c".
Definition digestReq : Request := mkRequest digestHeader "CONNECT" "h:443" "h:443" None "10.0.0.1:5000".
Definition digestCfg : ClientConfig := mkClientConfig "" "p".
Definition digestRun (t : Tables) : bool * Tables :=
  checkDigestClientAuth toyMAC (fun _ => "r") digestCfg digestReq
    (issuedAt + Second) (issuedAt + Second) (issuedAt + Second) (issuedAt + Second) t.

Definition toyOps : list SeenOp := [OpStore 5 "k"; OpLoad 6 "k"; OpDelete "k"; OpStore 9 "k"].

Lemma digest_count_single_use_witness :
  (digestRun (mkTables ∅ ∅ 0)).1 = true /\ (digestRun (digestRun (mkTables ∅ ∅ 0)).2).1 = false /\
  newMarks "k" (mkShared ∅ ∅) toyOps = 1%nat.
Proof.
  assert (digestRun (mkTables ∅ ∅ 0) = (true, (digestRun (mkTables ∅ ∅ 0)).2)) as H by (by vm_compute).
  split; [by rewrite H|]. split; [by vm_compute|].
  destruct (proj1 (digest_count_single_use _ _) _ _ _ _ _ _ _ _ H) as (token & _ & _).
  assert (newMarks "k" (mkShared ∅ ∅) toyOps <= 1)%nat as Hle.
  { apply (proj2 (digest_count_single_use toyMAC (fun _ => "r")) 100). repeat constructor; by vm_compute. }
  by vm_compute.
Defined.

Definition ntlmType1 : bytes := ntlmSignature ++ put32 1.
Definition ntlmType3 : bytes :=
  ntlmSignature ++ put32 3 ++ repeat 0 8 ++ [16; 0; 16; 0; 64; 0; 0; 0] ++ repeat 0 36 ++ repeat 1 16.
Definition ntlmReq (m : bytes) : Request := mkRequest ("NTLM " +:+ b64_encode m) "GET" "/" "h" None "10.0.0.1:5000".

Lemma ntlm_answers_own_challenge_witness :
  let check m := checkNTLMClientAuth (fun _ _ => repeat 1 16) (fun _ => []) digestCfg (ntlmReq m) "NTLM" None in
  let s := run (ntStep (fun _ _ => repeat 1 16) (fun _ => []) digestCfg) ∅ [NtCheck (ntlmReq ntlmType1) "NTLM" (Some (repeat 9 8))] in
  (check ntlmType3 s).1 = true /\ ntlmChallenge "10.0.0.1:5000" (check ntlmType3 s).2 = [] /\
  (check ntlmType3 (check ntlmType3 s).2).1 = false.
Proof.
  cbv zeta. split; [by vm_compute|]. split; [|by vm_compute].
  refine ((fun H => _) (ntlm_answers_own_challenge (fun _ _ => repeat 1 16) (fun _ => []) digestCfg
    [NtCheck (ntlmReq ntlmType1) "NTLM" (Some (repeat 9 8))] (ntlmReq ntlmType3) "NTLM" None _ _)).
  - destruct H as (rnd & msg & _ & _ & _ & _ & H). exact H.
  - by vm_compute.
Defined.

(** The counter of an upstream nonce starts again at 1 when the pruning that its
    own use triggers drops it: RFC 7616 wants it to increase. *)
Example nonce_count_restarts :
  let now := issuedAt + 500 * Second in
  let t0 := mkTables {[ "n" := mkNonceCount 7 issuedAt ]} ∅ (Unix issuedAt) in
  let r1 := nextDigestNC now now "n" t0 in
  let r2 := nextDigestNC now now "n" r1.2 in
  r1.1 = "00000008" /\ r2.1 = "00000001".
Proof. by vm_compute. Qed.

End Ca.
