(* ===== verification/Resolver.v ===== *)
(** * Resolver: the configured DNS and DoH clients ([internal/dnsresolver])

    The grammar of resolver endpoints, the rules that choose a resolver for a
    name, the ordered failover over endpoints, the checks of a response and the
    dialling of the addresses found.  The sockets, the HTTP client, the system's
    resolver and the message library are parameters. *)

From S2P Require Export Prelude GoStrings GoText NetAddr Url.

Module Rv.

Abbreviation bytes := (list Z).

Definition defaultDNSPort : string := "53".
Definition defaultLookupTimeout : Duration := 20 * Second.
Definition maxDNSMessageBytes : Z := 65535.

(** ** Policies *)

Record endpoint := mkEndpoint { scheme : string; addr : string; url : option URL; label : string }.

Inductive Policy := mkPolicy (system_ : bool) (endpoints_ : list endpoint) (rules_ : list policyRule)
                             (timeout_ : Duration) (lastError_ : string)
with policyRule := mkRule (resolver_ : Policy) (only_ : list string) (bypass_ : list string).

Definition system (p : Policy) : bool := let 'mkPolicy s _ _ _ _ := p in s.
Definition endpoints (p : Policy) : list endpoint := let 'mkPolicy _ e _ _ _ := p in e.
Definition rules (p : Policy) : list policyRule := let 'mkPolicy _ _ r _ _ := p in r.
Definition timeout (p : Policy) : Duration := let 'mkPolicy _ _ _ t _ := p in t.
Definition lastError (p : Policy) : string := let 'mkPolicy _ _ _ _ l := p in l.
Definition resolver (r : policyRule) : Policy := let 'mkRule p _ _ := r in p.
Definition only (r : policyRule) : list string := let 'mkRule _ o _ := r in o.
Definition bypass (r : policyRule) : list string := let 'mkRule _ _ b := r in b.

(** [Rule] of the configuration. *)
Record Rule := mkRawRule { Resolver : string; Only : list string; Bypass : list string }.

Inductive CfgErr :=
| EEmptyEndpoint | EEmptyList | ESystemMixed | EInvalidURL | ECredentials | EClassicPath | ENoHost | EPort | ENoPath | EScheme
| ENoAddress | ENotAddress | ENotLiteral | EPattern.

Definition normalizedTimeout (t : Duration) : Duration := if t <=? 0 then defaultLookupTimeout else t.

Definition validatePort (port : string) : bool :=
  if String.eqb port "" then true
  else match Atoi port with Ok n => negb ((n <? 1) || (65535 <? n)) | Err _ => false end.

Definition normalizeClassicAddress (raw : string) : result CfgErr string :=
  let raw := TrimSpace raw in
  if String.eqb raw "" then Err ENoAddress
  else match ParseIP (Trim raw "[]") with
       | Some ip => Ok (JoinHostPort (IPString ip) defaultDNSPort)
       | None =>
           match SplitHostPort raw with
           | None => Err ENotAddress
           | Some (host, port) =>
               match ParseIP (Trim host "[]") with
               | None => Err ENotLiteral
               | Some ip => if validatePort port then Ok (JoinHostPort (IPString ip) port) else Err EPort
               end
           end
       end.

Definition with_scheme (s : string) (u : URL) : URL :=
  mkURL s (Opaque u) (User u) (Host u) (Path u) (RawPath u) (RawQuery u) (ForceQuery u) (Fragment u).

Definition parseEndpoint (raw : string) : result CfgErr endpoint :=
  if String.eqb raw "" then Err EEmptyEndpoint
  else if EqualFold raw "system" then Err ESystemMixed
  else if negb (Contains raw "://") then
    addr ← normalizeClassicAddress raw;
    Ok (mkEndpoint "udp" addr None ("udp://" +:+ addr))
  else
    match urlParse raw with
    | None => Err EInvalidURL
    | Some u =>
        if bool_decide (User u <> None) || negb (String.eqb (Fragment u) "") || negb (String.eqb (RawQuery u) "")
        then Err ECredentials
        else
          let scheme := ToLower (Scheme u) in
          if String.eqb scheme "udp" || String.eqb scheme "tcp" then
            if negb (String.eqb (Path u) "") && negb (String.eqb (Path u) "/") then Err EClassicPath
            else
              addr ← normalizeClassicAddress (Host u);
              Ok (mkEndpoint scheme addr None (scheme +:+ "://" +:+ addr))
          else if String.eqb scheme "https" then
            if String.eqb (Hostname u) "" then Err ENoHost
            else if negb (validatePort (Port u)) then Err EPort
            else if String.eqb (Path u) "" || String.eqb (Path u) "/" then Err ENoPath
            else Ok (mkEndpoint "https" "" (Some (with_scheme "https" u)) ("https://" +:+ Host u))
          else Err EScheme
    end.

Fixpoint parseEndpoints (parts : list string) : result CfgErr (list endpoint) :=
  match parts with
  | [] => Ok []
  | part :: parts' =>
      ep ← parseEndpoint (TrimSpace part);
      eps ← parseEndpoints parts';
      Ok (ep :: eps)
  end.

Definition newPolicy (raw : string) (timeout : Duration) : result CfgErr Policy :=
  let raw := TrimSpace raw in
  if String.eqb raw "" || EqualFold raw "system" then Ok (mkPolicy true [] [] (normalizedTimeout timeout) "")
  else
    eps ← parseEndpoints (Split raw ",");
    if (length eps =? 0)%nat then Err EEmptyList
    else Ok (mkPolicy false eps [] (normalizedTimeout timeout) "").

Definition New (raw : string) (timeout : Duration) : result CfgErr Policy := newPolicy raw timeout.

Definition domainText (s : string) : string := ToLower (TrimSuffix (TrimSpace s) ".").

Definition validPattern (pattern : string) : bool :=
  negb (ContainsAny pattern "/:" ||
        (ContainsChar pattern "*" && negb (String.eqb pattern "*") && negb (HasPrefix pattern "*."))).

Fixpoint normalizePieces (raws : list string) : result CfgErr (list string) :=
  match raws with
  | [] => Ok []
  | raw :: raws' =>
      let pattern := domainText raw in
      if String.eqb pattern "" then normalizePieces raws'
      else if negb (validPattern pattern) then Err EPattern
      else ps ← normalizePieces raws'; Ok (pattern :: ps)
  end.

Definition normalizeRulePatterns (values : list string) : result CfgErr (list string) :=
  normalizePieces (mjoin (map (fun v => Split v ",") values)).

Fixpoint buildRules (rs : list Rule) (timeout : Duration) : result CfgErr (list policyRule) :=
  match rs with
  | [] => Ok []
  | rawRule :: rs' =>
      resolver ← New (Resolver rawRule) timeout;
      only ← normalizeRulePatterns (Only rawRule);
      bypass ← normalizeRulePatterns (Bypass rawRule);
      rules ← buildRules rs' timeout;
      Ok (mkRule resolver only bypass :: rules)
  end.

Definition NewRules (rs : list Rule) (timeout : Duration) : result CfgErr Policy :=
  match rs with
  | [] => New "" timeout
  | [mkRawRule r [] []] => New r timeout
  | _ => rules ← buildRules rs timeout; Ok (mkPolicy false [] rules (normalizedTimeout timeout) "")
  end.

(** ** Matching names *)

Definition matchDomain (host pattern : string) : bool :=
  let host := domainText host in
  let pattern := domainText pattern in
  if String.eqb pattern "*" then negb (String.eqb host "")
  else match CutPrefix pattern "*." with
       | Some base => negb (String.eqb host base) && HasSuffix host ("." +:+ base)
       | None => String.eqb host pattern || HasSuffix host ("." +:+ pattern)
       end.

Definition matchesAny (host : string) (patterns : list string) : bool := existsb (matchDomain host) patterns.

(** ** Status *)

Record Status := mkStatus { Mode : string; Endpoints : list string; Bootstrap : string; LastError : string }.

Definition isDoH (ep : endpoint) : bool := String.eqb (scheme ep) "https".

(** The endpoints of a policy and of the resolvers of its rules, in order. *)
Fixpoint allEndpoints (p : Policy) : list endpoint :=
  let 'mkPolicy _ eps rules _ _ := p in
  eps ++ (fix go (rs : list policyRule) : list endpoint :=
            match rs with [] => [] | mkRule q _ _ :: rs' => allEndpoints q ++ go rs' end) rules.

Definition mode (p : Policy) : string :=
  let hasDoH := existsb isDoH (allEndpoints p) in
  let hasClassic := existsb (fun ep => negb (isDoH ep)) (allEndpoints p) in
  if hasClassic && hasDoH then "mixed" else if hasDoH then "doh" else if hasClassic then "dns" else "system".

Definition bootstrapsBySystem (ep : endpoint) : bool :=
  isDoH ep && match url ep with Some u => bool_decide (ParseIP (Hostname u) = None) | None => false end.

Definition PolicyStatus (p : option Policy) : Status :=
  match p with
  | None => mkStatus "system" [] "" ""
  | Some p =>
      if system p then mkStatus "system" [] "" ""
      else mkStatus (mode p) (map label (allEndpoints p))
             (if existsb bootstrapsBySystem (allEndpoints p) then "system" else "") (lastError p)
  end.

Definition IsSystem (p : option Policy) : bool := match p with None => true | Some p => system p end.

(** ** Messages *)

Inductive qtypes := TypeA | TypeAAAA.
#[global] Instance qtypes_eq : EqDecision qtypes. Proof. solve_decision. Defined.

(** A resource of the answer section; other types carry no data here. *)
Inductive Body := AResource (a : Z) | AAAAResource (aaaa : Z) | CNAMEResource (cname : string) | OtherResource.
Record Answer := mkAnswer { aName : string; aINET : bool; aTTL : Z; aBody : Body }.

(** What the message parser reads: a section it cannot read is [None]; the type
    of a question that is neither A nor AAAA is [None]. *)
Record Message := mkMessage {
  Response : bool; ID : Z; Truncated : bool; RCode : Z;
  questions : option (list (string * option qtypes * bool)); answers : option (list Answer) }.

(** Errors: a joined error keeps its parts, and a wrapped one what it wraps. *)
Inductive LookErr :=
| DeadlineExceeded | Canceled | ProtocolError | ResponseError (terminal : bool) | TransportError
| Wrapped (label : string) (e : LookErr) | Joined (es : list LookErr).

Definition canonicalName (name : string) : string := ToLower name.

(** One pass over the answers: the names a CNAME of an allowed owner adds. *)
Fixpoint cnamePass (as_ : list Answer) (allowed : gset string) (changed : bool) : gset string * bool :=
  match as_ with
  | [] => (allowed, changed)
  | a :: as' =>
      if decide (canonicalName (aName a) ∈ allowed) then
        match aBody a with
        | CNAMEResource cname =>
            if decide (canonicalName cname ∈ allowed) then cnamePass as' allowed changed
            else cnamePass as' ({[canonicalName cname]} ∪ allowed) true
        | _ => cnamePass as' allowed changed
        end
      else cnamePass as' allowed changed
  end.

(** The loop that repeats the passes until nothing changes; [None] if the fuel
    runs out. *)
Fixpoint cnameLoop (fuel : nat) (as_ : list Answer) (allowed : gset string) : option (gset string) :=
  match fuel with
  | O => None
  | S fuel =>
      let '(allowed', changed) := cnamePass as_ allowed false in
      if changed then cnameLoop fuel as_ allowed' else Some allowed'
  end.

(** The addresses and the smallest lifetime of the records that count. *)
Definition addressStep (wantType : qtypes) (allowed : gset string) (acc : list IP * option Duration) (a : Answer)
  : list IP * option Duration :=
  let '(ips, ttl) := acc in
  let recordTTL := aTTL a * Second in
  let ttl' := Some (match ttl with Some t => if recordTTL <? t then recordTTL else t | None => recordTTL end) in
  if negb (aINET a) || negb (bool_decide (canonicalName (aName a) ∈ allowed)) then acc
  else match aBody a, wantType with
       | CNAMEResource _, _ => (ips, ttl')
       | AResource v, TypeA => (ips ++ [of_v4 v], ttl')
       | AAAAResource v, TypeAAAA => (ips ++ [v], ttl')
       | _, _ => acc
       end.

(** [parseResponseTTL] after the parser: an error comes with whether it is
    terminal. *)
Definition parseResponseTTL (msg : option Message) (wantID : Z) (wantName : string) (wantType : qtypes)
  : result (LookErr * bool) (list IP * Duration) :=
  match msg with
  | None => Err (ProtocolError, false)
  | Some m =>
      if negb (Response m) || negb (ID m =? wantID) then Err (ProtocolError, false)
      else match questions m with
           | Some [(name, qt, inet)] =>
               if negb (String.eqb (canonicalName name) (canonicalName wantName)) ||
                  negb (bool_decide (qt = Some wantType)) || negb inet
               then Err (ProtocolError, false)
               else if RCode m =? 3 then Err (ResponseError true, true)
               else if negb (RCode m =? 0) then Err (ResponseError false, false)
               else match answers m with
                    | None => Err (ProtocolError, false)
                    | Some as_ =>
                        match cnameLoop (S (length as_)) as_ {[canonicalName wantName]} with
                        | None => Err (ProtocolError, false)
                        | Some allowed =>
                            let '(ips, ttl) := fold_left (addressStep wantType allowed) as_ ([], None) in
                            match ips with
                            | [] => Err (ResponseError true, true)
                            | _ => Ok (ips, default 0 ttl)
                            end
                        end
                    end
           | _ => Err (ProtocolError, false)
           end
  end.

(** [dedupeIPs]; an address here always has a text of its own. *)
Fixpoint dedupeFrom (seen : gset string) (ips : list IP) : list IP :=
  match ips with
  | [] => []
  | ip :: ips' =>
      if decide (IPString ip ∈ seen) then dedupeFrom seen ips'
      else ip :: dedupeFrom ({[IPString ip]} ∪ seen) ips'
  end.
Definition dedupeIPs (ips : list IP) : list IP := dedupeFrom ∅ ips.

(** ** Transports *)

(** The length prefix of DNS over TCP. *)
Definition tcpFrame (query : bytes) : result LookErr bytes :=
  if maxDNSMessageBytes <? zlen query then Err TransportError
  else Ok (zlen query / 256 :: zlen query mod 256 :: query).

(** Reading one response from what the peer sends before it closes or fails with
    [e]. *)
Definition readFrame (stream : bytes) (e : LookErr) : result LookErr bytes :=
  match stream with
  | hi :: lo :: rest =>
      let n := hi * 256 + lo in
      if (n =? 0) || (maxDNSMessageBytes <? n) then Err ProtocolError
      else if zlen rest <? n then Err e
      else Ok (take (Z.to_nat n) rest)
  | _ => Err e
  end.

Record DoHResponse := mkDoH { StatusCode : Z; mediaType : option string; body : bytes }.

(** [io.ReadAll] of the limited body, and the checks around it. *)
Definition readDoH (r : DoHResponse) : result LookErr bytes :=
  if negb (StatusCode r =? 200) then Err TransportError
  else match mediaType r with
       | Some mt =>
           if negb (EqualFold mt "application/dns-message") then Err ProtocolError
           else
             let data := take (Z.to_nat (maxDNSMessageBytes + 1)) (body r) in
             if (zlen data =? 0) || (maxDNSMessageBytes <? zlen data) then Err ProtocolError else Ok data
       | None => Err ProtocolError
       end.

(** ** Lookups *)

(** What a lookup meets.  [i] is the endpoint's position, so that an endpoint
    that is listed twice need not answer twice alike. *)
Record Env := mkEnv {
  sysLookup : string -> result LookErr (list IP);          (** the operating system's resolver *)
  newName : string -> option string;                       (** [dnsmessage.NewName] *)
  buildQuery : nat -> qtypes -> string -> result LookErr (bytes * Z);  (** the packed query and its random ID *)
  udpExchange : nat -> qtypes -> string -> bytes -> result LookErr bytes;
  tcpExchange : nat -> qtypes -> string -> bytes -> bytes * LookErr;
  dohExchange : nat -> qtypes -> option URL -> bytes -> result LookErr DoHResponse;
  unpack : bytes -> option Message;
  ctxErr : nat -> option LookErr }.                        (** [ctx.Err()] after the endpoint failed *)

(** What a lookup asks of the outside. *)
Inductive Effect := QSystem (host : string) | QQuery (ep : endpoint) (qt : qtypes).

Definition Outcome : Type := result LookErr (list IP * Duration) * list Effect.

Section Lookup.
Context (env : Env).

Definition exchangeUDP (i : nat) (qt : qtypes) (addr : string) (query : bytes) : result LookErr (bytes * bool) :=
  response ← udpExchange env i qt addr query;
  match unpack env response with
  | None => Err ProtocolError
  | Some m => Ok (response, Truncated m)
  end.

Definition exchangeTCP (i : nat) (qt : qtypes) (addr : string) (query : bytes) : result LookErr bytes :=
  frame ← tcpFrame query;
  let '(stream, e) := tcpExchange env i qt addr frame in readFrame stream e.

Definition exchange (i : nat) (qt : qtypes) (ep : endpoint) (query : bytes) : result LookErr bytes :=
  if String.eqb (scheme ep) "udp" then
    '(response, truncated) ← exchangeUDP i qt (addr ep) query;
    if (truncated : bool) then exchangeTCP i qt (addr ep) query else Ok response
  else if String.eqb (scheme ep) "tcp" then exchangeTCP i qt (addr ep) query
  else if String.eqb (scheme ep) "https" then
    r ← dohExchange env i qt (url ep) query; readDoH r
  else Err TransportError.

(** One family's query: [None] if the query cannot be built. *)
Definition queryFamily (i : nat) (ep : endpoint) (name : string) (qt : qtypes)
  : result LookErr (result (LookErr * bool) (list IP * Duration)) :=
  match buildQuery env i qt name with
  | Err e => Err e
  | Ok (query, id) =>
      match exchange i qt ep query with
      | Err e => Ok (Err (e, false))
      | Ok response => Ok (parseResponseTTL (unpack env response) id name qt)
      end
  end.

Record Families := mkFamilies { fIps : list IP; fTtl : option Duration; familyErrors : list LookErr; terminalNegative : bool }.

Definition addFamily (f : Families) (r : result (LookErr * bool) (list IP * Duration)) : Families :=
  match r with
  | Err (e, terminal) => mkFamilies (fIps f) (fTtl f) (familyErrors f ++ [e]) (terminalNegative f && terminal)
  | Ok (ips, ttl) =>
      mkFamilies (fIps f ++ ips) (Some (match fTtl f with Some t => if ttl <? t then ttl else t | None => ttl end))
        (familyErrors f) (terminalNegative f)
  end.

Fixpoint lookupFamilies (i : nat) (ep : endpoint) (name : string) (qts : list qtypes) (f : Families)
  : result LookErr Families * list Effect :=
  match qts with
  | [] => (Ok f, [])
  | qt :: qts' =>
      match queryFamily i ep name qt with
      | Err e => (Err e, [])
      | Ok r => let '(res, tr) := lookupFamilies i ep name qts' (addFamily f r) in (res, QQuery ep qt :: tr)
      end
  end.

Definition lookupEndpoint (i : nat) (ep : endpoint) (name : string)
  : result (LookErr * bool) (list IP * Duration) * list Effect :=
  let '(res, tr) := lookupFamilies i ep name [TypeA; TypeAAAA] (mkFamilies [] None [] true) in
  (match res with
   | Err e => Err (e, false)
   | Ok f =>
       if (0 <? zlen (fIps f)) then Ok (dedupeIPs (fIps f), default 0 (fTtl f))
       else if zlen (familyErrors f) =? 0 then Err (ResponseError true, true)
       else Err (Joined (familyErrors f), terminalNegative f)
   end, tr).

(** The endpoints in their order: the first that answers or denies the name. *)
Fixpoint lookupEndpoints (i : nat) (eps : list endpoint) (name : string) (failures : list LookErr) : Outcome :=
  match eps with
  | [] => (Err (Joined failures), [])
  | ep :: eps' =>
      let '(r, tr) := lookupEndpoint i ep name in
      match r with
      | Ok x => (Ok x, tr)
      | Err (e, terminal) =>
          if (terminal : bool) then (Err e, tr)
          else match ctxErr env i with
               | Some ce => (Err ce, tr)
               | None => let '(r', tr') := lookupEndpoints (S i) eps' name (failures ++ [Wrapped (label ep) e]) in (r', tr ++ tr')
               end
      end
  end.

Definition dnsName (host : string) : option string :=
  let host := TrimSpace (TrimSuffix host ".") in
  if String.eqb host "" then None else newName env (host +:+ ".").

Definition systemLookup (host : string) : Outcome :=
  ((ips ← sysLookup env host; Ok (ips, 0)), [QSystem host]).

(** [errors.Is] and [errors.As] look through wrapped and joined errors. *)
Fixpoint errHas (p : LookErr -> bool) (e : LookErr) : bool :=
  p e || match e with
         | Wrapped _ e' => errHas p e'
         | Joined es => (fix go l := match l with [] => false | e' :: l' => errHas p e' || go l' end) es
         | _ => false
         end.

Definition errText (e : option LookErr) : string :=
  match e with
  | None => ""
  | Some e =>
      if errHas (fun e => match e with DeadlineExceeded => true | _ => false end) e then "timeout"
      else if errHas (fun e => match e with Canceled => true | _ => false end) e then "canceled"
      else if errHas (fun e => match e with ProtocolError => true | _ => false end) e then "protocol"
      else if errHas (fun e => match e with ResponseError _ => true | _ => false end) e then "dns-response"
      else "transport"
  end.

Definition errorOf {A} (r : result LookErr A) : option LookErr := match r with Ok _ => None | Err e => Some e end.

Definition recordError (o : Outcome) (eps : list endpoint) (rs : list policyRule) (t : Duration) : Outcome * Policy :=
  (o, mkPolicy false eps rs t (errText (errorOf o.1))).

(** The loop over the rules, given the lookup of a rule's resolver. *)
Section Rules.
Context (look : Policy -> Outcome * Policy) (host : string).
Fixpoint lookupRules (rs : list policyRule) : Outcome * list policyRule :=
  match rs with
  | [] => (systemLookup host, [])
  | mkRule q only bypass as rule :: rs' =>
      if matchesAny host bypass then (systemLookup host, rs)
      else if (0 <? zlen only) && negb (matchesAny host only)
      then let '(o, rs'') := lookupRules rs' in (o, rule :: rs'')
      else let '(o, q') := look q in (o, mkRule q' only bypass :: rs')
  end.
End Rules.

Fixpoint LookupIPTTL (host : string) (p : Policy) {struct p} : Outcome * Policy :=
  match ParseIP (Trim host "[]") with
  | Some ip => ((Ok ([ip], 0), []), p)
  | None =>
      let 'mkPolicy sys eps rules t _ := p in
      if sys then (systemLookup host, p)
      else match rules with
           | [] =>
               recordError (match dnsName host with
                            | None => (Err TransportError, [])
                            | Some name => lookupEndpoints 0 eps name []
                            end) eps rules t
           | _ :: _ =>
               let '(o, rs) := lookupRules (LookupIPTTL host) host rules in
               recordError o eps rs t
           end
  end.

Definition LookupIP (host : string) (p : Policy) : result LookErr (list IP) :=
  '(ips, _) ← (LookupIPTTL host p).1.1; Ok ips.

(** ** Dialling *)

(** [dial] is [net.Dialer.DialContext]; [dialErr] the context's state after the
    attempt. *)
Context {Conn : Type} (dial : string -> string -> result LookErr Conn) (dialErr : string -> option LookErr).

Definition usable (network : string) (ip : IP) : bool :=
  negb (HasSuffix network "4" && bool_decide (to_v4 ip = None)) &&
  negb (HasSuffix network "6" && bool_decide (to_v4 ip <> None)).

Fixpoint dialIPs (network port : string) (ips : list IP) (failures : list LookErr) : result LookErr Conn * list string :=
  match ips with
  | [] => (Err (match failures with [] => TransportError | _ => Joined failures end), [])
  | ip :: ips' =>
      if negb (usable network ip) then dialIPs network port ips' failures
      else
        let candidate := JoinHostPort (IPString ip) port in
        match dial network candidate with
        | Ok c => (Ok c, [candidate])
        | Err e =>
            match dialErr candidate with
            | Some ce => (Err ce, [candidate])
            | None => let '(r, tr) := dialIPs network port ips' (failures ++ [e]) in (r, candidate :: tr)
            end
        end
  end.

(** [lookup] is the caller's function, or none. *)
Definition DialContext (network address : string) (lookup : option (string -> result LookErr (list IP)))
  (p : option Policy) : result LookErr Conn * list string :=
  match p with
  | None => (dial network address, [address])
  | Some p =>
      if system p then (dial network address, [address])
      else match SplitHostPort address with
           | None => (Err TransportError, [])
           | Some (host, port) =>
               if bool_decide (ParseIP (Trim host "[]") <> None) then (dial network address, [address])
               else match default (fun h => LookupIP h p) lookup host with
                    | Err e => (Err e, [])
                    | Ok [] => (Err TransportError, [])
                    | Ok ips => dialIPs network port ips []
                    end
           end
  end.
End Lookup.

(** ** Lemmas: the chain of aliases *)

(** The names a response may speak of: the name asked for, and the target of an
    alias of a name it may speak of. *)
Inductive reaches (as_ : list Answer) (want : string) : string -> Prop :=
| reaches_want : reaches as_ want (canonicalName want)
| reaches_alias a cname : a ∈ as_ -> reaches as_ want (canonicalName (aName a)) ->
    aBody a = CNAMEResource cname -> reaches as_ want (canonicalName cname).

Definition targets (as_ : list Answer) : gset string :=
  list_to_set (omap (fun a => match aBody a with CNAMEResource c => Some (canonicalName c) | _ => None end) as_).

(** No alias leads out of [allowed]. *)
Definition closed (as_ : list Answer) (allowed : gset string) : Prop :=
  Forall (fun a => forall c, aBody a = CNAMEResource c -> canonicalName (aName a) ∈ allowed -> canonicalName c ∈ allowed) as_.

Lemma size_union_le (X Y : gset string) : (size (X ∪ Y) <= size X + size Y)%nat.
Proof. rewrite size_union_alt. apply Nat.add_le_mono_l, subseteq_size. set_solver. Qed.

Lemma targets_size as_ : (size (targets as_) <= length as_)%nat.
Proof.
  unfold targets. induction as_ as [|a as_ IH]; [done|]. cbn [omap list_omap length]. case_match; [|lia].
  cbn [list_to_set]. etrans; [apply size_union_le|]. rewrite size_singleton. lia.
Qed.

Lemma targets_elem as_ a c : a ∈ as_ -> aBody a = CNAMEResource c -> canonicalName c ∈ targets as_.
Proof.
  intros Ha Hb. apply elem_of_list_to_set, list_elem_of_omap. exists a. by rewrite Hb.
Qed.

(** One pass, given that the answers are among [all]. *)
Lemma cnamePass_spec all want as_ allowed ch :
  (forall a, a ∈ as_ -> a ∈ all) -> (forall n, n ∈ allowed -> reaches all want n) ->
  let '(al, ch') := cnamePass as_ allowed ch in
  allowed ⊆ al /\ al ⊆ allowed ∪ targets all /\ (forall n, n ∈ al -> reaches all want n) /\
  (if ch' then ch = true \/ (size allowed < size al)%nat else ch = false /\ al = allowed /\ closed as_ allowed).
Proof.
  revert allowed ch. induction as_ as [|a as_ IH]; intros allowed ch Hall Hr; cbn [cnamePass].
  { refine (conj _ (conj _ (conj _ _))); [done|set_solver|done|]. destruct ch; [by left|repeat split; constructor]. }
  assert (forall b, b ∈ as_ -> b ∈ all) as Hall' by set_solver.
  assert (forall al ch', (forall c, aBody a = CNAMEResource c -> canonicalName (aName a) ∈ allowed -> canonicalName c ∈ allowed) ->
    (if ch' : bool then ch = true \/ (size allowed < size al)%nat else ch = false /\ al = allowed /\ closed as_ allowed) ->
    (if ch' then ch = true \/ (size allowed < size al)%nat else ch = false /\ al = allowed /\ closed (a :: as_) allowed)) as Hcons.
  { intros al [] H; [done|]. intros (-> & -> & Hc). repeat split. by constructor. }
  destruct (decide (canonicalName (aName a) ∈ allowed)) as [Hin|Hout].
  - destruct (aBody a) as [v|v|c|] eqn:Eb.
    all: try (specialize (IH allowed ch Hall' Hr); destruct (cnamePass _ _ _) as [al ch'];
              destruct IH as (I1 & I2 & I3 & I4); refine (conj I1 (conj I2 (conj I3 _))); by apply Hcons).
    destruct (decide (canonicalName c ∈ allowed)) as [Hc|Hc].
    + specialize (IH allowed ch Hall' Hr). destruct (cnamePass _ _ _) as [al ch'].
      destruct IH as (I1 & I2 & I3 & I4). refine (conj I1 (conj I2 (conj I3 _))). apply Hcons; [|done]. by intros c' [= ->].
    + assert (a ∈ all) as Ha by set_solver. pose proof (targets_elem _ _ _ Ha Eb) as Ht.
      specialize (IH ({[canonicalName c]} ∪ allowed) true Hall').
      destruct (cnamePass _ _ _) as [al ch']. destruct IH as (I1 & I2 & I3 & I4).
      { intros n [->%elem_of_singleton|Hn]%elem_of_union; [|by apply Hr]. eapply reaches_alias; eauto. }
      refine (conj _ (conj _ (conj I3 _))); [set_solver|set_solver|]. destruct ch'; [|by destruct I4]. right.
      apply subset_size. set_solver.
  - specialize (IH allowed ch Hall' Hr). destruct (cnamePass _ _ _) as [al ch'].
    destruct IH as (I1 & I2 & I3 & I4). refine (conj I1 (conj I2 (conj I3 _))). apply Hcons; [done|done].
Qed.

Lemma closed_reaches as_ want allowed n :
  canonicalName want ∈ allowed -> closed as_ allowed -> reaches as_ want n -> n ∈ allowed.
Proof.
  intros Hw Hc H. induction H as [|a c Ha _ IH Hb]; [done|].
  unfold closed in Hc. rewrite Forall_forall in Hc. by eapply (Hc a).
Qed.

Lemma cnameLoop_spec as_ want fuel allowed :
  canonicalName want ∈ allowed -> allowed ⊆ {[canonicalName want]} ∪ targets as_ ->
  (forall n, n ∈ allowed -> reaches as_ want n) -> (length as_ + 2 <= size allowed + fuel)%nat ->
  exists al, cnameLoop fuel as_ allowed = Some al /\ forall n, n ∈ al <-> reaches as_ want n.
Proof.
  revert allowed. induction fuel as [|fuel IH]; intros allowed Hw Hsub Hr Hf.
  { apply subseteq_size in Hsub. pose proof (targets_size as_).
    pose proof (size_union_le {[canonicalName want]} (targets as_)). rewrite size_singleton in *. lia. }
  cbn [cnameLoop]. pose proof (cnamePass_spec as_ want as_ allowed false (fun a H => H) Hr) as HP.
  destruct (cnamePass _ _ _) as [al ch]. destruct HP as (H1 & H2 & H3 & H4). destruct ch.
  - destruct H4 as [|H4]; [done|]. apply IH; [set_solver|set_solver|done|lia].
  - destruct H4 as (_ & -> & Hc). exists allowed. split; [done|]. intros n. split; [apply Hr|].
    by apply closed_reaches.
Qed.

Lemma cnameLoop_closure as_ want :
  exists al, cnameLoop (S (length as_)) as_ {[canonicalName want]} = Some al /\ forall n, n ∈ al <-> reaches as_ want n.
Proof.
  apply cnameLoop_spec; [set_solver|set_solver| |rewrite size_singleton; lia].
  intros n ->%elem_of_singleton. constructor.
Qed.

(** ** Lemmas: the records that count *)

(** The address of a record of the type asked for. *)
Definition addressOf (qt : qtypes) (a : Answer) : option IP :=
  match aBody a, qt with
  | AResource v, TypeA => Some (of_v4 v)
  | AAAAResource v, TypeAAAA => Some v
  | _, _ => None
  end.

Definition isAlias (a : Answer) : bool := match aBody a with CNAMEResource _ => true | _ => false end.

(** The records whose lifetime counts: aliases and addresses of the names
    allowed, in the Internet class. *)
Definition relevant (qt : qtypes) (allowed : gset string) (a : Answer) : bool :=
  aINET a && bool_decide (canonicalName (aName a) ∈ allowed) && (isAlias a || bool_decide (is_Some (addressOf qt a))).

Definition minTTL (acc : option Duration) (a : Answer) : option Duration :=
  Some (match acc with Some t => if aTTL a * Second <? t then aTTL a * Second else t | None => aTTL a * Second end).

Lemma addressStep_alt qt al acc a :
  addressStep qt al acc a =
  if relevant qt al a then (acc.1 ++ option_list (addressOf qt a), minTTL acc.2 a) else acc.
Proof.
  destruct acc as [ips ttl]. unfold addressStep, relevant, isAlias, addressOf, minTTL. cbn [fst snd].
  destruct (aINET a); cbn [negb orb andb]; [|done]. destruct (bool_decide (_ ∈ al)); cbn [negb andb]; [|done].
  destruct (aBody a), qt; cbn [orb option_list]; try (rewrite bool_decide_eq_true_2 by (by eexists); done);
    try (rewrite bool_decide_eq_false_2 by (by intros []); done); by rewrite app_nil_r.
Qed.

Lemma address_fold qt al as_ acc :
  fold_left (addressStep qt al) as_ acc =
  (acc.1 ++ omap (addressOf qt) (bfilter (relevant qt al) as_), fold_left minTTL (bfilter (relevant qt al) as_) acc.2).
Proof.
  revert acc. induction as_ as [|a as_ IH]; intros acc; cbn [fold_left List.filter].
  { cbn. rewrite app_nil_r. by destruct acc. }
  rewrite IH, addressStep_alt. destruct (relevant qt al a); [|done]. cbn [fst snd fold_left omap list_omap].
  rewrite <- app_assoc. f_equal. by destruct (addressOf qt a).
Qed.

Lemma minTTL_fold as_ acc t :
  fold_left minTTL as_ acc = Some t ->
  (forall u, acc = Some u -> t <= u) /\ Forall (fun a => t <= aTTL a * Second) as_ /\
  (acc = Some t \/ Exists (fun a => t = aTTL a * Second) as_).
Proof.
  revert acc. induction as_ as [|a as_ IH]; intros acc; cbn [fold_left].
  { intros ->. repeat split; [by intros u [= ->]|constructor|by left]. }
  intros (H1 & H2 & H3)%IH. unfold minTTL in *.
  destruct acc as [u|]; [destruct (Z.ltb_spec (aTTL a * Second) u)|]; specialize (H1 _ eq_refl).
  all: split; [intros ? [= <-]; lia|]; split; [constructor; [lia|done]|].
  all: destruct H3 as [[= H3]|H3]; [|right; by right].
  - right. left. lia.
  - left. congruence.
  - right. left. lia.
Qed.

Lemma minTTL_none as_ : fold_left minTTL as_ None = None -> as_ = [].
Proof.
  destruct as_ as [|a l] using rev_ind; [done|]. rewrite fold_left_app. done.
Qed.

(** C39: A name's aliases are followed to the end, and only they.  The loop over
    the answers of a response, which repeats its pass until nothing changes,
    always comes to its end, after at most one pass more than there are
    answers, whatever cycles the aliases form; and the names it then allows
    are exactly those the name asked for reaches through aliases. *)
Theorem alias_loop_ends as_ want :
  exists allowed, cnameLoop (S (length as_)) as_ {[canonicalName want]} = Some allowed /\
    forall n, n ∈ allowed <-> reaches as_ want n.
Proof. apply cnameLoop_closure. Qed.

(** C16: A resolver takes addresses only from the answer to its own question.
    Addresses come out of a message only if it is a response with the query's
    identifier and its one question, with the success code; they are exactly
    the addresses of the type asked for that Internet records give for names
    the question's name reaches through aliases; and the lifetime is the
    smallest among these records and the aliases on the way.  And a message
    denies the name for good only if it, too, answers the query's question,
    with the code for an unknown name or with no such address. *)
Theorem response_is_checked msg id name qt :
  let own m := Response m = true /\ ID m = id /\
    exists qn, questions m = Some [(qn, Some qt, true)] /\ canonicalName qn = canonicalName name in
  let counted as_ a := a ∈ as_ /\ aINET a = true /\ reaches as_ name (canonicalName (aName a)) in
  (forall ips ttl, parseResponseTTL msg id name qt = Ok (ips, ttl) ->
     exists m as_, msg = Some m /\ own m /\ RCode m = 0 /\ answers m = Some as_ /\ ips <> [] /\
       (forall ip, ip ∈ ips <-> exists a, counted as_ a /\ addressOf qt a = Some ip) /\
       (forall a, counted as_ a -> isAlias a = true \/ is_Some (addressOf qt a) -> ttl <= aTTL a * Second) /\
       (exists a, counted as_ a /\ ttl = aTTL a * Second)) /\
  (forall e, parseResponseTTL msg id name qt = Err (e, true) ->
     exists m, msg = Some m /\ own m /\
       (RCode m = 3 \/ exists as_, RCode m = 0 /\ answers m = Some as_ /\
          forall a ip, counted as_ a -> addressOf qt a <> Some ip)).
Proof.
  intros own counted. unfold parseResponseTTL.
  destruct msg as [m|]; [|done]. destruct (Response m) eqn:Er; [|done]. destruct (Z.eqb_spec (ID m) id) as [Ei|]; [|done].
  cbn [negb orb]. destruct (questions m) as [[|[[qn qt'] inet] [|]]|] eqn:Eq; try done.
  destruct (String.eqb_spec (canonicalName qn) (canonicalName name)) as [En|]; [|done].
  destruct (bool_decide (qt' = Some qt)) eqn:Et; [|done]. apply bool_decide_eq_true in Et as ->.
  destruct inet; [|done]. cbn [negb orb].
  assert (own m) as Hown by (split; [done|]; split; [done|]; by exists qn).
  destruct (Z.eqb_spec (RCode m) 3) as [E3|E3]; [split; [done|]; intros e _; exists m; by repeat (split; [done|]; try left)|].
  destruct (Z.eqb_spec (RCode m) 0) as [E0|E0]; [|done]. cbn [negb].
  destruct (answers m) as [as_|] eqn:Ea; [|done].
  destruct (cnameLoop_closure as_ name) as (al & -> & Hal). rewrite address_fold. cbn [fst snd app].
  set (rel := bfilter (relevant qt al) as_).
  assert (forall a, counted as_ a -> isAlias a = true \/ is_Some (addressOf qt a) -> a ∈ rel) as Hin.
  { intros a (H1 & H2 & H3%Hal) H4. apply elem_of_bfilter. split; [|done]. unfold relevant.
    rewrite H2, bool_decide_eq_true_2 by done. cbn [andb]. destruct H4 as [->|H4]; [done|].
    by rewrite (bool_decide_eq_true_2 _ H4), orb_true_r. }
  assert (forall a, a ∈ rel -> counted as_ a) as Hrel.
  { intros a [H1 H2]%elem_of_bfilter. unfold relevant in H1. to_prop. repeat split; try done. by apply Hal. }
  assert (forall ip, ip ∈ omap (addressOf qt) rel <-> exists a, counted as_ a /\ addressOf qt a = Some ip) as Hips.
  { intros ip. rewrite list_elem_of_omap. split.
    - intros (a & H1%Hrel & H2). by exists a.
    - intros (a & H1 & H2). exists a. split; [|done]. apply Hin; [done|]. right. by rewrite H2. }
  destruct (omap (addressOf qt) rel) as [|ip0 ips0] eqn:Eo; (split; [|intros e]); try done.
  - intros [= <-]. exists m. split; [done|]. split; [done|]. right. exists as_. split; [done|]. split; [done|].
    intros a ip H1 H2. assert (ip ∈ @nil IP) as Hn by (apply Hips; by exists a). by apply elem_of_nil in Hn.
  - intros ips ttl [= <- <-]. exists m, as_. repeat (split; [done|]).
    assert (rel <> []) as Hne by (intros Hn; by rewrite Hn in Eo).
    destruct (fold_left minTTL rel None) as [t|] eqn:Em.
    + apply minTTL_fold in Em as (_ & H2 & H3). destruct H3 as [H3|H3]; [discriminate H3|].
      rewrite Forall_forall in H2. split; [intros a Ha Hb; by apply H2, Hin|].
      apply Exists_exists in H3 as (a & Ha & Ht). exists a. split; [by apply Hrel|done].
    + by apply minTTL_none in Em.
Qed.

(** ** Lemmas: routing and failover *)

Section LookupLemmas.
Context (env : Env).

Lemma lookupFamilies_trace i ep name qts f x :
  x ∈ (lookupFamilies env i ep name qts f).2 -> exists qt, x = QQuery ep qt.
Proof.
  revert f. induction qts as [|qt qts IH]; intros f; cbn [lookupFamilies]; [by intros ?%elem_of_nil|].
  destruct (queryFamily _ _ _ _ _) as [r|e]; [|by intros ?%elem_of_nil]. specialize (IH (addFamily f r)).
  destruct (lookupFamilies _ _ _ _ _ _) as [res tr]. cbn [snd] in *.
  intros [->|H]%elem_of_cons; [by exists qt|by apply IH].
Qed.

Lemma lookupEndpoint_trace i ep name x : x ∈ (lookupEndpoint env i ep name).2 -> exists qt, x = QQuery ep qt.
Proof.
  unfold lookupEndpoint. pose proof (lookupFamilies_trace i ep name [TypeA; TypeAAAA] (mkFamilies [] None [] true) x) as H.
  by destruct (lookupFamilies _ _ _ _ _ _).
Qed.

Lemma lookupEndpoints_trace i eps name fs x :
  x ∈ (lookupEndpoints env i eps name fs).2 -> exists ep qt, x = QQuery ep qt /\ ep ∈ eps.
Proof.
  revert i fs. induction eps as [|ep eps IH]; intros i fs; cbn [lookupEndpoints]; [by intros ?%elem_of_nil|].
  pose proof (lookupEndpoint_trace i ep name x) as Ht.
  assert (x ∈ (lookupEndpoint env i ep name).2 -> exists ep' qt, x = QQuery ep' qt /\ ep' ∈ ep :: eps) as Ht'.
  { intros (qt & ->)%Ht. exists ep, qt. split; [done|set_solver]. }
  destruct (lookupEndpoint env i ep name) as [[y|[e [|]]] tr]; cbn [snd] in *; [done|done|].
  destruct (ctxErr env i); [done|]. specialize (IH (S i) (fs ++ [Wrapped (label ep) e])).
  destruct (lookupEndpoints _ _ _ _ _) as [r' tr']. cbn [snd] in *.
  intros [H|H]%elem_of_app; [by apply Ht'|]. destruct (IH H) as (ep' & qt & -> & Hin). exists ep', qt. set_solver.
Qed.

(** Whether a rule concerns the name. *)
Definition applies (host : string) (r : policyRule) : bool :=
  matchesAny host (bypass r) || negb ((0 <? zlen (only r)) && negb (matchesAny host (only r))).

Lemma lookupRules_fst look host rs :
  (lookupRules env look host rs).1 =
  match find (applies host) rs with
  | None => systemLookup env host
  | Some r => if matchesAny host (bypass r) then systemLookup env host else (look (resolver r)).1
  end.
Proof.
  induction rs as [|[q o b] rs IH]; [done|]. cbn [find lookupRules]. unfold applies at 1. cbn [only bypass resolver].
  destruct (matchesAny host b) eqn:Eb; cbn [orb]; [cbn [bypass]; by rewrite Eb|].
  destruct ((0 <? zlen o) && negb (matchesAny host o)); cbn [negb].
  - rewrite <- IH. by destruct (lookupRules _ _ _ _).
  - cbn [bypass resolver]. rewrite Eb. by destruct (look q).
Qed.

Lemma lookup_rules host p :
  ParseIP (Trim host "[]") = None -> system p = false -> rules p <> [] ->
  (LookupIPTTL env host p).1 =
  match find (applies host) (rules p) with
  | None => systemLookup env host
  | Some r => if matchesAny host (bypass r) then systemLookup env host else (LookupIPTTL env host (resolver r)).1
  end.
Proof.
  destruct p as [sys eps rs t le]. cbn [system rules]. intros Hl -> Hne. cbn [LookupIPTTL]. rewrite Hl.
  rewrite <- lookupRules_fst. destruct rs as [|r rs]; [done|]. by destruct (lookupRules _ _ _ _).
Qed.

(** The error with which the lookup passes over an endpoint. *)
Definition passesOver (name : string) (i : nat) (ep : endpoint) : option LookErr :=
  match (lookupEndpoint env i ep name).1, ctxErr env i with
  | Err (e, false), None => Some (Wrapped (label ep) e)
  | _, _ => None
  end.

(** What the lookup says after the endpoint it does not pass over. *)
Definition verdict (name : string) (i : nat) (ep : endpoint) : result LookErr (list IP * Duration) :=
  match (lookupEndpoint env i ep name).1 with
  | Ok x => Ok x
  | Err (e, true) => Err e
  | Err (e, false) => Err (default e (ctxErr env i))
  end.

Lemma lookupEndpoints_spec i eps name fs :
  let r := (lookupEndpoints env i eps name fs).1 in let tr := (lookupEndpoints env i eps name fs).2 in
  let queries l := mjoin (imap (fun j ep => (lookupEndpoint env (i + j) ep name).2) l) in
  (exists pre ep post, eps = pre ++ ep :: post /\
     (forall j ep', pre !! j = Some ep' -> is_Some (passesOver name (i + j) ep')) /\
     passesOver name (i + length pre) ep = None /\ r = verdict name (i + length pre) ep /\ tr = queries (pre ++ [ep])) \/
  (exists es, r = Err (Joined (fs ++ es)) /\ length es = length eps /\ tr = queries eps /\
     forall j ep', eps !! j = Some ep' -> passesOver name (i + j) ep' = es !! j).
Proof.
  cbv zeta. revert i fs. induction eps as [|ep eps IH]; intros i fs; cbn [lookupEndpoints].
  { right. exists []. rewrite app_nil_r. repeat split. by intros [|j] ep'. }
  destruct (passesOver name i ep) as [e|] eqn:Ep.
  - unfold passesOver in Ep. destruct (lookupEndpoint env i ep name) as [[y|[e' [|]]] tr] eqn:El; [done|done|]. cbn [fst] in Ep.
    destruct (ctxErr env i) eqn:Ec; [done|]. injection Ep as Ee.
    assert (passesOver name i ep = Some e) as Hp by (unfold passesOver; by rewrite El, Ec, <- Ee).
    specialize (IH (S i) (fs ++ [Wrapped (label ep) e'])).
    destruct (lookupEndpoints _ _ _ _ _) as [r' tr']. cbn [fst snd] in *.
    assert (forall l, mjoin (imap (fun j ep => (lookupEndpoint env (i + j) ep name).2) (ep :: l)) =
              tr ++ mjoin (imap (fun j ep => (lookupEndpoint env (S i + j) ep name).2) l)) as Hq.
    { intros l. cbn [imap mjoin list_join]. rewrite Nat.add_0_r, El. cbn [snd]. f_equal. f_equal. apply imap_ext.
      intros j x _. unfold compose. by rewrite Nat.add_succ_r. }
    destruct IH as [(pre & ep1 & post & -> & H1 & H2 & H3 & H4)|(es & H1 & H2 & H3 & H4)].
    + left. exists (ep :: pre), ep1, post. cbn [length app]. rewrite Nat.add_succ_r. split; [done|].
      split; [|split; [done|split; [done|by rewrite Hq, H4]]].
      intros [|j] ep'; cbn [lookup list_lookup]; [intros [= <-]; rewrite Nat.add_0_r, Hp; by eexists|].
      intros Hj. rewrite Nat.add_succ_r. by apply H1.
    + right. exists (Wrapped (label ep) e' :: es). rewrite H1, <- app_assoc. cbn [length]. split; [done|].
      split; [by rewrite H2|]. split; [by rewrite Hq, H3|].
      intros [|j] ep'; cbn [lookup list_lookup]; [intros [= <-]; rewrite Nat.add_0_r, Hp; by subst|].
      intros Hj. rewrite Nat.add_succ_r. by apply H4.
  - left. exists [], ep, eps. cbn [length app imap mjoin list_join]. rewrite Nat.add_0_r. split; [done|].
    split; [by intros j ep'; rewrite lookup_nil|]. split; [done|]. unfold passesOver, verdict in *.
    destruct (lookupEndpoint env i ep name) as [[y|[e' [|]]] tr]; cbn [fst snd] in *; try (by rewrite app_nil_r).
    destruct (ctxErr env i); [|done]. cbn [fst snd]. by rewrite app_nil_r.
Qed.
End LookupLemmas.

(** ** Lemmas: labels *)

Lemma suffix_labels h b :
  h = b \/ HasSuffix h ("." +:+ b) = true <-> Split b "." `suffix_of` Split h ".".
Proof.
  split.
  - intros [->|H%has_suffix_inv]; [done|]. eexists. rewrite H at 1. apply Split_app_sep.
  - intros (k & E). destruct k as [|w k].
    + left. rewrite <- (Join_Split h "."), <- (Join_Split b "."). by rewrite E.
    + right. rewrite <- (Join_Split h "."), E, Join_app by (try done; apply Split_nonnil).
      rewrite Join_Split. apply has_suffix_app.
Qed.

Lemma proper_suffix_labels h b :
  h <> b /\ HasSuffix h ("." +:+ b) = true <-> Split b "." `suffix_of` Split h "." /\ h <> b.
Proof. rewrite <- suffix_labels. naive_solver. Qed.

Lemma CutPrefix_Some s pre r : CutPrefix s pre = Some r <-> s = pre +:+ r.
Proof.
  unfold CutPrefix. split.
  - case_if; [|done]. intros [= <-]. by apply has_prefix_inv.
  - intros ->. by rewrite has_prefix_app, str_drop_app.
Qed.

(** ** Theorems *)


(** Failover goes through the endpoints in their configured order.  Either
    some endpoint gives the verdict, an answer, a denial or the end of the
    caller's context, after every endpoint before it failed for a reason of
    its own, and only these endpoints were asked; or all were asked and the
    error joins their failures in order. *)
Theorem failover_in_order env host name p :
  ParseIP (Trim host "[]") = None -> system p = false -> rules p = [] -> dnsName env host = Some name ->
  let r := (LookupIPTTL env host p).1.1 in let tr := (LookupIPTTL env host p).1.2 in
  let queries l := mjoin (imap (fun j ep => (lookupEndpoint env j ep name).2) l) in
  (exists pre ep post, endpoints p = pre ++ ep :: post /\
     (forall j ep', pre !! j = Some ep' -> is_Some (passesOver env name j ep')) /\
     passesOver env name (length pre) ep = None /\ r = verdict env name (length pre) ep /\ tr = queries (pre ++ [ep])) \/
  (exists es, r = Err (Joined es) /\ length es = length (endpoints p) /\ tr = queries (endpoints p) /\
     forall j ep', endpoints p !! j = Some ep' -> passesOver env name j ep' = es !! j).
Proof.
  destruct p as [sys eps rs t le]. cbn [system rules endpoints]. intros Hl -> -> Hn. cbn [LookupIPTTL].
  rewrite Hl, Hn. unfold recordError. cbn [fst snd]. exact (lookupEndpoints_spec env 0 eps name []).
Qed.

(** Domain patterns match whole labels.  A pattern without a star matches a
    host if its labels are the last labels of the host, a pattern that begins
    with a star and a dot matches the hosts strictly below the rest, and a lone star
    matches every name; case, surrounding blanks and one final dot make no
    difference. *)
Theorem domain_match_by_labels host pattern :
  let h := domainText host in let p := domainText pattern in
  matchDomain host pattern = true <->
  (p = "*" /\ h <> "") \/
  (p <> "*" /\ exists base, p = "*." +:+ base /\ Split base "." `suffix_of` Split h "." /\ h <> base) \/
  (p <> "*" /\ HasPrefix p "*." = false /\ Split p "." `suffix_of` Split h ".").
Proof.
  cbv zeta. unfold matchDomain. generalize (domainText host), (domainText pattern). intros h p.
  destruct (String.eqb_spec p "*") as [->|Hp].
  { rewrite negb_true_iff, String.eqb_neq. naive_solver. }
  destruct (CutPrefix p "*.") as [base|] eqn:Ec.
  - apply CutPrefix_Some in Ec. subst p. rewrite andb_true_iff, negb_true_iff, String.eqb_neq, proper_suffix_labels.
    split; [intros H; right; left; split; [done|]; by exists base|].
    intros [[H _]|[(_ & b & Eb & H)|(_ & H & _)]]; [discriminate H| |by rewrite has_prefix_app in H].
    assert (b = base) as -> by (apply (f_equal (str_drop 2)) in Eb; exact (eq_sym Eb)). done.
  - assert (HasPrefix p "*." = false) as Hpre by (unfold CutPrefix in Ec; by destruct (HasPrefix p "*.")).
    rewrite orb_true_iff, String.eqb_eq, suffix_labels. split; [naive_solver|].
    intros [[H _]|[(_ & b & -> & _)|(_ & _ & H)]]; [by subst p|by rewrite has_prefix_app in Hpre|done].
Qed.

(** The framing of DNS over TCP: what is framed is read back. *)
Lemma tcp_frame_roundtrip query frame extra e :
  tcpFrame query = Ok frame -> query <> [] -> readFrame (frame ++ extra) e = Ok query.
Proof.
  unfold tcpFrame. case_if; [done|]. intros [= <-] Hne. unfold readFrame. cbn [app].
  assert (0 < zlen query) as Hpos by (destruct query; [done|rewrite zlen_cons; pose proof (zlen_nonneg query); lia]).
  unfold maxDNSMessageBytes in *. to_prop.
  rewrite (Z.mul_comm (zlen query / 256)), <- Z.div_mod by lia.
  replace (zlen query =? 0) with false by lia. replace (65535 <? zlen query) with false by lia. cbn [orb].
  rewrite zlen_app. pose proof (zlen_nonneg extra). replace (_ <? zlen query) with false by lia. by rewrite take_zlen.
Qed.

(** ** Witnesses *)

(** A network in which the first endpoint is silent and the second answers the A
    query through an alias, and denies AAAA. *)
Definition toyMessage (qt : qtypes) : Message :=
  mkMessage true 7 false 0 (Some [("A.example.", Some qt, true)])
    (Some (match qt with
           | TypeA => [mkAnswer "b.example." true 30 (AResource 3232235521); mkAnswer "a.example." true 60 (CNAMEResource "B.example.")]
           | TypeAAAA => []
           end)).

Definition toyEnv : Env := mkEnv (fun _ => Err TransportError) Some (fun i qt _ => Ok ([Z.of_nat i; match qt with TypeA => 1 | TypeAAAA => 28 end], 7))
  (fun i qt _ q => if (i =? 0)%nat then Err DeadlineExceeded else Ok q)
  (fun _ _ _ _ => ([], TransportError)) (fun _ _ _ _ => Err TransportError)
  (fun b => Some (toyMessage (if decide (b = [1; 1]) then TypeA else TypeAAAA))) (fun _ => None).

Definition toyRaw : string := " 1.1.1.1, udp://9.9.9.9:5353".
Definition toyPolicy : Policy := match New toyRaw 0 with Ok p => p | Err _ => mkPolicy true [] [] 0 "" end.

Example resolver1 : map label (endpoints toyPolicy) = ["udp://1.1.1.1:53"; "udp://9.9.9.9:5353"] /\
  (LookupIPTTL toyEnv "a.example" toyPolicy).1.1 = Ok ([of_v4 3232235521], 30 * Second).
Proof. by vm_compute. Qed.

Lemma response_is_checked_witness :
  parseResponseTTL (Some (toyMessage TypeA)) 7 "a.example." TypeA = Ok ([of_v4 3232235521], 30 * Second) /\
  reaches (default [] (answers (toyMessage TypeA))) "a.example." "b.example.".
Proof.
  assert (parseResponseTTL (Some (toyMessage TypeA)) 7 "a.example." TypeA = Ok ([of_v4 3232235521], 30 * Second)) as H by (by vm_compute).
  split; [exact H|].
  destruct (proj1 (response_is_checked _ _ _ _) _ _ H) as (m & as_ & [= <-] & _ & _ & [= <-] & _ & Hips & _).
  destruct (proj1 (Hips (of_v4 3232235521)) ltac:(by constructor)) as (a & (Ha & _ & Hr) & Hb).
  apply elem_of_cons in Ha as [->|Ha]; [exact Hr|]. apply list_elem_of_singleton in Ha as ->. by vm_compute in Hb.
Defined.


Lemma failover_in_order_witness :
  passesOver toyEnv "a.example." 0 (mkEndpoint "udp" "1.1.1.1:53" None "udp://1.1.1.1:53") <> None /\
  exists ep post, endpoints toyPolicy = mkEndpoint "udp" "1.1.1.1:53" None "udp://1.1.1.1:53" :: ep :: post /\
    (LookupIPTTL toyEnv "a.example" toyPolicy).1.1 = verdict toyEnv "a.example." 1 ep.
Proof.
  split; [by vm_compute|].
  destruct (failover_in_order toyEnv "a.example" "a.example." toyPolicy ltac:(by vm_compute) ltac:(by vm_compute)
    ltac:(by vm_compute) ltac:(by vm_compute)) as [(pre & ep & post & E & H1 & H2 & H3 & _)|(es & H & _)].
  - destruct pre as [|ep0 [|ep1 pre]].
    + vm_compute in E. injection E as <- _. by vm_compute in H2.
    + pose proof E as E'. vm_compute in E'. injection E' as <- <- <-. eexists _, _. split; [exact E|exact H3].
    + assert (length (endpoints toyPolicy) = 2%nat) as El by (by vm_compute).
      rewrite E, length_app in El. cbn [length] in El. lia.
  - by vm_compute in H.
Defined.

End Rv.
