(* ===== verification/Config.v ===== *)
(** * Config: options, their sources and the INI file ([internal/config/config.go])

    The value of each option, the switch that applies a value to it, the INI and
    dotenv readers, the environment, the command line, the order in which they
    are applied, and the INI writer.  Paths are slash paths: the branches for
    Windows are left out.  Floating-point numbers and the text of durations are
    parameters. *)

From S2P Require Export Prelude GoStrings GoText Url.
From S2P Require Resolver Update.
Import Resolver.Rv(Rule, mkRawRule).

Module Cf.

(** ** The configuration

    The fields of a type are a total function of their names, so that setting a
    field is one update. *)

Inductive StrField :=
| Server | PAC | PACEncoding | Listen | Allow | NoProxy | DNS | UserAgent | Username | Password | Auth
| AutoUpdate | UpdateChannel | InstallProvider | Test | ConfigPath | ClientAuth | ClientUsername | ClientPassword.
Inductive IntField := Port | Workers | Threads | Idle | ProxyReload | Log.
Inductive BoolField :=
| Gateway | Hostonly | Kerberos | Foreground | ClientNoSSPI | TestAuth | PasswordAction | ClientPasswordAction
| Help | Version | CheckUpdate | DoUpdate | Install | Background | ApplySystemProxy | Uninstall | Force | Save
| Quit | Restart | Doctor.
#[global] Instance StrField_eq : EqDecision StrField. Proof. solve_decision. Defined.
#[global] Instance IntField_eq : EqDecision IntField. Proof. solve_decision. Defined.
#[global] Instance BoolField_eq : EqDecision BoolField. Proof. solve_decision. Defined.

Definition upd {K V} `{EqDecision K} (f : K -> V) (k : K) (v : V) : K -> V := fun k' => if decide (k' = k) then v else f k'.

Section Config.

(** [float64] with [strconv.ParseFloat] and the verb [%g]; [time.ParseDuration]
    and [Duration.String]. *)
Context {Float : Type} (ParseFloat : string -> option Float) (formatG : Float -> string)
        (ParseDuration : string -> option Duration) (durationString : Duration -> string).
(** [20.0] and [24h]. *)
Context (twenty : Float).

Record Config := mkConfig {
  str : StrField -> string; int : IntField -> Z; flag : BoolField -> bool;
  SockTimeout : Float; UpdateInterval : Duration; DNSRules : list Rule; Sources : gmap string string }.

Definition setStr (k : StrField) (v : string) (c : Config) : Config :=
  mkConfig (upd (str c) k v) (int c) (flag c) (SockTimeout c) (UpdateInterval c) (DNSRules c) (Sources c).
Definition setInt (k : IntField) (v : Z) (c : Config) : Config :=
  mkConfig (str c) (upd (int c) k v) (flag c) (SockTimeout c) (UpdateInterval c) (DNSRules c) (Sources c).
Definition setFlag (k : BoolField) (v : bool) (c : Config) : Config :=
  mkConfig (str c) (int c) (upd (flag c) k v) (SockTimeout c) (UpdateInterval c) (DNSRules c) (Sources c).
Definition setSockTimeout (v : Float) (c : Config) : Config :=
  mkConfig (str c) (int c) (flag c) v (UpdateInterval c) (DNSRules c) (Sources c).
Definition setUpdateInterval (v : Duration) (c : Config) : Config :=
  mkConfig (str c) (int c) (flag c) (SockTimeout c) v (DNSRules c) (Sources c).
Definition setDNSRules (v : list Rule) (c : Config) : Config :=
  mkConfig (str c) (int c) (flag c) (SockTimeout c) (UpdateInterval c) v (Sources c).
Definition setSources (v : gmap string string) (c : Config) : Config :=
  mkConfig (str c) (int c) (flag c) (SockTimeout c) (UpdateInterval c) (DNSRules c) v.

Definition maxConfigLineBytes : Z := 1048576.

(** ** Defaults *)

Definition Defaults : list (string * string) :=
  [("server", ""); ("pac", ""); ("pac_encoding", "auto"); ("port", "3128"); ("listen", "0.0.0.0"); ("gateway", "0");
   ("hostonly", "0"); ("allow", "127.0.0.0/8,::1"); ("noproxy", ""); ("dns", ""); ("dns_only", ""); ("dns_bypass", "");
   ("useragent", ""); ("username", ""); ("auth", ""); ("kerberos", "0"); ("workers", "1"); ("threads", "32");
   ("idle", "30"); ("socktimeout", "20.0"); ("proxyreload", "60"); ("foreground", "0"); ("log", "0");
   ("client_auth", "NONE"); ("client_nosspi", "0"); ("client_username", ""); ("auto_update", "install");
   ("update_interval", "24h"); ("update_channel", "stable"); ("install_provider", "auto")].

Definition Default : Config := mkConfig
  (fun k => match k with
            | PACEncoding => "auto" | Listen => "0.0.0.0" | Allow => "127.0.0.0/8,::1" | ClientAuth => "NONE"
            | AutoUpdate => "install" | UpdateChannel => "stable" | InstallProvider => "auto" | _ => ""
            end)
  (fun k => match k with Port => 3128 | Workers => 1 | Threads => 32 | Idle => 30 | ProxyReload => 60 | Log => 0 end)
  (fun _ => false) twenty (24 * Hour) [] (list_to_map (map (fun kv => (fst kv, "default")) Defaults)).

(** ** Errors and the outside *)

Inductive CErr :=
| EInvalid (name : string) | EUnsupported (name : string) | EDNS (e : Resolver.Rv.CfgErr) | ENoDNS (name : string)
| EPAC | EUpdate (e : Update.Upd.UErr) | ENoEquals (line : Z) | ELine (line : Z) (e : CErr) | EScan
| EFrom (source name : string) (e : CErr) | EOpen | EConfigDir | EDotenv (e : CErr) | EConfigFile (e : CErr)
| EKeyring | ELineBreak (name : string) | EEmptyPath.

Inductive Stat := Exists | NotExist | StatError.

Record World := mkWorld {
  Environ : list string;                       (** [os.Environ()] *)
  cwd : option string;                         (** [os.Getwd()] *)
  homeDir : option string; darwin : bool;
  scriptDir : string;                          (** [GetScriptDir()] *)
  stat : string -> Stat;                       (** [os.Stat] *)
  readFile : string -> string + bool;          (** the text, or whether the file is missing *)
  keyringGet : string -> string -> option (option string) }.  (** [None]: the keyring cannot be read *)

Context (w : World).

Definition LookupEnv (key : string) : option string :=
  match find (fun item => match Cut item "=" with Some (k, _) => String.eqb k key | None => false end) (Environ w) with
  | Some item => snd <$> Cut item "="
  | None => None
  end.

Definition lookupCompatEnv (name : string) : option (string * string) :=
  match LookupEnv ("PXGO_" +:+ name) with
  | Some v => Some (v, "PXGO_" +:+ name)
  | None => match LookupEnv ("PX_" +:+ name) with
            | Some v => Some (v, "PX_" +:+ name)
            | None => None
            end
  end.

(** ** Values *)

Definition canonicalConfigKey (name : string) : string :=
  let name := ToLower (TrimSpace name) in if String.eqb name "proxy" then "server" else name.

Definition markSource (name source : string) (c : Config) : Config :=
  setSources (<[canonicalConfigKey name := source]> (Sources c)) c.
Definition SourceOf (c : Config) (name : string) : string := default "" (Sources c !! canonicalConfigKey name).

Definition parseIntValue (name val : string) : result CErr Z :=
  match Atoi val with Ok v => Ok v | Err _ => Err (EInvalid name) end.

Definition parseBoolValue (val : string) : option bool :=
  let v := ToLower (TrimSpace val) in
  if existsb (String.eqb v) [""; "0"; "false"; "no"; "off"] then Some false
  else if existsb (String.eqb v) ["1"; "true"; "yes"; "on"] then Some true else None.

Definition boolValue (name val : string) : result CErr bool :=
  match parseBoolValue val with Some b => Ok b | None => Err (EInvalid name) end.

Definition splitDNSPatterns (raw : string) : list string :=
  bfilter (fun s => negb (String.eqb s "")) (map TrimSpace (Split raw ",")).

Definition normalizePath (path : string) : string :=
  if pathIsAbs path then pathClean path
  else match cwd w with Some d => pathJoin d path | None => pathClean path end.

(** *** PAC locations *)

Definition fileURLToLocalPathStrict (fileURL : string) : option string :=
  u ← urlParse (ReplaceChar fileURL "\" "/");
  if negb (String.eqb (Scheme u) "file") then None
  else
    path ← unescape encPath (Path u);
    let result :=
      if negb (String.eqb (Host u) "") then "//" +:+ Host u +:+ path
      else match path with
           | String "/" (String _ (String ":" _)) => str_drop 1 path
           | _ => path
           end in
    if String.eqb result "" then None else Some result.

Definition normalizePACLocation (pac : string) : result CErr string :=
  if String.eqb pac "" then Ok ""
  else if HasPrefix pac "http://" || HasPrefix pac "https://" then
    match urlParse pac with
    | Some u => if String.eqb (Host u) "" then Err EPAC else Ok pac
    | None => Err EPAC
    end
  else if HasPrefix pac "file:" then
    match fileURLToLocalPathStrict pac with
    | None => Err EPAC
    | Some path => match stat w path with Exists => Ok path | _ => Err EPAC end
    end
  else
    let path := if pathIsAbs pac then pac else pathJoin (scriptDir w) pac in
    match stat w path with Exists => Ok path | _ => Err EPAC end.

(** *** The switch *)

Definition updateMode (r : result Update.Upd.UErr string) : result CErr string :=
  match r with Ok v => Ok v | Err e => Err (EUpdate e) end.

(** [None]: not one of the names handled here. *)
Definition applyAuxValue (c : Config) (name val : string) : option (result CErr Config) :=
  if String.eqb name "auto_update" then
    Some (v ← updateMode (Update.Upd.ParseAutoMode val); Ok (setStr AutoUpdate v c))
  else if String.eqb name "update_interval" then
    Some (match ParseDuration (TrimSpace val) with
          | Some interval => if interval <=? 0 then Err (EInvalid name) else Ok (setUpdateInterval interval c)
          | None => Err (EInvalid name)
          end)
  else if String.eqb name "update_channel" then
    Some (v ← updateMode (Update.Upd.ParseChannel val); Ok (setStr UpdateChannel v c))
  else if String.eqb name "install_provider" then
    Some (v ← updateMode (Update.Upd.ParseProvider val); Ok (setStr InstallProvider v c))
  else if String.eqb name "test" then Some (Ok (setStr Test val c))
  else if String.eqb name "config" then
    Some (Ok (setStr ConfigPath (if String.eqb val "" then "" else normalizePath val) c))
  else if String.eqb name "client_auth" then Some (Ok (setStr ClientAuth (ToUpper val) c))
  else if String.eqb name "client_username" then Some (Ok (setStr ClientUsername val c))
  else if String.eqb name "client_nosspi" then Some (b ← boolValue name val; Ok (setFlag ClientNoSSPI b c))
  else None.

Definition applyValue (c : Config) (name val : string) : result CErr Config :=
  match applyAuxValue c name val with
  | Some r => r
  | None =>
      if String.eqb name "server" || String.eqb name "proxy" then Ok (setStr Server val c)
      else if String.eqb name "pac" then pac ← normalizePACLocation val; Ok (setStr PAC pac c)
      else if String.eqb name "pac_encoding" then Ok (setStr PACEncoding val c)
      else if String.eqb name "port" then v ← parseIntValue name val; Ok (setInt Port v c)
      else if String.eqb name "listen" then Ok (setStr Listen val c)
      else if String.eqb name "gateway" then
        b ← boolValue name val;
        let c := setFlag Gateway b c in Ok (if (b : bool) then setStr Listen "" c else c)
      else if String.eqb name "hostonly" then
        b ← boolValue name val;
        let c := setFlag Hostonly b c in Ok (if (b : bool) then setStr Listen "" c else c)
      else if String.eqb name "allow" then Ok (setStr Allow val c)
      else if String.eqb name "noproxy" then Ok (setStr NoProxy val c)
      else if String.eqb name "dns" then
        match Resolver.Rv.New val Second with
        | Ok _ => Ok (setStr DNS (TrimSpace val) c)
        | Err e => Err (EDNS e)
        end
      else if String.eqb name "useragent" then Ok (setStr UserAgent val c)
      else if String.eqb name "username" then Ok (setStr Username val c)
      else if String.eqb name "password" then Ok (setStr Password val c)
      else if String.eqb name "client_password" then Ok (setStr ClientPassword val c)
      else if String.eqb name "auth" then Ok (setStr Auth (ToUpper val) c)
      else if String.eqb name "kerberos" then b ← boolValue name val; Ok (setFlag Kerberos b c)
      else if String.eqb name "workers" then v ← parseIntValue name val; Ok (setInt Workers v c)
      else if String.eqb name "threads" then v ← parseIntValue name val; Ok (setInt Threads v c)
      else if String.eqb name "idle" then v ← parseIntValue name val; Ok (setInt Idle v c)
      else if String.eqb name "socktimeout" then
        match ParseFloat val with Some f => Ok (setSockTimeout f c) | None => Err (EInvalid name) end
      else if String.eqb name "proxyreload" then v ← parseIntValue name val; Ok (setInt ProxyReload v c)
      else if String.eqb name "foreground" then b ← boolValue name val; Ok (setFlag Foreground b c)
      else if String.eqb name "log" then v ← parseIntValue name val; Ok (setInt Log v c)
      else Err (EUnsupported name)
  end.

(** *** DNS rules *)

Definition dnsCheck (r : Rule) : result CErr unit :=
  match Resolver.Rv.NewRules [r] Second with Ok _ => Ok tt | Err e => Err (EDNS e) end.

Definition applyDNSPolicyValue (c : Config) (name val source : string) : result CErr Config :=
  if String.eqb name "dns" then
    let resolver := TrimSpace val in
    match Resolver.Rv.New resolver Second with
    | Err e => Err (EDNS e)
    | Ok _ =>
        let c := setStr DNS resolver c in
        if String.eqb resolver "" then Ok (setDNSRules [] c)
        else
          let rules := if HasPrefix source "ini:" then DNSRules c else [] in
          Ok (setDNSRules (rules ++ [mkRawRule resolver [] []]) c)
    end
  else if String.eqb name "dns_only" || String.eqb name "dns_bypass" then
    match last (DNSRules c) with
    | None => Err (ENoDNS name)
    | Some rule =>
        let patterns := splitDNSPatterns val in
        let rule := if String.eqb name "dns_only"
                    then mkRawRule (Resolver.Rv.Resolver rule) (Resolver.Rv.Only rule ++ patterns) (Resolver.Rv.Bypass rule)
                    else mkRawRule (Resolver.Rv.Resolver rule) (Resolver.Rv.Only rule) (Resolver.Rv.Bypass rule ++ patterns) in
        _ ← dnsCheck rule;
        Ok (setDNSRules (take (length (DNSRules c) - 1) (DNSRules c) ++ [rule]) c)
    end
  else Err (EUnsupported name).

Definition applyValueFrom (c : Config) (name val source : string) : result CErr Config :=
  let name := canonicalConfigKey name in
  c ← (if String.eqb name "dns" || String.eqb name "dns_only" || String.eqb name "dns_bypass"
       then applyDNSPolicyValue c name val source else applyValue c name val);
  Ok (markSource name source c).

Definition normalizeDependencies (c : Config) : Config :=
  let c := if flag c Gateway || flag c Hostonly then setStr Listen "" c else c in
  if flag c Hostonly && negb (flag c Gateway) then setStr Allow "" c else c.

(** ** The INI file *)

Inductive IniLine := IniSkip | IniSet (key val : string) | IniBad.

Definition iniLine (raw : string) : IniLine :=
  let line := TrimSpace raw in
  if String.eqb line "" || HasPrefix line "#" || HasPrefix line ";" || HasPrefix line "[" then IniSkip
  else match Cut line "=" with
       | Some (k, v) => IniSet (TrimSpace k) (TrimSpace v)
       | None => IniBad
       end.

Fixpoint readLines (path : string) (lineNo : Z) (lines : list string) (c : Config) : result CErr Config :=
  match lines with
  | [] => Ok c
  | raw :: lines' =>
      match iniLine raw with
      | IniSkip => readLines path (lineNo + 1) lines' c
      | IniBad => Err (ENoEquals lineNo)
      | IniSet k v =>
          match applyValueFrom c k v ("ini:" +:+ path) with
          | Ok c => readLines path (lineNo + 1) lines' c
          | Err e => Err (ELine lineNo e)
          end
      end
  end.

(** The text of the file read by a scanner whose lines are bounded. *)
Definition readINIText (path text : string) : result CErr Config :=
  let '(lines, tooLong) := scanLines maxConfigLineBytes text in
  c ← readLines path 1 lines Default;
  if (tooLong : bool) then Err EScan else Ok (normalizeDependencies c).

Definition ReadINI (path : string) : result CErr Config :=
  match readFile w path with inl text => readINIText path text | inr _ => Err EOpen end.

Definition btoi (v : bool) : Z := if v then 1 else 0.

Definition hasLineBreak (s : string) : bool := ContainsAny s (String CR (String LF "")).

Definition iniStrings : list (string * StrField) :=
  [("server", Server); ("pac", PAC); ("pac_encoding", PACEncoding); ("listen", Listen); ("allow", Allow);
   ("noproxy", NoProxy); ("dns", DNS); ("useragent", UserAgent); ("username", Username); ("auth", Auth);
   ("client_auth", ClientAuth); ("client_username", ClientUsername); ("auto_update", AutoUpdate);
   ("update_channel", UpdateChannel); ("install_provider", InstallProvider)].

Definition validateINIStrings (c : Config) : option CErr :=
  match find (fun nf => hasLineBreak (str c (snd nf))) iniStrings with
  | Some (name, _) => Some (ELineBreak name)
  | None =>
      if existsb (fun r => existsb hasLineBreak (Resolver.Rv.Resolver r :: Resolver.Rv.Only r ++ Resolver.Rv.Bypass r)) (DNSRules c)
      then Some (ELineBreak "dns") else None
  end.

Definition iniSet (k v : string) : string := k +:+ " = " +:+ v.

Definition dnsINIBlock (c : Config) : list string :=
  match DNSRules c with
  | [] => [iniSet "dns" (str c DNS)]
  | rules =>
      mjoin (map (fun r =>
        [iniSet "dns" (Resolver.Rv.Resolver r)] ++
        (if 0 <? zlen (Resolver.Rv.Only r) then [iniSet "dns_only" (Join (Resolver.Rv.Only r) ",")] else []) ++
        (if 0 <? zlen (Resolver.Rv.Bypass r) then [iniSet "dns_bypass" (Join (Resolver.Rv.Bypass r) ",")] else [])) rules)
  end.

(** The lines [SaveINI] writes. *)
Definition iniLines (c : Config) : list string :=
  let s := str c in let n k := Itoa (int c k) in let b k := Itoa (btoi (flag c k)) in
  ["[proxy]"; iniSet "server" (s Server); iniSet "pac" (s PAC); iniSet "pac_encoding" (s PACEncoding);
   iniSet "port" (n Port); iniSet "listen" (if flag c Gateway || flag c Hostonly then "" else s Listen);
   iniSet "gateway" (b Gateway); iniSet "hostonly" (b Hostonly); iniSet "allow" (s Allow); iniSet "noproxy" (s NoProxy)] ++
  dnsINIBlock c ++
  [iniSet "useragent" (s UserAgent); iniSet "username" (s Username); iniSet "auth" (s Auth);
   iniSet "kerberos" (b Kerberos); ""; "[client]"; iniSet "client_auth" (s ClientAuth);
   iniSet "client_username" (s ClientUsername); iniSet "client_nosspi" (b ClientNoSSPI); ""; "[settings]";
   iniSet "workers" (n Workers); iniSet "threads" (n Threads); iniSet "idle" (n Idle);
   iniSet "socktimeout" (formatG (SockTimeout c)); iniSet "proxyreload" (n ProxyReload);
   iniSet "foreground" (b Foreground); iniSet "log" (n Log); iniSet "auto_update" (s AutoUpdate);
   iniSet "update_interval" (durationString (UpdateInterval c)); iniSet "update_channel" (s UpdateChannel);
   iniSet "install_provider" (s InstallProvider)].

Definition unlines (ls : list string) : string := fold_right (fun l t => l +:+ String LF t) "" ls.

(** The text [SaveINI] hands to [writeFileWithBackup]. *)
Definition SaveINI (path : string) (c : Config) : result CErr string :=
  if String.eqb path "" then Err EEmptyPath
  else match validateINIStrings c with Some e => Err e | None => Ok (unlines (iniLines c)) end.

(** ** Dotenv and the environment *)

Definition isAuxiliaryEnvKey (name : string) : bool :=
  existsb (String.eqb name) ["save"; "dotenv"; "keyring_file"; "keyring_plaintext"; "kerberos_flavor"; "kerberos_password";
                             "kerberos_principal"; "bin"].

(** [values] and [priorities] of [loadDotenvFile]. *)
Definition dotenvLine (acc : gmap string string * gmap string Z) (raw : string)
  : option (gmap string string * gmap string Z) :=
  let '(values, priorities) := acc in
  let line := TrimSpace raw in
  if String.eqb line "" || HasPrefix line "#" then Some acc
  else
    let line := if HasPrefix line "export " then TrimSpace (TrimPrefix line "export ") else line in
    match Cut line "=" with
    | None => None
    | Some (key, val) =>
        let key := TrimSpace key in
        let entry :=
          if HasPrefix key "PXGO_" && (slen "PXGO_" <? slen key) then Some ("PXGO_", 2)
          else if HasPrefix key "PX_" && (slen "PX_" <? slen key) then Some ("PX_", 1) else None in
        match entry with
        | None => Some acc
        | Some (pre, priority) =>
            let name := ToLower (str_drop (String.length pre) key) in
            let suffix := ToUpper (str_drop (String.length pre) key) in
            if bool_decide (is_Some (LookupEnv ("PXGO_" +:+ suffix))) || bool_decide (is_Some (LookupEnv ("PX_" +:+ suffix)))
            then Some acc
            else if priority <? default 0 (priorities !! name) then Some acc
            else Some (<[name := Trim (TrimSpace val) (String "034" "'")]> values, <[name := priority]> priorities)
        end
    end.

Fixpoint dotenvLines (lineNo : Z) (lines : list string) (acc : gmap string string * gmap string Z)
  : result CErr (gmap string string * gmap string Z) :=
  match lines with
  | [] => Ok acc
  | raw :: lines' =>
      match dotenvLine acc raw with
      | None => Err (ENoEquals lineNo)
      | Some acc => dotenvLines (lineNo + 1) lines' acc
      end
  end.

(** [None]: there is no such file. *)
Definition loadDotenvFile (path : string) : result CErr (option (gmap string string)) :=
  match readFile w path with
  | inr missing => if (missing : bool) then Ok None else Err EOpen
  | inl text =>
      let '(lines, tooLong) := scanLines maxConfigLineBytes text in
      acc ← dotenvLines 1 lines (∅, ∅);
      if (tooLong : bool) then Err EScan else Ok (Some (fst acc))
  end.

Definition loadDotenv : result CErr (gmap string string * string) :=
  match lookupCompatEnv "DOTENV" with
  | Some (explicit, _) =>
      let explicit := TrimSpace explicit in
      if String.eqb explicit "" then Ok (∅, "")
      else match loadDotenvFile explicit with
           | Err e => Err (EDotenv e)
           | Ok None => Err (EDotenv EOpen)
           | Ok (Some values) => Ok (values, "dotenv:" +:+ explicit)
           end
  | None =>
      let scriptEnv := pathJoin (scriptDir w) ".env" in
      match loadDotenvFile scriptEnv with
      | Err e => Err (EDotenv e)
      | Ok None => Ok (∅, "")
      | Ok (Some values) => Ok (values, "dotenv:" +:+ scriptEnv)
      end
  end.

(** A value and its source. *)
Definition applyEntries (entries : list (string * (string * string))) (c : Config) : result CErr Config :=
  foldM (fun c e => let '(name, (val, source)) := e in
           match applyValueFrom c name val source with Ok c => Ok c | Err e => Err (EFrom source name e) end) entries c.

Definition entriesOf (values : gmap string (string * string)) : list (string * (string * string)) :=
  omap (fun k => (fun v => (k, v)) <$> values !! k) (sortKeys (map fst (map_to_list values))).

Definition mapEntries (values : gmap string string) (source : string) : list (string * (string * string)) :=
  bfilter (fun e => negb (isAuxiliaryEnvKey (fst e))) (entriesOf ((fun v => (v, source)) <$> values)).

Definition applyMap (c : Config) (values : gmap string string) (source : string) : result CErr Config :=
  applyEntries (mapEntries values source) c.

(** The values of one prefix, over those gathered before. *)
Definition envStep (pre : string) (values : gmap string (string * string)) (item : string) : gmap string (string * string) :=
  match Cut item "=" with
  | None => values
  | Some (key, val) =>
      if negb (HasPrefix key pre) || (slen key <=? slen pre) then values
      else
        let name := ToLower (str_drop (String.length pre) key) in
        if isAuxiliaryEnvKey name then values else <[name := (val, "env:" +:+ key)]> values
  end.

Definition envValues : gmap string (string * string) :=
  fold_left (envStep "PXGO_") (Environ w) (fold_left (envStep "PX_") (Environ w) ∅).

Definition applyEnv (c : Config) : result CErr Config := applyEntries (entriesOf envValues) c.

(** ** The command line *)

Definition hasBareArg (args : list string) (name : string) : bool := existsb (String.eqb ("--" +:+ name)) args.

Fixpoint preScanConfigPath (args : list string) : string :=
  match args with
  | [] => ""
  | arg :: args' =>
      match Cut (TrimPrefix arg "--") "=" with
      | Some (name, val) => if String.eqb name "config" then val else preScanConfigPath args'
      | None => preScanConfigPath args'
      end
  end.

Definition LogScriptDir : Z := 1.
Definition LogUniqLog : Z := 3.
Definition LogStdout : Z := 4.

(** The switches that set one flag. *)
Definition bareFlags : list (string * BoolField) :=
  [("--save", Save); ("--quit", Quit); ("--restart", Restart); ("--doctor", Doctor); ("--foreground", Foreground);
   ("--test-auth", TestAuth); ("--client-nosspi", ClientNoSSPI); ("--client_nosspi", ClientNoSSPI); ("-h", Help);
   ("--help", Help); ("--version", Version); ("--check-update", CheckUpdate); ("--update", DoUpdate);
   ("--install", Install); ("--background", Background); ("--apply-system-proxy", ApplySystemProxy);
   ("--uninstall", Uninstall); ("--force", Force); ("--password", PasswordAction);
   ("--client-password", ClientPasswordAction)].

Definition applyBareArg (c : Config) (arg : string) : option Config :=
  if String.eqb arg "--gateway" then Some (setStr Listen "" (setFlag Gateway true c))
  else if String.eqb arg "--hostonly" then Some (setStr Listen "" (setFlag Hostonly true c))
  else if String.eqb arg "--verbose" then Some (setFlag Foreground true (setInt Log LogStdout c))
  else if String.eqb arg "--debug" then Some (setInt Log LogScriptDir c)
  else if String.eqb arg "--uniqlog" then Some (setInt Log LogUniqLog c)
  else if String.eqb arg "--test" then Some (setStr Test "1" c)
  else match find (fun e => String.eqb arg (fst e)) bareFlags with
       | Some (_, k) => Some (setFlag k true c)
       | None => None
       end.

(** The option an argument sets, when it is not bare. *)
Definition argEntry (arg : string) : option (string * string) :=
  if negb (HasPrefix arg "--") then None
  else
    let '(name, val) := match Cut (TrimPrefix arg "--") "=" with
                        | Some p => p
                        | None => (TrimPrefix arg "--", "1")
                        end in
    Some (ReplaceChar name "-" "_", val).

Definition applyArg (c : Config) (arg : string) : result CErr Config :=
  match applyBareArg c arg with
  | Some c => Ok c
  | None =>
      match argEntry arg with
      | None => Ok c
      | Some (name, val) =>
          match applyValueFrom c name val "cli" with Ok c => Ok c | Err e => Err (EFrom "cli" name e) end
      end
  end.

Definition applyArgs (args : list string) (c : Config) : result CErr Config := foldM applyArg args c.

(** ** Paths *)

Definition getConfigDirStrict : option string :=
  if darwin w then (fun home => pathJoin (pathJoin (pathJoin home "Library") "Application Support") "pxgo") <$> homeDir w
  else
    let xdg := default "" (LookupEnv "XDG_CONFIG_HOME") in
    if negb (String.eqb xdg "") then Some (pathJoin xdg "pxgo")
    else (fun home => pathJoin (pathJoin home ".config") "pxgo") <$> homeDir w.

Definition isThere (path : string) : bool := match stat w path with Exists => true | _ => false end.

Definition configPathStrict (explicit : string) : result CErr string :=
  if negb (String.eqb explicit "") then Ok (normalizePath explicit)
  else match getConfigDirStrict with
       | None => Err EConfigDir
       | Some configDir =>
           match cwd w with
           | None => Err EConfigDir
           | Some d =>
               let candidates := mjoin (map (fun name => [pathJoin d name; pathJoin configDir name; pathJoin (scriptDir w) name])
                                            ["pxgo.ini"; "px.ini"]) in
               Ok (default (pathJoin configDir "pxgo.ini") (find isThere candidates))
           end
       end.

(** ** Passwords *)

Definition Realm : string := "pxgo".
Definition ClientRealm : string := "pxgo-client".

Definition loadStoredPassword (realm : string) (user password : StrField) (c : Config) : result CErr Config :=
  if String.eqb (str c password) "" && negb (String.eqb (str c user) "") then
    match keyringGet w realm (str c user) with
    | None => Err EKeyring
    | Some (Some pwd) => Ok (setStr password pwd c)
    | Some None => Ok c
    end
  else Ok c.

Definition loadStoredPasswords (c : Config) : result CErr Config :=
  c ← loadStoredPassword Realm Username Password c;
  loadStoredPassword ClientRealm ClientUsername ClientPassword c.

(** ** All sources *)

Definition saveWanted (args : list string) (dotenv : gmap string string) (dotenvSource : string) : result CErr bool :=
  isSave ← match dotenv !! "save" with
           | None => Ok false
           | Some raw => match parseBoolValue raw with Some b => Ok b | None => Err (EFrom dotenvSource "save" (EInvalid "save")) end
           end;
  isSave ← match lookupCompatEnv "SAVE" with
           | None => Ok isSave
           | Some (raw, source) => match parseBoolValue raw with Some b => Ok b | None => Err (EFrom source "save" (EInvalid "save")) end
           end;
  Ok (hasBareArg args "save" || isSave).

(** The path asked for, and what asked for it. *)
Definition configSource (args : list string) (dotenv : gmap string string) (dotenvSource : string) : string * string :=
  let cli := preScanConfigPath args in
  if negb (String.eqb cli "") then (cli, "cli")
  else match lookupCompatEnv "CONFIG" with
       | Some (raw, source) => (raw, "env:" +:+ source)
       | None => match dotenv !! "config" with
                 | Some raw => (raw, dotenvSource)
                 | None => ("", "")
                 end
       end.

(** The configuration the other sources are applied to: the file's, or the
    defaults where there is no file. *)
Definition baseConfig (args : list string) (dotenv : gmap string string) (dotenvSource : string) (isSave : bool)
  : result CErr Config :=
  let c := setFlag Save isSave Default in
  let allowMissing := isSave || hasBareArg args "install" in
  let '(configPath, source) := configSource args dotenv dotenvSource in
  let c := if negb (String.eqb configPath "") then markSource "config" source (setStr ConfigPath (normalizePath configPath) c) else c in
  loadPath ← configPathStrict configPath;
  match stat w loadPath with
  | Exists =>
      match ReadINI loadPath with
      | Err e => Err (EConfigFile e)
      | Ok fileCfg =>
          let c := setFlag Save isSave (setStr ConfigPath loadPath fileCfg) in
          Ok (if negb (String.eqb source "") then markSource "config" source c else c)
      end
  | s =>
      if negb (String.eqb configPath "") && negb allowMissing then Err (EConfigFile EOpen)
      else if String.eqb configPath "" && match s with NotExist => false | _ => true end then Err (EConfigFile EOpen)
      else Ok c
  end.

Definition ParseArgs (args : list string) : result CErr Config :=
  '(dotenv, dotenvSource) ← loadDotenv;
  isSave ← saveWanted args dotenv dotenvSource;
  c ← baseConfig args dotenv dotenvSource isSave;
  c ← applyMap c dotenv dotenvSource;
  c ← applyEnv c;
  c ← applyArgs args c;
  c ← loadStoredPasswords c;
  Ok (normalizeDependencies c).



(** ** Lemmas: text *)

Definition trimmed (s : string) : Prop := TrimSpace s = s.

Lemma trim_left_length p s : (String.length (trim_left p s) <= String.length s)%nat.
Proof. induction s as [|c s IH]; [done|]. cbn [trim_left]. case_if; cbn [String.length]; lia. Qed.

Lemma trim_right_length p s : (String.length (trim_right p s) <= String.length s)%nat.
Proof.
  induction s as [|c s IH]; [done|]. cbn [trim_right]. destruct (trim_right p s); [case_if|]; cbn [String.length] in *; lia.
Qed.

Lemma trimmed_inv c s : trimmed (String c s) ->
  is_space c = false /\ trim_right is_space (String c s) = String c s.
Proof.
  unfold trimmed, TrimSpace. cbn [trim_left]. destruct (is_space c) eqn:Ec; [|done]. intros H. exfalso.
  apply (f_equal String.length) in H. pose proof (trim_right_length is_space (trim_left is_space s)).
  pose proof (trim_left_length is_space s). cbn [String.length] in H. lia.
Qed.

Lemma trim_right_app_keep p s t : trim_right p t <> "" -> trim_right p (s +:+ t) = s +:+ trim_right p t.
Proof.
  intros Ht. induction s as [|c s IH]; [done|]. cbn [String.append trim_right]. rewrite IH.
  destruct (s +:+ trim_right p t) eqn:E; [|done]. destruct s; [by destruct (trim_right p t)|done].
Qed.

Lemma trim_right_forall_sub p q s : str_forall q s = true -> str_forall q (trim_right p s) = true.
Proof.
  induction s as [|c s IH]; [done|]. cbn [str_forall trim_right]. intros [Hc Hs]%andb_true_iff. specialize (IH Hs).
  destruct (trim_right p s); [case_if; cbn; by rewrite ?Hc|]. cbn [str_forall] in *. by rewrite Hc, IH.
Qed.

Lemma trim_left_forall_sub p q s : str_forall q s = true -> str_forall q (trim_left p s) = true.
Proof.
  induction s as [|c s IH]; [done|]. cbn [str_forall trim_left]. intros H. case_if; [|exact H].
  apply andb_true_iff in H as [_ H]. by apply IH.
Qed.

Lemma TrimSpace_no_char c s : no_char c s = true -> no_char c (TrimSpace s) = true.
Proof. intros H. unfold no_char, TrimSpace. by apply trim_right_forall_sub, trim_left_forall_sub. Qed.

Lemma trimmed_app a m b : trimmed a -> a <> "" -> trimmed b -> b <> "" -> trimmed (a +:+ m +:+ b).
Proof.
  intros Ha Hae Hb Hbe. destruct a as [|c a]; [done|]. destruct b as [|d b]; [done|].
  apply trimmed_inv in Ha as [Hc _]. apply trimmed_inv in Hb as [_ Hb].
  unfold trimmed, TrimSpace. cbn [String.append]. rewrite trim_left_id by done.
  change (String c (a +:+ m +:+ String d b)) with (String c a +:+ m +:+ String d b).
  rewrite app_assoc_str, trim_right_app_keep; by rewrite Hb.
Qed.

Lemma trimmed_nospace s : no_space s = true -> trimmed s.
Proof. apply TrimSpace_no_space. Qed.

(** *** Lines *)

Lemma Split_unlines l ls : no_char LF l = true -> Split (l +:+ String LF ls) LF = l :: Split ls LF.
Proof. apply Split_app. Qed.

Lemma raw_lines_unlines ls : Forall (fun l => no_char LF l = true) ls -> raw_lines (Split (unlines ls) LF) = ls.
Proof.
  intros H. induction H as [|l ls Hl _ IH]; [done|]. cbn [unlines fold_right]. rewrite Split_unlines by done.
  change (fold_right _ "" ls) with (unlines ls). cbn [raw_lines].
  destruct (Split (unlines ls) LF) eqn:E; [by destruct (Split_nonnil (unlines ls) LF)|]. rewrite IH.
  by destruct l.
Qed.

Lemma dropCR_clean l : no_char CR l = true -> dropCR l = l.
Proof.
  intros H. unfold dropCR, TrimSuffix. destruct (HasSuffix l (String CR "")) eqn:E; [|done]. exfalso.
  apply has_suffix_inv in E. rewrite E in H. unfold no_char in H. rewrite str_forall_app in H.
  apply andb_true_iff in H as [_ H]. by vm_compute in H.
Qed.

(** A line that is read back as it was written. *)
Definition cleanLine (max : Z) (l : string) : Prop := no_char LF l = true /\ no_char CR l = true /\ slen l < max.

Lemma scanLines_unlines max ls : Forall (cleanLine max) ls -> scanLines max (unlines ls) = (ls, false).
Proof.
  intros H. unfold scanLines. rewrite raw_lines_unlines by (eapply Forall_impl; [exact H|]; by intros ? []).
  induction H as [|l ls (_ & Hc & Hl) _ IH]; [done|]. cbn [scan_pieces]. replace (max <=? slen l) with false by lia.
  by rewrite IH, dropCR_clean.
Qed.

Lemma line_break_class c :
  negb (in_chars (String CR (String LF "")) c) = negb (Ascii.eqb c LF) && negb (Ascii.eqb c CR).
Proof.
  apply eqb_prop. revert c. apply (ascii_forall (fun c => Bool.eqb (negb (in_chars (String CR (String LF "")) c))
    (negb (Ascii.eqb c LF) && negb (Ascii.eqb c CR)))). by vm_compute.
Qed.

Lemma hasLineBreak_false s : hasLineBreak s = false <-> no_char LF s = true /\ no_char CR s = true.
Proof.
  unfold hasLineBreak, ContainsAny, str_exists, no_char. rewrite negb_false_iff.
  induction s as [|c s IH]; [done|]. cbn [str_forall]. rewrite line_break_class, !andb_true_iff, IH. naive_solver.
Qed.

(** *** Settings *)

(** The keys the writer uses. *)
Definition keyOk (k : string) : bool :=
  match k with
  | "" => false
  | String c _ => negb (in_chars "#;[" c)
  end && no_space k && no_char "=" k.

Lemma no_space_trim_right s : no_space s = true -> trim_right is_space s = s.
Proof. apply trim_right_forall. Qed.

Lemma trim_left_head k x : k <> "" -> no_space k = true -> trim_left is_space (k +:+ x) = k +:+ x.
Proof. destruct k as [|c k]; [done|]. intros _ H. apply trim_left_id. cbn in H. to_prop. done. Qed.

Lemma trim_iniSet k v : k <> "" -> no_space k = true -> trimmed v ->
  TrimSpace (iniSet k v) = k +:+ " =" +:+ (if String.eqb v "" then "" else " " +:+ v).
Proof.
  unfold iniSet. intros Hk Hs Hv. unfold TrimSpace. rewrite trim_left_head by done.
  destruct (String.eqb_spec v "") as [->|Hne].
  - replace (k +:+ " = " +:+ "") with ((k +:+ " =") +:+ " ") by (by rewrite <- app_assoc_str).
    rewrite trim_right_app by done. by apply trim_right_app_keep.
  - destruct v as [|d v]; [done|]. apply trimmed_inv in Hv as [_ Hv].
    rewrite app_assoc_str, trim_right_app_keep by (by rewrite Hv). rewrite Hv. by rewrite <- app_assoc_str.
Qed.

Lemma TrimSpace_lead v : trimmed v -> TrimSpace (" " +:+ v) = v.
Proof. intros Hv. exact Hv. Qed.

Lemma TrimSpace_trail k : no_space k = true -> TrimSpace (k +:+ " ") = k.
Proof.
  intros H. destruct (String.eqb_spec k "") as [->|]; [done|]. unfold TrimSpace.
  rewrite trim_left_head, trim_right_app by done. by apply no_space_trim_right.
Qed.

Lemma iniLine_set k v : keyOk k = true -> trimmed v -> iniLine (iniSet k v) = IniSet k v.
Proof.
  intros Hk Hv. unfold iniLine. unfold keyOk in Hk. destruct k as [|c k]; [done|]. to_prop.
  rewrite trim_iniSet by done.
  assert (Ascii.eqb c "#" = false /\ Ascii.eqb c ";" = false /\ Ascii.eqb c "[" = false) as (E1 & E2 & E3).
  { repeat split; apply Ascii.eqb_neq; intros ->; by vm_compute in H. }
  assert (forall d t, Ascii.eqb c d = false -> HasPrefix (String c t) (String d "") = false) as Hp.
  { intros d t Hd%Ascii.eqb_neq. unfold HasPrefix. cbn. by destruct (ascii_dec d c). }
  set (r := if String.eqb v "" then "" else " " +:+ v). cbv zeta.
  match goal with |- (if ?b then _ else _) = _ => assert (b = false) as -> end.
  { cbn [String.append String.eqb]. by rewrite !Hp. }
  replace (String c k +:+ " =" +:+ r) with ((String c k +:+ " ") +:+ String "=" r) by (by rewrite <- app_assoc_str).
  rewrite Cut_app.
  - rewrite TrimSpace_trail by done. f_equal. subst r. destruct (String.eqb_spec v "") as [->|]; [done|by apply TrimSpace_lead].
  - unfold no_char. rewrite str_forall_app. unfold no_char in *. by rewrite H0.
Qed.

Lemma readLines_skip path n l ls c : iniLine l = IniSkip -> readLines path n (l :: ls) c = readLines path (n + 1) ls c.
Proof. intros H. cbn [readLines]. by rewrite H. Qed.

Lemma readLines_set path n k v ls c c' : keyOk k = true -> trimmed v -> applyValueFrom c k v ("ini:" +:+ path) = Ok c' ->
  readLines path n (iniSet k v :: ls) c = readLines path (n + 1) ls c'.
Proof. intros Hk Hv H. cbn [readLines]. by rewrite iniLine_set, H. Qed.

Lemma readLines_app path n ls ls' c c' :
  readLines path n ls c = Ok c' -> readLines path n (ls ++ ls') c = readLines path (n + zlen ls) ls' c'.
Proof.
  revert n c. induction ls as [|l ls IH]; intros n c; cbn [readLines app].
  - intros [= ->]. by rewrite Z.add_0_r.
  - rewrite zlen_cons, Z.add_assoc. destruct (iniLine l); [apply IH| |done]. destruct (applyValueFrom _ _ _ _); [apply IH|done].
Qed.

(** ** Lemmas: applying a value *)

Section Apply.
Context (c : Config) (v src : string).
Local Abbreviation from key := (applyValueFrom c key v src).

Lemma apply_str key k :
  (key, k) ∈ [("server", Server); ("pac_encoding", PACEncoding); ("listen", Listen); ("allow", Allow); ("noproxy", NoProxy);
              ("useragent", UserAgent); ("username", Username); ("client_username", ClientUsername)] ->
  from key = Ok (markSource key src (setStr k v c)).
Proof. rewrite !elem_of_cons, elem_of_nil. intros H. by repeat destruct H as [[= -> ->]|H]. Qed.

Lemma apply_upper key k : (key, k) ∈ [("auth", Auth); ("client_auth", ClientAuth)] ->
  from key = Ok (markSource key src (setStr k (ToUpper v) c)).
Proof. rewrite !elem_of_cons, elem_of_nil. intros H. by repeat destruct H as [[= -> ->]|H]. Qed.

Lemma apply_int key k x :
  (key, k) ∈ [("port", Port); ("workers", Workers); ("threads", Threads); ("idle", Idle); ("proxyreload", ProxyReload); ("log", Log)] ->
  Atoi v = Ok x -> from key = Ok (markSource key src (setInt k x c)).
Proof.
  rewrite !elem_of_cons, elem_of_nil. intros H E.
  assert (from key = (c ← (x ← parseIntValue key v; Ok (setInt k x c)); Ok (markSource key src c))) as ->
    by (by repeat destruct H as [[= -> ->]|H]).
  unfold parseIntValue. by rewrite E.
Qed.

Lemma apply_flag key k b :
  (key, k) ∈ [("kerberos", Kerberos); ("client_nosspi", ClientNoSSPI); ("foreground", Foreground)] ->
  parseBoolValue v = Some b -> from key = Ok (markSource key src (setFlag k b c)).
Proof.
  rewrite !elem_of_cons, elem_of_nil. intros H E.
  assert (from key = (c ← (b ← boolValue key v; Ok (setFlag k b c)); Ok (markSource key src c))) as ->
    by (by repeat destruct H as [[= -> ->]|H]).
  unfold boolValue. by rewrite E.
Qed.

Lemma apply_mode key k b :
  (key, k) ∈ [("gateway", Gateway); ("hostonly", Hostonly)] -> parseBoolValue v = Some b ->
  from key = Ok (markSource key src (if b then setStr Listen "" (setFlag k b c) else setFlag k b c)).
Proof.
  rewrite !elem_of_cons, elem_of_nil. intros H E.
  assert (from key = (c ← (b ← boolValue key v; Ok (if (b : bool) then setStr Listen "" (setFlag k b c) else setFlag k b c));
                      Ok (markSource key src c))) as -> by (by repeat destruct H as [[= -> ->]|H]).
  unfold boolValue. by rewrite E.
Qed.

Lemma apply_update key k parse x :
  (key, k, parse) ∈ [("auto_update", AutoUpdate, Update.Upd.ParseAutoMode); ("update_channel", UpdateChannel, Update.Upd.ParseChannel);
                     ("install_provider", InstallProvider, Update.Upd.ParseProvider)] ->
  parse v = Ok x -> from key = Ok (markSource key src (setStr k x c)).
Proof.
  rewrite !elem_of_cons, elem_of_nil. intros H E.
  assert (from key = (c ← (x ← updateMode (parse v); Ok (setStr k x c)); Ok (markSource key src c))) as ->
    by (by repeat destruct H as [[= -> -> ->]|H]).
  by rewrite E.
Qed.

Lemma apply_pac p : normalizePACLocation v = Ok p -> from "pac" = Ok (markSource "pac" src (setStr PAC p c)).
Proof.
  intros E. change (from "pac") with (c ← (p ← normalizePACLocation v; Ok (setStr PAC p c)); Ok (markSource "pac" src c)).
  by rewrite E.
Qed.

Lemma apply_timeout f : ParseFloat v = Some f -> from "socktimeout" = Ok (markSource "socktimeout" src (setSockTimeout f c)).
Proof.
  intros E. change (from "socktimeout") with
    (c ← (match ParseFloat v with Some f => Ok (setSockTimeout f c) | None => Err (EInvalid "socktimeout") end);
     Ok (markSource "socktimeout" src c)). by rewrite E.
Qed.

Lemma apply_interval d : ParseDuration (TrimSpace v) = Some d -> 0 < d ->
  from "update_interval" = Ok (markSource "update_interval" src (setUpdateInterval d c)).
Proof.
  intros E Hd. change (from "update_interval") with
    (c ← (match ParseDuration (TrimSpace v) with
          | Some interval => if interval <=? 0 then Err (EInvalid "update_interval") else Ok (setUpdateInterval interval c)
          | None => Err (EInvalid "update_interval")
          end); Ok (markSource "update_interval" src c)). rewrite E. by replace (d <=? 0) with false by lia.
Qed.

Lemma apply_dns key : key ∈ ["dns"; "dns_only"; "dns_bypass"] ->
  from key = (c ← applyDNSPolicyValue c key v src; Ok (markSource key src c)).
Proof. rewrite !elem_of_cons, elem_of_nil. intros H. by repeat destruct H as [->|H]. Qed.
End Apply.

(** ** Lemmas: DNS rules *)

Definition newOk (raw : string) : bool := is_ok (Resolver.Rv.New raw Second).
Definition patternsOk (ps : list string) : bool := is_ok (Resolver.Rv.normalizeRulePatterns ps).

Lemma dnsCheck_ok r o b : dnsCheck (mkRawRule r o b) = Ok tt <-> newOk r = true /\ patternsOk o = true /\ patternsOk b = true.
Proof.
  unfold dnsCheck, newOk, patternsOk.
  assert (is_ok (Resolver.Rv.NewRules [mkRawRule r o b] Second) =
          is_ok (Resolver.Rv.New r Second) && (is_ok (Resolver.Rv.normalizeRulePatterns o) && is_ok (Resolver.Rv.normalizeRulePatterns b))) as H.
  { assert (is_ok (rules ← Resolver.Rv.buildRules [mkRawRule r o b] Second;
                   Ok (E := Resolver.Rv.CfgErr) (Resolver.Rv.mkPolicy false [] rules (Resolver.Rv.normalizedTimeout Second) "")) =
            is_ok (Resolver.Rv.New r Second) && (is_ok (Resolver.Rv.normalizeRulePatterns o) && is_ok (Resolver.Rv.normalizeRulePatterns b))) as H.
    { cbn [Resolver.Rv.buildRules Resolver.Rv.Resolver Resolver.Rv.Only Resolver.Rv.Bypass].
      destruct (Resolver.Rv.New r Second); [|done]. cbn [mbind result_bind].
      destruct (Resolver.Rv.normalizeRulePatterns o); [|done]. cbn [mbind result_bind].
      by destruct (Resolver.Rv.normalizeRulePatterns b). }
    destruct o as [|x o]; [destruct b as [|y b]|]; [|exact H|exact H].
    cbn [Resolver.Rv.NewRules]. by destruct (Resolver.Rv.New r Second). }
  rewrite <- !andb_true_iff, <- H. by destruct (Resolver.Rv.NewRules _ _).
Qed.

(** Patterns as [splitDNSPatterns] gives them. *)
Definition cleanPattern (p : string) : Prop := trimmed p /\ p <> "" /\ no_char "," p = true.

Lemma trimmed_join ps : Forall cleanPattern ps -> trimmed (Join ps ",").
Proof.
  assert (Forall cleanPattern ps -> ps <> [] -> trimmed (Join ps ",") /\ Join ps "," <> "") as Hs.
  { intros H. induction H as [|p ps (Ht & Hn & _) Hps IH]; [done|]. intros _. destruct ps as [|q ps]; [done|].
    rewrite Join_cons by done. destruct (IH ltac:(done)) as [I1 I2]. split; [by apply trimmed_app|by destruct p]. }
  intros H. destruct ps; [done|]. by apply Hs.
Qed.

Lemma split_join_patterns ps : ps <> [] -> Forall cleanPattern ps -> splitDNSPatterns (Join ps ",") = ps.
Proof.
  intros Hne H. unfold splitDNSPatterns. rewrite Split_Join; [|done|eapply Forall_impl; [exact H|]; by intros p (_ & _ & ?)].
  clear Hne. induction H as [|p ps (Ht & Hn & _) _ IH]; [done|]. cbn [map List.filter]. rewrite Ht.
  apply String.eqb_neq in Hn. rewrite Hn. cbn [negb]. by rewrite IH.
Qed.

Lemma split_patterns_clean raw : Forall cleanPattern (splitDNSPatterns raw).
Proof.
  apply Forall_forall. intros p [Hp (s & -> & Hs)%list_elem_of_fmap]%elem_of_bfilter.
  apply Split_elem_no_char in Hs. to_prop. repeat split; [by apply TrimSpace_idem|done|by apply TrimSpace_no_char].
Qed.

Local Ltac in_list := solve [repeat constructor | vm_compute; repeat constructor].

Local Ltac not_in_list H := exfalso; apply (bool_decide_pack _) in H; by vm_compute in H.

(** A rule as the configuration holds it. *)
Record ruleOk (r : Rule) : Prop := mkRuleOk {
  ro_trim : trimmed (Resolver.Rv.Resolver r); ro_ne : Resolver.Rv.Resolver r <> ""; ro_new : newOk (Resolver.Rv.Resolver r) = true;
  ro_only : Forall cleanPattern (Resolver.Rv.Only r); ro_bypass : Forall cleanPattern (Resolver.Rv.Bypass r);
  ro_only' : patternsOk (Resolver.Rv.Only r) = true; ro_bypass' : patternsOk (Resolver.Rv.Bypass r) = true }.

(** [c'] is [c] with other DNS settings, whatever the sources. *)
Record dnsChanged (dns : string) (rules : list Rule) (c c' : Config) : Prop := mkDnsChanged {
  dc_str : forall k, str c' k = if decide (k = DNS) then dns else str c k;
  dc_int : int c' = int c; dc_flag : flag c' = flag c; dc_timeout : SockTimeout c' = SockTimeout c;
  dc_interval : UpdateInterval c' = UpdateInterval c; dc_rules : DNSRules c' = rules }.

Lemma dnsChanged_trans d d' r r' c c1 c2 : dnsChanged d r c c1 -> dnsChanged d' r' c1 c2 -> dnsChanged d' r' c c2.
Proof.
  intros [A1 A2 A3 A4 A5 A6] [B1 B2 B3 B4 B5 B6]. split; try congruence.
  intros k. rewrite B1, A1. by destruct (decide (k = DNS)).
Qed.

Lemma last_rule_add c key v src l r r' :
  DNSRules c = l ++ [r] ->
  r' = (if String.eqb key "dns_only"
        then mkRawRule (Resolver.Rv.Resolver r) (Resolver.Rv.Only r ++ splitDNSPatterns v) (Resolver.Rv.Bypass r)
        else mkRawRule (Resolver.Rv.Resolver r) (Resolver.Rv.Only r) (Resolver.Rv.Bypass r ++ splitDNSPatterns v)) ->
  key ∈ ["dns_only"; "dns_bypass"] -> dnsCheck r' = Ok tt ->
  applyValueFrom c key v src = Ok (markSource key src (setDNSRules (l ++ [r']) c)).
Proof.
  intros Hc Hr Hk Hd. rewrite apply_dns by set_solver.
  assert (applyDNSPolicyValue c key v src = Ok (setDNSRules (l ++ [r']) c)) as ->; [|done].
  unfold applyDNSPolicyValue. rewrite Hc, last_snoc.
  assert (String.eqb key "dns" = false /\ (String.eqb key "dns_only" || String.eqb key "dns_bypass") = true) as [-> ->].
  { rewrite !elem_of_cons, elem_of_nil in Hk. by destruct Hk as [->|[->|[]]]. }
  cbv zeta. rewrite <- Hr, Hd. cbn [mbind result_bind]. rewrite length_app. cbn [length].
  by rewrite Nat.add_sub, take_app_length.
Qed.

Definition ruleLines (r : Rule) : list string :=
  [iniSet "dns" (Resolver.Rv.Resolver r)] ++
  (if 0 <? zlen (Resolver.Rv.Only r) then [iniSet "dns_only" (Join (Resolver.Rv.Only r) ",")] else []) ++
  (if 0 <? zlen (Resolver.Rv.Bypass r) then [iniSet "dns_bypass" (Join (Resolver.Rv.Bypass r) ",")] else []).

(** The lines of one kind of pattern, when the rule has none of the other kind
    after it. *)
Lemma read_patterns path n key ps c l r r' :
  key ∈ ["dns_only"; "dns_bypass"] -> keyOk key = true -> Forall cleanPattern ps -> DNSRules c = l ++ [r] ->
  r' = (if String.eqb key "dns_only"
        then mkRawRule (Resolver.Rv.Resolver r) (Resolver.Rv.Only r ++ ps) (Resolver.Rv.Bypass r)
        else mkRawRule (Resolver.Rv.Resolver r) (Resolver.Rv.Only r) (Resolver.Rv.Bypass r ++ ps)) ->
  dnsCheck r' = Ok tt ->
  exists c', readLines path n (if 0 <? zlen ps then [iniSet key (Join ps ",")] else []) c = Ok c' /\
    dnsChanged (str c DNS) (l ++ [r']) c c'.
Proof.
  intros Hk Hok Hps Hc Hr Hd. destruct ps as [|p ps0] eqn:Ep.
  - exists c. split; [done|]. split; try done; [intros k; by destruct (decide (k = DNS)) as [->|]|].
    rewrite Hc, Hr, !app_nil_r. destruct r. by destruct (String.eqb key "dns_only").
  - rewrite <- Ep in *. replace (0 <? zlen ps) with true by (subst ps; rewrite zlen_cons; pose proof (zlen_nonneg ps0); lia).
    erewrite readLines_set; [|done|by apply trimmed_join|eapply last_rule_add; [exact Hc|reflexivity|done|]].
    + cbn [readLines]. eexists. split; [reflexivity|]. rewrite split_join_patterns by (by subst ps). rewrite <- Hr.
      split; try done. intros k. by destruct (decide (k = DNS)) as [->|].
    + rewrite split_join_patterns by (by subst ps). by rewrite <- Hr.
Qed.

Lemma read_rule path n r c : ruleOk r ->
  exists c', readLines path n (ruleLines r) c = Ok c' /\ dnsChanged (Resolver.Rv.Resolver r) (DNSRules c ++ [r]) c c'.
Proof.
  destruct r as [res on by_]. intros [H1 H2 H3 H4 H5 H6 H7]. unfold ruleLines. cbn [Resolver.Rv.Resolver Resolver.Rv.Only Resolver.Rv.Bypass] in *.
  set (c1 := markSource "dns" ("ini:" +:+ path) (setDNSRules (DNSRules c ++ [mkRawRule res [] []]) (setStr DNS res c))).
  assert (readLines path n [iniSet "dns" res] c = Ok c1) as E1.
  { erewrite readLines_set; [|done|done|]; [reflexivity|]. rewrite apply_dns by set_solver.
    unfold applyDNSPolicyValue. cbn [String.eqb Ascii.eqb Bool.eqb]. rewrite H1.
    unfold newOk in H3. destruct (Resolver.Rv.New res Second); [|done]. apply String.eqb_neq in H2. rewrite H2.
    by rewrite has_prefix_app. }
  destruct (read_patterns path (n + 1) "dns_only" on c1 (DNSRules c) (mkRawRule res [] []) (mkRawRule res on [])) as (c2 & E2 & D2);
    [set_solver|done|done|done|done|by apply dnsCheck_ok|].
  destruct (read_patterns path (n + 1 + zlen (if 0 <? zlen on then [iniSet "dns_only" (Join on ",")] else [])) "dns_bypass" by_ c2
    (DNSRules c) (mkRawRule res on []) (mkRawRule res on by_)) as (c3 & E3 & D3);
    [set_solver|done|done|by destruct D2|done|by apply dnsCheck_ok|].
  exists c3. split.
  - rewrite (readLines_app _ _ _ _ _ _ E1). change (zlen [_]) with 1. by rewrite (readLines_app _ _ _ _ _ _ E2).
  - assert (dnsChanged res (DNSRules c1) c c1) as D1 by (split; try done; intros k; cbn; unfold upd; by destruct (decide (k = DNS))).
    assert (str c2 DNS = res) as Es by (by rewrite (dc_str _ _ _ _ D2)). rewrite Es in D3.
    exact (dnsChanged_trans _ _ _ _ _ _ _ D1 (dnsChanged_trans _ _ _ _ _ _ _ D2 D3)).
Qed.

Lemma read_rules path n rs c : Forall ruleOk rs ->
  exists c', readLines path n (mjoin (map ruleLines rs)) c = Ok c' /\
    dnsChanged (match last rs with Some r => Resolver.Rv.Resolver r | None => str c DNS end) (DNSRules c ++ rs) c c'.
Proof.
  intros H. revert n c. induction H as [|r rs Hr _ IH]; intros n c.
  { exists c. split; [done|]. split; try done; [|by rewrite app_nil_r]. intros k. by destruct (decide (k = DNS)) as [->|]. }
  cbn [map mjoin list_join]. destruct (read_rule path n r c Hr) as (c1 & E1 & D1).
  destruct (IH (n + zlen (ruleLines r)) c1) as (c2 & E2 & D2). exists c2. split; [by rewrite (readLines_app _ _ _ _ _ _ E1)|].
  rewrite (dc_rules _ _ _ _ D1), <- app_assoc in D2. cbn [app] in D2. rewrite last_cons.
  rewrite (dc_str _ _ _ _ D1) in D2. cbn [decide] in D2.
  refine (dnsChanged_trans _ _ _ _ _ _ _ D1 _). destruct (last rs); exact D2.
Qed.

(** The block of DNS lines, after the defaults' empty rules. *)
Definition dnsOk (c : Config) : Prop :=
  match last (DNSRules c) with
  | None => str c DNS = ""
  | Some r => Forall ruleOk (DNSRules c) /\ str c DNS = Resolver.Rv.Resolver r
  end.

Lemma read_dns path n c c0 : dnsOk c -> DNSRules c0 = [] ->
  exists c', readLines path n (dnsINIBlock c) c0 = Ok c' /\ dnsChanged (str c DNS) (DNSRules c) c0 c'.
Proof.
  unfold dnsOk, dnsINIBlock. intros H H0. destruct (DNSRules c) as [|r rs] eqn:E.
  - cbn [last] in H. rewrite H.
    exists (markSource "dns" ("ini:" +:+ path) (setDNSRules [] (setStr DNS "" c0))). split.
    { by erewrite readLines_set; [reflexivity|done|done|rewrite apply_dns by set_solver]. }
    by split.
  - rewrite <- E in *. destruct (last (DNSRules c)) as [r'|] eqn:El; [|by rewrite E, last_cons in El; destruct (last rs)].
    destruct H as [Hf Hd]. destruct (read_rules path n (DNSRules c) c0 Hf) as (c' & E1 & D).
    rewrite H0, El, <- Hd in D. exists c'. split; [|exact D]. rewrite E in *. exact E1.
Qed.

(** ** The round trip *)

Lemma Atoi_Itoa_int n : min_int64 <= n <= max_int64 -> Atoi (Itoa n) = Ok n.
Proof.
  intros Hn. destruct (Z.leb_spec 0 n); [apply Atoi_Itoa; lia|].
  unfold Itoa. replace (n <? 0) with true by lia. unfold FormatUint.
  assert (digits_val 0 (format_fuel 20 (- n) "") = Some (- n)) as Hv.
  { rewrite format_fuel_val; [done| |lia]. unfold min_int64 in Hn. change (10 ^ Z.of_nat 20) with 100000000000000000000. lia. }
  pose proof (FormatUint_nonempty (- n)) as Hne. unfold FormatUint in Hne.
  cbn [String.append]. unfold Atoi. cbn [Ascii.eqb Bool.eqb]. destruct (format_fuel 20 (- n) "") as [|c t]; [done|].
  rewrite Hv. cbv zeta. replace (- - n) with n by lia.
  by replace ((min_int64 <=? n) && (n <=? max_int64)) with true by lia.
Qed.

Lemma Itoa_no_space n : no_space (Itoa n) = true.
Proof. unfold Itoa. case_if; [|apply FormatUint_no_space]. cbn. apply FormatUint_no_space. Qed.

Lemma parseBool_btoi b : parseBoolValue (Itoa (btoi b)) = Some b.
Proof. by destruct b. Qed.

(** A text without a line break. *)
Definition oneLine (s : string) : Prop := no_char LF s = true /\ no_char CR s = true.

Lemma oneLine_no_space s : no_space s = true -> oneLine s.
Proof. intros H. split; revert H; apply class_impl; by vm_compute. Qed.

Lemma oneLine_app a b : oneLine a -> oneLine b -> oneLine (a +:+ b).
Proof. unfold oneLine, no_char. rewrite !str_forall_app, !andb_true_iff. naive_solver. Qed.

Lemma oneLine_set k v : oneLine k -> oneLine v -> oneLine (iniSet k v).
Proof. intros Hk Hv. apply oneLine_app; [done|]. by apply oneLine_app. Qed.

Lemma oneLine_join ps : Forall oneLine ps -> oneLine (Join ps ",").
Proof.
  intros H. induction H as [|p ps Hp _ IH]; [done|]. destruct ps; [done|]. rewrite Join_cons by done.
  apply oneLine_app; [done|]. by apply oneLine_app.
Qed.

Definition persisted : list StrField := map snd iniStrings.

(** What a configuration needs to be saved without loss, beyond what [SaveINI]
    checks itself. *)
Record saveable (c : Config) : Prop := mkSaveable {
  sv_trim : forall k, k ∈ persisted -> trimmed (str c k);
  sv_lines : Forall (fun l => slen l < maxConfigLineBytes) (iniLines c);
  sv_int : forall k, min_int64 <= int c k <= max_int64;
  sv_pac : normalizePACLocation (str c PAC) = Ok (str c PAC);
  sv_auth : ToUpper (str c Auth) = str c Auth; sv_client_auth : ToUpper (str c ClientAuth) = str c ClientAuth;
  sv_auto : Update.Upd.ParseAutoMode (str c AutoUpdate) = Ok (str c AutoUpdate);
  sv_channel : Update.Upd.ParseChannel (str c UpdateChannel) = Ok (str c UpdateChannel);
  sv_provider : Update.Upd.ParseProvider (str c InstallProvider) = Ok (str c InstallProvider);
  sv_timeout : ParseFloat (formatG (SockTimeout c)) = Some (SockTimeout c);
  sv_timeout_text : no_space (formatG (SockTimeout c)) = true;
  sv_interval : ParseDuration (durationString (UpdateInterval c)) = Some (UpdateInterval c);
  sv_interval_text : no_space (durationString (UpdateInterval c)) = true;
  sv_positive : 0 < UpdateInterval c;
  sv_listen : flag c Gateway = true \/ flag c Hostonly = true -> str c Listen = "";
  sv_allow : flag c Hostonly = true -> flag c Gateway = false -> str c Allow = "";
  sv_dns : dnsOk c }.

Lemma validate_oneLine c : validateINIStrings c = None ->
  (forall k, k ∈ persisted -> oneLine (str c k)) /\
  Forall (fun r => oneLine (Resolver.Rv.Resolver r) /\ Forall oneLine (Resolver.Rv.Only r) /\ Forall oneLine (Resolver.Rv.Bypass r)) (DNSRules c).
Proof.
  unfold validateINIStrings. destruct (find _ iniStrings) as [[nm fd]|] eqn:Ef; [done|].
  destruct (existsb _ _) eqn:Ee; [done|]. intros _. split.
  - intros k ((nm & k') & -> & Hin)%list_elem_of_fmap. apply hasLineBreak_false.
    apply (find_none _ _ Ef (nm, k')). by apply list_elem_of_In.
  - apply Forall_forall. intros r Hr.
    assert (existsb hasLineBreak (Resolver.Rv.Resolver r :: Resolver.Rv.Only r ++ Resolver.Rv.Bypass r) = false) as Hf.
    { apply not_true_iff_false. intros Ht. apply not_true_iff_false in Ee. apply Ee, existsb_exists. exists r.
      split; [by apply list_elem_of_In|done]. }
    assert (forall s, s ∈ Resolver.Rv.Resolver r :: Resolver.Rv.Only r ++ Resolver.Rv.Bypass r -> oneLine s) as Hs.
    { intros s Hin. apply hasLineBreak_false. apply not_true_iff_false. intros Ht. apply not_true_iff_false in Hf.
      apply Hf, existsb_exists. exists s. split; [by apply list_elem_of_In|done]. }
    split; [apply Hs; set_solver|]. split; apply Forall_forall; intros s Hin; apply Hs; set_solver.
Qed.

Lemma dns_oneLine c : validateINIStrings c = None -> Forall oneLine (dnsINIBlock c).
Proof.
  intros [Hs Hr]%validate_oneLine. unfold dnsINIBlock. destruct (DNSRules c) as [|r0 rs0] eqn:E.
  - constructor; [|done]. apply oneLine_set; [done|]. apply Hs. in_list.
  - rewrite <- E in *. clear E. induction Hr as [|r rs (H1 & H2 & H3) _ IH]; [constructor|].
    cbn [map mjoin list_join]. apply Forall_app. split; [|exact IH].
    constructor; [by apply oneLine_set|]. apply Forall_app. split; case_if; try done.
    + constructor; [|done]. apply oneLine_set; [done|by apply oneLine_join].
    + constructor; [|done]. apply oneLine_set; [done|by apply oneLine_join].
Qed.

Lemma lines_oneLine c : saveable c -> validateINIStrings c = None -> Forall oneLine (iniLines c).
Proof.
  intros Hsv Hv. destruct (validate_oneLine c Hv) as [Hs _]. unfold iniLines.
  assert (forall k, oneLine (Itoa k)) as Hi by (intros k; apply oneLine_no_space, Itoa_no_space).
  pose proof (oneLine_no_space _ (sv_timeout_text _ Hsv)) as Hf. pose proof (oneLine_no_space _ (sv_interval_text _ Hsv)) as Hd.
  assert (oneLine (if flag c Gateway || flag c Hostonly then "" else str c Listen)) as Hl
    by (case_if; [done|apply Hs; in_list]).
  rewrite !Forall_app. split; [|split; [by apply dns_oneLine|]];
    repeat (apply Forall_cons; split;
      [first [done|apply oneLine_set; [done|]; first [apply Hi|exact Hf|exact Hd|exact Hl|apply Hs; in_list]]|]);
    constructor.
Qed.

(** The settings of the file that [c'] has from [c]. *)
Record sameSettings (c c' : Config) : Prop := mkSame {
  ss_str : forall k, k ∈ persisted -> str c' k = str c k;
  ss_int : forall k, int c' k = int c k;
  ss_flag : forall k, k ∈ [Gateway; Hostonly; Kerberos; ClientNoSSPI; Foreground] -> flag c' k = flag c k;
  ss_timeout : SockTimeout c' = SockTimeout c; ss_interval : UpdateInterval c' = UpdateInterval c;
  ss_rules : DNSRules c' = DNSRules c }.

Ltac ini_set lem := erewrite readLines_set; [|reflexivity| |lem]; [|by eauto using trimmed_nospace, Itoa_no_space].
Ltac ini_skip := rewrite readLines_skip by reflexivity.

(** The lines before and after the DNS block. *)
Definition iniHead (c : Config) : list string :=
  ["[proxy]"; iniSet "server" (str c Server); iniSet "pac" (str c PAC); iniSet "pac_encoding" (str c PACEncoding);
   iniSet "port" (Itoa (int c Port)); iniSet "listen" (str c Listen); iniSet "gateway" (Itoa (btoi (flag c Gateway)));
   iniSet "hostonly" (Itoa (btoi (flag c Hostonly))); iniSet "allow" (str c Allow); iniSet "noproxy" (str c NoProxy)].
Definition iniTail (c : Config) : list string :=
  [iniSet "useragent" (str c UserAgent); iniSet "username" (str c Username); iniSet "auth" (str c Auth);
   iniSet "kerberos" (Itoa (btoi (flag c Kerberos))); ""; "[client]"; iniSet "client_auth" (str c ClientAuth);
   iniSet "client_username" (str c ClientUsername); iniSet "client_nosspi" (Itoa (btoi (flag c ClientNoSSPI))); ""; "[settings]";
   iniSet "workers" (Itoa (int c Workers)); iniSet "threads" (Itoa (int c Threads)); iniSet "idle" (Itoa (int c Idle));
   iniSet "socktimeout" (formatG (SockTimeout c)); iniSet "proxyreload" (Itoa (int c ProxyReload));
   iniSet "foreground" (Itoa (btoi (flag c Foreground))); iniSet "log" (Itoa (int c Log)); iniSet "auto_update" (str c AutoUpdate);
   iniSet "update_interval" (durationString (UpdateInterval c)); iniSet "update_channel" (str c UpdateChannel);
   iniSet "install_provider" (str c InstallProvider)].

Lemma iniLines_split c : saveable c -> iniLines c = iniHead c ++ dnsINIBlock c ++ iniTail c.
Proof.
  intros Hsv. unfold iniLines, iniHead. pose proof (sv_listen _ Hsv).
  replace (if flag c Gateway || flag c Hostonly then "" else str c Listen) with (str c Listen); [done|].
  destruct (flag c Gateway), (flag c Hostonly); naive_solver.
Qed.

Ltac str_cases := intros k; rewrite !elem_of_cons, elem_of_nil; intros Hk; repeat destruct Hk as [->|Hk]; try done.

Lemma read_head path c : saveable c ->
  exists c1, readLines path 1 (iniHead c) Default = Ok c1 /\ DNSRules c1 = [] /\ int c1 Port = int c Port /\
    (forall k, k ∈ [Server; PAC; PACEncoding; Listen; Allow; NoProxy] -> str c1 k = str c k) /\
    flag c1 Gateway = flag c Gateway /\ flag c1 Hostonly = flag c Hostonly.
Proof.
  intros Hsv. pose proof (sv_trim _ Hsv) as Ht. unfold iniHead.
  assert (trimmed (str c Server) /\ trimmed (str c PAC) /\ trimmed (str c PACEncoding) /\ trimmed (str c Listen) /\
          trimmed (str c Allow) /\ trimmed (str c NoProxy)) as (T1 & T2 & T3 & T4 & T5 & T6)
    by (repeat split; apply Ht; in_list).
  ini_skip. ini_set ltac:(eapply apply_str; in_list). ini_set ltac:(eapply apply_pac; exact (sv_pac _ Hsv)).
  ini_set ltac:(eapply apply_str; in_list). ini_set ltac:(eapply apply_int; [in_list|apply Atoi_Itoa_int, (sv_int _ Hsv)]).
  ini_set ltac:(eapply apply_str; in_list). ini_set ltac:(eapply apply_mode; [in_list|apply parseBool_btoi]).
  ini_set ltac:(eapply apply_mode; [in_list|apply parseBool_btoi]).
  ini_set ltac:(eapply apply_str; in_list). ini_set ltac:(eapply apply_str; in_list).
  eexists. split; [reflexivity|].
  pose proof (sv_listen _ Hsv). destruct (flag c Gateway), (flag c Hostonly); repeat split; try done.
  all: str_cases; symmetry; naive_solver.
Qed.

Lemma read_tail path n c c2 : saveable c ->
  exists c3, readLines path n (iniTail c) c2 = Ok c3 /\ DNSRules c3 = DNSRules c2 /\
    (forall k, k ∈ [Server; PAC; PACEncoding; Listen; Allow; NoProxy; DNS] -> str c3 k = str c2 k) /\
    (forall k, k ∈ [UserAgent; Username; Auth; ClientAuth; ClientUsername; AutoUpdate; UpdateChannel; InstallProvider] ->
       str c3 k = str c k) /\
    int c3 Port = int c2 Port /\ (forall k, k <> Port -> int c3 k = int c k) /\
    flag c3 Gateway = flag c2 Gateway /\ flag c3 Hostonly = flag c2 Hostonly /\
    (forall k, k ∈ [Kerberos; ClientNoSSPI; Foreground] -> flag c3 k = flag c k) /\
    SockTimeout c3 = SockTimeout c /\ UpdateInterval c3 = UpdateInterval c.
Proof.
  intros Hsv. pose proof (sv_trim _ Hsv) as Ht. unfold iniTail.
  assert (trimmed (str c UserAgent) /\ trimmed (str c Username) /\ trimmed (str c Auth) /\ trimmed (str c ClientAuth) /\
          trimmed (str c ClientUsername) /\ trimmed (str c AutoUpdate) /\ trimmed (str c UpdateChannel) /\
          trimmed (str c InstallProvider)) as (T1 & T2 & T3 & T4 & T5 & T6 & T7 & T8) by (repeat split; apply Ht; in_list).
  pose proof (trimmed_nospace _ (sv_timeout_text _ Hsv)) as Tf. pose proof (trimmed_nospace _ (sv_interval_text _ Hsv)) as Td.
  ini_set ltac:(eapply apply_str; in_list). ini_set ltac:(eapply apply_str; in_list). ini_set ltac:(eapply apply_upper; in_list).
  ini_set ltac:(eapply apply_flag; [in_list|apply parseBool_btoi]). ini_skip. ini_skip.
  ini_set ltac:(eapply apply_upper; in_list). ini_set ltac:(eapply apply_str; in_list).
  ini_set ltac:(eapply apply_flag; [in_list|apply parseBool_btoi]). ini_skip. ini_skip.
  do 3 ini_set ltac:(eapply apply_int; [in_list|apply Atoi_Itoa_int, (sv_int _ Hsv)]).
  ini_set ltac:(eapply apply_timeout; exact (sv_timeout _ Hsv)).
  ini_set ltac:(eapply apply_int; [in_list|apply Atoi_Itoa_int, (sv_int _ Hsv)]).
  ini_set ltac:(eapply apply_flag; [in_list|apply parseBool_btoi]).
  ini_set ltac:(eapply apply_int; [in_list|apply Atoi_Itoa_int, (sv_int _ Hsv)]).
  ini_set ltac:(eapply apply_update; [in_list|exact (sv_auto _ Hsv)]).
  ini_set ltac:(eapply apply_interval; [rewrite Td; exact (sv_interval _ Hsv)|exact (sv_positive _ Hsv)]).
  ini_set ltac:(eapply apply_update; [in_list|exact (sv_channel _ Hsv)]).
  ini_set ltac:(eapply apply_update; [in_list|exact (sv_provider _ Hsv)]).
  eexists. split; [reflexivity|]. rewrite (sv_auth _ Hsv), (sv_client_auth _ Hsv).
  repeat split; try done; try (by str_cases). by intros [].
Qed.

(** Settings that agree already are left as they are. *)
Lemma normalize_id c :
  (flag c Gateway = true \/ flag c Hostonly = true -> str c Listen = "") ->
  (flag c Hostonly = true -> flag c Gateway = false -> str c Allow = "") ->
  let c' := normalizeDependencies c in
  (forall k, str c' k = str c k) /\ (forall k, int c' k = int c k) /\ (forall k, flag c' k = flag c k) /\
  SockTimeout c' = SockTimeout c /\ UpdateInterval c' = UpdateInterval c /\ DNSRules c' = DNSRules c.
Proof.
  intros Hl Ha. cbv zeta. unfold normalizeDependencies.
  destruct (flag c Gateway) eqn:Eg, (flag c Hostonly) eqn:Eh; cbn [orb flag setStr negb andb]; rewrite ?Eg, ?Eh; cbn [negb andb].
  all: repeat split; try done; intros k; cbn [str setStr]; unfold upd; repeat case_decide; subst; try done; symmetry; naive_solver.
Qed.


(** ** Options as a table

    The reference for the switch: each option has one field and one parser. *)

Inductive Field := FStr (k : StrField) | FInt (k : IntField) | FFlag (k : BoolField) | FTimeout | FInterval.
#[global] Instance Field_eq : EqDecision Field. Proof. solve_decision. Defined.
Inductive Value := VStr (s : string) | VInt (n : Z) | VFlag (b : bool) | VFloat (f : Float) | VDuration (d : Duration).

Definition read (c : Config) (f : Field) : Value :=
  match f with
  | FStr k => VStr (str c k) | FInt k => VInt (int c k) | FFlag k => VFlag (flag c k)
  | FTimeout => VFloat (SockTimeout c) | FInterval => VDuration (UpdateInterval c)
  end.

Definition write (f : Field) (v : Value) (c : Config) : Config :=
  match f, v with
  | FStr k, VStr s => setStr k s c | FInt k, VInt n => setInt k n c | FFlag k, VFlag b => setFlag k b c
  | FTimeout, VFloat x => setSockTimeout x c | FInterval, VDuration d => setUpdateInterval d c
  | _, _ => c
  end.

Definition Parser := string -> string -> result CErr Value.
Definition pText : Parser := fun _ v => Ok (VStr v).
Definition pUpper : Parser := fun _ v => Ok (VStr (ToUpper v)).
Definition pInt : Parser := fun name v => n ← parseIntValue name v; Ok (VInt n).
Definition pBool : Parser := fun name v => b ← boolValue name v; Ok (VFlag b).
Definition pMode (parse : string -> result Update.Upd.UErr string) : Parser :=
  fun _ v => x ← updateMode (parse v); Ok (VStr x).
Definition pFloat : Parser := fun name v => match ParseFloat v with Some f => Ok (VFloat f) | None => Err (EInvalid name) end.
Definition pInterval : Parser := fun name v =>
  match ParseDuration (TrimSpace v) with
  | Some d => if d <=? 0 then Err (EInvalid name) else Ok (VDuration d)
  | None => Err (EInvalid name)
  end.
Definition pPath : Parser := fun _ v => Ok (VStr (if String.eqb v "" then "" else normalizePath v)).
Definition pPAC : Parser := fun _ v => p ← normalizePACLocation v; Ok (VStr p).

Definition options : list (string * (Field * Parser)) :=
  [("auto_update", (FStr AutoUpdate, pMode Update.Upd.ParseAutoMode)); ("update_interval", (FInterval, pInterval));
   ("update_channel", (FStr UpdateChannel, pMode Update.Upd.ParseChannel));
   ("install_provider", (FStr InstallProvider, pMode Update.Upd.ParseProvider)); ("test", (FStr Test, pText));
   ("config", (FStr ConfigPath, pPath)); ("client_auth", (FStr ClientAuth, pUpper));
   ("client_username", (FStr ClientUsername, pText)); ("client_nosspi", (FFlag ClientNoSSPI, pBool));
   ("server", (FStr Server, pText)); ("pac", (FStr PAC, pPAC)); ("pac_encoding", (FStr PACEncoding, pText));
   ("port", (FInt Port, pInt)); ("listen", (FStr Listen, pText)); ("gateway", (FFlag Gateway, pBool));
   ("hostonly", (FFlag Hostonly, pBool)); ("allow", (FStr Allow, pText)); ("noproxy", (FStr NoProxy, pText));
   ("useragent", (FStr UserAgent, pText)); ("username", (FStr Username, pText)); ("password", (FStr Password, pText));
   ("client_password", (FStr ClientPassword, pText)); ("auth", (FStr Auth, pUpper)); ("kerberos", (FFlag Kerberos, pBool));
   ("workers", (FInt Workers, pInt)); ("threads", (FInt Threads, pInt)); ("idle", (FInt Idle, pInt));
   ("socktimeout", (FTimeout, pFloat)); ("proxyreload", (FInt ProxyReload, pInt)); ("foreground", (FFlag Foreground, pBool));
   ("log", (FInt Log, pInt))].

(** Opening the proxy to others clears the address it listens on. *)
Definition clearListen (f : Field) (v : Value) (c : Config) : Config :=
  match f, v with
  | FFlag Gateway, VFlag true | FFlag Hostonly, VFlag true => setStr Listen "" c
  | _, _ => c
  end.

Definition applyOption (c : Config) (name val : string) : result CErr Config :=
  match find (fun o => String.eqb (fst o) name) options with
  | None => Err (EUnsupported name)
  | Some (_, (f, parse)) => v ← parse name val; Ok (clearListen f v (write f v c))
  end.

(** The names that canonical names never are, or that go through the rules. *)
Definition special (name : string) : Prop := name ∈ ["proxy"; "dns"; "dns_only"; "dns_bypass"].

Lemma applyValue_option c name val : ~ special name -> applyValue c name val = applyOption c name val.
Proof.
  intros Hs. destruct (decide (name ∈ map fst options)) as [Hin|Hout].
  - apply list_elem_of_In in Hin. cbn [map fst options In] in Hin. unfold applyOption.
    repeat destruct Hin as [<-|Hin]; try done; cbn [find fst options String.eqb Ascii.eqb Bool.eqb].
    all: unfold pMode, pInterval, pText, pPath, pUpper, pBool, pPAC, pInt, pFloat, applyValue, applyAuxValue;
      cbn [String.eqb Ascii.eqb Bool.eqb orb]; try done.
    all: repeat match goal with
         | |- context [updateMode ?x] => destruct (updateMode x)
         | |- context [boolValue ?x ?y] => destruct (boolValue x y) as [[]|]
         | |- context [parseIntValue ?x ?y] => destruct (parseIntValue x y)
         | |- context [normalizePACLocation ?x] => destruct (normalizePACLocation x)
         | |- context [ParseFloat ?x] => destruct (ParseFloat x)
         | |- context [ParseDuration ?x] => destruct (ParseDuration x); [case_if|]
         end; done.
  - unfold applyOption. destruct (find _ options) as [[n fp]|] eqn:Ef.
    + apply find_some in Ef as [Ef En%String.eqb_eq]. cbn [fst] in En. subst n. destruct Hout. apply list_elem_of_fmap. exists (name, fp).
      split; [done|by apply list_elem_of_In].
    + unfold applyValue, applyAuxValue.
      repeat match goal with |- context [String.eqb name ?k] =>
        destruct (String.eqb_spec name k) as [->|]; [first [destruct Hout; in_list | destruct Hs; unfold special; in_list]|] end.
      done.
Qed.

Lemma Atoi_range s n : Atoi s = Ok n -> min_int64 <= n <= max_int64.
Proof.
  unfold Atoi. destruct s as [|c t]; [done|]. cbv zeta.
  assert (forall neg u, match u with "" => Err ErrSyntax | _ => match digits_val 0 u with None => Err ErrSyntax | Some v =>
      if (min_int64 <=? (if neg : bool then - v else v)) && ((if neg then - v else v) <=? max_int64)
      then Ok (if neg then - v else v) else Err ErrRange end end = Ok n -> min_int64 <= n <= max_int64) as H.
  { intros neg u. destruct u; [done|]. destruct (digits_val _ _); [|done]. case_if; [|done]. intros [= <-]. to_prop. lia. }
  destruct (Ascii.eqb c "-"); [apply (H true)|]. destruct (Ascii.eqb c "+"); [apply (H false t)|apply (H false (String c t))].
Qed.

Lemma parseMode_known known dflt err v m :
  Forall (fun k => Update.Upd.parseMode known dflt err k = Ok k) known -> Update.Upd.parseMode known dflt err v = Ok m ->
  Update.Upd.parseMode known dflt err m = Ok m.
Proof.
  rewrite Forall_forall. intros Hk. unfold Update.Upd.parseMode at 1. cbv zeta. case_if; [|done]. intros [= <-].
  apply Hk. apply existsb_exists in E as (x & Hx & ->%String.eqb_eq). by apply list_elem_of_In.
Qed.

Lemma parseMode_fixed parse v m :
  parse ∈ [Update.Upd.ParseAutoMode; Update.Upd.ParseChannel; Update.Upd.ParseProvider] -> parse v = Ok m -> parse m = Ok m.
Proof.
  rewrite !elem_of_cons, elem_of_nil. intros H.
  repeat destruct H as [->|H]; try done; apply parseMode_known; repeat constructor.
Qed.

(** The values a field may hold. *)
Definition valueOk (f : Field) (v : Value) : Prop :=
  match f, v with
  | FStr Auth, VStr s | FStr ClientAuth, VStr s => ToUpper s = s
  | FStr AutoUpdate, VStr s => Update.Upd.ParseAutoMode s = Ok s
  | FStr UpdateChannel, VStr s => Update.Upd.ParseChannel s = Ok s
  | FStr InstallProvider, VStr s => Update.Upd.ParseProvider s = Ok s
  | FStr _, VStr _ | FFlag _, VFlag _ | FTimeout, VFloat _ => True
  | FInt _, VInt n => min_int64 <= n <= max_int64
  | FInterval, VDuration d => 0 < d
  | _, _ => False
  end.

Lemma options_ok key f p val v : (key, (f, p)) ∈ options -> p key val = Ok v -> valueOk f v.
Proof.
  intros Hin%list_elem_of_In. cbn [options In] in Hin.
  repeat destruct Hin as [[= <- <- <-]|Hin]; try done.
  all: unfold pMode, pInterval, pText, pPath, pUpper, pBool, pPAC, pInt, pFloat, updateMode, parseIntValue.
  all: repeat match goal with
       | |- context [boolValue ?x ?y] => destruct (boolValue x y)
       | |- context [Atoi ?x] => destruct (Atoi x) eqn:Ei
       | |- context [Update.Upd.ParseAutoMode ?x] => destruct (Update.Upd.ParseAutoMode x) eqn:Em
       | |- context [Update.Upd.ParseChannel ?x] => destruct (Update.Upd.ParseChannel x) eqn:Em
       | |- context [Update.Upd.ParseProvider ?x] => destruct (Update.Upd.ParseProvider x) eqn:Em
       | |- context [normalizePACLocation ?x] => destruct (normalizePACLocation x)
       | |- context [ParseFloat ?x] => destruct (ParseFloat x)
       | |- context [ParseDuration ?x] => destruct (ParseDuration x); [case_if; [done|]|]
       end; intros [= <-]; cbn [valueOk]; try done.
  all: first [by apply ToUpper_idem|by eapply Atoi_range|eapply parseMode_fixed; [|exact Em]; in_list|to_prop; lia].
Qed.

Lemma read_write f v c : valueOk f v -> read (write f v c) f = v.
Proof. intros H. destruct f as [[]|k|k| |], v; try done; cbn; unfold upd; by rewrite decide_True. Qed.

Lemma read_write_ne f g v c : f <> g -> read (write f v c) g = read c g.
Proof. intros Hne. destruct f, v, g; try done; cbn; unfold upd; by rewrite decide_False by congruence. Qed.

Lemma read_clearListen f v c g : g <> FStr Listen -> read (clearListen f v c) g = read c g.
Proof.
  intros Hne. unfold clearListen. repeat case_match; try done; destruct g; try done; cbn; unfold upd;
    by rewrite decide_False by congruence.
Qed.

Lemma write_sources f v c : Sources (clearListen f v (write f v c)) = Sources c /\ DNSRules (clearListen f v (write f v c)) = DNSRules c.
Proof. destruct f as [[]|[]|[]| |], v as [| |[]| |]; done. Qed.

(** Each option has a field of its own. *)
Lemma options_inj n1 n2 f p1 p2 : (n1, (f, p1)) ∈ options -> (n2, (f, p2)) ∈ options -> n1 = n2.
Proof.
  intros H1 H2. assert (NoDup (map (fun o => fst (snd o)) options)) as Hnd.
  { apply (bool_decide_unpack _). by vm_compute. }
  apply list_elem_of_lookup in H1 as [i Hi], H2 as [j Hj].
  assert (i = j) as ->.
  { eapply NoDup_lookup; [exact Hnd| |]; rewrite list_lookup_fmap; [rewrite Hi|rewrite Hj]; done. }
  congruence.
Qed.

Lemma TrimSpace_ToLower s : TrimSpace (ToLower s) = ToLower (TrimSpace s).
Proof.
  assert (forall c, is_space (lower_char c) = is_space c) as H.
  { intros c. apply eqb_prop. revert c. apply (ascii_forall (fun c => Bool.eqb (is_space (lower_char c)) (is_space c))). by vm_compute. }
  unfold TrimSpace, ToLower. by rewrite trim_left_map, trim_right_map.
Qed.

Lemma canonical_idem name : canonicalConfigKey (canonicalConfigKey name) = canonicalConfigKey name.
Proof.
  unfold canonicalConfigKey. destruct (String.eqb_spec (ToLower (TrimSpace name)) "proxy") as [E|E]; [done|].
  rewrite TrimSpace_ToLower, TrimSpace_idem, ToLower_idem. apply String.eqb_neq in E. by rewrite E.
Qed.

(** Each option is listed once. *)
Lemma options_functional key fp1 fp2 : (key, fp1) ∈ options -> (key, fp2) ∈ options -> fp1 = fp2.
Proof.
  intros H1 H2. assert (NoDup (map fst options)) as Hnd by (apply (bool_decide_unpack _); by vm_compute).
  apply list_elem_of_lookup in H1 as [i Hi], H2 as [j Hj].
  assert (i = j) as ->; [|congruence].
  apply (NoDup_lookup _ i j key Hnd); rewrite list_lookup_fmap; [by rewrite Hi|by rewrite Hj].
Qed.

Lemma canonical_not_proxy name : canonicalConfigKey name <> "proxy".
Proof. unfold canonicalConfigKey. by destruct (String.eqb_spec (ToLower (TrimSpace name)) "proxy"). Qed.

(** ** Lemmas: many assignments *)

Definition isDNSKey (name : string) : bool := existsb (String.eqb name) ["dns"; "dns_only"; "dns_bypass"].

Lemma applyValueFrom_option c name val src c' : applyValueFrom c name val src = Ok c' ->
  let key := canonicalConfigKey name in
  if isDNSKey key then exists c1, applyDNSPolicyValue c key val src = Ok c1 /\ c' = markSource key src c1
  else exists f p v, (key, (f, p)) ∈ options /\ p key val = Ok v /\ c' = markSource key src (clearListen f v (write f v c)).
Proof.
  cbv zeta. unfold applyValueFrom. pose proof (canonical_not_proxy name) as Hnp.
  generalize (canonicalConfigKey name), Hnp. clear Hnp. intros key Hnp. unfold isDNSKey. cbn [existsb]. rewrite orb_false_r, orb_assoc.
  destruct (String.eqb key "dns" || String.eqb key "dns_only" || String.eqb key "dns_bypass") eqn:Ek.
  - destruct (applyDNSPolicyValue c key val src) as [c1|]; [|done]. cbn [mbind result_bind]. intros [= <-]. by exists c1.
  - rewrite applyValue_option.
    2:{ unfold special. rewrite !elem_of_cons, elem_of_nil. intros Hs. repeat destruct Hs as [->|Hs]; done. }
    unfold applyOption. destruct (find _ options) as [[n [f p]]|] eqn:Ef; [|done].
    apply find_some in Ef as [Ef En%String.eqb_eq]. cbn [fst] in En. subst n. apply list_elem_of_In in Ef.
    destruct (p key val) as [v|] eqn:Ev; [|done]. cbn [mbind result_bind]. intros [= <-]. by exists f, p, v.
Qed.

(** What an assignment to [name] does to the option [key] of field [f]. *)
Lemma applyValueFrom_read c name val src c' key f p :
  applyValueFrom c name val src = Ok c' -> (key, (f, p)) ∈ options -> f <> FStr Listen ->
  if decide (canonicalConfigKey name = key) then p key val = Ok (read c' f) /\ Sources c' !! key = Some src
  else read c' f = read c f /\ Sources c' !! key = Sources c !! key.
Proof.
  intros H%applyValueFrom_option Hf HL. pose proof (canonical_idem name) as Hidem. cbv zeta in H.
  set (k := canonicalConfigKey name) in *.
  assert (isDNSKey key = false /\ f <> FStr DNS) as [Hk HD].
  { clear - Hf. apply list_elem_of_In in Hf. cbn [options In] in Hf. by repeat destruct Hf as [[= <- <- <-]|Hf]. }
  destruct (isDNSKey k) eqn:Ed.
  - destruct H as (c1 & Hd & ->). rewrite decide_False by congruence. cbn [markSource setSources Sources].
    rewrite Hidem, lookup_insert_ne by congruence.
    revert Hd. unfold applyDNSPolicyValue. cbv zeta. destruct (String.eqb k "dns").
    + destruct (Resolver.Rv.New _ _); [|done]. case_if; intros [= <-]; (split; [|done]);
        destruct f; try done; cbn; unfold upd; by rewrite decide_False by congruence.
    + destruct (_ || _); [|done]. destruct (last _); [|done]. destruct (dnsCheck _); [|done]. cbn [mbind result_bind].
      intros [= <-]. by destruct f.
  - destruct H as (f' & p' & v & Hin & Hp & ->). cbn [markSource setSources Sources]. rewrite Hidem.
    rewrite (proj1 (write_sources f' v c)).
    case_decide as Ek.
    + rewrite Ek in Hin, Hp. rewrite Ek, lookup_insert_eq.
      assert (f' = f /\ p' = p) as [-> ->].
      { pose proof (options_functional _ _ _ Hin Hf). by simplify_eq. }
      split; [|done]. change (read (markSource _ _ ?x) f) with (read x f). rewrite read_clearListen by done.
      rewrite read_write; [done|]. by eapply options_ok.
    + rewrite lookup_insert_ne by congruence. split; [|done].
      change (read (markSource _ _ ?x) f) with (read x f). rewrite read_clearListen by done.
      apply read_write_ne. intros ->. apply Ek. by eapply options_inj.
Qed.

(** The last assignment to [key]. *)
Definition lastEntry (key : string) (es : list (string * (string * string))) : option (string * string) :=
  snd <$> last (bfilter (fun e => bool_decide (canonicalConfigKey (fst e) = key)) es).

(** What the assignments [es], in order, make of an option. *)
Definition assigned (key : string) (f : Field) (p : Parser) (es : list (string * (string * string))) (c c' : Config) : Prop :=
  match lastEntry key es with
  | Some (val, src) => p key val = Ok (read c' f) /\ SourceOf c' key = src
  | None => read c' f = read c f /\ SourceOf c' key = SourceOf c key
  end.

Lemma SourceOf_canonical c c' key : canonicalConfigKey key = key -> Sources c' !! key = Sources c !! key -> SourceOf c' key = SourceOf c key.
Proof. unfold SourceOf. intros -> H. by rewrite H. Qed.

Lemma option_canonical key fp : (key, fp) ∈ options -> canonicalConfigKey key = key.
Proof.
  intros H. assert (Forall (fun k => canonicalConfigKey k = k) (map fst options)) as Hf by (repeat constructor).
  rewrite Forall_forall in Hf. apply Hf, list_elem_of_fmap. by exists (key, fp).
Qed.

Lemma lastEntry_app key a b : lastEntry key (a ++ b) = match lastEntry key b with Some x => Some x | None => lastEntry key a end.
Proof.
  unfold lastEntry. rewrite List.filter_app, last_app. by destruct (last (bfilter _ b)).
Qed.

Lemma assigned_trans key f p a b c c1 c2 : assigned key f p a c c1 -> assigned key f p b c1 c2 -> assigned key f p (a ++ b) c c2.
Proof.
  unfold assigned. rewrite lastEntry_app. destruct (lastEntry key b) as [[v s]|]; [done|].
  intros Ha [-> ->]. exact Ha.
Qed.

Lemma assigned_none key f p c c' : read c' f = read c f -> SourceOf c' key = SourceOf c key -> assigned key f p [] c c'.
Proof. done. Qed.

Lemma assigned_one c name val src c' key f p :
  applyValueFrom c name val src = Ok c' -> (key, (f, p)) ∈ options -> f <> FStr Listen ->
  assigned key f p [(name, (val, src))] c c'.
Proof.
  intros H Hin HL. pose proof (applyValueFrom_read _ _ _ _ _ _ _ _ H Hin HL) as Hr. pose proof (option_canonical _ _ Hin) as Hc.
  unfold assigned, lastEntry. cbn [List.filter fst]. destruct (decide (canonicalConfigKey name = key)) as [E|E].
  - rewrite bool_decide_eq_true_2 by done. cbn. destruct Hr as [H1 H2]. split; [done|]. unfold SourceOf. by rewrite Hc, H2.
  - rewrite bool_decide_eq_false_2 by done. cbn. destruct Hr as [H1 H2]. split; [done|]. by apply SourceOf_canonical.
Qed.

Lemma applyEntries_assigned es c c' key f p :
  applyEntries es c = Ok c' -> (key, (f, p)) ∈ options -> f <> FStr Listen -> assigned key f p es c c'.
Proof.
  intros H Hin HL. revert c H. induction es as [|[name [val src]] es IH]; intros c; [by intros [= ->]|].
  unfold applyEntries in *. cbn [foldM]. destruct (applyValueFrom c name val src) as [c1|] eqn:E; [|done]. cbn [mbind result_bind].
  intros H%IH. exact (assigned_trans _ _ _ [_] es _ _ _ (assigned_one _ _ _ _ _ _ _ _ E Hin HL) H).
Qed.

(** The fields that a bare argument, a stored password or the dependencies
    between options may set as well. *)
Definition entangled : list Field :=
  [FStr Listen; FStr Allow; FStr Test; FStr Password; FStr ClientPassword; FInt Log; FFlag Gateway; FFlag Hostonly;
   FFlag Foreground; FFlag ClientNoSSPI].

Lemma applyBareArg_read c arg c' f : applyBareArg c arg = Some c' -> f ∈ map (fun o => fst (snd o)) options -> f ∉ entangled ->
  read c' f = read c f /\ Sources c' = Sources c.
Proof.
  intros H Hin Hne.
  assert ((forall k, f = FStr k -> k <> Listen /\ k <> Test) /\ (forall k, f = FInt k -> k <> Log) /\
          (forall k, f = FFlag k -> k = Kerberos)) as (Hs & Hi & Hf).
  { apply list_elem_of_In in Hin. cbn [map fst snd options In] in Hin. unfold entangled in Hne.
    rewrite !not_elem_of_cons in Hne. clear - Hne Hin. repeat destruct Hin as [<-|Hin]; try done; repeat split; naive_solver. }
  revert H. unfold applyBareArg. repeat case_if; try (intros [= <-]; split; [|done]; destruct f as [k|k|k| |]; try done; cbn; unfold upd).
  all: try (specialize (Hs k eq_refl); by repeat rewrite decide_False by naive_solver).
  all: try (specialize (Hi k eq_refl); by rewrite decide_False).
  all: try (specialize (Hf k eq_refl); subst k; by repeat rewrite decide_False by done).
  destruct (find _ bareFlags) as [[n k]|] eqn:Ef; [|done]. intros [= <-]. split; [|done].
  destruct f as [k'|k'|k'| |]; try done. cbn. unfold upd. rewrite decide_False; [done|]. intros <-.
  apply find_some in Ef as [Ef _]. apply list_elem_of_In in Ef. specialize (Hf k' eq_refl). subst k'. revert Ef. clear.
  unfold bareFlags. rewrite !elem_of_cons, elem_of_nil. naive_solver.
Qed.

(** The assignments of the command line, in order. *)
Definition cliEntries (args : list string) : list (string * (string * string)) :=
  omap (fun arg => match applyBareArg Default arg with
                   | Some _ => None
                   | None => (fun nv => (fst nv, (snd nv, "cli"))) <$> argEntry arg
                   end) args.

Lemma applyBareArg_indep c c' arg : is_Some (applyBareArg c arg) <-> is_Some (applyBareArg c' arg).
Proof. unfold applyBareArg. repeat case_if; try done. destruct (find _ _) as [[]|]; done. Qed.

Lemma applyArgs_assigned args c c' key f p :
  applyArgs args c = Ok c' -> (key, (f, p)) ∈ options -> f ∉ entangled -> assigned key f p (cliEntries args) c c'.
Proof.
  intros H Hin Hne. pose proof (option_canonical _ _ Hin) as Hc.
  assert (f <> FStr Listen) as HL by (intros ->; apply Hne; in_list).
  revert c H. induction args as [|arg args IH]; intros c; [by intros [= ->]|].
  unfold applyArgs in *. cbn [foldM cliEntries omap list_omap]. destruct (applyArg c arg) as [c1|] eqn:Ea; [|done].
  cbn [mbind result_bind]. intros H%IH. unfold applyArg in Ea. destruct (applyBareArg c arg) as [c1'|] eqn:Eb.
  - injection Ea as ->. destruct (proj1 (applyBareArg_indep c Default arg) ltac:(by eexists)) as [d ->].
    apply applyBareArg_read with (f := f) in Eb as [E1 E2]; [|apply list_elem_of_fmap; by exists (key, (f, p))|done].
    refine (assigned_trans _ _ _ [] _ _ _ _ _ H). apply assigned_none; [done|]. unfold SourceOf. by rewrite E2.
  - destruct (applyBareArg Default arg) eqn:Ed; [destruct (proj1 (applyBareArg_indep Default c arg) ltac:(by eexists)); congruence|].
    destruct (argEntry arg) as [[name val]|]; cbn [fmap option_fmap option_map fst snd]; [|by injection Ea as ->].
    destruct (applyValueFrom c name val "cli") as [c1'|] eqn:E; [|done]. injection Ea as ->.
    exact (assigned_trans _ _ _ [_] _ _ _ _ (assigned_one _ _ _ _ _ _ _ _ E Hin HL) H).
Qed.

Lemma loadStoredPassword_read realm user password c c' f :
  loadStoredPassword realm user password c = Ok c' -> f <> FStr password -> read c' f = read c f /\ Sources c' = Sources c.
Proof.
  unfold loadStoredPassword. case_if; [|by intros [= <-]]. destruct (keyringGet _ _ _) as [[pwd|]|]; [| |done]; intros [= <-] Hne; [|done].
  split; [|done]. destruct f; try done. cbn. unfold upd. by rewrite decide_False by congruence.
Qed.

Lemma normalize_read c f : f <> FStr Listen -> f <> FStr Allow ->
  read (normalizeDependencies c) f = read c f /\ Sources (normalizeDependencies c) = Sources c.
Proof.
  intros H1 H2. unfold normalizeDependencies. repeat case_if; (split; [|done]); destruct f; try done;
    cbn; unfold upd; repeat rewrite decide_False by congruence; done.
Qed.

(** ** The environment *)

Definition envInv (seen_ : list string) (m : gmap string (string * string)) : Prop :=
  forall item key val, item ∈ seen_ -> Cut item "=" = Some (key, val) -> HasPrefix key "PXGO_" = true ->
    (slen key <=? slen "PXGO_") = false -> isAuxiliaryEnvKey (ToLower (str_drop 5 key)) = false ->
    exists v k, m !! ToLower (str_drop 5 key) = Some (v, "env:" +:+ k) /\ HasPrefix k "PXGO_" = true.

Lemma envValues_current : envInv (Environ w) envValues.
Proof.
  unfold envValues. generalize (fold_left (envStep "PX_") (Environ w) ∅). intros m0.
  assert (forall items seen_ m, envInv seen_ m -> envInv (seen_ ++ items) (fold_left (envStep "PXGO_") items m)) as H.
  { induction items as [|item items IH]; intros seen_ m Hm; [by rewrite app_nil_r|]. cbn [fold_left].
    replace (seen_ ++ item :: items) with ((seen_ ++ [item]) ++ items) by (by rewrite <- app_assoc). apply IH.
    assert (forall m', (forall n v, m !! n = Some v -> m' !! n = Some v \/ exists v' k, m' !! n = Some (v', "env:" +:+ k) /\ HasPrefix k "PXGO_" = true) -> envInv seen_ m') as Hkeep.
    { intros m' Hm' it key val H1 H2 H3 H4 H5. destruct (Hm it key val H1 H2 H3 H4 H5) as (v & k & E & Hk).
      destruct (Hm' _ _ E) as [E'|E']; [by exists v, k|exact E']. }
    intros it key val [Hin|Hin%list_elem_of_singleton]%elem_of_app H2 H3 H4 H5.
    - refine (Hkeep _ _ it key val Hin H2 H3 H4 H5). intros n v Hn. unfold envStep. cbv zeta.
      destruct (Cut item "=") as [[k' v']|]; [|by left]. destruct (negb (HasPrefix k' "PXGO_")) eqn:Ep; [by left|].
      destruct (slen k' <=? slen "PXGO_"); [by left|]. cbn [orb].
      set (nm := ToLower (str_drop (String.length "PXGO_") k')). destruct (isAuxiliaryEnvKey nm); [by left|]. destruct (decide (nm = n)) as [<-|Hne]; [right|left].
      + exists v', k'. split; [apply lookup_insert_eq|]. by apply negb_false_iff in Ep.
      + rewrite lookup_insert_ne; [exact Hn|exact Hne].
    - subst it. unfold envStep. rewrite H2, H3. cbn [negb orb]. rewrite H4.
      change (String.length "PXGO_") with 5%nat. rewrite H5. exists val, key. by rewrite lookup_insert_eq. }
  apply (H (Environ w) [] m0). intros it key val Hin. by apply elem_of_nil in Hin.
Qed.


(** ** What every parsed configuration satisfies *)

Record wellFormed (c : Config) : Prop := mkWF {
  wf_auth : ToUpper (str c Auth) = str c Auth; wf_client : ToUpper (str c ClientAuth) = str c ClientAuth;
  wf_auto : Update.Upd.ParseAutoMode (str c AutoUpdate) = Ok (str c AutoUpdate);
  wf_channel : Update.Upd.ParseChannel (str c UpdateChannel) = Ok (str c UpdateChannel);
  wf_provider : Update.Upd.ParseProvider (str c InstallProvider) = Ok (str c InstallProvider);
  wf_interval : 0 < UpdateInterval c; wf_int : forall k, min_int64 <= int c k <= max_int64; wf_dns : dnsOk c }.

Lemma dns_policy_ok c key val src c' : dnsOk c -> applyDNSPolicyValue c key val src = Ok c' ->
  dnsOk c' /\ (forall k, k <> DNS -> str c' k = str c k) /\ int c' = int c /\ UpdateInterval c' = UpdateInterval c.
Proof.
  intros Hd. unfold applyDNSPolicyValue. cbv zeta.
  assert (Forall ruleOk (DNSRules c)) as Hr.
  { unfold dnsOk in Hd. destruct (last (DNSRules c)) eqn:E; [by destruct Hd|]. apply last_None in E. by rewrite E. }
  destruct (String.eqb key "dns").
  - destruct (Resolver.Rv.New (TrimSpace val) Second) eqn:En; [|done]. destruct (String.eqb_spec (TrimSpace val) "") as [Ee|Ee]; intros [= <-].
    + repeat split; [exact Ee|]. intros k Hk. cbn. unfold upd. by rewrite decide_False.
    + split; [|split; [intros k Hk; cbn; unfold upd; by rewrite decide_False|done]].
      unfold dnsOk. cbn [DNSRules setDNSRules]. rewrite last_snoc. split; [|done]. apply Forall_app. split.
      * case_if; [exact Hr|constructor].
      * constructor; [|constructor]. split; cbn [Resolver.Rv.Resolver Resolver.Rv.Only Resolver.Rv.Bypass]; try done;
          [by apply TrimSpace_idem|]. unfold newOk. by rewrite En.
  - destruct (_ || _); [|done]. destruct (last (DNSRules c)) as [r|] eqn:El; [|done].
    pose proof El as (l & El')%last_Some.
    match goal with |- context [dnsCheck ?r'] => set (r1 := r') end.
    destruct (dnsCheck r1) as [[]|] eqn:Ec; [|done]. cbn [mbind result_bind]. intros [= <-]. split; [|done].
    unfold dnsOk in *. rewrite El in Hd. destruct Hd as [_ Hd].
    rewrite El' in Hr. apply Forall_app in Hr as [Hl Hr]. apply Forall_singleton in Hr as [R1 R2 R3 R4 R5 R6 R7].
    pose proof (split_patterns_clean val) as Hsp.
    assert (Resolver.Rv.Resolver r1 = Resolver.Rv.Resolver r) as Er by (subst r1; by case_if).
    cbn [DNSRules setDNSRules str]. rewrite last_snoc. split; [|by rewrite Er]. apply Forall_app.
    split; [rewrite El', length_app, Nat.add_sub, take_app_length; exact Hl|]. constructor; [|constructor].
    assert (r1 = mkRawRule (Resolver.Rv.Resolver r1) (Resolver.Rv.Only r1) (Resolver.Rv.Bypass r1)) as Eeta by (by destruct r1).
    rewrite Eeta in Ec. apply dnsCheck_ok in Ec as (C1 & C2 & C3).
    split; rewrite ?Er; try done; subst r1; case_if; cbn [Resolver.Rv.Only Resolver.Rv.Bypass]; try done; by apply Forall_app.
Qed.

(** The part of it that every assignment keeps. *)
Definition valuesOk (c : Config) : Prop := (forall f, valueOk f (read c f)) /\ dnsOk c.

Lemma valuesOk_wf c : valuesOk c -> wellFormed c.
Proof.
  intros [H Hd]. split; [exact (H (FStr Auth))|exact (H (FStr ClientAuth))|exact (H (FStr AutoUpdate))|exact (H (FStr UpdateChannel))
    |exact (H (FStr InstallProvider))|exact (H FInterval)|exact (fun k => H (FInt k))|exact Hd].
Qed.

(** Texts on which nothing is asked may change freely. *)
Definition freeStr (k : StrField) : bool :=
  negb (bool_decide (k ∈ [Auth; ClientAuth; AutoUpdate; UpdateChannel; InstallProvider; DNS])).

Lemma valuesOk_setStr c k s : freeStr k = true -> valuesOk c -> valuesOk (setStr k s c).
Proof.
  intros Hk [H Hd]. split.
  - intros f. destruct (decide (f = FStr k)) as [->|Hne].
    + cbn. destruct k; done.
    + specialize (H f). rewrite <- (read_write_ne (FStr k) f (VStr s) c) in H by congruence. exact H.
  - unfold dnsOk in *. cbn [DNSRules str setStr]. unfold upd. rewrite decide_False; [exact Hd|]. by intros <-.
Qed.

Lemma valuesOk_setFlag c k b : valuesOk c -> valuesOk (setFlag k b c).
Proof.
  intros [H Hd]. split; [|exact Hd]. intros f. specialize (H f). by destruct f.
Qed.

Lemma applyValueFrom_ok c name val src c' : valuesOk c -> applyValueFrom c name val src = Ok c' -> valuesOk c'.
Proof.
  intros [Hv Hd] H%applyValueFrom_option. cbv zeta in H. destruct (isDNSKey _).
  - destruct H as (c1 & H & ->). apply dns_policy_ok in H as (D1 & D2 & D3 & D4); [|done]. split; [|exact D1].
    intros f. specialize (Hv f). destruct f as [k|k|k| |]; try done; cbn in *; rewrite ?D3, ?D4; try done.
    destruct (decide (k = DNS)) as [->|Hk]; [exact I|rewrite D2 by done; exact Hv].
  - destruct H as (f & p & v & Hin & Hp & ->). pose proof (options_ok _ _ _ _ _ Hin Hp) as Hok.
    assert (valuesOk (write f v c)) as Hw.
    { split.
      - intros g. destruct (decide (f = g)) as [<-|Hne]; [by rewrite read_write|rewrite read_write_ne by done; apply Hv].
      - assert (f <> FStr DNS) as HD.
        { clear - Hin. apply list_elem_of_In in Hin. cbn [options In] in Hin. by repeat destruct Hin as [[= _ <- _]|Hin]. }
        pose proof (read_write_ne f (FStr DNS) v c HD) as [= E]. unfold dnsOk in *. rewrite E. by destruct f, v. }
    assert (valuesOk (clearListen f v (write f v c))) as Hc.
    { unfold clearListen. repeat case_match; try done; by apply valuesOk_setStr. }
    exact Hc.
Qed.

Lemma applyEntries_ok es c c' : valuesOk c -> applyEntries es c = Ok c' -> valuesOk c'.
Proof.
  intros Hc H. eapply (foldM_invariant _ valuesOk); [exact Hc| |exact H]. intros c1 [name [val src]] c2 _ H1.
  destruct (applyValueFrom c1 name val src) eqn:E; [|done]. intros [= <-]. by eapply applyValueFrom_ok.
Qed.

Lemma applyBareArg_ok c arg c' : valuesOk c -> applyBareArg c arg = Some c' -> valuesOk c'.
Proof.
  assert (forall c n, 0 <= n <= 4 -> valuesOk c -> valuesOk (setInt Log n c)) as Hlog.
  { intros c0 n Hn [H Hd]. split; [|exact Hd]. intros f. specialize (H f). destruct f as [|k| | |]; try exact H.
    cbn in *. unfold upd. case_decide; [unfold min_int64, max_int64; lia|exact H]. }
  intros Hc. unfold applyBareArg. repeat case_if; try (intros [= <-]).
  - by apply valuesOk_setStr, valuesOk_setFlag.
  - by apply valuesOk_setStr, valuesOk_setFlag.
  - by apply valuesOk_setFlag, Hlog.
  - by apply Hlog.
  - by apply Hlog.
  - by apply valuesOk_setStr.
  - destruct (find _ _) as [[]|]; [|done]. intros [= <-]. by apply valuesOk_setFlag.
Qed.

Lemma applyArgs_ok args c c' : valuesOk c -> applyArgs args c = Ok c' -> valuesOk c'.
Proof.
  intros Hc H. eapply (foldM_invariant _ valuesOk); [exact Hc| |exact H]. intros c1 arg c2 _ H1. unfold applyArg.
  destruct (applyBareArg c1 arg) eqn:Eb; [intros [= <-]; by eapply applyBareArg_ok|].
  destruct (argEntry arg) as [[name val]|]; [|by intros [= <-]].
  destruct (applyValueFrom c1 name val "cli") eqn:E; [|done]. intros [= <-]. by eapply applyValueFrom_ok.
Qed.

Lemma normalize_ok c : valuesOk c -> valuesOk (normalizeDependencies c).
Proof. intros H. unfold normalizeDependencies. cbv zeta. repeat case_if; repeat apply valuesOk_setStr; done. Qed.

Lemma Default_ok : valuesOk Default.
Proof.
  split; [|done]. intros [[]|[]|k| |]; try done; cbn [read Default str int valueOk UpdateInterval]; try (by vm_compute);
    unfold min_int64, max_int64, Hour, Minute, Second; lia.
Qed.

Lemma readLines_ok path n ls c c' : valuesOk c -> readLines path n ls c = Ok c' -> valuesOk c'.
Proof.
  revert n c. induction ls as [|l ls IH]; intros n c Hc; cbn [readLines]; [by intros [= <-]|].
  destruct (iniLine l); [by apply IH| |done]. destruct (applyValueFrom _ _ _ _) eqn:E; [|done].
  apply IH. by eapply applyValueFrom_ok.
Qed.

Lemma ReadINI_ok path c : ReadINI path = Ok c -> valuesOk c.
Proof.
  unfold ReadINI, readINIText. destruct (readFile w path) as [text|]; [|done]. destruct (scanLines _ _) as [ls e].
  destruct (readLines path 1 ls Default) eqn:E; [|done]. cbn [mbind result_bind]. destruct e; [done|]. intros [= <-].
  apply normalize_ok. eapply readLines_ok; [apply Default_ok|exact E].
Qed.

Lemma baseConfig_ok args dotenv source isSave c : baseConfig args dotenv source isSave = Ok c -> valuesOk c.
Proof.
  assert (forall n s c, valuesOk c -> valuesOk (markSource n s c)) as Hmark by (intros n s c0 H; exact H).
  unfold baseConfig. cbv zeta. destruct (configSource _ _ _) as [cp src].
  set (c0 := if negb (String.eqb cp "") then _ else _).
  assert (valuesOk c0) as H0.
  { subst c0. case_if; [apply Hmark, valuesOk_setStr; [done|]|]; apply valuesOk_setFlag, Default_ok. }
  destruct (configPathStrict cp) as [lp|]; [|done]. cbn [mbind result_bind].
  destruct (stat w lp); [|repeat case_if; try done; by intros [= <-]..].
  destruct (ReadINI lp) eqn:Er; [|done]. apply ReadINI_ok in Er. intros [= <-].
  case_if; [apply Hmark|]; by apply valuesOk_setFlag, valuesOk_setStr.
Qed.

Lemma loadStoredPassword_ok realm user k c c' : freeStr k = true -> valuesOk c -> loadStoredPassword realm user k c = Ok c' -> valuesOk c'.
Proof.
  unfold loadStoredPassword. intros Hk Hc. case_if; [|by intros [= <-]].
  destruct (keyringGet _ _ _) as [[]|]; [| |done]; intros [= <-]; [by apply valuesOk_setStr|done].
Qed.

(** C19: Every parsed configuration is well-formed.  Whatever the file, the
    environment and the arguments hold, a configuration [ParseArgs] returns has
    its schemes in upper case, modes, channel and provider among those known, a
    positive update interval, numbers that fit the machine's integers, DNS
    rules whose resolvers and patterns are valid and whose last resolver is the
    one shown, no address to listen on when it serves a gateway or its host
    only, and no list of allowed clients when it serves its host only.  These are
    the conditions under which the saved file brings it back, but for blanks
    around a text. *)
Theorem parsed_wellformed args c : ParseArgs args = Ok c ->
  wellFormed c /\ (flag c Gateway = true \/ flag c Hostonly = true -> str c Listen = "") /\
  (flag c Hostonly = true -> flag c Gateway = false -> str c Allow = "").
Proof.
  unfold ParseArgs. destruct loadDotenv as [[dotenv source]|]; [|done]. cbn [mbind result_bind].
  destruct (saveWanted args dotenv source) as [isSave|] eqn:Es; [|done]. cbn [mbind result_bind].
  destruct (baseConfig args dotenv source isSave) as [base|] eqn:Eb; [|done]. cbn [mbind result_bind].
  destruct (applyMap base dotenv source) as [c1|] eqn:E1; [|done]. cbn [mbind result_bind].
  destruct (applyEnv c1) as [c2|] eqn:E2; [|done]. cbn [mbind result_bind].
  destruct (applyArgs args c2) as [c3|] eqn:E3; [|done]. cbn [mbind result_bind].
  destruct (loadStoredPasswords c3) as [c4|] eqn:E4; [|done]. intros [= <-].
  apply baseConfig_ok in Eb. apply (applyEntries_ok _ _ _ Eb) in E1. apply (applyEntries_ok _ _ _ E1) in E2.
  apply (applyArgs_ok _ _ _ E2) in E3. unfold loadStoredPasswords in E4.
  destruct (loadStoredPassword Realm _ _ c3) as [c5|] eqn:E5; [|done]. cbn [mbind result_bind] in E4.
  apply loadStoredPassword_ok in E5; [|done|done]. apply loadStoredPassword_ok in E4; [|done|done].
  split; [by apply valuesOk_wf, normalize_ok|]. clear.
  unfold normalizeDependencies. destruct (flag c4 Gateway) eqn:Eg, (flag c4 Hostonly) eqn:Eh; cbn [orb flag setStr negb andb];
    rewrite ?Eg, ?Eh; cbn [negb andb]; split; cbn [str setStr flag]; rewrite ?Eg, ?Eh; unfold upd; intros; try done; naive_solver.
Qed.

End Config.

(** ** Witnesses *)

Section Witness.

(** Numbers with a fraction as their text, and a day and an hour as durations. *)
Definition toyDuration (s : string) : option Duration :=
  if String.eqb s "24h" || String.eqb s "24h0m0s" then Some (24 * Hour) else if String.eqb s "1h0m0s" then Some Hour else None.
Definition toyDurationString (d : Duration) : string := if d =? Hour then "1h0m0s" else "24h0m0s".

Definition toyIni : string := "dns = 1.1.1.1" +:+ String LF ("dns_only = corp.example, *.lan" +:+ String LF ("port=9" +:+ String LF "idle=7")).
Definition toyWorld : World :=
  mkWorld ["HOME=/home/u"; "PX_PORT=1"; "PXGO_PORT=8080"; "PX_IDLE=5"; "PXGO_BIN=x"] (Some "/w") (Some "/home/u") false "/opt"
    (fun p => if String.eqb p "/w/pxgo.ini" then Exists else NotExist)
    (fun p => if String.eqb p "/w/pxgo.ini" then inl toyIni else inr true) (fun _ _ => Some None).
Definition toyParse (args : list string) : result CErr Config := ParseArgs (Float := string) Some toyDuration "20.0" toyWorld args.
Definition toyArgs : list string := ["--threads=8"; "--hostonly"; "--auth=ntlm"].
Definition toyConfig : Config := match toyParse toyArgs with Ok c => c | Err _ => Default (Float := string) "20.0" end.

Example config1 : int toyConfig Port = 8080 /\ SourceOf toyConfig "port" = "env:PXGO_PORT" /\
  int toyConfig Idle = 5 /\ int toyConfig Threads = 8 /\ str toyConfig Auth = "NTLM" /\ str toyConfig Listen = "" /\
  DNSRules toyConfig = [mkRawRule "1.1.1.1" ["corp.example"; "*.lan"] []].
Proof. by vm_compute. Qed.

Definition saved (c : Config) : result CErr string := SaveINI (Float := string) id toyDurationString "/w/pxgo.ini" c.

(** A configuration that serves its host only, with rules. *)
Definition toySaved : Config :=
  setStr Listen "" (setStr Allow "" (setFlag Hostonly true (setInt Port 8080 (setStr Auth "NTLM" (setStr DNS "1.1.1.1"
    (setDNSRules [mkRawRule "1.1.1.1" ["corp.example"; "*.lan"] []] (setUpdateInterval Hour (Default "20.0")))))))).

Lemma toy_saveable : saveable (Float := string) Some id toyDuration toyDurationString toyWorld toySaved.
Proof.
  split; try lazymatch goal with |- _ = _ => by vm_compute | |- _ < _ => by vm_compute end.
  - intros k Hk. destruct k; try (unfold trimmed; by vm_compute).
  - apply (bool_decide_unpack _). by vm_compute.
  - intros []; split; by vm_compute.
  - intros _. by vm_compute.
  - intros _ _. by vm_compute.
  - unfold dnsOk. change (last (DNSRules toySaved)) with (Some (mkRawRule "1.1.1.1" ["corp.example"; "*.lan"] [])).
    split; [|by vm_compute].
    change (DNSRules toySaved) with [mkRawRule "1.1.1.1" ["corp.example"; "*.lan"] []].
    repeat constructor; by vm_compute.
Qed.



Lemma parsed_wellformed_witness : wellFormed toyConfig /\ str toyConfig Listen = "".
Proof.
  assert (toyParse toyArgs = Ok toyConfig) as H by (by vm_compute).
  destruct (parsed_wellformed _ _ _ _ _ _ H) as (Hw & Hl & _). split; [exact Hw|]. apply Hl. right. by vm_compute.
Defined.

(** A file URL is unescaped twice: the URL of a file whose name has a percent
    sign names no file, and one that escapes the escape names another. *)
Example file_url_twice :
  fileURLToLocalPathStrict "file:///etc/100%25.pac" = None /\
  fileURLToLocalPathStrict "file:///etc/a%2541.pac" = Some "/etc/aA.pac".
Proof. by vm_compute. Qed.

End Witness.

End Cf.
