(* ===== verification/Intermediary.v ===== *)
(** * Intermediary: the headers a proxy forwards
    ([internal/proxy/intermediary.go] and [newOutboundRequest] of [proxy.go])

    The rules for hop-by-hop headers, the request sent on, the response sent
    back with its trailers, informational responses in between, and the answer
    to a protocol upgrade.  An [http.Header] is a finite map from keys to their
    values; [canonicalKey] is net/http's form of a key, which [net/http] gives
    to every key it reads.  Keys with no values cannot be told from absent ones
    after a copy. *)

From S2P Require Export Prelude GoStrings.

Module Im.

(** ** [net/http.Header] *)

(** The characters of a header name. *)
Definition token_char (c : ascii) : bool :=
  is_digit c || is_upper c || is_lower c || in_chars "!#$%&'*+-.^_`|~" c.

Definition cased (upper : bool) (c : ascii) : ascii := if upper then upper_char c else lower_char c.

Fixpoint canonFrom (upper : bool) (s : string) : string :=
  match s with
  | "" => ""
  | String c t => String (cased upper c) (canonFrom (Ascii.eqb c "-") t)
  end.

(** [CanonicalHeaderKey]: a text that is no header name stays as it is. *)
Definition canonicalKey (s : string) : string :=
  if str_forall token_char s then canonFrom true s else s.

Abbreviation Header := (gmap string (list string)).

Definition hValues (h : Header) (k : string) : list string := default [] (h !! canonicalKey k).
Definition hGet (h : Header) (k : string) : string := hd "" (hValues h k).
Definition hAdd (k v : string) (h : Header) : Header := <[canonicalKey k := hValues h k ++ [v]]> h.
Definition hSet (k v : string) (h : Header) : Header := <[canonicalKey k := [v]]> h.
Definition hDel (k : string) (h : Header) : Header := delete (canonicalKey k) h.
Definition hKeys (h : Header) : list string := (map_to_list h).*1.

(** ** Copies *)

Definition copyHeader (dst src : Header) : Header :=
  fold_left (fun d kv => fold_left (fun d v => hAdd (fst kv) v d) (snd kv) d) (map_to_list src) dst.
Definition cloneHeader (h : Header) : Header := copyHeader ∅ h.
Definition clearHeader (h : Header) : Header := fold_left (fun h k => hDel k h) (hKeys h) h.

(** ** Hop-by-hop headers *)

Definition pxgoVia : string := "1.1 pxgo".
Definition fixedHopByHopHeaders : list string :=
  ["Connection"; "Keep-Alive"; "Proxy-Connection"; "TE"; "Transfer-Encoding"; "Upgrade"].

Definition tokensOf (values : list string) : list string :=
  flat_map (fun value => map TrimSpace (Split value ",")) values.

Definition headerContainsToken (h : Header) (key want : string) : bool :=
  existsb (fun token => EqualFold token want) (tokensOf (hValues h key)).

(** What the last loop of [stripIntermediaryHeaders] deletes. *)
Definition proxyHeader (stripProxyAuth : bool) (key : string) : bool :=
  HasPrefix (ToLower key) "proxy-" && negb (negb stripProxyAuth && EqualFold key "Proxy-Authenticate").

Definition stripIntermediaryHeaders (h : Header) (stripProxyAuth : bool) : Header :=
  let named := bfilter (fun name => negb (String.eqb name "")) (tokensOf (hValues h "Connection")) in
  let h := fold_left (fun h name => hDel name h) named h in
  let h := fold_left (fun h name => hDel name h) fixedHopByHopHeaders h in
  fold_left (fun h key => if proxyHeader stripProxyAuth key then hDel key h else h) (hKeys h) h.

Definition appendVia (h : Header) : Header := hAdd "Via" pxgoVia h.

Definition requestedUpgrade (h : Header) : string :=
  if headerContainsToken h "Connection" "upgrade" then TrimSpace (hGet h "Upgrade") else "".

(** ** Requests *)

(** What [newOutboundRequest] changes of the clone of a request. *)
Record OutRequest := mkOut { oURL : string; oHost : string; oHeader : Header; oContentLength : Z }.

(** The header of the request sent on. *)
Definition outboundHeader (userAgent : string) (h : Header) (proxyAuth : string) : Header :=
  let upgrade := requestedUpgrade h in
  let out := stripIntermediaryHeaders (cloneHeader h) true in
  let out := if negb (String.eqb upgrade "") then hSet "Upgrade" upgrade (hSet "Connection" "Upgrade" out)
             else out in
  let out := appendVia out in
  let out := if negb (String.eqb userAgent "") then hSet "User-Agent" userAgent out else out in
  if negb (String.eqb proxyAuth "") then hSet "Proxy-Authorization" proxyAuth out else out.

(** [body]: no replayable body, or what its [Open] gives: [None] is its error,
    [Some size] a reader of that many bytes. *)
Definition newOutboundRequest (userAgent : string) (h : Header) (contentLength : Z) (url host : string)
  (body : option (option Z)) (proxyAuth : string) : option OutRequest :=
  match body with
  | Some None => None
  | Some (Some size) => Some (mkOut url host (outboundHeader userAgent h proxyAuth) size)
  | None => Some (mkOut url host (outboundHeader userAgent h proxyAuth) contentLength)
  end.

(** ** Responses *)

(** What goes to the client's connection: the status, the header sent before
    the body, and the [ResponseWriter]'s header after it, where the trailers are. *)
Record Written := mkWritten { wStatus : Z; wHeader : Header; wAfter : Header }.

(** [announced] are the trailer keys known before the body is read, [trailer]
    the trailers after it; [w] is the [ResponseWriter]'s header. *)
Definition writeHTTPResponse (auth : string) (w : Header) (status : Z) (h : Header)
  (announced trailer : Header) : Written :=
  let preserveParentChallenge := (status =? 407) && EqualFold (TrimSpace auth) "NONE" in
  let header := appendVia (stripIntermediaryHeaders (cloneHeader h) (negb preserveParentChallenge)) in
  let header := fold_left (fun header key =>
                  if headerContainsToken header "Trailer" key then header else hAdd "Trailer" key header)
                  (hKeys announced) header in
  let w := copyHeader w header in
  mkWritten status w
    (fold_left (fun w kv => fold_left (fun w v => hAdd (fst kv) v w) (snd kv) (hDel (fst kv) w))
       (map_to_list trailer) w).

(** The informational response sent, and the header the writer is left with. *)
Definition writeInformationalResponse (w : Header) (code : Z) (h : Header) : Written :=
  let saved := cloneHeader w in
  let sent := copyHeader (clearHeader w) (appendVia (stripIntermediaryHeaders (cloneHeader h) true)) in
  mkWritten code sent (copyHeader (clearHeader sent) saved).

(** [Got1xxResponse]: a protocol switch is not informational. *)
Definition informational (w : Header) (code : Z) (h : Header) : option Written :=
  if code =? 101 then None else Some (writeInformationalResponse w code h).

(** The header of the answer to an upgrade. *)
Definition upgradeHeader (h : Header) : Header :=
  let upgrade := TrimSpace (hGet h "Upgrade") in
  let header := hSet "Connection" "Upgrade" (stripIntermediaryHeaders (cloneHeader h) true) in
  let header := if negb (String.eqb upgrade "") then hSet "Upgrade" upgrade header else header in
  appendVia header.

(** ** Specification *)

(** The keys a server reads from the network. *)
Definition canonical (h : Header) : Prop := forall k, is_Some (h !! k) -> canonicalKey k = k.

(** [k] is for this connection only: fixed by the protocol, named in
    [Connection], or a proxy's own. *)
Definition hopByHop (h : Header) (stripProxyAuth : bool) (k : string) : bool :=
  existsb (fun name => String.eqb (canonicalKey name) k) fixedHopByHopHeaders ||
  existsb (fun name => negb (String.eqb name "") && String.eqb (canonicalKey name) k)
    (tokensOf (hValues h "Connection")) ||
  proxyHeader stripProxyAuth k.

(** The values of [k] that may pass. *)
Definition endToEnd (h : Header) (stripProxyAuth : bool) (k : string) : list string :=
  if hopByHop h stripProxyAuth k then [] else default [] (h !! k).

(** [h] has exactly the values [f k] for each key. *)
Definition carries (h : Header) (f : string -> list string) : Prop := forall k, default [] (h !! k) = f k.

(** ** Lemmas: keys *)

Lemma canon_char c (upper : bool) :
  let c' := cased upper c in
  token_char c' = token_char c /\ Ascii.eqb c' "-" = Ascii.eqb c "-" /\ cased upper c' = c'.
Proof.
  set (ok u c := Bool.eqb (token_char (cased u c)) (token_char c) &&
                 Bool.eqb (Ascii.eqb (cased u c) "-") (Ascii.eqb c "-") &&
                 Ascii.eqb (cased u (cased u c)) (cased u c)).
  assert (forall u, ok u c = true) as H.
  { intros u. revert c. apply (ascii_forall (ok u)). destruct u; by vm_compute. }
  specialize (H upper). apply andb_true_iff in H as [[H1 H2]%andb_true_iff H3].
  apply Bool.eqb_prop in H1, H2. apply Ascii.eqb_eq in H3. done.
Qed.

Lemma canonFrom_token upper s : str_forall token_char (canonFrom upper s) = str_forall token_char s.
Proof.
  revert upper. induction s as [|c s IH]; intros upper; [done|]. cbn [canonFrom str_forall].
  destruct (canon_char c upper) as (-> & _). by rewrite IH.
Qed.

Lemma canonFrom_idem upper s : canonFrom upper (canonFrom upper s) = canonFrom upper s.
Proof.
  revert upper. induction s as [|c s IH]; intros upper; [done|]. cbn [canonFrom].
  destruct (canon_char c upper) as (_ & -> & ->). by rewrite IH.
Qed.

Lemma canonicalKey_idem s : canonicalKey (canonicalKey s) = canonicalKey s.
Proof.
  unfold canonicalKey. destruct (str_forall token_char s) eqn:E; [|by rewrite E].
  by rewrite canonFrom_token, E, canonFrom_idem.
Qed.

(** ** Lemmas: the operations on keys *)

(** The values of [k]; a key without values counts as absent. *)
Definition vals (h : Header) (k : string) : list string := default [] (h !! k).

Lemma vals_add k v h j : vals (hAdd k v h) j = if decide (canonicalKey k = j) then vals h j ++ [v] else vals h j.
Proof. unfold vals, hAdd, hValues. case_decide as E; [subst; by rewrite lookup_insert_eq|by rewrite lookup_insert_ne]. Qed.

Lemma vals_set k v h j : vals (hSet k v h) j = if decide (canonicalKey k = j) then [v] else vals h j.
Proof. unfold vals, hSet. case_decide as E; [subst; by rewrite lookup_insert_eq|by rewrite lookup_insert_ne]. Qed.

Lemma vals_del k h j : vals (hDel k h) j = if decide (canonicalKey k = j) then [] else vals h j.
Proof. unfold vals, hDel. case_decide as E; [subst; by rewrite lookup_delete_eq|by rewrite lookup_delete_ne]. Qed.

Lemma canonical_add k v h : canonical h -> canonical (hAdd k v h).
Proof.
  intros Hc j. unfold hAdd. destruct (decide (canonicalKey k = j)) as [<-|Hne]; [by rewrite canonicalKey_idem|].
  rewrite lookup_insert_ne by done. apply Hc.
Qed.

Lemma canonical_del k h : canonical h -> canonical (hDel k h).
Proof.
  intros Hc j. unfold hDel. destruct (decide (canonicalKey k = j)) as [<-|Hne]; [by rewrite canonicalKey_idem|].
  rewrite lookup_delete_ne by done. apply Hc.
Qed.

Lemma canonical_empty : canonical ∅.
Proof. intros k. rewrite lookup_empty. by intros [? ?]. Qed.

Lemma hKeys_elem h k : k ∈ hKeys h <-> is_Some (h !! k).
Proof.
  unfold hKeys. rewrite list_elem_of_fmap. split.
  - intros ([k' v] & -> & H%elem_of_map_to_list). by eexists.
  - intros [v H]. exists (k, v). split; [done|]. by apply elem_of_map_to_list.
Qed.

(** ** Lemmas: copies *)

Lemma fold_add k vs h :
  (forall j, vals (fold_left (fun d v => hAdd k v d) vs h) j =
             if decide (canonicalKey k = j) then vals h j ++ vs else vals h j) /\
  (canonical h -> canonical (fold_left (fun d v => hAdd k v d) vs h)).
Proof.
  revert h. induction vs as [|v vs IH]; intros h; cbn [fold_left].
  - split; [|done]. intros j. case_decide; [by rewrite app_nil_r|done].
  - destruct (IH (hAdd k v h)) as [Hv Hc]. split; [|intros H; by apply Hc, canonical_add].
    intros j. rewrite Hv, vals_add. case_decide; [by rewrite <- app_assoc|done].
Qed.

Lemma fold_copy l dst :
  NoDup l.*1 -> (forall k vs, (k, vs) ∈ l -> canonicalKey k = k) ->
  let d := fold_left (fun d kv => fold_left (fun d v => hAdd (fst kv) v d) (snd kv) d) l dst in
  (forall j, vals d j = vals dst j ++ default [] ((list_to_map l : Header) !! j)) /\ (canonical dst -> canonical d).
Proof.
  revert dst. induction l as [|[k vs] l IH]; intros dst Hn Hk; cbn [fold_left fst snd].
  - split; [|done]. intros j. change (list_to_map _ : Header) with (∅ : Header). rewrite lookup_empty. by rewrite app_nil_r.
  - apply NoDup_cons in Hn as [Hnk Hn].
    destruct (IH (fold_left (fun d v => hAdd k v d) vs dst) Hn) as [Hv Hc].
    { intros k' vs' H. apply (Hk k' vs'). by right. }
    destruct (fold_add k vs dst) as [Hv' Hc']. split; [|auto]. intros j. rewrite Hv, Hv'.
    rewrite (Hk k vs) by (by left). change (list_to_map ((k, vs) :: l) : Header) with (<[k:=vs]> (list_to_map l) : Header).
    case_decide as E.
    + subst j. rewrite lookup_insert_eq. rewrite not_elem_of_list_to_map_1 by done. simpl. by rewrite app_nil_r.
    + by rewrite lookup_insert_ne.
Qed.

Lemma copy_spec dst src : canonical src ->
  (forall j, vals (copyHeader dst src) j = vals dst j ++ vals src j) /\
  (canonical dst -> canonical (copyHeader dst src)).
Proof.
  intros Hs. destruct (fold_copy (map_to_list src) dst) as [Hv Hc].
  - apply NoDup_fst_map_to_list.
  - intros k vs H%elem_of_map_to_list. apply Hs. by eexists.
  - split; [|done]. intros j. unfold copyHeader. rewrite Hv, list_to_map_to_list. done.
Qed.

Lemma clone_spec h : canonical h -> (forall j, vals (cloneHeader h) j = vals h j) /\ canonical (cloneHeader h).
Proof.
  intros Hh. destruct (copy_spec ∅ h Hh) as [Hv Hc]. split; [|by apply Hc, canonical_empty].
  intros j. unfold cloneHeader. rewrite Hv. unfold vals at 1. by rewrite lookup_empty.
Qed.

(** ** Lemmas: deletions *)

Lemma fold_del names h :
  (forall j, vals (fold_left (fun h name => hDel name h) names h) j =
             if existsb (fun name => String.eqb (canonicalKey name) j) names then [] else vals h j) /\
  (canonical h -> canonical (fold_left (fun h name => hDel name h) names h)).
Proof.
  revert h. induction names as [|n names IH]; intros h; cbn [fold_left existsb]; [done|].
  destruct (IH (hDel n h)) as [Hv Hc]. split; [|intros H; by apply Hc, canonical_del].
  intros j. rewrite Hv, vals_del. destruct (String.eqb_spec (canonicalKey n) j); [|by rewrite decide_False].
  rewrite decide_True by done. cbn. by case_match.
Qed.

Lemma fold_del_if (p : string -> bool) keys h :
  (forall k, k ∈ keys -> canonicalKey k = k) ->
  (forall j, vals (fold_left (fun h key => if p key then hDel key h else h) keys h) j =
             if p j && bool_decide (j ∈ keys) then [] else vals h j) /\
  (canonical h -> canonical (fold_left (fun h key => if p key then hDel key h else h) keys h)).
Proof.
  revert h. induction keys as [|k keys IH]; intros h Hk; cbn [fold_left].
  - split; [|done]. intros j. rewrite bool_decide_eq_false_2 by set_solver. by rewrite andb_false_r.
  - destruct (IH (if p k then hDel k h else h)) as [Hv Hc]; [intros; apply Hk; by right|].
    split; [|intros H; apply Hc; case_match; [by apply canonical_del|done]].
    intros j. rewrite Hv. destruct (decide (j = k)) as [->|Hne].
    + rewrite (bool_decide_eq_true_2 (k ∈ k :: keys)) by (by left). destruct (p k) eqn:Ep; [|done].
      simpl. case_match; [done|]. rewrite vals_del, Hk by (by left). by rewrite decide_True.
    + rewrite (bool_decide_iff (j ∈ k :: keys) (j ∈ keys)) by set_solver. destruct (p j && _); [done|].
      destruct (p k); [|done]. rewrite vals_del, Hk by (by left). by rewrite decide_False.
Qed.

Lemma clear_spec h : canonical h -> (forall j, vals (clearHeader h) j = []) /\ canonical (clearHeader h).
Proof.
  intros Hh. unfold clearHeader. destruct (fold_del (hKeys h) h) as [Hv Hc]. split; [|auto]. intros j. rewrite Hv.
  destruct (existsb _ _) eqn:E; [done|]. unfold vals. destruct (h !! j) as [vs|] eqn:Ej; [|done]. exfalso.
  assert (existsb (fun name => String.eqb (canonicalKey name) j) (hKeys h) = true); [|congruence].
  apply existsb_exists. exists j. split; [apply list_elem_of_In, hKeys_elem; by eexists|].
  apply String.eqb_eq, Hh. by eexists.
Qed.

Lemma existsb_bfilter {A} (p q : A -> bool) l : existsb p (bfilter q l) = existsb (fun x => q x && p x) l.
Proof. induction l as [|x l IH]; [done|]. simpl. destruct (q x); simpl; by rewrite IH. Qed.

Lemma strip_spec h b : canonical h ->
  (forall j, vals (stripIntermediaryHeaders h b) j = endToEnd h b j) /\ canonical (stripIntermediaryHeaders h b).
Proof.
  intros Hh. unfold stripIntermediaryHeaders.
  destruct (fold_del (bfilter (fun name => negb (String.eqb name "")) (tokensOf (hValues h "Connection"))) h) as [H1 C1].
  set (h1 := fold_left _ (bfilter _ _) h) in *.
  destruct (fold_del fixedHopByHopHeaders h1) as [H2 C2]. set (h2 := fold_left _ fixedHopByHopHeaders h1) in *.
  assert (canonical h2) as Ch2 by auto.
  destruct (fold_del_if (proxyHeader b) (hKeys h2) h2) as [H3 C3].
  { intros k Hk. by apply Ch2, hKeys_elem. }
  split; [|auto]. intros j. rewrite H3, H2, H1, existsb_bfilter. unfold endToEnd, hopByHop.
  rewrite <- orb_assoc. destruct (existsb _ fixedHopByHopHeaders) eqn:E2; [by repeat case_match|].
  destruct (existsb _ (tokensOf _)) eqn:E1; [by repeat case_match|]. simpl.
  destruct (proxyHeader b j); simpl; [|done]. case_match; [done|]. to_prop.
  assert (vals h2 j = []) as Hj.
  { unfold vals. destruct (h2 !! j) eqn:E; [|done]. exfalso. apply H. apply hKeys_elem. by eexists. }
  by rewrite H2, E2, H1, existsb_bfilter, E1 in Hj.
Qed.

Lemma via_spec h : canonical h ->
  (forall j, vals (appendVia h) j = vals h j ++ if String.eqb j "Via" then [pxgoVia] else []) /\ canonical (appendVia h).
Proof.
  intros Hh. unfold appendVia. split; [|by apply canonical_add]. intros j. rewrite vals_add.
  change (canonicalKey "Via") with "Via". destruct (String.eqb_spec j "Via") as [->|Hne]; [done|].
  rewrite decide_False by congruence. by rewrite app_nil_r.
Qed.

(** Stripping a clone and adding [Via], as every direction does. *)
Definition passed (h : Header) (b : bool) (k : string) : list string :=
  endToEnd h b k ++ if String.eqb k "Via" then [pxgoVia] else [].

Lemma endToEnd_clone h b k : canonical h -> endToEnd (cloneHeader h) b k = endToEnd h b k.
Proof.
  intros Hh. destruct (clone_spec h Hh) as [Hv _]. unfold endToEnd, hopByHop, hValues.
  change (default [] (cloneHeader h !! canonicalKey "Connection")) with (vals (cloneHeader h) (canonicalKey "Connection")).
  change (default [] (cloneHeader h !! k)) with (vals (cloneHeader h) k). by rewrite !Hv.
Qed.

Lemma stripped_clone h b : canonical h ->
  (forall k, vals (stripIntermediaryHeaders (cloneHeader h) b) k = endToEnd h b k) /\
  canonical (stripIntermediaryHeaders (cloneHeader h) b).
Proof.
  intros Hh. destruct (clone_spec h Hh) as [_ Hc]. destruct (strip_spec _ b Hc) as [Hs Hc'].
  split; [|done]. intros k. rewrite Hs. by apply endToEnd_clone.
Qed.

Lemma passed_spec h b : canonical h ->
  (forall k, vals (appendVia (stripIntermediaryHeaders (cloneHeader h) b)) k = passed h b k) /\
  canonical (appendVia (stripIntermediaryHeaders (cloneHeader h) b)).
Proof.
  intros Hh. destruct (stripped_clone h b Hh) as [Hs Hc]. destruct (via_spec _ Hc) as [Hv Hc'].
  split; [|done]. intros k. by rewrite Hv, Hs.
Qed.

(** ** Lemmas: trailers *)

Lemma EqualFold_refl s : EqualFold s s = true.
Proof. unfold EqualFold. apply String.eqb_refl. Qed.

Definition plainName (k : string) : Prop := no_char "," k = true /\ TrimSpace k = k.

Lemma contains_added h k want : headerContainsToken (hAdd "Trailer" k h) "Trailer" want =
  headerContainsToken h "Trailer" want || existsb (fun token => EqualFold token want) (tokensOf [k]).
Proof.
  unfold headerContainsToken, hValues at 1. change (default [] (hAdd "Trailer" k h !! canonicalKey "Trailer")) with
    (vals (hAdd "Trailer" k h) "Trailer"). rewrite vals_add, decide_True by done.
  unfold tokensOf. rewrite flat_map_app, existsb_app. done.
Qed.

Lemma contains_self k : plainName k -> existsb (fun token => EqualFold token k) (tokensOf [k]) = true.
Proof.
  intros [Hc Ht]. unfold tokensOf. simpl. rewrite Split_no_char by done. simpl. by rewrite Ht, EqualFold_refl.
Qed.

Lemma announce_spec keys h : Forall plainName keys ->
  let r := fold_left (fun header key =>
             if headerContainsToken header "Trailer" key then header else hAdd "Trailer" key header) keys h in
  (forall j, j <> "Trailer" -> vals r j = vals h j) /\
  (exists extra, vals r "Trailer" = vals h "Trailer" ++ extra /\ extra ⊆ keys) /\
  (forall want, headerContainsToken h "Trailer" want = true -> headerContainsToken r "Trailer" want = true) /\
  (forall k, k ∈ keys -> headerContainsToken r "Trailer" k = true) /\ (canonical h -> canonical r).
Proof.
  revert h. induction keys as [|k keys IH]; intros h Hk; cbn [fold_left].
  { split_and!; try done. exists []. by rewrite app_nil_r. by intros k ?%elem_of_nil. }
  apply Forall_cons in Hk as [Hk Hks].
  set (h' := if headerContainsToken h "Trailer" k then h else hAdd "Trailer" k h).
  destruct (IH h' Hks) as (H1 & (extra & H2 & He) & H3 & H4 & H5).
  assert (headerContainsToken h' "Trailer" k = true) as Hself.
  { subst h'. destruct (headerContainsToken h "Trailer" k) eqn:E; [done|]. by rewrite contains_added, contains_self, orb_true_r. }
  split_and!.
  - intros j Hj. rewrite H1 by done. subst h'. case_match; [done|]. rewrite vals_add. by rewrite decide_False by (change (canonicalKey "Trailer") with "Trailer"; congruence).
  - subst h'. destruct (headerContainsToken h "Trailer" k); [exists extra; split; [done|set_solver]|].
    exists (k :: extra). rewrite H2, vals_add, decide_True by done. rewrite <- app_assoc. split; [done|set_solver].
  - intros want Hw. apply H3. subst h'. case_match; [done|]. by rewrite contains_added, Hw.
  - intros j [->|Hj]%elem_of_cons; [by apply H3|by apply H4].
  - intros Hc. apply H5. subst h'. case_match; [done|by apply canonical_add].
Qed.

Lemma trailer_fold l w :
  NoDup l.*1 -> (forall k vs, (k, vs) ∈ l -> canonicalKey k = k) ->
  forall j, vals (fold_left (fun w kv => fold_left (fun w v => hAdd (fst kv) v w) (snd kv) (hDel (fst kv) w)) l w) j =
            match (list_to_map l : Header) !! j with Some vs => vs | None => vals w j end.
Proof.
  revert w. induction l as [|[k vs] l IH]; intros w Hn Hk j; cbn [fold_left fst snd].
  - change (list_to_map _ : Header) with (∅ : Header). by rewrite lookup_empty.
  - apply NoDup_cons in Hn as [Hnk Hn]. rewrite IH; [|done|intros k' vs' H; apply (Hk k' vs'); by right].
    destruct (fold_add k vs (hDel k w)) as [Hv _]. rewrite Hv, !vals_del, (Hk k vs) by (by left).
    change (list_to_map ((k, vs) :: l) : Header) with (<[k:=vs]> (list_to_map l) : Header).
    destruct (decide (k = j)) as [->|Hne].
    + rewrite lookup_insert_eq. by rewrite not_elem_of_list_to_map_1.
    + by rewrite lookup_insert_ne.
Qed.

(** ** Lemmas: the outbound header *)

Lemma vals_set_if (b : bool) k v h j :
  vals (if b then hSet k v h else h) j = if b && String.eqb (canonicalKey k) j then [v] else vals h j.
Proof.
  destruct b; [|done]. rewrite vals_set. simpl. by destruct (String.eqb_spec (canonicalKey k) j); case_decide.
Qed.

Lemma vals_via h j : vals (appendVia h) j = if String.eqb "Via" j then vals h j ++ [pxgoVia] else vals h j.
Proof.
  unfold appendVia. rewrite vals_add. change (canonicalKey "Via") with "Via".
  by destruct (String.eqb_spec "Via" j); case_decide.
Qed.

Lemma hop_fixed h k : k ∈ ["Connection"; "Upgrade"; "Proxy-Authorization"] -> endToEnd h true k = [].
Proof.
  intros Hk. unfold endToEnd. replace (hopByHop h true k) with true; [done|]. unfold hopByHop.
  apply list_elem_of_In in Hk as [<-|[<-|[<-|[]]]]; [done|done|by rewrite orb_true_r].
Qed.

Lemma outbound_spec userAgent h proxyAuth : canonical h ->
  forall k, vals (outboundHeader userAgent h proxyAuth) k =
    if String.eqb k "Proxy-Authorization" then if String.eqb proxyAuth "" then [] else [proxyAuth]
    else if String.eqb k "User-Agent" && negb (String.eqb userAgent "") then [userAgent]
    else if String.eqb k "Connection" then if String.eqb (requestedUpgrade h) "" then [] else ["Upgrade"]
    else if String.eqb k "Upgrade" then if String.eqb (requestedUpgrade h) "" then [] else [requestedUpgrade h]
    else if String.eqb k "Via" then endToEnd h true k ++ [pxgoVia]
    else endToEnd h true k.
Proof.
  intros Hh k. destruct (stripped_clone h true Hh) as [Hs _]. unfold outboundHeader. cbn zeta.
  set (h0 := stripIntermediaryHeaders _ _) in *. clearbody h0. generalize (requestedUpgrade h). intros up.
  rewrite !vals_set_if, vals_via.
  assert (vals (if negb (String.eqb up "") then hSet "Upgrade" up (hSet "Connection" "Upgrade" h0) else h0) k =
          if negb (String.eqb up "") && String.eqb "Upgrade" k then [up]
          else if negb (String.eqb up "") && String.eqb "Connection" k then ["Upgrade"] else endToEnd h true k) as ->.
  { destruct (negb _); [|apply Hs]. rewrite (vals_set_if true "Upgrade"), (vals_set_if true "Connection"), Hs. done. }
  change (canonicalKey "Proxy-Authorization") with "Proxy-Authorization".
  change (canonicalKey "User-Agent") with "User-Agent". rewrite !(String.eqb_sym _ k).
  pose proof (hop_fixed h k) as Hf. generalize dependent (endToEnd h true k). intros e Hf.
  destruct (String.eqb_spec k "Proxy-Authorization") as [->|_]; [|rewrite andb_false_r].
  { rewrite Hf by (repeat constructor). by destruct (String.eqb proxyAuth ""), (String.eqb userAgent ""), (String.eqb up ""). }
  destruct (String.eqb_spec k "User-Agent") as [->|_].
  { by destruct (String.eqb userAgent ""), (String.eqb up ""). }
  rewrite andb_false_r. simpl. destruct (String.eqb_spec k "Connection") as [->|_].
  { rewrite Hf by (repeat constructor). by destruct (String.eqb up ""). }
  destruct (String.eqb_spec k "Upgrade") as [->|_]; [rewrite Hf by (repeat constructor)|]; destruct (String.eqb up ""); done.
Qed.

(** ** Properties *)


(** A response comes back with the upstream's end-to-end headers, [Via], and
    nothing of that connection; only a 407 for a client that authenticates
    upstream itself keeps its [Proxy-Authenticate].  Every trailer key the
    upstream announced is announced, and the trailers that came are what the
    client gets.  An informational response is stripped in the same way and
    leaves the headers of the final response as they were; a protocol switch
    is not one. *)
Theorem response_headers_exact auth w status h announced trailer :
  canonical w -> canonical h -> canonical trailer -> Forall plainName (hKeys announced) ->
  let keep := (status =? 407) && EqualFold (TrimSpace auth) "NONE" in
  let r := writeHTTPResponse auth w status h announced trailer in
  wStatus r = status /\
  (forall k, k <> "Trailer" -> vals (wHeader r) k = vals w k ++ passed h (negb keep) k) /\
  (exists extra, vals (wHeader r) "Trailer" = vals w "Trailer" ++ passed h (negb keep) "Trailer" ++ extra /\
     extra ⊆ hKeys announced) /\
  (forall k, is_Some (announced !! k) -> headerContainsToken (wHeader r) "Trailer" k = true) /\
  (forall k, vals (wAfter r) k = match trailer !! k with Some vs => vs | None => vals (wHeader r) k end) /\
  (forall code h', canonical h' ->
     match informational w code h' with
     | None => code = 101
     | Some i => code <> 101 /\ wStatus i = code /\ carries (wHeader i) (passed h' true) /\ carries (wAfter i) (vals w)
     end).
Proof.
  intros Hw Hh Ht Ha keep r. destruct (passed_spec h (negb keep) Hh) as [Hp Hpc].
  destruct (announce_spec (hKeys announced) (appendVia (stripIntermediaryHeaders (cloneHeader h) (negb keep))) Ha)
    as (A1 & (extra & A2 & A3) & _ & A4 & A5).
  set (header := fold_left _ (hKeys announced) _) in *. specialize (A5 Hpc).
  destruct (copy_spec w header A5) as [Hc _].
  assert (wHeader r = copyHeader w header) as Er by done. rewrite Er. split_and!.
  - done.
  - intros k Hk. by rewrite Hc, A1, Hp.
  - exists extra. split; [|done]. by rewrite Hc, A2, Hp, app_assoc.
  - intros k Hk%hKeys_elem%A4. unfold headerContainsToken, hValues, tokensOf in *.
    change (default [] (copyHeader w header !! canonicalKey "Trailer")) with (vals (copyHeader w header) "Trailer").
    change (default [] (header !! canonicalKey "Trailer")) with (vals header "Trailer") in Hk.
    rewrite Hc, flat_map_app, existsb_app. by rewrite Hk, orb_true_r.
  - intros k. unfold r, writeHTTPResponse. cbn [wAfter]. fold header.
    rewrite trailer_fold; [by rewrite list_to_map_to_list|apply NoDup_fst_map_to_list|].
    intros k' vs H%elem_of_map_to_list. apply Ht. by eexists.
  - intros code h' Hh'. unfold informational. destruct (Z.eqb_spec code 101); [done|].
    destruct (passed_spec h' true Hh') as [Hq Hqc]. destruct (clear_spec w Hw) as [Hcl Hclc].
    destruct (copy_spec (clearHeader w) _ Hqc) as [Hs Hsc]. destruct (clear_spec _ (Hsc Hclc)) as [Hcl2 _].
    destruct (clone_spec w Hw) as [Hsv Hsvc]. destruct (copy_spec (clearHeader (copyHeader (clearHeader w)
      (appendVia (stripIntermediaryHeaders (cloneHeader h') true)))) _ Hsvc) as [Hf _].
    split_and!; [done|done|intros k|intros k].
    + change (vals (copyHeader (clearHeader w) (appendVia (stripIntermediaryHeaders (cloneHeader h') true))) k = passed h' true k).
      by rewrite Hs, Hcl, Hq.
    + cbn [wAfter writeInformationalResponse]. change (default [] (?x !! k)) with (vals x k). by rewrite Hf, Hcl2, Hsv.
Qed.

(** The answer to an upgrade names only the upgrade itself. *)
Theorem upgrade_headers_exact h : canonical h ->
  carries (upgradeHeader h) (fun k =>
    let upgrade := TrimSpace (hGet h "Upgrade") in
    if String.eqb k "Connection" then ["Upgrade"]
    else if String.eqb k "Upgrade" then if String.eqb upgrade "" then [] else [upgrade]
    else passed h true k).
Proof.
  intros Hh k. destruct (stripped_clone h true Hh) as [Hs _]. change (default [] (upgradeHeader h !! k)) with (vals (upgradeHeader h) k).
  unfold upgradeHeader. cbn zeta. set (h0 := stripIntermediaryHeaders _ _) in *. clearbody h0.
  generalize (TrimSpace (hGet h "Upgrade")). intros up. rewrite vals_via, vals_set_if, (vals_set_if true "Connection"), Hs.
  change (canonicalKey "Connection") with "Connection". change (canonicalKey "Upgrade") with "Upgrade".
  rewrite !(String.eqb_sym _ k). unfold passed. pose proof (hop_fixed h k) as Hf.
  generalize dependent (endToEnd h true k). intros e Hf.
  destruct (String.eqb_spec k "Connection") as [->|_]; [by rewrite andb_false_r|].
  destruct (String.eqb_spec k "Upgrade") as [->|_]; [rewrite Hf by (repeat constructor); by destruct (String.eqb up "")|].
  rewrite andb_false_r. simpl. destruct (String.eqb k "Via"); [done|by rewrite app_nil_r].
Qed.

(** ** Witnesses *)

Definition toyRequest : Header :=
  <["Host" := ["a.example"]]> (<["Connection" := ["keep-alive, X-Hop"]]> (<["X-Hop" := ["1"]]>
  (<["Proxy-Authorization" := ["Basic Zm9v"]]> (<["Accept" := ["*/*"]]> ∅)))).

Lemma toyRequest_canonical : canonical toyRequest.
Proof.
  intros k. unfold toyRequest. rewrite !lookup_insert_is_Some, lookup_empty.
  repeat (intros [<-|[_ H]]; [by vm_compute|revert H]). by intros [? ?].
Qed.


Lemma response_headers_exact_witness :
  wStatus (writeHTTPResponse "" ∅ 200 toyRequest ∅ ∅) = 200.
Proof.
  apply (response_headers_exact "" ∅ 200 toyRequest ∅ ∅ canonical_empty toyRequest_canonical canonical_empty).
  by vm_compute.
Defined.

Lemma upgrade_headers_exact_witness : carries (upgradeHeader toyRequest) (fun k =>
    if String.eqb k "Connection" then ["Upgrade"]
    else if String.eqb k "Upgrade" then if String.eqb (TrimSpace (hGet toyRequest "Upgrade")) "" then [] else [TrimSpace (hGet toyRequest "Upgrade")]
    else passed toyRequest true k).
Proof. apply (upgrade_headers_exact toyRequest toyRequest_canonical). Defined.

End Im.
