(* ===== verification/AuthSession.v ===== *)
(** * AuthSession: sessions of connection authentication
    ([internal/proxy/authsession.go], [kerberos_session.go],
    [kerberos_contract.go], [sspi_windows.go])

    A session answers the challenges of one connection: it hands out its first
    token, then answers to challenge tokens, and releases what it holds.  The
    interface is the class [AuthSession] with its laws; the SSPI session and
    the Kerberos session are its instances.  The security context of the
    operating system is a parameter: a state and what [Update] does to it. *)

From S2P Require Export Prelude GoStrings Base64 Utf8.
From S2P Require UpstreamAuth.
Import UpstreamAuth.Ua(authSchemeFromChallenge, isConnectionAuth).

Module Ses.

Inductive SessErr :=
| EClosed | EAlreadySent | ENoToken | ENotSent | EComplete | EMissingToken | EScheme (scheme : string)
| EDecode | EUpdate | ENoOutput | ERejected.
#[global] Instance SessErr_eq_dec : EqDecision SessErr.
Proof. solve_decision. Defined.

(** ** The interface *)

(** [Close] answers whether it went without an error. *)
Class AuthSession (S : Type) := {
  Negotiate : S -> result SessErr string * S;
  Authenticate : string -> S -> result SessErr string * S;
  Close : S -> bool * S;
  closed : S -> bool }.

(** What a session promises: it stays open until [Close], answers nothing
    after it, may be closed again, and hands out its first token once. *)
Class AuthSessionLaws (S : Type) `{AuthSession S} := {
  negotiate_open s : closed (Negotiate s).2 = closed s;
  authenticate_open c s : closed (Authenticate c s).2 = closed s;
  close_closes s : closed (Close s).2 = true;
  close_again s : closed s = true -> (Close s).2 = s;
  negotiate_closed s h : (Negotiate s).1 = Ok h -> closed s = false;
  authenticate_closed c s h : (Authenticate c s).1 = Ok h -> closed s = false;
  negotiate_once s h : (Negotiate s).1 = Ok h -> forall h', (Negotiate (Negotiate s).2).1 <> Ok h' }.

(** ** SSPI *)

Section Sspi.
(** The context: [None] is an error of [Update], else whether the exchange is
    complete and the token to send. *)
Context {C : Type} (Update : C -> bytes -> option (bool * bytes) * C).

Record sspiAuthSession := mkSspi {
  scheme : string; initialToken : bytes; initialSent : bool; complete : bool; sClosed : bool;
  ctx : C; ctxReleaseOk : bool; credReleaseOk : bool;
  releases : nat }.   (* how often context and credentials were released *)

Definition newManagedSSPISession (challengeScheme : string) (token : bytes) (c : C) (ctxOk credOk : bool)
  : sspiAuthSession :=
  mkSspi (if EqualFold challengeScheme "NTLM" then "NTLM" else "Negotiate") token false false false c ctxOk credOk 0.

Definition sspiNegotiate (s : sspiAuthSession) : result SessErr string * sspiAuthSession :=
  if sClosed s then (Err EClosed, s)
  else if initialSent s then (Err EAlreadySent, s)
  else if zlen (initialToken s) =? 0 then (Err ENoToken, s)
  else (Ok (scheme s +:+ " " +:+ b64_encode (initialToken s)),
        mkSspi (scheme s) (initialToken s) true (complete s) (sClosed s) (ctx s) (ctxReleaseOk s) (credReleaseOk s) (releases s)).

Definition sspiAuthenticate (challengeHeader : string) (s : sspiAuthSession) : result SessErr string * sspiAuthSession :=
  if sClosed s then (Err EClosed, s)
  else if negb (initialSent s) then (Err ENotSent, s)
  else if complete s then (Err EComplete, s)
  else match Cut (TrimSpace challengeHeader) " " with
       | None => (Err EMissingToken, s)
       | Some (sch, tokenStr) =>
           if String.eqb (TrimSpace tokenStr) "" then (Err EMissingToken, s)
           else if negb (EqualFold sch (scheme s)) then (Err (EScheme sch), s)
           else match b64_decode (TrimSpace tokenStr) with
                | None => (Err EDecode, s)
                | Some challenge =>
                    let '(r, c) := Update (ctx s) challenge in
                    let s' done := mkSspi (scheme s) (initialToken s) (initialSent s) done (sClosed s) c
                                     (ctxReleaseOk s) (credReleaseOk s) (releases s) in
                    match r with
                    | None => (Err EUpdate, s' (complete s))
                    | Some (completed, out) =>
                        if zlen out =? 0 then (Err ENoOutput, s' (complete s))
                        else (Ok (scheme s +:+ " " +:+ b64_encode out), s' completed)
                    end
                end
       end.

(** [closeOnce]: the releases happen once; their result is remembered. *)
Definition sspiClose (s : sspiAuthSession) : bool * sspiAuthSession :=
  let ok := ctxReleaseOk s && credReleaseOk s in
  if sClosed s then (ok, s)
  else (ok, mkSspi (scheme s) (initialToken s) (initialSent s) (complete s) true (ctx s) (ctxReleaseOk s)
              (credReleaseOk s) (S (releases s))).

#[global] Instance sspi_session : AuthSession sspiAuthSession :=
  { Negotiate := sspiNegotiate; Authenticate := sspiAuthenticate; Close := sspiClose; closed := sClosed }.

End Sspi.
Arguments sspiAuthSession : clear implicits.

(** ** Kerberos *)

Record kerberosAuthSession := mkKrb { token : bytes; sent : bool; kClosed : bool }.

(** [newKerberosAuthSession]: the manager is there and its token was made. *)
Definition newKerberosAuthSession (manager : bool) (tok : option bytes) : option kerberosAuthSession :=
  if manager then (fun t => mkKrb t false false) <$> tok else None.

Definition krbNegotiate (s : kerberosAuthSession) : result SessErr string * kerberosAuthSession :=
  if kClosed s then (Err EClosed, s)
  else if sent s then (Err EAlreadySent, s)
  else if zlen (token s) =? 0 then (Err ENoToken, s)
  else (Ok ("Negotiate " +:+ b64_encode (token s)), mkKrb (token s) true (kClosed s)).

(** The initial token is complete: a second challenge is a rejection. *)
Definition krbAuthenticate (challengeHeader : string) (s : kerberosAuthSession)
  : result SessErr string * kerberosAuthSession :=
  if kClosed s then (Err EClosed, s)
  else if negb (sent s) then (Err ENotSent, s)
  else if negb (EqualFold (authSchemeFromChallenge challengeHeader) "NEGOTIATE")
  then (Err (EScheme (authSchemeFromChallenge challengeHeader)), s)
  else (Err ERejected, s).

Definition krbClose (s : kerberosAuthSession) : bool * kerberosAuthSession :=
  if kClosed s then (true, s) else (true, mkKrb [] (sent s) true).

#[global] Instance kerberos_session : AuthSession kerberosAuthSession :=
  { Negotiate := krbNegotiate; Authenticate := krbAuthenticate; Close := krbClose; closed := kClosed }.

(** ** Which session a challenge starts *)

Definition isUnixKerberosCandidate (kerberos : bool) (goos challenge : string) : bool :=
  if negb kerberos || String.eqb goos "windows" then false
  else EqualFold (authSchemeFromChallenge challenge) "NEGOTIATE".

Definition isWindowsSSPICandidate (username password challenge : string) : bool :=
  if negb (String.eqb username "") || negb (String.eqb password "") then false
  else isConnectionAuth (authSchemeFromChallenge challenge).

Definition proxySPN (proxyHost : string) : string :=
  let host := TrimSuffix (TrimPrefix (TrimSpace proxyHost) "[") "]" in
  if String.eqb host "" then "" else "HTTP/" +:+ host.

(** [newSSPISession] acquires credentials and a context from the system, in
    this order: [acquire scheme] and [newContext target]. *)
Definition newSSPISession {C} (acquire : string -> bool) (newContext : option string -> option (C * bytes))
  (ctxOk credOk : bool) (challenge proxyHost : string) : option (sspiAuthSession C) :=
  let sch := authSchemeFromChallenge challenge in
  if EqualFold sch "NTLM" then
    if acquire "NTLM"
    then (fun ct => newManagedSSPISession "NTLM" ct.2 ct.1 ctxOk credOk) <$> newContext None
    else None
  else if EqualFold sch "NEGOTIATE" then
    let target := proxySPN proxyHost in
    if String.eqb target "" then None
    else if acquire "NEGOTIATE"
    then (fun ct => newManagedSSPISession "Negotiate" ct.2 ct.1 ctxOk credOk) <$> newContext (Some target)
    else None
  else None.

(** [ValidateProxyAuthFeature]: [true] is no error. *)
Definition ValidateProxyAuthFeature (enabled : bool) (goos : string) : bool :=
  if negb enabled then true
  else existsb (String.eqb (ToLower (TrimSpace goos))) ["linux"; "darwin"].

(** ** The laws *)

#[global] Instance sspi_laws {C} (Update : C -> bytes -> option (bool * bytes) * C) :
  @AuthSessionLaws (sspiAuthSession C) (sspi_session Update).
Proof.
  split; cbn [Negotiate Authenticate Close closed sspi_session].
  - intros s. unfold sspiNegotiate. by repeat case_match.
  - intros c s. unfold sspiAuthenticate. do 3 (case_match; [done|]). destruct (Cut _ _) as [[sch tok]|]; [|done].
    do 2 (case_match; [done|]). destruct (b64_decode _); [|done]. destruct (Update _ _) as [[[? ?]|] ?]; [|done]. by case_match.
  - intros s. unfold sspiClose. by destruct (sClosed s) eqn:E.
  - intros s Hs. unfold sspiClose. by rewrite Hs.
  - intros s h. unfold sspiNegotiate. by destruct (sClosed s).
  - intros c s h. unfold sspiAuthenticate. by destruct (sClosed s).
  - intros s h H h'. revert H. unfold sspiNegotiate. destruct (sClosed s) eqn:E; [done|].
    case_match; [done|]. by case_match.
Qed.

#[global] Instance kerberos_laws : AuthSessionLaws kerberosAuthSession.
Proof.
  split; cbn [Negotiate Authenticate Close closed kerberos_session].
  - intros s. unfold krbNegotiate. by repeat case_match.
  - intros c s. unfold krbAuthenticate. by repeat case_match.
  - intros s. unfold krbClose. by destruct (kClosed s) eqn:E.
  - intros s Hs. unfold krbClose. by rewrite Hs.
  - intros s h. unfold krbNegotiate. by destruct (kClosed s).
  - intros c s h. unfold krbAuthenticate. by destruct (kClosed s).
  - intros s h H h'. revert H. unfold krbNegotiate. destruct (kClosed s) eqn:E; [done|].
    case_match; [done|]. by case_match.
Qed.

(** ** Uses of a session *)

Inductive Call := CNegotiate | CAuthenticate (challenge : string) | CClose.
#[global] Instance Call_eq_dec : EqDecision Call.
Proof. solve_decision. Defined.

Section Uses.
Context {S} `{L : AuthSessionLaws S}.

(** One call, its header if it gave one, and the session after it. *)
Definition use (s : S) (c : Call) : option string * S :=
  match c with
  | CNegotiate => match Negotiate s with (Ok h, s') => (Some h, s') | (Err _, s') => (None, s') end
  | CAuthenticate ch => match Authenticate ch s with (Ok h, s') => (Some h, s') | (Err _, s') => (None, s') end
  | CClose => (None, (Close s).2)
  end.

Fixpoint uses (s : S) (cs : list Call) : list (option string) * S :=
  match cs with
  | [] => ([], s)
  | c :: cs' => let '(h, s1) := use s c in let '(hs, s2) := uses s1 cs' in (h :: hs, s2)
  end.

Lemma use_closed s c : closed (use s c).2 = closed s || bool_decide (c = CClose).
Proof.
  destruct c as [|ch|]; simpl.
  - pose proof (negotiate_open s). destruct (Negotiate s) as [[?|?] s']; simpl in *; by rewrite orb_false_r.
  - pose proof (authenticate_open ch s). destruct (Authenticate ch s) as [[?|?] s']; simpl in *; by rewrite orb_false_r.
  - by rewrite close_closes, orb_true_r.
Qed.

Lemma use_header s c h : (use s c).1 = Some h -> closed s = false /\ c <> CClose.
Proof.
  destruct c as [|ch|]; simpl; [| |done].
  - destruct (Negotiate s) as [[h'|?] s'] eqn:E; [|done]. intros _. split; [|done].
    apply (negotiate_closed s h'). by rewrite E.
  - destruct (Authenticate ch s) as [[h'|?] s'] eqn:E; [|done]. intros _. split; [|done].
    apply (authenticate_closed ch s h'). by rewrite E.
Qed.

(** A closed session gives no header, whatever is asked of it. *)
Lemma uses_silent cs s i h : closed s = true -> (uses s cs).1 !! i <> Some (Some h).
Proof.
  revert s i. induction cs as [|c cs IH]; intros s i Hs; [done|]. simpl.
  pose proof (use_closed s c) as Hc. pose proof (use_header s c) as Hh. destruct (use s c) as [o s1]. simpl in *.
  rewrite Hs in Hc. specialize (IH s1). destruct (uses s1 cs) as [hs s2]. destruct i as [|i]; simpl.
  - intros [= ->]. destruct (Hh h eq_refl). congruence.
  - apply (IH i). by rewrite Hc.
Qed.

End Uses.

End Ses.
