(* ===== verification/Connect.v ===== *)
(** * Connect: one CONNECT exchange with an upstream proxy
    ([sendUpstreamConnect*] of [internal/proxy/connect.go])

    The request, the answers 407 with their challenges, the session or the
    header that answers each, and the end of the exchange.  What the connection
    and the proxy do is the function [answer] of the number of requests written
    before; the list of [Effect]s says what the code did.  Sessions are used
    through [AuthSession], headers are those of [UpstreamAuth]. *)

From S2P Require Export Prelude GoStrings AuthSession.
From S2P Require Import NetAddr.
From S2P Require UpstreamAuth.
Import UpstreamAuth.Ua(Credentials, Auth, Username, Password, CopyEnd, drainUpstream407Body, ObserveHeader,
  ObserveMechanism, selectProxyAuthenticateChallenge, effectiveUpstreamAuth, upstreamProxyAuthHeader, sspiSessionAuth).
Import AuthSession.Ses.

Module Cn.

(** What became of a request written on the connection. *)
Inductive Answer :=
| WriteFailed
| ReadFailed
| Response (status : Z) (challenges : list string) (body : option CopyEnd).

Inductive Effect :=
| Wrote (auth : string)          (* a CONNECT request with this Proxy-Authorization, "" for none *)
| Drained
| Opened
| SessionClosed
| ReloadAsked.                   (* [onAuthFailure] *)

Inductive CErr :=
| EContinue (e : SessErr) | EWrite | ERead | EDrain | EStartKerberos | EStartSSPI | ECloseSession
| EStatus (code : Z) | ECtx.

Definition connectTarget (host : string) : string :=
  match SplitHostPort host with
  | Some _ => host
  | None => JoinHostPort (Trim host "[]") "443"
  end.

Section Connect.
Context {S} `{AuthSession S}.
(** MD5 and the messages of the ntlmssp package; the nonce count and the client
    nonce of the [n]-th header built. *)
Context (md5hex : string -> string) (NewNegotiateMessage : option (list Z))
  (NewAuthenticateMessage : list Z -> string -> string -> option (list Z)) (nc cnonce : nat -> string).
Context (cfg : Credentials) (target passthroughAuth : string).
(** Which challenges start a session, and what the factories make. *)
Context (kerberosCandidate sspiCandidate : string -> bool) (kerberosFactory : option S) (sspiFactory : string -> option S).
Context (answer : nat -> Answer).

(** The [n]-th header built, for the challenge. *)
Definition header (n : nat) (challenge : string) : string :=
  upstreamProxyAuthHeader md5hex NewNegotiateMessage NewAuthenticateMessage cfg "CONNECT" target challenge
    passthroughAuth (nc n) (cnonce n).

(** [sspiSessionAuth]. *)
Definition sessionAuth (challenge : string) (s : S) : result SessErr string * S :=
  if sspiSessionAuth challenge then Authenticate challenge s else Negotiate s.

(** [resp.Header.Get], replaced by the challenge selected, if any. *)
Definition nextChallenge (challenges : list string) : string :=
  let selected := selectProxyAuthenticateChallenge (effectiveUpstreamAuth cfg) challenges in
  if negb (String.eqb selected "") then selected else hd "" challenges.

(** What an attempt leaves: its error, the session, the headers built, the
    mechanism observed and the effects. *)
Record Exchange := mkExchange {
  xErr : option CErr; xSession : option S; xBuilt : nat; xMechanism : string; xEffects : list Effect }.

Definition failed (e : CErr) (s : option S) (built : nat) (mech : string) (effs : list Effect) : Exchange :=
  mkExchange (Some e) s built mech effs.
Definition after (effs : list Effect) (x : Exchange) : Exchange :=
  mkExchange (xErr x) (xSession x) (xBuilt x) (xMechanism x) (effs ++ xEffects x).

(** The end of an attempt that asks for nothing more. *)
Definition refused (status : Z) (s : option S) (built : nat) (mech : string) : Exchange :=
  if status / 100 =? 2 then mkExchange None s built mech []
  else failed (EStatus status) s built mech [ReloadAsked].

(** The session a challenge starts, when there is none. *)
Inductive Start := NoSession | Started (s : S) | StartFailed (e : CErr) (effs : list Effect).
Definition startSession (session : option S) (challenge : string) (mech : string) : Start * string :=
  match session with
  | Some s => (NoSession, mech)
  | None =>
      if kerberosCandidate challenge then
        (match kerberosFactory with
         | None => StartFailed EStartKerberos [ReloadAsked]
         | Some s => Started s
         end, ObserveMechanism "Kerberos" mech)
      else if sspiCandidate challenge then
        (match sspiFactory challenge with None => StartFailed EStartSSPI [] | Some s => Started s end, mech)
      else (NoSession, mech)
  end.

(** The close of a session this attempt created. *)
Definition closeCreated (x : Exchange) : Exchange :=
  match xSession x with
  | Some s =>
      let '(ok, s') := Close s in
      mkExchange (match xErr x with Some e => Some e | None => if ok : bool then None else Some ECloseSession end)
        (Some s') (xBuilt x) (xMechanism x) (xEffects x ++ [SessionClosed])
  | None => x
  end.

(** [sendUpstreamConnectAttemptObservedKerberos] with [left] = 3 - attempts;
    [n] requests were written before and [built] headers built. *)
Fixpoint attempt (left n built : nat) (challenge : string) (session : option S) (mech : string) : Exchange :=
  let mech := ObserveHeader challenge mech in
  let '(auth, session, built) :=
    match session with
    | Some s => let '(r, s') := sessionAuth challenge s in (r, Some s', built)
    | None => (Ok (header built challenge), None, Datatypes.S built)
    end in
  match auth with
  | Err e => failed (EContinue e) session built mech []
  | Ok auth =>
      let mech := if negb (String.eqb auth "") then ObserveHeader auth mech else mech in
      after [Wrote auth]
        (match answer n with
         | WriteFailed => failed EWrite session built mech []
         | ReadFailed => failed ERead session built mech []
         | Response status challenges body =>
             match left with
             | O => refused status session built mech
             | Datatypes.S left' =>
                 if status =? 407 then
                   let next := nextChallenge challenges in
                   if negb (drainUpstream407Body body) then failed EDrain session built mech [Drained]
                   else after [Drained]
                     (match startSession session next mech with
                      | (StartFailed e effs, mech) => failed e session built mech effs
                      | (Started s, mech) =>
                          after [Opened] (closeCreated (attempt left' (Datatypes.S n) built next (Some s) mech))
                      | (NoSession, mech) =>
                          match session with
                          | Some s => attempt left' (Datatypes.S n) built next (Some s) mech
                          | None =>
                              let probe := header built next in
                              let built := Datatypes.S built in
                              if negb (String.eqb probe "") then attempt left' (Datatypes.S n) built next None mech
                              else refused status None built mech
                          end
                      end)
                 else refused status session built mech
             end
         end)
  end.

(** [sendUpstreamConnectWithAuthObservedKerberos]: the whole exchange, the
    mechanism reported on success. *)
Definition sendUpstreamConnect (challenge : string) : Exchange * option string :=
  let x := attempt 3 0 0 challenge None "" in
  (x, match xErr x with None => Some (xMechanism x) | Some _ => None end).

(** [sendUpstreamConnectBounded]: a context done in the meantime takes precedence. *)
Definition sendUpstreamConnectBounded (ctxDone : bool) : option CErr :=
  if ctxDone then Some ECtx else xErr (sendUpstreamConnect "").1.

End Connect.

(** ** Specification *)

Definition isWrote (e : Effect) : bool := match e with Wrote _ => true | _ => false end.
Definition ofSession (e : Effect) : bool := match e with Opened | SessionClosed => true | _ => false end.
Definition writes (effs : list Effect) : nat := length (bfilter isWrote effs).

(** The answer to the last request that explains a result. *)
Definition lastWord (a : Answer) (err : option CErr) : Prop :=
  match err with
  | None => exists st ch b, a = Response st ch b /\ st / 100 = 2
  | Some (EStatus code) => exists ch b, a = Response code ch b /\ code / 100 <> 2
  | Some EWrite => a = WriteFailed
  | Some ERead => a = ReadFailed
  | Some _ => True
  end.

(** The requests from the [n]-th on: all but the last of [k + 1] were answered
    407, and the last explains the result. *)
Definition explained (answer : nat -> Answer) (n k : nat) (err : option CErr) : Prop :=
  (forall j, (j < k)%nat -> exists ch b, answer (n + j)%nat = Response 407 ch b) /\ lastWord (answer (n + k)%nat) err.

(** The errors that stand for an answer of the connection. *)
Definition fromAnswer (err : option CErr) : bool :=
  match err with None | Some (EStatus _) | Some EWrite | Some ERead => true | Some _ => false end.

Definition sound (answer : nat -> Answer) (left n : nat) (err : option CErr) (effs : list Effect) : Prop :=
  (writes effs <= Datatypes.S left)%nat /\
  (fromAnswer err = true -> exists k, (k <= left)%nat /\ writes effs = Datatypes.S k /\ explained answer n k err).

(** A session is opened at most once, and then closed once, last. *)
Definition paired (effs : list Effect) : Prop :=
  Forall (fun e => ofSession e = false) effs \/
  exists pre mid, effs = pre ++ [Opened] ++ mid ++ [SessionClosed] /\
    Forall (fun e => ofSession e = false) (pre ++ mid).

(** ** Lemmas *)

Lemma writes_app a b : writes (a ++ b) = (writes a + writes b)%nat.
Proof. unfold writes. by rewrite List.filter_app, length_app. Qed.

Lemma sound_here answer left n err effs : writes effs = 1%nat -> lastWord (answer n) err ->
  sound answer left n err effs.
Proof.
  intros Hw He. split; [lia|]. intros _. exists 0%nat. split_and!; [lia|done|].
  split; [by intros j ?%Nat.nlt_0_r|by rewrite Nat.add_0_r].
Qed.

Lemma sound_other answer left n err effs : (writes effs <= Datatypes.S left)%nat -> fromAnswer err = false ->
  sound answer left n err effs.
Proof. intros Hw He. split; [done|congruence]. Qed.

Lemma explained_next answer left n err effs pre ch b :
  sound answer left (Datatypes.S n) err effs -> answer n = Response 407 ch b -> writes pre = 1%nat ->
  sound answer (Datatypes.S left) n err (pre ++ effs).
Proof.
  intros [Hw Hs] Ha Hp. unfold sound. rewrite writes_app. split; [lia|].
  intros (k & Hk & Hn & Hj & He)%Hs. exists (Datatypes.S k). split_and!; [lia|lia|].
  rewrite Nat.add_succ_comm in He. split; [|done]. intros [|j] Hlt; [rewrite Nat.add_0_r; eauto|].
  rewrite <- Nat.add_succ_comm. apply Hj. lia.
Qed.

Section Proofs.
Context {S} `{L : AuthSessionLaws S}.
Context (md5hex : string -> string) (NewNegotiateMessage : option (list Z))
  (NewAuthenticateMessage : list Z -> string -> string -> option (list Z)) (nc cnonce : nat -> string).
Context (cfg : Credentials) (target passthroughAuth : string).
Context (kerberosCandidate sspiCandidate : string -> bool) (kerberosFactory : option S) (sspiFactory : string -> option S).
Context (answer : nat -> Answer).

#[local] Abbreviation attempt := (attempt md5hex NewNegotiateMessage NewAuthenticateMessage nc cnonce cfg target
  passthroughAuth kerberosCandidate sspiCandidate kerberosFactory sspiFactory answer).

Lemma sessionAuth_open ch s : closed (sessionAuth ch s).2 = closed s.
Proof. unfold sessionAuth. case_match; [apply authenticate_open|apply negotiate_open]. Qed.

Definition quiet (effs : list Effect) : Prop := Forall (fun e => ofSession e = false) effs.

Lemma refused_sound n status ch body (session : option S) built mech auth :
  answer n = Response status ch body ->
  let x := after [Wrote auth] (refused status session built mech) in
  xSession x = session /\ quiet (xEffects x) /\ forall left, sound answer left n (xErr x) (xEffects x).
Proof.
  intros Ha. unfold refused. destruct (Z.eqb_spec (status / 100) 2); simpl.
  all: split_and!; [done|by repeat constructor|intros left; apply sound_here; [done|rewrite Ha; simpl; eauto]].
Qed.

Lemma failed_sound n e effs (session : option S) built mech auth :
  lastWord (answer n) (Some e) -> quiet effs -> writes effs = 0%nat ->
  let x := after [Wrote auth] (failed e session built mech effs) in
  xSession x = session /\ quiet (xEffects x) /\ forall left, sound answer left n (xErr x) (xEffects x).
Proof.
  intros Hl Hq Hw. simpl. split_and!; [done|by constructor|]. intros left. apply sound_here; [|done].
  change (Wrote auth :: effs) with ([Wrote auth] ++ effs). by rewrite writes_app, Hw.
Qed.

(** With a session: it stays as open as it was, and nothing is opened or closed. *)
Lemma attempt_session left n built ch s mech : let x := attempt left n built ch (Some s) mech in
  (exists s', xSession x = Some s' /\ closed s' = closed s) /\
  quiet (xEffects x) /\ sound answer left n (xErr x) (xEffects x).
Proof.
  revert n ch s mech. induction left as [|left IH]; intros n ch s mech; cbn [Cn.attempt];
    pose proof (sessionAuth_open ch s) as Ho; destruct (sessionAuth ch s) as [[auth|e] s'] eqn:Es; simpl in Ho.
  2, 4: simpl; split_and!; [by exists s'|by constructor|apply sound_other; [unfold writes; simpl; lia|done]].
  all: generalize (if negb (String.eqb auth "") then ObserveHeader auth (ObserveHeader ch mech) else ObserveHeader ch mech);
    intros mech1; destruct (answer n) as [| |status challenges body] eqn:Ea.
  1, 2, 4, 5: match goal with |- context [failed ?e ?s ?b ?m []] =>
      destruct (failed_sound n e [] s b m auth) as (H1 & H2 & H3); [by rewrite Ea|by constructor|done|] end;
      split_and!; [by exists s'|done|apply H3].
  - destruct (refused_sound n status challenges body (Some s') built mech1 auth Ea) as (H1 & H2 & H3).
    split_and!; [by exists s'|done|apply H3].
  - destruct (Z.eqb_spec status 407) as [->|_].
    2: { destruct (refused_sound n status challenges body (Some s') built mech1 auth Ea) as (H1 & H2 & H3).
         split_and!; [by exists s'|done|apply H3]. }
    destruct (negb (drainUpstream407Body body)).
    { destruct (failed_sound n EDrain [Drained] (Some s') built mech1 auth) as (H1 & H2 & H3); [done|by repeat constructor|done|].
      split_and!; [by exists s'|done|apply H3]. }
    simpl. destruct (IH (Datatypes.S n) (nextChallenge cfg challenges) s' mech1) as ((s2 & Hs & Hc) & Hq & Hsd).
    split_and!; [exists s2; split; [done|by rewrite Hc]|by repeat constructor|].
    by apply (explained_next answer left n _ _ [Wrote auth; Drained] _ _ Hsd Ea).
Qed.

Lemma closeCreated_spec left n x s : xSession x = Some s -> quiet (xEffects x) ->
  sound answer left n (xErr x) (xEffects x) ->
  let y := closeCreated x in
  xEffects y = xEffects x ++ [SessionClosed] /\ (exists s', xSession y = Some s' /\ closed s' = true) /\
  sound answer left n (xErr y) (xEffects y).
Proof.
  intros Hs Hq [Hw Hx]. unfold closeCreated. rewrite Hs. pose proof (close_closes s) as Hc.
  destruct (Close s) as [ok s'] eqn:E. simpl in *. split_and!; [done|by exists s'|].
  assert (writes (xEffects x ++ [SessionClosed]) = writes (xEffects x)) as Hn by (rewrite writes_app; unfold writes; simpl; lia).
  unfold sound. rewrite Hn. split; [done|]. destruct (xErr x); [done|]. by destruct ok.
Qed.

Lemma quiet_paired effs : quiet effs -> paired effs.
Proof. by left. Qed.

Lemma paired_after pre effs : quiet pre -> paired effs -> paired (pre ++ effs).
Proof.
  intros Hp [Hq|(a & b & -> & Hq)]; [left; by apply Forall_app|]. right. exists (pre ++ a), b.
  split; [by rewrite <- !app_assoc|]. rewrite <- app_assoc. by apply Forall_app.
Qed.

(** Without a session one may be opened, and then it is closed at the end. *)
Lemma attempt_fresh left n built ch mech : let x := attempt left n built ch None mech in
  paired (xEffects x) /\ (forall s, xSession x = Some s -> closed s = true) /\
  sound answer left n (xErr x) (xEffects x).
Proof.
  revert n built ch mech. induction left as [|left IH]; intros n built ch mech; cbn [Cn.attempt];
    set (auth := header _ _ _ _ _ _ _ _ _ _);
    generalize (if negb (String.eqb auth "") then ObserveHeader auth (ObserveHeader ch mech) else ObserveHeader ch mech);
    intros mech1; destruct (answer n) as [| |status challenges body] eqn:Ea.
  1, 2, 4, 5: match goal with |- context [failed ?e ?s ?b ?m []] =>
      destruct (failed_sound n e [] s b m auth) as (H1 & H2 & H3); [by rewrite Ea|by constructor|done|] end;
      split_and!; [by apply quiet_paired|done|apply H3].
  - destruct (refused_sound n status challenges body None (Datatypes.S built) mech1 auth Ea) as (H1 & H2 & H3).
    split_and!; [by apply quiet_paired|by rewrite H1|apply H3].
  - destruct (Z.eqb_spec status 407) as [->|_].
    2: { destruct (refused_sound n status challenges body None (Datatypes.S built) mech1 auth Ea) as (H1 & H2 & H3).
         split_and!; [by apply quiet_paired|by rewrite H1|apply H3]. }
    destruct (negb (drainUpstream407Body body)).
    { destruct (failed_sound n EDrain [Drained] None (Datatypes.S built) mech1 auth) as (H1 & H2 & H3); [done|by repeat constructor|done|].
      split_and!; [by apply quiet_paired|done|apply H3]. }
    set (next := nextChallenge cfg challenges). unfold startSession.
    assert (forall e effs mech, lastWord (Response 407 challenges body) (Some e) -> quiet effs -> writes effs = 0%nat ->
      let x := after [Wrote auth] (after [Drained] (failed e None (Datatypes.S built) mech effs)) in
      paired (xEffects x) /\ (forall s, xSession x = Some s -> closed s = true) /\
      sound answer (Datatypes.S left) n (xErr x) (xEffects x)) as Hf.
    { intros e effs m He Hq Hw. destruct (failed_sound n e (Drained :: effs) None (Datatypes.S built) m auth) as (H1 & H2 & H3);
        [by rewrite Ea|by constructor|done|]. split_and!; [by apply quiet_paired|done|apply H3]. }
    assert (forall s m, let x := after [Wrote auth] (after [Drained] (after [Opened]
              (closeCreated (attempt left (Datatypes.S n) (Datatypes.S built) next (Some s) m)))) in
      paired (xEffects x) /\ (forall s, xSession x = Some s -> closed s = true) /\
      sound answer (Datatypes.S left) n (xErr x) (xEffects x)) as Hst.
    { intros s m. destruct (attempt_session left (Datatypes.S n) (Datatypes.S built) next s m) as ((s1 & Hs1 & _) & Hq & Hsd).
      destruct (closeCreated_spec _ _ _ _ Hs1 Hq Hsd) as (He & (s2 & Hs2 & Hc2) & Hsd2).
      simpl. rewrite Hs2. split_and!; [|by intros ? [= <-]|].
      - right. exists [Wrote auth; Drained], (xEffects (attempt left (Datatypes.S n) (Datatypes.S built) next (Some s) m)).
        rewrite He. split; [done|]. by repeat constructor.
      - by apply (explained_next answer left n _ _ [Wrote auth; Drained; Opened] _ _ Hsd2 Ea). }
    destruct (kerberosCandidate next); [destruct kerberosFactory; [apply Hst|eapply Hf; [done|by repeat constructor|done]]|].
    destruct (sspiCandidate next); [destruct (sspiFactory next); [apply Hst|eapply Hf; [done|by repeat constructor|done]]|].
    destruct (negb (String.eqb (header _ _ _ _ _ _ _ _ _ next) "")); [|exact (Hf (EStatus 407) [ReloadAsked] mech1 ltac:(by exists challenges, body) ltac:(by repeat constructor) eq_refl)].
    destruct (IH (Datatypes.S n) (Datatypes.S (Datatypes.S built)) next mech1) as (Hp & Hs & Hsd). simpl. split_and!; [|done|].
    + apply (paired_after [Wrote auth; Drained]); [by repeat constructor|done].
    + by apply (explained_next answer left n _ _ [Wrote auth; Drained] _ _ Hsd Ea).
Qed.

(** ** Properties *)

(** C31: A CONNECT exchange negotiates at most three times and cleans up.  It writes
    at most four requests, on the one connection; the first carries no
    credentials of the configuration, only the client's own header when
    authentication is off.  At most one session is started; it is closed once,
    after everything else, however the exchange ends, and left closed.  The
    tunnel stands exactly if all answers were 407 up to a last one of success,
    a refusal is reported with the status of the last answer, and the mechanism
    is reported only on success. *)
Theorem connect_exchange_sound :
  let '(x, reported) := sendUpstreamConnect md5hex NewNegotiateMessage NewAuthenticateMessage nc cnonce cfg target
    passthroughAuth kerberosCandidate sspiCandidate kerberosFactory sspiFactory answer "" in
  (writes (xEffects x) <= 4)%nat /\
  head (xEffects x) = Some (Wrote (if (length (UpstreamAuth.Ua.upstreamAuthModes (effectiveUpstreamAuth cfg)) =? 0)%nat
                                   then passthroughAuth else "")) /\
  paired (xEffects x) /\ (forall s, xSession x = Some s -> closed s = true) /\
  (fromAnswer (xErr x) = true ->
     exists k, (k <= 3)%nat /\ writes (xEffects x) = Datatypes.S k /\ explained answer 0 k (xErr x)) /\
  (reported <> None <-> xErr x = None).
Proof.
  unfold sendUpstreamConnect. destruct (attempt_fresh 3 0 0 "" "") as (Hp & Hs & Hw & He).
  split_and!; [done| |done|done|done|by destruct (xErr _)].
  cbn [Cn.attempt after xEffects]. unfold header, upstreamProxyAuthHeader. cbn [app head].
  destruct (length _ =? 0)%nat; [done|]. by case_match.
Qed.

End Proofs.

(** ** Witnesses *)

Definition toyCreds : Credentials := UpstreamAuth.Ua.mkCreds "" "u" "p".
Definition toyUpdate (c : unit) (challenge : list Z) : option (bool * list Z) * unit := (Some (true, [7]), tt).
#[local] Instance toySession : AuthSession (sspiAuthSession unit) := sspi_session toyUpdate.
#[local] Instance toySessionLaws : AuthSessionLaws (sspiAuthSession unit) := sspi_laws toyUpdate.

Definition digestOffer : string :=
  "Digest realm=" +:+ UpstreamAuth.Ua.q "r" +:+ ", nonce=" +:+ UpstreamAuth.Ua.q "n" +:+ ", qop=" +:+ UpstreamAuth.Ua.q "auth".
Definition counts (n : nat) : string := nth n ["00000000"; "00000001"; "00000002"] "".

(** A proxy without credentials that offers NTLM, and a session for it. *)
Definition ntlmAnswer (n : nat) : Answer :=
  nth n [Response 407 ["NTLM"] None; Response 407 ["NTLM Bw=="] (Some UpstreamAuth.Ua.CopyEOF)] (Response 200 [] None).

Lemma connect_exchange_sound_witness :
  let '(x, reported) := sendUpstreamConnect (fun s => s) None (fun _ _ _ => None) counts counts
    (UpstreamAuth.Ua.mkCreds "" "" "") "a.example:443" "" (fun _ => false) (isWindowsSSPICandidate "" "")
    None (fun ch => newSSPISession (fun _ => true) (fun _ => Some (tt, [1])) true true ch "proxy") ntlmAnswer "" in
  xEffects x = [Wrote ""; Drained; Opened; Wrote "NTLM AQ=="; Drained; Wrote "NTLM Bw=="; SessionClosed] /\
  reported = Some "NTLM" /\ (writes (xEffects x) <= 4)%nat.
Proof.
  pose proof (connect_exchange_sound (fun s => s) None (fun _ _ _ => None) counts counts
    (UpstreamAuth.Ua.mkCreds "" "" "") "a.example:443" "" (fun _ => false) (isWindowsSSPICandidate "" "")
    None (fun ch => newSSPISession (fun _ => true) (fun _ => Some (tt, [1])) true true ch "proxy") ntlmAnswer) as H.
  destruct (sendUpstreamConnect _ _ _ _ _ _ _ _ _ _ _ _ _ _) as [x reported] eqn:E.
  assert (xEffects x = [Wrote ""; Drained; Opened; Wrote "NTLM AQ=="; Drained; Wrote "NTLM Bw=="; SessionClosed] /\
          reported = Some "NTLM") as [H1 H2] by (by vm_compute in E; injection E as <- <-).
  split_and!; [done|done|apply H].
Defined.

(** The first Digest header under a nonce is built twice and only the second is
    sent, so the first count the proxy sees is 00000002. *)
Example connect_skips_first_count :
  let x := (sendUpstreamConnect (S := sspiAuthSession unit) (fun s => s) None (fun _ _ _ => None) counts counts toyCreds "a.example:443" ""
    (fun _ => false) (fun _ => false) None (fun _ => None)
    (fun n => match n with O => Response 407 [digestOffer] None | _ => Response 200 [] None end) "").1 in
  xBuilt x = 3%nat /\
  match xEffects x with
  | [Wrote first; Drained; Wrote second] => first = "" /\ Contains second "nc=00000002" = true
  | _ => False
  end.
Proof. by vm_compute. Qed.

End Cn.
