(* ===== verification/Forward.v ===== *)
(** * Forward: plain HTTP requests through the candidates of a URL
    ([roundTripHTTPWithProxyFallback] and [needsReplayableBody] of
    [internal/proxy/proxy.go], [retryHTTPProxyAuth*] of [auth_upstream.go],
    the transport keys of [transport.go])

    What the network, the body, the cache of transports and the other requests
    do is an environment of answers, numbered in the order they are asked for;
    what the code does is a list of [Effect]s.  A transport kept for
    authentication has a lock and, under it, the flag [authenticated]: the flag
    is what the environment says when the lock is taken and what the code wrote
    last while it is held. *)

From S2P Require Export Prelude GoStrings AuthSession ProxyRuntime.
From S2P Require Import NetAddr.
From S2P Require UpstreamAuth Wproxy Supervisor.
Import UpstreamAuth.Ua(Credentials, Auth, Username, Password, CopyEnd, drainUpstream407Body, ObserveHeader,
  ObserveMechanism, selectProxyAuthenticateChallenge, findProxyAuthenticateChallenge, effectiveUpstreamAuth,
  upstreamProxyAuthHeader, upstreamAuthModes, hasConnectionAuthMode, isConnectionAuth, authSchemeFromChallenge,
  sspiSessionAuth, recordSuccessfulAuthMechanism).
Import Wproxy.Wp(Server, sHost, sPort, sScheme, Direct, Server_eq_dec).
Import AuthSession.Ses ProxyRuntime.Prt.
Import Supervisor.Sup(OutcomeKind, Candidate).

Module Fw.

(** ** Transports *)

Definition proxyTransportRouteKey (p : Server) : string :=
  if decide (p = Direct) then "direct"
  else ToLower (TrimSpace (proxyScheme p)) +:+ "://" +:+ JoinHostPort (ToLower (TrimSpace (sHost p))) (Itoa (sPort p)).

Definition connectionAuthTransportKey (p : Server) (identity scheme : string) : string :=
  "auth|" +:+ ToUpper (TrimSpace scheme) +:+ "|" +:+ identity +:+ "|" +:+ proxyTransportRouteKey p.

(** The entry of the first mode that has one. *)
Definition cachedConnectionAuthTransport {E} (get : string -> option E) (c : Credentials) (p : Server) (identity : string)
  : option E :=
  if String.eqb identity "" then None
  else head (omap (fun scheme => if isConnectionAuth scheme then get (connectionAuthTransportKey p identity scheme) else None)
               (upstreamAuthModes (effectiveUpstreamAuth c))).

Definition NUL : string := String (chr 0) "".

(** [mac] is the keyed hash, in hexadecimal. *)
Definition upstreamConnectionAuthIdentity (mac : string -> string) (goos : string) (c : Credentials) : string :=
  if negb (hasConnectionAuthMode (effectiveUpstreamAuth c)) then ""
  else if negb (String.eqb (Username c) "") && negb (String.eqb (Password c) "") then
    "explicit:" +:+ mac ("explicit" +:+ NUL +:+ Username c +:+ NUL +:+ Password c +:+ NUL +:+
                         ToUpper (TrimSpace (effectiveUpstreamAuth c)))
  else if negb (String.eqb (Username c) "") || negb (String.eqb (Password c) "") then ""
  else if String.eqb goos "windows" then "sspi:current-user" else "".

(** Whether the body must be kept for another attempt. *)
Definition needsReplayableBody (goos : string) (c : Credentials) (hasBody passthrough : bool) (candidates : list Server) : bool :=
  if negb hasBody then false
  else match candidates with
       | [] => false
       | [p] =>
           if decide (p = Direct) then false
           else if passthrough then true
           else if (length (upstreamAuthModes (Auth c)) =? 0)%nat then false
           else if negb (String.eqb (Username c) "") && negb (String.eqb (Password c) "") then true
           else String.eqb goos "windows"
       | _ => true
       end.

(** ** Effects and answers *)

Record Entry := mkEntry { eId : nat; eScheme : string }.
Inductive Transport := Base | Pooled (id : nat) | Pinned.

Record Reply := mkReply { status : Z; challenges : list string; body : option CopyEnd }.

Inductive FErr :=
| ERoundTrip (e : GoError) | EDrainBody | EOpenBody | ESession (e : SessErr) | EStart | ECloseSession | ECanceled
| ENoCandidates.

Inductive Effect :=
| FLock (id : nat) | FUnlock (id : nat)
| FMark (id : nat) (authenticated : bool)
| FRemove (id : nat)
| FPin | FPinClosed
| FRoundTrip (t : Transport) (auth : string) (answered : bool)
| FDrain | FCloseBody
| FOpened | FSessionClosed
| FReload
| FMechanism (mechanism : string)
| FRecord (kind : OutcomeKind) (p : Server) | FRecover (kind : OutcomeKind) (p : Server).

(** What one candidate meets: the pooled transport cached for it, the answer to the [n]-th request sent, whether
    the body opens for the [n]-th request, the [n]-th pooled transport
    obtained, and the flag seen at the [n]-th lock. *)
Record Env := mkEnv {
  cached : option Entry;
  respond : nat -> result GoError Reply;
  opens : nat -> bool;
  pool : nat -> nat;
  seen : nat -> bool;
  cancelled : nat -> bool }.   (* the request's context, after the [n]-th request *)

Section Forward.
Context {S} `{AuthSession S}.
Context (md5hex : string -> string) (NewNegotiateMessage : option (list Z))
  (NewAuthenticateMessage : list Z -> string -> string -> option (list Z)) (nc cnonce : nat -> string).
Context (cfg : Credentials) (method targetURL passthroughAuth : string).
Context (kerberosCandidate sspiCandidate : string -> bool) (kerberosFactory : option S) (sspiFactory : string -> option S).
(** A Kerberos manager exists; the body of the request was streamed. *)
Context (krb streamed : bool).

(** The state of one retry: the lock held, the pooled transport in use, the
    transport, whether a pinned one was made, the session, what was observed,
    and how many of each answer were used. *)
Record St := mkSt {
  locked : option Entry; active : option Entry; transport : Transport; pinned : bool;
  session : option S; mech : string; attempted : bool;
  sentN : nat; openN : nat; poolN : nat; lockN : nat; builtN : nat; effects : list Effect }.

Definition emit (es : list Effect) (s : St) : St :=
  mkSt (locked s) (active s) (transport s) (pinned s) (session s) (mech s) (attempted s)
    (sentN s) (openN s) (poolN s) (lockN s) (builtN s) (effects s ++ es).
Definition set_locked (l : option Entry) (n : nat) (s : St) : St :=
  mkSt l (active s) (transport s) (pinned s) (session s) (mech s) (attempted s)
    (sentN s) (openN s) (poolN s) n (builtN s) (effects s).
Definition set_active (a : option Entry) (t : Transport) (s : St) : St :=
  mkSt (locked s) a t (pinned s) (session s) (mech s) (attempted s)
    (sentN s) (openN s) (poolN s) (lockN s) (builtN s) (effects s).
Definition set_pinned (s : St) : St :=
  mkSt (locked s) (active s) Pinned true (session s) (mech s) (attempted s)
    (sentN s) (openN s) (poolN s) (lockN s) (builtN s) (effects s).
Definition set_session (o : option S) (s : St) : St :=
  mkSt (locked s) (active s) (transport s) (pinned s) o (mech s) (attempted s)
    (sentN s) (openN s) (poolN s) (lockN s) (builtN s) (effects s).
Definition observe (m : string) (a : bool) (s : St) : St :=
  mkSt (locked s) (active s) (transport s) (pinned s) (session s) m a
    (sentN s) (openN s) (poolN s) (lockN s) (builtN s) (effects s).
Definition count (sent open pools built : nat) (s : St) : St :=
  mkSt (locked s) (active s) (transport s) (pinned s) (session s) (mech s) (attempted s)
    (sentN s + sent) (openN s + open) (poolN s + pools) (lockN s) (builtN s + built) (effects s).

Definition sameEntry (a b : option Entry) : bool :=
  match a, b with
  | None, None => true
  | Some x, Some y => (eId x =? eId y)%nat
  | _, _ => false
  end.

(** [lockPooled]: at most one entry is locked at a time. *)
Definition lockPooled (e : option Entry) (s : St) : St :=
  if sameEntry (locked s) e then s
  else
    let s := match locked s with Some x => emit [FUnlock (eId x)] s | None => s end in
    match e with
    | Some y => emit [FLock (eId y)] (set_locked e (Datatypes.S (lockN s)) s)
    | None => set_locked None (lockN s) s
    end.

Definition removePooled (s : St) : St :=
  match active s with Some e => emit [FRemove (eId e)] s | None => s end.
Definition closeEphemeral (s : St) : St := if pinned s then emit [FPinClosed] s else s.

Definition reloadFor (r : Reply) (s : St) : St :=
  if krb && (status r =? 407) && negb (String.eqb (findProxyAuthenticateChallenge (challenges r) "NEGOTIATE") "")
  then emit [FReload] s else s.

(** What the function returns: the response, the error, and whether the
    response's body closes the pinned transport. *)
Record Return := mkReturn { retResp : option Reply; retErr : option FErr; wraps : bool }.
Definition Verdict : Type := (Return + Reply) * St.   (* inr: go on with this response *)

Definition giveUp (e : FErr) (s : St) : Verdict := (inl (mkReturn None (Some e) false), s).
Definition finish (r : Reply) (s : St) : Verdict := (inl (mkReturn (Some r) None (pinned s)), s).
Definition failAuth (e : FErr) (s : St) : Verdict :=
  giveUp e (closeEphemeral (removePooled (emit [FCloseBody] s))).

Section Retry.
Context (env : Env) (identity : string) (candidate : Server).

Definition headerFor (n : nat) (challenge : string) : string :=
  upstreamProxyAuthHeader md5hex NewNegotiateMessage NewAuthenticateMessage cfg method targetURL challenge
    passthroughAuth (nc n) (cnonce n).

(** [newOutboundRequest], then [RoundTrip]; [clean] is what the code does when
    the body cannot be opened. *)
Definition send (auth : string) (clean : St -> St) (fails : St -> St) (s : St) : (option FErr * option Reply) * St :=
  let ok := opens env (openN s) in
  let s := count 0 1 0 0 s in
  if negb ok then ((Some EOpenBody, None), clean s)
  else
    let answer := respond env (sentN s) in
    let s := count 1 0 0 0 s in
    match answer with
    | Err e => ((Some (ERoundTrip e), None), fails (emit [FRoundTrip (transport s) auth false] s))
    | Ok r => ((None, Some r), emit [FRoundTrip (transport s) auth true] s)
    end.

(** The transport for a connection-oriented scheme: [inr] goes on with the
    handshake, [inl] ends this round. *)
Definition chooseTransport (scheme : string) (r : Reply) (s : St) : Verdict + St :=
  let s := match active s with
           | Some e => if negb (EqualFold (eScheme e) scheme)
                       then set_active None (transport s) (lockPooled None (removePooled s)) else s
           | None => s
           end in
  match active s with
  | Some e => inr (set_active (active s) (Pooled (eId e)) s)
  | None =>
      if negb (String.eqb identity "") && negb (bool_decide (candidate = Direct)) then
        let e := mkEntry (pool env (poolN s)) (ToUpper (TrimSpace scheme)) in
        let authenticated := seen env (lockN s) in
        let s := set_active (Some e) (Pooled (eId e)) (lockPooled (Some e) (count 0 0 1 0 s)) in
        if authenticated then
          let s := emit [FDrain] s in
          if negb (drainUpstream407Body (body r)) then inl (giveUp EDrainBody (removePooled s))
          else match send "" (fun s => s) removePooled s with
               | ((Some e, _), s) => inl (giveUp e s)
               | ((None, None), s) => inl (giveUp EOpenBody s)
               | ((None, Some r'), s) =>
                   if negb (status r' =? 407) then inl (inl (mkReturn (Some r') None false), s)
                   else inl (inr r', emit [FMark (eId e) false] s)
               end
        else inr s
      else if negb (pinned s) then inr (emit [FPin] (set_pinned s))
      else inr s
  end.

(** [startUpstreamAuthSession]: the header of a new session, or none started. *)
Definition startSession (challenge : string) (r : Reply) (s : St) : option (result FErr string) * St :=
  let begin (x : S) (s : St) :=
    let '(h, x') := Negotiate x in
    (Some (match h with Ok h => Ok h | Err e => Err (ESession e) end), set_session (Some x') (emit [FOpened] s)) in
  if kerberosCandidate challenge then
    let s := observe (ObserveMechanism "Kerberos" (mech s)) (attempted s) s in
    match kerberosFactory with
    | None => (Some (Err EStart), reloadFor r s)
    | Some x => begin x s
    end
  else if sspiCandidate challenge then
    match sspiFactory challenge with
    | None => (Some (Err EStart), s)
    | Some x => begin x s
    end
  else (None, s).

(** The header that answers a challenge. *)
Definition answerChallenge (challenge : string) (r : Reply) (s : St) : result FErr string * St :=
  match session s with
  | Some x =>
      let '(h, x') := if sspiSessionAuth challenge then Authenticate challenge x else Negotiate x in
      (match h with Ok h => Ok h | Err e => Err (ESession e) end, set_session (Some x') s)
  | None =>
      match startSession challenge r s with
      | (Some h, s) => (h, s)
      | (None, s) => (Ok (headerFor (builtN s) challenge), count 0 0 0 1 s)
      end
  end.

Definition markActive (r : Reply) (s : St) : St :=
  match active s with Some e => emit [FMark (eId e) (negb (status r =? 407))] s | None => s end.

(** One round of the loop, for a 407. *)
Definition round (r : Reply) (s : St) : Verdict :=
  let challenge := selectProxyAuthenticateChallenge (effectiveUpstreamAuth cfg) (challenges r) in
  let s := observe (ObserveHeader challenge (mech s)) (attempted s) s in
  let scheme := authSchemeFromChallenge challenge in
  match (if isConnectionAuth scheme then chooseTransport scheme r s else inr s) with
  | inl v => v
  | inr s =>
      match answerChallenge challenge r s with
      | (Err e, s) => failAuth e s
      | (Ok auth, s) =>
          if String.eqb auth "" then finish r (removePooled (reloadFor r s))
          else
            let s := emit [FDrain] (observe (ObserveHeader auth (mech s)) true s) in
            if negb (drainUpstream407Body (body r)) then giveUp EDrainBody (closeEphemeral (removePooled s))
            else
              let clean s := closeEphemeral (removePooled s) in
              match send auth clean clean s with
              | ((Some e, _), s) => giveUp e s
              | ((None, None), s) => giveUp EOpenBody s
              | ((None, Some r'), s) => (inr r', markActive r' s)
              end
      end
  end.

Fixpoint rounds (left : nat) (r : Reply) (s : St) : Return * St :=
  let stop :=
    let s := reloadFor r s in
    let s := if status r =? 407 then removePooled s else s in
    (mkReturn (Some r) None (pinned s), s) in
  match left with
  | O => stop
  | Datatypes.S left' =>
      if negb (status r =? 407) then stop
      else match round r s with
           | (inl ret, s) => (ret, s)
           | (inr r', s) => rounds left' r' s
           end
  end.

(** The deferred function. *)
Definition cleanUp (ret : Return) (s : St) : Return * St :=
  let s := lockPooled None s in
  let '(ret, s) :=
    match session s with
    | None => (ret, s)
    | Some x =>
        let '(ok, x') := Close x in
        let s := emit [FSessionClosed] (set_session (Some x') s) in
        match ok, retErr ret with
        | false, None =>
            let s := match retResp ret with Some _ => emit [FCloseBody] s | None => s end in
            (mkReturn None (Some ECloseSession) false, closeEphemeral (removePooled s))
        | _, _ => (ret, s)
        end
    end in
  let reported := recordSuccessfulAuthMechanism (status <$> retResp ret) (bool_decide (retErr ret <> None))
                    (attempted s) (mech s) None in
  (ret, match reported with Some m => emit [FMechanism m] s | None => s end).

(** [retryHTTPProxyAuthWithPool]; [pooled] is the transport the 407 came
    through, if it was a pooled one, and [alreadyLocked] says that the caller
    holds its lock. *)
Definition retryHTTPProxyAuthWithPool (t : Transport) (pooled : option Entry) (alreadyLocked : bool)
  (sent0 open0 lock0 : nat) (r : Reply) : Return * St :=
  let init l effs := mkSt l pooled t false None "" false sent0 open0 0 lock0 0 effs in
  if streamed then
    let s := match pooled with
             | None => init None []
             | Some e =>
                 init None ((if alreadyLocked then [] else [FLock (eId e)]) ++
                            [FMark (eId e) false; FUnlock (eId e); FRemove (eId e)])
             end in
    (mkReturn (Some r) None false, reloadFor r s)
  else
    let s := match pooled with
             | None => init None []
             | Some e => if alreadyLocked then init pooled [] else lockPooled pooled (init None [])
             end in
    let s := match pooled with Some e => emit [FMark (eId e) false] s | None => s end in
    let '(ret, s) := rounds 3 r s in
    cleanUp ret s.
End Retry.

(** ** The candidates *)

Section Candidates.
(** The identity of the configuration, and a retry's error as the classifier
    of outcomes sees it. *)
Context (identity : string) (asGo : FErr -> GoError).

Inductive Next := Answered (r : Reply) (wrapped : bool) | Failed (e : FErr) | Continue (e : FErr).

(** One candidate of [roundTripHTTPWithProxyFallback]. *)
Definition tryCandidate (env : Env) (p : Server) : list Effect * Next :=
  let uses := negb (bool_decide (p = Direct)) in
  let identity := if uses then identity else "" in
  let found := if negb (String.eqb identity "") then cached env else None in
  let '(pooled, taken, locks) :=
    match found with
    | None => (None, [], 0%nat)
    | Some e => if seen env 0 then (Some e, [FLock (eId e)], 1%nat)
                else (None, [FLock (eId e); FUnlock (eId e)], 1%nat)
    end in
  let t := match pooled with Some e => Pooled (eId e) | None => Base end in
  let release := match pooled with Some e => [FUnlock (eId e)] | None => [] end in
  if negb (opens env 0) then
    if cancelled env 0 then (taken ++ release ++ [FRecord Supervisor.Sup.OutcomeClientCancelled p], Failed ECanceled)
    else (taken ++ release, Continue EOpenBody)
  else
    let auth := if uses then headerFor 0 "" else "" in
    match respond env 0 with
    | Err e =>
        let drop := match pooled with
                    | Some x => [FMark (eId x) false; FUnlock (eId x); FRemove (eId x)]
                    | None => []
                    end in
        let note := FRecover (classifyProxyTransportOutcome (cancelled env 1) p e) p in
        (taken ++ [FRoundTrip t auth false] ++ drop ++ [note],
         if cancelled env 1 then Failed ECanceled else Continue (ERoundTrip e))
    | Ok r =>
        let start := taken ++ [FRoundTrip t auth true; FRecord Supervisor.Sup.OutcomeSuccess p] in
        if uses && (status r =? 407) then
          let start := start ++ match pooled with Some e => [FMark (eId e) false] | None => [] end in
          let '(ret, s) := retryHTTPProxyAuthWithPool env identity p t pooled (bool_decide (pooled <> None)) 1 1 locks r in
          match retErr ret, retResp ret with
          | Some e, _ =>
              (start ++ effects s ++ [FRecover (classifyProxyTransportOutcome (cancelled env (sentN s)) p (asGo e)) p],
               Failed e)
          | None, Some r' =>
              (start ++ effects s ++
               [FRecord (if status r' =? 407 then Supervisor.Sup.OutcomeAuthExhausted else Supervisor.Sup.OutcomeSuccess) p],
               Answered r' (wraps ret))
          | None, None => (start ++ effects s ++ [FRecord Supervisor.Sup.OutcomeSuccess p], Failed ENoCandidates)
          end
        else (start ++ release, Answered r false)
    end.

Fixpoint tryCandidates (lastErr : option FErr) (l : list (Server * Env)) : list Effect * result FErr (Reply * bool) :=
  match l with
  | [] => ([], Err (default ENoCandidates lastErr))
  | (p, env) :: rest =>
      match tryCandidate env p with
      | (effs, Answered r w) => (effs, Ok (r, w))
      | (effs, Failed e) => (effs, Err e)
      | (effs, Continue e) => let '(effs', res) := tryCandidates (Some e) rest in (effs ++ effs', res)
      end
  end.

Definition roundTripHTTPWithProxyFallback {T} (order : Time -> list Candidate -> T -> list Candidate * T)
    (now : Time) (sup : option T) (proxies : list Server) (env : nat -> Server -> Env)
  : list Effect * result FErr (Reply * bool) :=
  tryCandidates None (imap (fun i p => (p, env i p)) (orderProxyCandidates order now sup proxies).1).

End Candidates.
End Forward.
Arguments St S : clear implicits.

(** ** Specification *)

(** The lock held after the effects; [None] when a lock is taken while one is
    held, or released without being held. *)
Definition lockStep (held : option (option nat)) (e : Effect) : option (option nat) :=
  match e, held with
  | FLock i, Some None => Some (Some i)
  | FLock _, _ => None
  | FUnlock i, Some (Some j) => if (i =? j)%nat then Some None else None
  | FUnlock _, _ => None
  | _, h => h
  end.
Definition lockRun (held : option nat) (effs : list Effect) : option (option nat) := fold_left lockStep effs (Some held).

Definition tally (p : Effect -> bool) (effs : list Effect) : nat := length (bfilter p effs).
Definition isTrip (e : Effect) : bool := match e with FRoundTrip _ _ _ => true | _ => false end.
Definition isAnswer (e : Effect) : bool := match e with FRoundTrip _ _ true => true | _ => false end.
Definition disposes (e : Effect) : bool := match e with FDrain | FCloseBody => true | _ => false end.
Definition isOpened (e : Effect) : bool := match e with FOpened => true | _ => false end.
Definition isClosed (e : Effect) : bool := match e with FSessionClosed => true | _ => false end.
Definition isPin (e : Effect) : bool := match e with FPin => true | _ => false end.
Definition isPinClosed (e : Effect) : bool := match e with FPinClosed => true | _ => false end.

(** ** Lemmas: effects *)

Lemma lockRun_app held a b : lockRun held (a ++ b) = fold_left lockStep b (lockRun held a).
Proof. unfold lockRun. apply fold_left_app. Qed.

Lemma tally_app p a b : tally p (a ++ b) = (tally p a + tally p b)%nat.
Proof. unfold tally. by rewrite List.filter_app, length_app. Qed.

Lemma tally_cons p e l : tally p (e :: l) = ((if p e then 1 else 0) + tally p l)%nat.
Proof. unfold tally. simpl. by destruct (p e). Qed.

Lemma tally_nil p : tally p [] = 0%nat.
Proof. done. Qed.

(** Effects that neither lock, answer, dispose, open, close nor pin. *)
Definition neutral (e : Effect) : bool :=
  match e with FMark _ _ | FRemove _ | FReload | FMechanism _ | FRecord _ _ | FRecover _ _ => true | _ => false end.

Lemma neutral_tally effs (p : Effect -> bool) : Forall (fun e => neutral e = true) effs ->
  p ∈ [isTrip; isAnswer; disposes; isOpened; isClosed; isPin; isPinClosed] -> tally p effs = 0%nat.
Proof.
  intros Hn Hp. unfold tally. induction Hn as [|e effs He _ IH]; [done|]. simpl.
  assert (p e = false) as ->; [|done].
  by destruct e; try done; apply list_elem_of_In in Hp as [<-|[<-|[<-|[<-|[<-|[<-|[<-|[]]]]]]]].
Qed.

Lemma neutral_locks effs h : Forall (fun e => neutral e = true) effs -> fold_left lockStep effs h = h.
Proof. intros Hn. induction Hn as [|e effs He _ IH]; [done|]. simpl. by destruct e, h as [[?|]|]. Qed.

Section Proofs.
Context {S} `{L : AuthSessionLaws S}.
Context (md5hex : string -> string) (NewNegotiateMessage : option (list Z))
  (NewAuthenticateMessage : list Z -> string -> string -> option (list Z)) (nc cnonce : nat -> string).
Context (cfg : Credentials) (method targetURL passthroughAuth : string).
Context (kerberosCandidate sspiCandidate : string -> bool) (kerberosFactory : option S) (sspiFactory : string -> option S).
Context (krb streamed : bool) (env : Env) (identity : string) (candidate : Server).
Context (start : option nat).

(** What holds while a response waits for its answer: at most [k] requests were
    sent, every response but that one ([d] = 0) or with it ([d] = 1) is disposed of. *)
Record Good (d k : nat) (s : St S) : Prop := mkGood {
  g_lock : lockRun start (effects s) = Some (eId <$> locked s);
  g_disp : tally disposes (effects s) = (tally isAnswer (effects s) + d)%nat;
  g_open : tally isOpened (effects s) = (if session s then 1 else 0)%nat;
  g_closed : tally isClosed (effects s) = 0%nat;
  g_pin : tally isPin (effects s) = (if pinned s then 1 else 0)%nat;
  g_unpinned : pinned s = true -> identity = "" \/ candidate = Direct;
  g_trips : (tally isTrip (effects s) <= k)%nat }.

(** What holds at a return, before the deferred function. *)
Record Ended (ret : Return) (s : St S) : Prop := mkEnded {
  e_lock : lockRun start (effects s) = Some (eId <$> locked s);
  e_disp : (tally disposes (effects s) + (if retResp ret then 1 else 0) = tally isAnswer (effects s) + 1)%nat;
  e_open : tally isOpened (effects s) = (if session s then 1 else 0)%nat;
  e_closed : tally isClosed (effects s) = 0%nat;
  e_pin : tally isPin (effects s) = (if pinned s then 1 else 0)%nat;
  e_pinned : pinned s = true -> wraps ret = true \/ (0 < tally isPinClosed (effects s))%nat;
  e_exact : retErr ret = None <-> is_Some (retResp ret);
  e_trips : (tally isTrip (effects s) <= 3)%nat }.

Ltac tallies := rewrite ?tally_app, ?tally_cons, ?tally_nil; cbn; lia.

Lemma good_neutral d k effs s : Forall (fun e => neutral e = true) effs -> Good d k s -> Good d k (emit effs s).
Proof.
  intros Hn [? ? ? ? ? ? ?]. split; simpl; rewrite ?tally_app, ?(neutral_tally effs) by first [done|apply list_elem_of_In; simpl; auto 10];
    rewrite ?Nat.add_0_r; try done. rewrite lockRun_app. rewrite neutral_locks by done. done.
Qed.

Lemma good_weaken d k k' s : (k <= k')%nat -> Good d k s -> Good d k' s.
Proof. intros Hk [? ? ? ? ? ? ?]. split; try done. lia. Qed.

Lemma good_lock d k e s : Good d k s -> Good d k (lockPooled e s).
Proof.
  intros G. unfold lockPooled. destruct (sameEntry (locked s) e); [done|]. destruct G as [Hl ? ? ? ? ? ?].
  destruct (locked s) as [x|] eqn:El, e as [y|]; split; simpl; rewrite ?lockRun_app, ?Hl; simpl; rewrite ?Nat.eqb_refl; try done; tallies.
Qed.

Lemma good_remove d k s : Good d k s -> Good d k (removePooled s).
Proof. intros G. unfold removePooled. case_match; [|done]. apply good_neutral; [by repeat constructor|done]. Qed.

Lemma good_reload d k r s : Good d k s -> Good d k (reloadFor krb r s).
Proof. intros G. unfold reloadFor. case_match; [|done]. apply good_neutral; [by repeat constructor|done]. Qed.

Lemma good_frame d k s s' : effects s' = effects s -> locked s' = locked s -> (session s' : option S) = session s ->
  pinned s' = pinned s -> Good d k s -> Good d k s'.
Proof. intros E1 E2 E3 E4 [? ? ? ? ? ? ?]. split; rewrite ?E1, ?E2, ?E3, ?E4; done. Qed.

Ltac frame G := eapply good_frame; [..|exact G]; done.

Lemma good_effect d d' k k' e s :
  lockStep (Some (eId <$> locked s)) e = Some (eId <$> locked s) ->
  ((if disposes e then 1 else 0) + d = (if isAnswer e then 1 else 0) + d')%nat ->
  isOpened e = false -> isClosed e = false -> isPin e = false ->
  ((if isTrip e then 1 else 0) + k <= k')%nat -> Good d k s -> Good d' k' (emit [e] s).
Proof.
  intros Hl Hd Ho Hc Hp Hk [? ? ? ? ? ? ?]. split; simpl; rewrite ?tally_app, ?tally_cons, ?tally_nil, ?Ho, ?Hc, ?Hp; try lia; try done.
  rewrite lockRun_app, g_lock0. done.
Qed.

Lemma good_ephemeral d k s : Good d k s -> Good d k (closeEphemeral s).
Proof. intros G. unfold closeEphemeral. case_match; [|done].
  eapply good_effect; [..|exact G].
  all: simpl; try lia; done. Qed.

Lemma good_drop d k s : Good d k s -> Good d k (closeEphemeral (removePooled s)).
Proof. intros G. by apply good_ephemeral, good_remove. Qed.

Lemma drop_pinned (s : St S) : pinned (closeEphemeral (removePooled s)) = true ->
  (0 < tally isPinClosed (effects (closeEphemeral (removePooled s))))%nat.
Proof.
  unfold closeEphemeral. destruct (pinned (removePooled s)) eqn:E; [|by rewrite E]. intros _. simpl. tallies.
Qed.

Lemma ended_giveUp e s : Good 1 3 s -> (pinned s = true -> (0 < tally isPinClosed (effects s))%nat) ->
  Ended (mkReturn None (Some e) false) s.
Proof. intros [? ? ? ? ? ? ?] Hp. split; simpl; try done; try lia; by auto.
Qed.

Lemma ended_finish r s b : Good 0 3 s -> (pinned s = true -> b = true) -> Ended (mkReturn (Some r) None b) s.
Proof. intros [? ? ? ? ? ? ?] Hp. split; simpl; try done; try lia; by auto. Qed.

(** A request sent when the last response is disposed of. *)
Lemma send_spec k auth clean fails (s : St S) :
  (forall s, Good 1 (Datatypes.S k) s -> Good 1 (Datatypes.S k) (clean s)) ->
  (forall s, Good 1 (Datatypes.S k) s -> Good 1 (Datatypes.S k) (fails s)) ->
  Good 1 k s ->
  match send env auth clean fails s with
  | ((Some _, _), s') => Good 1 (Datatypes.S k) s' /\ exists s0, pinned s0 = pinned s /\ (s' = clean s0 \/ s' = fails s0)
  | ((None, Some _), s') => Good 0 (Datatypes.S k) s' /\ pinned s' = pinned s /\ session s' = session s
  | ((None, None), _) => False
  end.
Proof.
  intros Hc Hf G. unfold send.
  assert (Good 1 k (count 0 1 0 0 s)) as G1 by (frame G).
  destruct (negb _).
  { split; [apply Hc; by apply (good_weaken _ k); [lia|]|]. eexists; split; [|by left]. done. }
  set (s1 := count 1 0 0 0 (count 0 1 0 0 s)).
  assert (Good 1 k s1) as G2 by (frame G).
  destruct (respond env _) as [r|e].
  - split; [|done]. eapply good_effect; [..|exact G2]; simpl; try lia; done.
  - split; [apply Hf; eapply good_effect; [..|exact G2]; simpl; try lia; try done; by destruct (locked s)|].
    eexists; split; [|by right]. done.
Qed.

Definition VerdictOk (k : nat) (v : Verdict) : Prop :=
  match v with (inl ret, s) => Ended ret s | (inr _, s) => Good 0 k s end.

Lemma unpinned s d k : Good d k s -> identity <> "" -> candidate <> Direct -> pinned s = false.
Proof. intros G Hi Hc. destruct (pinned s) eqn:E; [|done]. by destruct (g_unpinned _ _ _ G E). Qed.

Lemma chooseTransport_spec k scheme r s : (k <= 2)%nat -> Good 0 k s ->
  match chooseTransport env identity candidate scheme r s with
  | inl v => VerdictOk (Datatypes.S k) v
  | inr s' => Good 0 k s'
  end.
Proof.
  intros Hk G. unfold chooseTransport.
  set (s1 := match active s with Some e => _ | None => s end).
  assert (Good 0 k s1) as G1.
  { subst s1. destruct (active s); [|done]. case_match; [|done].
    eapply good_frame; [..|apply good_lock, good_remove, G]; done. }
  clearbody s1. destruct (active s1) as [e|]; [frame G1|].
  destruct (negb (String.eqb identity "") && _) eqn:Ei.
  2: { destruct (negb (pinned s1)) eqn:Ep; [|done]. apply negb_true_iff in Ep. destruct G1. split; simpl;
       rewrite ?lockRun_app, ?tally_app, ?tally_cons, ?tally_nil; cbn; try lia; try done.
       all: rewrite ?g_lock0, ?g_pin0, ?Ep; try done.
       intros _. apply andb_false_iff in Ei as [Ei|Ei]; to_prop; [by left|by right]. }
  to_prop. set (e := mkEntry _ _).
  set (s2 := set_active (Some e) (Pooled (eId e)) (lockPooled (Some e) (count 0 0 1 0 s1))).
  assert (Good 0 k s2) as G2.
  { apply (good_frame 0 k (lockPooled (Some e) (count 0 0 1 0 s1))); try done. apply good_lock. frame G1. }
  clearbody s2. destruct (seen env _); [|done].
  assert (Good 1 k (emit [FDrain] s2)) as G3 by (eapply good_effect; [..|exact G2]; simpl; try lia; try done; by destruct (locked s2)).
  destruct (negb (drainUpstream407Body _)).
  { simpl. apply ended_giveUp; [apply good_remove; by apply (good_weaken _ k); [lia|]|].
    intros Hp. rewrite (unpinned _ _ _ (good_remove _ _ _ G3)) in Hp; done. }
  pose proof (send_spec k "" (fun s => s) removePooled (emit [FDrain] s2) ltac:(done) ltac:(intros; by apply good_remove) G3) as Hsd.
  destruct (send _ _ _ _ _) as [[[e'|] [r'|]] s3]; simpl in Hsd |- *.
  1, 2: destruct Hsd as [Hg _]; apply ended_giveUp; [by apply (good_weaken _ (Datatypes.S k)); [lia|]|];
        intros Hp; by rewrite (unpinned _ _ _ Hg) in Hp.
  - destruct Hsd as (Hg & _). destruct (negb (status r' =? 407)); simpl.
    + apply ended_finish; [by apply (good_weaken _ (Datatypes.S k)); [lia|]|]. intros Hp. by rewrite (unpinned _ _ _ Hg) in Hp.
    + apply good_neutral; [by repeat constructor|done].
  - done.
Qed.

Lemma answerChallenge_spec k challenge r s : Good 0 k s ->
  Good 0 k (answerChallenge md5hex NewNegotiateMessage NewAuthenticateMessage nc cnonce cfg method targetURL passthroughAuth
              kerberosCandidate sspiCandidate kerberosFactory sspiFactory krb challenge r s).2.
Proof.
  intros G. unfold answerChallenge. destruct (session s) as [x|] eqn:Es.
  - destruct (if sspiSessionAuth challenge then _ else _) as [h x']. simpl.
    destruct G; split; simpl; try done. by rewrite g_open0, Es.
  - unfold startSession.
    assert (forall (x : S) s, Good 0 k s -> session s = None ->
      Good 0 k (set_session (Some (Negotiate x).2) (emit [FOpened] s))) as Hb.
    { intros x s' [Hl Hd Ho ? ? ? ?] Hn. rewrite Hn in Ho. split; simpl;
        rewrite ?lockRun_app, ?tally_app, ?tally_cons, ?tally_nil, ?Hl; cbn; try lia; done. }
    destruct (kerberosCandidate challenge).
    + destruct kerberosFactory as [x|].
      * specialize (Hb x (observe (ObserveMechanism "Kerberos" (mech s)) (attempted s) s) ltac:(frame G) Es).
        by destruct (Negotiate x).
      * simpl. apply good_reload. frame G.
    + destruct (sspiCandidate challenge); [|simpl; frame G]. destruct (sspiFactory challenge) as [x|]; [|done].
      specialize (Hb x s G Es). by destruct (Negotiate x).
Qed.

#[local] Abbreviation round := (round md5hex NewNegotiateMessage NewAuthenticateMessage nc cnonce cfg method targetURL
  passthroughAuth kerberosCandidate sspiCandidate kerberosFactory sspiFactory krb env identity candidate).
#[local] Abbreviation rounds := (rounds md5hex NewNegotiateMessage NewAuthenticateMessage nc cnonce cfg method targetURL
  passthroughAuth kerberosCandidate sspiCandidate kerberosFactory sspiFactory krb env identity candidate).
#[local] Abbreviation retry := (retryHTTPProxyAuthWithPool md5hex NewNegotiateMessage NewAuthenticateMessage nc cnonce cfg
  method targetURL passthroughAuth kerberosCandidate sspiCandidate kerberosFactory sspiFactory krb streamed env identity
  candidate).

Lemma round_spec k r s : (k <= 2)%nat -> Good 0 k s -> VerdictOk (Datatypes.S k) (round r s).
Proof.
  intros Hk G. unfold Fw.round. set (challenge := selectProxyAuthenticateChallenge _ _).
  set (s0 := observe _ _ s). assert (Good 0 k s0) as G0 by (frame G). clearbody s0.
  pose proof (chooseTransport_spec k (authSchemeFromChallenge challenge) r s0 Hk G0) as Hch.
  destruct (if isConnectionAuth _ then _ else _) as [v|s1] eqn:Ev.
  { destruct (isConnectionAuth _); [|done]. by rewrite Ev in Hch. }
  assert (Good 0 k s1) as G1.
  { destruct (isConnectionAuth _); [by rewrite Ev in Hch|]. by injection Ev as <-. }
  pose proof (answerChallenge_spec k challenge r s1 G1) as G2.
  destruct (answerChallenge _ _ _ _ _ _ _ _ _ _ _ _ _ _ _ _ _) as [[auth|e] s2]; simpl in G2.
  2: { apply ended_giveUp; [apply (good_weaken _ k); [lia|]; apply good_drop|apply drop_pinned].
       eapply good_effect; [..|exact G2]; simpl; try lia; done. }
  destruct (String.eqb auth "").
  { apply ended_finish; [|done]. apply (good_weaken _ k); [lia|]. by apply good_remove, good_reload. }
  set (s3 := emit [FDrain] _). assert (Good 1 k s3) as G3.
  { apply (good_effect 0 1 k k FDrain (observe (ObserveHeader auth (mech s2)) true s2)); try done; frame G2. }
  clearbody s3. destruct (negb _).
  { apply ended_giveUp; [|apply drop_pinned]. by apply (good_weaken _ k); [lia|apply good_drop]. }
  pose proof (send_spec k auth (fun s => closeEphemeral (removePooled s)) (fun s => closeEphemeral (removePooled s)) s3
    ltac:(intros; by apply good_drop) ltac:(intros; by apply good_drop) G3) as Hsd.
  destruct (send _ _ _ _ _) as [[[e'|] [r'|]] s4]; simpl in Hsd |- *.
  1, 2: destruct Hsd as (Hg & s' & _ & Hs'); apply ended_giveUp; [by apply (good_weaken _ (Datatypes.S k)); [lia|]|];
        assert (s4 = closeEphemeral (removePooled s')) as -> by (by destruct Hs'); apply drop_pinned.
  - destruct Hsd as (Hg & _). unfold markActive. destruct (active s4); [|exact Hg].
    apply (good_neutral 0 (Datatypes.S k)); [by repeat constructor|done].
  - done.
Qed.

Lemma rounds_spec left k r s : (left + k = 3)%nat -> Good 0 k s -> Ended (rounds left r s).1 (rounds left r s).2.
Proof.
  revert k r s. induction left as [|left IH]; intros k r s Hk G; cbn [Fw.rounds].
  all: assert (forall b, Ended (mkReturn (Some r) None (pinned (if b : bool then removePooled (reloadFor krb r s) else reloadFor krb r s)))
                 (if b then removePooled (reloadFor krb r s) else reloadFor krb r s)) as Hstop
    by (intros b; apply ended_finish; [apply (good_weaken _ k); [lia|]; destruct b; [apply good_remove|]; by apply good_reload|done]).
  - cbn zeta. cbn [fst snd]. set (s1 := reloadFor krb r s) in *. clearbody s1.
    destruct (status r =? 407); [exact (Hstop true)|exact (Hstop false)].
  - destruct (negb (status r =? 407)) eqn:E.
    { apply negb_true_iff in E. rewrite E. by apply (Hstop false). }
    pose proof (round_spec k r s ltac:(lia) G) as Hr. destruct (round r s) as [[ret|r'] s']; simpl in Hr |- *; [done|].
    apply (IH (Datatypes.S k)); [lia|done].
Qed.

(** What holds after the deferred function. *)
Record Clean (ret : Return) (s : St S) : Prop := mkClean {
  c_lock : lockRun start (effects s) = Some None;
  c_disp : (tally disposes (effects s) + (if retResp ret then 1 else 0) = tally isAnswer (effects s) + 1)%nat;
  c_sess : tally isOpened (effects s) = tally isClosed (effects s) /\ (tally isClosed (effects s) <= 1)%nat;
  c_shut : forall x, session s = Some x -> closed x = true;
  c_pin : tally isPin (effects s) = 0%nat \/
          (tally isPin (effects s) = 1%nat /\ (wraps ret = true \/ (0 < tally isPinClosed (effects s))%nat));
  c_exact : retErr ret = None <-> is_Some (retResp ret);
  c_trips : (tally isTrip (effects s) <= 3)%nat }.

Lemma clean_neutral ret effs s : Forall (fun e => neutral e = true) effs -> Clean ret s -> Clean ret (emit effs s).
Proof.
  intros Hn [? ? ? ? ? ? ?]. split; simpl; rewrite ?tally_app, ?(neutral_tally effs) by first [done|apply list_elem_of_In; simpl; auto 10];
    rewrite ?Nat.add_0_r; try done. rewrite lockRun_app, c_lock0. by apply neutral_locks.
Qed.

Lemma ended_unlock ret (s : St S) : Ended ret s ->
  Ended ret (lockPooled None s) /\ locked (lockPooled None s) = None /\ session (lockPooled None s) = session s.
Proof.
  intros [Hl ? ? ? ? ? ? ?]. unfold lockPooled. destruct (locked s) as [x|] eqn:El; simpl; [|split_and!; [|done|done]; split; by rewrite ?Hl, ?El].
  split_and!; [|done|done]. split; simpl; rewrite ?lockRun_app, ?Hl, ?tally_app, ?tally_cons, ?tally_nil; cbn; rewrite ?Nat.eqb_refl; try done; try lia.
  intros Hp. destruct (e_pinned0 Hp); [by left|right; lia].
Qed.

(** The pinned transport is closed with the session that failed to close. *)
Lemma drop_clean (s : St S) : let s' := closeEphemeral (removePooled s) in
  lockRun start (effects s') = lockRun start (effects s) /\ session s' = session s /\
  (forall p, p ∈ [isTrip; isAnswer; disposes; isOpened; isClosed; isPin] -> tally p (effects s') = tally p (effects s)) /\
  (pinned s = true -> (0 < tally isPinClosed (effects s'))%nat).
Proof.
  assert (exists effs, closeEphemeral (removePooled s) = emit effs s /\ Forall (fun e => neutral e = true \/ e = FPinClosed) effs /\
    (pinned s = true -> FPinClosed ∈ effs)) as (effs & -> & Hf & Hin).
  { exists ((if active s is Some e then [FRemove (eId e)] else []) ++ (if pinned s then [FPinClosed] else [])).
    split_and!.
    - unfold closeEphemeral, removePooled. destruct s as [? [e|] ? [|] ? ? ? ? ? ? ? ? ?]; unfold emit; simpl;
        by rewrite ?app_nil_r, <-?app_assoc.
    - apply Forall_app; split; [destruct (active s)|destruct (pinned s)]; try done; by apply Forall_singleton; auto.
    - intros ->. apply elem_of_app. right. by apply list_elem_of_singleton. }
  simpl. rewrite lockRun_app. split_and!.
  - clear Hin. induction Hf as [|e effs [He| ->] _ IH]; [done| |]; simpl; [by destruct e, (lockRun start (effects s)) as [[?|]|]|by destruct (lockRun start (effects s)) as [[?|]|]].
  - done.
  - intros p Hp. rewrite tally_app. clear Hin. induction Hf as [|e effs He _ IH]; [by rewrite tally_nil; lia|].
    rewrite tally_cons. assert (p e = false) as ->; [|done].
    apply list_elem_of_In in Hp. destruct He as [He| ->]; [destruct e; try done|]; by destruct Hp as [<-|[<-|[<-|[<-|[<-|[<-|[]]]]]]].
  - intros Hp%Hin. rewrite tally_app. apply list_elem_of_split in Hp as (a & b & ->). rewrite tally_app, tally_cons. simpl. lia.
Qed.

Lemma cleanUp_spec ret s : Ended ret s -> Clean (cleanUp ret s).1 (cleanUp ret s).2.
Proof.
  intros E. unfold cleanUp. destruct (ended_unlock ret s E) as (E1 & Hl & Hs). set (s1 := lockPooled None s) in *. clearbody s1.
  assert (forall ret' s', Clean ret' s' -> Clean (let reported := recordSuccessfulAuthMechanism (status <$> retResp ret')
            (bool_decide (retErr ret' <> None)) (attempted s') (mech s') None in
            (ret', match reported with Some m => emit [FMechanism m] s' | None => s' end)).1
            (let reported := recordSuccessfulAuthMechanism (status <$> retResp ret')
            (bool_decide (retErr ret' <> None)) (attempted s') (mech s') None in
            (ret', match reported with Some m => emit [FMechanism m] s' | None => s' end)).2) as Hrep.
  { intros ret' s' C. simpl. case_match; [|done]. apply clean_neutral; [by repeat constructor|done]. }
  destruct E1 as [Hk ? Ho ? ? ? ? ?]. rewrite Hl in Hk. destruct (session s1) as [x|] eqn:Ex; simpl in Ho.
  2: { apply Hrep. split; try done; try lia; [by intros x Hx; rewrite Ex in Hx|].
       destruct (pinned s1); [right|left]; [split; [done|auto]|done]. }
  pose proof (close_closes x) as Hc. destruct (Close x) as [ok x'] eqn:Ec. simpl in Hc.
  assert (Clean ret (emit [FSessionClosed] (set_session (Some x') s1))) as Hclean.
  { split; simpl; rewrite ?lockRun_app, ?Hk, ?tally_app, ?tally_cons, ?tally_nil; cbn; try done; try lia; [by intros ? [= <-]|].
    destruct (pinned s1); [right|left; lia]. split; [lia|]. destruct e_pinned0 as [?|?]; [done|by left|right; lia]. }
  destruct ok; [by apply Hrep|]. destruct (retErr ret) eqn:Er; [by apply Hrep|]. apply Hrep.
  destruct (proj1 e_exact0 eq_refl) as [r Hr]. rewrite Hr. clear Hclean.
  set (s2 := emit [FCloseBody] (emit [FSessionClosed] (set_session (Some x') s1))).
  destruct (drop_clean s2) as (D1 & D2 & D3 & D4). set (s3 := closeEphemeral (removePooled s2)) in *. clearbody s3.
  assert (forall p, p ∈ [isTrip; isAnswer; disposes; isOpened; isClosed; isPin] -> tally p (effects s3) =
    (tally p (effects s1) + ((if p FSessionClosed then 1 else 0) + (if p FCloseBody then 1 else 0)))%nat) as D5.
  { intros p Hp. rewrite (D3 p Hp). simpl. rewrite !tally_app, !tally_cons, !tally_nil. lia. }
  rewrite Hr in *. split; rewrite ?D1, ?D2, ?D5 by (apply list_elem_of_In; simpl; auto 10); simpl.
  - by rewrite !lockRun_app, Hk.
  - lia.
  - lia.
  - by intros ? [= <-].
  - destruct (pinned s1) eqn:Ep; [right|left; lia]. split; [lia|]. right. by apply D4.
  - split; [done|by intros [? ?]].
  - lia.
Qed.

Lemma good_init t pooled sent0 open0 lock0 l : start = eId <$> l ->
  Good 0 0 (mkSt l pooled t false None "" false sent0 open0 0 lock0 0 []).
Proof. intros E. split; simpl; try done; by rewrite E. Qed.

Lemma retry_clean t pooled (alreadyLocked : bool) sent0 open0 lock0 r :
  start = (if alreadyLocked then eId <$> pooled else None) ->
  Clean (retry t pooled alreadyLocked sent0 open0 lock0 r).1 (retry t pooled alreadyLocked sent0 open0 lock0 r).2.
Proof.
  intros Hst. unfold retryHTTPProxyAuthWithPool. destruct streamed.
  - assert (forall s : St S, lockRun start (effects s) = Some None -> session s = None ->
      (forall p, p ∈ [isTrip; isAnswer; disposes; isOpened; isClosed; isPin] -> tally p (effects s) = 0%nat) ->
      Clean (mkReturn (Some r) None false) (reloadFor krb r s)) as Hc.
    { intros s Hl Hs Ht. assert (Clean (mkReturn (Some r) None false) s) as C.
      { split; rewrite ?Ht by (apply list_elem_of_In; simpl; auto 10); simpl; try done; try lia; first [by rewrite Hs|by left]. }
      unfold reloadFor. destruct (_ && _); [|exact C]. apply clean_neutral; [by repeat constructor|exact C]. }
    destruct pooled as [e|]; apply Hc; simpl; try done; rewrite ?Hst.
    + destruct alreadyLocked; unfold lockRun; simpl; by rewrite Nat.eqb_refl.
    + intros p Hp. apply list_elem_of_In in Hp.
      destruct alreadyLocked; by destruct Hp as [<-|[<-|[<-|[<-|[<-|[<-|[]]]]]]].
    + by destruct alreadyLocked.
  - assert (forall s : St S, Good 0 0 s ->
      Clean (let '(ret, s) := rounds 3 r s in cleanUp ret s).1 (let '(ret, s) := rounds 3 r s in cleanUp ret s).2) as Hgo.
    { intros s G. pose proof (rounds_spec 3 0 r s eq_refl G) as E. destruct (rounds 3 r s) as [ret s2]. by apply cleanUp_spec. }
    destruct pooled as [e|]; [|apply Hgo, good_init; by rewrite Hst; destruct alreadyLocked].
    destruct alreadyLocked; apply Hgo; (apply good_neutral; [by repeat constructor|]); [|apply good_lock]; by apply good_init.
Qed.

End Proofs.

Definition answered (n : Next) : bool := match n with Answered _ _ => true | _ => false end.

(** One candidate, at its end. *)
Record Settled (effs : list Effect) (next : Next) : Prop := mkSettled {
  s_lock : lockRun None effs = Some None;
  s_disp : (tally disposes effs + (if answered next then 1 else 0) = tally isAnswer effs)%nat;
  s_sess : tally isOpened effs = tally isClosed effs;
  s_again : forall e, next = Continue e -> tally isAnswer effs = 0%nat;
  s_trips : (tally isTrip effs <= 4)%nat }.

(** The candidates of [before] failed before any answer; what came next ended
    the request. *)
Definition EndsAt (try_ : Server * Env -> list Effect * Next) (l : list (Server * Env)) (effs : list Effect)
    (res : result FErr (Reply * bool)) : Prop :=
  exists before after, l = before ++ after /\
    Forall (fun x => (exists e, (try_ x).2 = Continue e) /\ tally isAnswer (try_ x).1 = 0%nat) before /\
    effs = concat (map (fun x => (try_ x).1) (before ++ take 1 after)) /\
    match after with
    | [] => exists e, res = Err e
    | x :: _ => match (try_ x).2 with
                | Answered r w => res = Ok (r, w)
                | Failed e => res = Err e
                | Continue _ => False
                end
    end.

Section Theorems.
Context {S} `{L : AuthSessionLaws S}.
Context (md5hex : string -> string) (NewNegotiateMessage : option (list Z))
  (NewAuthenticateMessage : list Z -> string -> string -> option (list Z)) (nc cnonce : nat -> string).
Context (cfg : Credentials) (method targetURL passthroughAuth : string).
Context (kerberosCandidate sspiCandidate : string -> bool) (kerberosFactory : option S) (sspiFactory : string -> option S).
Context (krb streamed : bool) (identity : string) (asGo : FErr -> GoError).

#[local] Abbreviation retry := (retryHTTPProxyAuthWithPool md5hex NewNegotiateMessage NewAuthenticateMessage nc cnonce cfg
  method targetURL passthroughAuth kerberosCandidate sspiCandidate kerberosFactory sspiFactory krb streamed).
#[local] Abbreviation tryOne := (tryCandidate md5hex NewNegotiateMessage NewAuthenticateMessage nc cnonce cfg
  method targetURL passthroughAuth kerberosCandidate sspiCandidate kerberosFactory sspiFactory krb streamed identity asGo).
#[local] Abbreviation tryAll := (tryCandidates md5hex NewNegotiateMessage NewAuthenticateMessage nc cnonce cfg
  method targetURL passthroughAuth kerberosCandidate sspiCandidate kerberosFactory sspiFactory krb streamed identity asGo).

Lemma settled_retry start (ret : Return) (s : St S) pre post next :
  lockRun None pre = Some start -> tally isAnswer pre = 1%nat -> tally isTrip pre = 1%nat ->
  (forall q, q ∈ [disposes; isOpened; isClosed] -> tally q pre = 0%nat) ->
  Forall (fun e => neutral e = true) post -> Clean start ret s ->
  answered next = (if retResp ret then true else false) -> (forall e, next <> Continue e) ->
  Settled (pre ++ effects s ++ post) next.
Proof.
  intros Hl Ha Ht Hp Hn [? ? ? ? ? ? ?] Hx Hc.
  split; rewrite ?tally_app, ?(neutral_tally post), ?Hp by first [done|apply list_elem_of_In; simpl; auto 10].
  - rewrite lockRun_app, Hl, fold_left_app. change (fold_left lockStep (effects s) (Some start)) with (lockRun start (effects s)).
    rewrite c_lock0. by apply neutral_locks.
  - rewrite Hx. destruct (retResp ret); lia.
  - lia.
  - intros e He. by destruct (Hc e).
  - lia.
Qed.

(** The retry between what the candidate did before it and what it reports. *)
Lemma settled_after env cand t (pooled : option Entry) locks r pre (note : FErr -> St S -> Effect) (done_ : Reply -> Effect) none :
  lockRun None pre = Some (eId <$> pooled) -> tally isAnswer pre = 1%nat -> tally isTrip pre = 1%nat ->
  (forall q, q ∈ [disposes; isOpened; isClosed] -> tally q pre = 0%nat) ->
  (forall e s, neutral (note e s) = true) -> (forall r', neutral (done_ r') = true) ->
  forall id, let x := (let '(ret, s) := retry env id cand t pooled (bool_decide (pooled <> None)) 1 1 locks r in
    match retErr ret, retResp ret with
    | Some e, _ => (pre ++ effects s ++ [note e s], Failed e)
    | None, Some r' => (pre ++ effects s ++ [done_ r'], Answered r' (wraps ret))
    | None, None => (pre ++ effects s ++ [none], Failed ENoCandidates)
    end) in Settled x.1 x.2.
Proof.
  intros Hl Ha Ht Hp Hn Hd id.
  assert ((eId <$> pooled) = (if bool_decide (pooled <> None) then eId <$> pooled else None)) as Hs by (by destruct pooled).
  pose proof (retry_clean md5hex NewNegotiateMessage NewAuthenticateMessage nc cnonce cfg method targetURL passthroughAuth
    kerberosCandidate sspiCandidate kerberosFactory sspiFactory krb streamed env id cand _ t pooled _ 1 1 locks r Hs) as C.
  cbn zeta. destruct (retry _ _ _ _ _ _ _ _ _ _) as [ret s]. cbn [fst snd] in C.
  destruct (retErr ret) as [e|] eqn:Ee, (retResp ret) as [r'|] eqn:Er.
  all: pose proof (c_exact _ _ _ C) as Hx; rewrite Ee, Er in Hx.
  - discriminate (proj2 Hx (mk_is_Some _ _ eq_refl)).
  - apply (settled_retry (eId <$> pooled) ret); try done; [by repeat constructor; rewrite Hn|by rewrite Er].
  - apply (settled_retry (eId <$> pooled) ret); try done; [by repeat constructor; rewrite Hd|by rewrite Er].
  - by destruct (proj1 Hx eq_refl).
Qed.

Lemma settled_candidate env p : Settled (tryOne env p).1 (tryOne env p).2.
Proof.
  unfold tryCandidate. set (found := if negb (String.eqb _ "") then cached env else None). clearbody found.
  destruct found as [e|]; [destruct (seen env 0)|]; cbn beta iota zeta.
  all: destruct (negb (opens env 0)); [destruct (cancelled env 0)|destruct (respond env 0) as [r|err];
         [destruct (_ && (status r =? 407))|destruct (cancelled env 1)]].
  all: try (split; unfold lockRun, tally; simpl; rewrite ?Nat.eqb_refl; simpl; try done; lia).
  all: apply settled_after with (note := fun e s => FRecover (classifyProxyTransportOutcome (cancelled env (sentN s)) p (asGo e)) p)
         (done_ := fun r' => FRecord (if status r' =? 407 then Supervisor.Sup.OutcomeAuthExhausted else Supervisor.Sup.OutcomeSuccess) p);
       try done.
  all: first [by unfold lockRun; simpl; rewrite Nat.eqb_refl
             |intros q Hq; apply list_elem_of_In in Hq; by destruct Hq as [<-|[<-|[<-|[]]]]].
Qed.

Lemma settled_all l lastErr :
  let '(effs, res) := tryAll lastErr l in
  lockRun None effs = Some None /\ (tally isOpened effs = tally isClosed effs)%nat /\
  (tally disposes effs + (if res is Ok _ then 1 else 0) = tally isAnswer effs)%nat /\
  (tally isTrip effs <= 4 * length l)%nat.
Proof.
  revert lastErr. induction l as [|[p env] l IH]; intros lastErr; simpl; [by split_and!|].
  pose proof (settled_candidate env p) as [Hl Hd Hs _ Ht]. destruct (tryOne env p) as [effs [r w|e|e]]; simpl in *.
  1, 2: split_and!; try done; lia.
  specialize (IH (Some e)). destruct (tryAll (Some e) l) as [effs' res]. destruct IH as (Il & Is & Id & It).
  split_and!; rewrite ?tally_app; try lia.
  rewrite lockRun_app, Hl. exact Il.
Qed.

Lemma ends_all l lastErr :
  EndsAt (fun x => tryOne x.2 x.1) l (tryAll lastErr l).1 (tryAll lastErr l).2.
Proof.
  revert lastErr. induction l as [|[p env] l IH]; intros lastErr; simpl; [exists [], []; simpl; by eauto 10|].
  pose proof (s_again _ _ (settled_candidate env p)) as Ha.
  destruct (tryOne env p) as [effs [r w|e|e]] eqn:E; simpl in Ha.
  1, 2: exists [], ((p, env) :: l); simpl; rewrite E; simpl; by rewrite app_nil_r.
  destruct (IH (Some e)) as (before & after & -> & Hf & He & Hr). destruct (tryAll (Some e) _) as [effs' res]. simpl in *.
  exists ((p, env) :: before), after. simpl. rewrite E. simpl. rewrite <- He. split_and!; try done.
  constructor; [|done]. simpl. rewrite E. simpl. eauto.
Qed.

(** C29: A retry after a 407, with its deferred function: [start] is the lock the
    caller passed on.  No lock is taken while one is held and none is left; the
    response of every request is drained or closed, or the one returned; at
    most one session is opened and it is closed; a pinned transport is closed or
    closed by the body returned; either a response or an error is returned;
    three requests at most. *)
Theorem auth_retry_cleans_up env cand t pooled (alreadyLocked : bool) sent0 open0 lock0 r :
  let start := if alreadyLocked then eId <$> pooled else None in
  let '(ret, s) := retry env identity cand t pooled alreadyLocked sent0 open0 lock0 r in
  lockRun start (effects s) = Some None /\
  (tally disposes (effects s) + (if retResp ret then 1 else 0) = tally isAnswer (effects s) + 1)%nat /\
  (tally isOpened (effects s) = tally isClosed (effects s) /\ tally isClosed (effects s) <= 1)%nat /\
  (forall x, session s = Some x -> closed x = true) /\
  (tally isPin (effects s) = 0 \/
   tally isPin (effects s) = 1 /\ (wraps ret = true \/ 0 < tally isPinClosed (effects s)))%nat /\
  (retErr ret = None <-> is_Some (retResp ret)) /\
  (tally isTrip (effects s) <= 3)%nat.
Proof.
  cbn zeta.
  pose proof (retry_clean md5hex NewNegotiateMessage NewAuthenticateMessage nc cnonce cfg method targetURL passthroughAuth
    kerberosCandidate sspiCandidate kerberosFactory sspiFactory krb streamed env identity cand _ t pooled alreadyLocked
    sent0 open0 lock0 r eq_refl) as C.
  destruct (retry _ _ _ _ _ _ _ _ _ _) as [ret s]. by destruct C.
Qed.

(** A plain request through its candidates, whatever each of them meets: the
    candidates are tried in order, and a request that one of them answered is
    never sent to a later one; every response but the one returned is drained
    or closed; every lock taken is released before the next is taken and none
    is left; every session is closed; four requests a candidate at most. *)
Theorem forward_settles {T} (order : Time -> list Candidate -> T -> list Candidate * T) now (sup : option T) proxies
    (env : nat -> Server -> Env) :
  let '(effs, res) := roundTripHTTPWithProxyFallback md5hex NewNegotiateMessage NewAuthenticateMessage nc cnonce cfg
    method targetURL passthroughAuth kerberosCandidate sspiCandidate kerberosFactory sspiFactory krb streamed identity asGo
    order now sup proxies env in
  let l := imap (fun i p => (p, env i p)) (orderProxyCandidates order now sup proxies).1 in
  EndsAt (fun x => tryOne x.2 x.1) l effs res /\
  lockRun None effs = Some None /\ (tally isOpened effs = tally isClosed effs)%nat /\
  (tally disposes effs + (if res is Ok _ then 1 else 0) = tally isAnswer effs)%nat /\
  (tally isTrip effs <= 4 * length l)%nat.
Proof.
  unfold roundTripHTTPWithProxyFallback. set (l := imap _ _).
  pose proof (ends_all l None) as He. pose proof (settled_all l None) as Hs.
  by destruct (tryAll None l) as [effs res].
Qed.
End Theorems.

(** ** Witnesses *)

Definition toyUpdate (c : unit) (challenge : list Z) : option (bool * list Z) * unit := (Some (true, [7]), tt).
#[local] Instance toySession : AuthSession (sspiAuthSession unit) := sspi_session toyUpdate.
#[local] Instance toySessionLaws : AuthSessionLaws (sspiAuthSession unit) := sspi_laws toyUpdate.
Definition toyCount (n : nat) : string := "00000001".
Definition toyFactory (challenge : string) : option (sspiAuthSession unit) :=
  newSSPISession (fun _ => true) (fun _ => Some (tt, [1])) true true challenge "proxy".

(** A proxy that accepts the second NTLM message, on a pooled transport that no
    one has authenticated. *)
Definition ntlmEnv : Env :=
  mkEnv None (fun n => nth n [Ok (mkReply 407 ["NTLM Bw=="] (Some UpstreamAuth.Ua.CopyEOF))] (Ok (mkReply 200 [] None)))
    (fun _ => true) (fun _ => 7%nat) (fun _ => false) (fun _ => false).

Lemma auth_retry_cleans_up_witness :
  let '(ret, s) := retryHTTPProxyAuthWithPool (fun s => s) None (fun _ _ _ => None) toyCount toyCount
    (UpstreamAuth.Ua.mkCreds "" "" "") "GET" "http://o/" "" (fun _ => false) (isWindowsSSPICandidate "" "") None toyFactory
    false false ntlmEnv "sspi:current-user" wit_p Base None false 0 0 0 (mkReply 407 ["NTLM"] None) in
  effects s = [FLock 7; FOpened; FDrain; FRoundTrip (Pooled 7) "NTLM AQ==" true; FMark 7 false; FDrain;
               FRoundTrip (Pooled 7) "NTLM Bw==" true; FMark 7 true; FUnlock 7; FSessionClosed; FMechanism "NTLM"] /\
  status <$> retResp ret = Some 200 /\ lockRun None (effects s) = Some None.
Proof.
  pose proof (auth_retry_cleans_up (fun s => s) None (fun _ _ _ => None) toyCount toyCount
    (UpstreamAuth.Ua.mkCreds "" "" "") "GET" "http://o/" "" (fun _ => false) (isWindowsSSPICandidate "" "") None toyFactory
    false false "sspi:current-user" ntlmEnv wit_p Base None false 0 0 0 (mkReply 407 ["NTLM"] None)) as H.
  cbn zeta in H. destruct (retryHTTPProxyAuthWithPool _ _ _ _ _ _ _ _ _ _ _ _ _ _ _ _ _ _ _ _ _ _ _ _ _) as [ret s] eqn:E.
  split_and!; [| |apply H]; by vm_compute in E; injection E as <- <-.
Defined.

(** The first proxy resets the connection; the second one answers. *)
Lemma forward_settles_witness :
  let '(effs, res) := roundTripHTTPWithProxyFallback (S := sspiAuthSession unit) (fun s => s) None (fun _ _ _ => None) toyCount toyCount
    (UpstreamAuth.Ua.mkCreds "" "" "") "GET" "http://o/" "" (fun _ => false) (fun _ => false) None toyFactory false false
    "" (fun _ => errNoCandidates) (fun _ l (t : unit) => (l, t)) 0 None [wit_p; wit_q]
    (fun i _ => mkEnv None (fun _ => if (i =? 0)%nat then Err (mkErr KOther []) else Ok (mkReply 200 [] None))
       (fun _ => true) (fun _ => 7%nat) (fun _ => false) (fun _ => false)) in
  res = Ok (mkReply 200 [] None, false) /\ tally isTrip effs = 2%nat /\ lockRun None effs = Some None.
Proof.
  pose proof (forward_settles (S := sspiAuthSession unit) (fun s => s) None (fun _ _ _ => None) toyCount toyCount
    (UpstreamAuth.Ua.mkCreds "" "" "") "GET" "http://o/" "" (fun _ => false) (fun _ => false) None toyFactory false false
    "" (fun _ => errNoCandidates) (fun _ l (t : unit) => (l, t)) 0 None [wit_p; wit_q]
    (fun i _ => mkEnv None (fun _ => if (i =? 0)%nat then Err (mkErr KOther []) else Ok (mkReply 200 [] None))
       (fun _ => true) (fun _ => 7%nat) (fun _ => false) (fun _ => false))) as H.
  destruct (roundTripHTTPWithProxyFallback _ _ _ _ _ _ _ _ _ _ _ _ _ _ _ _ _ _ _ _ _ _) as [effs res] eqn:E.
  cbn zeta in H. split_and!; [| |apply H]; by vm_compute in E; injection E as <- <-.
Defined.

(** A Kerberos proxy alone, no credentials configured, a request with a body:
    the body is streamed although the challenge could be answered, so the 407
    goes back to the client. *)
Example kerberos_body_is_not_replayed :
  let creds := UpstreamAuth.Ua.mkCreds "" "" "" in
  let offer := mkReply 407 ["Negotiate"] None in
  isUnixKerberosCandidate true "linux" "Negotiate" = true /\
  needsReplayableBody "linux" creds true false [wit_p] = false /\
  let '(ret, s) := retryHTTPProxyAuthWithPool (fun s => s) None (fun _ _ _ => None) toyCount toyCount creds "POST" "http://o/" ""
    (isUnixKerberosCandidate true "linux") (fun _ => false) (Some (mkKrb [1] false false)) (fun _ => None)
    true true ntlmEnv "" wit_p Base None false 1 1 0 offer in
  retResp ret = Some offer /\ effects s = [FReload].
Proof. by vm_compute. Qed.

End Fw.
