(* ===== verification/Routes.v ===== *)
(** * Routes: the routing tables of the server and of DoH bootstrap
    ([reloadProxy], [findProxyForURL], [Shutdown] and [New]'s DoH dialer of
    [internal/proxy/proxy.go]; [doh_bootstrap.go])

    A routing table is a [Wproxy] value with an identity; closing it is logged.
    A reload runs beside requests, other reloads and the shutdown: it is split
    where it gives up the lock, so a history is a list of its parts in any
    order.  The lock of the DoH bootstrap table is held by readers for a whole
    dial; a publication waits for them while it has the lock of the main table
    ([wmuHeld]), and whoever needs that lock waits too ([Blocked]). *)

From S2P Require Export Prelude GoStrings NetAddr.
From S2P Require Wproxy Access ProxyRuntime.
Import Wproxy.Wp(Server, mkServer, sHost, sPort, Direct, Server_eq_dec, Wproxy, wMode, Servers, wResolver, Mode, ModeNone, ModeEnv, ModeConfig,
  ModeConfigPAC, Mode_eq_dec, WErr, Surroundings, ParseProxy, NewWithDNS).
Import Access.Acc(isLocalDoHProxyLoop).

Module Rt.

(** ** Tables *)

Record RouteConfig := mkRouteConfig { PAC : string; ServerOpt : string; NoProxy : string; ProxyReload : Z }.

Definition buildWproxy (cfg : RouteConfig) (s : Surroundings) : result WErr Wproxy :=
  if negb (String.eqb (PAC cfg) "") then NewWithDNS ModeConfigPAC [mkServer (PAC cfg) 0 "pac"] (NoProxy cfg) s
  else if negb (String.eqb (ServerOpt cfg) "") then
    servers ← ParseProxy (ServerOpt cfg); NewWithDNS ModeConfig servers (NoProxy cfg) s
  else NewWithDNS ModeNone [] (NoProxy cfg) s.

(** A table, its identity and the construction it belongs to. *)
Record Route := mkRoute { rId : nat; rGen : nat; rW : Wproxy }.

Definition equalServers (a b : list Server) : bool := bool_decide (a = b).

Definition isHTTPURL (rawurl : string) : bool :=
  HasPrefix (ToLower rawurl) "http://" || HasPrefix (ToLower rawurl) "https://".

(** ** State *)

(** Where a reload is between two parts. *)
Inductive Stage := Building | BuildingBoot (wp : Route) | Prepared (wp : Route) (boot : option Route).

Record t := mk {
  w : option Route;
  dohBootstrap : option (option Route);   (* none unless names are resolved by DoH *)
  routingClosed : bool;
  lastReload : Time;
  stages : gmap nat Stage;   (* the reloads under way *)
  nextGen : nat; nextId : nat;
  leases : gmap nat nat;     (* readers of the bootstrap table *)
  nextLease : nat;
  closes : list nat;         (* the tables closed, in order *)
  cleared : nat;             (* how often the transports were dropped *)
  shutPhase : nat;
  wmuHeld : option nat }.    (* the reload that has the lock and waits for the readers *)

Definition set_stages (m : gmap nat Stage) (s : t) : t :=
  mk (w s) (dohBootstrap s) (routingClosed s) (lastReload s) m (nextGen s) (nextId s) (leases s) (nextLease s)
    (closes s) (cleared s) (shutPhase s) (wmuHeld s).
Definition endReload (g : nat) (s : t) : t := set_stages (delete g (stages s)) s.
Definition goOn (g : nat) (st : Stage) (s : t) : t := set_stages (<[g := st]> (stages s)) s.
Definition newRoute (s : t) : t :=
  mk (w s) (dohBootstrap s) (routingClosed s) (lastReload s) (stages s) (nextGen s) (S (nextId s)) (leases s) (nextLease s)
    (closes s) (cleared s) (shutPhase s) (wmuHeld s).
Definition closeRoutes (l : list Route) (s : t) : t :=
  mk (w s) (dohBootstrap s) (routingClosed s) (lastReload s) (stages s) (nextGen s) (nextId s) (leases s) (nextLease s)
    (closes s ++ map rId l) (cleared s) (shutPhase s) (wmuHeld s).
Definition set_leases (m : gmap nat nat) (n : nat) (s : t) : t :=
  mk (w s) (dohBootstrap s) (routingClosed s) (lastReload s) (stages s) (nextGen s) (nextId s) m n
    (closes s) (cleared s) (shutPhase s) (wmuHeld s).

Definition set_held (o : option nat) (s : t) : t :=
  mk (w s) (dohBootstrap s) (routingClosed s) (lastReload s) (stages s) (nextGen s) (nextId s) (leases s) (nextLease s)
    (closes s) (cleared s) (shutPhase s) o.

(** [New]: the tables the server starts with; the bootstrap table is built first. *)
Definition init (boot : option Wproxy) (wp : Wproxy) (now : Time) : t :=
  match boot with
  | Some b => mk (Some (mkRoute 1 0 wp)) (Some (Some (mkRoute 0 0 b))) false now ∅ 1 2 ∅ 0 [] 0 0 None
  | None => mk (Some (mkRoute 0 0 wp)) None false now ∅ 1 1 ∅ 0 [] 0 0 None
  end.

Definition opt {A} (o : option A) : list A := match o with Some x => [x] | None => [] end.

(** ** Reload *)

Section Reload.
Context (cfg : RouteConfig).

Definition proxyReloadableLocked (s : t) : bool :=
  match w s with
  | None => false
  | Some r =>
      if bool_decide (wMode (rW r) = ModeConfig) || bool_decide (wMode (rW r) = ModeEnv) then false
      else negb (bool_decide (wMode (rW r) = ModeConfigPAC) && negb (isHTTPURL (PAC cfg)))
  end.

Inductive ReloadErr := ErrClosed | ECtx | EBuild (e : WErr) | EBuildBoot (e : WErr) | EClosePrevious.

(** What a part answers its caller. *)
Inductive Reply :=
| Returned (e : option ReloadErr)     (* [reloadProxy] returned *)
| Running (g : nat)                   (* the reload goes on *)
| Blocked                             (* a reader holds the bootstrap table *)
| Routed (r : option Route)           (* the table a look up used *)
| Leased (l : nat) (r : Route)        (* the table a DoH dial uses *)
| Nothing.

(** The first part of [reloadProxy], up to the construction. *)
Definition startReload (now : Time) (force : bool) (ctxErr : bool) (s : t) : t * Reply :=
  if ProxyReload cfg <=? 0 then (s, Returned None)
  else if bool_decide (is_Some (wmuHeld s)) then (s, Blocked)
  else if routingClosed s then (s, Returned (Some ErrClosed))
  else
    let due := force || (i64 (ProxyReload cfg * Second) <=? subT now (lastReload s)) in
    if negb (proxyReloadableLocked s) || negb due then (s, Returned None)
    else if ctxErr then (s, Returned (Some ECtx))
    else
      let g := nextGen s in
      (mk (w s) (dohBootstrap s) (routingClosed s) (lastReload s) (<[g := Building]> (stages s)) (S g) (nextId s)
         (leases s) (nextLease s) (closes s) (cleared s) (shutPhase s) (wmuHeld s), Running g).

(** The construction of the table, and of the bootstrap table. *)
Definition buildMain (g : nat) (sur : Surroundings) (s : t) : t * Reply :=
  match stages s !! g with
  | Some Building =>
      match buildWproxy cfg sur with
      | Err e => (endReload g s, Returned (Some (EBuild e)))
      | Ok wp =>
          let r := mkRoute (nextId s) g wp in
          (goOn g (match dohBootstrap s with Some _ => BuildingBoot r | None => Prepared r None end) (newRoute s), Running g)
      end
  | _ => (s, Nothing)
  end.

Definition buildBoot (g : nat) (sur : Surroundings) (s : t) : t * Reply :=
  match stages s !! g with
  | Some (BuildingBoot wp) =>
      match buildWproxy cfg sur with
      | Err e => (closeRoutes [wp] (endReload g s), Returned (Some (EBuildBoot e)))
      | Ok b => (goOn g (Prepared wp (Some (mkRoute (nextId s) g b))) (newRoute s), Running g)
      end
  | _ => (s, Nothing)
  end.

Definition differs (wp : Wproxy) (old : option Route) : bool :=
  match old with
  | None => true
  | Some o => negb (bool_decide (wMode wp = wMode (rW o))) || negb (equalServers (Servers wp) (Servers (rW o)))
  end.

(** The publication, under the lock; [closeFails] says that closing a
    previous table failed. *)
Definition publish (g : nat) (now : Time) (ctxErr closeFails : bool) (s : t) : t * Reply :=
  match stages s !! g with
  | Some (Prepared wp fresh) =>
      let waits := bool_decide (wmuHeld s = Some g) in
      if negb waits && ctxErr then (closeRoutes (wp :: opt fresh) (endReload g s), Returned (Some ECtx))
      else if negb waits && bool_decide (is_Some (wmuHeld s)) then (s, Blocked)
      else if routingClosed s then (closeRoutes (wp :: opt fresh) (endReload g s), Returned (Some ErrClosed))
      else if bool_decide (is_Some (dohBootstrap s)) && negb (bool_decide (leases s = ∅)) then (set_held (Some g) s, Blocked)
      else
        let old := w s in
        let oldBoot := match dohBootstrap s with Some cur => cur | None => None end in
        let s := endReload g s in
        let s := mk (Some wp) (match dohBootstrap s with Some _ => Some fresh | None => None end) (routingClosed s) now
                   (stages s) (nextGen s) (nextId s) (leases s) (nextLease s) (closes s)
                   (if differs (rW wp) old then S (cleared s) else cleared s) (shutPhase s) None in
        let s := closeRoutes (opt old ++ opt oldBoot) s in
        (s, Returned (if closeFails then Some EClosePrevious else None))
  | _ => (s, Nothing)
  end.

(** ** Look ups *)

(** [findProxyForURL] uses the table under the read lock. *)
Definition lookup_ (s : t) : t * Reply := (s, if bool_decide (is_Some (wmuHeld s)) then Blocked else Routed (w s)).

(** A DoH dial keeps the read lock until its connection stands. *)
Definition lease (s : t) : t * Reply :=
  match dohBootstrap s with
  | Some (Some r) => if bool_decide (is_Some (wmuHeld s)) then (s, Blocked) else (set_leases (<[nextLease s := rId r]> (leases s)) (S (nextLease s)) s, Leased (nextLease s) r)
  | _ => (s, Nothing)
  end.
Definition release (l : nat) (s : t) : t * Reply := (set_leases (delete l (leases s)) (nextLease s) s, Nothing).

(** ** Shutdown *)

(** The three parts of [Shutdown] that touch the tables. *)
Definition fence (s : t) : t * Reply :=
  if bool_decide (is_Some (wmuHeld s)) then (s, Blocked)
  else if (shutPhase s =? 0)%nat
  then (mk (w s) (dohBootstrap s) true (lastReload s) (stages s) (nextGen s) (nextId s) (leases s) (nextLease s)
          (closes s) (cleared s) 1 None, Nothing)
  else (s, Nothing).

Definition shutBoot (s : t) : t * Reply :=
  if negb (shutPhase s =? 1)%nat then (s, Nothing)
  else
    match dohBootstrap s with
    | None => (mk (w s) None (routingClosed s) (lastReload s) (stages s) (nextGen s) (nextId s) (leases s) (nextLease s)
                 (closes s) (S (cleared s)) 2 (wmuHeld s), Nothing)
    | Some cur =>
        if negb (bool_decide (leases s = ∅)) then (s, Blocked)
        else (closeRoutes (opt cur)
                (mk (w s) (Some None) (routingClosed s) (lastReload s) (stages s) (nextGen s) (nextId s) (leases s)
                   (nextLease s) (closes s) (S (cleared s)) 2 (wmuHeld s)), Nothing)
    end.

Definition shutMain (s : t) : t * Reply :=
  if negb (shutPhase s =? 2)%nat then (s, Nothing)
  else (closeRoutes (opt (w s))
          (mk None (dohBootstrap s) (routingClosed s) (lastReload s) (stages s) (nextGen s) (nextId s) (leases s)
             (nextLease s) (closes s) (cleared s) 3 None), Nothing).

(** ** Histories *)

Inductive Event :=
| Start (now : Time) (force ctxErr : bool)
| Build (g : nat) (sur : Surroundings)
| BuildBoot (g : nat) (sur : Surroundings)
| Publish (g : nat) (now : Time) (ctxErr closeFails : bool)
| Find | Lease | Release (l : nat)
| Fence | ShutBoot | ShutMain.

Definition step (s : t) (e : Event) : t * Reply :=
  match e with
  | Start now force ctxErr => startReload now force ctxErr s
  | Build g sur => buildMain g sur s
  | BuildBoot g sur => buildBoot g sur s
  | Publish g now ctxErr closeFails => publish g now ctxErr closeFails s
  | Find => lookup_ s
  | Lease => lease s
  | Release l => release l s
  | Fence => fence s
  | ShutBoot => shutBoot s
  | ShutMain => shutMain s
  end.
Definition run (s : t) (evs : list Event) : t := fold_left (fun s e => (step s e).1) evs s.

(** One reload that nothing interrupts. *)
Definition reloadProxy (now : Time) (force : bool) (ctxErr1 ctxErr2 closeFails : bool) (sur surBoot : Surroundings) (s : t)
  : t * Reply :=
  let then_ (x : t * Reply) (k : nat -> t -> t * Reply) :=
    match x with (s, Running g) => k g s | (s, r) => (s, r) end in
  then_ (startReload now force ctxErr1 s) (fun g s =>
  then_ (buildMain g sur s) (fun g s =>
  then_ (match dohBootstrap s with Some _ => buildBoot g surBoot s | None => (s, Running g) end) (fun g s =>
  publish g now ctxErr2 closeFails s))).

End Reload.

(** ** Specification *)

(** The tables something still refers to. *)
Definition stageRoutes (st : Stage) : list Route :=
  match st with Building => [] | BuildingBoot wp => [wp] | Prepared wp b => wp :: opt b end.
Definition held (s : t) : list Route :=
  opt (w s) ++ (match dohBootstrap s with Some cur => opt cur | None => [] end) ++
  flat_map (fun kv => stageRoutes kv.2) (map_to_list (stages s)).

(** A reload makes a bootstrap table exactly when there is one to replace. *)
Definition stageFits (boot : option (option Route)) (st : Stage) : Prop :=
  match st with
  | Building => True
  | BuildingBoot _ => is_Some boot
  | Prepared _ b => is_Some b <-> is_Some boot
  end.

(** Each identity is held or closed exactly once; readers hold the current
    bootstrap table; both tables come from one construction. *)
Record inv (s : t) : Prop := mkInv {
  i_once : map rId (held s) ++ closes s ≡ₚ seq 0 (nextId s);
  i_leases : forall l id, leases s !! l = Some id -> exists r, dohBootstrap s = Some (Some r) /\ rId r = id;
  i_paired : (shutPhase s <= 1)%nat -> exists r, w s = Some r /\
             match dohBootstrap s with Some cur => exists b, cur = Some b /\ rGen b = rGen r | None => True end;
  i_fenced : routingClosed s = negb (shutPhase s =? 0)%nat;
  i_boot : (2 <= shutPhase s)%nat -> forall b, dohBootstrap s <> Some (Some b);
  i_main : (shutPhase s = 3)%nat -> w s = None;
  i_stages : forall g st, stages s !! g = Some st ->
             (g < nextGen s)%nat /\ Forall (fun r => rGen r = g) (stageRoutes st) /\
             stageFits (dohBootstrap s) st }.

(** ** Lemmas *)

#[local] Abbreviation ids := (map rId).
Definition underWay (m : gmap nat Stage) : list Route := flat_map (fun kv => stageRoutes kv.2) (map_to_list m).

Lemma flat_map_perm {A B} (f : A -> list B) l l' : l ≡ₚ l' -> flat_map f l ≡ₚ flat_map f l'.
Proof.
  induction 1; simpl; [done|by f_equiv| |by etrans].
  rewrite !app_assoc. by rewrite (Permutation_app_comm (f y)).
Qed.

Lemma underWay_delete m g st : m !! g = Some st -> underWay m ≡ₚ stageRoutes st ++ underWay (delete g m).
Proof. intros Hg. unfold underWay. by rewrite <- (flat_map_perm _ _ _ (map_to_list_delete m g st Hg)). Qed.

Lemma underWay_insert m g st : m !! g = None -> underWay (<[g := st]> m) ≡ₚ stageRoutes st ++ underWay m.
Proof. intros Hg. unfold underWay. by rewrite (flat_map_perm _ _ _ (map_to_list_insert m g st Hg)). Qed.

Lemma underWay_update m g st st' : m !! g = Some st -> underWay (<[g := st']> m) ≡ₚ stageRoutes st' ++ underWay (delete g m).
Proof. intros Hg. rewrite <- insert_delete_eq. apply underWay_insert, lookup_delete_eq. Qed.

(** Counting turns an equation of permutations into arithmetic. *)
Definition occ (x : nat) (l : list nat) : nat := count_occ Nat.eq_dec l x.
#[local] Arguments occ : simpl never.
#[local] Arguments seq : simpl never.
Lemma occ_app x a b : occ x (a ++ b) = (occ x a + occ x b)%nat.
Proof. apply count_occ_app. Qed.
Lemma occ_cons x y l : occ x (y :: l) = (occ x [y] + occ x l)%nat.
Proof. change (y :: l) with ([y] ++ l). apply occ_app. Qed.
Lemma occ_nil x : occ x [] = 0%nat.
Proof. done. Qed.
Lemma perm_occ l l' : l ≡ₚ l' <-> forall x, occ x l = occ x l'.
Proof. apply (Permutation_count_occ Nat.eq_dec). Qed.
Lemma seq_next x n : occ x (seq 0 (S n)) = (occ x (seq 0 n) + occ x [n])%nat.
Proof. rewrite seq_S, occ_app. done. Qed.

Ltac counting := repeat first [rewrite !map_app | rewrite !occ_app | rewrite occ_cons | rewrite seq_next | rewrite occ_nil]; simpl map.

Lemma held_ids s x :
  occ x (ids (held s)) = (occ x (ids (opt (w s))) +
    (occ x (ids (match dohBootstrap s with Some cur => opt cur | None => [] end)) + occ x (ids (underWay (stages s)))))%nat.
Proof. unfold held, underWay. by rewrite !map_app, !occ_app. Qed.

Lemma occ_stage m m' a b x : underWay m ≡ₚ a ++ b -> underWay m' ≡ₚ b -> 
  occ x (ids (underWay m)) = (occ x (ids a) + occ x (ids (underWay m')))%nat.
Proof.
  intros H1 H2. rewrite <- occ_app, <- map_app. apply perm_occ. apply Permutation_map. by rewrite H1, H2.
Qed.

Lemma occ_delete m g st x : m !! g = Some st ->
  occ x (ids (underWay m)) = (occ x (ids (stageRoutes st)) + occ x (ids (underWay (delete g m))))%nat.
Proof. intros Hg. by apply (occ_stage _ _ _ (underWay (delete g m))); [apply underWay_delete|]. Qed.

Lemma occ_update m g st st' x : m !! g = Some st ->
  occ x (ids (underWay (<[g := st']> m))) = (occ x (ids (stageRoutes st')) + occ x (ids (underWay (delete g m))))%nat.
Proof. intros Hg. by apply (occ_stage _ _ _ (underWay (delete g m))); [eapply underWay_update|]. Qed.

Lemma occ_insert m g st x : m !! g = None ->
  occ x (ids (underWay (<[g := st]> m))) = (occ x (ids (stageRoutes st)) + occ x (ids (underWay m)))%nat.
Proof. intros Hg. by apply (occ_stage _ _ _ (underWay m)); [apply underWay_insert|]. Qed.

Lemma inv_init boot wp now : inv (init boot wp now).
Proof.
  destruct boot as [b|]; split; simpl; try done; try lia; try (intros; naive_solver); try (intros ? ? ?%lookup_empty_Some; done).
  unfold held. simpl. constructor.
Qed.

Lemma once_occ s : ids (held s) ++ closes s ≡ₚ seq 0 (nextId s) <->
  forall x, (occ x (ids (opt (w s))) +
    (occ x (ids (match dohBootstrap s with Some cur => opt cur | None => [] end)) + occ x (ids (underWay (stages s)))) +
    occ x (closes s) = occ x (seq 0 (nextId s)))%nat.
Proof.
  rewrite perm_occ. split; intros H x; specialize (H x); rewrite occ_app, held_ids in *; lia.
Qed.

Lemma stage_gone s g st : stages s !! g = Some st -> forall s', stages s' = delete g (stages s) -> nextGen s' = nextGen s ->
  (is_Some (dohBootstrap s) <-> is_Some (dohBootstrap s')) -> inv s ->
  forall g' st', stages s' !! g' = Some st' ->
    (g' < nextGen s')%nat /\ Forall (fun r => rGen r = g') (stageRoutes st') /\ stageFits (dohBootstrap s') st'.
Proof.
  intros _ s' -> -> Hb I g' st' [_ Hg]%lookup_delete_Some. destruct (i_stages _ I g' st' Hg) as (? & ? & Hp).
  split_and!; [done..|]. destruct st'; simpl in *; [done|by apply Hb|by rewrite <- Hb].
Qed.

Section Preservation.
Context (cfg : RouteConfig).

Lemma routes_inv_start s now force ctxErr : inv s -> inv (startReload cfg now force ctxErr s).1.
Proof.
  intros I. unfold startReload. repeat (case_match; [done|]). destruct I. split; [apply once_occ; intros x|..]; simpl; try done; try congruence.
  - rewrite occ_insert; [|by apply eq_None_not_Some; intros [st Hst]; apply i_stages0 in Hst as [? _]; lia].
    pose proof (proj1 (once_occ s) i_once0 x). simpl. rewrite ?occ_nil. lia.
  - intros g st [[<- <-]|[_ Hg]]%lookup_insert_Some; [simpl; split_and!; [lia|done|done]|].
    apply i_stages0 in Hg as (? & ? & ?). split_and!; [lia|done|done].
Qed.

Lemma inv_build s g sur : inv s -> inv (buildMain cfg g sur s).1.
Proof.
  intros I. unfold buildMain. destruct (stages s !! g) as [[| |]|] eqn:Hg; try done.
  destruct (i_stages _ I g _ Hg) as (Hlt & _).
  pose proof (proj1 (once_occ s) (i_once _ I)) as Ho.
  destruct (buildWproxy cfg sur) as [wp|e]; simpl.
  - pose proof I as []. split; [apply once_occ; intros x|..]; simpl; try done; try congruence.
    + specialize (Ho x). simpl.
      rewrite (occ_update _ _ _ _ _ Hg), seq_next. rewrite (occ_delete _ _ _ _ Hg) in Ho.
      destruct (dohBootstrap s); simpl in *; rewrite ?occ_nil in *; lia.
    + intros g' st' [[<- <-]|[_ Hg']]%lookup_insert_Some; [|by apply i_stages0].
      split_and!; [done|by destruct (dohBootstrap s); repeat constructor|].
      destruct (dohBootstrap s); simpl; [by eexists|]. split; by intros [? ?].
  - split; [apply once_occ; intros x|..]; simpl; try apply I.
    + specialize (Ho x). simpl. rewrite (occ_delete _ _ _ _ Hg) in Ho. simpl in Ho. rewrite ?occ_nil in Ho. lia.
    + exact (stage_gone s g _ Hg (endReload g s) eq_refl eq_refl (iff_refl _) I).
Qed.

Lemma inv_buildBoot s g sur : inv s -> inv (buildBoot cfg g sur s).1.
Proof.
  intros I. unfold buildBoot. destruct (stages s !! g) as [[|wp|]|] eqn:Hg; try done.
  destruct (i_stages _ I g _ Hg) as (Hlt & Hw & Hb).
  pose proof (proj1 (once_occ s) (i_once _ I)) as Ho.
  destruct (buildWproxy cfg sur) as [b|e]; simpl.
  - pose proof I as []. split; [apply once_occ; intros x|..]; simpl; try done; try congruence.
    + specialize (Ho x). simpl.
      rewrite (occ_update _ _ _ _ _ Hg), seq_next. rewrite (occ_delete _ _ _ _ Hg) in Ho. simpl in *.
      rewrite (occ_cons x _ [nextId s]). lia.
    + intros g' st' [[<- <-]|[_ Hg']]%lookup_insert_Some; [|by apply i_stages0].
      split_and!; [done| |].
      * simpl in *. inversion_clear Hw. by repeat constructor.
      * simpl in *. split; [by intros _|by eexists].
  - split; [apply once_occ; intros x|..]; simpl; try apply I.
    + specialize (Ho x). simpl. rewrite (occ_delete _ _ _ _ Hg) in Ho. simpl in Ho.
      rewrite occ_app. lia.
    + exact (stage_gone s g _ Hg (endReload g s) eq_refl eq_refl (iff_refl _) I).
Qed.

Lemma inv_discard s g wp fresh : inv s -> stages s !! g = Some (Prepared wp fresh) ->
  inv (closeRoutes (wp :: opt fresh) (endReload g s)).
Proof.
  intros I Hg. pose proof (proj1 (once_occ s) (i_once _ I)) as Ho.
  split; [apply once_occ; intros x|..]; simpl; try apply I.
  - specialize (Ho x). rewrite (occ_delete _ _ _ _ Hg) in Ho. simpl in Ho. rewrite occ_app. lia.
  - exact (stage_gone s g _ Hg (endReload g s) eq_refl eq_refl (iff_refl _) I).
Qed.

Lemma inv_publish s g now ctxErr closeFails : inv s -> inv (publish g now ctxErr closeFails s).1.
Proof.
  intros I. unfold publish. destruct (stages s !! g) as [[| |wp fresh]|] eqn:Hg; try done.
  cbn zeta. destruct (negb _ && ctxErr); [by apply inv_discard|]. destruct (negb _ && _); [done|].
  destruct (routingClosed s) eqn:Hf; [by apply inv_discard|].
  destruct (_ && _) eqn:Hb; [by destruct I; split|].
  destruct (i_stages _ I g _ Hg) as (Hlt & Hw & Hfit). simpl in Hw, Hfit. pose proof (proj1 (once_occ s) (i_once _ I)) as Ho.
  pose proof (i_fenced _ I) as Hp. rewrite Hf in Hp. symmetry in Hp. apply negb_false_iff, Nat.eqb_eq in Hp.
  split; [apply once_occ; intros x|..]; simpl; try congruence; try lia.
  - specialize (Ho x). rewrite (occ_delete _ _ _ _ Hg) in Ho. simpl in Ho. rewrite !map_app, !occ_app.
    rewrite (occ_cons x (rId wp) (ids (opt fresh))) in Ho.
    destruct (dohBootstrap s) as [cur|]; [lia|].
    destruct fresh; [by destruct (proj1 Hfit) as [? ?]|]. lia.
  - intros l id Hl. destruct (i_leases _ I l id Hl) as (r & Hr & _). rewrite Hr in Hb. simpl in Hb.
    apply negb_false_iff, bool_decide_eq_true in Hb. rewrite Hb in Hl. by rewrite lookup_empty in Hl.
  - intros _. exists wp. split; [done|]. destruct (dohBootstrap s); [|done].
    destruct (proj2 Hfit) as [b Hb']; [done|]. exists b. split; [done|]. subst fresh. simpl in Hw.
    inversion_clear Hw as [|? ? H1 H2]. inversion_clear H2 as [|? ? H3 _]. congruence.
  - by rewrite Hp.
  - assert (is_Some (dohBootstrap s) <-> is_Some (match dohBootstrap s with Some _ => Some fresh | None => None end)) as Hs
      by (destruct (dohBootstrap s); split; by eauto).
    exact (stage_gone s g _ Hg (mk (Some wp) (match dohBootstrap s with Some _ => Some fresh | None => None end) false now
      (delete g (stages s)) (nextGen s) (nextId s) (leases s) (nextLease s) [] 0 0 None) eq_refl eq_refl Hs I).
Qed.

Lemma inv_lease s : inv s -> inv (lease s).1.
Proof.
  intros I. unfold lease. destruct (dohBootstrap s) as [[r|]|] eqn:Hb; try done. destruct (bool_decide _); [done|]. pose proof I as [].
  split; simpl; try done. intros l id [[<- <-]|[_ Hl]]%lookup_insert_Some; [by exists r|by apply (i_leases0 l)].
Qed.

Lemma inv_release s l : inv s -> inv (release l s).1.
Proof. intros []. split; simpl; try done. intros l' id [_ Hl]%lookup_delete_Some. by apply (i_leases0 l'). Qed.

Lemma inv_shut s : inv s -> inv (fence s).1 /\ inv (shutBoot s).1 /\ inv (shutMain s).1.
Proof.
  intros I. pose proof (proj1 (once_occ s) (i_once _ I)) as Ho. pose proof I as []. split_and!.
  - unfold fence. destruct (bool_decide _); [done|]. destruct (shutPhase s =? 0)%nat eqn:Hp; [|done]. apply Nat.eqb_eq in Hp.
    split; simpl; try done; try lia. intros _. apply i_paired0. lia.
  - unfold shutBoot. destruct (shutPhase s =? 1)%nat eqn:Hp; [|done]. apply Nat.eqb_eq in Hp. simpl.
    destruct (dohBootstrap s) as [cur|] eqn:Hb.
    + destruct (bool_decide _) eqn:Hl; [|done]. to_prop. simpl.
      split; [apply once_occ; intros x|..]; simpl; try done; try lia.
      * specialize (Ho x). rewrite !occ_app. rewrite ?occ_nil. lia.
      * intros l id Hlk. by rewrite Hl, lookup_empty in Hlk.
      * by rewrite i_fenced0, Hp.
      * intros g st Hg. destruct (i_stages0 g st Hg) as (? & ? & Hfit). split_and!; [done..|].
        destruct st; simpl in *; [done|by eexists|]. rewrite Hfit. split; by eexists.
    + split; [apply once_occ; intros x|..]; simpl; try done; try lia. by rewrite i_fenced0, Hp.
  - unfold shutMain. destruct (shutPhase s =? 2)%nat eqn:Hp; [|done]. apply Nat.eqb_eq in Hp. simpl.
    split; [apply once_occ; intros x|..]; simpl; try done; try lia.
    + specialize (Ho x). rewrite occ_app, ?occ_nil. lia.
    + by rewrite i_fenced0, Hp.
    + intros _. apply i_boot0. lia.
Qed.

Lemma inv_step s e : inv s -> inv (step cfg s e).1.
Proof.
  intros I. destruct e; cbn [step];
    [by apply routes_inv_start|by apply inv_build|by apply inv_buildBoot|by apply inv_publish|done|by apply inv_lease|by apply inv_release|..].
  all: by apply inv_shut.
Qed.

Lemma routes_inv_run s evs : inv s -> inv (run cfg s evs).
Proof. unfold run. revert s. induction evs as [|e evs IH]; intros s I; [done|]. by apply IH, inv_step. Qed.

(** Once the fence is up, the table is the one there was, or none. *)
Lemma fenced_step s e : routingClosed s = true ->
  routingClosed (step cfg s e).1 = true /\ (w (step cfg s e).1 = w s \/ w (step cfg s e).1 = None).
Proof.
  intros Hf. destruct e; simpl; auto.
  - unfold startReload. rewrite Hf. repeat (case_match; auto).
  - unfold buildMain. by repeat case_match; auto.
  - unfold buildBoot. by repeat case_match; auto.
  - unfold publish. destruct (stages s !! g) as [[| |]|]; auto. cbn zeta. rewrite Hf. repeat (case_match; auto).
  - unfold lease. by repeat case_match; auto.
  - unfold fence. by repeat case_match; auto.
  - unfold shutBoot. by repeat case_match; auto.
  - unfold shutMain. by case_match; auto.
Qed.

Lemma fenced_run evs s : routingClosed s = true -> w (run cfg s evs) = w s \/ w (run cfg s evs) = None.
Proof.
  unfold run. revert s. induction evs as [|e evs IH]; intros s Hf; [by left|]. simpl.
  destruct (fenced_step s e Hf) as [Hf' Hw]. destruct (IH _ Hf') as [E|E]; [|by right]. rewrite E. exact Hw.
Qed.

Lemma held_not_closed s r : inv s -> r ∈ held s -> rId r ∉ closes s.
Proof.
  intros I Hr Hc. pose proof (i_once _ I) as Hp. assert (NoDup (ids (held s) ++ closes s)) as Hn.
  { rewrite Hp. apply NoDup_ListNoDup, seq_NoDup. }
  apply NoDup_app in Hn as (_ & Hd & _). apply (Hd (rId r)); [|done]. by apply list_elem_of_fmap_2.
Qed.
End Preservation.

(** ** Properties *)

(** C27: Whatever reloads, look ups, DoH dials and shutdown parts interleave: every
    table constructed is held in one place or was closed once; no look up and
    no DoH dial uses a closed table; until the shutdown the two tables come from
    the same construction; behind the fence no table is published; and when the
    shutdown is over and no reload is under way, every table is closed. *)
Theorem routes_accounted cfg boot wp now evs :
  let s := run cfg (init boot wp now) evs in
  map rId (held s) ++ closes s ≡ₚ seq 0 (nextId s) /\
  (forall r, (lookup_ s).2 = Routed (Some r) -> rId r ∉ closes s) /\
  (forall l id, leases s !! l = Some id -> id ∉ closes s) /\
  ((shutPhase s <= 1)%nat -> exists r, w s = Some r /\
     match dohBootstrap s with Some cur => exists b, cur = Some b /\ rGen b = rGen r | None => True end) /\
  (routingClosed s = true -> forall evs', w (run cfg s evs') = w s \/ w (run cfg s evs') = None) /\
  (shutPhase s = 3%nat -> stages s = ∅ -> w s = None /\ closes s ≡ₚ seq 0 (nextId s)).
Proof.
  intros s. assert (inv s) as I by (apply routes_inv_run, inv_init). split_and!.
  - apply I.
  - intros r Hr. simpl in Hr. destruct (bool_decide _); [done|]. injection Hr as Hr. apply (held_not_closed s r I). unfold held. rewrite Hr. set_solver.
  - intros l id Hl. destruct (i_leases _ I l id Hl) as (r & Hr & <-). apply (held_not_closed s r I).
    unfold held. rewrite Hr. set_solver.
  - apply I.
  - intros Hf evs'. by apply fenced_run.
  - intros Hp Hs. split; [by apply (i_main _ I)|]. pose proof (i_once _ I) as Ho. unfold held in Ho.
    rewrite (i_main _ I Hp), Hs in Ho. pose proof (i_boot _ I ltac:(lia)) as Hb.
    destruct (dohBootstrap s) as [[b|]|]; [by destruct (Hb b)| |]; exact Ho.
Qed.


(** ** DoH bootstrap *)

Inductive DohErr :=
| ENetwork | EClosed | ERoute | ELoop | ESplit | EPort | ELookup | ENoAddresses | EInterfaces | EListener
| EDialCtx | EDial.

(** An address with its zone, [net.IPAddr]. *)
Record IPAddr := mkIPAddr { ip : IP; zone : string }.
Definition ipAddrString (a : IPAddr) : string :=
  if String.eqb (zone a) "" then IPString (ip a) else IPString (ip a) +:+ "%" +:+ zone a.

(** Interfaces without an address are [None]. *)
Definition isLocalInterfaceIP (x : IP) (local : list (option IP)) : bool :=
  existsb (fun a => match a with Some y => x =? y | None => false end) local.

Section SafeDial.
Context (proxies : list Server) (listenerPort : Z).
(** The system's resolver and interfaces; [base] opens a connection; the
    request's context before the [n]-th dial. *)
Context (LookupIPAddr : string -> option (list IPAddr)) (InterfaceAddrs : option (list (option IP)))
  (base : string -> bool) (ctxDone : nat -> bool).

Definition isProxyAddress (host : string) (port : Z) : bool :=
  existsb (fun c => negb (bool_decide (c = Direct)) && EqualFold (sHost c) host && (sPort c =? port)) proxies.

(** The dials of the checked addresses, and which of them succeeded. *)
Fixpoint dialPinned (n : nat) (portText : string) (ips : list IPAddr) : list string * result DohErr string :=
  match ips with
  | [] => ([], Err EDial)
  | a :: rest =>
      if ctxDone n then ([], Err EDialCtx)
      else
        let pinned := JoinHostPort (ipAddrString a) portText in
        if base pinned then ([pinned], Ok pinned)
        else let '(dialed, r) := dialPinned (S n) portText rest in (pinned :: dialed, r)
  end.

(** What was dialled, and the address connected to. *)
Definition safeDial (address : string) : list string * result DohErr string :=
  match SplitHostPort address with
  | None => ([], Err ESplit)
  | Some (host, portText) =>
      match Atoi portText with
      | Err _ => ([], Err EPort)
      | Ok port =>
          if negb (isProxyAddress host port) then ([address], if base address then Ok address else Err EDial)
          else match LookupIPAddr host with
               | None => ([], Err ELookup)
               | Some [] => ([], Err ENoAddresses)
               | Some ips =>
                   if port =? listenerPort then
                     match InterfaceAddrs with
                     | None => ([], Err EInterfaces)
                     | Some local =>
                         if existsb (fun a => IsLoopback (ip a) || IsUnspecified (ip a) || isLocalInterfaceIP (ip a) local) ips
                         then ([], Err EListener) else dialPinned 0 portText ips
                     end
                   else dialPinned 0 portText ips
               end
      end
  end.
End SafeDial.

(** The dialer [New] gives the DoH resolver: [find] is the route of the
    bootstrap table, if there is one; [connect] is the fallback over the
    candidates, whose second result is what the proxy sent behind its answer. *)
Definition dohDial {C RErr} (find : option (string -> result RErr (list Server))) (listenerPort : Z)
    (connect : list Server -> result DohErr (C * list Z)) (network addr : string) : result DohErr (C * list Z) :=
  if negb (String.eqb network "tcp") then Err ENetwork
  else match find with
       | None => Err EClosed
       | Some route =>
           match route ("https://" +:+ addr) with
           | Err _ => Err ERoute
           | Ok proxies =>
               if existsb (fun c => isLocalDoHProxyLoop c listenerPort) proxies then Err ELoop else connect proxies
           end
       end.

(** [dohBufferedConn.Read]: the bytes left over come first. *)
Definition bufferedRead (n : nat) (pending : list Z) (read : nat -> list Z) : list Z * list Z :=
  match pending with
  | [] => (read n, [])
  | _ => (take n pending, drop n pending)
  end.

(** ** Lemmas: dialling *)

Lemma SplitHostPort_join host port :
  no_char "[" host = true -> no_char "]" host = true ->
  no_char ":" port = true -> no_char "[" port = true -> no_char "]" port = true ->
  SplitHostPort (JoinHostPort host port) = Some (host, port).
Proof.
  intros H1 H2 H3 H4 H5. unfold JoinHostPort. destruct (ContainsChar host ":" || ContainsChar host "%") eqn:E.
  - unfold SplitHostPort.
    assert ("[" +:+ host +:+ "]:" +:+ port = ("[" +:+ host +:+ "]") +:+ String ":" port) as Ec by (by rewrite !app_assoc_str, <- !app_assoc_str).
    rewrite Ec at 1. rewrite CutLast_app by done. cbn -[Cut ContainsChar String.eqb].
    rewrite Cut_app by done. cbn -[ContainsChar String.eqb].
    rewrite String.eqb_refl, !ContainsChar_no_char. unfold no_char in *. rewrite !str_forall_app. cbn [str_forall].
    rewrite H1, H4, H5. done.
  - apply orb_false_iff in E as [Ec _]. rewrite ContainsChar_no_char in Ec. apply negb_false_iff in Ec.
    by apply SplitHostPort_plain.
Qed.

Lemma Itoa_no_char c n : 0 <= n -> is_digit c = false -> no_char c (Itoa n) = true.
Proof.
  intros Hn Hc. unfold no_char. eapply str_forall_impl; [|by apply Itoa_digits]. intros d Hd. simpl.
  destruct (Ascii.eqb_spec d c) as [->|]; [by rewrite Hc in Hd|done].
Qed.

Lemma dialPinned_dials base ctxDone n portText ips :
  let '(dialed, r) := dialPinned base ctxDone n portText ips in
  exists k, dialed = map (fun a => JoinHostPort (ipAddrString a) portText) (take k ips) /\
  forall a, r = Ok a -> a ∈ dialed /\ base a = true.
Proof.
  revert n. induction ips as [|a ips IH]; intros n; simpl; [by exists 0%nat|].
  destruct (ctxDone n); [by exists 0%nat|]. destruct (base _) eqn:Eb.
  - exists 1%nat. split; [done|]. intros ? [= <-]. split; [set_solver|done].
  - specialize (IH (S n)). destruct (dialPinned _ _ _ _ _) as [dialed r]. destruct IH as (k & -> & Hr).
    exists (S k). split; [done|]. intros x Hx. destruct (Hr x Hx). split; [set_solver|done].
Qed.

(** The address of a candidate is dialled only at addresses the system's
    resolver gives for its host, each at most once and in that order; at the
    port the server listens on, none of them is an address of this machine. *)
Theorem doh_never_dials_listener proxies listenerPort LookupIPAddr InterfaceAddrs base ctxDone c :
  c ∈ proxies -> c <> Direct -> no_char "[" (sHost c) = true -> no_char "]" (sHost c) = true ->
  0 <= sPort c <= max_int64 ->
  let '(dialed, r) := safeDial proxies listenerPort LookupIPAddr InterfaceAddrs base ctxDone
                        (JoinHostPort (sHost c) (Itoa (sPort c))) in
  (dialed = [] \/ exists ips k, LookupIPAddr (sHost c) = Some ips /\
     dialed = map (fun a => JoinHostPort (ipAddrString a) (Itoa (sPort c))) (take k ips) /\
     (sPort c = listenerPort -> exists local, InterfaceAddrs = Some local /\
        forall a, a ∈ ips -> IsLoopback (ip a) = false /\ IsUnspecified (ip a) = false /\ Some (ip a) ∉ local)) /\
  forall a, r = Ok a -> a ∈ dialed /\ base a = true.
Proof.
  intros Hin Hd H1 H2 Hp. unfold safeDial.
  rewrite SplitHostPort_join by (try done; apply Itoa_no_char; done || lia).
  rewrite Atoi_Itoa by lia.
  assert (isProxyAddress proxies (sHost c) (sPort c) = true) as ->.
  { apply existsb_exists. exists c. split; [by apply list_elem_of_In|]. rewrite bool_decide_false by done. simpl.
    unfold EqualFold. by rewrite String.eqb_refl, Z.eqb_refl. }
  cbn [negb]. destruct (LookupIPAddr (sHost c)) as [[|a0 ips]|] eqn:El; [by split; [left|]| |by split; [left|]].
  set (all := a0 :: ips) in *. pose proof (dialPinned_dials base ctxDone 0 (Itoa (sPort c)) all) as Hdial.
  destruct (sPort c =? listenerPort) eqn:Eport.
  - destruct InterfaceAddrs as [local|]; [|by split; [left|]]. destruct (existsb _ all) eqn:Ex; [by split; [left|]|].
    destruct (dialPinned _ _ _ _ _) as [dialed r]. destruct Hdial as (k & -> & Hr). split; [|done].
    right. exists all, k. split_and!; [done..|]. intros _. exists local. split; [done|]. intros a Ha.
    assert (IsLoopback (ip a) || IsUnspecified (ip a) || isLocalInterfaceIP (ip a) local = false) as Ea.
    { apply not_true_is_false. intros Ht. apply not_true_iff_false in Ex. apply Ex, existsb_exists.
      exists a. split; [by apply list_elem_of_In|done]. }
    apply orb_false_iff in Ea as [[? ?]%orb_false_iff Hl]. split_and!; [done..|]. intros Hloc.
    apply not_true_iff_false in Hl. apply Hl, existsb_exists. exists (Some (ip a)). split; [by apply list_elem_of_In|apply Z.eqb_refl].
  - destruct (dialPinned _ _ _ _ _) as [dialed r]. destruct Hdial as (k & -> & Hr). split; [|done].
    right. exists all, k. split_and!; [done..|]. intros E. apply Z.eqb_neq in Eport. lia.
Qed.

(** ** Witnesses *)

Definition toyCfg : RouteConfig := mkRouteConfig "" "" "" 60.
Definition toySur : Surroundings := Wproxy.Wp.mkSur true Wproxy.Wp.noConfig (fun _ => "") true.
Definition toyW : Wproxy := match buildWproxy toyCfg toySur with Ok wp => wp | Err _ => Wproxy.Wp.mkW ModeNone
  Wproxy.Wp.RouteSourceDirect false [] Wproxy.Wp.noRules false false Wproxy.Wp.noConfig Wproxy.Wp.noEnv end.

(** A reload that meets the fence, and a shutdown that waits for a DoH dial. *)
Lemma routes_accounted_witness :
  let s := run toyCfg (init (Some toyW) toyW 0)
    [Start 0 true false; Build 1 toySur; BuildBoot 1 toySur; Lease; Fence; ShutBoot; Publish 1 0 false false; Release 0;
     ShutBoot; ShutMain] in
  closes s = [2; 3; 0; 1]%nat /\ w s = None /\ closes s ≡ₚ seq 0 (nextId s).
Proof.
  pose proof (routes_accounted toyCfg (Some toyW) toyW 0
    [Start 0 true false; Build 1 toySur; BuildBoot 1 toySur; Lease; Fence; ShutBoot; Publish 1 0 false false; Release 0;
     ShutBoot; ShutMain]) as H.
  cbn zeta in H. set (s := run _ _ _) in *.
  assert (closes s = [2; 3; 0; 1]%nat) as E by (by vm_compute).
  split; [exact E|]. apply H; by vm_compute.
Defined.


(** A publication that waits for a DoH dial keeps every look up waiting. *)
Example doh_dial_stalls_lookups :
  let s := run toyCfg (init (Some toyW) toyW 0)
    [Start 0 true false; Build 1 toySur; BuildBoot 1 toySur; Lease; Publish 1 0 false false] in
  (lookup_ s).2 = Blocked /\ (lookup_ (run toyCfg s [Release 0; Publish 1 0 false false])).2 <> Blocked.
Proof. by vm_compute. Qed.

Definition toyProxy : Server := mkServer "proxy.corp" 3128 "http".

Lemma doh_never_dials_listener_witness :
  let '(dialed, r) := safeDial [toyProxy] 3128 (fun _ => Some [mkIPAddr (of_v4 167772161) ""; mkIPAddr (of_v4 167772162) ""])
                        (Some [Some (of_v4 3232235777)]) (fun a => String.eqb a "10.0.0.2:3128") (fun _ => false)
                        (JoinHostPort (sHost toyProxy) (Itoa (sPort toyProxy))) in
  dialed = ["10.0.0.1:3128"; "10.0.0.2:3128"] /\ "10.0.0.2:3128" ∈ dialed.
Proof.
  pose proof (doh_never_dials_listener [toyProxy] 3128 (fun _ => Some [mkIPAddr (of_v4 167772161) ""; mkIPAddr (of_v4 167772162) ""])
    (Some [Some (of_v4 3232235777)]) (fun a => String.eqb a "10.0.0.2:3128") (fun _ => false) toyProxy
    ltac:(by apply list_elem_of_singleton) ltac:(done) eq_refl eq_refl ltac:(by vm_compute)) as H.
  destruct (safeDial _ _ _ _ _ _ _) as [dialed r] eqn:E. vm_compute in E. injection E as <- <-.
  split; [done|]. by apply H.
Defined.

(** With port 0 the system chooses the port; the guard still compares with 0,
    so a candidate that is the server itself is dialled. *)
Example doh_guard_misses_bound_port :
  let self := mkServer "127.0.0.1" 41000 "http" in
  isLocalDoHProxyLoop self 0 = false /\
  (safeDial [self] 0 (fun _ => Some [mkIPAddr (of_v4 2130706433) ""]) (Some []) (fun _ => true) (fun _ => false)
     "127.0.0.1:41000").1 = ["127.0.0.1:41000"].
Proof. by vm_compute. Qed.

End Rt.
