(* ===== verification/Handlers.v ===== *)
(** * Handlers: what becomes of one request ([handleHTTP] of
    [internal/proxy/proxy.go], [handleConnect] of [connect.go],
    [handleHTTPUpgrade] of [intermediary.go])

    A handler is the list of its effects, given what its calls answer.  The
    effects on tunnels follow a protocol; run against the registry of
    [Tunnels.v] by any number of handlers in any interleaving, it keeps the
    registry's count of reservations and tunnels the number of handlers that
    hold one. *)

From S2P Require Export Prelude GoStrings.
From S2P Require Import NetAddr.
From S2P Require Tunnels Access Intermediary Connect Wproxy ReplayBody.
Import Wproxy.Wp(Server).
Import Connect.Cn(connectTarget).
Import Intermediary.Im(Header, requestedUpgrade, upgradeHeader).
Import ReplayBody.Rb(BodyErr, EContext, ETooLarge, EQuota).
Import Access.Acc(Decision, Forbidden, DoctorResponse, QuitAccepted, AuthRequired, HandleConnect, HandleHTTP).

Module Hd.

Definition bytes := list Z.

Inductive Effect :=
| Answered (status : Z)                (* a complete response or [http.Error] *)
| RouteFailed                          (* the supervisor is told *)
| UpstreamOpened | UpstreamClosed
| Reserve (ok : bool) | Cancel | Activate (ok : bool) | CloseTunnel | Finish
| ToClient (status : Z) (header : option Header) (rest : bytes)   (* what precedes the relayed bytes *)
| ToUpstream (b : bytes)
| Relay
| BodyKept | BodyReleased              (* the replayable body *)
| ResponseOpened | ResponseClosed.

(** ** CONNECT *)

Record ConnEnv := mkConnEnv {
  hijackable : bool; reserved : bool; hijacks : bool; activated : bool;
  written : bool;        (* the header reached the client *)
  pipelined : bytes;     (* read with the request, not consumed *)
  forwarded : bool }.    (* they reached the upstream *)

(** From [hijackable] on, once the upstream stands. *)
Definition openTunnel (env : ConnEnv) (header : list Effect) : list Effect :=
  if negb (hijackable env) then [UpstreamClosed; Answered 500]
  else if negb (reserved env) then [Reserve false; UpstreamClosed; Answered 503]
  else if negb (hijacks env) then [Reserve true; Cancel; UpstreamClosed]
  else if negb (activated env) then [Reserve true; Activate false; UpstreamClosed]
  else
    [Reserve true; Activate true] ++ header ++
    (if negb (written env) then [CloseTunnel; UpstreamClosed; Finish]
     else match pipelined env with
          | [] => [Relay; CloseTunnel; UpstreamClosed; Finish]
          | b => ToUpstream b :: (if forwarded env then [Relay; CloseTunnel; UpstreamClosed; Finish]
                                  else [CloseTunnel; UpstreamClosed; Finish])
          end).

(** [find] is [findProxyForURL]; [connect] the CONNECT fallback, which gives
    the bytes the upstream sent behind its answer. *)
Definition handleConnect {RErr CErr} (find : string -> result RErr (list Server)) (connect : string -> list Server -> result CErr bytes)
    (host : string) (env : ConnEnv) : list Effect :=
  let target := connectTarget host in
  match find ("https://" +:+ target) with
  | Err _ => [RouteFailed; Answered 502]
  | Ok proxies =>
      match connect target proxies with
      | Err _ => [Answered 502]
      | Ok leftover => UpstreamOpened :: openTunnel env [ToClient 200 None leftover]
      end
  end.

(** ** Protocol upgrades *)

(** [duplex]: the response's body can be written to as well. *)
Definition handleHTTPUpgrade (request : Header) (duplex : bool) (status : Z) (response : Header) (env : ConnEnv) : list Effect :=
  if negb duplex || String.eqb (requestedUpgrade request) "" then [UpstreamClosed; Answered 502]
  else openTunnel env [ToClient status (Some (upgradeHeader response)) []].

(** ** Plain requests *)

(** [roundTripHTTPWithProxyFallback]'s answer. *)
Record Response := mkResponse { rStatus : Z; rHeader : Header; duplex : bool }.

Definition targetOf (abs : bool) (url host requestURI : string) : string :=
  if abs then url else "http://" +:+ host +:+ requestURI.

Definition captureStatus (e : BodyErr) : option Z :=
  match e with
  | EContext => None
  | ETooLarge => Some 413
  | EQuota => Some 507
  | _ => Some 400
  end.

(** [keep] is [needsReplayableBody], [capture] the error of keeping the body,
    [parses] whether the target URL parses. *)
Definition handleHTTP {RErr HErr} (find : string -> result RErr (list Server)) (parses : string -> bool)
    (keep : list Server -> bool) (capture : option BodyErr) (roundTrip : string -> list Server -> result HErr Response)
    (abs : bool) (url host requestURI : string) (request : Header) (env : ConnEnv) : list Effect :=
  let targetURL := targetOf abs url host requestURI in
  match find targetURL with
  | Err _ => [RouteFailed; Answered 502]
  | Ok proxies =>
      if negb (parses targetURL) then [Answered 400]
      else
        let send := match roundTrip targetURL proxies with
                    | Err _ => [Answered 502]
                    | Ok r => if rStatus r =? 101
                              then UpstreamOpened :: handleHTTPUpgrade request (duplex r) (rStatus r) (rHeader r) env
                              else [ResponseOpened; Answered (rStatus r); ResponseClosed]
                    end in
        if keep proxies then
          match capture with
          | Some e => match captureStatus e with Some code => [Answered code] | None => [] end
          | None => BodyKept :: send ++ [BodyReleased]
          end
        else send
  end.

(** [ServeHTTP] on the decision of [Access.v]. *)
Definition dispatch (d : Decision) (connectHandler httpHandler : list Effect) : list Effect :=
  match d with
  | Forbidden => [Answered 403]
  | DoctorResponse | QuitAccepted => [Answered 200]
  | AuthRequired => [Answered 407]
  | HandleConnect => connectHandler
  | HandleHTTP => httpHandler
  end.

(** ** The protocol of one handler *)

Inductive Phase := Idle | Held | InTunnel | Over.
#[global] Instance Phase_eq_dec : EqDecision Phase.
Proof. solve_decision. Defined.

(** A handler in phase [p] may do [e]; bytes go to the client's connection only
    in a tunnel. *)
Definition advance (p : Phase) (e : Effect) : option Phase :=
  match e, p with
  | Reserve true, Idle => Some Held
  | Reserve false, Idle => Some Over
  | Cancel, Held => Some Over
  | Activate true, Held => Some InTunnel
  | Activate false, Held => Some Over
  | CloseTunnel, InTunnel | Relay, InTunnel | ToClient _ _ _, InTunnel | ToUpstream _, InTunnel => Some InTunnel
  | Finish, InTunnel => Some Over
  | (Reserve _ | Cancel | Activate _ | CloseTunnel | Relay | ToClient _ _ _ | ToUpstream _ | Finish), _ => None
  | _, p => Some p
  end.

Fixpoint phases (p : Phase) (effs : list Effect) : option Phase :=
  match effs with
  | [] => Some p
  | e :: rest => match advance p e with Some p' => phases p' rest | None => None end
  end.

Definition tally (p : Effect -> bool) (effs : list Effect) : nat := length (bfilter p effs).
Definition answers (e : Effect) : bool := match e with Answered _ | ToClient _ _ _ => true | _ => false end.
Definition opensUp (e : Effect) : bool := match e with UpstreamOpened => true | _ => false end.
Definition closesUp (e : Effect) : bool := match e with UpstreamClosed => true | _ => false end.
Definition keeps (e : Effect) : bool := match e with BodyKept => true | _ => false end.
Definition releases (e : Effect) : bool := match e with BodyReleased => true | _ => false end.
Definition opensResp (e : Effect) : bool := match e with ResponseOpened => true | _ => false end.
Definition closesResp (e : Effect) : bool := match e with ResponseClosed => true | _ => false end.

(** What holds of a handler's effects, whatever its calls answer. *)
Record settled (effs : list Effect) : Prop := mkSettled {
  h_phase : phases Idle effs = Some Idle \/ phases Idle effs = Some Over;
  h_answer : (tally answers effs <= 1)%nat;
  h_upstream : (tally opensUp effs = tally closesUp effs /\ tally closesUp effs <= 1)%nat;
  h_body : tally keeps effs = tally releases effs;
  h_response : tally opensResp effs = tally closesResp effs }.

(** The effect lists of the two handlers. *)
Inductive HandlerRun : list Effect -> Prop :=
| RunConnect {RErr CErr} (find : string -> result RErr (list Server)) (connect : string -> list Server -> result CErr bytes) host env :
    HandlerRun (handleConnect find connect host env)
| RunHTTP {RErr HErr} (find : string -> result RErr (list Server)) parses keep capture
    (roundTrip : string -> list Server -> result HErr Response) abs url host requestURI request env :
    HandlerRun (handleHTTP find parses keep capture roundTrip abs url host requestURI request env).

Lemma path_app p a b : phases p (a ++ b) = match phases p a with Some q => phases q b | None => None end.
Proof. revert p. induction a as [|e a IH]; intros p; [done|]. simpl. by destruct (advance p e). Qed.

Lemma count_app p a b : tally p (a ++ b) = (tally p a + tally p b)%nat.
Proof. unfold tally. by rewrite List.filter_app, length_app. Qed.

(** The part of a handler that has an upstream connection. *)
Lemma settled_tunnel env status h rest : settled (UpstreamOpened :: openTunnel env [ToClient status h rest]).
Proof.
  unfold openTunnel. destruct (hijackable env), (reserved env), (hijacks env), (activated env), (written env); simpl.
  all: try (destruct (pipelined env); [|destruct (forwarded env)]).
  all: split; unfold tally; simpl; auto; lia.
Qed.

Lemma settled_upgrade request duplex status response env :
  settled (UpstreamOpened :: handleHTTPUpgrade request duplex status response env).
Proof. unfold handleHTTPUpgrade. destruct (_ || _); [split; unfold tally; simpl; auto; lia|apply settled_tunnel]. Qed.

Lemma settled_kept effs : settled effs -> tally keeps effs = 0%nat -> settled (BodyKept :: effs ++ [BodyReleased]).
Proof.
  intros [Hp Ha Hu Hb Hr] Hk. split; simpl; rewrite ?path_app; unfold tally in *; simpl; rewrite ?List.filter_app, ?length_app; simpl; try lia.
  destruct Hp as [-> | ->]; auto.
Qed.

Lemma settled_run effs : HandlerRun effs -> settled effs.
Proof.
  intros [R C find connect host env|R H find parses keep capture roundTrip abs url host requestURI request env].
  - unfold handleConnect. destruct (find _); [|split; unfold tally; simpl; auto; lia].
    destruct (connect _ _); [apply settled_tunnel|split; unfold tally; simpl; auto; lia].
  - unfold handleHTTP. destruct (find _) as [proxies|e]; [|split; unfold tally; simpl; auto; lia].
    destruct (negb _); [split; unfold tally; simpl; auto; lia|]. cbn zeta.
    set (send := match roundTrip _ _ with Ok r => _ | Err _ => _ end).
    assert (settled send /\ tally keeps send = 0%nat) as [Hs Hk].
    { subst send. destruct (roundTrip _ _) as [r|e]; [destruct (rStatus r =? 101)|].
      - split; [apply settled_upgrade|]. unfold handleHTTPUpgrade, openTunnel.
        by repeat case_match.
      - split; [split; unfold tally; simpl; auto; lia|done].
      - split; [split; unfold tally; simpl; auto; lia|done]. }
    clearbody send. destruct (keep proxies); [|done]. destruct capture as [e|]; [|by apply settled_kept].
    destruct (captureStatus e); split; unfold tally; simpl; auto; lia.
Qed.

(** ** Handlers beside each other *)

(** The registry, and for each handler its phase and its tunnel. *)
Record Sys := mkSys { reg : Tunnels.Tun.t; threads : gmap nat (Phase * nat) }.
Definition start : Sys := mkSys Tunnels.Tun.init ∅.
Definition threadOf (tid : nat) (s : Sys) : Phase * nat := default (Idle, 0%nat) (threads s !! tid).

Inductive Event := By (tid : nat) (e : Effect) | Shutdown.

(** One effect of one handler; [None] if the handler may not do it, or if the
    registry would have answered otherwise. *)
Definition sysStep (s : Sys) (ev : Event) : option Sys :=
  match ev with
  | Shutdown => Some (mkSys (Tunnels.Tun.beginTunnelShutdown (reg s)).2 (threads s))
  | By tid e =>
      let '(p, id) := threadOf tid s in
      p' ← advance p e;
      match e with
      | Reserve ok =>
          let '(ok', r) := Tunnels.Tun.reserveTunnel (reg s) in
          if Bool.eqb ok ok' then Some (mkSys r (<[tid := (p', id)]> (threads s))) else None
      | Cancel => Some (mkSys (Tunnels.Tun.cancelTunnelReservation (reg s)) (<[tid := (p', id)]> (threads s)))
      | Activate ok =>
          match Tunnels.Tun.activateManagedTunnel (reg s), ok with
          | (Some i, r), true => Some (mkSys r (<[tid := (p', i)]> (threads s)))
          | (None, r), false => Some (mkSys r (<[tid := (p', id)]> (threads s)))
          | _, _ => None
          end
      | CloseTunnel => Some (mkSys (Tunnels.Tun.closeTunnel id (reg s)) (<[tid := (p', id)]> (threads s)))
      | Finish => Some (mkSys (Tunnels.Tun.finishTunnel id (reg s)) (<[tid := (p', id)]> (threads s)))
      | _ => Some (mkSys (reg s) (<[tid := (p', id)]> (threads s)))
      end
  end.

Fixpoint sysRun (s : Sys) (h : list Event) : option Sys :=
  match h with
  | [] => Some s
  | ev :: rest => match sysStep s ev with Some s' => sysRun s' rest | None => None end
  end.

(** What one handler did. *)
Definition doneBy (tid : nat) (h : list Event) : list Effect :=
  omap (fun ev => match ev with By t e => if (t =? tid)%nat then Some e else None | Shutdown => None end) h.

Definition holding (m : gmap nat (Phase * nat)) : gmap nat (Phase * nat) := filter (fun kv => kv.2.1 = Held) m.

(** The registry counts the handlers that hold a reservation and knows the
    tunnels of those that have one. *)
Record sysInv (s : Sys) : Prop := mkSysInv {
  si_tun : Tunnels.Tun.inv (reg s);
  si_held : Tunnels.Tun.tunnelPending (reg s) = Z.of_nat (size (holding (threads s)));
  si_tunnels : forall i, i ∈ Tunnels.Tun.tunnels (reg s) <-> exists tid, threads s !! tid = Some (InTunnel, i);
  si_own : forall a b i, threads s !! a = Some (InTunnel, i) -> threads s !! b = Some (InTunnel, i) -> a = b }.

(** The size of [holding] when one handler's phase changes. *)
Definition heldIn (m : gmap nat (Phase * nat)) (tid : nat) : Z :=
  match m !! tid with Some (Held, _) => 1 | _ => 0 end.

Lemma holding_insert m tid p i :
  Z.of_nat (size (holding (<[tid := (p, i)]> m))) =
  Z.of_nat (size (holding m)) - heldIn m tid + (if decide (p = Held) then 1 else 0).
Proof.
  unfold holding, heldIn. assert (forall m' : gmap nat (Phase * nat), m' !! tid = None ->
    Z.of_nat (size (filter (fun kv => kv.2.1 = Held) (<[tid := (p, i)]> m'))) =
    Z.of_nat (size (filter (fun kv => kv.2.1 = Held) m')) + (if decide (p = Held) then 1 else 0)) as Hnew.
  { intros m' Hm. destruct (decide (p = Held)) as [->|Hp].
    - rewrite map_filter_insert_True by done. rewrite map_size_insert_None; [lia|]. apply map_lookup_filter_None. by left.
    - rewrite map_filter_insert_False by done. rewrite delete_id by done. lia. }
  rewrite <- insert_delete_eq, Hnew by apply lookup_delete_eq. f_equal.
  destruct (m !! tid) as [[q j]|] eqn:E; [|by rewrite delete_id by done; lia].
  rewrite <- (insert_delete_id m tid (q, j) E) at 2.
  destruct (decide (q = Held)) as [->|Hq].
  - rewrite map_filter_insert_True by done. rewrite map_size_insert_None; [lia|]. apply map_lookup_filter_None. left. apply lookup_delete_eq.
  - rewrite (map_filter_insert_False _ (delete tid m)) by done. rewrite delete_delete_eq.
    destruct q; try done; lia.
Qed.

Lemma registry_cancel r : Tunnels.Tun.inv r -> 0 < Tunnels.Tun.tunnelPending r ->
  let r' := Tunnels.Tun.cancelTunnelReservation r in
  Tunnels.Tun.inv r' /\ Tunnels.Tun.tunnelPending r' = Tunnels.Tun.tunnelPending r - 1 /\
  Tunnels.Tun.tunnels r' = Tunnels.Tun.tunnels r.
Proof.
  intros I Hp. pose proof (Tunnels.Tun.step_inv r Tunnels.Tun.EvCancel I) as I'. simpl in I'.
  rewrite (proj2 (Z.ltb_lt _ _) Hp) in I'. split; [exact I'|].
  unfold Tunnels.Tun.cancelTunnelReservation, Tunnels.Tun.decPending. rewrite (proj2 (Z.ltb_lt _ _) Hp).
  by edestruct Tunnels.Tun.signal_frame as (_ & -> & -> & _).
Qed.

Lemma registry_activate r : Tunnels.Tun.inv r -> 0 < Tunnels.Tun.tunnelPending r ->
  let '(o, r') := Tunnels.Tun.activateManagedTunnel r in
  Tunnels.Tun.inv r' /\ Tunnels.Tun.tunnelPending r' = Tunnels.Tun.tunnelPending r - 1 /\
  match o with
  | Some i => i ∉ Tunnels.Tun.tunnels r /\ Tunnels.Tun.tunnels r' = {[i]} ∪ Tunnels.Tun.tunnels r
  | None => Tunnels.Tun.tunnels r' = Tunnels.Tun.tunnels r
  end.
Proof.
  intros I Hp. pose proof (Tunnels.Tun.step_inv r Tunnels.Tun.EvActivate I) as I'. simpl in I'.
  rewrite (proj2 (Z.ltb_lt _ _) Hp) in I'. unfold Tunnels.Tun.activateManagedTunnel in *.
  unfold Tunnels.Tun.decPending in *. rewrite (proj2 (Z.ltb_lt _ _) Hp) in *. simpl in *.
  destruct (Tunnels.Tun.tunnelShuttingDown r); simpl in *.
  - split_and!; [done| |]; edestruct Tunnels.Tun.signal_frame as (_ & E1 & E2 & _); [by rewrite E1|by rewrite E2].
  - split_and!; [done|done| |done]. intros Hi. pose proof (Tunnels.Tun.inv_tun _ I _ Hi). lia.
Qed.

Lemma registry_finish r i : Tunnels.Tun.inv r -> i ∈ Tunnels.Tun.tunnels r ->
  let r' := Tunnels.Tun.finishTunnel i r in
  Tunnels.Tun.inv r' /\ Tunnels.Tun.tunnelPending r' = Tunnels.Tun.tunnelPending r /\
  Tunnels.Tun.tunnels r' = Tunnels.Tun.tunnels r ∖ {[i]}.
Proof.
  intros I Hi. pose proof (Tunnels.Tun.step_inv r (Tunnels.Tun.EvFinish i) I) as I'. split; [exact I'|].
  unfold Tunnels.Tun.finishTunnel. rewrite bool_decide_true by done.
  by edestruct Tunnels.Tun.signal_frame as (_ & -> & -> & _).
Qed.

(** A handler that neither enters nor leaves its tunnel. *)
Lemma tunnels_same s tid p id p' :
  threadOf tid s = (p, id) -> (p = InTunnel <-> p' = InTunnel) ->
  forall t i, <[tid := (p', id)]> (threads s) !! t = Some (InTunnel, i) <-> threads s !! t = Some (InTunnel, i).
Proof.
  intros Ht Hpp t i. unfold threadOf in Ht. rewrite lookup_insert_Some. split.
  - intros [[<- [= -> <-]]|[_ H]]; [|done]. destruct (threads s !! tid) as [x|] eqn:E; simpl in Ht; [subst x|injection Ht as <- <-].
    + by rewrite (proj2 Hpp eq_refl).
    + by discriminate (proj2 Hpp eq_refl).
  - intros H. destruct (decide (tid = t)) as [<-|]; [|by right]. left. rewrite H in Ht. simpl in Ht. injection Ht as <- <-.
    by rewrite (proj1 Hpp eq_refl).
Qed.

Lemma heldIn_of s tid p id : threadOf tid s = (p, id) -> heldIn (threads s) tid = if decide (p = Held) then 1 else 0.
Proof.
  unfold threadOf, heldIn. destruct (threads s !! tid) as [[q j]|]; simpl; intros [= <- <-]; [by destruct q|done].
Qed.

Lemma pending_of s tid id : sysInv s -> threadOf tid s = (Held, id) -> 0 < Tunnels.Tun.tunnelPending (reg s).
Proof.
  intros I Ht. rewrite (si_held _ I). assert (threads s !! tid = Some (Held, id)) as E.
  { unfold threadOf in Ht. destruct (threads s !! tid); simpl in Ht; [by subst|done]. }
  assert (size (holding (threads s)) <> 0%nat); [|lia]. intros H0%map_size_empty_inv.
  assert (holding (threads s) !! tid = Some (Held, id)) as Hh by (by apply map_lookup_filter_Some).
  by rewrite H0, lookup_empty in Hh.
Qed.

(** A step that leaves reservations and tunnels as they are. *)
Lemma sysInv_plain s tid p id p' r : sysInv s -> threadOf tid s = (p, id) ->
  (p = InTunnel <-> p' = InTunnel) -> Tunnels.Tun.inv r -> Tunnels.Tun.tunnels r = Tunnels.Tun.tunnels (reg s) ->
  Tunnels.Tun.tunnelPending r = Tunnels.Tun.tunnelPending (reg s) - (if decide (p = Held) then 1 else 0) + (if decide (p' = Held) then 1 else 0) ->
  sysInv (mkSys r (<[tid := (p', id)]> (threads s))).
Proof.
  intros I Ht Hpp Hr Htun Hp. split; simpl; [done| | |].
  - by rewrite Hp, holding_insert, (heldIn_of s tid p id Ht), (si_held _ I).
  - intros i. rewrite Htun, (si_tunnels _ I). by setoid_rewrite (tunnels_same s tid p id p' Ht Hpp).
  - intros a b i. rewrite !(tunnels_same s tid p id p' Ht Hpp). apply (si_own _ I).
Qed.

Lemma sysInv_enter s tid id i r : sysInv s -> threadOf tid s = (Held, id) ->
  Tunnels.Tun.inv r -> i ∉ Tunnels.Tun.tunnels (reg s) -> Tunnels.Tun.tunnels r = {[i]} ∪ Tunnels.Tun.tunnels (reg s) ->
  Tunnels.Tun.tunnelPending r = Tunnels.Tun.tunnelPending (reg s) - 1 ->
  sysInv (mkSys r (<[tid := (InTunnel, i)]> (threads s))).
Proof.
  intros I Ht Hr Hi Htun Hp.
  assert (forall j, threads s !! tid <> Some (InTunnel, j)) as Hno.
  { intros j E. unfold threadOf in Ht. by rewrite E in Ht. }
  assert (forall t j, <[tid := (InTunnel, i)]> (threads s) !! t = Some (InTunnel, j) <->
            (t = tid /\ j = i) \/ threads s !! t = Some (InTunnel, j)) as Hlk.
  { intros t j. rewrite lookup_insert_Some. split; [intros [[-> [= ->]]|[_ ?]]; auto|].
    intros [[-> ->]|H]; [by left|]. right. split; [|done]. intros ->. by destruct (Hno j). }
  split; simpl; [done| | |].
  - rewrite Hp, holding_insert, (heldIn_of s tid _ _ Ht), (si_held _ I). simpl. lia.
  - intros j. rewrite Htun, elem_of_union, elem_of_singleton, (si_tunnels _ I). setoid_rewrite Hlk. naive_solver.
  - intros a b j. rewrite !Hlk. intros [[? ?]|Ha] [[? ?]|Hb]; subst; [done| | |by apply (si_own _ I a b j)].
    + destruct Hi. apply (si_tunnels _ I). by exists b.
    + destruct Hi. apply (si_tunnels _ I). by exists a.
Qed.

Lemma sysInv_leave s tid i : sysInv s -> threadOf tid s = (InTunnel, i) ->
  sysInv (mkSys (Tunnels.Tun.finishTunnel i (reg s)) (<[tid := (Over, i)]> (threads s))).
Proof.
  intros I Ht. assert (threads s !! tid = Some (InTunnel, i)) as E.
  { unfold threadOf in Ht. destruct (threads s !! tid); simpl in Ht; [by subst|done]. }
  destruct (registry_finish (reg s) i (si_tun _ I)) as (Hr & Hp & Htun); [apply (si_tunnels _ I); by exists tid|].
  split; simpl; [done| | |].
  - rewrite Hp, holding_insert, (heldIn_of s tid _ _ Ht), (si_held _ I). simpl. lia.
  - intros j. rewrite Htun, elem_of_difference, elem_of_singleton, (si_tunnels _ I). split.
    + intros [[t H] Hne]. exists t. rewrite lookup_insert_ne; [done|]. intros <-. congruence.
    + intros [t [[_ ?]|[Hne H]]%lookup_insert_Some]; [done|]. split; [by exists t|]. intros ->. by destruct Hne, (si_own _ I tid t i).
  - intros a b j [[_ ?]|[_ Ha]]%lookup_insert_Some [[_ ?]|[_ Hb]]%lookup_insert_Some; try done. by apply (si_own _ I a b j).
Qed.

Lemma sysInv_step s ev s' : sysInv s -> sysStep s ev = Some s' -> sysInv s'.
Proof.
  intros I. destruct ev as [tid e|]; [|intros [= <-]; destruct I; by split; [apply (Tunnels.Tun.step_inv _ Tunnels.Tun.EvShutdown)|..]].
  unfold sysStep. destruct (threadOf tid s) as [p id] eqn:Ht. destruct (advance p e) as [p'|] eqn:Ha; [|done]. simpl.
  assert (forall r, r = reg s -> p' = p -> sysInv (mkSys r (<[tid := (p', id)]> (threads s)))) as Hstay.
  { intros r -> ->. apply (sysInv_plain s tid p id p); try done; first [apply I|lia]. }
  destruct e as [st| | | |ok| |ok| | |st h b|b| | | | |]; try (intros [= <-]; apply Hstay; [done|]; destruct p; by simplify_eq/=).
  - unfold Tunnels.Tun.reserveTunnel. pose proof (Tunnels.Tun.step_inv _ Tunnels.Tun.EvReserve (si_tun _ I)) as Hr.
    simpl in Hr. unfold Tunnels.Tun.reserveTunnel in Hr. destruct (Tunnels.Tun.tunnelShuttingDown (reg s)).
    + destruct ok; [done|]. intros [= <-]. destruct p; try done. injection Ha as <-.
      apply (sysInv_plain s tid Idle id Over); try done; first [apply I|simpl; lia].
    + destruct ok; [|done]. intros [= <-]. destruct p; try done. injection Ha as <-.
      apply (sysInv_plain s tid Idle id Held); try done; case_match; simpl; try done; lia.
  - intros [= <-]. destruct p; try done. injection Ha as <-.
    destruct (registry_cancel (reg s) (si_tun _ I) (pending_of s tid id I Ht)) as (Hr & Hp & Htun).
    apply (sysInv_plain s tid Held id Over); try done. rewrite Hp. simpl. lia.
  - pose proof (registry_activate (reg s) (si_tun _ I)) as Hact.
    destruct p; try (by destruct ok). specialize (Hact (pending_of s tid id I Ht)).
    destruct (Tunnels.Tun.activateManagedTunnel (reg s)) as [[i|] r], ok; try done; intros [= <-]; injection Ha as <-; destruct Hact as (Hr & Hp & Htun).
    + destruct Htun as [Hi Htun]. by apply sysInv_enter with id.
    + apply (sysInv_plain s tid Held id Over); try done. rewrite Hp. simpl. lia.
  - intros [= <-]. destruct p; try done. injection Ha as <-.
    apply (sysInv_plain s tid InTunnel id InTunnel); try done; [destruct I as [[] _ _ _]; by split|simpl; lia].
  - intros [= <-]. destruct p; try done. injection Ha as <-. by apply sysInv_leave.
Qed.

Lemma sysInv_run h s s' : sysInv s -> sysRun s h = Some s' -> sysInv s'.
Proof.
  revert s. induction h as [|ev h IH]; intros s I; simpl; [by intros [= <-]|].
  destruct (sysStep s ev) as [s1|] eqn:E; [|done]. apply IH. by apply (sysInv_step s ev).
Qed.

Lemma sysInv_start : sysInv start.
Proof. split; simpl; [apply Tunnels.Tun.init_inv|done| |]; [|by intros a b i H%lookup_empty_Some].
  intros i. split; [set_solver|]. by intros [t H%lookup_empty_Some]. Qed.

(** A handler's phase is that of what it did. *)
Lemma phase_step s ev s' tid : sysStep s ev = Some s' ->
  Some (threadOf tid s').1 = phases (threadOf tid s).1 (doneBy tid [ev]).
Proof.
  destruct ev as [t e|]; [|by intros [= <-]]. unfold sysStep. destruct (threadOf t s) as [p id] eqn:Ht.
  destruct (advance p e) as [p'|] eqn:Ha; [|done]. simpl. intros H.
  assert (exists j, threads s' = <[t := (p', j)]> (threads s)) as [j Hj].
  { destruct e; simpl in H; repeat case_match; simplify_eq; simpl; by eexists. }
  unfold threadOf at 1. rewrite Hj. destruct (decide (t = tid)) as [->|Hne].
  - rewrite lookup_insert_eq. unfold doneBy. simpl. rewrite Nat.eqb_refl, Ht. simpl. by rewrite Ha.
  - rewrite lookup_insert_ne by done. unfold doneBy. simpl. by rewrite (proj2 (Nat.eqb_neq _ _) Hne).
Qed.

Lemma phase_run h s s' tid : sysRun s h = Some s' ->
  Some (threadOf tid s').1 = phases (threadOf tid s).1 (doneBy tid h).
Proof.
  revert s. induction h as [|ev h IH]; intros s; simpl; [by intros [= <-]|].
  destruct (sysStep s ev) as [s1|] eqn:E; [|done]. intros Hr. rewrite (IH s1 Hr).
  pose proof (phase_step s ev s1 tid E) as Hp. unfold doneBy in *. simpl in *.
  destruct (match ev with By t e => _ | Shutdown => _ end) as [e|]; simpl in *; [|by injection Hp as ->].
  destruct (advance _ e) as [q|]; [|done]. by injection Hp as ->.
Qed.

(** ** Properties *)

(** A handler answers its client at most once: with a status, or with the
    header of a tunnel and the bytes after it.  An upstream connection it opened
    is closed exactly once; a reservation is cancelled or becomes a tunnel, a
    tunnel is finished; the kept body is released and the response closed. *)
Theorem handler_settles effs : HandlerRun effs -> settled effs.
Proof. apply settled_run. Qed.

(** In a tunnel the client first gets the bytes the upstream sent ahead, and the
    upstream those the client did, before anything is relayed. *)
Theorem tunnel_keeps_early_bytes {RErr CErr} (find : string -> result RErr (list Server))
    (connect : string -> list Server -> result CErr bytes) host env before after :
  handleConnect find connect host env = before ++ Relay :: after ->
  exists proxies leftover,
    find ("https://" +:+ connectTarget host) = Ok proxies /\ connect (connectTarget host) proxies = Ok leftover /\
    before = [UpstreamOpened; Reserve true; Activate true; ToClient 200 None leftover] ++
             match pipelined env with [] => [] | b => [ToUpstream b] end /\
    after = [CloseTunnel; UpstreamClosed; Finish].
Proof.
  unfold handleConnect. intros H.
  destruct (find _) as [proxies|e]; [|repeat (destruct before as [|? before]; simplify_eq/=; try done)].
  destruct (connect _ _) as [leftover|e] eqn:Ec; [|repeat (destruct before as [|? before]; simplify_eq/=; try done)].
  exists proxies, leftover. split_and!; [done|done|..].
  all: unfold openTunnel in H; destruct (hijackable env), (reserved env), (hijacks env), (activated env), (written env); simpl in H.
  all: destruct (pipelined env) as [|b bs]; [|destruct (forwarded env)].
  all: repeat (destruct before as [|? before]; simplify_eq/=; try done).
Qed.

(** C28: Any number of handlers, in any interleaving with each other and with the
    shutdown: once every handler has run to its end, no reservation and no
    tunnel is left and the channel the shutdown waits on is closed.  At every
    moment the registry counts the handlers that hold a reservation, and its
    tunnels are those of the handlers that have one. *)
Theorem handlers_leave_no_tunnel h s : sysRun start h = Some s ->
  (Tunnels.Tun.tunnelPending (reg s) = Z.of_nat (size (holding (threads s))) /\
   forall i, i ∈ Tunnels.Tun.tunnels (reg s) <-> exists tid, threads s !! tid = Some (InTunnel, i)) /\
  ((forall tid, doneBy tid h = [] \/ HandlerRun (doneBy tid h)) ->
   Tunnels.Tun.tunnelPending (reg s) = 0 /\ Tunnels.Tun.tunnels (reg s) = ∅ /\
   Tunnels.Tun.drained (Tunnels.Tun.tunnelZero (reg s)) (reg s) = true).
Proof.
  intros Hr. pose proof (sysInv_run h start s sysInv_start Hr) as I. split; [split; apply I|]. intros Hd.
  assert (forall tid p i, threads s !! tid = Some (p, i) -> p = Idle \/ p = Over) as Hover.
  { intros tid p i E. pose proof (phase_run h start s tid Hr) as Hp. unfold threadOf in Hp. rewrite E in Hp. simpl in Hp.
    rewrite lookup_empty in Hp. simpl in Hp.
    destruct (Hd tid) as [E0|Hrun]; [rewrite E0 in Hp; simpl in Hp; injection Hp as ->; by left|].
    destruct (h_phase _ (settled_run _ Hrun)) as [Eq|Eq]; rewrite Eq in Hp; injection Hp as ->; auto. }
  assert (holding (threads s) = ∅) as Hh.
  { apply map_empty. intros tid. apply map_lookup_filter_None. right. intros [p i] E. simpl. intros ->. by destruct (Hover tid Held i E). }
  assert (Tunnels.Tun.tunnelPending (reg s) = 0) as Hp by (rewrite (si_held _ I), Hh; done).
  assert (Tunnels.Tun.tunnels (reg s) = ∅) as Ht.
  { apply set_eq. intros i. rewrite (si_tunnels _ I). split; [|set_solver]. intros [tid E]. by destruct (Hover tid InTunnel i E). }
  split_and!; [done|done|]. unfold Tunnels.Tun.drained. apply bool_decide_eq_true. by apply (Tunnels.Tun.inv_zero _ (si_tun _ I)).
Qed.

(** ** Witnesses *)

Definition toyFind (url : string) : result unit (list Server) := Ok [Wproxy.Wp.Direct].
Definition toyEnv : ConnEnv := mkConnEnv true true true true true [1; 2] true.
Definition toyConnect : list Effect :=
  [UpstreamOpened; Reserve true; Activate true; ToClient 200 None [7]; ToUpstream [1; 2]; Relay; CloseTunnel; UpstreamClosed; Finish].

Lemma toyConnect_run : HandlerRun toyConnect.
Proof. exact (RunConnect toyFind (fun _ _ => @Ok unit bytes [7]) "a.example:443" toyEnv). Defined.

Lemma handler_settles_witness : HandlerRun toyConnect /\ tally closesUp toyConnect = 1%nat /\ settled toyConnect.
Proof. split; [apply toyConnect_run|split; [done|]]. apply (handler_settles toyConnect), toyConnect_run. Defined.

Lemma tunnel_keeps_early_bytes_witness :
  handleConnect toyFind (fun _ _ => @Ok unit bytes [7]) "a.example:443" toyEnv = toyConnect /\
  exists proxies leftover, toyFind ("https://" +:+ connectTarget "a.example:443") = Ok proxies /\
    (fun _ _ => @Ok unit bytes [7]) (connectTarget "a.example:443") proxies = Ok leftover.
Proof.
  split; [done|].
  destruct (tunnel_keeps_early_bytes toyFind (fun _ _ => @Ok unit bytes [7]) "a.example:443" toyEnv
    [UpstreamOpened; Reserve true; Activate true; ToClient 200 None [7]; ToUpstream [1; 2]]
    [CloseTunnel; UpstreamClosed; Finish] eq_refl) as (p & l & H1 & H2 & _).
  by exists p, l.
Defined.

(** Two CONNECTs, one refused by the shutdown between its reservation and its activation. *)
Definition toyLate : list Effect := [UpstreamOpened; Reserve true; Activate false; UpstreamClosed].
Definition toyHistory : list Event :=
  map (By 0) [UpstreamOpened; Reserve true; Activate true] ++ map (By 1) [UpstreamOpened; Reserve true] ++ [Shutdown] ++
  map (By 1) [Activate false; UpstreamClosed] ++
  map (By 0) [ToClient 200 None [7]; ToUpstream [1; 2]; Relay; CloseTunnel; UpstreamClosed; Finish].

Lemma handlers_leave_no_tunnel_witness :
  exists s, sysRun start toyHistory = Some s /\ Tunnels.Tun.tunnels (reg s) = ∅ /\
  Tunnels.Tun.drained (Tunnels.Tun.tunnelZero (reg s)) (reg s) = true.
Proof.
  destruct (sysRun start toyHistory) as [s|] eqn:E; [|by vm_compute in E]. exists s. split; [done|].
  apply (handlers_leave_no_tunnel toyHistory s E). intros tid. destruct tid as [|[|tid]].
  - right. exact toyConnect_run.
  - right. exact (RunConnect toyFind (fun _ _ => @Ok unit bytes [7]) "a.example:443" (mkConnEnv true true true false true [] true)).
  - by left.
Defined.

End Hd.
