(* ===== verification/Diagnostics.v ===== *)
(** * Diagnostics: what the program tells about itself
    ([internal/diagnostic]: redact.go, ring.go, fatal_snapshot.go;
    [internal/debug/debug.go]; the control endpoint of
    [internal/proxy/diagnostic.go])

    Texts are redacted by four passes of a regular expression.  An expression is
    a function that looks for a match at one position, given the character
    before it, and answers the replacement and the length of the match; Go's
    leftmost matches, one after the other, are a scan that skips what a match
    covers.  Then the ring of events, and the files the snapshot and the log
    rotate through. *)

From S2P Require Export Prelude GoStrings.
From S2P Require Import NetAddr Url.

Module Dg.

Definition redactedValue : string := "REDACTED".

(** ** Regular expressions *)

Definition word_char (c : ascii) : bool := is_alnum c || Ascii.eqb c "_".
Definition re_space (c : ascii) : bool := (ord c =? 32) || ((9 <=? ord c) && (ord c <=? 13) && negb (ord c =? 11)).
(** [\b] before a word character. *)
Definition boundary (prev : option ascii) : bool := match prev with Some c => negb (word_char c) | None => true end.

Fixpoint spanOf (p : ascii -> bool) (s : string) : string * string :=
  match s with
  | String c t => if p c then let '(a, b) := spanOf p t in (String c a, b) else ("", s)
  | "" => ("", "")
  end.

(** The characters of [s] that spell [kw] in any case, and the rest. *)
Fixpoint foldPrefix (kw s : string) : option (string * string) :=
  match kw, s with
  | "", _ => Some ("", s)
  | String k kw', String c t =>
      if Ascii.eqb k (lower_char c) then '(a, b) ← foldPrefix kw' t; Some (String c a, b) else None
  | String _ _, "" => None
  end.

(** [regexp.Expand]: a name is as long as possible; one that is no group of the
    expression gives nothing. *)
Definition groupText (groups : list string) (name : string) : string :=
  match name with
  | "" => "$"
  | _ => if str_forall is_digit name then nth (Z.to_nat (ParseUintVal name)) groups "" else ""
  end.
Fixpoint expandFrom (groups : list string) (name : option string) (template : string) : string :=
  match template with
  | "" => match name with Some n => groupText groups n | None => "" end
  | String c t =>
      match name with
      | None => if Ascii.eqb c "$" then expandFrom groups (Some "") t else String c (expandFrom groups None t)
      | Some n =>
          if word_char c then expandFrom groups (Some (n +:+ String c "")) t
          else if Ascii.eqb c "$" then
            if String.eqb n "" then String "$" (expandFrom groups None t) else groupText groups n +:+ expandFrom groups (Some "") t
          else groupText groups n +:+ String c (expandFrom groups None t)
      end
  end.
Definition Expand (template : string) (groups : list string) : string := expandFrom groups None template.

Definition Matcher : Type := option ascii -> string -> option (string * nat).

(** [ReplaceAllString]: [skip] characters belong to the last match. *)
Fixpoint scan (m : Matcher) (skip : nat) (prev : option ascii) (s : string) : string :=
  match s with
  | "" => ""
  | String c t =>
      match skip with
      | S k => scan m k (Some c) t
      | O => match m prev s with
             | Some (out, n) => out +:+ scan m (n - 1) (Some c) t
             | None => String c (scan m 0 (Some c) t)
             end
      end
  end.
Definition replaceAll (m : Matcher) (s : string) : string := scan m 0 None s.

(** ** redact.go *)

(** [IndexByte] for the question mark. *)
Definition RedactQueryFallback (raw : string) : string :=
  match Cut raw "?" with Some (a, _) => a +:+ "?" +:+ redactedValue | None => raw end.

(** [u.String()] for a URL with scheme and host and no user. *)
Definition urlString (u : URL) : string :=
  let path := EscapedPath u in
  Scheme u +:+ "://" +:+ escape encHost (Host u) +:+
  (if negb (String.eqb path "") && negb (HasPrefix path "/") then "/" else "") +:+ path +:+
  (if ForceQuery u || negb (String.eqb (RawQuery u) "") then "?" +:+ RawQuery u else "") +:+
  (if negb (String.eqb (Fragment u) "") then "#" +:+ escape encFragment (Fragment u) else "").

Definition trailingMark (c : ascii) : bool := in_chars ".,)]" c.

(** The marks of a sentence at the end of [raw] are kept apart. *)
Definition redactURL (raw : string) : string :=
  let body := trim_right trailingMark raw in
  let trailing := str_drop (String.length body) raw in
  match urlParse body with
  | Some u =>
      if String.eqb (Scheme u) "" || String.eqb (Host u) "" then RedactQueryFallback body +:+ trailing
      else
        let some s := if negb (String.eqb s "") then redactedValue else s in
        urlString (mkURL (Scheme u) (Opaque u) None (Host u) (Path u) (RawPath u) (some (RawQuery u)) (ForceQuery u)
                     (some (Fragment u))) +:+ trailing
  | None => RedactQueryFallback body +:+ trailing
  end.

Definition url_char (c : ascii) : bool := negb (re_space c) && negb (in_chars "'<>" c) && negb (ord c =? 34).

(** What follows the scheme [pre]. *)
Definition urlTail (pre : string * string) : option (string * nat) :=
  '(_, r) ← foldPrefix "://" pre.2;
  let v := (spanOf url_char r).1 in
  if String.eqb v "" then None
  else let raw := pre.1 +:+ "://" +:+ v in Some (redactURL raw, String.length raw).

Definition urlPattern : Matcher := fun prev s =>
  if negb (boundary prev) then None
  else match foldPrefix "https" s ≫= urlTail with
       | Some x => Some x
       | None => foldPrefix "http" s ≫= urlTail
       end.

(** The groups are what precedes the path, and the path with its question mark. *)
Definition pathQueryTail (g1 t : string) : option (string * nat) :=
  match t with
  | String "/" r =>
      let '(p, r) := spanOf (fun c => negb (re_space c) && negb (Ascii.eqb c "?")) r in
      match r with
      | String "?" q =>
          let v := (spanOf (fun c => negb (re_space c)) q).1 in
          if String.eqb v "" then None
          else let g2 := "/" +:+ p +:+ "?" in
               Some (Expand ("$1$2" +:+ redactedValue) [g1 +:+ g2 +:+ v; g1; g2],
                     String.length (g1 +:+ g2 +:+ v))
      | _ => None
      end
  | _ => None
  end.

Definition pathQueryPattern : Matcher := fun prev s =>
  match (match prev with None => pathQueryTail "" s | Some _ => None end), s with
  | Some x, _ => Some x
  | None, String c t => if re_space c then pathQueryTail (String c "") t else None
  | None, "" => None
  end.

(** [\s*[:=]\s*]. *)
Definition separator (s : string) : option (string * string) :=
  let '(a, r) := spanOf re_space s in
  match r with
  | String c r =>
      if in_chars ":=" c then let '(b, r) := spanOf re_space r in Some (a +:+ String c b, r) else None
  | "" => None
  end.

Definition auth_char (c : ascii) : bool := negb (re_space c) && negb (in_chars ",;" c).
Definition is_letter (c : ascii) : bool := is_lower c || is_upper c.

(** [(?:[A-Za-z]+\s+)?[^\s,;]+]. *)
Definition authValue (s : string) : option string :=
  let plain := let v := (spanOf auth_char s).1 in if String.eqb v "" then None else Some v in
  let '(word, r) := spanOf is_letter s in
  let '(gap, r) := spanOf re_space r in
  let v := (spanOf auth_char r).1 in
  if negb (String.eqb word "") && negb (String.eqb gap "") && negb (String.eqb v "") then Some (word +:+ gap +:+ v) else plain.

Definition keyed (keys : list string) (value : string -> option string) (template : string) : Matcher := fun prev s =>
  if negb (boundary prev) then None
  else head (omap (fun kw =>
         '(key, r) ← foldPrefix kw s;
         '(sep, r) ← separator r;
         v ← value r;
         Some (Expand template [key +:+ sep +:+ v; key], String.length (key +:+ sep +:+ v))) keys).

Definition authPattern : Matcher :=
  keyed ["proxy-authorization"; "authorization"] authValue ("$1: " +:+ redactedValue).

Definition secretKeys : list string :=
  ["password"; "passwd"; "pwd"; "token"; "api_key"; "api-key"; "apikey"; "secret"; "client_secret"].
Definition secret_char (c : ascii) : bool := negb (re_space c) && negb (in_chars "&,;" c).
Definition secretValue (s : string) : option string :=
  let v := (spanOf secret_char s).1 in if String.eqb v "" then None else Some v.
Definition secretKVPattern : Matcher := keyed secretKeys secretValue ("$1=" +:+ redactedValue).

Definition RedactText (input : string) : string :=
  if String.eqb input "" then ""
  else replaceAll secretKVPattern (replaceAll authPattern (replaceAll pathQueryPattern (replaceAll urlPattern input))).

(** ** ring.go *)

Definition DefaultEventCapacity : Z := 512.
Definition maxEventKindBytes : Z := 64.
Definition maxEventMessageBytes : Z := 1024.

Record Event := mkEvent { Sequence : Z; eTime : Time; Kind : string; Reason : string }.
Record Ring := mkRing { capacity : Z; next : Z; events : list Event }.

Definition NewRing (cap : Z) : Ring := mkRing (if cap <=? 0 then DefaultEventCapacity else cap) 0 [].

Definition boundText (value : string) (limit : Z) : string :=
  if (limit <=? 0) || (slen value <=? limit) then value
  else if limit <=? 3 then str_take (Z.to_nat limit) value
  else str_take (Z.to_nat (limit - 3)) value +:+ "...".

Definition Record_ (kind message : string) (now : Time) (r : Ring) : Ring :=
  let kind := boundText (TrimSpace kind) maxEventKindBytes in
  let message := boundText (RedactText message) maxEventMessageBytes in
  let n := u64 (next r + 1) in
  let event := mkEvent n now kind message in
  if zlen (events r) =? capacity r then mkRing (capacity r) n (tail (events r) ++ [event])
  else mkRing (capacity r) n (events r ++ [event]).

Definition Snapshot (r : Ring) : list Event := events r.

(** ** Files that rotate *)

(** A directory: the content of each file. *)
Abbreviation Dir := (gmap string string).

Definition rotated (path : string) (i : nat) : string :=
  match i with O => path | _ => path +:+ "." +:+ Itoa (Z.of_nat i) end.

(** [os.Rename] and [os.Remove]; [false] is an error other than that the file
    does not exist. *)
Definition rename (ok : bool) (src dst : string) (d : Dir) : bool * Dir :=
  if negb ok then (false, d)
  else match d !! src with
       | Some c => (true, <[dst := c]> (delete src d))
       | None => (true, d)
       end.
Definition remove (ok : bool) (name : string) (d : Dir) : bool * Dir :=
  if negb ok then (false, d) else (true, delete name d).

(** The loop that moves each file one place on, from the [i]-th down; the last
    of [max] is removed first. [canRemove] and [canRename] say which calls the
    file system carries out. *)
Fixpoint rotateFrom (i max : nat) (path : string) (canRemove : bool) (canRename : nat -> bool) (d : Dir) : bool * Dir :=
  match i with
  | O => (true, d)
  | S i' =>
      let '(ok, d) := if (i =? max)%nat then remove canRemove (rotated path i) d else (true, d) in
      if negb ok then (false, d)
      else let '(ok, d) := rename (canRename i) (rotated path i') (rotated path i) d in
           if negb ok then (false, d) else rotateFrom i' max path canRemove canRename d
  end.

(** ** fatal_snapshot.go *)

Definition maxFatalSnapshotBytes : Z := 2 ^ 20.
Definition maxFatalSnapshots : nat := 2.

(** Which of the calls succeed. *)
Record SnapEnv := mkSnapEnv {
  mkdirOk : bool; removeOk : bool; renameOk : nat -> bool; createOk : bool; chmodOk : bool; writeOk : bool;
  syncOk : bool; closeOk : bool; publishOk : bool; finalChmodOk : bool }.

(** [data] is the encoded snapshot, [tmp] the name [CreateTemp] chose. *)
Definition writeFatalSnapshot (env : SnapEnv) (path tmp : string) (data : option string) (d : Dir) : bool * Dir :=
  match data with
  | None => (false, d)
  | Some data =>
      if maxFatalSnapshotBytes <? slen data then (false, d)
      else if negb (mkdirOk env) then (false, d)
      else
        let '(ok, d) := rotateFrom maxFatalSnapshots maxFatalSnapshots path (removeOk env) (renameOk env) d in
        if negb ok then (false, d)
        else if negb (createOk env) then (false, d)
        else
          let d := <[tmp := ""]> d in
          if negb (chmodOk env) then (false, delete tmp d)
          else if negb (writeOk env) then (false, delete tmp d)
          else
            let d := <[tmp := data]> d in
            if negb (syncOk env) || negb (closeOk env) then (false, delete tmp d)
            else let '(ok, d) := rename (publishOk env) tmp path d in
                 if negb ok then (false, delete tmp d) else (finalChmodOk env, d)
  end.

Definition LoadSnapshot {A} (decode : string -> option A) (path : string) (d : Dir) : option A :=
  data ← d !! path;
  if maxFatalSnapshotBytes <? slen data then None else decode data.

(** ** debug.go *)

Definition maxLogBytes : Z := 4 * 2 ^ 20.
Definition maxLogBackups : nat := 3.

(** The log: its name, whether its file is open, the directory, and what the
    console was shown. *)
Record Log := mkLog { name : string; open_ : bool; dir : Dir; shown : string }.

(** Which calls succeed, and how many bytes the file takes. *)
Record LogEnv := mkLogEnv {
  statOk : bool; lCloseOk : bool; lRemoveOk : bool; lRenameOk : nat -> bool; openOk : bool; lWriteOk : bool;
  lTaken : nat; consoleOk : bool }.

Definition content (l : Log) : string := default "" (dir l !! name l).
Definition setOpen (o : bool) (l : Log) : Log := mkLog (name l) o (dir l) (shown l).
Definition setContent (c : string) (l : Log) : Log := mkLog (name l) (open_ l) (<[name l := c]> (dir l)) (shown l).

Definition openLogFile (ok truncate : bool) (l : Log) : bool * Log :=
  if negb ok then (false, l)
  else (true, setOpen true (setContent (if truncate then "" else content l) l)).

(** [New] over the instance there is; one that was never made is closed and has no name. *)
Definition New (ok : bool) (nm : string) (appendMode : bool) (l : Log) : bool * Log :=
  let named := mkLog nm false (dir l) (shown l) in
  if String.eqb nm "" then (true, named)
  else let '(ok, next) := openLogFile ok (negb appendMode) named in if ok then (true, next) else (false, l).

Definition Reopen (ok : bool) (l : Log) : bool * Log :=
  if String.eqb (name l) "" then (true, setOpen false l) else openLogFile ok false l.

Definition Close (ok : bool) (l : Log) : bool * Log :=
  if negb (open_ l) then (true, l) else (ok, setOpen false l).

Definition rotateLocked (env : LogEnv) (incoming : Z) (l : Log) : bool * Log :=
  if negb (open_ l) || String.eqb (name l) "" || (incoming <=? 0) then (true, l)
  else if negb (statOk env) then (false, l)
  else if slen (content l) + incoming <=? maxLogBytes then (true, l)
  else if negb (lCloseOk env) then (false, setOpen false l)
  else
    let '(ok, d) := rotateFrom maxLogBackups maxLogBackups (name l) (lRemoveOk env) (lRenameOk env) (dir l) in
    let moved := mkLog (name l) false d (shown l) in
    if negb ok then (false, (openLogFile (openOk env) false moved).2)
    else openLogFile (openOk env) true moved.

(** [Debug.Write]: what is written, to the file and to the console, is redacted. *)
Definition Write (env : LogEnv) (p : string) (l : Log) : bool * Log :=
  let redacted := RedactText p in
  let '(ok, l) :=
    if open_ l then
      let '(ok, l) := rotateLocked env (slen redacted) l in
      if open_ l then
        (ok && lWriteOk env && (String.length redacted <=? lTaken env)%nat,
         setContent (content l +:+ str_take (lTaken env) redacted) l)
      else (ok, l)
    else (true, l) in
  (ok && consoleOk env, mkLog (name l) (open_ l) (dir l) (shown l +:+ redacted)).

(** ** The control endpoint *)

Definition sourceClass (source : string) : string :=
  let source := TrimSpace source in
  if String.eqb source "" then ""
  else if String.eqb source "default" || String.eqb source "cli" then source
  else if HasPrefix source "env:" then "env"
  else if HasPrefix source "ini:" then "ini"
  else if HasPrefix source "dotenv:" then "dotenv"
  else "other".

Definition diagnosticConfigSources (sources : gmap string string) : gmap string string := sourceClass <$> sources.

Definition DoctorControlPath : string := "/PxgoDoctor".
Definition isDoctorControlRequest (method requestURI : string) (abs : bool) : bool :=
  String.eqb method "GET" && negb abs && String.eqb requestURI DoctorControlPath.

(** ** Specification: the ring is the end of an unbounded log *)

Definition bounded (kind message : string) (now : Time) (n : Z) : Event :=
  mkEvent n now (boundText (TrimSpace kind) maxEventKindBytes) (boundText (RedactText message) maxEventMessageBytes).

(** Everything ever recorded, numbered from 1. *)
Definition fullLog (from : Z) (l : list (string * string * Time)) : list Event :=
  imap (fun i x => bounded x.1.1 x.1.2 x.2 (u64 (from + Z.of_nat i + 1))) l.

Definition recordAll (r : Ring) (l : list (string * string * Time)) : Ring :=
  fold_left (fun r x => Record_ x.1.1 x.1.2 x.2 r) l r.

(** ** Lemmas: texts *)

Lemma length_str_take n s : (String.length (str_take n s) <= n)%nat.
Proof. revert s. induction n as [|n IH]; intros [|c s]; simpl; try lia. specialize (IH s). lia. Qed.

Lemma boundText_length value limit : 0 < limit -> slen (boundText value limit) <= limit.
Proof.
  intros Hl. unfold boundText. destruct (_ || _) eqn:E.
  - apply orb_true_iff in E as [E|E]; to_prop; lia.
  - destruct (limit <=? 3) eqn:E3; to_prop.
    + pose proof (length_str_take (Z.to_nat limit) value). unfold slen. lia.
    + rewrite slen_app. pose proof (length_str_take (Z.to_nat (limit - 3)) value). unfold slen. simpl. lia.
Qed.

(** ** Lemmas: the ring *)

(** The last [n] of a list. *)
Definition lastOf {A} (n : nat) (l : list A) : list A := drop (length l - n) l.

Lemma lastOf_snoc {A} n (l : list A) x : (0 < n)%nat ->
  lastOf n (l ++ [x]) = (if (length (lastOf n l) =? n)%nat then tail (lastOf n l) else lastOf n l) ++ [x].
Proof.
  intros Hn. unfold lastOf. rewrite length_drop, length_app. simpl.
  destruct (decide (n <= length l)%nat) as [Hle|Hlt].
  - rewrite (proj2 (Nat.eqb_eq _ _)) by lia. replace (length l + 1 - n)%nat with (S (length l - n)) by lia.
    rewrite drop_app_le by lia. f_equal. destruct (drop (length l - n) l) as [|y l'] eqn:E.
    + apply (f_equal length) in E. rewrite length_drop in E. simpl in E. lia.
    + simpl. rewrite <- Nat.add_1_r, <- drop_drop, E. done.
  - rewrite (proj2 (Nat.eqb_neq _ _)) by lia. replace (length l + 1 - n)%nat with 0%nat by lia.
    replace (length l - n)%nat with 0%nat by lia. done.
Qed.

Lemma fullLog_snoc from l k m t :
  fullLog from (l ++ [(k, m, t)]) = fullLog from l ++ [bounded k m t (u64 (from + Z.of_nat (length l) + 1))].
Proof. unfold fullLog. rewrite imap_app. simpl. by rewrite Nat.add_0_r. Qed.

Lemma recordAll_snoc r l k m t : recordAll r (l ++ [(k, m, t)]) = Record_ k m t (recordAll r l).
Proof. unfold recordAll. by rewrite fold_left_app. Qed.

Lemma u64_succ n : u64 (u64 n + 1) = u64 (n + 1).
Proof. unfold u64. by rewrite Zplus_mod_idemp_l. Qed.

(** The ring holds the end of the log. *)
Lemma ring_is_suffix cap l : 0 < cap ->
  let r := recordAll (mkRing cap 0 []) l in
  capacity r = cap /\ next r = u64 (Z.of_nat (length l)) /\ events r = lastOf (Z.to_nat cap) (fullLog 0 l).
Proof.
  intros Hc. induction l as [|[[k m] t] l IH] using rev_ind; [done|].
  rewrite recordAll_snoc. destruct IH as (H1 & H2 & H3). set (r := recordAll _ l) in *. clearbody r.
  unfold Record_. rewrite H2, u64_succ, H1. cbn zeta.
  assert (length (l ++ [(k, m, t)]) = S (length l)) as El by (rewrite length_app; simpl; lia).
  rewrite fullLog_snoc, lastOf_snoc by lia. rewrite <- H3.
  assert ((zlen (events r) =? cap) = (length (events r) =? Z.to_nat cap)%nat) as ->.
  { unfold zlen. destruct (Nat.eqb_spec (length (events r)) (Z.to_nat cap)); lia. }
  rewrite Z.add_0_l, El. replace (Z.of_nat (S (length l))) with (Z.of_nat (length l) + 1) by lia.
  by destruct (length (events r) =? Z.to_nat cap)%nat.
Qed.

(** ** Lemmas: rotation *)

Lemma Itoa_inj a b : 0 <= a <= max_int64 -> 0 <= b <= max_int64 -> Itoa a = Itoa b -> a = b.
Proof. intros Ha Hb E. pose proof (Atoi_Itoa a Ha) as H. rewrite E, Atoi_Itoa in H by done. by injection H. Qed.

Lemma app_inj_str a b c : a +:+ b = a +:+ c -> b = c.
Proof. induction a as [|x a IH]; simpl; [done|]. intros [= H]. by apply IH. Qed.

Lemma rotated_inj path i j : Z.of_nat i <= max_int64 -> Z.of_nat j <= max_int64 -> rotated path i = rotated path j -> i = j.
Proof.
  intros Hi Hj. unfold rotated. destruct i as [|i], j as [|j]; try done.
  - intros E. apply (f_equal slen) in E. rewrite !slen_app in E. pose proof (slen_nonneg (Itoa (Z.of_nat (S j)))).
    unfold slen in *. simpl in *. lia.
  - intros E. apply (f_equal slen) in E. rewrite !slen_app in E. pose proof (slen_nonneg (Itoa (Z.of_nat (S i)))).
    unfold slen in *. simpl in *. lia.
  - intros E%app_inj_str%app_inj_str. apply Itoa_inj in E; lia.
Qed.

Lemma rotated_ne path i j : (i <= 100)%nat -> (j <= 100)%nat -> i <> j -> rotated path i <> rotated path j.
Proof. intros Hi Hj Hne E. apply Hne. apply (rotated_inj path); [unfold max_int64; lia..|done]. Qed.

Lemma rename_spec ok src dst d ok' d' : rename ok src dst d = (ok', d') -> src <> dst ->
  ok' = ok /\ (forall f, f <> src -> f <> dst -> d' !! f = d !! f) /\
  (ok = false -> d' = d) /\
  (ok = true -> d' !! src = None /\ (d !! src <> None -> d' !! dst = d !! src) /\ (d !! src = None -> d' = d)).
Proof.
  unfold rename. intros H Hne. destruct ok; simpl in H; [|injection H as <- <-; done].
  destruct (d !! src) as [c|] eqn:E; injection H as <- <-; split_and!; try done.
  - intros f Hs Hd. by rewrite lookup_insert_ne, lookup_delete_ne.
  - intros _. split_and!; [by rewrite lookup_insert_ne, lookup_delete_eq|by rewrite lookup_insert_eq|done].
Qed.

(** The place a file moves to is free: the last one was removed, the others moved. *)
Lemma rotateFrom_spec i max path canRemove canRename d ok d' : (i <= max <= 100)%nat -> (i < max -> d !! rotated path i = None)%nat ->
  rotateFrom i max path canRemove canRename d = (ok, d') ->
  (forall f, (forall j, (j <= i)%nat -> f <> rotated path j) -> d' !! f = d !! f) /\
  (ok = false -> d' !! path = d !! path) /\
  (ok = true -> (forall j, (j < i)%nat -> d' !! rotated path (S j) = d !! rotated path j) /\
                (0 < i -> d' !! path = None)%nat).
Proof.
  revert d. induction i as [|i IH]; intros d Hi Hfree H; cbn [rotateFrom] in H.
  { injection H as <- <-. split_and!; [done|done|]. intros _. split; intros; lia. }
  assert (forall a b, (a <= S i)%nat -> (b <= S i)%nat -> a <> b -> rotated path a <> rotated path b) as Hne
    by (intros a b ? ? ?; apply rotated_ne; lia).
  destruct (if (S i =? max)%nat then remove canRemove (rotated path (S i)) d else (true, d)) as [ok1 d1] eqn:E1.
  assert ((forall f, f <> rotated path (S i) -> d1 !! f = d !! f) /\ (ok1 = true -> d1 !! rotated path (S i) = None)) as [Hd1 Hf1].
  { destruct (Nat.eqb_spec (S i) max).
    - unfold remove in E1. destruct canRemove; injection E1 as <- <-; split; try done; intros; [by rewrite lookup_delete_ne|by rewrite lookup_delete_eq].
    - injection E1 as <- <-. split; [done|]. intros _. apply Hfree. lia. }
  destruct ok1; cbn [negb] in H.
  2: { injection H as <- <-. split_and!; [|intros _; apply (Hd1 path), (Hne 0%nat (S i)); lia|done].
       intros f Hf. apply Hd1, Hf. lia. }
  destruct (rename (canRename (S i)) (rotated path i) (rotated path (S i)) d1) as [ok2 d2] eqn:E2.
  destruct (rename_spec _ _ _ _ _ _ E2 (Hne i (S i) ltac:(lia) ltac:(lia) ltac:(lia))) as (-> & Hoth & Hfail & Hok).
  destruct (canRename (S i)); cbn [negb] in H.
  2: { rewrite Hfail in H by done. injection H as <- <-. split_and!; [|intros _; apply (Hd1 path), (Hne 0%nat (S i)); lia|done].
       intros f Hf. apply Hd1, Hf. lia. }
  destruct (Hok eq_refl) as (Hsrc & Hdst & Hsame).
  destruct (IH d2 ltac:(lia) ltac:(intros _; exact Hsrc) H) as (Ha & Hb & Hc). split_and!.
  - intros f Hf. rewrite Ha by (intros j Hj; apply Hf; lia). rewrite Hoth by (apply Hf; lia). apply Hd1, Hf. lia.
  - intros Hno. rewrite (Hb Hno). destruct i as [|i].
    + simpl in H. by simplify_eq.
    + rewrite Hoth by (apply (Hne 0%nat); lia). apply Hd1, (Hne 0%nat); lia.
  - intros Hyes. destruct (Hc Hyes) as [Hmove Hgone]. split.
    + intros j Hj. destruct (decide (j = i)) as [->|Hji].
      * rewrite Ha by (intros k Hk; apply Hne; lia). rewrite <- (Hd1 (rotated path i)) by (apply Hne; lia).
        destruct (d1 !! rotated path i) as [c|] eqn:Ec; [by apply Hdst|]. rewrite (Hsame eq_refl). by apply Hf1.
      * rewrite Hmove by lia. rewrite Hoth by (apply Hne; lia). apply Hd1, Hne; lia.
    + intros _. destruct i as [|i]; [|apply Hgone; lia]. simpl in H. by simplify_eq.
Qed.

Lemma rotateFrom_full max path canRemove canRename d ok d' : (max <= 100)%nat ->
  rotateFrom max max path canRemove canRename d = (ok, d') ->
  (forall f, (forall j, (j <= max)%nat -> f <> rotated path j) -> d' !! f = d !! f) /\
  (ok = false -> d' !! path = d !! path) /\
  (ok = true -> (forall j, (j < max)%nat -> d' !! rotated path (S j) = d !! rotated path j) /\
                (0 < max -> d' !! path = None)%nat).
Proof. intros Hm. apply rotateFrom_spec; lia. Qed.

(** Where the file of a given name is found after a rotation: in its place or one on. *)
Lemma rotateFrom_keeps max path canRemove canRename d ok d' b : (0 < max <= 100)%nat ->
  rotateFrom max max path canRemove canRename d = (ok, d') -> d !! path = Some b ->
  d' !! path = Some b \/ d' !! rotated path 1 = Some b.
Proof.
  intros Hm H Hb. destruct (rotateFrom_full _ _ _ _ _ _ _ (proj2 Hm) H) as (_ & Hno & Hyes). destruct ok.
  - right. destruct (Hyes eq_refl) as [Hmove _]. rewrite (Hmove 0%nat) by lia. done.
  - left. by rewrite Hno.
Qed.

Section Rings.
Lemma length_lastOf {A} n (l : list A) : (length (lastOf n l) <= n)%nat.
Proof. unfold lastOf. rewrite length_drop. lia. Qed.

Lemma NewRing_capacity cap : 0 < capacity (NewRing cap).
Proof. unfold NewRing, DefaultEventCapacity. simpl. destruct (cap <=? 0) eqn:E; to_prop; lia. Qed.

Lemma fullLog_bounded from l : Forall (fun e => slen (Kind e) <= maxEventKindBytes /\ slen (Reason e) <= maxEventMessageBytes) (fullLog from l).
Proof.
  unfold fullLog. apply Forall_lookup. intros i e. rewrite list_lookup_imap.
  destruct (l !! i) as [x|]; [|done]. intros [= <-]. by split; apply boundText_length.
Qed.

(** the ring promises the end of an unbounded log of what was recorded:
    after any recordings, [Snapshot] is the last [capacity] events of that
    log in order, numbered from 1, at most [capacity] of them, each with its
    kind and its (redacted) message within their bounds; a capacity that is
    not positive is 512. *)
Theorem ring_keeps_newest cap l :
  let r := recordAll (NewRing cap) l in
  Snapshot r = lastOf (Z.to_nat (capacity r)) (fullLog 0 l) /\
  zlen (Snapshot r) <= capacity r /\
  capacity r = (if cap <=? 0 then 512 else cap) /\
  Forall (fun e => slen (Kind e) <= 64 /\ slen (Reason e) <= 1024) (Snapshot r).
Proof.
  intros r. destruct (ring_is_suffix (capacity (NewRing cap)) l (NewRing_capacity cap)) as (Hc & _ & He).
  change (mkRing (capacity (NewRing cap)) 0 []) with (NewRing cap) in *. fold r in Hc, He. unfold Snapshot. rewrite He, Hc.
  pose proof (NewRing_capacity cap). split_and!; [done| |done|].
  - pose proof (length_lastOf (Z.to_nat (capacity (NewRing cap))) (fullLog 0 l)). unfold zlen. lia.
  - apply Forall_drop, fullLog_bounded.
Qed.
End Rings.

Section Snapshots.
Context {A : Type} (decode : string -> option A).

(** a fatal snapshot is published whole or not at all.  The temporary file
    is never left and no other file is touched; success shifts the two older
    snapshots one place and what was written is read back; and on every path,
    failures included, the newest earlier snapshot is in its place or one on. *)
Theorem snapshot_rotation env path tmp data d ok d' :
  (forall j, (j <= 2)%nat -> tmp <> rotated path j) -> d !! tmp = None ->
  writeFatalSnapshot env path tmp data d = (ok, d') ->
  d' !! tmp = None /\
  (forall f, (forall j, (j <= 2)%nat -> f <> rotated path j) -> d' !! f = d !! f) /\
  (ok = true -> LoadSnapshot decode path d' = data ≫= decode /\
     d' !! rotated path 1 = d !! path /\ d' !! rotated path 2 = d !! rotated path 1) /\
  (forall b, d !! path = Some b -> d' !! path = Some b \/ d' !! rotated path 1 = Some b).
Proof.
  intros Htmp Hfree H. unfold writeFatalSnapshot in H.
  destruct data as [data|]; [|simplify_eq; naive_solver].
  destruct (maxFatalSnapshotBytes <? slen data) eqn:Esize; [simplify_eq; naive_solver|].
  destruct (mkdirOk env); cbn [negb] in H; [|simplify_eq; naive_solver].
  destruct (rotateFrom _ _ _ _ _ _) as [ok1 d1] eqn:E1.
  destruct (rotateFrom_full maxFatalSnapshots _ _ _ _ _ _ ltac:(unfold maxFatalSnapshots; lia) E1) as (Ho & _ & Hyes).
  pose proof (fun b => rotateFrom_keeps maxFatalSnapshots _ _ _ _ _ _ b ltac:(unfold maxFatalSnapshots; lia) E1) as Hkeep.
  assert (d1 !! tmp = None) as Hfree1 by (rewrite Ho; [done|exact Htmp]).
  assert (tmp <> path) as Htp by (apply (Htmp 0%nat); lia). assert (tmp <> rotated path 1) as Ht1 by (apply Htmp; lia).
  assert (forall c, delete tmp (<[tmp:=c]> d1) = d1) as Hundo by (intros c; by apply delete_insert_id).
  assert (forall c c', delete tmp (<[tmp:=c]> (<[tmp:=c']> d1)) = d1) as Hundo2 by (intros c c'; by rewrite insert_insert_eq, Hundo).
  destruct ok1; cbn [negb] in H; [|simplify_eq; naive_solver].
  destruct (createOk env); cbn [negb] in H; [|simplify_eq; naive_solver].
  destruct (chmodOk env); cbn [negb] in H; [|rewrite Hundo in H; simplify_eq; naive_solver].
  destruct (writeOk env); cbn [negb] in H; [|rewrite Hundo in H; simplify_eq; naive_solver].
  destruct (negb (syncOk env) || _); [rewrite Hundo2 in H; simplify_eq; naive_solver|].
  unfold rename in H. destruct (publishOk env); cbn [negb] in H; [|rewrite Hundo2 in H; simplify_eq; naive_solver].
  rewrite insert_insert_eq, lookup_insert_eq, Hundo in H. cbn [negb] in H. simplify_eq.
  destruct (Hyes eq_refl) as [Hmove _].
  assert (path <> rotated path 1) as Hp1 by (apply (rotated_ne path 0 1); lia).
  assert (path <> rotated path 2) as Hp2 by (apply (rotated_ne path 0 2); lia).
  split_and!.
  - by rewrite lookup_insert_ne.
  - intros f Hf. rewrite lookup_insert_ne; [by apply Ho|]. intros <-. by apply (Hf 0%nat); [lia|].
  - intros _. unfold LoadSnapshot. rewrite lookup_insert_eq, !lookup_insert_ne by done. simpl. rewrite Esize.
    split; [done|]. split; apply Hmove; unfold maxFatalSnapshots; lia.
  - intros b Hb. right. rewrite lookup_insert_ne by done. rewrite (Hmove 0%nat) by (unfold maxFatalSnapshots; lia). done.
Qed.
End Snapshots.

#[local] Arguments rotated : simpl never.

Section Logs.
Implicit Types (env : LogEnv) (l : Log).

(** What the file and its neighbours hold when the room was made. *)
Lemma rotateLocked_spec env n l ok l' : open_ l = true -> rotateLocked env n l = (ok, l') ->
  name l' = name l /\ shown l' = shown l /\
  (forall f, (forall j, (j <= 3)%nat -> f <> rotated (name l) j) -> dir l' !! f = dir l !! f) /\
  (ok = true -> open_ l' = true /\
     ((l' = l /\ (name l <> "" -> 0 < n -> slen (content l) + n <= maxLogBytes)) \/
      (content l' = "" /\ dir l' !! rotated (name l) 1 = dir l !! name l))) /\
  (forall b, dir l !! name l = Some b -> dir l' !! name l = Some b \/ dir l' !! rotated (name l) 1 = Some b).
Proof.
  intros Ho H. unfold rotateLocked in H. rewrite Ho in H. cbn [negb orb] in H.
  destruct (String.eqb (name l) "" || (n <=? 0)) eqn:Ez.
  { simplify_eq. split_and!; try done; [|naive_solver]. intros _. split; [done|]. left. split; [done|].
    intros Hn Hp. apply orb_true_iff in Ez as [E|E]; to_prop; [done|lia]. }
  destruct (statOk env); cbn [negb] in H; [|simplify_eq; split_and!; naive_solver].
  destruct (_ <=? maxLogBytes) eqn:Efit; to_prop; [simplify_eq; split_and!; try done; naive_solver|].
  destruct (lCloseOk env); cbn [negb] in H; [|simplify_eq; split_and!; naive_solver].
  destruct (rotateFrom _ _ _ _ _ _) as [ok1 d1] eqn:E1.
  assert (0 < maxLogBackups <= 100)%nat as Hm by (unfold maxLogBackups; lia).
  destruct (rotateFrom_full maxLogBackups _ _ _ _ _ _ (proj2 Hm) E1) as (Hoth & Hno & Hyes).
  pose proof (fun b => rotateFrom_keeps _ _ _ _ _ _ _ b Hm E1) as Hkeep.
  assert (name l <> rotated (name l) 1) as Hne by (apply (rotated_ne _ 0 1); lia).
  assert (forall c f, (forall j, (j <= 3)%nat -> f <> rotated (name l) j) -> <[name l:=c]> d1 !! f = dir l !! f) as Hins.
  { intros c f Hf. rewrite lookup_insert_ne by (intros E; by apply (Hf 0%nat); [lia|]). by apply Hoth. }
  unfold openLogFile in H. destruct ok1; cbn [negb] in H; destruct (openOk env); cbn in H; simplify_eq; cbn.
  - destruct (Hyes eq_refl) as [Hmove _]. specialize (Hmove 0%nat ltac:(unfold maxLogBackups; lia)).
    split_and!; [done..|by apply Hins| |].
    + intros _. split; [done|]. right. unfold content. cbn. by rewrite lookup_insert_eq, lookup_insert_ne.
    + intros b Hb. right. by rewrite lookup_insert_ne, Hmove.
  - by split_and!.
  - split_and!; [done..|by apply Hins|done|]. intros b Hb. left. unfold content. cbn. by rewrite lookup_insert_eq, (Hno eq_refl), Hb.
  - by split_and!.
Qed.

(** the log stays within its size and never loses what it just held: only the
    log and its three backups change; what is shown and written is redacted
    text; a write that succeeds leaves the log open with either the text
    appended or, when that would pass 4 MiB, the text alone and the old content
    in the first backup, so a log of at most 4 MiB is so after the write (a
    longer single text apart); and on every path, failures included, the old
    content is the beginning of the log or the first backup. *)
Theorem log_stays_bounded env p l ok l' :
  open_ l = true -> name l <> "" -> Write env p l = (ok, l') ->
  let red := RedactText p in
  shown l' = shown l +:+ red /\
  (forall f, (forall j, (j <= 3)%nat -> f <> rotated (name l) j) -> dir l' !! f = dir l !! f) /\
  (ok = true -> open_ l' = true /\
     (content l' = content l +:+ red \/ content l' = red /\ dir l' !! rotated (name l) 1 = dir l !! name l) /\
     (slen (content l) <= maxLogBytes -> slen (content l') <= Z.max maxLogBytes (slen red))) /\
  (forall b, dir l !! name l = Some b ->
     (exists rest, dir l' !! name l = Some (b +:+ rest)) \/ dir l' !! rotated (name l) 1 = Some b).
Proof.
  intros Ho Hn H red. unfold Write in H. fold red in H. rewrite Ho in H.
  destruct (rotateLocked _ _ _) as [ok1 l1] eqn:E1.
  destruct (rotateLocked_spec _ _ _ _ _ Ho E1) as (Hnm & Hsh & Hoth & Hyes & Hkeep).
  assert (name l <> rotated (name l) 1) as Hne by (apply (rotated_ne _ 0 1); lia).
  destruct (open_ l1) eqn:Eo; simplify_eq; cbn -[maxLogBytes slen content]; rewrite Hsh, ?Hnm.
  2: { split_and!; try done.
       - intros [Hok _]%andb_true_iff. destruct (Hyes Hok) as [? _]. congruence.
       - intros b Hb. destruct (Hkeep b Hb); [left; exists ""; by rewrite app_nil_r_str|by right]. }
  assert (forall c o sh, content (mkLog (name l) o (<[name l:=c]> (dir l1)) sh) = c) as Hset
    by (intros; unfold content; cbn; by rewrite lookup_insert_eq).
  split_and!; try done.
  - intros f Hf. rewrite lookup_insert_ne by (intros E; by apply (Hf 0%nat); [lia|]). by apply Hoth.
  - intros [[[Hok _]%andb_true_iff Htake]%andb_true_iff _]%andb_true_iff. apply Nat.leb_le in Htake.
    destruct (Hyes Hok) as [_ Hcase]. split; [done|].
    rewrite Hset, lookup_insert_ne, str_take_all, slen_app by (done || (unfold slen; lia)).
    destruct Hcase as [(-> & Hfit)|(-> & H1)].
    + split; [by left|]. intros Hle. pose proof (slen_nonneg red). destruct (decide (0 < slen red)); [specialize (Hfit Hn ltac:(done))|]; lia.
    + rewrite H1. split; [by right|]. change (slen "") with 0. lia.
  - intros b Hb. rewrite lookup_insert_eq, lookup_insert_ne by done. destruct (Hkeep b Hb) as [Hin|Hin]; [left|by right].
    unfold content. rewrite Hnm, Hin. simpl. by eexists.
Qed.
End Logs.

Section Redaction.
Lemma spanOf_app p s : (spanOf p s).1 +:+ (spanOf p s).2 = s.
Proof. induction s as [|c s IH]; [done|]. simpl. destruct (p c); [|done]. destruct (spanOf p s). simpl in *. by rewrite IH. Qed.

Lemma spanOf_all p a s : str_forall p a = true -> (match s with String c _ => p c = false | "" => True end) ->
  spanOf p (a +:+ s) = (a, s).
Proof.
  intros Ha Hs. induction a as [|c a IH]; simpl in *.
  - destruct s as [|c s]; simpl; [done|]. by rewrite Hs.
  - apply andb_true_iff in Ha as [-> Ha]. by rewrite IH.
Qed.

Lemma foldPrefix_app kw s a b : foldPrefix kw s = Some (a, b) -> s = a +:+ b.
Proof.
  revert s a b. induction kw as [|k kw IH]; intros s a b H; [by injection H as <- <-|].
  destruct s as [|c s]; [done|]. simpl in H. destruct (Ascii.eqb k _); [|done].
  destruct (foldPrefix kw s) as [[a' b']|] eqn:E; [|done]. injection H as <- <-. simpl. by rewrite (IH _ _ _ E).
Qed.

(** A pattern that matches nowhere replaces nothing. *)
Lemma scan_id m s prev : (forall prev a b, s = a +:+ b -> m prev b = None) -> scan m 0 prev s = s.
Proof.
  revert prev. induction s as [|c s IH]; intros prev H; [done|]. simpl. rewrite (H prev "" _ eq_refl).
  rewrite IH; [done|]. intros p a b E. apply (H p (String c a)). by rewrite E.
Qed.

Lemma scan_skip m s prev : scan m (String.length s) prev s = "".
Proof. revert prev. induction s as [|c s IH]; intros prev; [done|]. apply IH. Qed.

Lemma class_char (p q : ascii -> bool) c :
  forallb (fun c => implb (p c) (q c)) all_ascii = true -> p c = true -> q c = true.
Proof. intros H Hp. pose proof (ascii_forall _ H c) as Hc. cbv beta in Hc. by rewrite Hp in Hc. Qed.

Definition notChar (x : ascii) (c : ascii) : bool := negb (Ascii.eqb c x).

Lemma path_needs_mark g1 t : str_forall (notChar "?") t = true -> pathQueryTail g1 t = None.
Proof.
  intros Ht. destruct t as [|c t]; [done|]. unfold pathQueryTail.
  destruct c as [[] [] [] [] [] [] [] []]; try done. simpl in Ht.
  pose proof (spanOf_app (fun c => negb (re_space c) && negb (Ascii.eqb c "?")) t) as E.
  destruct (spanOf _ t) as [p r]. simpl in E. rewrite <- E, str_forall_app in Ht. apply andb_true_iff in Ht as [_ Hr].
  destruct r as [|c r]; [done|]. by destruct c as [[] [] [] [] [] [] [] []].
Qed.

(** Neither pass of URLs matches without its marks. *)
Lemma pathQuery_needs_mark prev s : str_forall (notChar "?") s = true -> pathQueryPattern prev s = None.
Proof.
  intros H. unfold pathQueryPattern. rewrite path_needs_mark by done.
  destruct s as [|c s]; [by destruct prev|]. simpl in H. apply andb_true_iff in H as [_ H].
  rewrite path_needs_mark by done. destruct prev, (re_space c); done.
Qed.

Lemma url_needs_colon prev s : str_forall (notChar ":") s = true -> urlPattern prev s = None.
Proof.
  intros H. unfold urlPattern. destruct (boundary prev); [|done]. cbn [negb].
  assert (forall kw, foldPrefix kw s ≫= urlTail = None) as Hkw; [|by rewrite !Hkw].
  intros kw. destruct (foldPrefix kw s) as [[a r]|] eqn:E; [|done]. apply foldPrefix_app in E.
  rewrite E, str_forall_app in H. apply andb_true_iff in H as [_ H].
  destruct r as [|c r]; [done|]. simpl in H. apply andb_true_iff in H as [H _].
  pose proof (class_char (notChar ":") (fun c => negb (Ascii.eqb ":" (lower_char c))) c eq_refl H) as Hc.
  cbv beta in Hc. apply negb_true_iff in Hc.
  cbn [mbind option_bind]. unfold urlTail. cbn [snd foldPrefix]. by rewrite Hc.
Qed.

(** No address starts within a prefix. *)
Fixpoint noStart (prev : option ascii) (pre : string) : bool :=
  match pre with
  | "" => true
  | String c t => (negb (boundary prev) || negb (Ascii.eqb "h" (lower_char c))) && noStart (Some c) t
  end.

Lemma url_prefix prev pre T : noStart prev pre = true -> (forall prev, scan urlPattern 0 prev T = T) ->
  scan urlPattern 0 prev (pre +:+ T) = pre +:+ T.
Proof.
  revert prev. induction pre as [|c pre IH]; intros prev H HT; [apply HT|]. cbn [noStart] in H.
  apply andb_true_iff in H as [Hc Hpre]. change (String c pre +:+ T) with (String c (pre +:+ T)). cbn [scan].
  assert (urlPattern prev (String c (pre +:+ T)) = None) as ->; [|by rewrite IH].
  unfold urlPattern. destruct (boundary prev); [|done]. apply orb_true_iff in Hc as [Hc|Hc]; [done|].
  apply negb_true_iff in Hc. cbn [foldPrefix]. by rewrite Hc.
Qed.

(** The alphabet of a credential in base64, and of a token. *)
Definition credential_char (c : ascii) : bool := is_alnum c || in_chars "+/=-._~" c.

Lemma auth_value S C : S <> "" -> C <> "" -> str_forall is_letter S = true -> str_forall credential_char C = true ->
  authValue (S +:+ " " +:+ C) = Some (S +:+ " " +:+ C).
Proof.
  intros HS HC HlS HcC. unfold authValue. rewrite (spanOf_all is_letter S (" " +:+ C)) by done.
  destruct C as [|c C]; [done|]. simpl in HcC. apply andb_true_iff in HcC as [Hc HcC].
  rewrite (spanOf_all re_space " " (String c C)).
  2: done.
  2: { apply negb_true_iff. by apply (class_char credential_char (fun c => negb (re_space c))). }
  rewrite <- (app_nil_r_str (String c C)), (spanOf_all auth_char (String c C) "").
  - rewrite app_nil_r_str. by destruct S.
  - simpl. rewrite (class_impl credential_char auth_char C eq_refl HcC), andb_true_r.
    by apply (class_char credential_char auth_char).
  - done.
Qed.

Lemma auth_replaced key S C : In key ["Authorization"; "Proxy-Authorization"] -> S <> "" ->
  authValue (S +:+ " " +:+ C) = Some (S +:+ " " +:+ C) -> (match S with String c _ => re_space c = false | "" => True end) ->
  replaceAll authPattern (key +:+ ": " +:+ S +:+ " " +:+ C) = key +:+ ": REDACTED".
Proof.
  intros Hk HS Hv Hsp. set (T := S +:+ " " +:+ C) in *.
  assert (authPattern None (key +:+ ": " +:+ T) = Some (key +:+ ": REDACTED", String.length (key +:+ ": " +:+ T))) as Hm.
  { assert (separator (": " +:+ T) = Some (": ", T)) as Hsep.
    { assert (spanOf re_space (" " +:+ T) = (" ", T)) as Hsp1.
      { rewrite (spanOf_all re_space " " T); [done..|]. unfold T. by destruct S. }
      unfold separator. change (spanOf re_space (": " +:+ T)) with ("", String ":" (" " +:+ T)).
      cbn -[spanOf String.append]. by rewrite Hsp1. }
    remember (": " +:+ T) as X eqn:EX. unfold authPattern, keyed. cbn [boundary negb].
    assert (foldPrefix "authorization" ("Authorization" +:+ X) = Some ("Authorization", X)) as F1 by done.
    assert (foldPrefix "proxy-authorization" ("Proxy-Authorization" +:+ X) = Some ("Proxy-Authorization", X)) as F2 by done.
    assert (foldPrefix "proxy-authorization" ("Authorization" +:+ X) = None) as F3 by done.
    assert (foldPrefix "authorization" ("Proxy-Authorization" +:+ X) = None) as F4 by done.
    destruct Hk as [<-|[<-|[]]]; cbn [omap list_omap]; rewrite ?F1, ?F2, ?F3, ?F4;
      cbn [mbind option_bind]; rewrite Hsep; cbn [mbind option_bind]; rewrite Hv; by rewrite EX. }
  unfold replaceAll. destruct (key +:+ ": " +:+ T) as [|c t] eqn:E; [by destruct Hk as [<-|[<-|[]]]|].
  simpl. rewrite Hm. simpl. rewrite Nat.sub_0_r, scan_skip. by rewrite app_nil_r_str.
Qed.

End Redaction.

(** ** Witnesses and the edges of the redaction *)

Definition allOk : SnapEnv := mkSnapEnv true true (fun _ => true) true true true true true true true.
Definition snaps : Dir := <["s":="old"]> (<["s.1":="older"]> ∅).

Lemma snapshot_rotation_witness :
  exists d', writeFatalSnapshot allOk "s" ".pxgo-diagnostic-1" (Some "new") snaps = (true, d') /\
    LoadSnapshot (@Some string) "s" d' = Some "new" /\ d' !! "s.1" = Some "old" /\ d' !! "s.2" = Some "older".
Proof.
  eexists. split; [reflexivity|].
  destruct (snapshot_rotation (@Some string) allOk "s" ".pxgo-diagnostic-1" (Some "new") snaps _ _
              ltac:(intros [|[|[|j]]] Hj; try discriminate; lia) ltac:(reflexivity) eq_refl) as (_ & _ & H & _).
  destruct (H eq_refl) as (H1 & H2 & H3). split; [exact H1|]. split; [exact H2|exact H3].
Defined.

Definition logOk : LogEnv := mkLogEnv true true true (fun _ => true) true true 100 true.

Lemma log_stays_bounded_witness :
  exists l', Write logOk "pwd=x" (mkLog "p.log" true {["p.log" := "a "]} "") = (true, l') /\
    content l' = "a pwd=REDACTED" /\ open_ l' = true.
Proof.
  eexists. split; [reflexivity|].
  destruct (log_stays_bounded logOk "pwd=x" (mkLog "p.log" true {["p.log" := "a "]} "") _ _
              ltac:(reflexivity) ltac:(discriminate) eq_refl) as (_ & _ & H & _).
  destruct (H eq_refl) as (H1 & _). split; [reflexivity|exact H1].
Defined.


(** The replacement of a path's query is read by [Expand] as the group named
    [2REDACTED], which there is not: the path goes with its query. *)
Example redaction_drops_path : RedactText "GET /path?token=abc HTTP/1.1" = "GET  HTTP/1.1".
Proof. vm_compute. reflexivity. Qed.

(** [\b] does not see a key behind an underscore, and of the parameters of a
    Digest header only the first is covered. *)
Example redaction_edges :
  RedactText "access_token=abc" = "access_token=abc" /\
  RedactText "Authorization: Digest a=1, response=2" = "Authorization: REDACTED, response=2" /\
  RedactText "see https://u:p@h.example/a?b=c#d, then token: t" = "see https://h.example/a?REDACTED#REDACTED, then token=REDACTED".
Proof. vm_compute. done. Qed.

Example ring_overflow :
  map Sequence (Snapshot (recordAll (NewRing 3) (repeat ("test", "event", 0) 5))) = [3; 4; 5].
Proof. vm_compute. reflexivity. Qed.

End Dg.
