(* ===== verification/Bootstrap.v ===== *)
(** * The configuration file: first run, migration, import of the system proxy
    ([internal/config/bootstrap.go], [persistence.go], [config_bootstrap.go])

    The edits of pxgo.ini are functions on its text, and their theorems speak of
    the assignments [Config.v]'s reader finds in it.  Writing is a sequence of
    states of a directory, so that what a crash leaves behind is one of them. *)

From S2P Require Export Prelude GoStrings.
From S2P Require Import NetAddr Url GoText SystemProxy Config.

Module Bs.

(** ** The system proxy to be imported *)

Record SystemProxyImport := mkImport { Found : bool; PAC : string; Server : string; NoProxy : string; Dynamic : bool }.

(** [config_bootstrap.go]. *)
Definition systemProxyImportFromDiscovered (src : Sys.Config) : SystemProxyImport :=
  let dynamic := Sys.AutoDetect src ||
    (negb (Sys.IsPAC src) && String.eqb (Sys.PACURL src) "" && negb (bool_decide (Sys.ByScheme (Sys.ManualProxy src) = ∅))) in
  mkImport (Sys.Found src) (Sys.PACURL src) (Sys.Default (Sys.ManualProxy src)) (Sys.Bypass src) dynamic.

Definition lineBreak : string := String CR (String LF "").

(** The map ranges over three values; the error names one of those that break. *)
Definition validateSystemProxyImport (system : SystemProxyImport) : bool :=
  negb (ContainsAny (PAC system) lineBreak || ContainsAny (Server system) lineBreak || ContainsAny (NoProxy system) lineBreak).

(** ** The text of pxgo.ini *)

Definition currentConfigSchema : Z := 1.
Definition schemaPrefix : string := "# pxgo-config-schema:".
Definition schemaHeader : string := schemaPrefix +:+ " " +:+ Itoa currentConfigSchema.

Definition isComment (line : string) : bool := HasPrefix line "#" || HasPrefix line ";".

Definition activeINIKeys (raw : string) : list string :=
  omap (fun line =>
    let line := TrimSpace line in
    if String.eqb line "" || isComment line || HasPrefix line "[" then None
    else match Cut line "=" with Some (key, _) => Some (Cf.canonicalConfigKey (TrimSpace key)) | None => None end) (Split raw LF).

(** The first header whose number parses. *)
Definition configSchema (raw : string) : Z :=
  default 0 (head (omap (fun line =>
    let line := TrimSpace line in
    if negb (HasPrefix line schemaPrefix) then None
    else match Atoi (TrimSpace (TrimPrefix line schemaPrefix)) with Ok n => Some n | Err _ => None end) (Split raw LF))).

Definition migrationLines (keys : list string) : list string :=
  let without key lines := if bool_decide (key ∈ keys) then [] else lines in
  [""; "# Added by PxGo configuration upgrade. Existing values above are preserved."] ++
  without "listen" ["# PxGo listens on all interfaces by default. WARNING: combine this with a restrictive allow list or client authentication on untrusted networks.";
                    "listen = 0.0.0.0"] ++
  without "allow" ["# Loopback clients only by default; set a deliberate allow list for remote access."; "allow = 127.0.0.0/8,::1"] ++
  without "dns" [""; "# Custom DNS / DoH is optional. Leave these commented to use system/VPN DNS."; "# dns = https://1.1.1.1/dns-query";
                 "# dns_only = *.google.com"; "# dns_bypass = bosch.com,*.bosch.com"] ++
  without "auto_update" [""; "# Automatic updates: off | notify | install. install is the PxGo default."; "auto_update = install"] ++
  without "update_interval" ["# Interval between automatic update checks."; "update_interval = 24h"] ++
  without "update_channel" ["# Release channel: stable | prerelease."; "update_channel = stable"] ++
  without "install_provider" ["# Update owner: auto | direct | winget | scoop | homebrew."; "install_provider = auto"].
Definition migrationBlock (keys : list string) : string := Cf.unlines (migrationLines keys).

Definition migrateLegacyINI (raw : string) : string :=
  let body := TrimRight raw lineBreak in
  (if negb (String.eqb body "") then body +:+ String LF (String LF "") else body) +:+ schemaHeader +:+ migrationBlock (activeINIKeys raw).

Definition upgradeToSchema1 (raw : string) : string :=
  let body := if negb (HasSuffix raw (String LF "")) then raw +:+ String LF "" else raw in
  schemaHeader +:+ String LF body +:+ migrationBlock (activeINIKeys raw).

Definition routeLines (system : SystemProxyImport) : list string :=
  (if Dynamic system then
     ["# System proxy uses dynamic WPAD/AutoDetect or protocol-specific routing.";
      "# server/pac stay unset so PxGo continues using the operating-system resolver."; "# server ="; "# pac ="]
   else if negb (String.eqb (PAC system) "") then
     ["# Imported from the operating-system proxy configuration. PAC has precedence over a manual HTTP proxy.";
      Cf.iniSet "pac" (PAC system); "# server ="]
   else if negb (String.eqb (Server system) "") then
     ["# Imported from the operating-system proxy configuration."; Cf.iniSet "server" (Server system); "# pac ="]
   else
     ["# Leave server and pac unset to follow the operating-system proxy configuration, then DIRECT when none exists.";
      "# server = proxy.company.com:8080"; "# pac = http://proxy.company.com/proxy.pac"]) ++
  (if negb (String.eqb (NoProxy system) "") && negb (Dynamic system) then [Cf.iniSet "noproxy" (NoProxy system)]
   else ["# noproxy = localhost,127.0.0.1,*.company.com"]).

Definition freshLines (system : SystemProxyImport) : list string :=
  ["# PxGo configuration"; schemaHeader;
   "# Source priority: pxgo.ini -> px.ini -> system proxy -> DIRECT.";
   "# Optional features are commented out until explicitly enabled."; ""; "[proxy]"] ++
  routeLines system ++
  [""; "# PAC source encoding: auto or an explicit supported encoding."; "# pac_encoding = auto"; "";
   "port = 3128"; "listen = 0.0.0.0"; "";
   "# WARNING: listen=0.0.0.0 binds every interface, but the default allow list";
   "# only permits loopback clients. Explicitly change allow and/or configure";
   "# client authentication to permit remote clients."; "allow = 127.0.0.0/8,::1"; "";
   "# gateway = 0"; "# hostonly = 0"; "";
   "# Custom DNS / DNS-over-HTTPS is opt-in. Unset means system/VPN DNS.";
   "# dns = https://1.1.1.1/dns-query"; "# dns_only = *.google.com"; "# dns_bypass = bosch.com,*.bosch.com"; "";
   "# Optional upstream request/auth settings."; "# useragent ="; "# username ="; "# auth ="; "# kerberos = 0"; "";
   "[client]"; "# client_auth = NONE"; "# client_username ="; "# client_nosspi = 0"; "";
   "[settings]"; "# workers * threads is the accepted-connection admission budget.";
   "workers = 1"; "threads = 32"; "idle = 30"; "socktimeout = 20.0"; "proxyreload = 60"; "";
   "# foreground = 0"; "# log = 0"; "";
   "# Automatic updates are enabled by default. Modes: off | notify | install.";
   "auto_update = install"; "update_interval = 24h"; "update_channel = stable"; "install_provider = auto"].
(** The route ends in a line break of its own and stands on a line of the text. *)
Definition renderFreshINI (system : SystemProxyImport) : string := Cf.unlines (freshLines system).

(** ** The import of the system proxy *)

Definition normalizedINISectionName (line : string) : option string :=
  let trimmed := TrimSpace line in
  match trimmed with
  | String c _ =>
      if (slen trimmed <? 2) || negb (Ascii.eqb c "[") || negb (HasSuffix trimmed "]") then None
      else Some (ToLower (TrimSpace (str_take (String.length trimmed - 2) (str_drop 1 trimmed))))
  | "" => None
  end.

Definition routingKeys : list string := ["pac"; "server"; "noproxy"].
Definition disabledMark : string := "  # disabled by --apply-system-proxy".
Definition appliedMark : string := "# Applied from operating-system proxy configuration.".

(** The first pass: the section it is in, the keys seen, and the line written.
    [values] says what is wanted of a key; no pointer in it is nil. *)
Definition patchLine (values : string -> option string) (st : string * list string) (line : string) : (string * list string) * string :=
  let '(section, seen) := st in
  match normalizedINISectionName line with
  | Some name => ((name, seen), line)
  | None =>
      let trimmed := TrimSpace line in
      if String.eqb trimmed "" || isComment trimmed then (st, line)
      else match Cut trimmed "=" with
           | None => (st, line)
           | Some (key, _) =>
               let key := Cf.canonicalConfigKey (TrimSpace key) in
               match values key with
               | None => (st, line)
               | Some value =>
                   if negb (String.eqb section "proxy") || bool_decide (key ∈ seen) || String.eqb value ""
                   then (st, "# " +:+ trimmed +:+ disabledMark)
                   else ((section, key :: seen), Cf.iniSet key value)
               end
           end
  end.

Fixpoint patchLines (values : string -> option string) (st : string * list string) (lines : list string) : list string * list string :=
  match lines with
  | [] => (st.2, [])
  | line :: lines =>
      let '(st, line) := patchLine values st line in
      let '(seen, lines) := patchLines values st lines in (seen, line :: lines)
  end.

(** Before the first [[proxy]] section's end, if there is such a section. *)
Fixpoint insertBeforeSection (new lines : list string) : list string :=
  match lines with
  | [] => new
  | line :: rest => match normalizedINISectionName line with Some _ => new ++ lines | None => line :: insertBeforeSection new rest end
  end.
Fixpoint insertInProxy (new lines : list string) : option (list string) :=
  match lines with
  | [] => None
  | line :: rest =>
      if bool_decide (normalizedINISectionName line = Some "proxy") then Some (line :: insertBeforeSection new rest)
      else cons line <$> insertInProxy new rest
  end.

Definition missingOf (values : string -> option string) (seen keys : list string) : list string :=
  omap (fun key => match values key with
                   | Some v => if negb (String.eqb v "") && negb (bool_decide (key ∈ seen)) then Some (Cf.iniSet key v) else None
                   | None => None
                   end) keys.
Definition missingLines (values : string -> option string) (seen : list string) : list string := missingOf values seen routingKeys.

Definition patchINIKeys (raw : string) (values : string -> option string) : string :=
  let nl := String LF "" in
  let '(seen, lines) := patchLines values ("", []) (Split raw LF) in
  let missing := missingLines values seen in
  match missing with
  | [] => Join lines nl
  | _ =>
      match insertInProxy (appliedMark :: missing) lines with
      | Some lines => Join lines nl
      | None => TrimRight (Join lines nl) nl +:+ nl +:+ nl +:+ "[proxy]" +:+ nl +:+ appliedMark +:+ nl +:+ Join missing nl +:+ nl
      end
  end.

(** What is wanted of each routing key. *)
Definition systemRouting (system : SystemProxyImport) (key : string) : option string :=
  let dynamic := Dynamic system || negb (Found system) in
  if String.eqb key "pac" then Some (if dynamic then "" else PAC system)
  else if String.eqb key "server" then
    Some (if dynamic || negb (String.eqb (PAC system) "") then "" else Server system)
  else if String.eqb key "noproxy" then Some (if Dynamic system then "" else NoProxy system)
  else None.

Definition patchSystemRouting (raw : string) (system : SystemProxyImport) : string := patchINIKeys raw (systemRouting system).

(** ** Specification: the assignments a reader of the text finds *)

Definition iniAssign (line : string) : option (string * string) :=
  match Cf.iniLine line with Cf.IniSet k v => Some (Cf.canonicalConfigKey k, v) | _ => None end.
Definition assignments (raw : string) : list (string * string) := omap iniAssign (Split raw LF).

(** The values assigned to a key, in order; and the assignments to other keys. *)
Definition valuesOf (k : string) (l : list (string * string)) : list string :=
  omap (fun x => if bool_decide (x.1 = k) then Some x.2 else None) l.
Definition others (ks : list string) (l : list (string * string)) : list (string * string) :=
  bfilter (fun x => negb (bool_decide (x.1 ∈ ks))) l.

Definition oneLine (l : string) : Prop := no_char LF l = true.

(** ** Lemmas: the assignments of a text *)

Lemma valuesOf_app k a b : valuesOf k (a ++ b) = valuesOf k a ++ valuesOf k b.
Proof. apply omap_app. Qed.
Lemma others_app ks a b : others ks (a ++ b) = others ks a ++ others ks b.
Proof. apply List.filter_app. Qed.

Lemma assignments_app a b : assignments (a +:+ String LF b) = assignments a ++ assignments b.
Proof. unfold assignments. by rewrite Split_app_sep, omap_app. Qed.

Lemma assignments_line l : oneLine l -> assignments l = omap iniAssign [l].
Proof. intros H. unfold assignments. by rewrite Split_no_char. Qed.

Lemma assignments_join ls : ls <> [] -> Forall oneLine ls -> assignments (Join ls (String LF "")) = omap iniAssign ls.
Proof. intros Hne H. unfold assignments. by rewrite Split_Join. Qed.

Lemma assignments_unlines ls : Forall oneLine ls -> assignments (Cf.unlines ls) = omap iniAssign ls.
Proof.
  induction 1 as [|l ls Hl _ IH]; [done|]. cbn [Cf.unlines fold_right]. change (fold_right _ _ ls) with (Cf.unlines ls).
  by rewrite assignments_app, IH, assignments_line, <- omap_app.
Qed.

Lemma isLF c : in_chars (String LF "") c = true -> c = LF.
Proof. unfold in_chars. intros H. apply existsb_exists in H as (d & [<-|[]] & H). by apply Ascii.eqb_eq. Qed.

(** Line breaks at the end say nothing. *)
Lemma assignments_breaks s : str_forall (in_chars (String LF "")) s = true -> assignments s = [].
Proof.
  induction s as [|c s IH]; [done|]. cbn [str_forall]. intros [->%isLF Hs]%andb_true_iff.
  change (String LF s) with ("" +:+ String LF s). by rewrite assignments_app, IH.
Qed.

Lemma trim_right_split p s : exists t, s = trim_right p s +:+ t /\ str_forall p t = true.
Proof.
  induction s as [|c s (t & IH & Ht)]; [by exists ""|]. simpl. destruct (trim_right p s) as [|d r] eqn:E.
  - destruct (p c) eqn:Ec.
    + exists (String c s). split; [done|]. simpl in *. rewrite Ec. by rewrite IH.
    + exists s. split; [done|]. simpl in IH. by rewrite IH.
  - exists t. simpl in *. split; [|done]. f_equal. exact IH.
Qed.

Lemma assignments_trim s : assignments (TrimRight s (String LF "")) = assignments s.
Proof.
  unfold TrimRight. destruct (trim_right_split (in_chars (String LF "")) s) as (t & E & Ht).
  rewrite E at 2. destruct t as [|c t]; [by rewrite app_nil_r_str|].
  cbn [str_forall] in Ht. apply andb_true_iff in Ht as [->%isLF Ht].
  by rewrite assignments_app, (assignments_breaks t), app_nil_r.
Qed.

(** ** Lemmas: lines written and lines marked *)

Lemma str_forall_trim_left p s : str_forall p s = false -> exists c t, trim_left p s = String c t /\ p c = false.
Proof. induction s as [|c s IH]; [done|]. simpl. destruct (p c) eqn:E; [apply IH|]. intros _. by exists c, s. Qed.

Lemma trim_left_app p a b : str_forall p a = false -> trim_left p (a +:+ b) = trim_left p a +:+ b.
Proof. induction a as [|c a IH]; [done|]. simpl. destruct (p c) eqn:E; [apply IH|done]. Qed.

Lemma TrimSpace_right v : TrimSpace (trim_right is_space v) = TrimSpace v.
Proof.
  unfold TrimSpace. destruct (trim_right_split is_space v) as (t & E & Ht).
  destruct (str_forall is_space (trim_right is_space v)) eqn:Ew.
  - assert (trim_right is_space v = "") as Ez by (rewrite <- (trim_right_idem is_space v); by apply trim_right_nil_iff).
    rewrite Ez in *. simpl in E. subst v. symmetry. apply trim_right_nil_iff.
    by apply Cf.trim_left_forall_sub.
  - rewrite E at 2. rewrite trim_left_app by done. by rewrite trim_right_app.
Qed.

Lemma first_char_prefix c t d : HasPrefix (String c t) (String d "") = Ascii.eqb c d.
Proof. unfold HasPrefix. cbn. destruct (Ascii.eqb_spec c d), (ascii_dec d c); try congruence; by destruct t. Qed.

Lemma iniLine_set_any k v : Cf.keyOk k = true -> Cf.iniLine (Cf.iniSet k v) = Cf.IniSet k (TrimSpace v).
Proof.
  intros Hk. destruct (String.eqb_spec (trim_right is_space v) "") as [Ev|Ev].
  - assert (TrimSpace v = "") as -> by (by rewrite <- TrimSpace_right, Ev).
    rewrite <- (Cf.iniLine_set k "" Hk) by done. unfold Cf.iniLine.
    assert (TrimSpace (Cf.iniSet k v) = TrimSpace (Cf.iniSet k "")) as ->; [|done].
    destruct (trim_right_split is_space v) as (t & E & Ht). rewrite Ev in E. simpl in E. subst t.
    unfold Cf.iniSet. unfold Cf.keyOk in Hk. destruct k as [|c k]; [done|]. to_prop. unfold TrimSpace.
    rewrite !Cf.trim_left_head by done. rewrite app_assoc_str, trim_right_app by done. by rewrite app_nil_r_str.
  - unfold Cf.keyOk in Hk. destruct k as [|c k]; [done|].
    apply andb_true_iff in Hk as [[Hc Hs]%andb_true_iff He].
    assert (TrimSpace (Cf.iniSet (String c k) v) = String c k +:+ " = " +:+ trim_right is_space v) as E.
    { unfold Cf.iniSet, TrimSpace. rewrite Cf.trim_left_head by done.
      rewrite app_assoc_str, Cf.trim_right_app_keep by done. by rewrite <- app_assoc_str. }
    unfold Cf.iniLine. rewrite E. change (String c k +:+ " = " +:+ trim_right is_space v) with (String c (k +:+ " = " +:+ trim_right is_space v)).
    rewrite !first_char_prefix.
    assert (Ascii.eqb c "#" = false /\ Ascii.eqb c ";" = false /\ Ascii.eqb c "[" = false) as (-> & -> & ->).
    { repeat split; apply Ascii.eqb_neq; intros ->; by vm_compute in Hc. }
    change (String c (k +:+ " = " +:+ trim_right is_space v)) with (String c k +:+ " = " +:+ trim_right is_space v).
    replace (String c k +:+ " = " +:+ trim_right is_space v) with ((String c k +:+ " ") +:+ String "=" (" " +:+ trim_right is_space v))
      by (by rewrite <- app_assoc_str).
    rewrite Cut_app.
    + rewrite Cf.TrimSpace_trail by done. change (TrimSpace (" " +:+ trim_right is_space v)) with (TrimSpace (trim_right is_space v)).
      by rewrite TrimSpace_right.
    + unfold no_char in *. rewrite str_forall_app. by rewrite He.
Qed.

Lemma iniAssign_set k v : Cf.keyOk k = true -> Cf.canonicalConfigKey k = k -> iniAssign (Cf.iniSet k v) = Some (k, TrimSpace v).
Proof. intros Hk Hc. unfold iniAssign. by rewrite iniLine_set_any, Hc. Qed.

Lemma TrimSpace_mark t : exists r, TrimSpace (String "#" t) = String "#" r.
Proof.
  unfold TrimSpace. rewrite trim_left_id by done. simpl. destruct (trim_right is_space t); by eexists.
Qed.

Lemma iniAssign_mark t : iniAssign (String "#" t) = None.
Proof.
  unfold iniAssign, Cf.iniLine. destruct (TrimSpace_mark t) as [r ->]. by rewrite !first_char_prefix.
Qed.

Lemma bsOneLine_app a b : oneLine (a +:+ b) <-> oneLine a /\ oneLine b.
Proof. unfold oneLine, no_char. by rewrite str_forall_app, andb_true_iff. Qed.

(** ** Lemmas: the first pass *)

Section Patch.
Context (values : string -> option string).
Hypothesis keys_known : forall k, is_Some (values k) <-> k ∈ routingKeys.
Hypothesis values_oneLine : forall k v, values k = Some v -> oneLine v.

Lemma routing_key k : k ∈ routingKeys -> Cf.keyOk k = true /\ Cf.canonicalConfigKey k = k /\ oneLine k.
Proof. unfold routingKeys. rewrite !elem_of_cons, elem_of_nil. by intros [->|[->|[->|[]]]]. Qed.

Lemma value_key k v : values k = Some v -> k ∈ routingKeys.
Proof. intros H. apply keys_known. by rewrite H. Qed.

Lemma iniAssign_written k v : values k = Some v -> iniAssign (Cf.iniSet k v) = Some (k, TrimSpace v).
Proof. intros H%value_key. destruct (routing_key k H) as (? & ? & _). by apply iniAssign_set. Qed.

(** No routing key starts with a bracket. *)
Lemma bracket_key t : Cf.canonicalConfigKey (TrimSpace (String "[" t)) ∉ routingKeys.
Proof.
  assert (exists r, TrimSpace (String "[" t) = String "[" r) as [r E].
  { unfold TrimSpace. rewrite trim_left_id by done. simpl. destruct (trim_right is_space t); by eexists. }
  rewrite E. unfold Cf.canonicalConfigKey.
  assert (exists q, TrimSpace (String "[" r) = String "[" q) as [q ->].
  { unfold TrimSpace. rewrite trim_left_id by done. simpl. destruct (trim_right is_space r); by eexists. }
  cbn [ToLower str_map]. change (lower_char "[") with ("["%char). rewrite (proj2 (String.eqb_neq _ _)) by done.
  unfold routingKeys. rewrite !elem_of_cons, elem_of_nil. by intros [|[|[|[]]]].
Qed.

Inductive Patched (seen : list string) (line : string) : list string -> string -> Prop :=
| LineKept : (forall k v, iniAssign line = Some (k, v) -> values k = None) -> Patched seen line seen line
| Disabled k v w t : iniAssign line = Some (k, v) -> values k = Some w -> (oneLine line -> oneLine t) ->
    Patched seen line seen (String "#" t)
| Written k v w : iniAssign line = Some (k, v) -> values k = Some w -> w <> "" -> k ∉ seen ->
    Patched seen line (k :: seen) (Cf.iniSet k w).

Lemma iniAssign_alt line :
  iniAssign line = if (String.eqb (TrimSpace line) "" || isComment (TrimSpace line)) || HasPrefix (TrimSpace line) "[" then None
                   else (fun x => (Cf.canonicalConfigKey (TrimSpace x.1), TrimSpace x.2)) <$> Cut (TrimSpace line) "=".
Proof.
  unfold iniAssign, Cf.iniLine, isComment. rewrite !orb_assoc.
  destruct (_ || HasPrefix (TrimSpace line) "["); [done|]. by destruct (Cut (TrimSpace line) "=") as [[? ?]|].
Qed.

Lemma patchLine_spec st line st' line' : patchLine values st line = (st', line') -> Patched st.2 line st'.2 line'.
Proof.
  destruct st as [section seen]. unfold patchLine. intros H. cbn [snd]. pose proof (iniAssign_alt line) as Ea.
  destruct (normalizedINISectionName line) as [name|] eqn:En.
  { injection H as <- <-. apply LineKept. intros k v Ha. exfalso. unfold normalizedINISectionName in En. rewrite Ea in Ha.
    destruct (TrimSpace line) as [|c t]; [done|]. destruct (_ || _) eqn:Eb in En; [done|].
    apply orb_false_iff in Eb as [[_ Eb]%orb_false_iff _]. apply negb_false_iff in Eb.
    by rewrite (first_char_prefix c t "["), Eb, orb_true_r in Ha. }
  destruct (String.eqb (TrimSpace line) "" || isComment (TrimSpace line)).
  { injection H as <- <-. apply LineKept. intros k v Ha. by rewrite Ea in Ha. }
  cbn [orb] in Ea. destruct (Cut (TrimSpace line) "=") as [[key rest]|] eqn:Ec.
  2: { injection H as <- <-. apply LineKept. intros k v Ha. rewrite Ea in Ha. by destruct (HasPrefix _ _). }
  set (k := Cf.canonicalConfigKey (TrimSpace key)) in *. cbn [fmap option_map option_fmap] in Ea.
  destruct (values k) as [w|] eqn:Ev.
  2: { injection H as <- <-. apply LineKept. intros k' v Ha. rewrite Ea in Ha. destruct (HasPrefix _ _); [done|]. cbn in Ha. by injection Ha as <- _. }
  assert (HasPrefix (TrimSpace line) "[" = false) as Hb.
  { apply not_true_is_false. intros Hb. apply Cut_inv in Ec as [El _]. apply (bracket_key (str_drop 1 key)).
    assert (key = String "[" (str_drop 1 key)) as <-; [|by apply (value_key k w)].
    rewrite El in Hb. destruct key as [|c key]; [by vm_compute in Hb|].
    simpl in Hb. change (HasPrefix (String c (key +:+ String "=" rest)) (String "[" "") = true) in Hb.
    rewrite first_char_prefix in Hb. apply Ascii.eqb_eq in Hb as ->. by destruct key. }
  rewrite Hb in Ea. cbn in Ea. destruct (_ || String.eqb w "") eqn:Ed; injection H as <- <-; cbn [snd].
  - change ("# " +:+ TrimSpace line +:+ disabledMark) with (String "#" (" " +:+ TrimSpace line +:+ disabledMark)).
    eapply Disabled; [done|done|]. intros Hl. change (oneLine (TrimSpace line +:+ disabledMark)). apply bsOneLine_app. split; [|by vm_compute].
    by apply Cf.TrimSpace_no_char.
  - apply orb_false_iff in Ed as [[_ Ed]%orb_false_iff Ew]. eapply Written; [done|done| |].
    + intros ->. done.
    + intros Hin. by rewrite bool_decide_true in Ed.
Qed.

(** What a key is given by the written lines: its value once, if it was written. *)
Definition given (seen seen' : list string) (k v : string) : list string :=
  if bool_decide (k ∈ seen') && negb (bool_decide (k ∈ seen)) then [TrimSpace v] else [].

Lemma patchLines_spec lines st seen' lines' : patchLines values st lines = (seen', lines') -> Forall oneLine lines ->
  Forall oneLine lines' /\ length lines' = length lines /\
  (forall k, k ∈ seen' -> k ∈ st.2 \/ exists v, values k = Some v /\ v <> "") /\ st.2 ⊆ seen' /\
  others routingKeys (omap iniAssign lines') = others routingKeys (omap iniAssign lines) /\
  (forall k v, values k = Some v -> valuesOf k (omap iniAssign lines') = given st.2 seen' k v).
Proof.
  revert st seen' lines'. induction lines as [|line lines IH]; intros st seen' lines' H Hl; cbn [patchLines] in H.
  { simplify_eq. split_and!; [done|done|by left|done|done|]. intros k v _. unfold given. by destruct (bool_decide (k ∈ _)). }
  destruct (patchLine values st line) as [st1 line1] eqn:E1. destruct (patchLines values st1 lines) as [seen2 lines2] eqn:E2.
  injection H as <- <-. apply Forall_cons in Hl as [Hline Hlines].
  destruct (IH _ _ _ E2 Hlines) as (H1 & H2 & H3 & H4 & H5 & H6). apply patchLine_spec in E1.
  assert (forall k v, iniAssign line = Some (k, v) -> values k <> None -> others routingKeys [(k, v)] = []) as Hskip.
  { intros k v _ Hv. destruct (values k) as [w|] eqn:Ev; [|done]. unfold others. cbn.
    rewrite bool_decide_true by (by apply (value_key k w)). done. }
  inversion E1 as [Hk Es El|k v w t Ha Hv Ht Es El|k v w Ha Hv Hw Hin Es El]; subst line1; rewrite <- Es in *.
  - split_and!; [by constructor|by simpl; rewrite H2|done|done| |].
    + cbn [omap list_omap]. destruct (iniAssign line) as [[k v]|]; [|done].
      change (?x :: ?l) with ([x] ++ l). by rewrite !others_app, H5.
    + intros k v Hv. cbn [omap list_omap]. destruct (iniAssign line) as [[k' v']|] eqn:Ea; [|by apply H6].
      unfold valuesOf. cbn. rewrite bool_decide_false; [by apply H6|]. intros ->. by rewrite (Hk _ _ eq_refl) in Hv.
  - split_and!; [constructor; [|done]|by simpl; rewrite H2|done|done| |].
    + change (String "#" t) with ("#" +:+ t). apply bsOneLine_app. split; [by vm_compute|by apply Ht].
    + cbn [omap list_omap]. rewrite iniAssign_mark, Ha. change (?x :: ?l) with ([x] ++ l).
      rewrite others_app, (Hskip k v) by (done || by rewrite Hv). done.
    + intros k' v' Hv'. cbn [omap list_omap]. rewrite iniAssign_mark. by apply H6.
  - destruct (routing_key k (value_key _ _ Hv)) as (Hok & Hcan & Hone). split_and!.
    + constructor; [|done]. unfold Cf.iniSet. apply bsOneLine_app. split; [done|]. apply bsOneLine_app. split; [by vm_compute|]. by apply (values_oneLine k).
    + by simpl; rewrite H2.
    + intros x Hx. destruct (H3 x Hx) as [[->|Hin']%elem_of_cons|Hx']; [right; by exists w|by left|by right].
    + intros x Hx. apply H4. by right.
    + cbn [omap list_omap]. rewrite (iniAssign_written k w Hv), Ha. change (?x :: ?l) with ([x] ++ l).
      rewrite !others_app, (Hskip k v) by (done || by rewrite Hv). rewrite H5. unfold others at 1. cbn.
      by rewrite bool_decide_true by (by apply (value_key k w)).
    + intros k' v' Hv'. cbn [omap list_omap]. rewrite (iniAssign_written k w Hv). change (?x :: ?l) with ([x] ++ l).
      rewrite valuesOf_app, (H6 k' v' Hv'). unfold given, valuesOf. cbn. destruct (decide (k = k')) as [->|Hne].
      * rewrite !bool_decide_true by (done || by left || (apply H4; by left)). rewrite bool_decide_false by done.
        cbn. assert (w = v') as -> by congruence. done.
      * rewrite (bool_decide_false (k = k')) by done. cbn.
        rewrite (bool_decide_ext (k' ∈ k :: st.2) (k' ∈ st.2)); [done|]. rewrite elem_of_cons. naive_solver.
Qed.
End Patch.

(** ** Lemmas: the insertion *)

Lemma insertBefore_split new lines : exists a b, lines = a ++ b /\ insertBeforeSection new lines = a ++ new ++ b.
Proof.
  induction lines as [|l lines (a & b & IH & IH')]; [exists [], []; simpl; by rewrite app_nil_r|]. simpl.
  destruct (normalizedINISectionName l); [by exists [], (l :: lines)|]. exists (l :: a), b. simpl. by rewrite <- IH, IH'.
Qed.

Lemma insertIn_split new lines r : insertInProxy new lines = Some r -> exists a b, lines = a ++ b /\ r = a ++ new ++ b.
Proof.
  revert r. induction lines as [|l lines IH]; intros r H; [done|]. simpl in H. destruct (bool_decide _).
  - injection H as <-. destruct (insertBefore_split new lines) as (a & b & E & ->). exists (l :: a), b. simpl. by rewrite <- E.
  - destruct (insertInProxy new lines) as [r'|]; [|done]. injection H as <-. destruct (IH _ eq_refl) as (a & b & -> & ->). by exists (l :: a), b.
Qed.

Section Import.
Context (values : string -> option string).
Hypothesis keys_known : forall k, is_Some (values k) <-> k ∈ routingKeys.
Hypothesis values_oneLine : forall k v, values k = Some v -> oneLine v.

Lemma missing_keys seen : Forall oneLine (missingLines values seen) /\
  others routingKeys (omap iniAssign (missingLines values seen)) = [] /\
  (forall k v, values k = Some v -> valuesOf k (omap iniAssign (missingLines values seen)) =
     if negb (String.eqb v "") && negb (bool_decide (k ∈ seen)) then [TrimSpace v] else []).
Proof.
  assert (forall ks, NoDup ks -> ks ⊆ routingKeys ->
    let ls := missingOf values seen ks in
    Forall oneLine ls /\ others routingKeys (omap iniAssign ls) = [] /\
    (forall k v, values k = Some v -> valuesOf k (omap iniAssign ls) =
       if bool_decide (k ∈ ks) && (negb (String.eqb v "") && negb (bool_decide (k ∈ seen))) then [TrimSpace v] else [])) as Hgen.
  { induction ks as [|key ks IH]; intros Hnd Hks; [done|]. apply NoDup_cons in Hnd as [Hni Hnd].
    destruct (IH Hnd) as (H1 & H2 & H3); [set_solver|]. unfold missingOf. cbn [omap list_omap]. fold (missingOf values seen ks).
    assert (key ∈ routingKeys) as Hkey by set_solver. destruct (proj2 (keys_known key) Hkey) as [w Hw]. rewrite Hw.
    assert (forall k v, values k = Some v -> k <> key -> bool_decide (k ∈ key :: ks) = bool_decide (k ∈ ks)) as Hdec.
    { intros k v _ Hne. apply bool_decide_ext. rewrite elem_of_cons. naive_solver. }
    destruct (negb (String.eqb w "") && negb (bool_decide (key ∈ seen))) eqn:Ec.
    - cbn [omap list_omap]. rewrite (iniAssign_written values keys_known key w Hw). split_and!.
      + constructor; [|done]. destruct (routing_key key Hkey) as (_ & _ & Ho). unfold Cf.iniSet.
        apply bsOneLine_app. split; [done|]. apply bsOneLine_app. split; [by vm_compute|]. by apply (values_oneLine key).
      + unfold others in *. cbn. by rewrite bool_decide_true.
      + intros k v Hv. unfold valuesOf. cbn. destruct (decide (key = k)) as [->|Hne].
        * rewrite (bool_decide_true (k = k)) by done. assert (w = v) as <- by congruence. rewrite Ec.
          rewrite bool_decide_true by (by left). cbn. f_equal. change (valuesOf k (omap iniAssign (missingOf values seen ks)) = []).
          rewrite (H3 k w Hv). by rewrite bool_decide_false.
        * rewrite (bool_decide_false (key = k)) by done. rewrite (Hdec k v Hv) by done. by apply H3.
    - split_and!; [done|done|]. intros k v Hv. rewrite (H3 k v Hv). destruct (decide (k = key)) as [->|Hne]; [|by rewrite (Hdec k v Hv)].
      assert (w = v) as <- by congruence. rewrite Ec, !andb_false_r. done. }
  destruct (Hgen routingKeys) as (H1 & H2 & H3); [apply (bool_decide_unpack _); by vm_compute|done|].
  split; [exact H1|]. split; [exact H2|]. intros k v Hv. unfold missingLines. rewrite (H3 k v Hv).
  by rewrite bool_decide_true by (by apply (value_key values keys_known k v)).
Qed.

(** What is left of a text that is patched: other keys keep their assignments, a
    routing key has the one wanted or none. *)
Lemma patch_assigns raw :
  others routingKeys (assignments (patchINIKeys raw values)) = others routingKeys (assignments raw) /\
  (forall k v, values k = Some v ->
     valuesOf k (assignments (patchINIKeys raw values)) = if String.eqb v "" then [] else [TrimSpace v]).
Proof.
  unfold patchINIKeys. destruct (patchLines values ("", []) (Split raw LF)) as [seen lines] eqn:E.
  assert (Forall oneLine (Split raw LF)) as Hraw by (apply Forall_forall; intros l Hl; by apply (Split_elem_no_char raw)).
  destruct (patchLines_spec values keys_known values_oneLine _ _ _ _ E Hraw) as (Hlines & Hlen & Hseen & _ & Hoth & Hval).
  assert (lines <> []) as Hne by (intros ->; pose proof (Split_nonnil raw LF); by destruct (Split raw LF)).
  destruct (missing_keys seen) as (Mone & Moth & Mval). fold (assignments raw) in Hoth.
  assert (forall k v, values k = Some v -> valuesOf k (omap iniAssign lines) ++ valuesOf k (omap iniAssign (missingLines values seen)) =
            if String.eqb v "" then [] else [TrimSpace v]) as Hboth.
  { intros k v Hv. rewrite (Hval k v Hv), (Mval k v Hv). unfold given. cbn [snd]. rewrite (bool_decide_false (k ∈ [])) by set_solver.
    destruct (bool_decide (k ∈ seen)) eqn:Es; cbn [negb andb]; rewrite ?andb_false_r, ?andb_true_r; [|by destruct (String.eqb v "")].
    apply bool_decide_eq_true in Es. destruct (Hseen k Es) as [Hin|(v' & Hv' & Hnz)]; [by apply elem_of_nil in Hin|].
    assert (v' = v) as -> by congruence. by rewrite (proj2 (String.eqb_neq _ _) Hnz). }
  assert (forall a b, lines = a ++ b -> forall text,
    assignments text = omap iniAssign a ++ omap iniAssign (missingLines values seen) ++ omap iniAssign b ->
    others routingKeys (assignments text) = others routingKeys (assignments raw) /\
    (forall k v, values k = Some v -> valuesOf k (assignments text) = if String.eqb v "" then [] else [TrimSpace v])) as Hdone.
  { intros a b El text ->. rewrite !others_app, Moth, app_nil_l, <- others_app, <- omap_app, <- El, Hoth. split; [done|].
    intros k v Hv. specialize (Hboth k v Hv). rewrite El, omap_app, valuesOf_app in Hboth. rewrite !valuesOf_app.
    revert Hboth. generalize (valuesOf k (omap iniAssign a)), (valuesOf k (omap iniAssign b)), (valuesOf k (omap iniAssign (missingLines values seen))).
    intros la lb lm Hb. destruct lm as [|m lm]; [by rewrite app_nil_r in Hb|]. destruct la as [|x la]; [destruct lb as [|y lb]; [by rewrite ?app_nil_r|]|];
      cbn in Hb; exfalso; (destruct (String.eqb v ""); [done|]); injection Hb as _ Hb; apply (f_equal length) in Hb;
      rewrite ?length_app in Hb; simpl in Hb; lia. }
  destruct (missingLines values seen) as [|m ms] eqn:Em.
  { apply (Hdone lines []); [by rewrite app_nil_r|]. cbn. by rewrite app_nil_r, assignments_join. }
  destruct (insertInProxy (appliedMark :: m :: ms) lines) as [r|] eqn:Ei.
  - destruct (insertIn_split _ _ _ Ei) as (a & b & El & ->). apply (Hdone a b El). rewrite assignments_join.
    + rewrite !omap_app. change (appliedMark :: m :: ms) with ([appliedMark] ++ m :: ms). by rewrite omap_app.
    + by destruct a.
    + rewrite El in Hlines. apply Forall_app in Hlines as [? ?]. rewrite !Forall_app. split; [done|]. split; [|done]. constructor; [by vm_compute|done].
  - apply (Hdone lines []); [by rewrite app_nil_r|].
    cbn [omap list_omap app]. rewrite app_nil_r. set (ls := m :: ms) in *. set (nl := String LF "").
    change (TrimRight (Join lines nl) nl +:+ nl +:+ nl +:+ "[proxy]" +:+ nl +:+ appliedMark +:+ nl +:+ Join ls nl +:+ nl)
      with (TrimRight (Join lines nl) nl +:+ String LF ("" +:+ String LF ("[proxy]" +:+ String LF (appliedMark +:+ String LF (Join ls nl +:+ String LF ""))))).
    rewrite !assignments_app, assignments_trim, !assignments_join by (done || by subst ls). cbn. by rewrite app_nil_r.
Qed.
End Import.

(** ** Lemmas: upgrades *)

(** What a migration adds. *)
Definition defaultAssigns (keys : list string) : list (string * string) :=
  let without key v := if bool_decide (key ∈ keys) then [] else [(key, v)] in
  without "listen" "0.0.0.0" ++ without "allow" "127.0.0.0/8,::1" ++ without "auto_update" "install" ++
  without "update_interval" "24h" ++ without "update_channel" "stable" ++ without "install_provider" "auto".

Lemma migration_oneLine keys : Forall oneLine (migrationLines keys).
Proof. unfold migrationLines. rewrite !Forall_app. split_and!; try case_match; repeat constructor; by vm_compute. Qed.

Lemma migration_assigns keys : omap iniAssign (migrationLines keys) = defaultAssigns keys.
Proof.
  unfold migrationLines, defaultAssigns. rewrite !omap_app.
  assert (forall (b : bool) ls l, omap iniAssign ls = l -> omap iniAssign (if b then [] else ls) = if b then [] else l) as Hif
    by (by intros [] ls l).
  rewrite (Hif (bool_decide ("dns" ∈ keys)) _ []) by (vm_compute; reflexivity). destruct (bool_decide ("dns" ∈ keys)).
  all: cbn [app]; rewrite app_nil_l; repeat f_equal; apply Hif; vm_compute; reflexivity.
Qed.

Lemma activeINIKeys_spec raw : activeINIKeys raw = map fst (assignments raw).
Proof.
  unfold activeINIKeys, assignments. induction (Split raw LF) as [|l ls IH]; [done|]. cbn [omap list_omap].
  rewrite iniAssign_alt, IH. destruct (_ || HasPrefix _ "["); [done|]. by destruct (Cut _ _) as [[? ?]|].
Qed.

Lemma TrimSpace_app_space s c : is_space c = true -> TrimSpace (s +:+ String c "") = TrimSpace s.
Proof.
  intros Hc. unfold TrimSpace. destruct (str_forall is_space s) eqn:Es.
  - assert (forall t, str_forall is_space t = true -> trim_right is_space (trim_left is_space t) = "") as Hall.
    { intros t Ht. apply trim_right_nil_iff. by apply Cf.trim_left_forall_sub. }
    rewrite !Hall; [done|done|]. rewrite str_forall_app, Es. simpl. by rewrite Hc.
  - rewrite trim_left_app, trim_right_app; [done| |done]. simpl. by rewrite Hc.
Qed.

(** A character of white space at the end of a text changes nothing. *)
Lemma assignments_space s c : is_space c = true -> assignments (s +:+ String c "") = assignments s.
Proof.
  intros Hc. remember (String.length s) as n eqn:En. revert s En. induction (lt_wf n) as [n _ IH]. intros s ->.
  destruct (Cut s LF) as [[a b]|] eqn:E.
  - apply Cut_inv in E as [-> _]. rewrite <- app_assoc_str. change (String LF b +:+ String c "") with (String LF (b +:+ String c "")).
    rewrite !assignments_app. f_equal. eapply IH; [|done]. rewrite length_app_str. simpl. lia.
  - apply Cut_None in E. destruct (Ascii.eqb_spec c LF) as [->|Hne].
    + rewrite assignments_app. cbn. by rewrite app_nil_r.
    + rewrite !assignments_line; [|done|].
      * cbn [omap list_omap]. by rewrite !iniAssign_alt, TrimSpace_app_space.
      * apply bsOneLine_app. split; [done|]. unfold oneLine, no_char. simpl. by rewrite (proj2 (Ascii.eqb_neq _ _) Hne).
Qed.

Lemma assignments_spaces s t : str_forall is_space t = true -> assignments (s +:+ t) = assignments s.
Proof.
  revert s. induction t as [|c t IH]; intros s Ht; [by rewrite app_nil_r_str|]. simpl in Ht. apply andb_true_iff in Ht as [Hc Ht].
  change (String c t) with (String c "" +:+ t). rewrite app_assoc_str, IH by done. by apply assignments_space.
Qed.

Lemma assignments_TrimRight s : assignments (TrimRight s lineBreak) = assignments s.
Proof.
  unfold TrimRight. destruct (trim_right_split (in_chars lineBreak) s) as (t & E & Ht). rewrite E at 2.
  rewrite assignments_spaces; [done|]. revert Ht. apply class_impl. by vm_compute.
Qed.

Lemma migrationBlock_assigns s keys : assignments (s +:+ migrationBlock keys) = assignments s ++ defaultAssigns keys.
Proof.
  unfold migrationBlock. change (Cf.unlines (migrationLines keys)) with (String LF (Cf.unlines (tail (migrationLines keys)))).
  rewrite assignments_app, assignments_unlines, <- migration_assigns; [done|].
  apply (Forall_drop _ 1), migration_oneLine.
Qed.

Lemma header_assigns s : assignments (schemaHeader +:+ String LF s) = assignments s.
Proof. by rewrite assignments_app. Qed.

Lemma configSchema_header s : configSchema (schemaHeader +:+ String LF s) = currentConfigSchema.
Proof. unfold configSchema. rewrite Split_app by done. reflexivity. Qed.

Lemma ended_assigns raw : assignments (if negb (HasSuffix raw (String LF "")) then raw +:+ String LF "" else raw) = assignments raw.
Proof. destruct (negb _); [|done]. by apply assignments_space. Qed.

Lemma oneLine_value s : ContainsAny s lineBreak = false -> oneLine s.
Proof. unfold ContainsAny, str_exists. intros H%negb_false_iff. revert H. apply class_impl. by vm_compute. Qed.

(** ** Theorems on the text *)

(** C12: the import of the system proxy says what it found and nothing else: the
    assignments to other keys stay as they were, in their order, and pac, server
    and noproxy have the one value wanted, or none, wherever they stood in the
    file, in whatever section and under whatever alias. *)
Theorem import_is_exact raw system :
  validateSystemProxyImport system = true ->
  let after := assignments (patchSystemRouting raw system) in
  others routingKeys after = others routingKeys (assignments raw) /\
  (forall k v, systemRouting system k = Some v -> valuesOf k after = if String.eqb v "" then [] else [TrimSpace v]).
Proof.
  intros Hv. apply patch_assigns.
  - intros k. unfold systemRouting, routingKeys. rewrite !elem_of_cons, elem_of_nil.
    destruct (String.eqb_spec k "pac"); [naive_solver|]. destruct (String.eqb_spec k "server"); [naive_solver|].
    destruct (String.eqb_spec k "noproxy"); [naive_solver|]. split; [by intros [? ?]|naive_solver].
  - unfold validateSystemProxyImport in Hv. apply negb_true_iff in Hv.
    apply orb_false_iff in Hv as [[Hp Hs']%orb_false_iff Hn]. intros k v. unfold systemRouting.
    repeat case_match; intros; simplify_eq; by apply oneLine_value.
Qed.

(** an upgrade keeps what the user wrote: the text of schema 1 assigns what the
    old one did, in the same order, and then the defaults of exactly those new
    options the old one does not assign; it needs no further upgrade.  So does the
    migration of a px.ini. *)
Theorem upgrade_preserves raw :
  let keys := map fst (assignments raw) in
  assignments (upgradeToSchema1 raw) = assignments raw ++ defaultAssigns keys /\
  configSchema (upgradeToSchema1 raw) = currentConfigSchema /\
  assignments (migrateLegacyINI raw) = assignments raw ++ defaultAssigns keys /\
  Forall (fun x => x.1 ∉ keys) (defaultAssigns keys).
Proof.
  cbv zeta. rewrite <- activeINIKeys_spec. split_and!.
  - unfold upgradeToSchema1. cbv zeta. change (String LF ?b +:+ ?m) with (String LF (b +:+ m)).
    rewrite header_assigns, migrationBlock_assigns. by rewrite ended_assigns.
  - apply configSchema_header.
  - unfold migrateLegacyINI. rewrite app_assoc_str, migrationBlock_assigns. f_equal. rewrite <- (assignments_TrimRight raw).
    destruct (String.eqb_spec (TrimRight raw lineBreak) "") as [->|Hne]; [reflexivity|]. cbn [negb].
    rewrite <- app_assoc_str. change (String LF (String LF "") +:+ schemaHeader) with (String LF ("" +:+ String LF schemaHeader)).
    rewrite !assignments_app. cbn. by rewrite app_nil_r.
  - unfold defaultAssigns. rewrite !Forall_app. split_and!; case_bool_decide; repeat constructor; done.
Qed.

(** What a first run writes. *)
Definition routeAssign (system : SystemProxyImport) : list (string * string) :=
  if Dynamic system then []
  else (if negb (String.eqb (PAC system) "") then [("pac", TrimSpace (PAC system))]
        else if negb (String.eqb (Server system) "") then [("server", TrimSpace (Server system))] else []) ++
       (if negb (String.eqb (NoProxy system) "") then [("noproxy", TrimSpace (NoProxy system))] else []).

(** the file of a first run holds the route that was found, a PAC before a
    server and nothing of a dynamic one, and the defaults; it is of the current schema. *)
Theorem fresh_file_is_exact system :
  validateSystemProxyImport system = true ->
  assignments (renderFreshINI system) = routeAssign system ++
    [("port", "3128"); ("listen", "0.0.0.0"); ("allow", "127.0.0.0/8,::1"); ("workers", "1"); ("threads", "32"); ("idle", "30");
     ("socktimeout", "20.0"); ("proxyreload", "60"); ("auto_update", "install"); ("update_interval", "24h");
     ("update_channel", "stable"); ("install_provider", "auto")] /\
  configSchema (renderFreshINI system) = currentConfigSchema.
Proof.
  intros Hv. unfold validateSystemProxyImport in Hv. apply negb_true_iff in Hv.
  apply orb_false_iff in Hv as [[Hp Hs]%orb_false_iff Hn].
  assert (forall k s, k ∈ routingKeys -> ContainsAny s lineBreak = false ->
    oneLine (Cf.iniSet k s) /\ iniAssign (Cf.iniSet k s) = Some (k, TrimSpace s)) as Hset.
  { intros k s Hk Hl. destruct (routing_key k Hk) as (Hok & Hcan & Hone). split; [|by apply iniAssign_set].
    unfold Cf.iniSet. apply bsOneLine_app. split; [done|]. apply bsOneLine_app. split; [by vm_compute|].
    by apply oneLine_value. }
  assert (Forall oneLine (routeLines system) /\ omap iniAssign (routeLines system) = routeAssign system) as [Hone Hroute].
  { destruct (Hset "pac" (PAC system)) as [P1 P2]; [set_solver|done|].
    destruct (Hset "server" (Server system)) as [S1 S2]; [set_solver|done|].
    destruct (Hset "noproxy" (NoProxy system)) as [N1 N2]; [set_solver|done|].
    unfold routeLines, routeAssign. rewrite Forall_app, omap_app.
    destruct (Dynamic system), (String.eqb (PAC system) ""), (String.eqb (Server system) ""), (String.eqb (NoProxy system) "");
      cbn [negb andb]; (split; [split; repeat (constructor; [done || by vm_compute|]); constructor|]);
      cbn [omap list_omap app]; rewrite ?P2, ?S2, ?N2; reflexivity. }
  split; [|reflexivity].
  unfold renderFreshINI. rewrite assignments_unlines.
  - unfold freshLines. rewrite !omap_app, Hroute. reflexivity.
  - unfold freshLines. rewrite !Forall_app. split_and!; [|done|]; repeat constructor; by vm_compute.
Qed.

(** ** persistence.go: writing so that a crash leaves the old file or the new one *)

Record File := mkFile { fData : string; fPerm : Z }.
Abbreviation Dir := (gmap string File).

(** [EPanic] is a panic: it runs the deferred clean-up, like an error, and ends the program. *)
Inductive PErr := EMkdir | ELock | EStat | ERead | EBackup | ETemp | EReplace | EExists | EMissing | EMutate | EImport | EFallback (first : PErr)
| ERequired | EKeyring | EParse | EPanic.

(** What the calls for one file answer: which of them succeed, the names chosen
    for the temporary file and for the backup, and how much a failing write
    leaves. *)
Record PEnv := mkPEnv {
  mkdirs : bool; lockOpens : bool; lockChmods : bool; locks : bool; stats : bool; reads : bool;
  backupOpens : bool; backupWrites : bool; backupCloses : bool;
  tmpCreates : bool; tmpChmods : bool; tmpWrites : bool; tmpSyncs : bool; tmpCloses : bool; replaces : bool;
  umask : Z; tmpName : string; backupName : string; taken : nat }.

(** An operation: its result, and every state of the directory it goes through. *)
Definition M (A : Type) : Type := Dir -> result PErr A * list Dir.
Definition final (d : Dir) (t : list Dir) : Dir := default d (last t).

#[global] Instance M_ret : MRet M := fun _ a _ => (Ok a, []).
#[global] Instance M_bind : MBind M := fun A B f m d =>
  match m d with
  | (Err e, t) => (Err e, t)
  | (Ok a, t) => let '(r, t') := f a (final d t) in (r, t ++ t')
  end.
Definition fails {A} (e : PErr) : M A := fun _ => (Err e, []).
Definition needs (b : bool) (e : PErr) : M unit := fun _ => (if b then Ok tt else Err e, []).
Definition modify (f : Dir -> Dir) : M unit := fun d => (Ok tt, [f d]).
Definition here : M Dir := fun d => (Ok d, []).
(** The deferred clean-up of an operation that failed. *)
Definition orElse {A} (m : M A) (undo : Dir -> Dir) : M A := fun d =>
  match m d with (Err e, t) => (Err e, t ++ [undo (final d t)]) | r => r end.
Definition catch {A} (m : M A) (h : PErr -> M A) : M A := fun d =>
  match m d with (Err e, t) => let '(r, t') := h e (final d t) in (r, t ++ t') | r => r end.

Definition lockName (path : string) : string := path +:+ ".lock".

Definition withFileLock {A} (env : PEnv) (path : string) (perm : Z) (fn : M A) : M A :=
  _ ← needs (lockOpens env) ELock;
  _ ← modify (fun d => <[lockName path := mkFile (default "" (fData <$> d !! lockName path)) perm]> d);
  _ ← needs (lockChmods env) ELock;
  _ ← needs (locks env) ELock;
  fn.

(** Opened for a name that must not exist. *)
Definition createBackup (env : PEnv) (data : string) (perm : Z) : M unit :=
  let name := backupName env in let mode := Z.ldiff perm (umask env) in
  d ← here;
  _ ← needs (backupOpens env && bool_decide (d !! name = None)) EBackup;
  _ ← modify <[name := mkFile "" mode]>;
  orElse (_ ← modify <[name := mkFile (if backupWrites env then data else str_take (taken env) data) mode]>;
          _ ← needs (backupWrites env) EBackup;
          needs (backupCloses env) EBackup) (delete name).

Definition atomicWriteFile (env : PEnv) (path data : string) (perm : Z) : M unit :=
  let name := tmpName env in
  d ← here;
  _ ← needs (tmpCreates env && bool_decide (d !! name = None)) ETemp;
  _ ← modify <[name := mkFile "" 384]>;
  orElse (_ ← needs (tmpChmods env) ETemp;
          _ ← modify <[name := mkFile (if tmpWrites env then data else str_take (taken env) data) perm]>;
          _ ← needs (tmpWrites env) ETemp;
          _ ← needs (tmpSyncs env) ETemp;
          _ ← needs (tmpCloses env) ETemp;
          _ ← needs (replaces env) EReplace;
          modify (fun d => <[path := mkFile data perm]> (delete name d))) (delete name).

(** [os.Stat] and [os.ReadFile]. *)
Definition statFile (env : PEnv) (path : string) : M (option File) :=
  d ← here; _ ← needs (stats env) EStat; mret (d !! path).
Definition readFile (env : PEnv) (path : string) : M string :=
  d ← here; _ ← needs (reads env) ERead;
  match d !! path with Some f => mret (fData f) | None => fails EMissing end.

Definition replaceBehindBackup (env : PEnv) (path current updated : string) (perm : Z) : M unit :=
  _ ← createBackup env current perm; atomicWriteFile env path updated perm.

Definition writeFileWithBackup (env : PEnv) (path data : string) (defaultPerm : Z) : M unit :=
  withFileLock env path defaultPerm (
    info ← statFile env path;
    match info with
    | Some f => current ← readFile env path; replaceBehindBackup env path current data (fPerm f)
    | None => atomicWriteFile env path data defaultPerm
    end).

Definition mutateFileWithBackup (env : PEnv) (path : string) (mutate : string -> result PErr string) : M bool :=
  withFileLock env path 384 (
    info ← statFile env path;
    match info with
    | None => fails EMissing
    | Some f =>
        current ← readFile env path;
        match mutate current with
        | Err e => fails e
        | Ok updated =>
            if String.eqb current updated then mret false
            else _ ← replaceBehindBackup env path current updated (fPerm f); mret true
        end
    end).

Definition writeNewINI (env : PEnv) (path raw : string) : M unit :=
  _ ← needs (mkdirs env) EMkdir;
  withFileLock env path 384 (
    info ← statFile env path;
    match info with
    | Some _ => fails EExists
    | None => atomicWriteFile env path raw 384
    end).

(** ** bootstrap.go: what is done with them *)

Section Bootstrap.
Context (w : Cf.World) (writable : string -> bool) (env : string -> PEnv).

Definition ConfigPathForSave (explicit : string) : string :=
  if negb (String.eqb explicit "") then Cf.normalizePath w explicit
  else
    let cwdPath := Cf.normalizePath w "pxgo.ini" in
    if writable cwdPath then cwdPath
    else
      let configPath := pathJoin (default "" (Cf.getConfigDirStrict w)) "pxgo.ini" in
      if Cf.isThere w configPath then configPath
      else
        let scriptPath := pathJoin (Cf.scriptDir w) "pxgo.ini" in
        if writable scriptPath then scriptPath else configPath.

Definition normalizePathIfSet (path : string) : string :=
  if String.eqb (TrimSpace path) "" then "" else Cf.normalizePath w path.
Definition isLegacyINI (path : string) : bool := EqualFold (pathBase path) "px.ini".
Definition isCanonicalOrLegacyINI (path : string) : bool := EqualFold (pathBase path) "pxgo.ini" || EqualFold (pathBase path) "px.ini".
Definition canonicalPathForLoaded (loadedPath : string) : string :=
  let loadedPath := normalizePathIfSet loadedPath in
  if isLegacyINI loadedPath then pathJoin (pathDir loadedPath) "pxgo.ini" else loadedPath.

Definition ensureExistingCanonical (path : string) : M (string * bool) :=
  raw ← readFile (env path) path;
  if currentConfigSchema <=? configSchema raw then mret (path, false)
  else changed ← mutateFileWithBackup (env path) path (fun current =>
                   Ok (if currentConfigSchema <=? configSchema current then current else upgradeToSchema1 current));
       mret (path, changed).

(** [saved] is [ConfigPathForSave] of no path. *)
Definition EnsureCanonicalINI (loadedPath : string) (system : SystemProxyImport) : M (string * bool) :=
  let loadedPath := normalizePathIfSet loadedPath in
  let saved := ConfigPathForSave "" in
  if negb (String.eqb loadedPath "") && negb (isCanonicalOrLegacyINI loadedPath) then mret (loadedPath, false)
  else if isLegacyINI loadedPath then
    raw ← readFile (env loadedPath) loadedPath;
    let path := pathJoin (pathDir loadedPath) "pxgo.ini" in
    info ← statFile (env path) path;
    match info with
    | Some _ => ensureExistingCanonical path
    | None =>
        let content := migrateLegacyINI raw in
        catch (_ ← writeNewINI (env path) path content; mret (path, true))
              (fun e => if String.eqb saved path then fails e
                        else catch (_ ← writeNewINI (env saved) saved content; mret (saved, true)) (fun _ => fails (EFallback e)))
    end
  else if negb (String.eqb loadedPath "") then ensureExistingCanonical loadedPath
  else if negb (validateSystemProxyImport system) then fails EImport
  else
    info ← statFile (env saved) saved;
    match info with
    | Some _ => ensureExistingCanonical saved
    | None => _ ← writeNewINI (env saved) saved (renderFreshINI system); mret (saved, true)
    end.

Definition ApplySystemProxyINI (loadedPath : string) (system : SystemProxyImport) : M string :=
  if negb (validateSystemProxyImport system) then fails EImport
  else
    let path := canonicalPathForLoaded loadedPath in
    let path := if String.eqb path "" then ConfigPathForSave "" else path in
    _ ← (if isLegacyINI loadedPath then _ ← EnsureCanonicalINI loadedPath (mkImport false "" "" "" false); mret tt else mret tt);
    info ← statFile (env path) path;
    match info with
    | None => _ ← writeNewINI (env path) path (renderFreshINI system); mret path
    | Some _ => _ ← mutateFileWithBackup (env path) path (fun raw => Ok (patchSystemRouting raw system)); mret path
    end.

(** [config_bootstrap.go]; [discovered] is [systemproxy.Discover]. *)
Definition ensureUserConfig (discovered : Sys.Config) (configPath : string) : M (string * bool) :=
  EnsureCanonicalINI configPath
    (if String.eqb configPath "" then systemProxyImportFromDiscovered discovered else mkImport false "" "" "" false).
Definition applySystemProxyConfig (discovered : Sys.Config) (configPath : string) : M string :=
  ApplySystemProxyINI configPath (systemProxyImportFromDiscovered discovered).

End Bootstrap.

(** ** A logic for the operations: [I] holds of every state, [Q] of the end *)

Definition triple {A} (I P : Dir -> Prop) (m : M A) (Q : result PErr A -> Dir -> Prop) : Prop :=
  forall d, I d -> P d -> Forall I (m d).2 /\ Q (m d).1 (final d (m d).2).

Section Logic.
Context (I : Dir -> Prop).

Lemma final_app d t t' : final d (t ++ t') = final (final d t) t'.
Proof. unfold final. rewrite last_app. by destruct (last t'). Qed.
Lemma final_inv d t : I d -> Forall I t -> I (final d t).
Proof. intros Hd Ht. unfold final. destruct (last t) as [x|] eqn:E; [|done]. rewrite Forall_forall in Ht. apply Ht. by apply last_Some_elem_of. Qed.

Lemma t_ret {A} (P : Dir -> Prop) (a : A) (Q : result PErr A -> Dir -> Prop) : (forall d, I d -> P d -> Q (Ok a) d) -> triple I P (mret a) Q.
Proof. intros H d HI HP. by split; [|apply H]. Qed.
Lemma t_fails {A} (P : Dir -> Prop) e (Q : result PErr A -> Dir -> Prop) : (forall d, I d -> P d -> Q (Err e) d) -> triple I P (fails e) Q.
Proof. intros H d HI HP. by split; [|apply H]. Qed.
Lemma t_needs (P : Dir -> Prop) (b : bool) e (Q : result PErr unit -> Dir -> Prop) : (forall d, I d -> P d -> Q (if b then Ok tt else Err e) d) -> triple I P (needs b e) Q.
Proof. intros H d HI HP. by split; [|apply H]. Qed.
Lemma t_here (P : Dir -> Prop) (Q : result PErr Dir -> Dir -> Prop) : (forall d, I d -> P d -> Q (Ok d) d) -> triple I P here Q.
Proof. intros H d HI HP. by split; [|apply H]. Qed.
Lemma t_modify (P : Dir -> Prop) f (Q : result PErr unit -> Dir -> Prop) : (forall d, I d -> P d -> I (f d) /\ Q (Ok tt) (f d)) -> triple I P (modify f) Q.
Proof. intros H d HI HP. destruct (H d HI HP). split; [by repeat constructor|done]. Qed.

Lemma t_bind {A B} P (m : M A) (f : A -> M B) R Q :
  triple I P m (fun r d => match r with Ok a => R a d | Err e => Q (Err e) d end) ->
  (forall a, triple I (R a) (f a) Q) -> triple I P (m ≫= f) Q.
Proof.
  intros Hm Hf d HI HP. destruct (Hm d HI HP) as [H1 H2]. unfold mbind, M_bind. destruct (m d) as [[a|e] t]; [|done].
  cbn [fst snd] in *. destruct (Hf a (final d t) (final_inv d t HI H1) H2) as [H3 H4].
  destruct (f a (final d t)) as [r t']. cbn [fst snd] in *. rewrite final_app. by split; [apply Forall_app|].
Qed.

Lemma t_orElse {A} P (m : M A) undo Q :
  triple I P m (fun r d => match r with Ok a => Q (Ok a) d | Err e => I (undo d) /\ Q (Err e) (undo d) end) -> triple I P (orElse m undo) Q.
Proof.
  intros Hm d HI HP. destruct (Hm d HI HP) as [H1 H2]. unfold orElse. destruct (m d) as [[a|e] t]; [done|].
  cbn [fst snd] in *. destruct H2 as [H2 H3]. rewrite final_app. split; [apply Forall_app; by split; [|repeat constructor]|exact H3].
Qed.

Lemma t_catch {A} P (m : M A) h Q R :
  triple I P m (fun r d => match r with Ok a => Q (Ok a) d | Err e => R d end) -> (forall e, triple I R (h e) Q) -> triple I P (catch m h) Q.
Proof.
  intros Hm Hh d HI HP. destruct (Hm d HI HP) as [H1 H2]. unfold catch. destruct (m d) as [[a|e] t]; [done|].
  cbn [fst snd] in *. destruct (Hh e (final d t) (final_inv d t HI H1) H2) as [H3 H4].
  destruct (h e (final d t)) as [r t']. cbn [fst snd] in *. rewrite final_app. by split; [apply Forall_app|].
Qed.

Lemma t_weaken {A} (P P' : Dir -> Prop) (m : M A) (Q Q' : result PErr A -> Dir -> Prop) : triple I P' m Q' -> (forall d, I d -> P d -> P' d) ->
  (forall r d, I d -> Q' r d -> Q r d) -> triple I P m Q.
Proof.
  intros Hm HP HQ d HI H. destruct (Hm d HI (HP d HI H)) as [H1 H2]. split; [done|]. apply HQ; [|done]. by apply final_inv.
Qed.
End Logic.

Ltac crush := intros; simplify_eq; try done.

Section Specs.
Context (I : Dir -> Prop) (env : PEnv).

Lemma t_createBackup d data perm :
  (forall c m, d !! backupName env = None -> I (<[backupName env := mkFile c m]> d)) -> I d ->
  triple I (eq d) (createBackup env data perm) (fun r d' =>
    match r with
    | Ok _ => d !! backupName env = None /\ d' = <[backupName env := mkFile data (Z.ldiff perm (umask env))]> d
    | Err _ => d' = d
    end).
Proof.
  intros HI Hd. set (b := backupName env) in *. unfold createBackup. fold b.
  eapply t_bind with (R := fun a d' => a = d /\ d' = d); [by apply t_here; crush|]. intros a.
  eapply t_bind with (R := fun _ d' => d' = d /\ d !! b = None).
  { apply t_needs. intros d0 _ [-> ->]. destruct (_ && _) eqn:E; [|done]. apply andb_true_iff in E as [_ E]. by to_prop. }
  intros []. eapply t_bind with (R := fun _ d' => d' = <[b := mkFile "" (Z.ldiff perm (umask env))]> d /\ d !! b = None).
  { apply t_modify. intros d0 _ [-> Hb]. by split; [apply HI|]. }
  intros []. apply t_orElse.
  eapply t_weaken with (P' := fun d' => exists c m, d' = <[b := mkFile c m]> d /\ d !! b = None)
    (Q' := fun r d' => d !! b = None /\ match r with
             | Ok _ => d' = <[b := mkFile data (Z.ldiff perm (umask env))]> d
             | Err _ => exists c m, d' = <[b := mkFile c m]> d end).
  2: { intros d0 _ [-> Hb]. eauto. }
  2: { intros [[]|e] d0 _ [Hb Hr]; [by split|]. destruct Hr as (c & m & ->). by rewrite delete_insert_id. }
  eapply t_bind with (R := fun _ d' => d !! b = None /\
    d' = <[b := mkFile (if backupWrites env then data else str_take (taken env) data) (Z.ldiff perm (umask env))]> d).
  { apply t_modify. intros d0 _ (c & m & -> & Hb). rewrite insert_insert_eq. by split; [apply HI|]. }
  intros []. eapply t_bind with (R := fun _ d' => d !! b = None /\ d' = <[b := mkFile data (Z.ldiff perm (umask env))]> d).
  { apply t_needs. intros d0 _ [Hb ->]. destruct (backupWrites env); eauto. }
  intros []. apply t_needs. intros d0 _ [Hb ->]. destruct (backupCloses env); eauto.
Qed.

Lemma t_atomicWriteFile d path data perm :
  (forall c m, d !! tmpName env = None -> I (<[tmpName env := mkFile c m]> d)) -> I d -> I (<[path := mkFile data perm]> d) ->
  triple I (eq d) (atomicWriteFile env path data perm) (fun r d' =>
    match r with Ok _ => d' = <[path := mkFile data perm]> d | Err _ => d' = d end).
Proof.
  intros HI Hd Hnew. set (b := tmpName env) in *. unfold atomicWriteFile. fold b.
  eapply t_bind with (R := fun a d' => a = d /\ d' = d); [by apply t_here; crush|]. intros a.
  eapply t_bind with (R := fun _ d' => d' = d /\ d !! b = None).
  { apply t_needs. intros d0 _ [-> ->]. destruct (_ && _) eqn:E; [|done]. apply andb_true_iff in E as [_ E]. by to_prop. }
  intros []. eapply t_bind with (R := fun _ d' => d !! b = None /\ exists c m, d' = <[b := mkFile c m]> d).
  { apply t_modify. intros d0 _ [-> Hb]. split; [by apply HI|eauto]. }
  intros []. apply t_orElse.
  eapply t_weaken with (P' := fun d' => d !! b = None /\ exists c m, d' = <[b := mkFile c m]> d)
    (Q' := fun r d' => d !! b = None /\ match r with
             | Ok _ => d' = <[path := mkFile data perm]> d
             | Err _ => exists c m, d' = <[b := mkFile c m]> d end).
  2: { done. }
  2: { intros [[]|e] d0 _ [Hb Hr]; [done|]. destruct Hr as (c & m & ->). by rewrite delete_insert_id. }
  assert (forall x e, triple I (fun d' => d !! b = None /\ exists c m, d' = <[b := mkFile c m]> d) (needs x e)
    (fun r d' => match r with Ok _ => d !! b = None /\ exists c m, d' = <[b := mkFile c m]> d
                 | Err _ => d !! b = None /\ exists c m, d' = <[b := mkFile c m]> d end)) as Hneeds.
  { intros x e. apply t_needs. intros d0 _ H. by destruct x. }
  eapply t_bind; [apply Hneeds|]. intros [].
  eapply t_bind with (R := fun _ d' => d !! b = None /\ exists c m, d' = <[b := mkFile c m]> d).
  { apply t_modify. intros d0 _ (Hb & c & m & ->). rewrite insert_insert_eq. split; [by apply HI|eauto]. }
  intros []. do 4 (eapply t_bind; [apply Hneeds|]; intros []).
  apply t_modify. intros d0 _ (Hb & c & m & ->). by rewrite delete_insert_id.
Qed.
End Specs.

(** ** Lemmas: files that are changed *)

Lemma t_any {A} I P (m : M A) Q : (forall d, I d -> P d -> triple I (eq d) m Q) -> triple I P m Q.
Proof. intros H d HI HP. by apply (H d). Qed.

Lemma lock_ne path : lockName path <> path.
Proof.
  unfold lockName. intros E. apply (f_equal slen) in E. rewrite slen_app in E. change (slen ".lock") with 5 in E. lia.
Qed.

Definition locked (path : string) (perm : Z) (d : Dir) : Dir :=
  <[lockName path := mkFile (default "" (fData <$> d !! lockName path)) perm]> d.

Lemma t_withFileLock {A} (I : Dir -> Prop) env path perm d (fn : M A) (Q : result PErr A -> Dir -> Prop) :
  I (locked path perm d) -> triple I (eq (locked path perm d)) fn Q ->
  (forall e, Q (Err e) d) -> (forall e, Q (Err e) (locked path perm d)) -> triple I (eq d) (withFileLock env path perm fn) Q.
Proof.
  intros HI Hfn Hd Hl. unfold withFileLock.
  eapply t_bind with (R := fun _ d' => d' = d); [apply t_needs; intros d0 _ <-; by destruct (lockOpens env)|]. intros [].
  eapply t_bind with (R := fun _ d' => d' = locked path perm d); [apply t_modify; by intros d0 _ ->|]. intros [].
  do 2 (eapply t_bind with (R := fun _ d' => d' = locked path perm d); [apply t_needs; intros d0 _ ->; by case_match|]; intros []).
  eapply t_weaken; [exact Hfn|by intros d0 _ ->|done].
Qed.

(** Reading changes nothing and gives what is there. *)
Lemma t_statFile I env path d : triple I (eq d) (statFile env path) (fun r d' => d' = d /\ match r with Ok i => i = d !! path | Err _ => True end).
Proof.
  unfold statFile. eapply t_bind with (R := fun a d' => a = d /\ d' = d); [by apply t_here|]. intros a.
  eapply t_bind with (R := fun _ d' => a = d /\ d' = d); [apply t_needs; intros d0 _ [-> ->]; by destruct (stats env)|]. intros [].
  apply t_ret. by intros d0 _ [-> ->].
Qed.
Lemma t_readFile I env path d : triple I (eq d) (readFile env path) (fun r d' => d' = d /\
  match r with Ok x => fData <$> d !! path = Some x | Err _ => True end).
Proof.
  unfold readFile. eapply t_bind with (R := fun a d' => a = d /\ d' = d); [by apply t_here|]. intros a.
  eapply t_bind with (R := fun _ d' => a = d /\ d' = d); [apply t_needs; intros d0 _ [-> ->]; by destruct (reads env)|]. intros [].
  destruct (a !! path) as [f|] eqn:E; [apply t_ret|apply t_fails]; intros d0 _ [-> ->]; [|done]. split; [done|by rewrite E].
Qed.

(** A file replaced behind its backup. *)
Lemma t_replace I env path perm d cur updated :
  d !! path = Some cur -> perm = fPerm cur ->
  (forall s, s !! path = Some cur -> I s) ->
  (forall s, s !! path = Some (mkFile updated perm) -> fData <$> s !! backupName env = Some (fData cur) -> I s) ->
  triple I (eq d) (replaceBehindBackup env path (fData cur) updated perm) (fun r d' =>
    (forall f, f <> path -> f <> backupName env -> d' !! f = d !! f) /\
    match r with
    | Ok _ => d' !! path = Some (mkFile updated perm) /\ fData <$> d' !! backupName env = Some (fData cur)
    | Err _ => d' !! path = Some cur
    end).
Proof.
  intros Hp -> Hold Hnew. unfold replaceBehindBackup. set (b := backupName env) in *.
  eapply t_bind with (R := fun _ d' => d !! b = None /\ d' = <[b := mkFile (fData cur) (Z.ldiff (fPerm cur) (umask env))]> d).
  { eapply t_weaken; [apply (t_createBackup I env d)| |].
    - intros c m Hb. apply Hold. rewrite lookup_insert_ne; [done|]. intros E. fold b in E, Hb. congruence.
    - by apply Hold.
    - done.
    - intros [[]|e] d0 _ Hr; [done|]. by rewrite Hr. }
  intros []. apply t_any. intros d1 _ [Hb Hd1].
  assert (b <> path) as Hne by congruence.
  assert (d1 !! path = Some cur) as Hp1 by (rewrite Hd1; by rewrite lookup_insert_ne).
  assert (fData <$> d1 !! b = Some (fData cur)) as Hb1 by (rewrite Hd1; by rewrite lookup_insert_eq).
  assert (forall f, f <> b -> d1 !! f = d !! f) as Hoth by (intros f Hf; rewrite Hd1; by rewrite lookup_insert_ne).
  clear Hd1. eapply t_weaken; [apply (t_atomicWriteFile I env d1 path updated (fPerm cur))|done|].
  - intros c m Ht. apply Hold. rewrite lookup_insert_ne; [done|congruence].
  - by apply Hold.
  - apply Hnew; [by rewrite lookup_insert_eq|by rewrite lookup_insert_ne].
  - intros [[]|e] d0 _ ->.
    + split; [intros f Hf1 Hf2; rewrite lookup_insert_ne by done; by apply Hoth|].
      split; [by rewrite lookup_insert_eq|by rewrite lookup_insert_ne].
    + split; [intros f Hf1 Hf2; by apply Hoth|done].
Qed.

(** What a mutation does, over any invariant that allows the old file and the new
    one with its backup. *)
Lemma t_mutate I env path d cur mutate :
  d !! path = Some cur ->
  (forall s, s !! path = Some cur -> I s) ->
  (forall s updated, mutate (fData cur) = Ok updated -> s !! path = Some (mkFile updated (fPerm cur)) ->
     fData <$> s !! backupName env = Some (fData cur) -> I s) ->
  triple I (eq d) (mutateFileWithBackup env path mutate) (fun r d' =>
    (forall f, f <> path -> f <> lockName path -> f <> backupName env -> d' !! f = d !! f) /\
    match r with
    | Ok true => exists updated, mutate (fData cur) = Ok updated /\ updated <> fData cur /\
                   d' !! path = Some (mkFile updated (fPerm cur)) /\ fData <$> d' !! backupName env = Some (fData cur)
    | Ok false => mutate (fData cur) = Ok (fData cur) /\ d' !! path = Some cur
    | Err _ => d' !! path = Some cur
    end).
Proof.
  intros Hp Hold Hnew. assert (forall s, s !! path = Some cur -> locked path 384 s !! path = Some cur) as Hlock.
  { intros s Hs. unfold locked. rewrite lookup_insert_ne; [done|apply lock_ne]. }
  assert (forall f, f <> lockName path -> locked path 384 d !! f = d !! f) as Hoth
    by (intros f Hf; unfold locked; by rewrite lookup_insert_ne).
  unfold mutateFileWithBackup. apply t_withFileLock.
  { apply Hold, Hlock, Hp. }
  2: { intros e. by split. }
  2: { intros e. split; [by intros; apply Hoth|by apply Hlock]. }
  specialize (Hlock d Hp). set (d1 := locked path 384 d) in *. clearbody d1.
  eapply t_bind with (R := fun a d' => a = Some cur /\ d' = d1).
  { eapply t_weaken; [apply t_statFile|done|]. intros [a|e] d0 _ [-> Ha]; [by rewrite Ha|]. split; [by intros; apply Hoth|done]. }
  intros a. apply t_any. intros d0 _ [-> ->].
  eapply t_bind with (R := fun a d' => a = fData cur /\ d' = d1).
  { eapply t_weaken; [apply t_readFile|done|]. intros [a|e] d0 _ [-> Ha]; [|split; [by intros; apply Hoth|done]].
    rewrite Hlock in Ha. by injection Ha as <-. }
  intros a. apply t_any. intros d0 _ [-> ->].
  destruct (mutate (fData cur)) as [updated|e] eqn:Em; [|apply t_fails; intros d0 _ <-; split; [by intros; apply Hoth|done]].
  destruct (String.eqb_spec (fData cur) updated) as [Heq|Hne].
  { subst updated. apply t_ret. intros d0 _ <-. split; [by intros; apply Hoth|done]. }
  eapply t_weaken with (P' := eq d1) (Q' := fun r d' => (forall f, f <> path -> f <> backupName env -> d' !! f = d1 !! f) /\
    match r with
    | Ok _ => r = Ok true /\ d' !! path = Some (mkFile updated (fPerm cur)) /\ fData <$> d' !! backupName env = Some (fData cur)
    | Err _ => d' !! path = Some cur
    end); [|done|].
  2: { intros r d0 _ [Ho Hr]. split; [intros f H1 H2 H3; rewrite Ho by done; by apply Hoth|].
       destruct r as [x|e]; [|done]. destruct Hr as ([= ->] & H1 & H2). by exists updated. }
  eapply t_bind with (R := fun _ d' => (forall f, f <> path -> f <> backupName env -> d' !! f = d1 !! f) /\
    d' !! path = Some (mkFile updated (fPerm cur)) /\ fData <$> d' !! backupName env = Some (fData cur)).
  2: { intros []. apply t_ret. intros d0 _ (H1 & H2 & H3). by split. }
  eapply t_weaken; [apply (t_replace I env path (fPerm cur) d1 cur updated Hlock eq_refl Hold)|done|].
  { intros s Hs Hb. by apply (Hnew s updated). }
  intros [[]|e] d0 _ [Ho Hr]; by split.
Qed.

(** C13: a configuration file that is edited is never half written and never lost.
    In every state on the way, so after a crash too, the file is the old one, or the new
    one with the same mode while the backup holds the old text; success and
    failure are told rightly, an edit that changes nothing writes nothing but the
    lock, and other files stay as they are. *)
Theorem config_write_atomic env path d cur mutate :
  d !! path = Some cur ->
  let '(r, states) := mutateFileWithBackup env path mutate d in
  let after := final d states in
  Forall (fun s => s !! path = Some cur \/
    exists updated, mutate (fData cur) = Ok updated /\ s !! path = Some (mkFile updated (fPerm cur)) /\
      fData <$> s !! backupName env = Some (fData cur)) states /\
  (forall f, f <> path -> f <> lockName path -> f <> backupName env -> after !! f = d !! f) /\
  match r with
  | Ok true => exists updated, mutate (fData cur) = Ok updated /\ updated <> fData cur /\
                 after !! path = Some (mkFile updated (fPerm cur)) /\ fData <$> after !! backupName env = Some (fData cur)
  | Ok false => mutate (fData cur) = Ok (fData cur) /\ after !! path = Some cur
  | Err _ => after !! path = Some cur
  end.
Proof.
  intros Hp. set (I := fun s : Dir => s !! path = Some cur \/ exists updated, mutate (fData cur) = Ok updated /\
    s !! path = Some (mkFile updated (fPerm cur)) /\ fData <$> s !! backupName env = Some (fData cur)).
  epose proof (t_mutate I env path d cur mutate Hp ltac:(by left) ltac:(right; eauto) d (or_introl Hp) eq_refl) as [H1 H2].
  destruct (mutateFileWithBackup env path mutate d) as [r t]. exact (conj H1 H2).
Qed.

(** ** Lemmas: no text is lost *)

(** Every file there was is there, and every text that was there is in some file. *)
Definition Kept (d s : Dir) : Prop := forall f c, d !! f = Some c ->
  is_Some (s !! f) /\ exists g c', s !! g = Some c' /\ fData c' = fData c.

Lemma Kept_refl d : Kept d d.
Proof. intros f c Hf. split; [by rewrite Hf|eauto]. Qed.

Lemma Kept_insert d s n x : Kept d s -> (forall c, s !! n = Some c -> exists g c', g <> n /\ s !! g = Some c' /\ fData c' = fData c \/ fData x = fData c) ->
  Kept d (<[n := x]> s).
Proof.
  intros Hk Hn f c Hf. destruct (Hk f c Hf) as [Hin (g & c' & Hg & Hc)]. split.
  - destruct (decide (f = n)) as [->|]; [by rewrite lookup_insert_eq|by rewrite lookup_insert_ne].
  - destruct (decide (g = n)) as [->|Hne]; [|exists g, c'; by rewrite lookup_insert_ne].
    destruct (Hn c' Hg) as (g' & c'' & [(Hne & Hg' & Hc')|Hx]).
    + exists g', c''. rewrite lookup_insert_ne by done. split; [done|congruence].
    + exists n, x. rewrite lookup_insert_eq. split; [done|congruence].
Qed.

Lemma Kept_fresh d s n x : Kept d s -> s !! n = None -> Kept d (<[n := x]> s).
Proof. intros Hk Hn. apply Kept_insert; [done|]. intros c Hc. congruence. Qed.

Lemma Kept_locked d s path perm : Kept d s -> Kept d (locked path perm s).
Proof.
  intros Hk. apply Kept_insert; [done|]. intros c Hc. exists "", c. right. by rewrite Hc.
Qed.

Section Kept.
Context (d0 : Dir) (env : string -> PEnv).
Local Abbreviation keeps m := (triple (Kept d0) (fun _ => True) m (fun _ _ => True)).

Lemma keeps_bind {A B} (m : M A) (f : A -> M B) : keeps m -> (forall a, keeps (f a)) -> keeps (m ≫= f).
Proof. intros Hm Hf. eapply t_bind with (R := fun _ _ => True); [|done]. eapply t_weaken; [exact Hm|done|]. by intros [?|?]. Qed.
Lemma keeps_ret {A} (a : A) : keeps (mret a).
Proof. by apply t_ret. Qed.
Lemma keeps_fails {A} e : keeps (fails (A := A) e).
Proof. by apply t_fails. Qed.
Lemma keeps_catch {A} (m : M A) h : keeps m -> (forall e, keeps (h e)) -> keeps (catch m h).
Proof. intros Hm Hh. eapply t_catch with (R := fun _ => True); [|done]. eapply t_weaken; [exact Hm|done|]. by intros [?|?]. Qed.
Lemma keeps_stat e path : keeps (statFile e path).
Proof. apply t_any. intros d _ _. by eapply t_weaken; [apply t_statFile|done|]. Qed.
Lemma keeps_read e path : keeps (readFile e path).
Proof. apply t_any. intros d _ _. by eapply t_weaken; [apply t_readFile|done|]. Qed.

Lemma keeps_writeNew e path raw : keeps (writeNewINI e path raw).
Proof.
  apply t_any. intros d Hd _. unfold writeNewINI.
  eapply t_bind with (R := fun _ d' => d' = d); [apply t_needs; intros ? _ <-; by destruct (mkdirs e)|]. intros [].
  apply t_any. intros ? _ ->. pose proof (Kept_locked d0 d path 384 Hd) as Hl.
  apply t_withFileLock; [done| |done|done]. set (d1 := locked path 384 d) in *. clearbody d1.
  eapply t_bind with (R := fun a d' => a = d1 !! path /\ d' = d1).
  { eapply t_weaken; [apply t_statFile|done|]. intros [a|e'] ? _ [-> Ha]; done. }
  intros a. apply t_any. intros ? _ [-> ->]. destruct (d1 !! path) eqn:Ep; [by apply t_fails|].
  eapply t_weaken; [apply (t_atomicWriteFile (Kept d0) e d1)|done|done].
  - intros c m Hn. by apply Kept_fresh.
  - done.
  - by apply Kept_fresh.
Qed.

Lemma keeps_mutate e path mutate : keeps (mutateFileWithBackup e path mutate).
Proof.
  apply t_any. intros d Hd _. pose proof (Kept_locked d0 d path 384 Hd) as Hl.
  unfold mutateFileWithBackup. apply t_withFileLock; [done| |done|done]. set (d1 := locked path 384 d) in *. clearbody d1.
  eapply t_bind with (R := fun a d' => a = d1 !! path /\ d' = d1).
  { eapply t_weaken; [apply t_statFile|done|]. intros [a|e'] ? _ [-> Ha]; done. }
  intros a. apply t_any. intros ? _ [-> ->]. destruct (d1 !! path) as [cur|] eqn:Ep; [|by apply t_fails].
  eapply t_bind with (R := fun a d' => a = fData cur /\ d' = d1).
  { eapply t_weaken; [apply t_readFile|done|]. intros [a|e'] ? _ [-> Ha]; [|done]. rewrite Ep in Ha. by injection Ha as <-. }
  intros a. apply t_any. intros ? _ [-> ->]. destruct (mutate (fData cur)) as [updated|]; [|by apply t_fails].
  destruct (String.eqb _ _); [by apply t_ret|].
  eapply t_bind with (R := fun _ _ => True); [|intros []; by apply t_ret]. unfold replaceBehindBackup. set (b := backupName e).
  eapply t_bind with (R := fun _ d' => d1 !! b = None /\ d' = <[b := mkFile (fData cur) (Z.ldiff (fPerm cur) (umask e))]> d1).
  { eapply t_weaken; [apply (t_createBackup (Kept d0) e d1); [|done]|done|].
    - intros c m Hn. by apply Kept_fresh.
    - by intros [[]|?] ? _ Hr. }
  intros []. apply t_any. intros d2 Hk2 [Hb Hd2]. assert (b <> path) as Hne by congruence.
  eapply t_weaken; [apply (t_atomicWriteFile (Kept d0) e d2)|done|by intros [[]|?]].
  - intros c m Hn. by apply Kept_fresh.
  - done.
  - apply Kept_insert; [done|]. intros c Hc. rewrite Hd2, lookup_insert_ne in Hc by done.
    exists b, (mkFile (fData cur) (Z.ldiff (fPerm cur) (umask e))). left. rewrite Hd2, lookup_insert_eq. split_and!; [done|done|cbn; congruence].
Qed.

Lemma keeps_ensureExisting path : keeps (ensureExistingCanonical env path).
Proof.
  apply keeps_bind; [apply keeps_read|]. intros raw. destruct (_ <=? _); [apply keeps_ret|].
  apply keeps_bind; [apply keeps_mutate|]. intros changed. apply keeps_ret.
Qed.

Lemma keeps_ensure w writable loaded system : keeps (EnsureCanonicalINI w writable env loaded system).
Proof.
  unfold EnsureCanonicalINI. set (l := normalizePathIfSet w loaded). set (saved := ConfigPathForSave w writable "").
  destruct (_ && _); [apply keeps_ret|]. destruct (isLegacyINI l).
  - apply keeps_bind; [apply keeps_read|]. intros raw. apply keeps_bind; [apply keeps_stat|]. intros [f|]; [apply keeps_ensureExisting|].
    apply keeps_catch; [apply keeps_bind; [apply keeps_writeNew|intros; apply keeps_ret]|]. intros e.
    destruct (String.eqb _ _); [apply keeps_fails|].
    apply keeps_catch; [apply keeps_bind; [apply keeps_writeNew|intros; apply keeps_ret]|]. intros e'. apply keeps_fails.
  - destruct (negb _); [apply keeps_ensureExisting|]. destruct (negb _); [apply keeps_fails|].
    apply keeps_bind; [apply keeps_stat|]. intros [f|]; [apply keeps_ensureExisting|].
    apply keeps_bind; [apply keeps_writeNew|]. intros; apply keeps_ret.
Qed.

Lemma keeps_apply w writable loaded system : keeps (ApplySystemProxyINI w writable env loaded system).
Proof.
  unfold ApplySystemProxyINI. destruct (negb _); [apply keeps_fails|].
  apply keeps_bind; [destruct (isLegacyINI loaded); [apply keeps_bind; [apply keeps_ensure|intros; apply keeps_ret]|apply keeps_ret]|].
  intros _. apply keeps_bind; [apply keeps_stat|]. intros [f|].
  - apply keeps_bind; [apply keeps_mutate|]. intros; apply keeps_ret.
  - apply keeps_bind; [apply keeps_writeNew|]. intros; apply keeps_ret.
Qed.
End Kept.

(** whatever the start of the program or the import of the system proxy does
    to the configuration files, and wherever it stops, every file that was there is there
    and every text that was there is still in a file, the edited one's in its
    backup. *)
Theorem no_configuration_lost w writable env discovered configPath d s :
  s ∈ (ensureUserConfig w writable env discovered configPath d).2 \/
  s ∈ (applySystemProxyConfig w writable env discovered configPath d).2 -> Kept d s.
Proof.
  intros [Hs|Hs].
  - destruct (keeps_ensure d env w writable configPath
      (if String.eqb configPath "" then systemProxyImportFromDiscovered discovered else mkImport false "" "" "" false) d (Kept_refl d) I) as [H _].
    rewrite Forall_forall in H. by apply H.
  - destruct (keeps_apply d env w writable configPath (systemProxyImportFromDiscovered discovered) d (Kept_refl d) I) as [H _].
    rewrite Forall_forall in H. by apply H.
Qed.

(** ** Witnesses *)

Definition nl : string := String LF "".
Definition oldText : string :=
  "proxy = old:1" +:+ nl +:+ "[ Proxy ]" +:+ nl +:+ "server=a:1" +:+ nl +:+ "port = 8080" +:+ nl +:+ "server=b:2" +:+ nl +:+
  "[settings]" +:+ nl +:+ "pac = x" +:+ nl.
Definition found : SystemProxyImport := mkImport true "" "proxy.corp:3128" "*.lan" false.

Example patch1 : patchSystemRouting oldText found =
  "# proxy = old:1  # disabled by --apply-system-proxy" +:+ nl +:+ "[ Proxy ]" +:+ nl +:+ "server = proxy.corp:3128" +:+ nl +:+
  "port = 8080" +:+ nl +:+ "# server=b:2  # disabled by --apply-system-proxy" +:+ nl +:+
  "# Applied from operating-system proxy configuration." +:+ nl +:+ "noproxy = *.lan" +:+ nl +:+
  "[settings]" +:+ nl +:+ "# pac = x  # disabled by --apply-system-proxy" +:+ nl.
Proof. vm_compute. reflexivity. Qed.

Lemma import_is_exact_witness :
  valuesOf "server" (assignments (patchSystemRouting oldText found)) = ["proxy.corp:3128"] /\
  valuesOf "pac" (assignments (patchSystemRouting oldText found)) = [] /\
  others routingKeys (assignments (patchSystemRouting oldText found)) = [("port", "8080")].
Proof.
  destruct (import_is_exact oldText found ltac:(vm_compute; reflexivity)) as [H1 H2].
  split; [exact (H2 "server" "proxy.corp:3128" eq_refl)|]. split; [exact (H2 "pac" "" eq_refl)|].
  rewrite H1. vm_compute. reflexivity.
Defined.

Lemma fresh_file_is_exact_witness :
  valuesOf "server" (assignments (renderFreshINI found)) = ["proxy.corp:3128"].
Proof. rewrite (proj1 (fresh_file_is_exact found ltac:(vm_compute; reflexivity))). vm_compute. reflexivity. Defined.

Definition goodEnv : PEnv :=
  mkPEnv true true true true true true true true true true true true true true true 18 "/c/.pxgo.ini.tmp-1" "/c/pxgo.ini.bak.1" 0.
Definition oneFile : Dir := {["/c/pxgo.ini" := mkFile "port = 1" 420]}.

Lemma config_write_atomic_witness :
  exists states, mutateFileWithBackup goodEnv "/c/pxgo.ini" (fun t => Ok (t +:+ nl)) oneFile = (Ok true, states) /\
    final oneFile states !! "/c/pxgo.ini" = Some (mkFile ("port = 1" +:+ nl) 420).
Proof.
  pose proof (config_write_atomic goodEnv "/c/pxgo.ini" oneFile (mkFile "port = 1" 420) (fun t => Ok (t +:+ nl)) eq_refl) as H.
  eexists. split; [reflexivity|]. destruct H as (_ & _ & updated & Hu & _ & H & _). simpl in Hu. injection Hu as <-. exact H.
Defined.

(** A start with the file of [oneFile] upgrades it. *)
Definition toyWorld : Cf.World :=
  Cf.mkWorld [] (Some "/c") (Some "/h") false "/s" (fun _ => Cf.NotExist) (fun _ => inr true) (fun _ _ => None).
Definition toyDiscovered : Sys.Config := Sys.mkConfig (Sys.mkManual "" ∅) "" "" false false false false.

Lemma no_configuration_lost_witness :
  Forall (Kept oneFile) (ensureUserConfig toyWorld (fun _ => true) (fun _ => goodEnv) toyDiscovered "" oneFile).2 /\
  (ensureUserConfig toyWorld (fun _ => true) (fun _ => goodEnv) toyDiscovered "" oneFile).1 = Ok ("/c/pxgo.ini", true).
Proof.
  split; [|vm_compute; reflexivity]. apply Forall_forall. intros s Hs.
  exact (no_configuration_lost toyWorld (fun _ => true) (fun _ => goodEnv) toyDiscovered "" oneFile s (or_introl Hs)).
Defined.

End Bs.
