(* ===== verification/Keyring.v ===== *)
(** * The stored passwords ([internal/config/config.go])

    A password goes to the keyring of the system, or to a JSON file when the
    environment asks for it.  The file is rewritten by the functions of
    [Bootstrap.v], so that storing is a sequence of states of a directory; its text
    is written and read by [Json.v].  The theorems follow a password from the store
    to the configuration that is parsed next. *)

From S2P Require Export Prelude GoStrings.
From S2P Require Import Utf8 GoText Config Bootstrap Json Codec.
Import Bootstrap.Bs.

Module Kr.

(** ** The file *)

Abbreviation Inner := (gmap string string).
(** [map[string]map[string]string]; [None] is a nil map. *)
Abbreviation Data := (option (gmap string (option Inner))).

Definition dataCodec : Codec Data := jmap (jmap jstring).

(** [json.Unmarshal] into a map that is there and empty. *)
Definition Unmarshal (raw : string) : option Data := v ← parse raw; dec dataCodec (Some ∅) v.
Definition Marshal (data : Data) : string := MarshalIndent (enc dataCodec data).

(** ** The operations *)

Section Keyring.
Context (w : Cf.World).
(** The keyring of the system: what it holds, and whether it takes an entry. *)
Context (osGet : string -> string -> option string) (osSet : string -> string -> string -> bool).
Context (env : PEnv).

Definition Getenv (key : string) : string := default "" (Cf.LookupEnv w key).
Definition GetConfigDir : string := default "" (Cf.getConfigDirStrict w).
Definition keyringPath : string :=
  let path := Getenv "PXGO_KEYRING_FILE" in
  if negb (String.eqb path "") then path else pathJoin GetConfigDir "keyring.json".
Definition plaintext : bool := String.eqb (Getenv "PXGO_KEYRING_PLAINTEXT") "1".

Definition readData : M Data :=
  raw ← catch (raw ← readFile env keyringPath; mret (Some raw)) (fun e => match e with EMissing => mret None | e => fails e end);
  match raw with
  | None => mret (Some ∅)
  | Some raw => match Unmarshal raw with Some data => mret data | None => fails EParse end
  end.

(** An assignment to an entry of a nil map panics. *)
Definition putPassword (realm username password : string) (data : Data) : result PErr Data :=
  match data with
  | None => Err EPanic
  | Some m => let inner := default ∅ (m !! realm ≫= id) in Ok (Some (<[realm := Some (<[username := password]> inner)]> m))
  end.

Definition storePlaintext (realm username password : string) : M unit :=
  _ ← needs (mkdirs env) EMkdir;
  withFileLock env keyringPath 384 (
    data ← readData;
    match putPassword realm username password data with
    | Err e => fails e
    | Ok data => atomicWriteFile env keyringPath (Marshal data) 384
    end).

Definition StorePassword (realm username password : string) : M unit :=
  if String.eqb username "" then fails ERequired
  else if String.eqb password "" then fails ERequired
  else if plaintext then storePlaintext realm username password
  else needs (osSet realm username password) EKeyring.

(** [None]: an error; [Some None]: no password. *)
Definition passwordOf (realm username : string) (data : Data) : option string :=
  let password := default "" (m ← data; inner ← m !! realm; inner ← inner; inner !! username) in
  if String.eqb password "" then None else Some password.
Definition getPlaintextStrict (d : Dir) (realm username : string) : option (option string) :=
  if negb (reads env) then None
  else match d !! keyringPath with
       | None => Some None
       | Some f => passwordOf realm username <$> Unmarshal (fData f)
       end.
Definition getPasswordStrict (d : Dir) (realm username : string) : option (option string) :=
  if String.eqb username "" then Some None
  else if plaintext then getPlaintextStrict d realm username
  else Some (osGet realm username).
Definition GetPassword (d : Dir) (realm username : string) : string * bool :=
  match getPasswordStrict d realm username with Some (Some pwd) => (pwd, true) | _ => ("", false) end.
End Keyring.

(** ** Lemmas: the file's text *)

(** ** Lemmas: what is stored is text *)

Definition innerText (inner : option Inner) : Prop := forall m u p, inner = Some m -> m !! u = Some p -> isText u = true /\ isText p = true.
Definition dataText (data : Data) : Prop := forall m r inner, data = Some m -> m !! r = Some inner -> isText r = true /\ innerText inner.

Lemma decMembers_text {A} (c : Codec A) (P : string -> A -> Prop) ms :
  (forall k v x, isText k = true -> textual v = true -> dec c (zero c) v = Some x -> P k x) -> textual (JObj ms) = true ->
  forall acc m, (forall k x, acc !! k = Some x -> P k x) -> fold_left (decMembers c) ms (Some acc) = Some m -> forall k x, m !! k = Some x -> P k x.
Proof.
  intros HP. induction ms as [|[k0 v0] ms IH]; intros Hv acc m Hacc H; [by injection H as ->|]. cbn [textual forallb fst snd] in Hv.
  apply andb_true_iff in Hv as [[Hk Hv0]%andb_true_iff Hv]. cbn [fold_left] in H. unfold decMembers at 2 in H. cbn [mbind option_bind fst snd] in H.
  destruct (dec c (zero c) v0) as [x0|] eqn:E; cbn [mbind option_bind] in H.
  - refine (IH Hv _ m _ H). intros k x [[<- <-]|[_ H1]]%lookup_insert_Some; [by apply (HP k0 v0)|by apply Hacc].
  - exfalso. clear - H. induction ms as [|y ms IH]; [done|]. by apply IH.
Qed.

Lemma jmap_text {A} (c : Codec A) (P : string -> A -> Prop) old v r :
  (forall k v x, isText k = true -> textual v = true -> dec c (zero c) v = Some x -> P k x) -> textual v = true ->
  (forall m k x, old = Some m -> m !! k = Some x -> P k x) -> dec (jmap c) old v = Some r -> forall m k x, r = Some m -> m !! k = Some x -> P k x.
Proof.
  intros HP Hv Hold H m k x -> Hm. destruct v as [| | | | |ms]; try done. cbn [jmap dec] in H. apply fmap_Some in H as (m' & H & [= <-]).
  refine (decMembers_text c P ms HP Hv _ m _ H k x Hm). intros k' x' Hk'. destruct old; [by eapply Hold|]. cbn in Hk'. by rewrite lookup_empty in Hk'.
Qed.

Lemma Unmarshal_text raw data : Unmarshal raw = Some data -> dataText data.
Proof.
  unfold Unmarshal. intros (v & Hp & H)%bind_Some. apply parse_textual in Hp. intros m r inner E Hr.
  refine (jmap_text (jmap jstring) (fun r inner => isText r = true /\ innerText inner) _ v data _ Hp _ H m r inner E Hr).
  - intros r' v' x Hr' Hv' Hd. split; [done|]. intros m' u p Em Hu.
    refine (jmap_text jstring (fun u p => isText u = true /\ isText p = true) None v' x _ Hv' _ Hd m' u p Em Hu); [|done].
    intros u' v2 p' Hu' Hv2 Hd2. split; [done|]. destruct v2; try done; by injection Hd2 as <-.
  - intros m' k x [= <-] Hx. by rewrite lookup_empty in Hx.
Qed.

(** A text written is read back. *)
Lemma Unmarshal_Marshal data : dataText data -> Unmarshal (Marshal data) = Some data.
Proof.
  intros H. destruct (_ : Lawful dataCodec 2) as [H1 H2 H3]. assert (encodable dataCodec data = true) as He.
  { destruct data as [m|]; [|done]. apply forallb_forall. intros [k [i|]] _; [|done]. by apply forallb_forall. }
  assert (norm dataCodec data = data) as Hn.
  { apply jmap_norm. intros m r inner E Hr. destruct (H m r inner E Hr) as [Ht Hi]. split; [by apply ToValid_id|].
    apply jmap_norm. intros m' u p E' Hu. destruct (Hi m' u p E' Hu). split; by apply ToValid_id. }
  unfold Unmarshal, Marshal, MarshalIndent. rewrite parse_print; [|auto|by apply H2|specialize (H3 data); unfold maxNestingDepth; lia].
  cbn [mbind option_bind]. rewrite <- Hn at 2. rewrite <- (H1 data He). by destruct data.
Qed.

(** ** Lemmas: the operations on a directory *)

Section Storing.
Context (w : Cf.World) (osGet : string -> string -> option string) (osSet : string -> string -> string -> bool) (env : PEnv).
Abbreviation path := (keyringPath w).
(** The name of a temporary file starts with a dot and the name of its target. *)
Context (Htmp : tmpName env <> path).

(** The data of a directory: [None] when its file cannot be read as such. *)
Definition dataOf (d : Dir) : option Data := match d !! path with None => Some (Some ∅) | Some f => Unmarshal (fData f) end.

Lemma t_readData I d : triple I (eq d) (readData w env) (fun r d' => d' = d /\
  match r with Ok data => reads env = true /\ dataOf d = Some data | Err _ => True end).
Proof.
  intros d0 HI <-. unfold readData, catch, readFile, here, needs, mbind, M_bind, dataOf. destruct (reads env); [|by split].
  cbn. destruct (d !! path) as [f|] eqn:E; cbn; rewrite ?E; cbn; [|by split]. by destruct (Unmarshal (fData f)).
Qed.

Lemma putPassword_text realm user pw data data' : isText realm = true -> isText user = true -> isText pw = true -> dataText data ->
  putPassword realm user pw data = Ok data' -> dataText data'.
Proof.
  intros Hr Hu Hp H. destruct data as [m|]; [|done]. intros [= <-] m' r inner [= <-] [[<- <-]|[_ Hm]]%lookup_insert_Some; [|by apply (H m)].
  split; [done|]. intros m' u p [= <-] [[<- <-]|[_ Hm]]%lookup_insert_Some; [done|].
  destruct (m !! realm) as [[i|]|] eqn:E; cbn in Hm; [|by rewrite lookup_empty in Hm..].
  destruct (H m realm (Some i) eq_refl E) as [_ Hi]. by apply (Hi i).
Qed.

(** The entry, and the others as they were. *)
Lemma putPassword_get realm user pw data data' : pw <> "" -> putPassword realm user pw data = Ok data' ->
  passwordOf realm user data' = Some pw /\ forall r u, (r, u) <> (realm, user) -> passwordOf r u data' = passwordOf r u data.
Proof.
  intros Hp. destruct data as [m|]; [|done]. intros [= <-]. unfold passwordOf. cbn [mbind option_bind]. split.
  - rewrite lookup_insert_eq. cbn. rewrite lookup_insert_eq. cbn. by destruct (String.eqb_spec pw "").
  - intros r u Hne. destruct (decide (r = realm)) as [->|Hr]; [|by rewrite lookup_insert_ne].
    rewrite lookup_insert_eq. cbn. rewrite lookup_insert_ne by congruence. destruct (m !! realm) as [[i|]|]; cbn; by rewrite ?lookup_empty.
Qed.

(** What the file holds before and after. *)
Definition Stored (realm user pw : string) (d d' : Dir) : Prop := exists data data',
  reads env = true /\ dataOf d = Some data /\ putPassword realm user pw data = Ok data' /\ d' !! path = Some (mkFile (Marshal data') 384).

Lemma t_storePlaintext realm user pw d :
  let I s := s !! path = d !! path \/ Stored realm user pw d s in
  triple I (eq d) (storePlaintext w env realm user pw) (fun r d' =>
    (forall f, f <> path -> f <> lockName path -> d' !! f = d !! f) /\
    match r with Ok _ => Stored realm user pw d d' | Err _ => d' !! path = d !! path end).
Proof.
  intros I. unfold storePlaintext. eapply t_bind with (R := fun _ d' => d' = d); [apply t_needs; intros d0 _ <-; by destruct (mkdirs env)|].
  intros []. apply t_any. intros d0 _ ->.
  assert (forall s, locked path 384 s !! path = s !! path) as Hl by (intros s; unfold locked; rewrite lookup_insert_ne; [done|apply lock_ne]).
  assert (forall f, f <> lockName path -> locked path 384 d !! f = d !! f) as Ho by (intros f Hf; unfold locked; by rewrite lookup_insert_ne).
  apply t_withFileLock; [by left; apply Hl| |done|intros e; split; [by intros; apply Ho|apply Hl]].
  assert (dataOf (locked path 384 d) = dataOf d) as Hd by (unfold dataOf; by rewrite Hl).
  specialize (Hl d). set (d1 := locked path 384 d) in *. clearbody d1.
  eapply t_bind with (R := fun data d' => d' = d1 /\ reads env = true /\ dataOf d = Some data).
  { eapply t_weaken; [apply t_readData|done|]. intros [a|e] d0 _ [-> Ha]; [by rewrite <- Hd|]. split; [by intros; apply Ho|done]. }
  intros data. apply t_any. intros d0 _ (-> & Hr & Hdata).
  destruct (putPassword realm user pw data) as [data'|e] eqn:Ep; [|apply t_fails; intros d0 _ <-; split; [by intros; apply Ho|done]].
  eapply t_weaken; [apply t_atomicWriteFile|done|].
  - intros c m _. left. by rewrite lookup_insert_ne.
  - by left.
  - right. exists data, data'. by rewrite lookup_insert_eq.
  - intros [[]|e] d0 _ ->; split; try done.
    + intros f H1 H2. rewrite lookup_insert_ne by done. by apply Ho.
    + exists data, data'. by rewrite lookup_insert_eq.
    + by intros; apply Ho.
Qed.

Lemma get_data d realm user : reads env = true -> getPlaintextStrict w env d realm user = passwordOf realm user <$> dataOf d.
Proof. unfold getPlaintextStrict, dataOf. intros ->. cbn [negb]. by destruct (d !! path). Qed.

Lemma Stored_get realm user pw d d' : isText realm = true -> isText user = true -> isText pw = true -> pw <> "" ->
  Stored realm user pw d d' ->
  getPlaintextStrict w env d' realm user = Some (Some pw) /\
  (forall r u, (r, u) <> (realm, user) -> getPlaintextStrict w env d' r u = getPlaintextStrict w env d r u).
Proof.
  intros Tr Tu Tp Hp (data & data' & Hr & Hd & Hput & Hf). assert (dataText data) as Ht.
  { unfold dataOf in Hd. destruct (d !! path); [by eapply Unmarshal_text|]. injection Hd as <-. intros m r i [= <-] Hm. by rewrite lookup_empty in Hm. }
  assert (dataOf d' = Some data') as Hd'.
  { unfold dataOf. rewrite Hf. apply Unmarshal_Marshal. by apply (putPassword_text realm user pw data). }
  destruct (putPassword_get realm user pw data data' Hp Hput) as [H1 H2]. rewrite get_data, Hd' by done. cbn. rewrite H1. split; [done|].
  intros r u Hne. rewrite !get_data, Hd, Hd' by done. cbn. by rewrite H2.
Qed.
End Storing.

(** ** Theorems *)

(** The configuration parsed after a store gets the password: the reading of the
    keyring that [Config.v] takes as given is the one of the directory here. *)
Definition afterStore (w : Cf.World) (osGet : string -> string -> option string) (env : PEnv) (d : Dir) : Cf.World :=
  Cf.mkWorld (Cf.Environ w) (Cf.cwd w) (Cf.homeDir w) (Cf.darwin w) (Cf.scriptDir w) (Cf.stat w) (Cf.readFile w) (getPasswordStrict w osGet env d).


(** ** Concrete runs *)

Definition toyWorld : Cf.World :=
  Cf.mkWorld ["PXGO_KEYRING_PLAINTEXT=1"; "PXGO_KEYRING_FILE=/c/keyring.json"] (Some "/c") (Some "/h") false "/s" (fun _ => Cf.NotExist) (fun _ => inr true)
    (fun _ _ => None).
Definition toyEnv : PEnv :=
  mkPEnv true true true true true true true true true true true true true true true 18 "/c/.keyring.json.tmp-1" "/c/bak" 0.
Definition toyDir : Dir := {["/c/keyring.json" := mkFile (Marshal (Some {["pxgo" := Some {["amy" := "x"]}]})) 420]}.
Definition toyStore (password : string) : result PErr unit * list Dir :=
  StorePassword toyWorld (fun _ _ _ => false) toyEnv "pxgo" "bob" password toyDir.


(** A file that holds [null] makes the map nil, and the store panics. *)
Example null_keyring_panics : (StorePassword toyWorld (fun _ _ _ => false) toyEnv "pxgo" "bob" "s3cret"
  {["/c/keyring.json" := mkFile "null" 384]}).1 = Err EPanic.
Proof. vm_compute. reflexivity. Qed.

(** A password that is not UTF-8 is stored as another one, and the store succeeds. *)
Definition latin1 : string := "caf" +:+ String (chr 233) "".
Example latin1_is_not_found : (toyStore latin1).1 = Ok tt /\
  GetPassword toyWorld (fun _ _ => None) toyEnv (final toyDir (toyStore latin1).2) "pxgo" "bob" = ("caf" +:+ runes_string [RuneError], true).
Proof. vm_compute. by split. Qed.

End Kr.
