(* ===== verification/Program.v ===== *)
(** * The program: its command line, the guardian with its updates, and the small tools
    ([main.go], [nofile.go], [internal/update/state.go])

    What [run] does is a list of actions with their outcomes; the loop that keeps a
    guardian and looks for updates is a function on the events its [select]
    receives, and answers the effects in their order.  An automaton says what
    orders are right, and the loop is proved to keep them. *)

From S2P Require Export Prelude GoStrings.
From S2P Require Import NetAddr Url GoText Config Update Staging Bootstrap Guardian.

Module Pg.

(** ** The command line *)

Inductive Act :=
| ShowHelp | ShowVersion | RunUpdate (mutate : bool) | ApplyProxy | SaveConfig | Bootstrap | LaunchBackground
| InstallStartup | UninstallStartup | StorePassword (client : bool) | RunDoctor | SendQuit | WaitStopped | SelfTest
| RunGuardian | RunWorker.

(** How each action ends: the exit code of those that run on, success of the
    others; [executableKnown] and [prepared] belong to the installation. *)
Record Outcomes := mkOutcomes {
  succeeds : Act -> bool; exits : Act -> Z; executableKnown : bool; prepared : bool; passwordRead : bool }.

Section Run.
Context {Float : Type} (windows : bool) (o : Outcomes).
Implicit Types cfg : Cf.Config (Float := Float).

Definition isOneShotConfig cfg : bool :=
  Cf.flag cfg Cf.Help || Cf.flag cfg Cf.Version || Cf.flag cfg Cf.CheckUpdate || Cf.flag cfg Cf.DoUpdate || Cf.flag cfg Cf.Save ||
  Cf.flag cfg Cf.Install || Cf.flag cfg Cf.Background || Cf.flag cfg Cf.Uninstall || Cf.flag cfg Cf.PasswordAction ||
  Cf.flag cfg Cf.ClientPasswordAction || Cf.flag cfg Cf.Doctor || Cf.flag cfg Cf.Quit || negb (String.eqb (Cf.str cfg Cf.Test) "").

Definition shouldBootstrapUserConfig cfg : bool :=
  negb (Cf.flag cfg Cf.Help) && negb (Cf.flag cfg Cf.Version) && negb (Cf.flag cfg Cf.CheckUpdate) && negb (Cf.flag cfg Cf.DoUpdate) &&
  negb (Cf.flag cfg Cf.Save) && negb (Cf.flag cfg Cf.ApplySystemProxy) && negb (Cf.flag cfg Cf.Uninstall) &&
  negb (Cf.flag cfg Cf.PasswordAction) && negb (Cf.flag cfg Cf.ClientPasswordAction) && negb (Cf.flag cfg Cf.Doctor) &&
  negb (Cf.flag cfg Cf.Quit) && String.eqb (Cf.str cfg Cf.Test) "".

(** An action that ends the run with 0 or with its code for an error. *)
Definition endWith (a : Act) (code : Z) : list Act * Z := ([a], if succeeds o a then 0 else code).

Definition runInstall : list Act * Z :=
  if negb (executableKnown o) || negb (prepared o) then ([], 6) else endWith InstallStartup 6.

Definition storePassword (client given : bool) : list Act * Z :=
  if negb given && negb (passwordRead o) then ([], 2) else endWith (StorePassword client) 2.

(** The tests after the bootstrap, in their order. *)
Definition runAction cfg : list Act * Z :=
  if Cf.flag cfg Cf.Background then ([LaunchBackground], exits o LaunchBackground)
  else if Cf.flag cfg Cf.Install then runInstall
  else if Cf.flag cfg Cf.Uninstall then endWith UninstallStartup 6
  else if Cf.flag cfg Cf.PasswordAction then storePassword false (negb (String.eqb (Cf.str cfg Cf.Password) ""))
  else if Cf.flag cfg Cf.ClientPasswordAction then storePassword true (negb (String.eqb (Cf.str cfg Cf.ClientPassword) ""))
  else if Cf.flag cfg Cf.Doctor then endWith RunDoctor 3
  else if Cf.flag cfg Cf.Quit then endWith SendQuit 3
  else
    let serve :=
      if negb (String.eqb (Cf.str cfg Cf.Test) "") then endWith SelfTest 4 else ([RunGuardian], exits o RunGuardian) in
    if Cf.flag cfg Cf.Restart then
      if negb (succeeds o SendQuit) then ([SendQuit], 3)
      else if windows then
        if negb (succeeds o WaitStopped) then ([SendQuit; WaitStopped], 3)
        else ([SendQuit; WaitStopped; LaunchBackground], exits o LaunchBackground)
      else let '(acts, code) := serve in (SendQuit :: acts, code)
    else serve.

(** [helper]: the process is a helper of the updater; [parsed] is [ParseArgs];
    [worker] is [WorkerControlFromEnv]. *)
Definition run (helper : option Z) (parsed : option Cf.Config) (worker : option bool) : list Act * Z :=
  match helper with
  | Some code => ([], code)
  | None =>
      match parsed, worker with
      | None, _ => ([], 2)
      | Some _, None => ([], 5)
      | Some _, Some true => ([RunWorker], exits o RunWorker)
      | Some cfg, Some false =>
          if Cf.flag cfg Cf.Help then ([ShowHelp], 0)
          else if Cf.flag cfg Cf.Version then ([ShowVersion], 0)
          else if Cf.flag cfg Cf.CheckUpdate || Cf.flag cfg Cf.DoUpdate then
            ([RunUpdate (Cf.flag cfg Cf.DoUpdate)], exits o (RunUpdate (Cf.flag cfg Cf.DoUpdate)))
          else if Cf.flag cfg Cf.ApplySystemProxy then endWith ApplyProxy 2
          else if Cf.flag cfg Cf.Save then endWith SaveConfig 2
          else let '(acts, code) := runAction cfg in
               ((if shouldBootstrapUserConfig cfg then [Bootstrap] else []) ++ acts, code)
      end
  end.

End Run.

(** ** Updates: [runUpdateAction], [state.go] *)

Section Updates.
Context {E : Type}.

Definition runUpdateAction (version : string) (service : option E) (mutate : bool) (answer : result E Stg.Status) : list string * Z :=
  if String.eqb version "dev" then ([], 2)
  else match service with
       | Some _ => ([], 7)
       | None =>
           match answer with
           | Err _ => ([if mutate then "apply_failed" else "check_failed"], 7)
           | Ok st =>
               let result := if Upd.Available (Stg.stCheck st) then "available" else "current" in
               let result := if mutate && Stg.Applied st then "applied" else result in
               let result := if mutate && Stg.Deferred st then "deferred" else result in
               ([result], 0)
           end
       end.

(** [WriteState]; [data] is the encoded state.  Temporary file, mode, write, sync,
    close and replacement are those of [atomicWriteFile]. *)
Definition WriteState (env : Bs.PEnv) (path : string) (data : option string) : Bs.M unit :=
  _ ← Bs.needs (negb (String.eqb path "") && Bs.mkdirs env) Bs.EMkdir;
  match data with
  | None => Bs.fails Bs.EMutate
  | Some data => Bs.atomicWriteFile env path (data +:+ String LF "") 384
  end.

(** ** The guardian and its updates *)

Definition autoUpdateInitialDelay (interval : Duration) (random : Duration -> option Duration) : Duration :=
  if interval <=? 0 then 0
  else
    let window := Z.quot interval 10 in
    let window := if 5 * Minute <? window then 5 * Minute else window in
    if window <=? 1 then 0
    else match random window with Some n => n | None => Z.quot window 2 end.

(** [exec.LookPath] and [os.Executable], which may not know; [there] is [os.Stat];
    [Err None] is the error that names no other. *)
Definition updatedRestartPath (direct : bool) (executable lookPath : result E string) (there : string -> bool) : result (option E) string :=
  match direct, executable, lookPath with
  | true, Ok f, _ => Ok f
  | true, Err e, _ => Err (Some e)
  | false, _, _ =>
      let unresolved := match lookPath with Err e => Err (Some e) | Ok _ => Err None end in
      let fallback := match executable with Ok f => if there f then Ok f else unresolved | Err _ => unresolved end in
      match lookPath with Ok p => if negb (String.eqb p "") then Ok p else fallback | Err _ => fallback end
  end.

Inductive Effect :=
| WorkerStarted | StopWorker | ParentReturned (e : option E) | TimerSet (d : Duration) | StateWritten (result : string)
| Taken | Cleaned | Applying (r : result E bool) | Restarting.

(** One turn of the timer: what the service answers, what the guardian answers when it is
    stopped, whether the update applied was deferred, and the process that replaces this one. *)
Record Fired := mkFired {
  fCheck : result E bool; fPrepare : result E bool; fParent : option E; fApply : result E bool;
  fPath : result E string; fRestart : option E }.

Inductive Ev := EvParent (e : option E) | EvContext (e : option E) | EvTimer (f : Fired).
Inductive Next := Stay | Again | Return (e : option E).

Definition turn (notify : bool) (interval : Duration) (ev : Ev) : list Effect * Next :=
  match ev with
  | EvParent e => ([ParentReturned e; StopWorker], Return e)
  | EvContext e => ([StopWorker; ParentReturned e], Return e)
  | EvTimer f =>
      if notify then
        ([StateWritten (match fCheck f with Err _ => "check_failed" | Ok true => "available" | Ok false => "current" end); TimerSet interval], Stay)
      else match fPrepare f with
           | Err _ => ([StateWritten "check_failed"; TimerSet interval], Stay)
           | Ok false => ([Taken; StateWritten "current"; Cleaned; TimerSet interval], Stay)
           | Ok true =>
               let stopped := [Taken; StateWritten "prepared"; StopWorker; ParentReturned (fParent f)] in
               match fParent f with
               | Some e => (stopped ++ [Cleaned], Return (Some e))
               | None =>
                   let applied := stopped ++ [Applying (fApply f)] in
                   match fApply f with
                   | Err _ => (applied ++ [StateWritten "apply_failed"; Cleaned], Again)
                   | Ok true => (applied ++ [StateWritten "deferred"], Return None)
                   | Ok false =>
                       let done := applied ++ [StateWritten "applied"; Cleaned] in
                       match fPath f with
                       | Err e => (done, Return (Some e))
                       | Ok _ => (done ++ [Restarting], Return (fRestart f))
                       end
                   end
               end
           end
  end.

(** The loop on the events it receives; without a result when they run out. *)
Fixpoint selectLoop (notify : bool) (interval : Duration) (evs : list Ev) : list Effect * option (option E) :=
  match evs with
  | [] => ([], None)
  | ev :: evs =>
      let '(fx, next) := turn notify interval ev in
      match next with
      | Return e => (fx, Some e)
      | Stay => let '(fx', r) := selectLoop notify interval evs in (fx ++ fx', r)
      | Again => let '(fx', r) := selectLoop notify interval evs in (fx ++ [WorkerStarted; TimerSet interval] ++ fx', r)
      end
  end.

Definition runGuardianAutoUpdateLoop (notify : bool) (interval delay : Duration) (evs : list Ev) : list Effect * option (option E) :=
  let interval := if interval <=? 0 then 24 * Hour else interval in
  let '(fx, r) := selectLoop notify interval evs in (WorkerStarted :: TimerSet delay :: fx, r).

(** [runGuardianLifecycleWithOptions]: [mode] is [ParseAutoMode]; [service] its
    construction; [parent] is [RunParent] alone. *)
Definition runGuardianLifecycle (version : string) (mode : result E string) (service : option E) (parent : option E)
    (interval delay : Duration) (evs : list Ev) : list Effect * option (option E) :=
  match mode with
  | Err e => ([], Some (Some e))
  | Ok m =>
      if String.eqb m "off" || String.eqb version "dev" then ([WorkerStarted; ParentReturned parent], Some parent)
      else match service with
           | Some e => ([], Some (Some e))
           | None => runGuardianAutoUpdateLoop (String.eqb m "notify") interval delay evs
           end
  end.

End Updates.
Arguments Effect : clear implicits.
Arguments Ev : clear implicits.
Arguments Fired : clear implicits.

(** ** The small tools *)

Definition localhostIP : string := "127.0.0.1".
Definition wildcardListenIP : string := "0.0.0.0".

Definition listenForClient (listen : string) : string :=
  default localhostIP (head (omap (fun raw =>
    let host := TrimSpace raw in
    if String.eqb host "" then None else Some (if String.eqb host wildcardListenIP then localhostIP else host)) (Split listen ","))).

(** [guardianParentErrorExit]: the code of a worker that failed before it was ready. *)
Definition guardianParentErrorExit (startup : option Z) : Z :=
  match startup with Some code => if (0 <? code) && (code <? 256) then code else 5 | None => 5 end.

(** [runGuardianWorker]: the control connection, the server, the worker. *)
Definition runGuardianWorker (connected built : bool) (exit : Z) : Z :=
  if negb connected then Grd.exitStatus Grd.WorkerExitStartupFailure else if negb built then 2 else exit.

(** *** [--quit] *)

Inductive Dial := Dialed | Refused | DialFailed.
(** What a request to stop meets; [closed] is [waitForClosed]. *)
Inductive QuitAnswer := NoAnswer | Status (code : Z) (closed : bool).
Inductive QuitErr := NotRunning | NotResponding | Forbidden | BadStatus (code : Z) | Transport | StillRunning | QuitFailed.

Fixpoint waitForRunningProxy (attempts : nat) (dial : nat -> Dial) (i : nat) : option QuitErr :=
  match attempts with
  | O => Some NotResponding
  | S n => match dial i with
           | Dialed => None
           | Refused => Some NotRunning
           | DialFailed => waitForRunningProxy n dial (S i)
           end
  end.

(** The deadline is the number of looks there is time for. *)
Fixpoint waitForClosed (looks : list bool) : bool :=
  match looks with [] => false | refused :: looks => if (refused : bool) then true else waitForClosed looks end.

Fixpoint quitLoop (attempts : nat) (ask : nat -> QuitAnswer) (i : nat) (lastErr : option QuitErr) : option QuitErr :=
  match attempts with
  | O => Some (default QuitFailed lastErr)
  | S n =>
      match ask i with
      | NoAnswer => quitLoop n ask (S i) (Some Transport)
      | Status code closed =>
          if code =? 403 then Some Forbidden
          else if negb (code =? 200) then Some (BadStatus code)
          else if closed then None else quitLoop n ask (S i) (Some StillRunning)
      end
  end.

Definition quit (dial : nat -> Dial) (ask : nat -> QuitAnswer) : option QuitErr :=
  match waitForRunningProxy 5 dial 0 with Some e => Some e | None => quitLoop 5 ask 0 None end.

(** *** [--doctor] *)

Inductive Rest := AtEnd | AnotherValue | Garbage.
Inductive Live (S : Type) := LError | LStatus (code : Z) (snapshot : option S) (rest : Rest).
Arguments LError {S}.
Arguments LStatus {S}.
Inductive DoctorErr := Malformed | MultipleValues | DoctorFailed.

(** Whether the report is live, and the snapshot; [saved] is [LoadSnapshot] of a
    path that is set. *)
Definition doctorReport {S} (live : Live S) (saved : option S) : result DoctorErr (bool * S) :=
  let offline := match saved with Some s => Ok (false, s) | None => Err DoctorFailed end in
  match live with
  | LError => offline
  | LStatus code snapshot rest =>
      if code =? 200 then
        match snapshot, rest with
        | None, _ => Err Malformed
        | Some s, AtEnd => Ok (true, s)
        | Some _, AnotherValue => Err MultipleValues
        | Some _, Garbage => Err Malformed
        end
      else offline
  end.

(** *** [--test] *)

Definition selfTestAllMode (test : string) : bool := String.eqb test "all" || String.eqb test "1" || HasPrefix test "all:".
Definition selfTestURLs (test : string) : list string :=
  if String.eqb test "all" || String.eqb test "1" then ["http://httpbin.org"; "https://httpbin.org"]
  else if HasPrefix test "all:" then
    let base := TrimPrefix test "all:" in
    if Contains base "://" then [base] else ["http://" +:+ base; "https://" +:+ base]
  else [].
Definition selfTestTargets (test : string) : list string := if selfTestAllMode test then selfTestURLs test else [test].

(** The requests sent, by their header, and the answer: its status and challenges. *)
Fixpoint doSelfTestRequest {E} (attempts : nat) (testAuth : bool) (header : list string -> string)
    (send : string -> result E (Z * list string)) (auth : string) (last : option (Z * list string))
  : list string * option (result E (Z * list string)) :=
  match attempts with
  | O => ([], Ok <$> last)
  | S n =>
      match send auth with
      | Err e => ([auth], Some (Err e))
      | Ok (status, challenges) =>
          if negb testAuth || negb (status =? 407) then ([auth], Some (Ok (status, challenges)))
          else let auth' := header challenges in
               if String.eqb auth' "" then ([auth], Some (Ok (status, challenges)))
               else let '(sent, r) := doSelfTestRequest n testAuth header send auth' (Some (status, challenges)) in (auth :: sent, r)
      end
  end.
Definition selfTestRequest {E} (testAuth : bool) (header : list string -> string) (send : string -> result E (Z * list string)) :=
  doSelfTestRequest 3 testAuth header send (if testAuth then header [] else "") None.

Inductive Wait := StartEnded (failed : bool) | Tick | TimedOut.
Inductive WaitErr := StartFailed | StoppedEarly | NotReady.
(** Each look at [Ready], and what the [select] after it receives. *)
Fixpoint waitSelfTestReady (looks : list (bool * Wait)) : option (result WaitErr unit) :=
  match looks with
  | [] => None
  | (ready, w) :: looks =>
      if (ready : bool) then Some (Ok tt)
      else match w with
           | StartEnded failed => Some (Err (if (failed : bool) then StartFailed else StoppedEarly))
           | Tick => waitSelfTestReady looks
           | TimedOut => Some (Err NotReady)
           end
  end.

(** *** nofile.go *)

Definition nofileTarget : Z := 65536.
Definition nofileFallbacks : list Z := [8192; 4096; 2048; 1024].

(** The limits asked for, and the one that was set. *)
Fixpoint nofileFallback (soft hard : Z) (set_ : Z -> bool) (fs : list Z) : list Z * option Z :=
  match fs with
  | [] => ([], None)
  | f :: fs =>
      if f <=? soft then ([], None)
      else if hard <? f then nofileFallback soft hard set_ fs
      else if set_ f then ([f], Some f)
      else let '(calls, r) := nofileFallback soft hard set_ fs in (f :: calls, r)
  end.

(** [get] is the limit first, [getAgain] the soft one at the end. *)
Definition raiseNofileLimitWith (get : option (Z * Z)) (getAgain : option Z) (set_ : Z -> bool) : list Z * result Z Z :=
  match get with
  | None => ([], Err 0)
  | Some (soft, hard) =>
      let target := if hard <? nofileTarget then hard else nofileTarget in
      if target <=? soft then ([], Ok soft)
      else if set_ target then ([target], Ok target)
      else let '(calls, r) := nofileFallback soft hard set_ nofileFallbacks in
           (target :: calls, match r with
                             | Some f => Ok f
                             | None => match getAgain with Some s => Ok s | None => Err soft end
                             end)
  end.

(** ** Specification: the orders that are right

    One guardian runs at a time; what was prepared is held until it is cleaned up or a helper
    has it; an update is applied only while no guardian runs, and the program is
    replaced only after one that was applied here. *)

Inductive Phase :=
| PIdle | PRunning | PEnding | PHolding | PStopping | PStopped | PBroken | PFailed | PDeferred | PUpdated | PClean | PReplaced.

Definition phaseStep {E} (p : Phase) (x : Effect E) : option Phase :=
  match p, x with
  | PIdle, WorkerStarted => Some PRunning
  | PIdle, StopWorker => Some PIdle
  | PRunning, (TimerSet _ | StateWritten _) => Some PRunning
  | PRunning, StopWorker => Some PEnding
  | (PRunning | PEnding), ParentReturned _ => Some PIdle
  | PRunning, Taken => Some PHolding
  | PHolding, StateWritten _ => Some PHolding
  | PHolding, Cleaned => Some PRunning
  | PHolding, StopWorker => Some PStopping
  | PStopping, ParentReturned None => Some PStopped
  | PStopping, ParentReturned (Some _) => Some PBroken
  | PBroken, Cleaned => Some PIdle
  | PStopped, Applying (Err _) => Some PFailed
  | PStopped, Applying (Ok true) => Some PDeferred
  | PStopped, Applying (Ok false) => Some PUpdated
  | PFailed, StateWritten _ => Some PFailed
  | PFailed, Cleaned => Some PIdle
  | PDeferred, StateWritten _ => Some PDeferred
  | PUpdated, StateWritten _ => Some PUpdated
  | PUpdated, Cleaned => Some PClean
  | PClean, Restarting => Some PReplaced
  | _, _ => None
  end.

Definition phasesOf {E} (p : Phase) (fx : list (Effect E)) : option Phase :=
  foldl (fun o x => o ≫= fun p => phaseStep p x) (Some p) fx.

(** ** Lemmas *)

Lemma phasesOf_app {E} p (a b : list (Effect E)) : phasesOf p (a ++ b) = phasesOf p a ≫= fun p => phasesOf p b.
Proof.
  unfold phasesOf. rewrite foldl_app. destruct (foldl _ (Some p) a) as [q|]; [done|]. simpl.
  induction b as [|x b IH]; [done|exact IH].
Qed.

(** How a turn ends. *)
Definition endOf {E} (n : Next) (p : Phase) : Prop :=
  match n with
  | Stay => p = PRunning
  | Again => p = PIdle
  | Return e => (p = PIdle \/ p = PDeferred /\ e = None (A := E) \/ p = PClean /\ e <> None \/ p = PReplaced)
  end.

Lemma turn_phases {E} notify interval (ev : Ev E) :
  let '(fx, n) := turn notify interval ev in exists p, phasesOf PRunning fx = Some p /\ endOf n p.
Proof.
  destruct ev as [e|e|f]; cbn; [by eexists; split; [|left]|by eexists; split; [|left]|].
  destruct notify; [by eexists|]. destruct (fPrepare f) as [[|]|e]; [|by eexists|by eexists].
  destruct (fParent f) as [e|]; [by eexists; split; [|left]|].
  destruct (fApply f) as [[|]|e]; [by eexists; split; [|right; left]| |by eexists].
  destruct (fPath f); eexists; (split; [reflexivity|]); cbn; tauto || (right; right; left; done).
Qed.

Lemma selectLoop_phases {E} notify interval (evs : list (Ev E)) :
  let '(fx, r) := selectLoop notify interval evs in
  exists p, phasesOf PRunning fx = Some p /\ match r with None => p = PRunning | Some e => endOf (Return e) p end.
Proof.
  induction evs as [|ev evs IH]; [by eexists|]. cbn [selectLoop].
  pose proof (turn_phases notify interval ev) as Ht. destruct (turn notify interval ev) as [fx n].
  destruct Ht as (p & Hp & He). destruct n as [| |e]; [| |by exists p].
  all: destruct (selectLoop notify interval evs) as [fx' r]; destruct IH as (q & Hq & Hr); exists q; split; [|done].
  all: cbn [endOf] in He; subst p; rewrite phasesOf_app, Hp; exact Hq.
Qed.

Definition timerSet {E} (x : Effect E) : option Duration := match x with TimerSet d => Some d | _ => None end.

Lemma selectLoop_timers {E} notify interval (evs : list (Ev E)) :
  Forall (eq interval) (omap timerSet (selectLoop notify interval evs).1).
Proof.
  induction evs as [|ev evs IH]; [done|]. cbn [selectLoop].
  assert (Forall (eq interval) (omap timerSet (turn notify interval ev).1)) as Ht.
  { destruct ev as [e|e|f]; cbn; [done..|]. repeat case_match; cbn; repeat constructor. }
  destruct (turn notify interval ev) as [fx [| |e]]; [| |done].
  all: destruct (selectLoop notify interval evs) as [fx' r]; cbn in *; rewrite ?omap_app, ?Forall_app; split; try done.
  cbn. by constructor.
Qed.

Lemma selectLoop_notify {E} interval (evs : list (Ev E)) x :
  x ∈ (selectLoop true interval evs).1 -> match x with Applying _ | Taken | Restarting => False | _ => True end.
Proof.
  induction evs as [|ev evs IH]; [by intros H%elem_of_nil|]. cbn [selectLoop].
  assert (forall y, y ∈ (turn true interval ev).1 -> match y with Applying _ | Taken | Restarting => False | _ => True end) as Ht.
  { intros y. destruct ev as [e|e|f]; cbn; rewrite ?elem_of_cons, elem_of_nil; naive_solver. }
  destruct (turn true interval ev) as [fx [| |e]]; [| |exact (Ht x)].
  all: destruct (selectLoop true interval evs) as [fx' r]; cbn in *; rewrite ?elem_of_app, ?elem_of_cons; naive_solver.
Qed.

(** C11: the loop that keeps the guardian and looks for updates refines the
    automaton: on every sequence of events its effects come in a right order.  So
    at most one guardian runs at a time, an update is applied only when the guardian
    has ended without an error, what was prepared is cleaned up once unless a
    helper has taken it over, and the program is replaced only by an update that
    was applied here; when the loop returns no guardian runs, and until then one
    does.  After the first delay every timer is the interval; when it only notifies
    nothing is prepared or applied. *)
Theorem updates_in_order {E} notify interval delay (evs : list (Ev E)) :
  let '(fx, r) := runGuardianAutoUpdateLoop notify interval delay evs in
  (exists p, phasesOf PIdle fx = Some p /\ match r with None => p = PRunning | Some e => endOf (Return e) p end) /\
  (exists timers, omap timerSet fx = delay :: timers /\
     Forall (eq (if interval <=? 0 then 24 * Hour else interval)) timers) /\
  (notify = true -> Applying (Ok false) ∉ fx /\ Taken ∉ fx /\ Restarting ∉ fx).
Proof.
  unfold runGuardianAutoUpdateLoop. set (i := if interval <=? 0 then 24 * Hour else interval).
  pose proof (selectLoop_phases notify i evs) as Hp. pose proof (selectLoop_timers notify i evs) as Ht.
  assert (forall x, notify = true -> x ∈ (selectLoop notify i evs).1 -> match x with Applying _ | Taken | Restarting => False | _ => True end) as Hn
    by (intros x ->; apply selectLoop_notify).
  destruct (selectLoop notify i evs) as [fx r]. cbn [fst] in *. split_and!.
  - destruct Hp as (p & Hp & Hr). by exists p.
  - by exists (omap timerSet fx).
  - intros Hnot. specialize (fun x => Hn x Hnot). rewrite !elem_of_cons.
    split_and!; intros [?|[?|H]]; try done; by apply (Hn _ H).
Qed.

(** Whether an action ended well; the bootstrap is a best effort. *)
Definition fine (o : Outcomes) (a : Act) : Prop :=
  match a with
  | ShowHelp | ShowVersion | Bootstrap => True
  | RunUpdate _ | LaunchBackground | RunGuardian | RunWorker => exits o a = 0
  | _ => succeeds o a = true
  end.

Ltac acts := split_and!; first [done | by intros; repeat constructor | set_solver].

Lemma endWith_spec o a c : c <> 0 -> match a with ShowHelp | ShowVersion | Bootstrap | RunUpdate _ | LaunchBackground | RunGuardian | RunWorker => False | _ => True end ->
  (endWith o a c).1 = [a] /\ ((endWith o a c).2 = 0 -> Forall (fine o) [a]).
Proof.
  intros Hc Ha. split; [done|]. unfold endWith. simpl. destruct (succeeds o a) eqn:E; [|done]. intros _.
  constructor; [|done]. by destruct a.
Qed.

(** The part after the bootstrap. *)
Lemma runAction_spec {Float} windows o (cfg : Cf.Config (Float := Float)) :
  let '(acts, code) := runAction windows o cfg in
  (RunGuardian ∈ acts -> Cf.flag cfg Cf.Background || Cf.flag cfg Cf.Install || Cf.flag cfg Cf.Uninstall || Cf.flag cfg Cf.PasswordAction ||
     Cf.flag cfg Cf.ClientPasswordAction || Cf.flag cfg Cf.Doctor || Cf.flag cfg Cf.Quit || negb (String.eqb (Cf.str cfg Cf.Test) "") = false) /\
  RunWorker ∉ acts /\ Bootstrap ∉ acts /\
  (SendQuit ∈ acts -> RunGuardian ∈ acts \/ LaunchBackground ∈ acts -> succeeds o SendQuit = true) /\
  (code = 0 -> Forall (fine o) acts).
Proof.
  unfold runAction, runInstall, storePassword.
  destruct (Cf.flag cfg Cf.Background); [acts|].
  assert (forall a c, c <> 0 -> match a with ShowHelp | ShowVersion | Bootstrap | RunUpdate _ | LaunchBackground | RunGuardian | RunWorker => False | _ => True end ->
    forall P : Prop, let '(acts, code) := endWith o a c in
    (RunGuardian ∈ acts -> P) /\ RunWorker ∉ acts /\ Bootstrap ∉ acts /\
    (SendQuit ∈ acts -> RunGuardian ∈ acts \/ LaunchBackground ∈ acts -> succeeds o SendQuit = true) /\ (code = 0 -> Forall (fine o) acts)) as Hone.
  { intros a c Hc Ha P. destruct (endWith_spec o a c Hc Ha) as [H1 H2]. unfold endWith in *. cbn [fst snd] in *.
    split_and!; try exact H2; rewrite ?elem_of_cons, ?elem_of_nil; destruct a; naive_solver. }
  assert (forall code, code <> 0 -> forall P : Prop, (RunGuardian ∈ @nil Act -> P) /\ RunWorker ∉ @nil Act /\ Bootstrap ∉ @nil Act /\
    (SendQuit ∈ @nil Act -> RunGuardian ∈ @nil Act \/ LaunchBackground ∈ @nil Act -> succeeds o SendQuit = true) /\ (code = 0 -> Forall (fine o) (@nil Act))) as Hnil
    by (intros; acts).
  destruct (Cf.flag cfg Cf.Install); [destruct (_ || _); [by apply Hnil|by apply (Hone InstallStartup 6)]|].
  destruct (Cf.flag cfg Cf.Uninstall); [by apply (Hone UninstallStartup 6)|].
  destruct (Cf.flag cfg Cf.PasswordAction); [destruct (_ && _); [by apply Hnil|by apply (Hone (StorePassword false) 2)]|].
  destruct (Cf.flag cfg Cf.ClientPasswordAction); [destruct (_ && _); [by apply Hnil|by apply (Hone (StorePassword true) 2)]|].
  destruct (Cf.flag cfg Cf.Doctor); [by apply (Hone RunDoctor 3)|]. destruct (Cf.flag cfg Cf.Quit); [by apply (Hone SendQuit 3)|].
  destruct (Cf.flag cfg Cf.Restart).
  - destruct (succeeds o SendQuit) eqn:Eq; cbn [negb]; [|acts]. destruct windows.
    + destruct (succeeds o WaitStopped) eqn:Ew; cbn [negb]; acts.
    + destruct (String.eqb (Cf.str cfg Cf.Test) ""); cbn [negb].
      * acts.
      * unfold endWith. destruct (succeeds o SelfTest) eqn:Es; acts.
  - destruct (String.eqb (Cf.str cfg Cf.Test) ""); cbn [negb]; [|by apply (Hone SelfTest 4)].
    acts.
Qed.

(** one run does one thing.  The proxy is started only when no other action
    was asked for; a worker process does nothing else, in particular it changes no
    configuration; the configuration is bootstrapped only where that is wanted; a restart
    starts something only behind a successful quit; and the exit code is 0 only if
    every action ended well. *)
Theorem run_does_one_thing {Float} windows o helper (parsed : option (Cf.Config (Float := Float))) worker :
  let '(acts, code) := run windows o helper parsed worker in
  (RunGuardian ∈ acts -> exists cfg, parsed = Some cfg /\ worker = Some false /\ isOneShotConfig cfg = false /\
     Cf.flag cfg Cf.ApplySystemProxy = false) /\
  (RunWorker ∈ acts -> acts = [RunWorker] /\ worker = Some true) /\
  (Bootstrap ∈ acts -> exists cfg, parsed = Some cfg /\ shouldBootstrapUserConfig cfg = true) /\
  (SendQuit ∈ acts -> RunGuardian ∈ acts \/ LaunchBackground ∈ acts -> succeeds o SendQuit = true) /\
  (code = 0 -> Forall (fine o) acts).
Proof.
  unfold run. destruct helper as [code|]; [acts|].
  destruct parsed as [cfg|]; [|acts].
  destruct worker as [[|]|]; [acts| |acts].
  destruct (Cf.flag cfg Cf.Help) eqn:F1; [acts|].
  destruct (Cf.flag cfg Cf.Version) eqn:F2; [acts|].
  destruct (Cf.flag cfg Cf.CheckUpdate || Cf.flag cfg Cf.DoUpdate) eqn:F3; [acts|].
  apply orb_false_iff in F3 as [F3 F4].
  destruct (Cf.flag cfg Cf.ApplySystemProxy) eqn:F5; [unfold endWith; destruct (succeeds o ApplyProxy) eqn:?; acts|].
  destruct (Cf.flag cfg Cf.Save) eqn:F6; [unfold endWith; destruct (succeeds o SaveConfig) eqn:?; acts|].
  pose proof (runAction_spec windows o cfg) as H. destruct (runAction windows o cfg) as [acts code].
  destruct H as (H1 & H2 & H3 & H4 & H5).
  assert (forall a, a <> Bootstrap -> a ∈ (if shouldBootstrapUserConfig cfg then [Bootstrap] else []) ++ acts <-> a ∈ acts) as Hin.
  { intros a Ha. rewrite elem_of_app. destruct (shouldBootstrapUserConfig cfg); set_solver. }
  rewrite !Hin by done. split_and!.
  - intros Hg. exists cfg. split_and!; [done|done| |done]. specialize (H1 Hg). unfold isOneShotConfig. rewrite F1, F2, F3, F4, F6.
    apply orb_false_iff in H1 as [[[[[[[-> ->]%orb_false_iff ->]%orb_false_iff ->]%orb_false_iff ->]%orb_false_iff ->]%orb_false_iff ->]%orb_false_iff ->]. done.
  - by intros Hw%H2.
  - intros Hb. exists cfg. split; [done|]. destruct (shouldBootstrapUserConfig cfg); [done|]. set_solver.
  - rewrite ?(Hin SendQuit), ?(Hin LaunchBackground) by done. exact H4.
  - intros Hc. apply Forall_app. split; [|by apply H5]. destruct (shouldBootstrapUserConfig cfg); by repeat constructor.
Qed.

(** *** Quit *)

Lemma waitForRunning_spec n dial i :
  waitForRunningProxy n dial i = None <->
  exists k, (i <= k < i + n)%nat /\ dial k = Dialed /\ forall j, (i <= j < k)%nat -> dial j = DialFailed.
Proof.
  revert i. induction n as [|n IH]; intros i; simpl; [split; [done|intros (k & H & _); lia]|].
  destruct (dial i) eqn:E.
  - split; [|done]. intros _. exists i. split_and!; [lia|lia|done|intros; lia].
  - split; [done|]. intros (k & Hk & Hd & Hj). destruct (decide (k = i)) as [->|]; [congruence|].
    rewrite (Hj i) in E by lia. done.
  - rewrite IH. split; intros (k & Hk & Hd & Hj); exists k.
    + split_and!; [lia|lia|done|]. intros j Hjk. destruct (decide (j = i)) as [->|]; [done|apply Hj; lia].
    + assert (k <> i) by (intros ->; congruence). split_and!; [lia|lia|done|]. intros j Hjk. apply Hj. lia.
Qed.

Lemma quitLoop_spec n ask i e :
  quitLoop n ask i e = None <->
  exists k, (i <= k < i + n)%nat /\ ask k = Status 200 true /\
    forall j, (i <= j < k)%nat -> ask j = NoAnswer \/ ask j = Status 200 false.
Proof.
  revert i e. induction n as [|n IH]; intros i e; simpl; [split; [done|intros (k & H & _); lia]|].
  assert (forall e', (ask i = NoAnswer \/ ask i = Status 200 false) ->
    quitLoop n ask (S i) e' = None <-> exists k, (i <= k < i + S n)%nat /\ ask k = Status 200 true /\
      forall j, (i <= j < k)%nat -> ask j = NoAnswer \/ ask j = Status 200 false) as Hgo.
  { intros e' Hi. rewrite IH. split; intros (k & Hk & Hd & Hj); exists k.
    - split_and!; [lia|lia|done|]. intros j Hjk. destruct (decide (j = i)) as [->|]; [done|apply Hj; lia].
    - assert (k <> i) by (intros ->; destruct Hi; congruence). split_and!; [lia|lia|done|]. intros j Hjk. apply Hj. lia. }
  destruct (ask i) as [|code closed] eqn:E; [apply Hgo; by left|].
  assert (code <> 200 -> ~ exists k, (i <= k < i + S n)%nat /\ ask k = Status 200 true /\
      forall j, (i <= j < k)%nat -> ask j = NoAnswer \/ ask j = Status 200 false) as Hno.
  { intros Hc (k & Hk & Hd & Hj). destruct (decide (k = i)) as [->|]; [congruence|]. destruct (Hj i); [lia|congruence|congruence]. }
  destruct (code =? 403) eqn:E3; to_prop; [split; [done|intros H; destruct (Hno ltac:(lia) H)]|].
  destruct (code =? 200) eqn:E2; to_prop; cbn [negb]; [|split; [done|intros H; destruct (Hno ltac:(lia) H)]].
  subst code. destruct closed; [|apply Hgo; by right].
  split; [|done]. intros _. exists i. split_and!; [lia|lia|done|intros; lia].
Qed.

(** [--quit] reports success exactly if a proxy was reached within five tries and,
    within five requests, one was answered 200 and the port was seen closed behind
    it, with nothing before it but missing answers and ports that stayed open. *)
Theorem quit_confirmed dial ask :
  quit dial ask = None <->
  (exists k, (k < 5)%nat /\ dial k = Dialed /\ forall j, (j < k)%nat -> dial j = DialFailed) /\
  (exists k, (k < 5)%nat /\ ask k = Status 200 true /\ forall j, (j < k)%nat -> ask j = NoAnswer \/ ask j = Status 200 false).
Proof.
  unfold quit.
  assert ((exists k, (k < 5)%nat /\ dial k = Dialed /\ forall j, (j < k)%nat -> dial j = DialFailed) <-> waitForRunningProxy 5 dial 0 = None) as ->.
  { rewrite waitForRunning_spec. split; intros (k & Hk & Hd & Hj); exists k; (split_and!; [lia|..|done|]) || (split_and!; [lia|done|]);
      try lia; intros j Hjk; apply Hj; lia. }
  assert ((exists k, (k < 5)%nat /\ ask k = Status 200 true /\ forall j, (j < k)%nat -> ask j = NoAnswer \/ ask j = Status 200 false) <->
    quitLoop 5 ask 0 None = None) as ->.
  { rewrite quitLoop_spec. split; intros (k & Hk & Hd & Hj); exists k; (split_and!; [lia|..|done|]) || (split_and!; [lia|done|]);
      try lia; intros j Hjk; apply Hj; lia. }
  destruct (waitForRunningProxy 5 dial 0); naive_solver.
Qed.

(** *** Limits and delays *)

Lemma nofileFallback_spec soft hard set_ fs :
  let '(calls, r) := nofileFallback soft hard set_ fs in
  Forall (fun c => soft < c <= hard /\ c ∈ fs) calls /\
  match r with Some f => last calls = Some f /\ set_ f = true | None => True end.
Proof.
  induction fs as [|f fs IH]; [done|]. cbn [nofileFallback]. destruct (f <=? soft) eqn:E1; to_prop; [done|].
  assert (forall calls, Forall (fun c => soft < c <= hard /\ c ∈ fs) calls -> Forall (fun c => soft < c <= hard /\ c ∈ f :: fs) calls) as Hw.
  { intros calls H. eapply Forall_impl; [exact H|]. intros c [? ?]. split; [done|by right]. }
  destruct (hard <? f) eqn:E2; to_prop; [destruct (nofileFallback soft hard set_ fs) as [calls r]; destruct IH; split; [by apply Hw|done]|].
  destruct (set_ f) eqn:Es; [split; [constructor; [split; [lia|by left]|done]|done]|].
  destruct (nofileFallback soft hard set_ fs) as [calls r]. destruct IH as [IH1 IH2]. split.
  - constructor; [split; [lia|by left]|by apply Hw].
  - destruct r as [x|]; [|done]. destruct IH2 as [IH2 Hx]. split; [|done]. by destruct calls.
Qed.

(** the file limit is only ever raised, within the hard limit and to no more
    than 65536: every value tried is above the soft limit, and the value reported is the
    soft limit when nothing was tried, the one that was set, or what the system
    answers at the end. *)
Theorem nofile_only_raises soft hard again set_ :
  let '(calls, r) := raiseNofileLimitWith (Some (soft, hard)) again set_ in
  Forall (fun c => soft < c <= hard /\ c <= nofileTarget) calls /\
  match r with
  | Ok n => calls = [] /\ n = soft \/ last calls = Some n /\ set_ n = true \/ again = Some n
  | Err n => again = None /\ n = soft
  end.
Proof.
  unfold raiseNofileLimitWith. set (target := if hard <? nofileTarget then hard else nofileTarget).
  assert (target <= hard /\ target <= nofileTarget) as [Ht1 Ht2] by (subst target; case_match; to_prop; lia).
  destruct (target <=? soft) eqn:E; to_prop; [split; [done|by left]|].
  destruct (set_ target) eqn:Es; [split; [constructor; [lia|done]|right; by left]|].
  pose proof (nofileFallback_spec soft hard set_ nofileFallbacks) as H.
  destruct (nofileFallback _ _ _ _) as [calls r]. destruct H as [H1 H2]. split.
  - constructor; [lia|]. eapply Forall_impl; [exact H1|]. intros c [Hc Hin]. split; [done|].
    unfold nofileFallbacks, nofileTarget in *. rewrite !elem_of_cons, elem_of_nil in Hin. destruct_or?; subst; try done; lia.
  - destruct r as [f|]; [|destruct again; [right; by right|done]]. destruct H2 as [H2 Hf]. right. left. split; [|done]. by destruct calls.
Qed.

(** the first look for updates is made within a tenth of the interval and within
    five minutes, so that the programs that start together do not ask together. *)
Theorem initial_delay_bounded interval random :
  (forall w n, 1 < w -> random w = Some n -> 0 <= n < w) ->
  let d := autoUpdateInitialDelay interval random in 0 <= d <= 5 * Minute /\ (0 < interval -> d <= interval / 10).
Proof.
  intros Hr. unfold autoUpdateInitialDelay. destruct (interval <=? 0) eqn:E0; to_prop; [unfold Minute, Second; lia|].
  assert (Z.quot interval 10 = interval / 10) as -> by (apply Z.quot_div_nonneg; lia).
  assert (0 <= interval / 10) as Hd by (apply Z.div_pos; lia).
  set (w := if 5 * Minute <? interval / 10 then 5 * Minute else interval / 10).
  assert (w <= 5 * Minute /\ w <= interval / 10 /\ 0 <= w) as (H1 & H2 & H3)
    by (subst w; destruct (5 * Minute <? interval / 10) eqn:E; to_prop; unfold Minute, Second in *; lia).
  destruct (w <=? 1) eqn:E1; to_prop; [lia|].
  destruct (random w) as [n|] eqn:En; [specialize (Hr w n E1 En); lia|].
  assert (0 <= Z.quot w 2 <= w) by (rewrite Z.quot_div_nonneg by lia; split; [apply Z.div_pos; lia|apply Z.div_le_upper_bound; lia]). lia.
Qed.

(** ** Witnesses *)

Definition fired : Fired unit := mkFired (Ok true) (Ok true) None (Ok false) (Ok "/usr/bin/pxgo") None.

(** The worker is told to quit ([--quit]) while the update is prepared: the guardian
    ends by itself and without an error, as it does when the loop stops it, and
    the loop goes on to apply the update and to start the program again. *)
Definition quitInputs : list Grd.MInput :=
  [Grd.wit_in (Grd.MMessage (Grd.mkMessage Grd.MessageReady 0) (1 * Second));
   Grd.wit_in (Grd.MMessage (Grd.mkMessage Grd.MessageStop 0) (9 * Second))].

Example quit_is_undone :
  (Grd.RunParent "pxgo" Grd.wit_options [(Grd.SAccepted quitInputs, false)]).2 = Some (Grd.PReturn None) /\
  runGuardianAutoUpdateLoop false Hour 0 [EvTimer fired] =
    ([WorkerStarted; TimerSet 0; Taken; StateWritten "prepared"; StopWorker; ParentReturned None; Applying (Ok false);
      StateWritten "applied"; Cleaned; Restarting], Some None).
Proof. vm_compute. done. Qed.

Definition toyConfig : Cf.Config (Float := unit) :=
  Cf.mkConfig (fun _ => "") (fun _ => 0) (fun k => bool_decide (k = Cf.Restart)) tt Hour [] ∅.
Definition toyOutcomes : Outcomes := mkOutcomes (fun _ => true) (fun _ => 0) true true true.

Lemma run_does_one_thing_witness :
  run false toyOutcomes None (Some toyConfig) (Some false) = ([Bootstrap; SendQuit; RunGuardian], 0) /\
  isOneShotConfig toyConfig = false.
Proof.
  split; [reflexivity|].
  destruct (run_does_one_thing false toyOutcomes None (Some toyConfig) (Some false)) as (H & _).
  destruct H as (cfg & E & _ & Hc & _); [right; right; left; reflexivity|]. injection E as <-. exact Hc.
Defined.

Lemma updates_in_order_witness :
  Taken ∉ (runGuardianAutoUpdateLoop true 0 Second [EvTimer fired; EvTimer fired; EvParent None]).1.
Proof. exact (proj1 (proj2 (proj2 (proj2 (updates_in_order true 0 Second [EvTimer fired; EvTimer fired; EvParent None])) eq_refl))). Defined.

Lemma quit_confirmed_witness :
  quit (fun i => if (i =? 0)%nat then DialFailed else Dialed) (fun i => if (i =? 0)%nat then NoAnswer else Status 200 true) = None.
Proof.
  apply (quit_confirmed (fun i => if (i =? 0)%nat then DialFailed else Dialed)
           (fun i => if (i =? 0)%nat then NoAnswer else Status 200 true)). split.
  - exists 1%nat. split; [lia|]. split; [reflexivity|]. intros [|j] Hj; [reflexivity|lia].
  - exists 1%nat. split; [lia|]. split; [reflexivity|]. intros [|j] Hj; [left; reflexivity|lia].
Defined.

Lemma initial_delay_bounded_witness : 0 <= autoUpdateInitialDelay Hour (fun _ => Some 1) <= 5 * Minute.
Proof. exact (proj1 (initial_delay_bounded Hour (fun _ => Some 1) ltac:(intros w n Hw E; injection E as <-; lia))). Defined.

End Pg.
