(* ===== verification/Handoff.v ===== *)
(** * Records on their way: the update state and the Windows update helper
    ([internal/update/state.go], [apply_windows.go], [lock_common.go])

    On Windows a program cannot replace itself: it starts the staged candidate with
    one argument that holds, as JSON in base64, what to replace and how to go on, and
    ends.  The candidate reads the argument, replaces the executable with
    [Staging.v]'s steps, and leaves its outcome in the state file, which the program
    reads at its next start.  The theorems follow the data through. *)

From S2P Require Export Prelude GoStrings.
From S2P Require Import Utf8 GoText Base64 Update Staging Bootstrap Program Json Codec.

Module Ho.

(** The fields of a record stand for different parts of it. *)
Ltac fields_ok :=
  split;
  [ by apply (bool_decide_unpack _); vm_compute
  | repeat (apply Forall_cons; split; [vm_compute; reflexivity|]); apply Forall_nil_2
  | repeat (apply Forall_cons; split; [reflexivity|]); apply Forall_nil_2
  | repeat (apply Forall_cons; split; [intros [] E; cbn in *; by rewrite <- E|]); apply Forall_nil_2
  | repeat (constructor; [repeat (apply Forall_cons; split; [by intros ? []|]); apply Forall_nil_2|]); constructor
  | repeat (apply Forall_cons; split; [exact _|]); apply Forall_nil_2 ].

Section Records.
(** [time.Time] as JSON: RFC 3339 with nanoseconds; years beyond 9999 have no text. *)
Context (formatTime : Time -> option string) (parseTime : string -> option Time).
Definition jtime : Codec Time := jtext zeroTime (fun _ => false) true formatTime parseTime.

(** ** state.go *)

Record State := mkState {
  Current : string; Latest : string; Available : bool; Provider : string; Channel : string; LastCheck : Time; LastResult : string }.

Definition stateFields : list (Field State) := [
  mkField "current" true jstring Current (fun x s => mkState x (Latest s) (Available s) (Provider s) (Channel s) (LastCheck s) (LastResult s));
  mkField "latest" true jstring Latest (fun x s => mkState (Current s) x (Available s) (Provider s) (Channel s) (LastCheck s) (LastResult s));
  mkField "available" false jbool Available (fun x s => mkState (Current s) (Latest s) x (Provider s) (Channel s) (LastCheck s) (LastResult s));
  mkField "provider" true jstring Provider (fun x s => mkState (Current s) (Latest s) (Available s) x (Channel s) (LastCheck s) (LastResult s));
  mkField "channel" true jstring Channel (fun x s => mkState (Current s) (Latest s) (Available s) (Provider s) x (LastCheck s) (LastResult s));
  mkField "last_check" true jtime LastCheck (fun x s => mkState (Current s) (Latest s) (Available s) (Provider s) (Channel s) x (LastResult s));
  mkField "last_result" true jstring LastResult (fun x s => mkState (Current s) (Latest s) (Available s) (Provider s) (Channel s) (LastCheck s) x)].
Definition noState : State := mkState "" "" false "" "" zeroTime "".
Definition stateCodec : Codec State := jstruct noState stateFields.

Definition StatePath (configDir : string) : string :=
  if String.eqb configDir "" then "" else pathJoin configDir "update-state.json".
(** [clock] is the reading taken when [now] is the zero time. *)
Definition StateFromStatus (st : Stg.Status) (result : string) (now clock : Time) : State :=
  mkState (Upd.Current (Stg.stCheck st)) (Upd.Latest (Stg.stCheck st)) (Upd.Available (Stg.stCheck st)) (Stg.stProvider st) (Stg.stChannel st)
    (if isZero now then clock else now) result.

Definition WriteState (env : Bs.PEnv) (path : string) (state : State) : Bs.M unit :=
  Pg.WriteState env path (MarshalAs stateCodec state).
Definition ReadState (env : Bs.PEnv) (d : Bs.Dir) (path : string) : option State :=
  if String.eqb path "" || negb (Bs.reads env) then None
  else f ← d !! path; UnmarshalAs stateCodec (Bs.fData f).

(** ** The argument of the helper *)

Definition applyHelperPrefix : string := "--pxgo-apply-update=".
Record Payload := mkPayload {
  Target : string; ExpectedVersion : string; ParentPID : Z; Restart : bool; RestartArgs : option (list string);
  pStatePath : string; LockPath : string; CurrentVersion : string; pProvider : string; pChannel : string }.

Definition payloadFields : list (Field Payload) := [
  mkField "target" false jstring Target (fun x p => mkPayload x (ExpectedVersion p) (ParentPID p) (Restart p) (RestartArgs p) (pStatePath p) (LockPath p) (CurrentVersion p) (pProvider p) (pChannel p));
  mkField "expected_version" false jstring ExpectedVersion (fun x p => mkPayload (Target p) x (ParentPID p) (Restart p) (RestartArgs p) (pStatePath p) (LockPath p) (CurrentVersion p) (pProvider p) (pChannel p));
  mkField "parent_pid" false jint ParentPID (fun x p => mkPayload (Target p) (ExpectedVersion p) x (Restart p) (RestartArgs p) (pStatePath p) (LockPath p) (CurrentVersion p) (pProvider p) (pChannel p));
  mkField "restart" true jbool Restart (fun x p => mkPayload (Target p) (ExpectedVersion p) (ParentPID p) x (RestartArgs p) (pStatePath p) (LockPath p) (CurrentVersion p) (pProvider p) (pChannel p));
  mkField "restart_args" true (jslice jstring) RestartArgs (fun x p => mkPayload (Target p) (ExpectedVersion p) (ParentPID p) (Restart p) x (pStatePath p) (LockPath p) (CurrentVersion p) (pProvider p) (pChannel p));
  mkField "state_path" true jstring pStatePath (fun x p => mkPayload (Target p) (ExpectedVersion p) (ParentPID p) (Restart p) (RestartArgs p) x (LockPath p) (CurrentVersion p) (pProvider p) (pChannel p));
  mkField "lock_path" true jstring LockPath (fun x p => mkPayload (Target p) (ExpectedVersion p) (ParentPID p) (Restart p) (RestartArgs p) (pStatePath p) x (CurrentVersion p) (pProvider p) (pChannel p));
  mkField "current_version" true jstring CurrentVersion (fun x p => mkPayload (Target p) (ExpectedVersion p) (ParentPID p) (Restart p) (RestartArgs p) (pStatePath p) (LockPath p) x (pProvider p) (pChannel p));
  mkField "provider" true jstring pProvider (fun x p => mkPayload (Target p) (ExpectedVersion p) (ParentPID p) (Restart p) (RestartArgs p) (pStatePath p) (LockPath p) (CurrentVersion p) x (pChannel p));
  mkField "channel" true jstring pChannel (fun x p => mkPayload (Target p) (ExpectedVersion p) (ParentPID p) (Restart p) (RestartArgs p) (pStatePath p) (LockPath p) (CurrentVersion p) (pProvider p) x)].
Definition payloadCodec : Codec Payload := jstruct (mkPayload "" "" 0 false None "" "" "" "" "") payloadFields.

Record HelperResult := mkHelperResult { OK : bool; Error : string; Updated : Time }.
Definition resultFields : list (Field HelperResult) := [
  mkField "ok" false jbool OK (fun x r => mkHelperResult x (Error r) (Updated r));
  mkField "error" true jstring Error (fun x r => mkHelperResult (OK r) x (Updated r));
  mkField "updated" false jtime Updated (fun x r => mkHelperResult (OK r) (Error r) x)].
Definition resultCodec : Codec HelperResult := jstruct (mkHelperResult false "" zeroTime) resultFields.

Definition updateLockPath (statePath : string) : string :=
  if String.eqb statePath "" then "" else pathJoin (pathDir statePath) "update.lock".

(** ** The start of the helper *)

Inductive StartErr := SCancelled | SSamePath | STarget | SVersion | SInspect | SNotRegular | SMarshal | SStart | SRelease.
Record Command := mkCommand { cPath : string; cArgs : list string; cDir : string }.
(** [info] is [os.Stat] of the candidate, whether it is a regular file; [startOk] and
    [releaseOk] are the outcomes for the process. *)
Record StartEnv := mkStartEnv { cancelled : bool; info : option bool; pid : Z; startOk : bool; releaseOk : bool }.

(** [ApplyCandidateWithRestartState], on absolute paths: the command started. *)
Definition startHelper (env : StartEnv) (candidate target expectedVersion : string) (restartArgs : option (list string)) (statePath : string)
  (status : Stg.Status) : result StartErr Command :=
  if cancelled env then Err SCancelled
  else if EqualFold candidate target then Err SSamePath
  else if negb (EqualFold (pathBase target) Upd.windowsExecutableName) then Err STarget
  else if negb (is_ok (Upd.normalizeVersion expectedVersion)) then Err SVersion
  else match info env with
       | None => Err SInspect
       | Some false => Err SNotRegular
       | Some true =>
           let args := match restartArgs with Some (_ :: _) => restartArgs | _ => None end in
           match MarshalAs payloadCodec (mkPayload target expectedVersion (pid env) (bool_decide (is_Some restartArgs)) args statePath
                   (updateLockPath statePath) (Upd.Current (Stg.stCheck status)) (Stg.stProvider status) (Stg.stChannel status)) with
           | None => Err SMarshal
           | Some payload =>
               let arg := applyHelperPrefix +:+ rawurl_encode (str_bytes payload) in
               if negb (startOk env) then Err SStart else if negb (releaseOk env) then Err SRelease
               else Ok (mkCommand candidate [arg] (pathDir candidate))
           end
       end.

(** ** The helper *)

(** The argument with the prefix: none, one, or more than one.  An argument that is
    the prefix alone counts as none. *)
Fixpoint helperArgument (args : list string) (encoded : string) : option string :=
  match args with
  | [] => Some encoded
  | arg :: args =>
      match CutPrefix arg applyHelperPrefix with
      | None => helperArgument args encoded
      | Some rest => if negb (String.eqb encoded "") then None else helperArgument args rest
      end
  end.

(** Not a helper; a helper with bad arguments; a helper with its orders. *)
Inductive Orders := NoHelper | BadOrders | HelperOrders (p : Payload).
Definition helperOrders (args : list string) : Orders :=
  match helperArgument args "" with
  | None => BadOrders
  | Some encoded =>
      if String.eqb encoded "" then NoHelper
      else match rawurl_decode encoded with
           | None => BadOrders
           | Some payloadJSON => match UnmarshalAs payloadCodec (bytes_str payloadJSON) with Some p => HelperOrders p | None => BadOrders end
           end
  end.

(** [writeApplyHelperState]: the state it writes, if there is a path. *)
Definition helperState (p : Payload) (ok : bool) (now : Time) : option State :=
  if String.eqb (pStatePath p) "" then None
  else Some (StateFromStatus
    (if ok then Stg.mkStatus (Upd.mkCheck (ExpectedVersion p) (ExpectedVersion p) false (Upd.mkRelease "" "" false [])) (pProvider p) (pChannel p) true false
     else Stg.mkStatus (Upd.mkCheck (CurrentVersion p) (ExpectedVersion p) true (Upd.mkRelease "" "" false [])) (pProvider p) (pChannel p) false false)
    (if ok then "applied" else "apply_failed") now now).

(** What the helper does to the world besides the files of the replacement. *)
Inductive HelperEffect := WroteState (s : State) | StartedPrevious (target : string) (args : option (list string)) | WroteResult (r : HelperResult).
Record RunEnv := mkRunEnv {
  helper : Stg.HelperEnv; helperPath : string; tmp : string; content : string; now : Time; errorText : Stg.SErr -> string;
  stateOk : bool; resultOk : bool }.

(** [RunApplyHelper]: whether the process is a helper, its exit code, the states of
    the target's directory, and what else it does. *)
Definition RunApplyHelper (env : RunEnv) (args : list string) (fs : Stg.Files) : (bool * Z) * list Stg.Files * list HelperEffect :=
  match helperOrders args with
  | NoHelper => ((false, 0), [], [])
  | BadOrders => ((true, 2), [], [])
  | HelperOrders p =>
      let h := Stg.mkHelperEnv (Stg.hApply (helper env)) (Stg.parentExits (helper env)) (Stg.lockFree (helper env)) (Restart p) (Stg.restartOk (helper env)) in
      let '(r, trace) := Stg.runApplyHelper h (ParentPID p) (tmp env) (helperPath env) (Target p) (ExpectedVersion p) (content env) fs in
      let state ok := match helperState p ok (now env) with Some s => [WroteState s] | None => [] end in
      match r with
      | Some e =>
          ((true, 7), trace, state false ++
            (if Restart p && Stg.safeToRestartExistingTarget (Target p) (List.last trace fs) then [StartedPrevious (Target p) (RestartArgs p)] else []) ++
            [WroteResult (mkHelperResult false (errorText env e) (now env))])
      | None =>
          ((true, if negb (stateOk env) && bool_decide (is_Some (helperState p true (now env))) || negb (resultOk env) then 8 else 0), trace,
            state true ++ [WroteResult (mkHelperResult true "" (now env))])
      end
  end.

(** [waitForParentExit]: the handle of the parent, and the answer of the wait for the
    milliseconds it asks for. *)
Inductive Wait := Exited | WaitTimeout | WaitFailed.
Definition waitMilliseconds (timeout : Duration) : Z :=
  let ms := Z.quot timeout 1000000 in let ms := if ms <=? 0 then 1 else ms in if 4294967294 <? ms then 4294967294 else ms.
Definition waitForParentExit (opened : option bool) (wait : Z -> Wait) (timeout : Duration) : bool :=
  match opened with
  | None => true
  | Some false => false
  | Some true => match wait (waitMilliseconds timeout) with Exited => true | _ => false end
  end.

(** ** Lemmas: the records are lawful *)

Context (Htime : forall t s, formatTime t = Some s -> parseTime s = Some t /\ utf8_valid (str_bytes s) = true).

#[local] Instance jtime_lawful d : Lawful jtime d.
Proof. apply jtext_lawful. exact Htime. Qed.
Lemma stateFields_ok : FieldsOk noState stateFields 1.
Proof. fields_ok. Qed.
Lemma payloadFields_ok : FieldsOk (mkPayload "" "" 0 false None "" "" "" "" "") payloadFields 1.
Proof. fields_ok. Qed.
Lemma resultFields_ok : FieldsOk (mkHelperResult false "" zeroTime) resultFields 1.
Proof. fields_ok. Qed.

#[local] Instance stateCodec_lawful : Lawful stateCodec 2.
Proof. apply jstruct_lawful, stateFields_ok. Qed.
#[local] Instance payloadCodec_lawful : Lawful payloadCodec 2.
Proof. apply jstruct_lawful, payloadFields_ok. Qed.

Abbreviation text := (fun s => isText s = true).

(** An omitted text is the empty one. *)
Lemma norm_text s : isText s = true -> (if negb (String.eqb "" s) then ToValid s else "") = s.
Proof. intros H. destruct (String.eqb_spec "" s) as [<-|]; [done|]. by apply ToValid_id. Qed.

Definition payloadText (p : Payload) : Prop :=
  Forall text [Target p; ExpectedVersion p; pStatePath p; LockPath p; CurrentVersion p; pProvider p; pChannel p] /\
  match RestartArgs p with None => True | Some l => l <> [] /\ Forall text l end.

Lemma norm_payload p : payloadText p -> norm payloadCodec p = p.
Proof.
  intros [Ht Ha]. repeat (apply Forall_cons in Ht as [? Ht]). destruct p as [ta ver pd re args st lo cu pr ch]. cbn [Target ExpectedVersion RestartArgs pStatePath LockPath CurrentVersion pProvider pChannel] in *.
  cbn -[ToValid String.eqb]. unfold normField, written.
  cbn -[ToValid String.eqb]. rewrite !norm_text, !ToValid_id by done. f_equal; [by destruct re|].
  destruct args as [l|]; [|done]. destruct Ha as [Hl Ha]. destruct l as [|x l]; [done|]. cbn. f_equal.
  clear Hl. change (map ToValid (x :: l) = x :: l). induction Ha as [|y l' Hy _ IH]; [done|]. cbn. by rewrite ToValid_id, IH.
Qed.

Lemma MarshalAs_bytes {A} (c : Codec A) v text : MarshalAs c v = Some text -> bytes_str (str_bytes text) = text.
Proof. intros _. apply bytes_str_bytes. Qed.

Lemma CutPrefix_app p s : CutPrefix (p +:+ s) p = Some s.
Proof. unfold CutPrefix. by rewrite has_prefix_app, str_drop_app. Qed.

Lemma rawurl_nonempty b bs : rawurl_encode (b :: bs) <> "".
Proof. by destruct bs as [|? [|? ?]]. Qed.

(** An argument made from a payload gives the payload back. *)
Lemma helperOrders_arg p text : MarshalAs payloadCodec p = Some text -> payloadText p ->
  helperOrders [applyHelperPrefix +:+ rawurl_encode (str_bytes text)] = HelperOrders p.
Proof.
  intros Hm Ht. unfold helperOrders. cbn [helperArgument]. rewrite CutPrefix_app. change (negb (String.eqb "" "")) with false. cbv iota.
  cbn [helperArgument]. assert (rawurl_encode (str_bytes text) <> "") as Hne.
  { unfold MarshalAs in Hm. destruct (encodable payloadCodec p); [|done]. injection Hm as <-.
    change (Marshal (enc payloadCodec p)) with (String "{" (str_drop 1 (Marshal (enc payloadCodec p)))). apply rawurl_nonempty. }
  destruct (String.eqb_spec (rawurl_encode (str_bytes text)) ""); [done|].
  rewrite rawurl_roundtrip by apply str_bytes_bytes. rewrite bytes_str_bytes.
  pose proof (Unmarshal_Marshal_as payloadCodec 2 p text "" payloadCodec_lawful ltac:(lia) eq_refl Hm) as H.
  rewrite app_nil_r_str in H. by rewrite H, norm_payload.
Qed.

(** An argument without the prefix is no order. *)
Lemma helperOrders_none args : Forall (fun a => HasPrefix a applyHelperPrefix = false) args -> helperOrders args = NoHelper.
Proof.
  intros H. unfold helperOrders. assert (helperArgument args "" = Some "") as ->; [|done].
  induction H as [|a args Ha _ IH]; [done|]. cbn [helperArgument]. unfold CutPrefix. by rewrite Ha.
Qed.

(** ** Theorems *)

(** what the program asks for is what the helper does.  The helper is started as the
    staged candidate, with one argument; reading it gives exactly the target, the
    version, the process to wait for, the arguments to restart with and the paths the
    program chose, for texts that are UTF-8; and the ordinary arguments of the program
    are never taken for orders. *)
Theorem handoff_is_exact env candidate target version restartArgs statePath status cmd :
  startHelper env candidate target version restartArgs statePath status = Ok cmd ->
  Forall text [target; version; statePath; updateLockPath statePath; Upd.Current (Stg.stCheck status); Stg.stProvider status; Stg.stChannel status] ->
  Forall text (default [] restartArgs) ->
  cPath cmd = candidate /\ EqualFold candidate target = false /\ EqualFold (pathBase target) Upd.windowsExecutableName = true /\
  helperOrders (cArgs cmd) = HelperOrders (mkPayload target version (pid env) (bool_decide (is_Some restartArgs))
    (match restartArgs with Some (_ :: _) => restartArgs | _ => None end) statePath (updateLockPath statePath)
    (Upd.Current (Stg.stCheck status)) (Stg.stProvider status) (Stg.stChannel status)) /\
  (forall args, Forall (fun a => HasPrefix a applyHelperPrefix = false) args -> helperOrders args = NoHelper).
Proof using Type.
  unfold startHelper. intros H Ht Ha. destruct (cancelled env); [done|]. destruct (EqualFold candidate target) eqn:E1; [done|].
  destruct (negb (EqualFold (pathBase target) _)) eqn:E2; [done|]. destruct (negb (is_ok _)); [done|].
  destruct (info env) as [[]|]; try done. destruct (MarshalAs _ _) as [text|] eqn:Em; [|done].
  destruct (negb (startOk env)); [done|]. destruct (negb (releaseOk env)); [done|]. injection H as <-. cbn [cPath cArgs].
  split_and!; [done|done|by to_prop| |apply helperOrders_none]. apply helperOrders_arg; [exact Em|]. split; [exact Ht|].
  cbn [RestartArgs]. by destruct restartArgs as [[|x l]|].
Qed.


Lemma norm_state s : Forall text [Current s; Latest s; Provider s; Channel s; LastResult s] -> norm stateCodec s = s.
Proof.
  intros Ht. repeat (apply Forall_cons in Ht as [? Ht]). destruct s as [cu la av pr ch ti re]. cbn [Current Latest Provider Channel LastResult] in *.
  cbn -[ToValid String.eqb]. unfold normField, written. cbn -[ToValid String.eqb]. by rewrite !norm_text.
Qed.

(** the state of the last update is what the next start reads.  Every state of the
    directory on the way has the old file or the complete new one; after a success
    it is read as it was written, after a failure the old file is still there. *)
Theorem update_state_is_kept env path s d :
  Bs.tmpName env <> path -> Forall text [Current s; Latest s; Provider s; Channel s; LastResult s] ->
  let '(r, states) := WriteState env path s d in
  let after := Bs.final d states in
  Forall (fun x => x !! path = d !! path \/ (Bs.reads env = true -> ReadState env x path = Some s)) states /\
  (forall f, f <> path -> after !! f = d !! f) /\
  match r with
  | Ok _ => Bs.reads env = true -> ReadState env after path = Some s
  | Err _ => after !! path = d !! path
  end.
Proof.
  intros Htmp Ht. unfold WriteState, Pg.WriteState.
  set (I := fun x : Bs.Dir => x !! path = d !! path \/ path <> "" /\ exists text, MarshalAs stateCodec s = Some text /\ x !! path = Some (Bs.mkFile (text +:+ String LF "") 384)).
  assert (Bs.triple I (eq d) (_ ← Bs.needs (negb (String.eqb path "") && Bs.mkdirs env) Bs.EMkdir;
     match MarshalAs stateCodec s with
     | Some data => Bs.atomicWriteFile env path (data +:+ String LF "") 384
     | None => Bs.fails Bs.EMutate
     end) (fun r d' => match r with
       | Ok _ => path <> "" /\ exists text, MarshalAs stateCodec s = Some text /\ d' = <[path := Bs.mkFile (text +:+ String LF "") 384]> d
       | Err _ => d' = d end)) as H.
  { eapply Bs.t_bind with (R := fun _ d' => path <> "" /\ d' = d).
    { apply Bs.t_needs. intros d0 _ <-. destruct (negb (String.eqb path "") && _) eqn:E; [|done]. apply andb_true_iff in E as [E _]. by to_prop. }
    intros []. destruct (MarshalAs stateCodec s) as [text|] eqn:Em; [|apply Bs.t_fails; by intros d0 _ [_ ->]].
    apply Bs.t_any. intros d0 _ [Hp ->]. eapply Bs.t_weaken; [apply Bs.t_atomicWriteFile|done|].
    - intros c m _. left. by rewrite lookup_insert_ne.
    - by left.
    - right. split; [done|]. exists text. by rewrite lookup_insert_eq.
    - intros [[]|e] d0 _ ->; [|done]. split; [done|]. by exists text. }
  assert (forall x text, path <> "" -> MarshalAs stateCodec s = Some text -> x !! path = Some (Bs.mkFile (text +:+ String LF "") 384) ->
    Bs.reads env = true -> ReadState env x path = Some s) as Hread.
  { intros x text Hp Hm Hx Hr. unfold ReadState. rewrite Hr, Hx. destruct (String.eqb_spec path ""); [done|]. cbn [orb negb mbind option_bind Bs.fData].
    rewrite (Unmarshal_Marshal_as stateCodec 2 s text) by (done || lia || exact _). by rewrite norm_state. }
  destruct (H d ltac:(by left) eq_refl) as [H1 H2]. clear H. destruct (_ ≫= _) as [r t] eqn:E. cbn [fst snd] in *. split_and!.
  - eapply Forall_impl; [exact H1|]. intros x [Hx|(Hp & text & Hm & Hx)]; [by left|right; by apply (Hread x text)].
  - intros f Hf. destruct r as [x|e]; [destruct H2 as (_ & text & _ & ->); by rewrite lookup_insert_ne|by rewrite H2].
  - destruct r as [x|e]; [|by rewrite H2]. destruct H2 as (Hp & text & Hm & ->). apply (Hread _ text Hp Hm). by rewrite lookup_insert_eq.
Qed.
End Records.

(** ** Concrete runs *)

Definition toyFormat (t : Time) : option string := if (0 <=? t) && (t <=? max_uint64) then Some (FormatUint t) else None.
Definition toyParse (s : string) : option Time := okOf (ParseUint s).
Lemma toy_times t s : toyFormat t = Some s -> toyParse s = Some t /\ utf8_valid (str_bytes s) = true.
Proof.
  unfold toyFormat, toyParse. destruct ((0 <=? t) && (t <=? max_uint64)) eqn:E; [|done]. intros [= <-]. to_prop.
  split; [by rewrite ParseUint_FormatUint|]. assert (str_forall is_digit (FormatUint t) = true) as Hd by (apply FormatUint_forall; intros; by apply digit_char_spec).
  revert Hd. generalize (FormatUint t) as w. clear. intros w Hd. unfold utf8_valid, runes.
  induction w as [|c w IH]; [done|]. cbn [str_forall] in Hd. apply andb_true_iff in Hd as [Hc Hd].
  change (str_bytes (String c w)) with (ord c :: str_bytes w). cbn [length decodeRunes]. unfold decodeRune.
  unfold is_digit in Hc. to_prop. rewrite (proj2 (Z.ltb_lt _ _)) by lia. cbn [forallb]. by apply IH.
Qed.

Definition toyStatus : Stg.Status := Stg.mkStatus (Upd.mkCheck "1.0.0" "1.1.0" true (Upd.mkRelease "" "" false [])) "direct" "stable" false false.
Definition toyStart : result StartErr Command :=
  startHelper (mkStartEnv false (Some true) 42 true true) "C:/t/new.exe" "C:/pxgo/pxgo.exe" "1.1.0" (Some ["--port=1"]) "C:/c/update-state.json" toyStatus.
Definition toyCommand : Command := match toyStart with Ok c => c | Err _ => mkCommand "" [] "" end.

Lemma handoff_is_exact_witness : exists p, helperOrders (cArgs toyCommand) = HelperOrders p /\
  Target p = "C:/pxgo/pxgo.exe" /\ ParentPID p = 42 /\ RestartArgs p = Some ["--port=1"] /\ LockPath p = "C:/c/update.lock".
Proof.
  assert (toyStart = Ok toyCommand) as Hs by (vm_compute; reflexivity). unfold toyStart in Hs.
  destruct (handoff_is_exact _ _ _ _ _ _ _ _ Hs) as (_ & _ & _ & H & _).
  - repeat (apply Forall_cons; split; [vm_compute; reflexivity|]). apply Forall_nil_2.
  - repeat (apply Forall_cons; split; [vm_compute; reflexivity|]). apply Forall_nil_2.
  - eexists. split; [exact H|]. split_and!; vm_compute; reflexivity.
Defined.

(** A helper that replaces the executable, is restarted or is not, and the state it
    leaves. *)
Definition toyApply : Stg.ApplyEnv := Stg.mkApplyEnv false true true true true true true true true true true (fun c => if String.eqb c "new" then Some "1.1.0" else None).
Definition toyFiles : Stg.Files := {["C:/pxgo/pxgo.exe" := Stg.mkFile "old" true]}.
Definition toyPayload : Payload := mkPayload "C:/pxgo/pxgo.exe" "1.1.0" 42 true (Some ["--port=1"]) "C:/c/update-state.json" "" "1.0.0" "direct" "stable".
Definition toyRun (restartOk : bool) : RunEnv :=
  mkRunEnv (Stg.mkHelperEnv toyApply true true false restartOk) "C:/t/new.exe" "C:/pxgo/tmp" "new" 1 (fun _ => "restart failed") true true.
Definition toyArgs : list string :=
  match MarshalAs payloadCodec toyPayload with Some text => [applyHelperPrefix +:+ rawurl_encode (str_bytes text)] | None => [] end.


(** When the new executable is installed and verified and only its start fails, the
    helper says that the update failed and that the old version still runs. *)
Example restart_failure_is_misreported :
  let '((_, code), trace, effects) := RunApplyHelper (toyRun false) toyArgs toyFiles in
  code = 7 /\ List.last trace toyFiles !! "C:/pxgo/pxgo.exe" = Some (Stg.mkFile "new" true) /\
  head effects = Some (WroteState (mkState "1.0.0" "1.1.0" true "direct" "stable" 1 "apply_failed")).
Proof. vm_compute. by split. Qed.

Definition toyState : State := mkState "1.0.0" "1.1.0" true "direct" "stable" 1 "available".
Definition toyEnv : Bs.PEnv :=
  Bs.mkPEnv true true true true true true true true true true true true true true true 18 "/c/.update-state-1" "/c/bak" 0.
Lemma update_state_is_kept_witness :
  ReadState toyFormat toyParse toyEnv (Bs.final ∅ (WriteState toyFormat toyParse toyEnv "/c/update-state.json" toyState ∅).2) "/c/update-state.json" = Some toyState.
Proof.
  pose proof (update_state_is_kept toyFormat toyParse toy_times toyEnv "/c/update-state.json" toyState ∅ ltac:(vm_compute; discriminate)
    ltac:(repeat (apply Forall_cons; split; [vm_compute; reflexivity|]); apply Forall_nil_2)) as H.
  assert ((WriteState toyFormat toyParse toyEnv "/c/update-state.json" toyState ∅).1 = Ok tt) as Hok by (vm_compute; reflexivity).
  destruct (WriteState _ _ _ _ _ _) as [r t]. cbn [fst snd] in *. subst r. by apply H.
Defined.

End Ho.
