(* ===== verification/Kerberos.v ===== *)
(** * Kerberos: the ticket manager and what selects its credentials
    ([internal/kerberos/kerberos.go], [spnego.go])

    A refresh runs in a goroutine of its own beside checks, the cleanup and the
    readers of the status.  It is written as a tree of its atomic actions
    ([Prog]): what it does under the lock, what it reads from the clock, the commands
    it starts and the answers it gets.  The machine runs these trees in any
    interleaving; [ok] is a weakest precondition on them. *)

From S2P Require Export Prelude GoStrings.
From S2P Require Import GoText.

Module Krb.

Definition CheckInterval : Duration := 300 * Second.
Definition RetryInterval : Duration := 60 * Second.
Definition RenewalMargin : Duration := 10 * Minute.

(** ** Commands *)

Record commandResult := mkResult { Stdout : string; Stderr : string; ExitCode : Z }.
Inductive CmdErr := DeadlineExceeded | ErrNotFound | OtherErr.
Definition Answer := result CmdErr commandResult.

Inductive Command := KinitPassword (password : string) | KinitR | KlistTest (flag : string) | Klist.

(** Only these write the credential cache. *)
Definition writesCache (c : Command) : bool := match c with KinitPassword _ | KinitR => true | _ => false end.

(** ** The manager; [file] says whether its credential cache exists *)

Record Manager := mkManager {
  CCacheName : string; IsHeimdal : bool; TicketExpiry : Time; NextCheck : Time; Backoff : Duration;
  refreshing : bool; closed : bool; file : bool }.

Definition New (ccache : string) (heimdal there : bool) : Manager := mkManager ccache heimdal zeroTime zeroTime 0 false false there.

Definition setNext (next : Time) (m : Manager) : Manager :=
  mkManager (CCacheName m) (IsHeimdal m) (TicketExpiry m) next (Backoff m) (refreshing m) (closed m) (file m).
Definition setExpiry (e : Time) (m : Manager) : Manager :=
  mkManager (CCacheName m) (IsHeimdal m) e (NextCheck m) (Backoff m) (refreshing m) (closed m) (file m).
Definition setBackoff (b : Duration) (m : Manager) : Manager :=
  mkManager (CCacheName m) (IsHeimdal m) (TicketExpiry m) (NextCheck m) b (refreshing m) (closed m) (file m).
Definition setRefreshing (r : bool) (m : Manager) : Manager :=
  mkManager (CCacheName m) (IsHeimdal m) (TicketExpiry m) (NextCheck m) (Backoff m) r (closed m) (file m).
Definition setClosed (m : Manager) : Manager :=
  mkManager (CCacheName m) (IsHeimdal m) (TicketExpiry m) (NextCheck m) (Backoff m) (refreshing m) true (file m).
Definition setFile (f : bool) (m : Manager) : Manager :=
  mkManager (CCacheName m) (IsHeimdal m) (TicketExpiry m) (NextCheck m) (Backoff m) (refreshing m) (closed m) f.

(** The cache is a file only by its name; the file may refuse to go. *)
Definition removeCCache (removable : bool) (m : Manager) : Manager :=
  if HasPrefix (CCacheName m) "FILE:" && removable then setFile false m else m.

Definition nextCheckFor (now expiry : Time) : Time :=
  let next := addT now CheckInterval in
  let renewAt := addT expiry (- RenewalMargin) in
  if after next renewAt then renewAt else next.

Definition commitExpiry (expiry : option Time) (now : Time) (m : Manager) : Manager :=
  match expiry with
  | None => setNext (addT now RetryInterval) (setExpiry zeroTime m)
  | Some e => setNext (nextCheckFor now e) (setExpiry e m)
  end.

(** ** The expiry in the output of [klist]

    Every repetition of the two patterns is followed by a character it does not match, so
    taking as much as it can is the only way a match can go. *)

Definition Re := string -> option (string * string).

(** [\s] of RE2. *)
Definition re_ws (c : ascii) : bool := in_chars (String (chr 9) (String (chr 10) (String (chr 12) (String (chr 13) " ")))) c.

Fixpoint upTo (p : ascii -> bool) (n : nat) (s : string) : string * string :=
  match n, s with
  | S n, String c s' => if p c then let '(a, b) := upTo p n s' in (String c a, b) else ("", s)
  | _, _ => ("", s)
  end.
Fixpoint spanOf (p : ascii -> bool) (s : string) : string * string :=
  match s with
  | String c s' => if p c then let '(a, b) := spanOf p s' in (String c a, b) else ("", s)
  | EmptyString => ("", "")
  end.

Definition times (p : ascii -> bool) (lo hi : nat) : Re := fun s =>
  let '(a, b) := upTo p hi s in if (String.length a <? lo)%nat then None else Some (a, b).
Definition some (p : ascii -> bool) : Re := fun s =>
  let '(a, b) := spanOf p s in if String.eqb a "" then None else Some (a, b).
Definition any (p : ascii -> bool) : Re := fun s => Some (spanOf p s).
Definition char (c : ascii) : Re := times (Ascii.eqb c) 1 1.
Definition andThen (p q : Re) : Re := fun s =>
  match p s with
  | None => None
  | Some (a, s) => match q s with None => None | Some (b, s) => Some (a +:+ b, s) end
  end.

Infix ">+>" := andThen (at level 60, right associativity).

Definition clock : Re := times is_digit 2 2 >+> char ":" >+> times is_digit 2 2 >+> char ":" >+> times is_digit 2 2.
Definition mitDate : Re :=
  times is_digit 1 2 >+> char "/" >+> times is_digit 1 2 >+> char "/" >+> times is_digit 2 4 >+> some re_ws >+> clock.
Definition heimdalDate : Re :=
  times is_upper 1 1 >+> times is_lower 2 2 >+> some re_ws >+> times is_digit 1 2 >+> some re_ws >+> clock >+> some re_ws >+> times is_digit 4 4.

(** One line: the start, the end (the group), the service. *)
Definition ticketLine (date : Re) (s : string) : option string :=
  '(_, s) ← (any re_ws >+> date >+> some re_ws) s;
  '(expiry, s) ← date s;
  '(_, s) ← some re_ws s;
  if HasPrefix s "krbtgt/" then Some expiry else None.

(** [FindStringSubmatch]: the first line start at which the pattern matches. *)
Fixpoint findTicket (date : Re) (bol : bool) (s : string) : option string :=
  match (if bol then ticketLine date s else None) with
  | Some e => Some e
  | None => match s with EmptyString => None | String c s' => findTicket date (Ascii.eqb c LF) s' end
  end.

(** [time.ParseInLocation], as far as the three layouts go; what the civil time is in
    the local zone is a parameter. *)
Record Civil := mkCivil { year : Z; month : Z; day : Z; hour : Z; minute : Z; second : Z }.

Definition getnum (fixed : bool) (s : string) : option (Z * string) :=
  match s with
  | String a s' =>
      if negb (is_digit a) then None
      else match s' with
           | String b s'' =>
               if is_digit b then Some (digit_val a * 10 + digit_val b, s'')
               else if fixed then None else Some (digit_val a, s')
           | EmptyString => if fixed then None else Some (digit_val a, s')
           end
  | EmptyString => None
  end.
Definition numBelow (fixed : bool) (bound : Z) (s : string) : option (Z * string) :=
  '(n, s) ← getnum fixed s; if n <? bound then Some (n, s) else None.
Definition skipSpaces (s : string) : option string :=
  match s with
  | String c _ => if Ascii.eqb c " " then Some (trim_left (Ascii.eqb " ") s) else None
  | EmptyString => Some s
  end.
Definition longYear (s : string) : option (Z * string) :=
  if slen s <? 4 then None else n ← digits_val 0 (str_take 4 s); Some (n, str_drop 4 s).
Definition shortYear (s : string) : option (Z * string) :=
  if slen s <? 2 then None
  else n ← digits_val 0 (str_take 2 s); Some (if 69 <=? n then n + 1900 else n + 2000, str_drop 2 s).
Definition shortMonthNames : list string := ["jan"; "feb"; "mar"; "apr"; "may"; "jun"; "jul"; "aug"; "sep"; "oct"; "nov"; "dec"].
Fixpoint lookupMonth (names : list string) (i : Z) (s : string) : option (Z * string) :=
  match names with
  | [] => None
  | n :: names => if String.eqb (ToLower (str_take 3 s)) n then Some (i, str_drop 3 s) else lookupMonth names (i + 1) s
  end.

Definition isLeap (y : Z) : bool := (y mod 4 =? 0) && (negb (y mod 100 =? 0) || (y mod 400 =? 0)).
Definition daysIn (m y : Z) : Z :=
  if m =? 2 then (if isLeap y then 29 else 28) else if existsb (Z.eqb m) [4; 6; 9; 11] then 30 else 31.

Definition parseClock (s : string) : option ((Z * Z * Z) * string) :=
  '(h, s) ← numBelow false 24 s; s ← CutPrefix s ":";
  '(m, s) ← numBelow true 60 s; s ← CutPrefix s ":";
  '(x, s) ← numBelow true 60 s; Some ((h, m, x), s).
Definition civil (y m d : Z) (hms : Z * Z * Z) (rest : string) : option Civil :=
  let '(h, mi, x) := hms in
  if String.eqb rest "" && (1 <=? m) && (m <=? 12) && (1 <=? d) && (d <=? daysIn m y) then Some (mkCivil y m d h mi x) else None.

(** Layouts ["1/2/2006 15:04:05"] and ["1/2/06 15:04:05"]. *)
Definition parseSlashed (yearOf : string -> option (Z * string)) (s : string) : option Civil :=
  '(m, s) ← getnum false s; s ← CutPrefix s "/";
  '(d, s) ← getnum false s; s ← CutPrefix s "/";
  '(y, s) ← yearOf s; s ← skipSpaces s;
  '(hms, s) ← parseClock s; civil y m d hms s.
(** Layout ["Jan 2 15:04:05 2006"]. *)
Definition parseNamed (s : string) : option Civil :=
  '(m, s) ← lookupMonth shortMonthNames 1 s; s ← skipSpaces s;
  '(d, s) ← getnum false s; s ← skipSpaces s;
  '(hms, s) ← parseClock s; s ← skipSpaces s;
  '(y, s) ← longYear s; civil y m d hms s.

Definition parseMIT (output : string) : option Civil :=
  e ← findTicket mitDate true output;
  match parseSlashed longYear e with Some c => Some c | None => parseSlashed shortYear e end.
Definition parseHeimdal (output : string) : option Civil := e ← findTicket heimdalDate true output; parseNamed e.
Definition ParseExpiry (output : string) (heimdal : bool) : option Civil :=
  if heimdal then parseHeimdal output else parseMIT output.

Definition DetectHeimdal (r : Answer) : bool :=
  match r with Err _ => false | Ok r => Contains (ToLower (Stdout r +:+ Stderr r)) "heimdal" end.

(** ** What a goroutine does, action by action *)

Inductive Prog (A : Type) : Type :=
| Ret (a : A)
| Clock (k : Time -> Prog A)                              (* time.Now *)
| Locked (f : Manager -> Manager) (k : Manager -> Prog A)  (* the manager before [f] *)
| Password (k : option string -> Prog A)                   (* PasswordFunc *)
| Begin (c : Command) (p : Prog A)
| Await (c : Command) (k : Answer -> Prog A).
Arguments Ret {A} a.
Arguments Clock {A} k.
Arguments Locked {A} f k.
Arguments Password {A} k.
Arguments Begin {A} c p.
Arguments Await {A} c k.

#[export] Instance Prog_ret : MRet Prog := @Ret.
#[export] Instance Prog_bind : MBind Prog := fun A B k =>
  fix bind p := match p with
                | Ret a => k a
                | Clock q => Clock (fun t => bind (q t))
                | Locked f q => Locked f (fun m => bind (q m))
                | Password q => Password (fun p => bind (q p))
                | Begin c p => Begin c (bind p)
                | Await c q => Await c (fun r => bind (q r))
                end.

Definition Run (c : Command) : Prog Answer := Begin c (Await c Ret).
Definition change (f : Manager -> Manager) : Prog unit := Locked f (fun _ => Ret tt).
Definition read {A} (f : Manager -> A) : Prog A := Locked (fun m => m) (fun m => Ret (f m)).
Definition Now : Prog Time := Clock Ret.

Section Methods.
(** [time.Date] in the local zone, and whether the cache's file can be removed. *)
Context (localTime : Civil -> Time) (removable : bool).

Definition RunKlist : Prog (option string) :=
  r ← Run Klist;
  mret match r with Ok r => if ExitCode r =? 0 then Some (Stdout r) else None | Err _ => None end.

Definition KlistParseValid : Prog bool :=
  out ← RunKlist; mret match out with Some o => Contains (ToLower o) "krbtgt" | None => false end.

Definition ParseAndSetExpiry (output : string) : Prog unit :=
  heimdal ← read IsHeimdal; now ← Now; change (commitExpiry (localTime <$> ParseExpiry output heimdal) now).

Definition UpdateExpiry : Prog unit :=
  out ← RunKlist;
  match out with
  | None => now ← Now; change (commitExpiry None now)
  | Some output => ParseAndSetExpiry output
  end.

Definition permanent : list string := ["expired"; "revoked"; "preauthentication failed"; "password incorrect"; "not found"; "unknown"; "skew"].

(** The backoff a failed attempt leaves; [None] after a success. *)
Definition failure (r : Answer) : option Duration :=
  match r with
  | Err DeadlineExceeded => Some RetryInterval
  | Err ErrNotFound => Some CheckInterval
  | Err OtherErr => Some RetryInterval
  | Ok r => if ExitCode r =? 0 then None
            else if existsb (Contains (ToLower (Stderr r))) permanent then Some CheckInterval else Some RetryInterval
  end.

Definition KinitWithPassword : Prog bool :=
  password ← Password Ret;
  match password with
  | None => mret false
  | Some password =>
      r ← Run (KinitPassword password);
      match failure r with
      | Some b => _ ← change (setBackoff b); mret false
      | None => _ ← change (setBackoff 0); _ ← UpdateExpiry; mret true
      end
  end.

Definition KinitRenew : Prog bool :=
  r ← Run KinitR;
  match r with
  | Ok r => if ExitCode r =? 0 then _ ← UpdateExpiry; mret true else mret false
  | Err _ => mret false
  end.

Definition KlistValid : Prog bool :=
  heimdal ← read IsHeimdal;
  r ← Run (KlistTest (if (heimdal : bool) then "--test" else "-s"));
  match r with
  | Err _ => mret false
  | Ok r => let stderr := ToLower (Stderr r) in
            if Contains stderr "unrecognized" || Contains stderr "unknown" || Contains stderr "illegal" then KlistParseValid
            else mret (ExitCode r =? 0)
  end.

Definition consumeBackoff (now : Time) : Prog bool :=
  Locked (fun m => if Backoff m <=? 0 then m else setBackoff 0 (setNext (addT now (Backoff m)) m))
    (fun m => Ret (negb (Backoff m <=? 0))).

(** The body of [refresh], and its deferred end. *)
Definition acquire (force : bool) (now : Time) : Prog unit :=
  consumed ← (if (force : bool) then mret false else consumeBackoff now);
  if (consumed : bool) then mret tt else _ ← KinitWithPassword; mret tt.
Definition renew (force : bool) (now expiry : Time) : Prog unit :=
  if negb (isZero expiry) && before now expiry then
    renewed ← KinitRenew; if (renewed : bool) then mret tt else acquire force now
  else acquire force now.
Definition refreshBody (force : bool) : Prog unit :=
  now ← Now;
  expiry ← read TicketExpiry;
  if negb (isZero expiry) && before now (addT expiry (- RenewalMargin)) then
    valid ← KlistValid; if (valid : bool) then change (setNext (nextCheckFor now expiry)) else renew force now expiry
  else renew force now expiry.

Definition refreshEnd : Prog unit :=
  change (fun m => setRefreshing false (if closed m then removeCCache removable m else m)).

Definition refresh (force : bool) : Prog unit := _ ← refreshBody force; refreshEnd.

(** ** The manager with its goroutines *)

(** What can be seen from outside, with its time. *)
Inductive Obs := Checked (force : bool) | Began (c : Command) | Ended (c : Command) (r : Answer).

Record Sys := mkSys { manager : Manager; tasks : list (Prog unit); cleaning : nat; now : Time; trace : list (Time * Obs) }.
Definition boot (m : Manager) (t : Time) : Sys := mkSys m [] 0 t [].

(** One action of a goroutine at the time [t]: what is left of it, and what is seen. *)
Inductive Input := Nothing | GivenPassword (p : option string) | Answered (r : Answer) (there : bool).

Definition act (t : Time) (i : Input) (p : Prog unit) (m : Manager) : option (Prog unit * Manager * list Obs) :=
  match p, i with
  | Ret _, _ => None
  | Clock k, Nothing => Some (k t, m, [])
  | Locked f k, Nothing => Some (k m, f m, [])
  | Password k, GivenPassword p => Some (k p, m, [])
  | Begin c p, Nothing => Some (p, m, [Began c])
  | Await c k, Answered r there => Some (k r, if writesCache c then setFile there m else m, [Ended c r])
  | _, _ => None
  end.

Definition running (p : Prog unit) : list (Prog unit) := match p with Ret _ => [] | _ => [p] end.

(** A check reads the clock before it takes the lock. *)
Inductive Ev := ECheck (force : bool) (at_ : Time) | EAct (i : nat) (inp : Input) | ECleanup | ERemove.

(** [Check], one goroutine's action, and the two halves of [Cleanup]. *)
Definition step (s : Sys) (t : Time) (e : Ev) : option Sys :=
  if t <? now s then None
  else
    let m := manager s in
    match e with
    | ECheck force at_ =>
        let seen := trace s ++ [(t, Checked force)] in
        if t <? at_ then None
        else if closed m || (negb force && negb (isZero (NextCheck m)) && before at_ (NextCheck m)) || refreshing m
        then Some (mkSys m (tasks s) (cleaning s) t seen)
        else Some (mkSys (setRefreshing true m) (tasks s ++ [refresh force]) (cleaning s) t seen)
    | EAct i inp =>
        p ← tasks s !! i;
        '(p, m, seen) ← act t inp p m;
        Some (mkSys m (take i (tasks s) ++ running p ++ drop (S i) (tasks s)) (cleaning s) t (trace s ++ ((t,.) <$> seen)))
    | ECleanup => Some (mkSys (setClosed m) (tasks s) (S (cleaning s)) t (trace s))
    | ERemove => match cleaning s with
                 | O => None
                 | S n => Some (mkSys (removeCCache removable m) (tasks s) n t (trace s))
                 end
    end.

Fixpoint runEvs (s : Sys) (evs : list (Time * Ev)) : option Sys :=
  match evs with [] => Some s | (t, e) :: evs => s ← step s t e; runEvs s evs end.

End Methods.

(** ** What selects the credentials: [spnego.go] *)

Inductive CacheErr := NotReady | NotCreated | TimedOut.
(** Each look of the loop: the file, the refresh, the deadline. *)
Fixpoint waitForInitialCCache (refreshing_ : bool) (looks : list (bool * bool * bool)) (first : bool) : option (result CacheErr unit) :=
  if first then Some (Ok tt)
  else if negb refreshing_ then Some (Err NotReady)
  else (fix go looks := match looks with
        | [] => None
        | (there, refreshing_, late) :: looks =>
            if (there : bool) then Some (Ok tt)
            else if negb refreshing_ then Some (Err NotCreated)
            else if (late : bool) then Some (Err TimedOut) else go looks
        end) looks.

Inductive PathErr := NoFileCache | EmptyPath.
Definition fileCCachePath (name : string) : result PathErr string :=
  match CutPrefix name "FILE:" with
  | None => Err NoFileCache
  | Some path => let path := TrimSpace path in if String.eqb path "" then Err EmptyPath else Ok path
  end.

(** [listSep] is [os.PathListSeparator]; [isFile] an [os.Stat] that finds no directory. *)
Definition resolveKRB5Config (listSep : ascii) (krb5Config : string) (isFile : string -> bool) : option string :=
  let raw := TrimSpace krb5Config in
  let usable path := negb (String.eqb path "") && isFile path in
  if negb (String.eqb raw "") then head (bfilter usable (TrimSpace <$> Split raw listSep))
  else head (bfilter isFile ["/etc/krb5.conf"; "/Library/Preferences/edu.mit.Kerberos"]).

Definition normalizeProxyHost (proxyHost : string) : string :=
  let host := TrimSpace proxyHost in
  match (if HasPrefix host "[" then Cut host "]" else None) with
  | Some (inside, _) => str_drop 1 inside
  | None =>
      let host := match Cut host ":" with
                  | Some (h, _) => if negb (String.eqb h "") && (CountChar host ":" =? 1) then h else host
                  | None => host
                  end in
      Trim host "[]"
  end.

(** [SPNEGOToken]: the library loads the cache and the configuration, makes a client
    and a token for a principal; each may fail. *)
Inductive TokenErr := ENoManager | ENoHost | ECachePath (e : PathErr) | EWait (e : CacheErr) | ELoadCache | ENoConfig | ELoadConfig | EContext | EEmptyToken.
Section Token.
Context {Cache Conf Tok : Type} (loadCCache : string -> option Cache) (loadConfig : string -> option Conf)
  (initContext : Cache -> Conf -> string -> option Tok) (emptyToken : Tok -> bool).

Definition SPNEGOToken (manager : bool) (ccacheName proxyHost : string) (waited : string -> result CacheErr unit) (config : option string)
  : result TokenErr Tok :=
  if negb manager then Err ENoManager
  else
    let host := normalizeProxyHost proxyHost in
    if String.eqb host "" then Err ENoHost
    else match fileCCachePath ccacheName with
         | Err e => Err (ECachePath e)
         | Ok path =>
             match waited path with
             | Err e => Err (EWait e)
             | Ok _ =>
                 match loadCCache path, config with
                 | None, _ => Err ELoadCache
                 | Some _, None => Err ENoConfig
                 | Some cache, Some configPath =>
                     match loadConfig configPath with
                     | None => Err ELoadConfig
                     | Some conf =>
                         match initContext cache conf ("HTTP/" +:+ host) with
                         | None => Err EContext
                         | Some raw => if emptyToken raw then Err EEmptyToken else Ok raw
                         end
                     end
                 end
             end
         end.
End Token.

(** ** A logic for the goroutine *)

(** Whether a change leaves the goroutine's own bookkeeping alone. *)
Definition flags (m : Manager) : bool * bool * bool * string := (refreshing m, closed m, file m, CCacheName m).
Fixpoint tame {A} (p : Prog A) : Prop :=
  match p with
  | Ret _ => True
  | Clock k => forall t, tame (k t)
  | Locked f k => (forall m, flags (f m) = flags m) /\ forall m, tame (k m)
  | Password k => forall x, tame (k x)
  | Begin _ p => tame p
  | Await _ k => forall r, tame (k r)
  end.

(** What only the refresh itself changes: a cleanup beside it leaves these. *)
Definition ticket (m : Manager) := (TicketExpiry m, NextCheck m, Backoff m).

Section Logic.
(** A ghost state kept from what is seen, what is safe to start, and what holds when no refresh runs. *)
Context {G : Type} (gle : G -> G -> Prop) (gstep : G -> Time * Obs -> G) (safe : Command -> Time -> G -> Prop).

Fixpoint ok {A} (post : A -> Manager -> Time -> G -> Prop) (p : Prog A) (m : Manager) (t : Time) (g : G) : Prop :=
  match p with
  | Ret a => post a m t g
  | Clock k => forall t', t <= t' -> ok post (k t') m t' g
  | Locked f k => forall t' m', t <= t' -> ticket m' = ticket m -> ok post (k m') (f m') t' g
  | Password k => forall t' x, t <= t' -> ok post (k x) m t' g
  | Begin c p => forall t', t <= t' -> safe c t' g /\ ok post p m t' (gstep g (t', Began c))
  | Await c k => forall t' r, t <= t' -> ok post (k r) m t' (gstep g (t', Ended c r))
  end.

Lemma ok_bind {A B} (post : B -> Manager -> Time -> G -> Prop) (p : Prog A) (k : A -> Prog B) m t g :
  ok (fun a m t g => ok post (k a) m t g) p m t g -> ok post (p ≫= k) m t g.
Proof.
  revert m t g. induction p as [a|q IH|f q IH|q IH|c p IH|c q IH]; intros m t g H; [exact H|..]; cbn in *; intros.
  - by apply IH, H.
  - by apply IH, H.
  - by apply IH, H.
  - destruct (H t') as [H1 H2]; [done|]. split; [done|by apply IH].
  - by apply IH, H.
Qed.

Lemma ok_ret {A} (post : A -> Manager -> Time -> G -> Prop) a m t g : post a m t g -> ok post (mret a) m t g.
Proof. done. Qed.
Lemma ok_Now (post : Time -> Manager -> Time -> G -> Prop) m t g : (forall t', t <= t' -> post t' m t' g) -> ok post Now m t g.
Proof. done. Qed.
Lemma ok_change (post : unit -> Manager -> Time -> G -> Prop) f m t g :
  (forall t' m', t <= t' -> ticket m' = ticket m -> post tt (f m') t' g) -> ok post (change f) m t g.
Proof. done. Qed.
Lemma ok_read {A} (post : A -> Manager -> Time -> G -> Prop) (f : Manager -> A) m t g :
  (forall t' m', t <= t' -> ticket m' = ticket m -> post (f m') m' t' g) -> ok post (read f) m t g.
Proof. done. Qed.
Lemma ok_Password (post : option string -> Manager -> Time -> G -> Prop) m t g :
  (forall t' x, t <= t' -> post x m t' g) -> ok post (Password Ret) m t g.
Proof. done. Qed.
Lemma ok_Run (post : Answer -> Manager -> Time -> G -> Prop) c m t g :
  (forall t1 t2 r, t <= t1 -> t1 <= t2 -> safe c t1 g /\ post r m t2 (gstep (gstep g (t1, Began c)) (t2, Ended c r))) ->
  ok post (Run c) m t g.
Proof. intros H. cbn. intros t1 H1. split; [by apply (H t1 t1 (Err OtherErr))|]. intros t2 r H2. by apply H. Qed.

Hypothesis gle_step : forall a b x, gle a b -> gle (gstep a x) (gstep b x).
Hypothesis safe_le : forall c t a b, gle a b -> safe c t b -> safe c t a.

Definition closedUnder {A} (post : A -> Manager -> Time -> G -> Prop) : Prop :=
  forall x m m' t t' a b, ticket m' = ticket m -> t <= t' -> gle a b -> post x m t b -> post x m' t' a.

Lemma ok_mono {A} (post : A -> Manager -> Time -> G -> Prop) (p : Prog A) m m' t t' a b :
  closedUnder post -> ticket m' = ticket m -> t <= t' -> gle a b -> ok post p m t b -> ok post p m' t' a.
Proof.
  intros Hpost. revert m m' t t' a b.
  induction p as [x|q IH|f q IH|q IH|c p IH|c q IH]; cbn; intros m m' t t' a b Hm Ht Hg H; [by eapply Hpost|..]; intros.
  - apply (IH _ m m' t'0 t'0 a b); [done|lia|done|apply H; lia].
  - apply (IH _ (f m'0) (f m'0) t'0 t'0 a b); [done|lia|done|apply H; [lia|congruence]].
  - apply (IH _ m m' t'0 t'0 a b); [done|lia|done|apply H; lia].
  - destruct (H t'0) as [H1 H2]; [lia|]. split; [by eapply safe_le|].
    apply (IH m m' t'0 t'0 _ (gstep b (t'0, Began c))); [done|lia|by apply gle_step|done].
  - apply (IH _ m m' t'0 t'0 _ (gstep b (t'0, Ended c r))); [done|lia|by apply gle_step|apply H; lia].
Qed.
End Logic.

Lemma tame_bind {A B} (p : Prog A) (k : A -> Prog B) : tame p -> (forall a, tame (k a)) -> tame (p ≫= k).
Proof. intros Hp Hk. induction p; cbn in *; naive_solver. Qed.

Section Facts.
Context (localTime : Civil -> Time) (removable : bool).

Ltac tame := repeat first [done | apply tame_bind; [|intros] | case_match | progress cbn | split | intros].

Lemma tame_UpdateExpiry : tame (UpdateExpiry localTime).
Proof. unfold UpdateExpiry, RunKlist, ParseAndSetExpiry. tame. all: unfold commitExpiry; case_match; done. Qed.

Lemma tame_body force : tame (refreshBody localTime force).
Proof.
  pose proof tame_UpdateExpiry.
  unfold refreshBody, renew, acquire, KlistValid, KinitRenew, KinitWithPassword, KlistParseValid, RunKlist, consumeBackoff. tame.
Qed.

(** What an action of a tame goroutine with its deferred end can be. *)
Lemma act_tame t i p m q m' o :
  tame p -> act t i (_ ← p; refreshEnd removable) m = Some (q, m', o) ->
  (p = Ret tt /\ q = Ret tt /\ o = [] /\ m' = setRefreshing false (if closed m then removeCCache removable m else m)) \/
  exists p', act t i p m = Some (p', m', o) /\ q = (_ ← p'; refreshEnd removable) /\ tame p' /\
    refreshing m' = refreshing m /\ closed m' = closed m /\ CCacheName m' = CCacheName m.
Proof.
  intros Ht H. destruct p as [[]|k|f k|k|c p|c k]; cbn in H; destruct i; try done; injection H as <- <- <-; [by left|..]; right; cbn in *;
    eexists; split_and!; try reflexivity; try apply Ht; try done.
  all: try (by destruct (writesCache c)).
  all: destruct Ht as [Hf _]; specialize (Hf m); unfold flags in Hf; congruence.
Qed.

Lemma running_bind (p : Prog unit) : running (_ ← p; refreshEnd removable) = [_ ← p; refreshEnd removable].
Proof. by destruct p as [[]| | | | |]. Qed.

(** One refresh at a time; what is closed keeps no cache once nothing is under way. *)
Definition flight (s : Sys) : Prop :=
  (tasks s = [] /\ refreshing (manager s) = false /\
     (removable = true -> HasPrefix (CCacheName (manager s)) "FILE:" = true -> closed (manager s) = true ->
        cleaning s <> 0%nat \/ file (manager s) = false)) \/
  exists p : Prog unit, tame p /\ tasks s = [_ ← p; refreshEnd removable] /\ refreshing (manager s) = true.

Lemma removeCCache_flags m :
  refreshing (removeCCache removable m) = refreshing m /\ closed (removeCCache removable m) = closed m /\
  CCacheName (removeCCache removable m) = CCacheName m /\ ticket (removeCCache removable m) = ticket m /\
  (removable = true -> HasPrefix (CCacheName m) "FILE:" = true -> file (removeCCache removable m) = false).
Proof. unfold removeCCache. destruct (HasPrefix _ _ && removable) eqn:E; split_and!; try done. intros Hr Hp. by rewrite Hr, Hp in E. Qed.

Lemma flight_step s t e s' : flight s -> step localTime removable s t e = Some s' -> flight s'.
Proof.
  intros Hs H. unfold step in H. destruct (t <? now s); [done|]. destruct e as [force at_|i inp| |].
  - destruct (t <? at_); [done|]. destruct (closed (manager s) || _ || _) eqn:E.
    + injection H as <-. exact Hs.
    + injection H as <-. to_prop. destruct Hs as [(-> & _)|(p & _ & _ & Hr)]; [|congruence]. right.
      exists (refreshBody localTime force). split; [apply tame_body|]. done.
  - destruct (tasks s !! i) as [p|] eqn:Ei; [|done]. simpl in H.
    destruct (act t inp p (manager s)) as [[[q m'] o]|] eqn:Ea; [|done]. injection H as <-.
    destruct Hs as [(Hn & _)|(p0 & Ht & Hp & Hr)]; [by rewrite Hn in Ei|].
    rewrite Hp in Ei. destruct i as [|i]; [|by destruct i]. injection Ei as <-. rewrite Hp. cbn [take drop app].
    destruct (act_tame _ _ _ _ _ _ _ Ht Ea) as [(_ & -> & -> & ->)|(p' & _ & -> & Ht' & Hr' & _)].
    + left. destruct (removeCCache_flags (manager s)) as (_ & _ & Hn & _ & Hf). split_and!; [done|by destruct (closed _)|].
      cbn. intros Hrm. destruct (closed (manager s)) eqn:Ec; cbn; [|by rewrite Ec].
      intros Hpre _. right. rewrite Hn in Hpre. by apply Hf.
    + right. exists p'. rewrite running_bind, app_nil_r. split_and!; [done|done|by rewrite <- Hr].
  - injection H as <-. destruct Hs as [(Hn & Hr & Hf)|Hp]; [left; split_and!; [done..|by left]|by right].
  - destruct (cleaning s) as [|n] eqn:Ec; [done|]. injection H as <-.
    destruct (removeCCache_flags (manager s)) as (F1 & F2 & F3 & _ & F5).
    destruct Hs as [(Hn & Hr & Hf)|(p & Ht & Hp & Hr)].
    + left. cbn. rewrite F1, F3. split_and!; [done|done|]. intros Hrm Hpre _. right. by apply F5.
    + right. exists p. cbn. by rewrite F1.
Qed.

Lemma runEvs_inv (I : Sys -> Prop) s evs s' :
  (forall s t e s', I s -> step localTime removable s t e = Some s' -> I s') -> I s -> runEvs localTime removable s evs = Some s' -> I s'.
Proof.
  intros Hstep. revert s. induction evs as [|[t e] evs IH]; simpl; intros s Hs H; [congruence|].
  destruct (step localTime removable s t e) as [s1|] eqn:E; [|done]. eapply IH; [|exact H]. by eapply Hstep.
Qed.

(** C10: in every interleaving of checks, refreshes and cleanups at most one refresh
    runs and the status says so; and once the manager is closed, no refresh runs
    and no cleanup is under way, its credential cache is gone, even if a refresh
    wrote it after the cleanup began. *)
Theorem cache_does_not_outlive m t evs s :
  refreshing m = false -> closed m = false -> runEvs localTime removable (boot m t) evs = Some s ->
  (length (tasks s) <= 1)%nat /\ refreshing (manager s) = negb (bool_decide (length (tasks s) = 0%nat)) /\
  (removable = true -> HasPrefix (CCacheName (manager s)) "FILE:" = true -> closed (manager s) = true ->
     refreshing (manager s) = false -> cleaning s = 0%nat -> file (manager s) = false).
Proof.
  intros Hr Hc H. assert (flight s) as [(Hn & Hr' & Hf)|(p & _ & Hp & Hr')].
  { eapply (runEvs_inv flight); [apply flight_step| |exact H]. left. split_and!; [done..|]. cbn. congruence. }
  - rewrite Hn, Hr'. split_and!; [simpl; lia|done|]. intros H1 H2 H3 _ H4. by destruct (Hf H1 H2 H3).
  - rewrite Hp, Hr'. split_and!; [simpl; lia|done|done].
Qed.

(** *** From the logic to the machine *)

Lemma snoc_split {A} (l a b : list A) x y : l ++ [x] = a ++ y :: b -> (b = [] /\ l = a /\ x = y) \/ exists b', b = b' ++ [x] /\ l = a ++ y :: b'.
Proof.
  destruct b as [|z b' _] using rev_ind; intros H.
  - left. by apply app_inj_tail in H as [-> ->].
  - right. exists b'. rewrite app_comm_cons, app_assoc in H. by apply app_inj_tail in H as [-> ->].
Qed.

Section Ghost.
Context {G : Type} (gle : G -> G -> Prop) (gstep : G -> Time * Obs -> G) (safe : Command -> Time -> G -> Prop)
  (K : Manager -> Time -> G -> Prop) (g0 : G).
Hypothesis gle_refl : forall a, gle a a.
Hypothesis gle_step : forall a b x, gle a b -> gle (gstep a x) (gstep b x).
Hypothesis gle_checked : forall g t f, gle (gstep g (t, Checked f)) g.
Hypothesis safe_le : forall c t a b, gle a b -> safe c t b -> safe c t a.
Hypothesis K_le : closedUnder gle (fun _ : unit => K).
Hypothesis starts : forall force at_ m t g, K m t g -> at_ <= t -> negb force && negb (isZero (NextCheck m)) && before at_ (NextCheck m) = false ->
  ok gstep safe (fun _ => K) (refreshBody localTime force) m t (gstep g (t, Checked force)).

Definition ghost (tr : list (Time * Obs)) : G := fold_left gstep tr g0.

Definition safeTrace (tr : list (Time * Obs)) : Prop := forall a t c b, tr = a ++ (t, Began c) :: b -> safe c t (ghost a).

Definition ghostInv (s : Sys) : Prop :=
  ((tasks s = [] /\ refreshing (manager s) = false /\ K (manager s) (now s) (ghost (trace s))) \/
   exists p : Prog unit, tame p /\ tasks s = [_ ← p; refreshEnd removable] /\ refreshing (manager s) = true /\
     ok gstep safe (fun _ => K) p (manager s) (now s) (ghost (trace s))) /\
  safeTrace (trace s).

Lemma safe_snoc tr x : safeTrace tr -> (forall t c, x = (t, Began c) -> safe c t (ghost tr)) -> safeTrace (tr ++ [x]).
Proof.
  intros H Hx a t c b E. destruct (snoc_split _ _ _ _ _ E) as [(-> & -> & ->)|(b' & -> & ->)]; [by apply Hx|by eapply H].
Qed.

Lemma ok_le (p : Prog unit) m m' t t' a b :
  ticket m' = ticket m -> t <= t' -> gle a b -> ok gstep safe (fun _ => K) p m t b -> ok gstep safe (fun _ => K) p m' t' a.
Proof. by apply ok_mono. Qed.

Lemma act_ok p t t' i m g q m' o tr :
  act t' i p m = Some (q, m', o) -> t <= t' -> ok gstep safe (fun _ => K) p m t g -> ghost tr = g -> safeTrace tr ->
  ok gstep safe (fun _ => K) q m' t' (ghost (tr ++ ((t',.) <$> o))) /\ safeTrace (tr ++ ((t',.) <$> o)).
Proof.
  intros Ha Ht H Hg Hs. destruct p as [a|k|f k|k|c p|c k]; cbn in Ha; destruct i; try done; injection Ha as <- <- <-;
    cbn [fmap list_fmap]; unfold ghost in *; rewrite ?app_nil_r, ?fold_left_app, Hg; cbn [fold_left]; cbn in H.
  - split; [by apply H|done].
  - split; [by apply H|done].
  - split; [by apply H|done].
  - destruct (H t' Ht) as [H1 H2]. split; [done|]. apply safe_snoc; [done|]. intros ? ? [= <- <-]. unfold ghost. by rewrite Hg.
  - split; [|by apply safe_snoc]. eapply ok_le; [|apply Z.le_refl|apply gle_refl|apply (H t' r Ht)]. by destruct (writesCache c).
Qed.

Lemma ghost_step s t e s' : ghostInv s -> step localTime removable s t e = Some s' -> ghostInv s'.
Proof.
  intros [Hs Htr] H. unfold step in H. destruct (t <? now s) eqn:Et; [done|]. to_prop.
  destruct e as [force at_|i inp| |].
  - destruct (t <? at_) eqn:Eat; [done|]. to_prop. assert (ghost (trace s ++ [(t, Checked force)]) = gstep (ghost (trace s)) (t, Checked force)) as Hg by (unfold ghost; by rewrite fold_left_app).
    assert (safeTrace (trace s ++ [(t, Checked force)])) as Htr' by by apply safe_snoc.
    destruct (closed (manager s) || _ || _) eqn:E; injection H as <-; unfold ghostInv; cbn [manager tasks cleaning now trace]; rewrite Hg.
    + split; [|done]. destruct Hs as [(Hn & Hr & HK)|(p & Ht & Hp & Hr & Hok)].
      * left. split_and!; [done..|]. eapply (K_le tt); [..|exact HK]; [done|lia|apply gle_checked].
      * right. exists p. split_and!; [done..|]. eapply ok_le; [..|exact Hok]; [done|lia|apply gle_checked].
    + apply orb_false_iff in E as [[_ E]%orb_false_iff Er]. destruct Hs as [(-> & _ & HK)|(p & _ & _ & Hr & _)]; [|congruence]. split; [|done]. right.
      exists (refreshBody localTime force). split_and!; [apply tame_body|done|done|].
      eapply ok_le; [| |apply gle_refl|apply (starts force at_ (manager s) t); [|exact Eat|exact E]]; [done|lia|].
      eapply (K_le tt); [..|exact HK]; [done|lia|apply gle_refl].
  - destruct (tasks s !! i) as [p|] eqn:Ei; [|done]. simpl in H.
    destruct (act t inp p (manager s)) as [[[q m'] o]|] eqn:Ea; [|done]. injection H as <-.
    destruct Hs as [(Hn & _)|(p0 & Ht & Hp & Hr & Hok)]; [by rewrite Hn in Ei|].
    rewrite Hp in Ei. destruct i as [|i]; [|by destruct i]. injection Ei as <-. rewrite Hp. cbn [take drop app].
    destruct (act_tame _ _ _ _ _ _ _ Ht Ea) as [(-> & -> & -> & ->)|(p' & Ha & -> & Ht' & Hr' & _)].
    + unfold ghostInv. cbn [manager tasks cleaning now trace fmap list_fmap]. rewrite ?app_nil_r. split; [|exact Htr]. left. split_and!; [reflexivity|reflexivity|].
      destruct (removeCCache_flags (manager s)) as (_ & _ & _ & F & _).
      eapply (K_le tt); [| |apply gle_refl|exact Hok]; [destruct (closed (manager s)); [exact F|done]|lia].
    + destruct (act_ok p0 (now s) t inp _ _ _ _ _ (trace s) Ha Et Hok eq_refl Htr) as [H1 H2].
      split; [|exact H2]. right. exists p'. rewrite running_bind, app_nil_r. split_and!; [done|done|by rewrite <- Hr|done].
  - injection H as <-. split; [|done]. destruct Hs as [(Hn & Hr & HK)|(p & Ht & Hp & Hr & Hok)].
    + left. split_and!; [done..|]. eapply (K_le tt); [..|exact HK]; [done|done|apply gle_refl].
    + right. exists p. split_and!; [done..|]. eapply ok_le; [..|exact Hok]; [done|done|apply gle_refl].
  - destruct (cleaning s) as [|n] eqn:Ec; [done|]. injection H as <-. split; [|done].
    destruct (removeCCache_flags (manager s)) as (F1 & F2 & F3 & F4 & F5). unfold ghostInv. cbn [manager tasks cleaning now trace]. rewrite F1.
    destruct Hs as [(Hn & Hr & HK)|(p & Ht & Hp & Hr & Hok)].
    + left. split_and!; [done..|]. eapply (K_le tt); [..|exact HK]; [done|done|apply gle_refl].
    + right. exists p. split_and!; [done..|]. eapply ok_le; [..|exact Hok]; [done|done|apply gle_refl].
Qed.

Lemma ghost_run m t evs s :
  refreshing m = false -> K m t g0 -> runEvs localTime removable (boot m t) evs = Some s -> ghostInv s.
Proof.
  intros Hr HK H. eapply (runEvs_inv ghostInv); [apply ghost_step| |exact H]. split; [left; done|]. intros a ? ? b E. by destruct a.
Qed.
End Ghost.

(** *** The instance: when the next password may be tried *)

(** The time before which no unforced refresh may send the password again. *)
Definition deadlineStep (g : Time) (x : Time * Obs) : Time :=
  match x with
  | (t, Ended (KinitPassword _) r) => match failure r with Some b => Z.max g (addT t b) | None => g end
  | (_, Checked true) => Z.min g 0
  | _ => g
  end.
Definition mayBegin (c : Command) (t g : Time) : Prop := match c with KinitPassword _ => g <= t | _ => True end.

Definition pacing (m : Manager) (t g : Time) : Prop :=
  0 <= t /\ NextCheck m <= t + CheckInterval /\ 0 <= Backoff m <= CheckInterval /\
  (g <= t \/ 0 < Backoff m /\ g <= t + Backoff m \/ g <= NextCheck m).

Notation okT := (ok deadlineStep mayBegin).

Lemma failure_bounds r b : failure r = Some b -> RetryInterval <= b <= CheckInterval.
Proof.
  unfold failure. destruct r as [r|[]]; [|intros [= <-]; unfold RetryInterval, CheckInterval, Second; lia..].
  destruct (ExitCode r =? 0); [done|]. destruct (existsb _ _); intros [= <-]; unfold RetryInterval, CheckInterval, Second; lia.
Qed.

Lemma nextCheckFor_le now e : nextCheckFor now e <= now + CheckInterval /\ nextCheckFor now e <= e - RenewalMargin.
Proof. unfold nextCheckFor, after, addT. case_if; to_prop; lia. Qed.

(** After a command that sends no password, only the expiry and the time of the next check are new. *)
Definition sameBackoff (m m' : Manager) (t' : Time) : Prop := Backoff m' = Backoff m /\ NextCheck m' <= t' + CheckInterval.

Lemma ticket_fields m m' : ticket m' = ticket m -> TicketExpiry m' = TicketExpiry m /\ NextCheck m' = NextCheck m /\ Backoff m' = Backoff m.
Proof. unfold ticket. intros. split_and!; congruence. Qed.

Lemma commit_spec e now m : Backoff (commitExpiry e now m) = Backoff m /\ NextCheck (commitExpiry e now m) <= now + CheckInterval.
Proof.
  destruct e as [e|]; cbn; (split; [done|]); [apply nextCheckFor_le|]. unfold addT, RetryInterval, CheckInterval, Second. lia.
Qed.

Lemma ok_commit (post : unit -> Manager -> Time -> Time -> Prop) e m t g :
  (forall m' t', t <= t' -> sameBackoff m m' t' -> post tt m' t' g) ->
  okT post (now ← Now; change (commitExpiry e now)) m t g.
Proof.
  intros H. apply ok_bind, ok_Now. intros now Hnow. apply ok_change. intros t' m' Ht Hm.
  destruct (ticket_fields _ _ Hm) as (_ & _ & HB). destruct (commit_spec e now m') as [H1 H2]. apply H; [lia|split; [congruence|lia]].
Qed.

Lemma ok_UpdateExpiry (post : unit -> Manager -> Time -> Time -> Prop) m t g :
  (forall m' t', t <= t' -> sameBackoff m m' t' -> post tt m' t' g) -> okT post (UpdateExpiry localTime) m t g.
Proof.
  intros H. unfold UpdateExpiry, RunKlist. apply ok_bind, ok_bind, ok_Run. intros t1 t2 r H1 H2. split; [done|]. apply ok_ret.
  destruct (match r with Ok r => _ | Err _ => _ end) as [out|].
  - apply ok_bind, ok_read. intros t3 m3 H3 Hm3. destruct (ticket_fields _ _ Hm3) as (_ & _ & HB).
    apply ok_commit. intros m' t' Ht [Hs1 Hs2]. apply H; [lia|split; [congruence|done]].
  - apply ok_commit. intros m' t' Ht Hs. apply H; [lia|done].
Qed.

Lemma ok_KinitRenew (post : bool -> Manager -> Time -> Time -> Prop) m t g :
  NextCheck m <= t + CheckInterval ->
  (forall b m' t', t <= t' -> sameBackoff m m' t' -> post b m' t' g) ->
  okT post (KinitRenew localTime) m t g.
Proof.
  intros Hn H. unfold KinitRenew. apply ok_bind, ok_Run. intros t1 t2 r H1 H2. split; [done|].
  assert (okT post (mret false) m t2 g) as Hf by (apply ok_ret, H; [lia|split; [done|lia]]).
  destruct r as [r|e]; [destruct (ExitCode r =? 0)|]; [|exact Hf..].
  apply ok_bind, ok_UpdateExpiry. intros m' t' Ht Hs. apply ok_ret, H; [lia|done].
Qed.

Lemma ok_KlistValid (post : bool -> Manager -> Time -> Time -> Prop) m t g :
  (forall b m' t', t <= t' -> ticket m' = ticket m -> post b m' t' g) -> okT post KlistValid m t g.
Proof.
  intros H. unfold KlistValid, KlistParseValid, RunKlist. apply ok_bind, ok_read. intros t1 m1 H1 Hm.
  apply ok_bind, ok_Run. intros t2 t3 r H2 H3. split; [done|].
  destruct r as [r|e]; [|apply ok_ret, H; [lia|done]].
  destruct (_ || _); [|apply ok_ret, H; [lia|done]].
  apply ok_bind, ok_bind, ok_Run. intros t4 t5 r' H4 H5. split; [done|]. apply ok_ret, ok_ret, H; [lia|done].
Qed.

Lemma ok_KinitWithPassword (post : bool -> Manager -> Time -> Time -> Prop) m t g :
  0 <= t -> g <= t -> NextCheck m <= t + CheckInterval -> 0 <= Backoff m <= CheckInterval ->
  (forall b m' t' g', pacing m' t' g' -> post b m' t' g') -> okT post (KinitWithPassword localTime) m t g.
Proof.
  intros H0 Hg Hn Hb H. unfold KinitWithPassword. apply ok_bind, ok_Password. intros t1 p H1. destruct p as [p|].
  2: { apply ok_ret, H. split_and!; [lia..|]. left. lia. }
  apply ok_bind, ok_Run. intros t2 t3 r H2 H3. split; [cbn; lia|]. cbn [deadlineStep]. destruct (failure r) as [b|] eqn:Ef.
  - apply ok_bind, ok_change. intros t4 m4 H4 Hm4. apply ok_ret, H. unfold pacing. cbn. pose proof (failure_bounds _ _ Ef).
    destruct (ticket_fields _ _ Hm4) as (_ & -> & _).
    unfold addT, RetryInterval, CheckInterval, Second in *. split_and!; [lia..|]. right. left. lia.
  - apply ok_bind, ok_change. intros t4 m4 H4 Hm4. apply ok_bind, ok_UpdateExpiry. intros m' t' Ht [Hs1 Hs2]. apply ok_ret, H.
    cbn in Hs1. unfold pacing. rewrite Hs1. unfold CheckInterval, Second in *. split_and!; [lia..|]. left. lia.
Qed.

(** The three parts of the body, each with what the start of the refresh ensures. *)
Section Body.
Context (force : bool) (m0 : Manager) (t0 g : Time).
Hypothesis H0 : 0 <= t0.
Hypothesis Hn : NextCheck m0 <= t0 + CheckInterval.
Hypothesis Hb : 0 <= Backoff m0 <= CheckInterval.
Hypothesis Hg : g <= t0 \/ force = false /\ 0 < Backoff m0 /\ g <= t0 + Backoff m0.
Notation done_ := (fun _ : unit => pacing).

Lemma pacing_end m t : t0 <= t -> sameBackoff m0 m t -> pacing m t g.
Proof. intros Ht [Hs1 Hs2]. unfold pacing. rewrite Hs1. split_and!; [lia..|]. destruct Hg as [?|(_ & ? & ?)]; [left; lia|right; left; lia]. Qed.

Lemma ok_acquire now m t : t0 <= now -> now <= t -> sameBackoff m0 m t -> okT done_ (acquire localTime force now) m t g.
Proof.
  intros Hnow Ht [Hs1 Hs2]. unfold acquire.
  assert (forall m1 t1, t <= t1 -> ticket m1 = ticket m -> g <= t1 ->
    okT done_ (_ ← KinitWithPassword localTime; mret tt) m1 t1 g) as Hkinit.
  { intros m1 t1 Ht1 Hm1 Hgt. destruct (ticket_fields _ _ Hm1) as (_ & E1 & E2).
    apply ok_bind, ok_KinitWithPassword; [lia..|lia|]. by intros. }
  destruct force.
  { apply ok_bind, ok_ret. apply Hkinit; [lia|done|]. destruct Hg as [?|[? _]]; [lia|done]. }
  apply ok_bind. cbn. intros t1 m1 H1 Hm1. destruct (ticket_fields _ _ Hm1) as (_ & E1 & E2).
  destruct (Backoff m1 <=? 0) eqn:Eb; to_prop.
  - apply Hkinit; [lia|done|]. destruct Hg as [?|(_ & ? & ?)]; lia.
  - apply ok_ret. unfold pacing. cbn. unfold addT, CheckInterval, Second in *. split_and!; [lia..|]. right. right.
    destruct Hg as [?|(_ & ? & ?)]; lia.
Qed.

Lemma ok_renew e now m t : t0 <= now -> now <= t -> sameBackoff m0 m t -> okT done_ (renew localTime force now e) m t g.
Proof.
  intros Hnow Ht Hs. unfold renew. destruct (negb (isZero e) && before now e); [|by apply ok_acquire].
  apply ok_bind, ok_KinitRenew; [apply Hs|]. intros b m2 t2 Ht2 [Hs1 Hs2].
  assert (sameBackoff m0 m2 t2) by (split; [rewrite Hs1; apply Hs|done]).
  destruct b; [apply ok_ret, pacing_end; [lia|done]|apply ok_acquire; [done|lia|done]].
Qed.
End Body.

Lemma pacing_start force at_ m t g :
  pacing m t g -> at_ <= t -> negb force && negb (isZero (NextCheck m)) && before at_ (NextCheck m) = false ->
  okT (fun _ => pacing) (refreshBody localTime force) m t (deadlineStep g (t, Checked force)).
Proof.
  intros (H0 & Hn & Hb & Hg) Hat Hacc. set (g' := deadlineStep g (t, Checked force)).
  assert (g' <= t \/ force = false /\ 0 < Backoff m /\ g' <= t + Backoff m) as Hg'.
  { subst g'. destruct force; cbn; [left; lia|]. destruct Hg as [?|[[? ?]|?]]; [by left|by right|]. left.
    cbn in Hacc. unfold isZero, zeroTime, before in Hacc. destruct (NextCheck m =? 0) eqn:E; cbn in Hacc; to_prop; lia. }
  clearbody g'. clear Hg Hacc g. unfold refreshBody.
  apply ok_bind, ok_Now. intros now Hnow. apply ok_bind, ok_read. intros t1 m1 Ht1 Hm1.
  assert (forall m2 t2, t1 <= t2 -> ticket m2 = ticket m1 -> sameBackoff m m2 t2) as Hsame.
  { intros m2 t2 Ht2 Hm2. rewrite Hm1 in Hm2. destruct (ticket_fields _ _ Hm2) as (_ & E1 & E2). split; [done|lia]. }
  assert (forall m2 t2, t1 <= t2 -> ticket m2 = ticket m1 -> okT (fun _ => pacing) (renew localTime force now (TicketExpiry m1)) m2 t2 g') as Hr
    by (intros; eapply ok_renew; [done..|lia|lia|by apply Hsame]).
  destruct (_ && _); [|by apply Hr].
  apply ok_bind, ok_KlistValid. intros b m2 t2 Ht2 Hm2. destruct b; [|by apply Hr].
  apply ok_change. intros t3 m3 Ht3 Hm3. destruct (nextCheckFor_le now (TicketExpiry m1)).
  eapply pacing_end; [done..|lia|]. split; cbn; [|lia]. apply (Hsame m3 t3); [lia|congruence].
Qed.

Lemma deadline_keeps b g : (forall t, (t, Checked true) ∉ b) -> g <= fold_left deadlineStep b g.
Proof.
  revert g. induction b as [|[t x] b IH]; intros g H; [simpl; lia|]. cbn [fold_left].
  transitivity (deadlineStep g (t, x)); [|apply IH; intros t' Hin; by apply (H t'); right].
  destruct x as [[|]|c|[] r]; cbn; try lia; [by destruct (H t); left|]. destruct (failure r); lia.
Qed.

Lemma pacing_run m t evs s :
  refreshing m = false -> pacing m t 0 -> runEvs localTime removable (boot m t) evs = Some s ->
  ghostInv deadlineStep mayBegin pacing 0 s.
Proof.
  apply (ghost_run Z.le deadlineStep mayBegin pacing 0).
  - lia.
  - intros a b [t' [[|]|c|[] r]] H; cbn; try lia. destruct (failure r); lia.
  - intros g t' [|]; cbn; lia.
  - intros c t' a b H. destruct c; cbn; try done. lia.
  - intros x m1 m2 t1 t2 a b Hm Ht Hab (P0 & P1 & P2 & P3). destruct (ticket_fields _ _ Hm) as (_ & E1 & E2).
    unfold pacing. rewrite E1, E2. split_and!; [lia..|]. destruct P3 as [?|[[? ?]|?]]; [left|right; left|right; right]; lia.
  - apply pacing_start.
Qed.

Lemma pacing_new ccache heimdal there t : 0 <= t -> pacing (New ccache heimdal there) t 0.
Proof. intros Ht. unfold pacing, CheckInterval, Second. cbn. unfold zeroTime. split_and!; [done|lia|lia|lia|left; lia]. Qed.

(** C9: a password that was not accepted is not sent again at once.  In every
    interleaving, unless a check is forced in between, the next [kinit] with the
    password starts no earlier than the backoff of the failure behind its end:
    five minutes for a credential that was refused, one minute otherwise. *)
Theorem password_attempts_spaced ccache heimdal there t evs s a t1 pw r b t2 pw' c d :
  0 <= t -> runEvs localTime removable (boot (New ccache heimdal there) t) evs = Some s ->
  trace s = a ++ (t1, Ended (KinitPassword pw) r) :: b ++ (t2, Began (KinitPassword pw')) :: c ->
  failure r = Some d -> (forall t', (t', Checked true) ∉ b) ->
  addT t1 d <= t2 /\ RetryInterval <= d.
Proof.
  intros Ht H Htr Hf Hb. destruct (pacing_run (New ccache heimdal there) t evs s eq_refl (pacing_new ccache heimdal there t Ht) H) as [_ Hsafe].
  specialize (Hsafe (a ++ (t1, Ended (KinitPassword pw) r) :: b) t2 (KinitPassword pw') c).
  rewrite Htr, <- app_assoc in Hsafe. specialize (Hsafe eq_refl). cbn [mayBegin] in Hsafe.
  unfold ghost in Hsafe. rewrite fold_left_app in Hsafe. cbn [fold_left deadlineStep] in Hsafe. rewrite Hf in Hsafe.
  pose proof (deadline_keeps b (Z.max (fold_left deadlineStep a 0) (addT t1 d)) Hb). split; [lia|]. by apply (failure_bounds r).
Qed.

(** the manager never sleeps for longer than five minutes: whatever the
    commands answered, a check that comes five minutes after any moment at which no
    refresh runs starts one, unless the manager was closed; in particular a
    backoff is spent once. *)
Theorem checks_resume ccache heimdal there t evs s force at_ t' :
  0 <= t -> runEvs localTime removable (boot (New ccache heimdal there) t) evs = Some s ->
  refreshing (manager s) = false -> closed (manager s) = false -> now s + CheckInterval <= at_ <= t' ->
  exists s', step localTime removable s t' (ECheck force at_) = Some s' /\ tasks s' = [refresh localTime removable force] /\
    refreshing (manager s') = true /\ 0 <= Backoff (manager s') <= CheckInterval.
Proof.
  intros Ht H Hr Hc Hlate. destruct (pacing_run (New ccache heimdal there) t evs s eq_refl (pacing_new ccache heimdal there t Ht) H) as [[(Hn & _ & HK)|(p & _ & _ & Hr' & _)] _]; [|congruence].
  destruct HK as (H0 & Hnext & Hb & _). unfold step. rewrite Hc, Hr.
  destruct (t' <? now s) eqn:E1; to_prop; [unfold CheckInterval, Second in *; lia|].
  destruct (t' <? at_) eqn:E3; to_prop; [lia|].
  destruct (before at_ (NextCheck (manager s))) eqn:E2; [unfold before in E2; to_prop; unfold CheckInterval, Second in *; lia|].
  rewrite andb_false_r. cbn. eexists. split; [reflexivity|]. cbn. by rewrite Hn.
Qed.

End Facts.

(** *** Expiry texts *)

Definition pad2 (n : Z) (rest : string) : string := String (digit_char (n / 10)) (String (digit_char (n mod 10)) rest).
Definition clockText (c : Civil) (rest : string) : string :=
  pad2 (hour c) (String ":" (pad2 (minute c) (String ":" (pad2 (second c) rest)))).
Definition pad4 (n : Z) (rest : string) : string := pad2 (n / 100) (pad2 (n mod 100) rest).

(** The dates of the two implementations, before a rest. *)
Definition mitText (c : Civil) (rest : string) : string :=
  pad2 (month c) (String "/" (pad2 (day c) (String "/" (pad4 (year c) (String " " (clockText c rest)))))).
Definition monthText : list string := ["Jan"; "Feb"; "Mar"; "Apr"; "May"; "Jun"; "Jul"; "Aug"; "Sep"; "Oct"; "Nov"; "Dec"].
Definition heimdalText (c : Civil) (rest : string) : string :=
  nth (Z.to_nat (month c - 1)) monthText "" +:+ String " " (pad2 (day c) (String " " (clockText c (String " " (pad4 (year c) rest))))).

Definition civilOk (c : Civil) : Prop :=
  0 <= year c < 10000 /\ 1 <= month c <= 12 /\ 1 <= day c <= daysIn (month c) (year c) /\ 0 <= hour c < 24 /\
  0 <= minute c < 60 /\ 0 <= second c < 60.

Lemma digit_class d : 0 <= d < 10 -> is_digit (digit_char d) = true /\ re_ws (digit_char d) = false /\ digit_val (digit_char d) = d.
Proof.
  intros Hd. split_and!; [by apply digit_char_spec| |by apply digit_char_spec].
  apply (digit_char_cases (fun c => re_ws c = false)); [done|]. by repeat constructor.
Qed.

Lemma pad_digits n : 0 <= n < 100 -> 0 <= n / 10 < 10 /\ 0 <= n mod 10 < 10.
Proof. intros H. pose proof (Z.div_mod n 10 ltac:(lia)). pose proof (Z.mod_pos_bound n 10 ltac:(lia)). lia. Qed.

Lemma times_pad2 lo n x : (lo <= 2)%nat -> 0 <= n < 100 -> times is_digit lo 2 (pad2 n x) = Some (pad2 n "", x).
Proof.
  intros Hlo Hn. destruct (pad_digits n Hn) as [H1 H2]. unfold times, pad2. cbn [upTo].
  rewrite (proj1 (digit_class _ H1)), (proj1 (digit_class _ H2)). destruct x; cbn; by destruct lo as [|[|[|lo]]]; [..|lia].
Qed.

Lemma upTo_pad2 k n x : 0 <= n < 100 ->
  upTo is_digit (S (S k)) (pad2 n x) = let '(a, b) := upTo is_digit k x in (pad2 n a, b).
Proof.
  intros Hn. destruct (pad_digits n Hn) as [H1 H2]. unfold pad2. cbn [upTo].
  rewrite (proj1 (digit_class _ H1)), (proj1 (digit_class _ H2)). by destruct (upTo is_digit k x).
Qed.

Lemma times_pad4 lo n x : (lo <= 4)%nat -> 0 <= n < 10000 -> times is_digit lo 4 (pad4 n x) = Some (pad4 n "", x).
Proof.
  intros Hlo Hn. unfold times, pad4.
  assert (0 <= n / 100 < 100 /\ 0 <= n mod 100 < 100) as [H1 H2] by (pose proof (Z.div_mod n 100 ltac:(lia)); pose proof (Z.mod_pos_bound n 100 ltac:(lia)); lia).
  rewrite !upTo_pad2 by done. cbn [upTo]. unfold pad2. cbn. destruct lo as [|[|[|[|[|lo]]]]]; first [done|lia].
Qed.

(** What a string begins with. *)
Definition startsNot (p : ascii -> bool) (s : string) : Prop := match s with String c _ => p c = false | EmptyString => True end.

Lemma spanOf_whole p a x : str_forall p a = true -> startsNot p x -> spanOf p (a +:+ x) = (a, x).
Proof.
  induction a as [|c a IH]; intros Ha Hx.
  - destruct x as [|c x]; [done|]. cbn in *. by rewrite Hx.
  - cbn in Ha. apply andb_true_iff in Ha as [Hc Ha]. change (String c a +:+ x) with (String c (a +:+ x)). cbn [spanOf]. by rewrite Hc, IH.
Qed.

Lemma some_app p a x : a <> "" -> str_forall p a = true -> startsNot p x -> some p (a +:+ x) = Some (a, x).
Proof. intros Hn Ha Hx. unfold some. rewrite spanOf_whole by done. by destruct a. Qed.

Lemma some_blank x : startsNot re_ws x -> some re_ws (String " " x) = Some (" ", x).
Proof. by apply (some_app re_ws " "). Qed.

Lemma pad2_starts n x : 0 <= n < 100 -> startsNot re_ws (pad2 n x).
Proof. intros Hn. by apply digit_class, pad_digits. Qed.

Lemma char_spec c x : char c (String c x) = Some (String c "", x).
Proof. unfold char, times. cbn. by rewrite Ascii.eqb_refl. Qed.

Lemma clock_spec c x : civilOk c -> clock (clockText c x) = Some (clockText c "", x).
Proof.
  intros (_ & _ & _ & Hh & Hm & Hs). unfold clock, clockText, andThen.
  rewrite times_pad2 by lia. rewrite char_spec, times_pad2 by lia. by rewrite char_spec, times_pad2 by lia.
Qed.

Lemma days_le m y : daysIn m y <= 31.
Proof. unfold daysIn. repeat case_match; lia. Qed.

Lemma mit_spec c x : civilOk c -> mitDate (mitText c x) = Some (mitText c "", x).
Proof.
  intros Hc. pose proof Hc as (Hy & Hm & Hd & Hh & _). pose proof (days_le (month c) (year c)). unfold mitDate, mitText, andThen.
  rewrite times_pad2 by lia. rewrite char_spec, times_pad2 by lia. rewrite char_spec, times_pad4 by lia.
  rewrite some_blank by (apply pad2_starts; lia). by rewrite clock_spec.
Qed.

Lemma month_spec (P : Z -> string -> Prop) m : 1 <= m <= 12 ->
  Forall2 P [1; 2; 3; 4; 5; 6; 7; 8; 9; 10; 11; 12] monthText -> P m (nth (Z.to_nat (m - 1)) monthText "").
Proof.
  intros Hm H. repeat match goal with H : Forall2 _ (_ :: _) _ |- _ => inversion H; subst; clear H end.
  assert (m = 1 \/ m = 2 \/ m = 3 \/ m = 4 \/ m = 5 \/ m = 6 \/ m = 7 \/ m = 8 \/ m = 9 \/ m = 10 \/ m = 11 \/ m = 12) as Hc by lia.
  by destruct_or?; subst.
Qed.

Lemma heimdal_spec c x : civilOk c -> heimdalDate (heimdalText c x) = Some (heimdalText c "", x).
Proof.
  intros Hc. pose proof Hc as (Hy & Hm & Hd & Hh & _). pose proof (days_le (month c) (year c)). unfold heimdalDate, heimdalText.
  pattern (month c), (nth (Z.to_nat (month c - 1)) monthText "").
  apply month_spec; [done|].
  assert (forall a b cc rest, is_upper a = true -> is_lower b = true -> is_lower cc = true ->
    (times is_upper 1 1 >+> times is_lower 2 2 >+> some re_ws >+> times is_digit 1 2 >+> some re_ws >+> clock >+> some re_ws >+> times is_digit 4 4)
      (String a (String b (String cc (String " " (pad2 (day c) (String " " (clockText c (String " " (pad4 (year c) rest))))))))) =
    Some (String a (String b (String cc (String " " (pad2 (day c) (String " " (clockText c (String " " (pad4 (year c) "")))))))), rest)) as Hgo.
  { intros a b cc rest Ha Hb Hcc. unfold andThen at 1. unfold times at 1. cbn [upTo]. rewrite Ha. cbn [String.length Nat.ltb Nat.leb].
    unfold andThen at 1. unfold times at 1. cbn [upTo]. rewrite Hb, Hcc. cbn [String.length Nat.ltb Nat.leb]. unfold andThen.
    rewrite some_blank by (apply pad2_starts; lia). rewrite times_pad2 by lia.
    rewrite some_blank by (apply pad2_starts; lia). rewrite clock_spec by done.
    rewrite some_blank by (apply pad2_starts; pose proof (Z.div_mod (year c) 100 ltac:(lia)); pose proof (Z.mod_pos_bound (year c) 100 ltac:(lia)); lia).
    by rewrite times_pad4 by lia. }
  repeat (constructor; [by apply Hgo|]). constructor.
Qed.

(** *** Reading a listing *)

(** A line above the ticket: blank, or without a date at its start whatever follows. *)
Definition heading (date : Re) (l : string) : Prop :=
  no_char LF l = true /\ (str_forall re_ws l = true \/ forall x, (any re_ws >+> date) (l +:+ String LF x) = None).

Definition listing (above : list string) (rest : string) : string := foldr (fun l s => l +:+ String LF s) rest above.

Lemma spanOf_blank p l x : str_forall p l = true -> (spanOf p (l +:+ x)).2 = (spanOf p x).2.
Proof.
  intros Hl. induction l as [|c l IH]; [done|]. cbn in Hl. apply andb_true_iff in Hl as [Hc Hl].
  change (String c l +:+ x) with (String c (l +:+ x)). cbn [spanOf]. rewrite Hc. specialize (IH Hl).
  destruct (spanOf p (l +:+ x)). exact IH.
Qed.

Lemma ticketLine_blank date l x : str_forall re_ws l = true -> ticketLine date (l +:+ x) = ticketLine date x.
Proof.
  intros Hl. unfold ticketLine. assert (forall q : Re,
    (fun o : option (string * string) => (snd <$> o)) ((any re_ws >+> q) (l +:+ x)) = snd <$> (any re_ws >+> q) x) as H.
  { intros q. unfold andThen, any. pose proof (spanOf_blank re_ws l x Hl). destruct (spanOf re_ws (l +:+ x)), (spanOf re_ws x). cbn in *. subst.
    by destruct (q _) as [[]|]. }
  specialize (H (date >+> some re_ws)). destruct ((any re_ws >+> _) (l +:+ x)) as [[]|], ((any re_ws >+> _) x) as [[]|]; cbn in *; try done.
  by injection H as ->.
Qed.

Lemma ticketLine_none date x : (any re_ws >+> date) x = None -> ticketLine date x = None.
Proof.
  unfold ticketLine, andThen. destruct (any re_ws x) as [[a b]|]; [|done]. intros H. by destruct (date b) as [[]|].
Qed.

Lemma findTicket_skip date l x : no_char LF l = true -> findTicket date false (l +:+ String LF x) = findTicket date true x.
Proof.
  induction l as [|c l IH]; intros H; [done|]. apply andb_true_iff in H as [Hc Hl]. apply negb_true_iff in Hc.
  change (String c l +:+ String LF x) with (String c (l +:+ String LF x)). cbn [findTicket]. rewrite Hc. by apply IH.
Qed.

Lemma findTicket_eq date s : findTicket date true s =
  match ticketLine date s with
  | Some e => Some e
  | None => match s with EmptyString => None | String c s' => findTicket date (Ascii.eqb c LF) s' end
  end.
Proof. by destruct s. Qed.

Lemma findTicket_heading date l x : heading date l -> findTicket date true (l +:+ String LF x) = findTicket date true x.
Proof.
  intros [Hl Hh].
  assert (forall r, ticketLine date (l +:+ String LF x) = r -> (r = None \/ r = ticketLine date x) ->
    findTicket date true (l +:+ String LF x) = findTicket date true x) as Hgo.
  { intros r Hr Hc. assert (findTicket date true (l +:+ String LF x) =
      match r with Some e => Some e | None => findTicket date true x end) as ->.
    { rewrite findTicket_eq, Hr. destruct r; [done|]. destruct l as [|c l]; [done|].
      apply andb_true_iff in Hl as [Hc' Hl]. apply negb_true_iff in Hc'. change (String c l +:+ String LF x) with (String c (l +:+ String LF x)).
      cbv beta iota. rewrite Hc'. by apply findTicket_skip. }
    destruct r as [e|]; [|done]. destruct Hc as [?|Hc]; [done|]. by rewrite findTicket_eq, <- Hc. }
  destruct Hh as [Hb|Hn].
  - apply (Hgo _ eq_refl). right. change (l +:+ String LF x) with (l +:+ ((String LF "") +:+ x)). rewrite app_assoc_str. apply ticketLine_blank.
    rewrite str_forall_app, Hb. done.
  - apply (Hgo None); [by apply ticketLine_none|by left].
Qed.

Lemma findTicket_listing date above x : Forall (heading date) above -> findTicket date true (listing above x) = findTicket date true x.
Proof. induction 1 as [|l above Hl _ IH]; [done|]. cbn [listing foldr]. rewrite findTicket_heading by done. exact IH. Qed.

(** A blank of at least one character. *)
Definition gap (g : string) : Prop := g <> "" /\ str_forall re_ws g = true.

Lemma findTicket_line date text sp c0 g1 c g2 rest :
  (forall c x, civilOk c -> date (text c x) = Some (text c "", x)) -> (forall c x, civilOk c -> startsNot re_ws (text c x)) ->
  str_forall re_ws sp = true -> gap g1 -> gap g2 -> civilOk c0 -> civilOk c ->
  findTicket date true (sp +:+ text c0 (g1 +:+ text c (g2 +:+ "krbtgt/" +:+ rest))) = Some (text c "").
Proof.
  intros Hd Hs Hsp [Hg1 Hw1] [Hg2 Hw2] H0 H1.
  assert (forall s e, ticketLine date s = Some e -> findTicket date true s = Some e) as Hf by (intros [|? s] e E; cbn [findTicket]; by rewrite E).
  apply Hf. unfold ticketLine, andThen, any. rewrite spanOf_whole by (done || by apply Hs). rewrite Hd by done.
  rewrite some_app by (done || by apply Hs).
  cbn [mbind option_bind]. rewrite Hd by done. cbn [mbind option_bind]. rewrite some_app by done. cbn [mbind option_bind].
  by rewrite has_prefix_app.
Qed.

(** *** The layouts read back *)

Lemma getnum_pad2 fixed n x : 0 <= n < 100 -> getnum fixed (pad2 n x) = Some (n, x).
Proof.
  intros Hn. destruct (pad_digits n Hn) as [H1 H2]. destruct (digit_class _ H1) as (E1 & _ & V1), (digit_class _ H2) as (E2 & _ & V2).
  unfold getnum, pad2. rewrite E1, E2, V1, V2. cbn [negb]. pose proof (Z.div_mod n 10 ltac:(lia)). do 2 f_equal. lia.
Qed.

Lemma longYear_pad4 n x : 0 <= n < 10000 -> longYear (pad4 n x) = Some (n, x).
Proof.
  intros Hn. unfold longYear, pad4, pad2.
  assert (0 <= n / 100 < 100 /\ 0 <= n mod 100 < 100) as [H1 H2] by (pose proof (Z.div_mod n 100 ltac:(lia)); pose proof (Z.mod_pos_bound n 100 ltac:(lia)); lia).
  destruct (pad_digits _ H1) as [A1 A2], (pad_digits _ H2) as [B1 B2].
  destruct (digit_class _ A1) as (E1 & _ & V1), (digit_class _ A2) as (E2 & _ & V2), (digit_class _ B1) as (E3 & _ & V3), (digit_class _ B2) as (E4 & _ & V4).
  destruct (slen _ <? 4) eqn:El; [to_prop; rewrite !slen_cons in El; pose proof (slen_nonneg x); lia|].
  cbn [str_take str_drop digits_val]. rewrite E1, E2, E3, E4, V1, V2, V3, V4. cbn.
  pose proof (Z.div_mod n 100 ltac:(lia)). pose proof (Z.div_mod (n / 100) 10 ltac:(lia)). pose proof (Z.div_mod (n mod 100) 10 ltac:(lia)).
  destruct x; do 2 f_equal; lia.
Qed.

Lemma numBelow_pad2 fixed b n x : 0 <= n < b -> b <= 100 -> numBelow fixed b (pad2 n x) = Some (n, x).
Proof. intros Hn Hb. unfold numBelow. rewrite getnum_pad2 by lia. cbn. by destruct (n <? b) eqn:E; to_prop; [|lia]. Qed.

Lemma cut_char c x : CutPrefix (String c x) (String c "") = Some x.
Proof. unfold CutPrefix. change (String c x) with (String c "" +:+ x). by rewrite has_prefix_app. Qed.

Lemma parseClock_text c x : civilOk c -> parseClock (clockText c x) = Some ((hour c, minute c, second c), x).
Proof.
  intros (_ & _ & _ & Hh & Hm & Hs). unfold parseClock, clockText. rewrite numBelow_pad2 by lia. cbn -[CutPrefix numBelow pad2]. rewrite cut_char.
  cbn -[CutPrefix numBelow pad2]. rewrite numBelow_pad2 by lia. cbn -[CutPrefix numBelow pad2]. rewrite cut_char.
  cbn -[CutPrefix numBelow pad2]. by rewrite numBelow_pad2 by lia.
Qed.

Lemma civil_ok c : civilOk c -> civil (year c) (month c) (day c) (hour c, minute c, second c) "" = Some c.
Proof.
  intros (Hy & Hm & Hd & _). unfold civil. cbn [String.eqb andb].
  rewrite !(proj2 (Z.leb_le _ _)) by lia. by destruct c.
Qed.

Lemma parseSlashed_text c : civilOk c -> parseSlashed longYear (mitText c "") = Some c.
Proof.
  intros Hc. pose proof Hc as (Hy & Hm & Hd & _). pose proof (days_le (month c) (year c)). unfold parseSlashed, mitText.
  rewrite getnum_pad2 by lia. cbn [mbind option_bind]. rewrite cut_char. cbn [mbind option_bind].
  rewrite getnum_pad2 by lia. cbn [mbind option_bind]. rewrite cut_char. cbn [mbind option_bind].
  rewrite longYear_pad4 by lia. cbn [mbind option_bind].
  change (skipSpaces (String " " (clockText c ""))) with (Some (trim_left (Ascii.eqb " ") (clockText c ""))). cbn [mbind option_bind].
  assert (trim_left (Ascii.eqb " ") (clockText c "") = clockText c "") as ->.
  { assert (0 <= hour c < 100) as Hh by (destruct Hc as (_ & _ & _ & ? & _); lia). destruct (pad_digits _ Hh) as [H1 _]. unfold clockText, pad2.
    cbn [trim_left]. by rewrite (digit_char_cases (fun x => Ascii.eqb " " x = false) (hour c / 10) H1) by repeat constructor. }
  rewrite parseClock_text by done. cbn [mbind option_bind]. by apply civil_ok.
Qed.

Lemma trim_pad2 n x : 0 <= n < 100 -> trim_left (Ascii.eqb " ") (pad2 n x) = pad2 n x.
Proof.
  intros Hn. destruct (pad_digits _ Hn) as [H1 _]. unfold pad2. cbn [trim_left].
  by rewrite (digit_char_cases (fun x => Ascii.eqb " " x = false) (n / 10) H1) by repeat constructor.
Qed.

Lemma lookupMonth_text m x : 1 <= m <= 12 ->
  lookupMonth shortMonthNames 1 (nth (Z.to_nat (m - 1)) monthText "" +:+ x) = Some (m, x).
Proof.
  intros Hm. apply (month_spec (fun m name => lookupMonth shortMonthNames 1 (name +:+ x) = Some (m, x))); [done|].
  unfold monthText. repeat (constructor; [by destruct x|]). constructor.
Qed.

Lemma parseNamed_text c : civilOk c -> parseNamed (heimdalText c "") = Some c.
Proof.
  intros Hc. pose proof Hc as (Hy & Hm & Hd & Hh & _). pose proof (days_le (month c) (year c)). unfold parseNamed, heimdalText.
  assert (forall y, skipSpaces (String " " y) = Some (trim_left (Ascii.eqb " ") y)) as Hsk by done.
  assert (trim_left (Ascii.eqb " ") (clockText c (String " " (pad4 (year c) ""))) = clockText c (String " " (pad4 (year c) ""))) as Hcl
    by (apply trim_pad2; lia).
  rewrite lookupMonth_text by lia. cbn [mbind option_bind]. rewrite Hsk. cbn [mbind option_bind].
  rewrite trim_pad2, getnum_pad2 by lia. cbn [mbind option_bind]. rewrite Hsk. cbn [mbind option_bind].
  rewrite Hcl, parseClock_text by done. cbn [mbind option_bind]. rewrite Hsk. cbn [mbind option_bind].
  unfold pad4 at 1. rewrite trim_pad2 by (pose proof (Z.div_mod (year c) 100 ltac:(lia)); pose proof (Z.mod_pos_bound (year c) 100 ltac:(lia)); lia).
  change (pad2 (year c / 100) (pad2 (year c mod 100) "")) with (pad4 (year c) "").
  rewrite longYear_pad4 by lia. cbn [mbind option_bind]. by apply civil_ok.
Qed.

(** the expiry in the output of [klist] is read back, for both
    implementations: behind any lines without a date at their start, the line of the
    ticket-granting ticket gives exactly the time printed as its end. *)
Theorem expiry_is_read (heimdal : bool) above sp c0 g1 c g2 rest :
  let date := if heimdal then heimdalDate else mitDate in
  let text := if heimdal then heimdalText else mitText in
  Forall (heading date) above -> str_forall re_ws sp = true -> gap g1 -> gap g2 -> civilOk c0 -> civilOk c ->
  ParseExpiry (listing above (sp +:+ text c0 (g1 +:+ text c (g2 +:+ "krbtgt/" +:+ rest)))) heimdal = Some c.
Proof.
  intros date text Ha Hsp Hg1 Hg2 H0 H1. unfold ParseExpiry, parseHeimdal, parseMIT.
  assert (findTicket date true (listing above (sp +:+ text c0 (g1 +:+ text c (g2 +:+ "krbtgt/" +:+ rest)))) = Some (text c "")) as Hf.
  { rewrite findTicket_listing by done. apply findTicket_line; try done; subst date text; destruct heimdal.
    - apply heimdal_spec.
    - apply mit_spec.
    - intros c' x (_ & Hm & _). unfold heimdalText.
      apply (month_spec (fun _ name => startsNot re_ws (name +:+ _))); [done|]. unfold monthText. repeat (constructor; [done|]). constructor.
    - intros c' x (_ & Hm & _). apply pad2_starts. lia. }
  destruct heimdal; subst date text; cbn [mbind option_bind]; rewrite Hf; cbn [mbind option_bind].
  - by apply parseNamed_text.
  - by rewrite parseSlashed_text.
Qed.

(** ** Which host is asked for *)

(** Neither space nor bracket. *)
Definition bare (s : string) : bool := str_forall (fun c => negb (is_space c) && negb (in_chars "[]" c)) s.

Lemma bare_facts s : bare s = true -> no_space s = true /\ Trim s "[]" = s /\ HasPrefix s "[" = false /\ no_char "]" s = true.
Proof.
  unfold bare. intros H.
  assert (str_forall (fun c => negb (in_chars "[]" c)) s = true) as Hb
    by (eapply str_forall_impl; [|exact H]; intros c Hc; by apply andb_true_iff in Hc as [_ ?]).
  split_and!.
  - eapply str_forall_impl; [|exact H]. intros c Hc. by apply andb_true_iff in Hc as [? _].
  - unfold Trim. rewrite trim_left_forall by done. by apply trim_right_forall.
  - destruct s as [|c s]; [done|]. cbn [str_forall] in Hb. apply andb_true_iff in Hb as [Hb _]. unfold HasPrefix. cbn [String.prefix].
    destruct (ascii_dec "[" c) as [<-|]; [vm_compute in Hb; discriminate Hb|done].
  - eapply str_forall_impl; [|exact Hb]. intros c Hc. unfold in_chars in Hc. cbn in Hc. destruct (Ascii.eqb c "]") eqn:E; [|done].
    apply Ascii.eqb_eq in E as ->. done.
Qed.

Lemma CountChar_app a b c : CountChar (a +:+ b) c = CountChar a c + CountChar b c.
Proof. induction a as [|x a IH]; [done|]. change (String x a +:+ b) with (String x (a +:+ b)). cbn [CountChar]. rewrite IH. lia. Qed.
Lemma CountChar_none s c : no_char c s = true -> CountChar s c = 0.
Proof. induction s as [|x s IH]; [done|]. cbn. intros [Hx Hs]%andb_true_iff. apply negb_true_iff in Hx. by rewrite Hx, IH. Qed.

Lemma no_space_app a b : no_space (a +:+ b) = no_space a && no_space b.
Proof. apply str_forall_app. Qed.

(** the host of the service principal is the host of the proxy address without
    its port and its brackets: for names and IPv4 addresses, for IPv6 addresses,
    and for both with a port. *)
Theorem principal_host host port rest :
  bare host = true -> host <> "" -> bare port = true -> no_char ":" port = true -> no_space rest = true ->
  (no_char ":" host = true \/ 2 <= CountChar host ":" -> normalizeProxyHost host = host) /\
  (no_char ":" host = true -> normalizeProxyHost (host +:+ String ":" port) = host) /\
  normalizeProxyHost (String "[" (host +:+ String "]" rest)) = host.
Proof.
  intros Hh Hne Hp Hpc Hr. destruct (bare_facts _ Hh) as (Hs & Ht & Hb & Hc). destruct (bare_facts _ Hp) as (Hps & _ & _ & _).
  unfold normalizeProxyHost. split_and!.
  - intros Hn. rewrite TrimSpace_no_space, Hb by done. destruct (Cut host ":") as [[h r]|] eqn:E; [|done].
    destruct Hn as [Hn|Hn]; [by apply Cut_None in Hn; rewrite Hn in E|].
    assert ((CountChar host ":" =? 1) = false) as -> by (apply Z.eqb_neq; lia). by rewrite andb_false_r.
  - intros Hn. rewrite TrimSpace_no_space by by rewrite no_space_app, Hs. 
    assert (HasPrefix (host +:+ String ":" port) "[" = false) as ->.
    { destruct host as [|a host]; [done|]. change (String a host +:+ String ":" port) with (String a (host +:+ String ":" port)).
      unfold HasPrefix in *. cbn [String.prefix] in *. destruct (ascii_dec "[" a); [by destruct host|done]. }
    rewrite Cut_app, CountChar_app by done. cbn [CountChar]. rewrite (CountChar_none host), (CountChar_none port) by done.
    cbn [Ascii.eqb Bool.eqb Z.add Z.eqb]. destruct (String.eqb_spec host ""); [done|]. cbn. exact Ht.
  - rewrite TrimSpace_no_space by (change (no_space (String "[" (host +:+ String "]" rest))) with (no_space (host +:+ String "]" rest));
      rewrite no_space_app, Hs; exact Hr).
    change (HasPrefix (String "[" (host +:+ String "]" rest)) "[") with (HasPrefix ("[" +:+ (host +:+ String "]" rest)) "[").
    rewrite has_prefix_app. change (String "[" (host +:+ String "]" rest)) with (String "[" host +:+ String "]" rest).
    rewrite Cut_app; [done|exact Hc].
Qed.

(** ** Witnesses *)

Definition toyTime (c : Civil) : Time := (((day c * 24 + hour c) * 60 + minute c) * 60 + second c) * Second.
Definition toy := New "FILE:/tmp/krb5cc_px_1" false false.
Definition acts (t : Time) (l : list Input) : list (Time * Ev) := (fun i => (t, EAct 0 i)) <$> l.
Definition refused : Answer := Ok (mkResult "" "kinit: Password incorrect" 1).
Definition fine : Answer := Ok (mkResult "" "" 0).

(** A refused password, a check that spends the backoff, and the next attempt. *)
Definition toyEvs : list (Time * Ev) :=
  [(1 * Second, ECheck false (1 * Second))] ++
  acts (1 * Second) [Nothing; Nothing; Nothing; GivenPassword (Some "pw"); Nothing; Answered refused false; Nothing; Nothing] ++
  [(2 * Second, ECheck false (2 * Second))] ++ acts (2 * Second) [Nothing; Nothing; Nothing; Nothing] ++
  [(3 * Second, ECheck false (3 * Second)); (302 * Second, ECheck false (302 * Second))] ++
  acts (302 * Second) [Nothing; Nothing; Nothing; GivenPassword (Some "pw"); Nothing].

Definition theSys (o : option Sys) : Sys := default (boot toy 0) o.
Lemma theSys_some o : bool_decide (is_Some o) = true -> o = Some (theSys o).
Proof. by destruct o. Qed.

Lemma password_attempts_spaced_witness : addT (1 * Second) CheckInterval <= 302 * Second.
Proof.
  refine (proj1 (password_attempts_spaced toyTime true "FILE:/tmp/krb5cc_px_1" false false 0 toyEvs
    (theSys (runEvs toyTime true (boot toy 0) toyEvs))
    [(1 * Second, Checked false); (1 * Second, Began (KinitPassword "pw"))] (1 * Second) "pw" refused
    [(2 * Second, Checked false); (3 * Second, Checked false); (302 * Second, Checked false)] (302 * Second) "pw" [] CheckInterval
    _ _ _ _ _)).
  - lia.
  - apply theSys_some. vm_compute. reflexivity.
  - vm_compute. reflexivity.
  - vm_compute. reflexivity.
  - intros t' H. repeat (apply elem_of_cons in H as [H|H]; [discriminate H|]). by apply elem_of_nil in H.
Defined.

Lemma checks_resume_witness :
  exists s', step toyTime true (theSys (runEvs toyTime true (boot toy 0) (take 14 toyEvs))) (302 * Second) (ECheck false (302 * Second)) = Some s' /\
    tasks s' = [refresh toyTime true false] /\ refreshing (manager s') = true /\ 0 <= Backoff (manager s') <= CheckInterval.
Proof.
  apply (checks_resume toyTime true "FILE:/tmp/krb5cc_px_1" false false 0 (take 14 toyEvs)).
  - lia.
  - apply theSys_some. vm_compute. reflexivity.
  - vm_compute. reflexivity.
  - vm_compute. reflexivity.
  - vm_compute. split; discriminate.
Defined.

(** A cleanup while [kinit] writes the cache: the refresh removes it at its end. *)
Definition racing : list (Time * Ev) :=
  [(1 * Second, ECheck true (1 * Second))] ++ acts (1 * Second) [Nothing; Nothing; GivenPassword (Some "pw"); Nothing] ++
  [(2 * Second, ECleanup); (2 * Second, ERemove)] ++
  acts (3 * Second) [Answered fine true; Nothing; Nothing; Answered (Err OtherErr) false; Nothing; Nothing; Nothing].

Lemma cache_does_not_outlive_witness :
  refreshing (manager (theSys (runEvs toyTime true (boot toy 0) racing))) = false /\
  file (manager (theSys (runEvs toyTime true (boot toy 0) (take 8 racing)))) = true /\
  file (manager (theSys (runEvs toyTime true (boot toy 0) racing))) = false.
Proof.
  split; [vm_compute; reflexivity|]. split; [vm_compute; reflexivity|].
  apply (proj2 (proj2 (cache_does_not_outlive toyTime true toy 0 racing (theSys (runEvs toyTime true (boot toy 0) racing)) eq_refl eq_refl
    (theSys_some (runEvs toyTime true (boot toy 0) racing) ltac:(vm_compute; reflexivity))))); vm_compute; reflexivity.
Defined.

Definition toyAbove : list string := ["Ticket cache: FILE:/tmp/krb5cc_px_1"; "Default principal: user@REALM"; ""; "Valid starting  Expires  Service principal"].
Lemma expiry_is_read_witness :
  ParseExpiry (listing toyAbove ("" +:+ mitText (mkCivil 2026 10 11 8 0 0) ("  " +:+ mitText (mkCivil 2026 10 11 18 0 0) ("  " +:+ "krbtgt/" +:+ "REALM@REALM"))))
    false = Some (mkCivil 2026 10 11 18 0 0).
Proof.
  apply (expiry_is_read false toyAbove "" (mkCivil 2026 10 11 8 0 0) "  " (mkCivil 2026 10 11 18 0 0) "  " "REALM@REALM").
  - unfold toyAbove. repeat (constructor; [split; [reflexivity|first [left; reflexivity|right; intros x; reflexivity]]|]). constructor.
  - reflexivity.
  - split; [discriminate|reflexivity].
  - split; [discriminate|reflexivity].
  - unfold civilOk. cbn. lia.
  - unfold civilOk. cbn. lia.
Defined.

Lemma principal_host_witness :
  normalizeProxyHost "proxy.corp:3128" = "proxy.corp" /\ normalizeProxyHost "[::1]:3128" = "::1" /\ normalizeProxyHost "::1" = "::1".
Proof.
  split; [|split].
  - apply (proj1 (proj2 (principal_host "proxy.corp" "3128" "" eq_refl ltac:(discriminate) eq_refl eq_refl eq_refl)) eq_refl).
  - apply (proj2 (proj2 (principal_host "::1" "3128" ":3128" eq_refl ltac:(discriminate) eq_refl eq_refl eq_refl))).
  - apply (proj1 (principal_host "::1" "3128" "" eq_refl ltac:(discriminate) eq_refl eq_refl eq_refl) ltac:(right; vm_compute; discriminate)).
Defined.

(** A ticket that lives for less than the renewal margin is never left alone: [nextCheckFor]
    answers a time that has passed, so that every check, once a second, renews
    it or sends the password again. *)
Example short_ticket_never_rests now life :
  0 < now -> 0 < life < RenewalMargin -> before now (NextCheck (commitExpiry (Some (now + life)) now toy)) = false.
Proof.
  intros Hn Hl. cbn. unfold before. apply Z.ltb_ge. destruct (nextCheckFor_le now (now + life)). lia.
Qed.

(** A check that is forced, as for each 407 that offers Negotiate, does not wait for the backoff: a
    refused password is sent again at once. *)
Example forced_checks_ignore_backoff :
  map snd (trace (theSys (runEvs toyTime true (boot toy 0) (take 9 toyEvs ++ [(2 * Second, ECheck true (2 * Second))] ++
    acts (2 * Second) [Nothing; Nothing; GivenPassword (Some "pw"); Nothing])))) =
  [Checked false; Began (KinitPassword "pw"); Ended (KinitPassword "pw") refused; Checked true; Began (KinitPassword "pw")].
Proof. vm_compute. reflexivity. Qed.

End Krb.
