(* ===== verification/Background.v ===== *)
(** * Background: the start in the background and at logon
    ([internal/background/handshake.go], [background.go], [internal/winstartup],
    [startup_windows.go], [cmd/pxgow])

    The launcher listens on a loopback port and waits for the guardian, started
    without a window, to report that it is ready or why it failed.  A report is two
    lines, a token and a status.  The start at logon is a command line in the
    registry, quoted so that the Go runtime of the program it starts reads the
    arguments back. *)

From S2P Require Export Prelude GoStrings.
From S2P Require Import NetAddr GoText Config.
From S2P Require Guardian.

Module Bg.

Definition envAddr : string := "PXGOINT_BACKGROUND_ADDR".
Definition envToken : string := "PXGOINT_BACKGROUND_TOKEN".

(** ** The launcher *)

Record Launcher := mkLauncher { lAddr : string; lToken : string }.
Record Reporter := mkReporter { rAddr : string; rToken : string }.

(** [port] is chosen by the system; [random] are the bytes drawn. *)
Definition NewLauncher (random : option (list Z)) (port : option Z) : option Launcher :=
  bytes ← random; p ← port; Some (mkLauncher ("127.0.0.1:" +:+ FormatUint p) (hexEncode bytes)).

Definition Env (l : Launcher) : list string := [envAddr +:+ "=" +:+ lAddr l; envToken +:+ "=" +:+ lToken l].

Inductive EnvErr := EnvInvalid | AddressInvalid | NotLoopback.
Definition ReporterFromEnv (getenv : string -> string) : result EnvErr (option Reporter) :=
  let addr := TrimSpace (getenv envAddr) in
  let token := TrimSpace (getenv envToken) in
  if String.eqb addr "" && String.eqb token "" then Ok None
  else if String.eqb addr "" || String.eqb token "" || negb (slen token =? 64) then Err EnvInvalid
  else match SplitHostPort addr with
       | None => Err AddressInvalid
       | Some (host, _) =>
           match ParseIP (Trim host "[]") with
           | Some ip => if IsLoopback ip then Ok (Some (mkReporter addr token)) else Err NotLoopback
           | None => Err NotLoopback
           end
       end.

(** What a reporter writes; nothing without an address and a token. *)
Definition send (r : Reporter) (status : string) : option string :=
  if String.eqb (rAddr r) "" || String.eqb (rToken r) "" then None
  else Some ("HELLO " +:+ rToken r +:+ String LF "" +:+ status +:+ String LF "").
Definition Ready (r : Reporter) : option string := send r "READY".
Definition errorMessage (err : option string) : string :=
  match err with
  | None => "background startup failed"
  | Some e => ReplaceChar (ReplaceChar e CR " ") LF " "
  end.
Definition Error (r : Reporter) (err : option string) : option string := send r ("ERROR " +:+ errorMessage err).

Inductive StatusErr := AuthFailed | LineTooLong | Missing | Invalid.
(** What the connection gave before its end, an error or the deadline. *)
Definition readStatus (token received : string) : result StatusErr string :=
  let '(lines, tooLong) := scanLines maxScanTokenSize received in
  match lines with
  | [] => Err AuthFailed
  | hello :: lines =>
      if negb (String.eqb hello ("HELLO " +:+ token)) then Err AuthFailed
      else match lines with
           | [] => Err (if (tooLong : bool) then LineTooLong else Missing)
           | status :: _ =>
               if negb (String.eqb status "READY") && negb (HasPrefix status "ERROR ") then Err Invalid else Ok status
           end
  end.

(** What happens to the loop of [Wait]: the context is done, the deadline cannot be set, nobody
    came within it, the listener failed, a connection with what it sent. *)
Inductive Event := CtxDone | DeadlineFailed | AcceptTimeout | AcceptFailed | Connection (received : string).
Inductive WaitErr := WContext | WListener | WReported (message : string).

(** [None]: still waiting. *)
Fixpoint Wait (token : string) (evs : list Event) : option (result WaitErr unit) :=
  match evs with
  | [] => None
  | CtxDone :: _ => Some (Err WContext)
  | (DeadlineFailed | AcceptFailed) :: _ => Some (Err WListener)
  | AcceptTimeout :: evs => Wait token evs
  | Connection received :: evs =>
      match readStatus token received with
      | Err _ => Wait token evs
      | Ok status =>
          if String.eqb status "READY" then Some (Ok tt)
          else match CutPrefix status "ERROR " with
               | Some message => Some (Err (WReported (TrimSpace message)))
               | None => Wait token evs
               end
      end
  end.

(** ** Paths and command lines of the start at logon *)

Definition BackgroundExecutableName : string := "pxgow.exe".
Definition backslash : ascii := chr 92.
Definition quote : ascii := chr 34.
Definition separators : string := String "/" (String backslash "").

(** [strings.LastIndexAny] of the separators: the part before and behind. *)
Fixpoint cutLastSep (s : string) : option (string * string) :=
  match s with
  | EmptyString => None
  | String c s' =>
      match cutLastSep s' with
      | Some (a, b) => Some (String c a, b)
      | None => if in_chars separators c then Some ("", s') else None
      end
  end.

Definition baseName (path : string) : string :=
  let path := TrimRight path separators in
  match cutLastSep path with Some (_, b) => b | None => path end.

(** [plainDir] is [filepath.Dir] of a path without a separator. *)
Definition dirName (plainDir : string -> string) (path : string) : string :=
  let path := TrimRight path separators in
  match cutLastSep path with Some (a, _) => a | None => plainDir path end.

Inductive StartupErr := EmptyExecutable | EmptyConfig | NulInPath | NoExecutable | NoConfig | NotPersisted.

Definition validateStartupPath (empty : StartupErr) (value : string) : option StartupErr :=
  if String.eqb value "" then Some empty
  else if ContainsChar value (chr 0) then Some NulInPath else None.

(** [sep] is [filepath.Separator]. *)
Definition BackgroundExecutable (sep : ascii) (plainDir : string -> string) (consoleExecutable : string) : result StartupErr string :=
  match validateStartupPath EmptyExecutable consoleExecutable with
  | Some e => Err e
  | None =>
      if EqualFold (baseName consoleExecutable) BackgroundExecutableName then Ok consoleExecutable
      else
        let dir := dirName plainDir consoleExecutable in
        if String.eqb dir "" || String.eqb dir "." then Ok BackgroundExecutableName
        else
          let sep := if ContainsChar consoleExecutable backslash && negb (ContainsChar consoleExecutable "/") then backslash else sep in
          Ok (TrimRight dir separators +:+ String sep BackgroundExecutableName)
  end.

Fixpoint backslashes (n : nat) (rest : string) : string :=
  match n with O => rest | S n => String backslash (backslashes n rest) end.

(** The loop of [quoteWindowsArg], with the backslashes counted so far. *)
Fixpoint quoteFrom (n : nat) (arg : string) : string :=
  match arg with
  | EmptyString => backslashes (n * 2) (String quote "")
  | String r arg =>
      if Ascii.eqb r backslash then quoteFrom (S n) arg
      else if Ascii.eqb r quote then backslashes (n * 2 + 1) (String quote (quoteFrom 0 arg))
      else backslashes n (String r (quoteFrom 0 arg))
  end.
Definition quoteWindowsArg (arg : string) : string := String quote (quoteFrom 0 arg).

Definition BuildRunCommand (executable pxini : string) (exists_ : string -> bool) : result StartupErr string :=
  match validateStartupPath EmptyExecutable executable, validateStartupPath EmptyConfig pxini with
  | Some e, _ => Err e
  | None, Some e => Err e
  | None, None =>
      if negb (exists_ executable) then Err NoExecutable
      else if negb (exists_ pxini) then Err NoConfig
      else Ok (quoteWindowsArg executable +:+ " " +:+ quoteWindowsArg ("--config=" +:+ pxini))
  end.

(** [saved]: whether the configuration could be written; the files looked at are those
    after it. *)
Definition PrepareRunCommand (executable pxini : string) (exists_ : string -> bool) (saved : bool) : result StartupErr string :=
  if negb saved then Err NotPersisted else BuildRunCommand executable pxini exists_.

Definition PrepareBackgroundRunCommand (sep : ascii) (plainDir : string -> string) (consoleExecutable pxini : string)
    (exists_ : string -> bool) (saved : bool) : result StartupErr string :=
  match BackgroundExecutable sep plainDir consoleExecutable with
  | Err e => Err e
  | Ok executable => PrepareRunCommand executable pxini exists_ saved
  end.

(** ** The registry *)

(** The value of the Run key: absent, a string, or not to be read. *)
Inductive RunValue := Absent | Present (cmd : string) | Unreadable.

(** Whether it went well, and the value after it; [opened], [written] and [deleted]
    are the answers of the registry. *)
Definition installStartup (opened written : bool) (cmd : string) (force : bool) (v : RunValue) : bool * RunValue :=
  if negb opened then (false, v)
  else
    let set_ := if (written : bool) then (true, Present cmd) else (false, v) in
    if force then set_
    else match v with Present _ => (true, v) | Unreadable => (false, v) | Absent => set_ end.

Inductive Opened := NoKey | OpenFailed | KeyOpened.
Definition uninstallStartup (opened : Opened) (deleted : bool) (v : RunValue) : bool * RunValue :=
  match opened with
  | NoKey => (true, v)
  | OpenFailed => (false, v)
  | KeyOpened =>
      match v with
      | Absent => (true, v)
      | Unreadable => (false, v)
      | Present _ => if (deleted : bool) then (true, Absent) else (false, v)
      end
  end.

(** ** [--background] *)

(** What is started, and the code: the platform, the companion, its file, the
    launcher, the start of the process, and what the launcher waits for. *)
Definition launchBackground (windows : bool) (companion : option string) (there : bool) (launcher : option Launcher)
    (started : bool) (args : list string) (waited : result WaitErr unit) : option (string * list string * list string) * Z :=
  if negb windows then (None, 6)
  else match companion with
       | None => (None, 6)
       | Some exe =>
           if negb there then (None, 6)
           else match launcher with
                | None => (None, 6)
                | Some l =>
                    let child := (exe, bfilter (fun a => negb (String.eqb a "--background")) args, Env l) in
                    if negb started then (None, 6)
                    else (Some child, if is_ok waited then 0 else 6)
                end
       end.

(** [runGuardianParent]: the reports sent, and the code; [ready]: how often a worker became
    ready; [ended] is [runGuardianLifecycleWithOptions], with the exit of its error. *)
Definition runGuardianParent (reporter : result EnvErr (option Reporter)) (executable : bool) (ready : nat)
    (ended : option (string * Z)) : list string * Z :=
  match reporter with
  | Err _ => ([], 5)
  | Ok rep =>
      if negb executable then ([], 5)
      else
        let reports (f : Reporter -> option string) := match rep with Some r => option_list (f r) | None => [] end in
        let readies := mjoin (repeat (reports Ready) ready) in
        match ended with
        | None => (readies, 0)
        | Some (e, code) => (readies ++ reports (fun r => Error r (Some e)), code)
        end
  end.

(** [controlArgs] of the tray program. *)
Definition controlArgs (args : list string) (action : string) : list string :=
  action :: bfilter (fun a => HasPrefix a "--port=" || HasPrefix a "--config=") args.

(** ** How the Go runtime splits a command line on Windows ([os.Args]) *)

Definition blank (c : ascii) : bool := Ascii.eqb c " " || Ascii.eqb c (chr 9).

Fixpoint readNextArg (inquote : bool) (n : nat) (cmd : string) : string * string :=
  match cmd with
  | EmptyString => (backslashes n "", "")
  | String c cmd =>
      if blank c && negb inquote then (backslashes n "", cmd)
      else if Ascii.eqb c quote then
        if Nat.even n then
          match cmd with
          | String c' cmd' =>
              if inquote && Ascii.eqb c' quote
              then let '(a, rest) := readNextArg (negb inquote) 0 cmd' in (backslashes (Nat.div2 n) (String quote a), rest)
              else let '(a, rest) := readNextArg (negb inquote) 0 cmd in (backslashes (Nat.div2 n) a, rest)
          | EmptyString => let '(a, rest) := readNextArg (negb inquote) 0 cmd in (backslashes (Nat.div2 n) a, rest)
          end
        else let '(a, rest) := readNextArg inquote 0 cmd in (backslashes (Nat.div2 n) (String quote a), rest)
      else if Ascii.eqb c backslash then readNextArg inquote (S n) cmd
      else let '(a, rest) := readNextArg inquote 0 cmd in (backslashes n (String c a), rest)
  end.

Fixpoint argvFrom (fuel : nat) (cmd : string) : list string :=
  match fuel with
  | O => []
  | S fuel =>
      match cmd with
      | EmptyString => []
      | String c cmd' =>
          if blank c then argvFrom fuel cmd'
          else let '(a, rest) := readNextArg false 0 cmd in a :: argvFrom fuel rest
      end
  end.
Definition commandLineToArgv (cmd : string) : list string := argvFrom (S (String.length cmd)) cmd.

(** ** Lemmas: quoting *)

Lemma backslashes_app n a b : backslashes n a +:+ b = backslashes n (a +:+ b).
Proof. induction n as [|n IH]; [done|]. cbn [backslashes]. change (String backslash (backslashes n a) +:+ b) with (String backslash (backslashes n a +:+ b)). by rewrite IH. Qed.

Lemma backslashes_snoc n a : backslashes n (String backslash a) = backslashes (S n) a.
Proof. induction n as [|n IH]; [done|]. cbn [backslashes] in *. by rewrite IH. Qed.

Lemma read_backslashes q n m s : readNextArg q m (backslashes n s) = readNextArg q (n + m) s.
Proof.
  revert m. induction n as [|n IH]; intros m; [done|]. cbn [backslashes readNextArg].
  change (blank backslash && negb q) with false. change (Ascii.eqb backslash quote) with false. rewrite Ascii.eqb_refl, IH.
  by rewrite <- Nat.add_succ_comm.
Qed.

(** What may follow a quoted argument. *)
Definition ended (rest : string) : Prop := match rest with String c _ => blank c = true | EmptyString => True end.
Definition behind (rest : string) : string := match rest with String _ r => r | EmptyString => "" end.

Lemma read_end n rest : ended rest -> readNextArg true (n * 2) (String quote rest) = (backslashes n "", behind rest).
Proof.
  intros Hr. cbn [readNextArg]. change (blank quote && negb true) with false. rewrite Ascii.eqb_refl.
  assert (Nat.even (n * 2) = true) as -> by (rewrite Nat.even_mul; apply orb_true_r).
  assert (Nat.div2 (n * 2) = n) as -> by (rewrite Nat.mul_comm; apply Nat.div2_double).
  destruct rest as [|c rest]; [done|]. cbn in Hr.
  assert (Ascii.eqb c quote = false) as -> by (destruct (Ascii.eqb c quote) eqn:E; [apply Ascii.eqb_eq in E as ->; done|done]).
  cbn [andb readNextArg negb behind]. by rewrite Hr.
Qed.

Lemma read_quoted n a rest : ended rest -> readNextArg true 0 (quoteFrom n a +:+ rest) = (backslashes n a, behind rest).
Proof.
  intros Hr. revert n. induction a as [|c a IH]; intros n; cbn [quoteFrom].
  - rewrite backslashes_app, read_backslashes, Nat.add_0_r. by apply read_end.
  - destruct (Ascii.eqb c backslash) eqn:Eb.
    { apply Ascii.eqb_eq in Eb as ->. by rewrite IH, backslashes_snoc. }
    destruct (Ascii.eqb c quote) eqn:Eq.
    { apply Ascii.eqb_eq in Eq as ->. rewrite backslashes_app, read_backslashes, Nat.add_0_r.
      change (String quote (quoteFrom 0 a) +:+ rest) with (String quote (quoteFrom 0 a +:+ rest)). cbn [readNextArg].
      change (blank quote && negb true) with false. rewrite Ascii.eqb_refl.
      assert (Nat.even (n * 2 + 1) = false) as -> by (rewrite Nat.even_add, Nat.even_mul; by destruct (Nat.even n)).
      assert (Nat.div2 (n * 2 + 1) = n) as -> by (rewrite Nat.add_1_r, Nat.mul_comm; apply Nat.div2_succ_double).
      by rewrite IH. }
    rewrite backslashes_app, read_backslashes, Nat.add_0_r.
    change (String c (quoteFrom 0 a) +:+ rest) with (String c (quoteFrom 0 a +:+ rest)). cbn [readNextArg].
    rewrite andb_false_r, Eq, Eb, IH. done.
Qed.

Lemma read_arg a rest : ended rest -> readNextArg false 0 (quoteWindowsArg a +:+ rest) = (a, behind rest).
Proof.
  intros Hr. unfold quoteWindowsArg. change (String quote (quoteFrom 0 a) +:+ rest) with (String quote (quoteFrom 0 a +:+ rest)).
  cbn [readNextArg]. change (blank quote && negb false) with false. rewrite Ascii.eqb_refl. cbn [Nat.even Nat.div2 negb andb backslashes].
  destruct (quoteFrom 0 a +:+ rest) eqn:E; rewrite <- E; by rewrite read_quoted.
Qed.

Lemma argv_arg fuel a rest : ended rest -> argvFrom (S fuel) (quoteWindowsArg a +:+ rest) = a :: argvFrom fuel (behind rest).
Proof.
  intros Hr. pose proof (read_arg a rest Hr) as H. unfold quoteWindowsArg in *.
  change (String quote (quoteFrom 0 a) +:+ rest) with (String quote (quoteFrom 0 a +:+ rest)) in *.
  cbn [argvFrom]. change (blank quote) with false. cbv iota. by rewrite H.
Qed.


(** ** Lemmas: reports *)

Import Cf(unlines, cleanLine, scanLines_unlines, raw_lines_unlines, oneLine, oneLine_no_space, dropCR_clean).

Lemma send_lines token status : "HELLO " +:+ token +:+ String LF "" +:+ status +:+ String LF "" = unlines ["HELLO " +:+ token; status].
Proof. unfold unlines. cbn [fold_right foldr]. change (String LF (status +:+ String LF "")) with (String LF "" +:+ (status +:+ String LF "")). by rewrite <- !app_assoc_str. Qed.

Lemma oneLine_status a b : oneLine a -> oneLine b -> oneLine (a +:+ b).
Proof. unfold oneLine, no_char. rewrite !str_forall_app, !andb_true_iff. naive_solver. Qed.

Lemma readStatus_sent token status :
  oneLine token -> slen token < 1000 -> oneLine status -> slen status < maxScanTokenSize ->
  status = "READY" \/ HasPrefix status "ERROR " = true ->
  readStatus token ("HELLO " +:+ token +:+ String LF "" +:+ status +:+ String LF "") = Ok status.
Proof.
  intros Ht Hl Hs Hls Hk. unfold readStatus. rewrite send_lines, scanLines_unlines.
  - rewrite String.eqb_refl. cbn [negb]. destruct Hk as [->|Hk]; [done|]. rewrite Hk. by rewrite andb_false_r.
  - assert (oneLine ("HELLO " +:+ token)) as [H1 H2] by by apply oneLine_status.
    constructor; [|constructor; [|done]]; (split; [|split]); try apply Hs; try done.
    rewrite slen_app. change (slen "HELLO ") with 6. unfold maxScanTokenSize. lia.
Qed.

Lemma str_forall_all p s : (forall c, p c = true) -> str_forall p s = true.
Proof. intros H. induction s as [|c s IH]; [done|]. cbn. by rewrite H. Qed.

Lemma errorMessage_oneLine err : oneLine (errorMessage err).
Proof.
  destruct err as [e|]; [|done]. unfold oneLine, no_char, errorMessage, ReplaceChar. rewrite !str_forall_map.
  split; apply str_forall_all; intros c; (destruct (Ascii.eqb c CR) eqn:E1; [done|]; destruct (Ascii.eqb c LF) eqn:E2; [done|]);
    [by rewrite E2|by rewrite E1].
Qed.

(** the guardian that a launcher starts finds the launcher in its environment, and
    both of its reports are read back: that it is ready, and why it is not, as long
    as the reason is shorter than a line of the scanner. *)
Theorem handshake_roundtrip bytes port l :
  NewLauncher (Some bytes) (Some port) = Some l -> Forall (fun b => 0 <= b < 256) bytes -> zlen bytes = 32 -> 0 <= port ->
  exists r, ReporterFromEnv (Guardian.Grd.Getenv (Env l)) = Ok (Some r) /\
    (exists text, Ready r = Some text /\ readStatus (lToken l) text = Ok "READY") /\
    forall e, slen (errorMessage e) + 6 < maxScanTokenSize ->
      exists text, Error r e = Some text /\ readStatus (lToken l) text = Ok ("ERROR " +:+ errorMessage e).
Proof.
  unfold NewLauncher. cbn [mbind option_bind]. intros Hn Hb Hlen Hp.
  assert (l = mkLauncher ("127.0.0.1:" +:+ FormatUint port) (hexEncode bytes)) as -> by congruence. clear Hn. exists (mkReporter ("127.0.0.1:" +:+ FormatUint port) (hexEncode bytes)).
  set (token := hexEncode bytes). cbn [lToken].
  assert (slen token = 64) as Hl by (subst token; rewrite hexEncode_length, Hlen; done).
  assert (no_space token = true) as Hs.
  { pose proof (hexEncode_hex bytes Hb) as Hx. revert Hx. apply class_impl. by vm_compute. }
  assert (oneLine token) as Ho by by apply oneLine_no_space.
  assert (String.eqb token "" = false) as Hne by (destruct (String.eqb_spec token ""); [subst token; rewrite e in Hl|]; done).
  split_and!.
  - set (l := mkLauncher ("127.0.0.1:" +:+ FormatUint port) token).
    assert (Guardian.Grd.Getenv (Env l) envAddr = lAddr l /\ Guardian.Grd.Getenv (Env l) envToken = token) as [E1 E2] by done.
    unfold ReporterFromEnv. rewrite E1, E2. cbn [lAddr l].
    assert (no_space ("127.0.0.1:" +:+ FormatUint port) = true) as Hsp by (unfold no_space; rewrite str_forall_app; apply FormatUint_no_space).
    rewrite !TrimSpace_no_space by done. rewrite Hne, Hl. cbn [Z.eqb negb andb orb].
    assert (String.eqb ("127.0.0.1:" +:+ FormatUint port) "" = false) as -> by done. cbn [andb orb].
    assert (SplitHostPort ("127.0.0.1:" +:+ FormatUint port) = Some ("127.0.0.1", FormatUint port)) as ->; [|done].
    assert (forall ch, existsb (Ascii.eqb ch) [":"; "["; "]"]%char = true -> no_char ch (FormatUint port) = true) as Hd.
    { intros ch Hch. apply FormatUint_forall. intros d Hd. apply (digit_char_cases (fun x => negb (Ascii.eqb x ch) = true)); [done|].
      destruct ch as [[] [] [] [] [] [] [] []]; vm_compute in Hch; try done; by repeat constructor. }
    apply (SplitHostPort_plain "127.0.0.1"); [done|done|done|apply Hd; done..].
  - eexists. split; [unfold Ready, send; cbn [rAddr rToken]; rewrite Hne; reflexivity|].
    apply readStatus_sent; [done|lia|done|done|by left].
  - intros e He. eexists. split; [unfold Error, send; cbn [rAddr rToken]; rewrite Hne; reflexivity|].
    apply readStatus_sent; [done|lia|apply oneLine_status; [done|apply errorMessage_oneLine]| |right; apply has_prefix_app].
    rewrite slen_app. change (slen "ERROR ") with 6. lia.
Qed.

Lemma readStatus_ok token received s :
  readStatus token received = Ok s ->
  (exists rest, (scanLines maxScanTokenSize received).1 = ("HELLO " +:+ token) :: s :: rest) /\
  (s = "READY" \/ s <> "READY" /\ exists m, CutPrefix s "ERROR " = Some m).
Proof.
  unfold readStatus. destruct (scanLines _ _) as [[|hello [|status lines]] e]; [done|destruct (negb _); [done|by destruct e]|].
  destruct (String.eqb_spec hello ("HELLO " +:+ token)) as [->|]; [|done]. cbn [negb fst].
  destruct (negb (String.eqb status "READY") && negb (HasPrefix status "ERROR ")) eqn:E; [done|]. intros [= <-]. split; [by eexists|].
  destruct (String.eqb_spec status "READY"); [by left|]. right. split; [done|]. unfold CutPrefix.
  destruct (HasPrefix status "ERROR "); [by eexists|done].
Qed.

(** What an event says about the start, if anything. *)
Definition decides (token : string) (e : Event) : option (result WaitErr unit) :=
  match e with
  | CtxDone => Some (Err WContext)
  | DeadlineFailed | AcceptFailed => Some (Err WListener)
  | AcceptTimeout => None
  | Connection received =>
      match readStatus token received with
      | Err _ => None
      | Ok s => Some (if String.eqb s "READY" then Ok tt else Err (WReported (TrimSpace (TrimPrefix s "ERROR "))))
      end
  end.

(** the launcher believes only who knows its token.  Its answer is that of the
    first event that says anything; a connection says something exactly if its first
    line is the token, and then the second line is taken: that the start went well, or
    why it failed.  Nobody else can end the wait or forge a result. *)
Theorem only_its_guardian_is_believed token evs :
  Wait token evs = head (omap (decides token) evs) /\
  (forall received r, decides token (Connection received) = Some r ->
     exists s rest, (scanLines maxScanTokenSize received).1 = ("HELLO " +:+ token) :: s :: rest /\
       (s = "READY" /\ r = Ok tt \/ exists m, s = "ERROR " +:+ m /\ r = Err (WReported (TrimSpace m)))).
Proof.
  split.
  - induction evs as [|e evs IH]; [done|]. cbn [Wait omap list_omap].
    destruct e as [| | | |received]; cbn [decides]; try done.
    destruct (readStatus token received) as [s|x] eqn:E; [|done]. destruct (readStatus_ok _ _ _ E) as [_ [->|[Hn [m Hm]]]]; [done|].
    rewrite Hm. destruct (String.eqb_spec s "READY"); [done|]. unfold CutPrefix, TrimPrefix in *. destruct (HasPrefix s "ERROR "); [|done].
    injection Hm as <-. done.
  - intros received r. cbn [decides]. destruct (readStatus token received) as [s|x] eqn:E; [|done]. intros [= <-].
    destruct (readStatus_ok _ _ _ E) as [[rest Hr] Hk]. exists s, rest. split; [exact Hr|].
    destruct Hk as [->|[Hn [m Hm]]]; [by left|]. right. destruct (String.eqb_spec s "READY"); [done|].
    unfold CutPrefix in Hm. destruct (HasPrefix s "ERROR ") eqn:Ep; [|done]. injection Hm as <-. eexists. split; [by apply has_prefix_inv|].
    unfold TrimPrefix. by rewrite Ep.
Qed.

(** ** The companion *)

Lemma trim_right_end p a c : p c = false -> trim_right p (a +:+ String c "") = a +:+ String c "".
Proof.
  intros Hc. induction a as [|x a IH]; [cbn; by rewrite Hc|]. change (String x a +:+ String c "") with (String x (a +:+ String c "")). cbn [trim_right].
  rewrite IH. by destruct a.
Qed.

Definition isSep (c : ascii) : bool := in_chars separators c.
Definition noSep (s : string) : bool := str_forall (fun c => negb (isSep c)) s.

Lemma cutLastSep_none s : noSep s = true -> cutLastSep s = None.
Proof. induction s as [|c s IH]; [done|]. intros [Hc Hs]%andb_true_iff. apply negb_true_iff in Hc. cbn [cutLastSep]. rewrite IH by done. unfold isSep in Hc. by rewrite Hc. Qed.

Lemma cutLastSep_app a c b : isSep c = true -> noSep b = true -> cutLastSep (a +:+ String c b) = Some (a, b).
Proof.
  intros Hc Hb. induction a as [|x a IH].
  - cbn [cutLastSep]. change ("" +:+ String c b) with (String c b). cbn [cutLastSep]. rewrite cutLastSep_none by done. unfold isSep in Hc. by rewrite Hc.
  - change (String x a +:+ String c b) with (String x (a +:+ String c b)). cbn [cutLastSep]. by rewrite IH.
Qed.

(** the program registered for logon is the companion without a window: its
    name is [pxgow.exe], and asked for its own companion it answers itself. *)
Theorem companion_is_windowless sep plainDir console exe :
  isSep sep = true -> BackgroundExecutable sep plainDir console = Ok exe ->
  EqualFold (baseName exe) BackgroundExecutableName = true /\ (exe <> "" -> ContainsChar exe (chr 0) = false ->
    BackgroundExecutable sep plainDir exe = Ok exe).
Proof.
  intros Hsep H.
  assert (EqualFold (baseName exe) BackgroundExecutableName = true) as Hb.
  { revert H. unfold BackgroundExecutable. destruct (validateStartupPath _ _); [done|].
    destruct (EqualFold (baseName console) BackgroundExecutableName) eqn:E; [by intros [= <-]|].
    destruct (_ || _); [by intros [= <-]|]. intros H.
    set (c := if _ && _ then backslash else sep) in H. assert (isSep c = true) as Hc by (subst c; by destruct (_ && _)). clearbody c.
    assert (exe = TrimRight (dirName plainDir console) separators +:+ String c BackgroundExecutableName) as -> by congruence. clear H E.
    unfold baseName. set (d := TrimRight (dirName plainDir console) separators).
    assert (TrimRight (d +:+ String c BackgroundExecutableName) separators = d +:+ String c BackgroundExecutableName) as ->.
    { unfold TrimRight. change (String c BackgroundExecutableName) with (String c "pxgow.ex" +:+ "e"). rewrite app_assoc_str. apply trim_right_end. done. }
    rewrite cutLastSep_app by done. by vm_compute. }
  split; [done|]. intros Hne Hnul. unfold BackgroundExecutable, validateStartupPath.
  destruct (String.eqb_spec exe ""); [done|]. by rewrite Hnul, Hb.
Qed.

(** ** Witnesses *)

Definition toyBytes : list Z := repeat 171 32.
Definition toyLauncher : Launcher := mkLauncher ("127.0.0.1:" +:+ FormatUint 49152) (hexEncode toyBytes).

Lemma handshake_roundtrip_witness :
  exists r text, ReporterFromEnv (Guardian.Grd.Getenv (Env toyLauncher)) = Ok (Some r) /\ Ready r = Some text /\
    Wait (lToken toyLauncher) [AcceptTimeout; Connection "HELLO stranger"; Connection text] = Some (Ok tt).
Proof.
  destruct (handshake_roundtrip toyBytes 49152 toyLauncher eq_refl) as (r & H1 & (text & H2 & H3) & _).
  - repeat (constructor; [lia|]). constructor.
  - reflexivity.
  - lia.
  - exists r, text. split; [exact H1|]. split; [exact H2|]. cbn [Wait].
    replace (readStatus (lToken toyLauncher) "HELLO stranger") with (Err AuthFailed : result StatusErr string) by reflexivity.
    rewrite H3. reflexivity.
Defined.

Definition toyExe : string := "C:\Program Files\PxGo\pxgo.exe".
Definition toyIni : string := "C:\Users\a b\" +:+ String quote "x\pxgo.ini".


Lemma companion_is_windowless_witness :
  EqualFold (baseName "C:\Program Files\PxGo\pxgow.exe") BackgroundExecutableName = true.
Proof. apply (proj1 (companion_is_windowless backslash (fun _ => ".") toyExe "C:\Program Files\PxGo\pxgow.exe" eq_refl eq_refl)). Defined.

Lemma only_its_guardian_is_believed_witness :
  exists s rest, (scanLines maxScanTokenSize ("HELLO t" +:+ String LF "READY")).1 = "HELLO t" :: s :: rest /\
    (s = "READY" /\ (Ok tt : result WaitErr unit) = Ok tt \/ exists m, s = "ERROR " +:+ m /\ Ok tt = Err (WReported (TrimSpace m))).
Proof.
  exact (proj2 (only_its_guardian_is_believed "t" []) ("HELLO t" +:+ String LF "READY") (Ok tt) eq_refl).
Defined.

(** A reason of 65530 characters or more does not fit the scanner: the report is
    dropped, and the launcher waits until its time is over and says so. *)
Example long_reason_is_lost r e :
  rAddr r <> "" -> rToken r <> "" -> oneLine (rToken r) -> slen (rToken r) < 1000 -> maxScanTokenSize <= slen (errorMessage (Some e)) + 6 ->
  exists text, Error r (Some e) = Some text /\ Wait (rToken r) [Connection text; CtxDone] = Some (Err WContext).
Proof.
  intros Ha Ht Ho Hl Hlong. unfold Error, send. destruct (String.eqb_spec (rAddr r) ""); [done|]. destruct (String.eqb_spec (rToken r) ""); [done|].
  eexists. split; [reflexivity|]. cbn [orb Wait].
  assert (oneLine ("HELLO " +:+ rToken r)) as [H1 H2] by by apply oneLine_status.
  assert (oneLine ("ERROR " +:+ errorMessage (Some e))) as [H3 _] by (apply oneLine_status; [done|apply errorMessage_oneLine]).
  unfold readStatus, scanLines. rewrite send_lines, raw_lines_unlines by (repeat constructor; done). cbn [scan_pieces].
  assert ((maxScanTokenSize <=? slen ("HELLO " +:+ rToken r)) = false) as -> by (rewrite slen_app; change (slen "HELLO ") with 6; unfold maxScanTokenSize; lia).
  assert ((maxScanTokenSize <=? slen ("ERROR " +:+ errorMessage (Some e))) = true) as -> by (rewrite slen_app; change (slen "ERROR ") with 6; lia).
  by rewrite dropCR_clean, String.eqb_refl.
Qed.

End Bg.
