(* ===== verification/Artifact.v ===== *)
(** * Artifact: the verifier of release archives ([scripts/verify-release-artifact.go])

    The checksum file, the extraction of the archive and the names in it, the search for the
    binaries, and the icon resources of the Windows binaries: directories of resources and the
    source icon are read from bytes, with every index and slice checked as Go checks it.  The
    readers of tar, zip and PE are Go's, and give their entries; the programs the verifier runs
    answer through its environment. *)

From stdpp Require Import gmap.
From S2P Require Export Prelude GoStrings.
From S2P Require Import GoText.
From coqutil Require Byte Word.LittleEndianList.

#[local] Open Scope Z_scope.

Module Art.

#[local] Abbreviation le := LittleEndianList.le_combine.
#[local] Abbreviation le_split := LittleEndianList.le_split.
#[local] Abbreviation bytes := (list Byte.byte).
#[global] Instance byte_eq : EqDecision Byte.byte := Byte.byte_eq_dec.

(** Errors, and the run-time panic of an index out of range. *)
Inductive AErr :=
| Panic
| EHeader | EDirectory | EFrame (i : Z)
| EDirOffset (offset : Z) | EDirCount (offset : Z) | EDataOffset (offset : Z) | ERVA (rva : Z) | EPayload (rva size : Z)
| EGroupHeader | EGroupCount (n : Z) | EMissingIcon (id : Z) | ENoFrame (id : Z)
| EReadIcon | EIconChecksum | EOpenPE | ENoRsrc | EReadRsrc | EMissing (icons groups : Z) | ENoMatch (last : option AErr)
| ENoHeader | ESubsystem (got want : Z).

(** ** Bytes *)

(** [data[i]] and [data[a:b]]. *)
Definition index (data : bytes) (i : Z) : result AErr Byte.byte :=
  if 0 <=? i then match data !! Z.to_nat i with Some b => Ok b | None => Err Panic end else Err Panic.
Definition slice (data : bytes) (a b : Z) : result AErr bytes :=
  if (0 <=? a) && (a <=? b) && (b <=? zlen data) then Ok (take (Z.to_nat (b - a)) (drop (Z.to_nat a) data)) else Err Panic.
(** [binary.LittleEndian.Uint16] and [Uint32] of a slice. *)
Definition u16 (data : bytes) (off : Z) : result AErr Z := le <$> slice data off (off + 2).
Definition u32 (data : bytes) (off : Z) : result AErr Z := le <$> slice data off (off + 4).

(** A loop that fills a slice. *)
Fixpoint collect {A B} (f : A -> result AErr B) (l : list A) : result AErr (list B) :=
  match l with [] => Ok [] | a :: l => b ← f a; bs ← collect f l; Ok (b :: bs) end.

(** ** The source icon *)

Record icoFrame := mkFrame {
  width : Byte.byte; height : Byte.byte; colorCount : Byte.byte; reserved : Byte.byte;
  planes : Z; bitCount : Z; data : bytes
}.
#[global] Instance icoFrame_eq : EqDecision icoFrame.
Proof. solve_decision. Defined.

(** The two halves of the header: reserved, and the type 1 of icons. *)
Definition iconHeader (bs : bytes) : result AErr bool :=
  if zlen bs <? 6 then Ok false else a ← u16 bs 0; if negb (a =? 0) then Ok false else b ← u16 bs 2; Ok (b =? 1).

Definition icoFrameAt (bs : bytes) (i : Z) : result AErr icoFrame :=
  let off := 6 + i * 16 in
  size ← u32 bs (off + 8);
  imageOffset ← u32 bs (off + 12);
  if (size <=? 0) || (imageOffset <? 0) || (zlen bs <? imageOffset) || (zlen bs - imageOffset <? size) then Err (EFrame i)
  else
    w ← index bs off; h ← index bs (off + 1); c ← index bs (off + 2); r ← index bs (off + 3);
    p ← u16 bs (off + 4); n ← u16 bs (off + 6);
    image ← slice bs imageOffset (imageOffset + size);
    Ok (mkFrame w h c r p n image).

Definition parseICO (bs : bytes) : result AErr (list icoFrame) :=
  good ← iconHeader bs;
  if negb good then Err EHeader
  else
    count ← u16 bs 4;
    if (count =? 0) || (zlen bs <? 6 + count * 16) then Err EDirectory
    else collect (icoFrameAt bs) (seqZ 0 count).

(** ** The resource directories of a binary *)

Record resourceDirEntry := mkEntry { id : Z; named : bool; isDir : bool; offset : Z }.

Definition dirEntryAt (bs : bytes) (start i : Z) : result AErr resourceDirEntry :=
  let off := start + 16 + i * 8 in
  name ← u32 bs off;
  target ← u32 bs (off + 4);
  Ok (mkEntry (Z.land name 0xffff) (negb (Z.land name 0x80000000 =? 0)) (negb (Z.land target 0x80000000 =? 0)) (Z.land target 0x7fffffff)).

Definition resourceDirEntries (bs : bytes) (start : Z) : result AErr (list resourceDirEntry) :=
  if (start <? 0) || (zlen bs <? start) || (zlen bs - start <? 16) then Err (EDirOffset start)
  else
    namedCount ← u16 bs (start + 12);
    idCount ← u16 bs (start + 14);
    let count := namedCount + idCount in
    if (count <? 0) || (zlen bs - (start + 16) <? 8 * count) then Err (EDirCount start)
    else collect (dirEntryAt bs start) (seqZ 0 count).

Definition resourceDataEntry (bs : bytes) (sectionRVA start : Z) : result AErr bytes :=
  if (start <? 0) || (zlen bs <? start) || (zlen bs - start <? 16) then Err (EDataOffset start)
  else
    rva ← u32 bs start;
    size ← u32 bs (start + 4);
    if rva <? sectionRVA then Err (ERVA rva)
    else
      let payloadOffset := rva - sectionRVA in
      if (zlen bs <? payloadOffset) || (zlen bs - payloadOffset <? size) then Err (EPayload rva size)
      else slice bs payloadOffset (payloadOffset + size).

(** The first language of a name that is data. *)
Definition namePayload (bs : bytes) (sectionRVA : Z) (payloads : gmap Z bytes) (name : resourceDirEntry)
  : result AErr (gmap Z bytes) :=
  if named name || negb (isDir name) then Ok payloads
  else
    languages ← resourceDirEntries bs (offset name);
    match List.find (fun l => negb (isDir l)) languages with
    | Some language => payload ← resourceDataEntry bs sectionRVA (offset language); Ok (<[id name := payload]> payloads)
    | None => Ok payloads
    end.

Definition peResourcePayloads (bs : bytes) (sectionRVA typeID : Z) : result AErr (gmap Z bytes) :=
  root ← resourceDirEntries bs 0;
  match List.find (fun e => negb (named e) && (id e =? typeID) && isDir e) root with
  | None => Ok ∅
  | Some typeDir => names ← resourceDirEntries bs (offset typeDir); foldM (namePayload bs sectionRVA) names ∅
  end.

(** ** The group of icons *)

(** What an entry of the group says: its frame, with the payload it names, and the size. *)
Definition groupEntry (group : bytes) (icons : gmap Z bytes) (i : Z) : result AErr (Z * icoFrame * Z) :=
  let off := 6 + i * 14 in
  resourceID ← u16 group (off + 12);
  match icons !! resourceID with
  | None => Err (EMissingIcon resourceID)
  | Some payload =>
      bytesInResource ← u32 group (off + 8);
      w ← index group off; h ← index group (off + 1); c ← index group (off + 2); r ← index group (off + 3);
      p ← u16 group (off + 4); n ← u16 group (off + 6);
      Ok (resourceID, mkFrame w h c r p n payload, bytesInResource)
  end.

Definition sameFrame (entry : icoFrame) (bytesInResource : Z) (frame : icoFrame) : bool :=
  negb (negb (bool_decide (width frame = width entry)) || negb (bool_decide (height frame = height entry))
    || negb (bool_decide (colorCount frame = colorCount entry)) || negb (bool_decide (reserved frame = reserved entry))
    || negb (planes frame =? planes entry) || negb (bitCount frame =? bitCount entry)
    || negb (zlen (data frame) mod 2 ^ 32 =? bytesInResource) || negb (bool_decide (data frame = data entry))).

(** The first frame that is not matched yet and is the same, marked as matched. *)
Fixpoint pick (test : icoFrame -> bool) (frames : list icoFrame) (matched : list bool) : option (list bool) :=
  match frames, matched with
  | f :: frames, m :: matched =>
      if m || negb (test f) then (cons m) <$> pick test frames matched else Some (true :: matched)
  | _, _ => None
  end.

Definition matchEntry (group : bytes) (frames : list icoFrame) (icons : gmap Z bytes) (matched : list bool) (i : Z)
  : result AErr (list bool) :=
  '(resourceID, entry, bytesInResource) ← groupEntry group icons i;
  match pick (sameFrame entry bytesInResource) frames matched with
  | Some matched => Ok matched
  | None => Err (ENoFrame resourceID)
  end.

Definition verifyGroupIcon (group : bytes) (frames : list icoFrame) (icons : gmap Z bytes) : result AErr unit :=
  good ← iconHeader group;
  if negb good then Err EGroupHeader
  else
    count ← u16 group 4;
    if negb (count =? zlen frames) || (zlen group <? 6 + count * 14) then Err (EGroupCount count)
    else _ ← foldM (matchEntry group frames icons) (seqZ 0 count) (replicate (length frames) false); Ok tt.

(** ** The binary *)

(** What [debug/pe] reads of a file. *)
Record Section_ := mkSection { sName : string; sAddress : Z; sData : option bytes }.
Record PEFile := mkPE { sections : list Section_; subsystem : option Z }.

Definition verifyWindowsSubsystem (file : option PEFile) (want : Z) : result AErr unit :=
  match file with
  | None => Err EOpenPE
  | Some f =>
      match subsystem f with
      | None => Err ENoHeader
      | Some got => if negb (got =? want) then Err (ESubsystem got want) else Ok tt
      end
  end.

Definition resourceTypeIcon : Z := 3.
Definition resourceTypeGroupIcon : Z := 14.

(** The groups in the order the map is walked in. *)
Fixpoint anyGroup (groups : list bytes) (frames : list icoFrame) (icons : gmap Z bytes) (lastErr : option AErr) : result AErr unit :=
  match groups with
  | [] => Err (ENoMatch lastErr)
  | group :: groups =>
      match verifyGroupIcon group frames icons with
      | Ok _ => Ok tt
      | Err Panic => Err Panic
      | Err e => anyGroup groups frames icons (Some e)
      end
  end.

Definition windowsIconSHA256 : string := "d84be2b1f38218675a6fc74693826ac3920ce576c4b749d87599230bbbb6208f".

Definition verifyWindowsIcon (sha256 : bytes -> string) (file : option PEFile) (icon : option bytes) : result AErr unit :=
  match icon with
  | None => Err EReadIcon
  | Some iconData =>
      if negb (String.eqb (sha256 iconData) windowsIconSHA256) then Err EIconChecksum
      else
        frames ← parseICO iconData;
        match file with
        | None => Err EOpenPE
        | Some f =>
            match List.find (fun s => String.eqb (sName s) ".rsrc") (sections f) with
            | None => Err ENoRsrc
            | Some section =>
                match sData section with
                | None => Err EReadRsrc
                | Some resourceData =>
                    icons ← peResourcePayloads resourceData (sAddress section) resourceTypeIcon;
                    groups ← peResourcePayloads resourceData (sAddress section) resourceTypeGroupIcon;
                    if bool_decide (icons = ∅) || bool_decide (groups = ∅) then Err (EMissing (Z.of_nat (size icons)) (Z.of_nat (size groups)))
                    else anyGroup (snd <$> map_to_list groups) frames icons None
                end
            end
        end
  end.

(** ** The archive *)

Inductive VErr :=
| VReadChecksums | VNoChecksum (archive : string) | VOpenArchive | VReadArchive | VChecksum (got want : string)
| VTempDir | VUnsafePath (name : string) | VDisk | VNotFound (name : string) | VCompanion (e : VErr) | VReadCompanion | VNotEmbedded
| VIcon (name : string) (e : AErr) | VSubsystem (name : string) (e : AErr)
| VVersionRun | VVersion (got : string) | VHelpRun | VNoUsage | VSmoke.

(** [hash] is the digest of the file in hexadecimal, [None] when reading it fails. *)
Definition checksumWanted (archiveName data : string) : string :=
  match List.find (fun line => let fields := Fields line in
      (2 <=? zlen fields) && String.eqb (TrimPrefix (default "" (last fields)) "*") archiveName) (Split data LF) with
  | Some line => default "" (head (Fields line))
  | None => ""
  end.

Definition verifyChecksum (checksums : option string) (archiveName : string) (archiveOpens : bool) (hash : option string) : result VErr unit :=
  match checksums with
  | None => Err VReadChecksums
  | Some data =>
      let want := checksumWanted archiveName data in
      if String.eqb want "" then Err (VNoChecksum archiveName)
      else if negb archiveOpens then Err VOpenArchive
      else
        match hash with
        | None => Err VReadArchive
        | Some got => if negb (EqualFold got want) then Err (VChecksum got want) else Ok tt
        end
  end.

(** [filepath] is the one of Unix, on which the tar archives are verified. *)
Definition safeJoin (root name : string) : result VErr string :=
  let clean := pathClean name in
  if pathIsAbs clean || String.eqb clean ".." || HasPrefix clean "../" then Err (VUnsafePath name)
  else Ok (pathJoin root clean).

(** What the extraction does to the disk. *)
Inductive Op := MkdirAll (path : string) | WriteFile (path : string) (mode : Z) (content : option string).

Inductive TarType := TypeDir | TypeReg | TypeOther.
(** An entry of the archive; the content breaks off at [None]. *)
Record TarEntry := mkTar { tName : string; tType : TarType; tMode : Z; tContent : option string }.
Record ZipEntry := mkZip { zName : string; zIsDir : bool; zOpens : bool; zContent : option string }.

Section Extract.
(** Whether an operation succeeds. *)
Context (disk : Op -> bool).

Definition opDone (op : Op) : bool := disk op && match op with WriteFile _ _ None => false | _ => true end.

(** Each operation is tried when those before it succeeded. *)
Fixpoint tryOps (ops : list Op) : list Op * result VErr unit :=
  match ops with
  | [] => ([], Ok tt)
  | op :: ops => if opDone op then let '(done, r) := tryOps ops in (op :: done, r) else ([op], Err VDisk)
  end.

Definition tarOps (target : string) (h : TarEntry) : list Op :=
  match tType h with
  | TypeDir => [MkdirAll target]
  | TypeReg => [MkdirAll (pathDir target); WriteFile target (Z.land (tMode h) 511) (tContent h)]
  | TypeOther => []
  end.

(** [None]: the archive is broken here. *)
Fixpoint extractTarGz (dest : string) (entries : list (option TarEntry)) : list Op * result VErr unit :=
  match entries with
  | [] => ([], Ok tt)
  | None :: _ => ([], Err VReadArchive)
  | Some h :: entries =>
      match safeJoin dest (tName h) with
      | Err e => ([], Err e)
      | Ok target =>
          match tryOps (tarOps target h) with
          | (done, Err e) => (done, Err e)
          | (done, Ok _) => let '(done', r) := extractTarGz dest entries in (done ++ done', r)
          end
      end
  end.

(** The directory of the file is made before the entry is opened. *)
Definition zipOps (target : string) (f : ZipEntry) : list Op * result VErr unit :=
  if zIsDir f then tryOps [MkdirAll target]
  else
    match tryOps [MkdirAll (pathDir target)] with
    | (done, Err e) => (done, Err e)
    | (done, Ok _) =>
        if negb (zOpens f) then (done, Err VReadArchive)
        else let '(done', r) := tryOps [WriteFile target 493 (zContent f)] in (done ++ done', r)
    end.

Fixpoint extractZip (dest : string) (entries : list ZipEntry) : list Op * result VErr unit :=
  match entries with
  | [] => ([], Ok tt)
  | f :: entries =>
      match safeJoin dest (zName f) with
      | Err e => ([], Err e)
      | Ok target =>
          match zipOps target f with
          | (done, Err e) => (done, Err e)
          | (done, Ok _) => let '(done', r) := extractZip dest entries in (done ++ done', r)
          end
      end
  end.
End Extract.

(** ** The search for a file, in the order of a directory walk *)

Inductive Node := NFile | NDir (entries : list (string * Node)).

(** [filepath.WalkDir]: the first file with the name, letters of both cases alike. *)
Fixpoint findFile (path : string) (base : string) (node : Node) (name : string) : option string :=
  match node with
  | NFile => if EqualFold base name then Some path else None
  | NDir entries =>
      (fix walk (entries : list (string * Node)) : option string :=
         match entries with
         | [] => None
         | (n, node) :: entries =>
             match findFile (pathJoin path n) n node name with Some found => Some found | None => walk entries end
         end) entries
  end.

(** ** The whole verification *)

(** What the verifier reads and runs. *)
Record Env := mkEnv {
  readFile : string -> option bytes;
  sha256 : bytes -> string;
  mkdirTemp : option string;
  tarEntries : option (list (option TarEntry));
  zipEntries : option (list ZipEntry);
  disk : Op -> bool;
  tree : list Op -> Node;                       (* the directory after the extraction *)
  chmod : string -> bool;
  peOpen : string -> option PEFile;
  run : string -> string -> option string;      (* the output of a program with one argument *)
  smokeProxy : string -> bool;
  smokeBackground : string -> string -> bool
}.

Definition text (bs : bytes) : string := String.string_of_list_byte bs.

Definition verifyCandidate (env : Env) (name path : string) (want : Z) : result VErr unit :=
  match verifyWindowsSubsystem (peOpen env path) want with
  | Err e => Err (VSubsystem name e)
  | Ok _ =>
      match verifyWindowsIcon (sha256 env) (peOpen env path) (readFile env "assets/windows/pxgo.ico") with
      | Err e => Err (VIcon name e)
      | Ok _ => Ok tt
      end
  end.

Definition verifyWindows (env : Env) (found : string -> result VErr string) (binaryPath expectedVersion : string) : result VErr unit :=
  match found "pxgow.exe" with
  | Err e => Err (VCompanion e)
  | Ok backgroundPath =>
      _ ← (if String.eqb expectedVersion "" then Ok tt
           else
             match readFile env backgroundPath with
             | None => Err VReadCompanion
             | Some data => if negb (Contains (text data) expectedVersion) then Err VNotEmbedded else Ok tt
             end);
      _ ← verifyCandidate env "pxgo.exe" binaryPath 3;
      verifyCandidate env "pxgow.exe" backgroundPath 2
  end.

Definition verifyVersion (env : Env) (binaryPath expectedVersion : string) : result VErr unit :=
  match run env binaryPath "--version" with
  | None => Err VVersionRun
  | Some out =>
      let gotVersion := TrimSpace out in
      if String.eqb gotVersion "" || String.eqb gotVersion "dev" then Err (VVersion gotVersion)
      else if negb (String.eqb expectedVersion "") && negb (String.eqb gotVersion expectedVersion) then Err (VVersion gotVersion)
      else
        match run env binaryPath "--help" with
        | None => Err VHelpRun
        | Some help => if negb (Contains help "Usage:") then Err VNoUsage else Ok tt
        end
  end.

Definition verify (env : Env) (dist targetOS targetArch expectedVersion : string) : result VErr unit :=
  let windows := String.eqb targetOS "windows" in
  let archiveName := "pxgo_" +:+ targetOS +:+ "_" +:+ targetArch +:+ (if windows then ".zip" else ".tar.gz") in
  let binaryName := if windows then "pxgo.exe" else "pxgo" in
  let archive := readFile env (pathJoin dist archiveName) in
  _ ← verifyChecksum (text <$> readFile env (pathJoin dist "checksums.txt")) archiveName (bool_decide (is_Some archive)) (sha256 env <$> archive);
  match mkdirTemp env with
  | None => Err VTempDir
  | Some extractDir =>
      let '(ops, extracted) :=
        if windows then match zipEntries env with None => ([], Err VReadArchive) | Some es => extractZip (disk env) extractDir es end
        else match tarEntries env with None => ([], Err VReadArchive) | Some es => extractTarGz (disk env) extractDir es end in
      _ ← extracted;
      let found name := match findFile extractDir (pathBase extractDir) (tree env ops) name with Some p => Ok p | None => Err (VNotFound name) end in
      binaryPath ← found binaryName;
      _ ← (if windows then verifyWindows env found binaryPath expectedVersion
           else if chmod env binaryPath then Ok tt else Err VDisk);
      _ ← verifyVersion env binaryPath expectedVersion;
      if negb (smokeProxy env binaryPath) then Err VSmoke
      else if windows then backgroundPath ← found "pxgow.exe"; if smokeBackground env binaryPath backgroundPath then Ok tt else Err VSmoke
      else Ok tt
  end.

(** * Lemmas *)

(** ** Indices in range *)

Definition safe {A} (r : result AErr A) : Prop := r <> Err Panic.

Lemma safe_ok {A} (a : A) : safe (Ok a).
Proof. done. Qed.
Lemma safe_err {A} e : e <> Panic -> safe (A := A) (Err e).
Proof. by intros H [= ->]. Qed.
Lemma safe_bind {A B} (m : result AErr A) (k : A -> result AErr B) : safe m -> (forall a, m = Ok a -> safe (k a)) -> safe (a ← m; k a).
Proof. intros Hm Hk. destruct m as [a|e]; [by apply Hk|]. intros [= ->]. by apply Hm. Qed.
Lemma safe_collect {A B} (f : A -> result AErr B) l : (forall a, a ∈ l -> safe (f a)) -> safe (collect f l).
Proof.
  induction l as [|a l IH]; intros H; [done|]. cbn [collect]. apply safe_bind; [apply H; by left|]. intros b _.
  apply safe_bind; [|done]. apply IH. intros. apply H. by right.
Qed.
Lemma safe_foldM {A S} (f : S -> A -> result AErr S) l s : (forall s a, a ∈ l -> safe (f s a)) -> safe (foldM f l s).
Proof.
  revert s. induction l as [|a l IH]; intros s H; [done|]. cbn [foldM]. apply safe_bind; [apply H; by left|].
  intros s' _. apply IH. intros. apply H. by right.
Qed.

Lemma slice_ok bs a b : 0 <= a <= b -> b <= zlen bs -> exists s, slice bs a b = Ok s /\ zlen s = b - a.
Proof.
  intros Ha Hb. unfold slice. replace (_ && _) with true by lia. eexists. split; [done|].
  unfold zlen in *. rewrite length_take, length_drop. lia.
Qed.
Lemma u_ok bs a n : 0 <= a -> 0 <= n -> a + n <= zlen bs -> exists v, le <$> slice bs a (a + n) = Ok v /\ 0 <= v < 2 ^ (8 * n).
Proof.
  intros Ha Hn Hb. destruct (slice_ok bs a (a + n)) as (s & -> & Hs); [lia..|]. eexists. split; [done|].
  pose proof (LittleEndianList.le_combine_bound s) as H. unfold zlen in Hs. by replace (Z.of_nat (length s)) with n in H by lia.
Qed.
Lemma u16_ok bs a : 0 <= a -> a + 2 <= zlen bs -> exists v, u16 bs a = Ok v /\ 0 <= v < 2 ^ 16.
Proof. intros. by apply (u_ok bs a 2). Qed.
Lemma u32_ok bs a : 0 <= a -> a + 4 <= zlen bs -> exists v, u32 bs a = Ok v /\ 0 <= v < 2 ^ 32.
Proof. intros. by apply (u_ok bs a 4). Qed.
Lemma index_ok bs i : 0 <= i < zlen bs -> exists b, index bs i = Ok b.
Proof.
  intros Hi. unfold index. replace (0 <=? i) with true by lia. unfold zlen in Hi.
  destruct (lookup_lt_is_Some_2 bs (Z.to_nat i)) as [b ->]; [lia|]. by eexists.
Qed.

(** One read of a field that is in range. *)
Ltac read :=
  match goal with
  | |- safe (mbind _ (u16 ?bs ?a)) => let v := fresh "v" in destruct (u16_ok bs a) as (v & -> & ?); [lia..|]; cbn [mbind result_bind]
  | |- safe (mbind _ (u32 ?bs ?a)) => let v := fresh "v" in destruct (u32_ok bs a) as (v & -> & ?); [lia..|]; cbn [mbind result_bind]
  | |- safe (mbind _ (index ?bs ?a)) => let v := fresh "v" in destruct (index_ok bs a) as (v & ->); [lia..|]; cbn [mbind result_bind]
  | |- safe (mbind _ (slice ?bs ?a ?b)) => let v := fresh "s" in destruct (slice_ok bs a b) as (v & -> & ?); [lia..|]; cbn [mbind result_bind]
  end.

Lemma header_ok bs : exists good, iconHeader bs = Ok good /\ (good = true -> 6 <= zlen bs).
Proof.
  unfold iconHeader. destruct (Z.ltb_spec (zlen bs) 6); [by eexists|].
  destruct (u16_ok bs 0) as (a & -> & _); [lia..|]. cbn [mbind result_bind]. destruct (negb _); [by eexists|].
  destruct (u16_ok bs 2) as (b & -> & _); [lia..|]. by eexists.
Qed.

Lemma seqZ_elem i n : i ∈ seqZ 0 n -> 0 <= i < n.
Proof. rewrite elem_of_seqZ. lia. Qed.

Lemma parseICO_safe bs : safe (parseICO bs).
Proof.
  unfold parseICO. destruct (header_ok bs) as ([] & -> & Hl); [|done]. specialize (Hl eq_refl). cbn [mbind result_bind negb].
  read. destruct (_ || _) eqn:E; [done|]. to_prop. apply safe_collect. intros i Hi%seqZ_elem. unfold icoFrameAt. do 2 read.
  destruct (_ || _) eqn:E'; [done|]. to_prop. do 7 read. done.
Qed.

Lemma dirEntries_safe bs start : safe (resourceDirEntries bs start).
Proof.
  unfold resourceDirEntries. destruct (_ || _) eqn:E; [done|]. to_prop. do 2 read.
  destruct ((_ <? 0) || _) eqn:E'; [done|]. to_prop. apply safe_collect. intros i Hi%seqZ_elem. unfold dirEntryAt. do 2 read. done.
Qed.

Lemma dataEntry_safe bs rva start : safe (resourceDataEntry bs rva start).
Proof.
  unfold resourceDataEntry. destruct (_ || _) eqn:E; [done|]. to_prop. do 2 read. destruct (Z.ltb_spec v rva); [done|].
  destruct (_ || _) eqn:E'; [done|]. to_prop. destruct (slice_ok bs (v - rva) (v - rva + v0)) as (s & -> & _); [lia..|]. done.
Qed.

Lemma payloads_safe bs rva typeID : safe (peResourcePayloads bs rva typeID).
Proof.
  unfold peResourcePayloads. apply safe_bind; [apply dirEntries_safe|]. intros root _. destruct (List.find _ root); [|done].
  apply safe_bind; [apply dirEntries_safe|]. intros names _. apply safe_foldM. intros s name _. unfold namePayload.
  destruct (_ || _); [done|]. apply safe_bind; [apply dirEntries_safe|]. intros ls _. destruct (List.find _ ls); [|done].
  apply safe_bind; [apply dataEntry_safe|done].
Qed.

Lemma groupEntry_safe group icons i : 0 <= i -> 6 + (i + 1) * 14 <= zlen group -> safe (groupEntry group icons i).
Proof. intros Hi Hl. unfold groupEntry. read. destruct (icons !! v); [|done]. do 7 read. done. Qed.

Lemma group_safe group frames icons : safe (verifyGroupIcon group frames icons).
Proof.
  unfold verifyGroupIcon. destruct (header_ok group) as ([] & -> & Hl); [|done]. specialize (Hl eq_refl). cbn [mbind result_bind negb].
  read. destruct (_ || _) eqn:E; [done|]. to_prop. apply safe_bind; [|done]. apply safe_foldM. intros matched i Hi%seqZ_elem.
  unfold matchEntry. apply safe_bind; [apply groupEntry_safe; lia|]. intros [[r f] b] _. by destruct (pick _ _ _).
Qed.

Lemma anyGroup_safe groups frames icons e : safe (anyGroup groups frames icons e).
Proof.
  revert e. induction groups as [|g groups IH]; intros e; [done|]. cbn [anyGroup]. pose proof (group_safe g frames icons) as Hg.
  destruct (verifyGroupIcon g frames icons) as [|[]]; try done; apply IH.
Qed.

(** whatever bytes the icon and the binary hold, the parsers of icons, of resource directories and of
    icon groups never index or slice beyond what they were given. *)
Theorem icon_parsers_never_panic sha256 file icon : verifyWindowsIcon sha256 file icon <> Err Panic.
Proof.
  change (safe (verifyWindowsIcon sha256 file icon)). unfold verifyWindowsIcon. destruct icon as [iconData|]; [|done].
  destruct (negb _); [done|]. apply safe_bind; [apply parseICO_safe|]. intros frames _. destruct file as [f|]; [|done].
  destruct (List.find _ _) as [section|]; [|done]. destruct (sData section) as [d|]; [|done].
  apply safe_bind; [apply payloads_safe|]. intros icons _. apply safe_bind; [apply payloads_safe|]. intros groups _.
  destruct (_ || _); [done|]. apply anyGroup_safe.
Qed.

Example icon_header_checked : verifyWindowsIcon (fun _ => windowsIconSHA256) None (Some [Byte.x00]) = Err EHeader.
Proof. reflexivity. Qed.

(** ** Reading back an icon *)

Lemma slice_app a b c i j : i = zlen a -> j = zlen a + zlen b -> slice (a ++ b ++ c) i j = Ok b.
Proof.
  intros -> ->. unfold slice. pose proof (zlen_nonneg a). pose proof (zlen_nonneg b). pose proof (zlen_nonneg c).
  replace (_ && _) with true by (rewrite !zlen_app; lia). f_equal.
  replace (Z.to_nat (zlen a)) with (length a) by (unfold zlen; lia). rewrite drop_app_length.
  replace (Z.to_nat _) with (length b) by (unfold zlen; lia). by rewrite take_app_length.
Qed.

Lemma le_of_split n v : 0 <= v < 2 ^ (Z.of_nat n * 8) -> le (le_split n v) = v.
Proof. intros H. rewrite LittleEndianList.le_combine_split. by apply Z.mod_small. Qed.

Lemma zlen_split n v : zlen (le_split n v) = Z.of_nat n.
Proof. unfold zlen. by rewrite LittleEndianList.length_le_split. Qed.
(** Reading the fields of a record that stands at [off]. *)
Lemma u16_at bs a v c off : bs = a ++ le_split 2 v ++ c -> off = zlen a -> 0 <= v < 2 ^ 16 -> u16 bs off = Ok v.
Proof.
  intros -> -> Hv. unfold u16. rewrite (slice_app a (le_split 2 v) c) by (try done; by rewrite zlen_split).
  cbn [fmap result_fmap]. by rewrite le_of_split.
Qed.
Lemma u32_at bs a v c off : bs = a ++ le_split 4 v ++ c -> off = zlen a -> 0 <= v < 2 ^ 32 -> u32 bs off = Ok v.
Proof.
  intros -> -> Hv. unfold u32. rewrite (slice_app a (le_split 4 v) c) by (try done; by rewrite zlen_split).
  cbn [fmap result_fmap]. by rewrite le_of_split.
Qed.
Lemma index_at bs a x c off : bs = a ++ x :: c -> off = zlen a -> index bs off = Ok x.
Proof.
  intros -> ->. unfold index, zlen. replace (0 <=? Z.of_nat (length a)) with true by (symmetry; apply Z.leb_le; lia).
  replace (Z.to_nat (Z.of_nat (length a))) with (length a + 0)%nat by lia. by rewrite lookup_app_r, Nat.add_0_r, Nat.sub_diag by lia.
Qed.

Lemma collect_spec {A B} (f : A -> result AErr B) l r : Forall2 (fun a b => f a = Ok b) l r -> collect f l = Ok r.
Proof. induction 1 as [|a b l r Hab _ IH]; [done|]. cbn [collect]. rewrite Hab. cbn [mbind result_bind]. by rewrite IH. Qed.

(** The layout of an icon: the header, a directory entry of 16 bytes per frame, the images. *)
Definition dirEntry (f : icoFrame) (imageOffset : Z) : bytes :=
  [width f; height f; colorCount f; reserved f] ++ le_split 2 (planes f) ++ le_split 2 (bitCount f)
    ++ le_split 4 (zlen (data f)) ++ le_split 4 imageOffset.
Fixpoint directory (frames : list icoFrame) (imageOffset : Z) : bytes :=
  match frames with [] => [] | f :: frames => dirEntry f imageOffset ++ directory frames (imageOffset + zlen (data f)) end.
Fixpoint images (frames : list icoFrame) : bytes := match frames with [] => [] | f :: frames => data f ++ images frames end.
Definition encodeICO (frames : list icoFrame) : bytes :=
  le_split 2 0 ++ le_split 2 1 ++ le_split 2 (zlen frames) ++ directory frames (6 + zlen frames * 16) ++ images frames.

Definition frameFits (f : icoFrame) : Prop := 0 <= planes f < 2 ^ 16 /\ 0 <= bitCount f < 2 ^ 16 /\ data f <> [].

Lemma zlen_entry f o : zlen (dirEntry f o) = 16.
Proof. unfold dirEntry. by rewrite !zlen_app, !zlen_split. Qed.
Lemma zlen_directory fs o : zlen (directory fs o) = zlen fs * 16.
Proof. revert o. induction fs as [|f fs IH]; intros o; [done|]. cbn [directory]. rewrite zlen_app, zlen_entry, IH, zlen_cons. lia. Qed.
Lemma directory_app a b o : directory (a ++ b) o = directory a o ++ directory b (o + zlen (images a)).
Proof.
  revert o. induction a as [|f a IH]; intros o; cbn [app directory images].
  - by replace (o + zlen []) with o by (unfold zlen; cbn; lia).
  - rewrite IH, <- app_assoc, zlen_app. by rewrite Z.add_assoc.
Qed.
Lemma images_app a b : images (a ++ b) = images a ++ images b.
Proof. induction a as [|f a IH]; [done|]. cbn [app images]. by rewrite IH, app_assoc. Qed.

(** The fields of a directory entry. *)
Lemma fields_at bs front f o back :
  bs = front ++ dirEntry f o ++ back -> frameFits f -> zlen (data f) < 2 ^ 32 -> 0 <= o < 2 ^ 32 ->
  let off := zlen front in
  index bs off = Ok (width f) /\ index bs (off + 1) = Ok (height f) /\ index bs (off + 2) = Ok (colorCount f) /\
  index bs (off + 3) = Ok (reserved f) /\ u16 bs (off + 4) = Ok (planes f) /\ u16 bs (off + 6) = Ok (bitCount f) /\
  u32 bs (off + 8) = Ok (zlen (data f)) /\ u32 bs (off + 12) = Ok o.
Proof.
  intros E (Hp & Hb & _) Hd Ho off. unfold dirEntry in E. pose proof (zlen_nonneg (data f)). set (h := [width f; height f; colorCount f; reserved f]) in E.
  assert (forall l : bytes, zlen (front ++ l) = off + zlen l) as Hz by (intros l; by rewrite zlen_app).
  split_and!.
  - eapply (index_at _ front). { rewrite E. subst h. cbn [app]. done. } done.
  - eapply (index_at _ (front ++ [width f])). { rewrite E, <- (app_assoc front). subst h. cbn [app]. reflexivity. } by rewrite Hz.
  - eapply (index_at _ (front ++ [width f; height f])). { rewrite E, <- (app_assoc front). subst h. cbn [app]. reflexivity. } by rewrite Hz.
  - eapply (index_at _ (front ++ [width f; height f; colorCount f])). { rewrite E, <- (app_assoc front). subst h. cbn [app]. reflexivity. } by rewrite Hz.
  - eapply (u16_at _ (front ++ h)); [|by rewrite Hz|done]. by rewrite E, <- !app_assoc.
  - eapply (u16_at _ (front ++ h ++ le_split 2 (planes f))); [|rewrite Hz, ?zlen_app, ?zlen_split; change (zlen h) with 4; lia|done]. by rewrite E, <- !app_assoc.
  - eapply (u32_at _ (front ++ h ++ le_split 2 (planes f) ++ le_split 2 (bitCount f))); [|rewrite Hz, ?zlen_app, ?zlen_split; change (zlen h) with 4; lia|done].
    by rewrite E, <- !app_assoc.
  - eapply (u32_at _ (front ++ h ++ le_split 2 (planes f) ++ le_split 2 (bitCount f) ++ le_split 4 (zlen (data f)))); [|rewrite Hz, ?zlen_app, ?zlen_split; change (zlen h) with 4; lia|done].
    by rewrite E, <- !app_assoc.
Qed.

(** One frame is read back, wherever it stands. *)
Lemma frame_read_back fs f gs :
  frameFits f -> zlen (encodeICO (fs ++ f :: gs)) < 2 ^ 32 -> icoFrameAt (encodeICO (fs ++ f :: gs)) (zlen fs) = Ok f.
Proof.
  intros Hf Hlen. unfold encodeICO in *. rewrite directory_app, images_app in *. cbn [directory images] in *.
  set (n := zlen (fs ++ f :: gs)) in *. set (o := 6 + n * 16) in *. set (o' := o + zlen (images fs)) in *.
  set (bs := le_split 2 0 ++ _) in *.
  set (front := le_split 2 0 ++ le_split 2 1 ++ le_split 2 n ++ directory fs o).
  set (mid := directory gs (o' + zlen (data f)) ++ images fs).
  assert (bs = front ++ dirEntry f o' ++ mid ++ data f ++ images gs) as E.
  { subst bs front mid. by rewrite <- !app_assoc. }
  assert (zlen front = 6 + zlen fs * 16) as Hfront by (subst front; rewrite !zlen_app, zlen_directory, !zlen_split; lia).
  assert (zlen (front ++ dirEntry f o' ++ mid) = o') as Ho'.
  { subst mid. rewrite !zlen_app, Hfront, zlen_entry, zlen_directory. subst o' o n. rewrite zlen_app, zlen_cons. lia. }
  assert (bs = (front ++ dirEntry f o' ++ mid) ++ data f ++ images gs) as E' by (rewrite E; by rewrite <- !app_assoc).
  assert (zlen bs = o' + zlen (data f) + zlen (images gs)) as Hbs by (rewrite E', zlen_app, Ho', zlen_app; lia).
  pose proof (zlen_nonneg (images gs)). pose proof (zlen_nonneg (front ++ dirEntry f o' ++ mid)).
  assert (0 < zlen (data f)) as Hd.
  { destruct Hf as (_ & _ & Hne). destruct (data f) as [|b l]; [done|]. rewrite zlen_cons. pose proof (zlen_nonneg l). lia. }
  destruct (fields_at bs front f o' (mid ++ data f ++ images gs)) as (F1 & F2 & F3 & F4 & F5 & F6 & F7 & F8); [done|done|lia..|].
  rewrite Hfront in *. unfold icoFrameAt. rewrite F7, F8. cbn [mbind result_bind]. rewrite Hbs. replace (_ || _) with false by lia.
  rewrite F1, F2, F3, F4, F5, F6. cbn [mbind result_bind].
  rewrite E', (slice_app (front ++ dirEntry f o' ++ mid) (data f) (images gs)) by lia. cbn [mbind result_bind]. by destruct f.
Qed.

(** every icon laid out as the format says, a header, a directory and the images, is read back with
    the fields and the image of each of its frames. *)
Theorem icon_roundtrip frames :
  frames <> [] -> zlen frames < 2 ^ 16 -> Forall frameFits frames -> zlen (encodeICO frames) < 2 ^ 32 ->
  parseICO (encodeICO frames) = Ok frames.
Proof.
  intros Hne Hn Hf Hlen. pose proof (zlen_nonneg frames). pose proof (zlen_nonneg (images frames)).
  assert (0 < zlen frames) by (destruct frames as [|f l]; [done|]; rewrite zlen_cons; pose proof (zlen_nonneg l); lia).
  set (bs := encodeICO frames) in *.
  assert (zlen bs = 6 + zlen frames * 16 + zlen (images frames)) as Hbs
    by (subst bs; unfold encodeICO; rewrite !zlen_app, !zlen_split, zlen_directory; lia).
  unfold parseICO, iconHeader. replace (zlen bs <? 6) with false by lia.
  set (rest := directory frames (6 + zlen frames * 16) ++ images frames).
  rewrite (u16_at bs [] 0 (le_split 2 1 ++ le_split 2 (zlen frames) ++ rest) 0) by (reflexivity || lia). cbn [mbind result_bind Z.eqb negb].
  rewrite (u16_at bs (le_split 2 0) 1 (le_split 2 (zlen frames) ++ rest) 2) by (reflexivity || lia). cbn [mbind result_bind Z.eqb Pos.eqb negb].
  rewrite (u16_at bs (le_split 2 0 ++ le_split 2 1) (zlen frames) rest 4) by (reflexivity || lia).
  cbn [mbind result_bind]. replace (_ || _) with false by lia. apply collect_spec.
  apply Forall2_same_length_lookup_2.
  { rewrite length_seqZ. unfold zlen. lia. }
  intros i x f Hx Hi. apply lookup_seqZ in Hx as [-> Hx]. subst bs.
  assert (i < length frames)%nat as Hlt by (eapply lookup_lt_Some; eauto).
  pose proof (take_drop_middle frames i f Hi) as Es. rewrite <- Es.
  replace (0 + Z.of_nat i) with (zlen (take i frames)) by (unfold zlen; rewrite length_take; lia).
  apply frame_read_back; [|by rewrite Es]. rewrite Forall_lookup in Hf. by apply (Hf i).
Qed.

Definition twoFrames : list icoFrame :=
  [mkFrame Byte.x10 Byte.x10 Byte.x00 Byte.x00 1 32 [Byte.x01; Byte.x02]; mkFrame Byte.x20 Byte.x20 Byte.x00 Byte.x00 1 32 [Byte.x03]].
Theorem icon_roundtrip_witness : parseICO (encodeICO twoFrames) = Ok twoFrames.
Proof. apply (icon_roundtrip twoFrames); [done|by vm_compute|repeat constructor; done|by vm_compute]. Defined.

(** ** Matching the group *)

(** The frames that are not matched yet. *)
Fixpoint unmatched (frames : list icoFrame) (matched : list bool) : list icoFrame :=
  match frames, matched with
  | f :: frames, m :: matched => if m then unmatched frames matched else f :: unmatched frames matched
  | _, _ => []
  end.

Lemma unmatched_all frames : unmatched frames (replicate (length frames) false) = frames.
Proof. induction frames as [|f fs IH]; [done|]. cbn [length replicate unmatched]. by rewrite IH. Qed.

Lemma pick_some test frames matched m' : length matched = length frames -> pick test frames matched = Some m' ->
  length m' = length frames /\ exists f, test f = true /\ Permutation (unmatched frames matched) (f :: unmatched frames m').
Proof.
  revert matched m'. induction frames as [|f frames IH]; intros [|m matched] m' Hl; cbn [pick]; try done. cbn [length] in Hl.
  destruct (m || negb (test f)) eqn:E.
  - destruct (pick test frames matched) as [m0|] eqn:Ep; [|done]. cbn [fmap option_fmap option_map]. intros [= <-].
    destruct (IH matched m0 ltac:(lia) Ep) as (Hl' & g & Hg & Hp). split; [cbn [length]; by rewrite Hl'|]. exists g. split; [done|].
    cbn [unmatched]. destruct m; [done|]. etransitivity; [by apply perm_skip, Hp|constructor].
  - intros [= <-]. apply orb_false_iff in E as [-> E]. split; [cbn [length]; lia|]. exists f. split; [by destruct (test f)|done].
Qed.

Lemma pick_none test frames matched : length matched = length frames -> pick test frames matched = None ->
  Forall (fun f => test f = false) (unmatched frames matched).
Proof.
  revert matched. induction frames as [|f frames IH]; intros [|m matched] Hl; cbn [pick unmatched]; try done. cbn [length] in Hl.
  destruct (m || negb (test f)) eqn:E; [|done]. destruct (pick test frames matched) as [m0|] eqn:Ep; [done|]. intros _.
  specialize (IH matched ltac:(lia) Ep). destruct m; [done|]. constructor; [by destruct (test f)|done].
Qed.

Lemma sameFrame_spec e n f : sameFrame e n f = true <-> f = e /\ n = zlen (data e) mod 2 ^ 32.
Proof.
  unfold sameFrame. destruct e as [w h c r p b d], f as [w' h' c' r' p' b' d']. cbn [width height colorCount reserved planes bitCount data].
  rewrite negb_true_iff, !orb_false_iff, !negb_false_iff, !bool_decide_eq_true, !Z.eqb_eq. split.
  - intros (((((((-> & ->) & ->) & ->) & ->) & ->) & <-) & ->). done.
  - intros ([= -> -> -> -> -> -> ->] & ->). by split_and!.
Qed.

(** The size an entry gives is the one of its image. *)
Definition sized (e : Z * icoFrame * Z) : Prop := e.2 = zlen (data e.1.2) mod 2 ^ 32.

Lemma matchEntry_eq group frames icons matched i : matchEntry group frames icons matched i =
  ('(resourceID, e, n) ← groupEntry group icons i;
   match pick (sameFrame e n) frames matched with Some matched => Ok matched | None => Err (ENoFrame resourceID) end).
Proof. done. Qed.

Lemma match_loop group frames icons l matched : length matched = length frames ->
  (exists m', foldM (matchEntry group frames icons) l matched = Ok m') <->
  exists es rest, collect (groupEntry group icons) l = Ok es /\ Forall sized es /\
    Permutation (map (fun e => e.1.2) es ++ rest) (unmatched frames matched).
Proof.
  revert matched. induction l as [|i l IH]; intros matched Hl; cbn [foldM collect].
  { split; [|by eexists]. intros _. exists [], (unmatched frames matched). done. }
  rewrite matchEntry_eq. destruct (groupEntry group icons i) as [[[id_ e] n]|err]; cbn [mbind result_bind];
    [|split; [by intros [? ?]|by intros (? & ? & ? & _)]].
  destruct (pick (sameFrame e n) frames matched) as [m'|] eqn:Ep.
  - destruct (pick_some _ _ _ _ Hl Ep) as (Hl' & f & (-> & Hn)%sameFrame_spec & Hp). cbn [mbind result_bind]. rewrite IH by done. split.
    + intros (es & rest & -> & Hs & Hperm). exists ((id_, e, n) :: es), rest. split; [done|]. split; [by constructor|].
      cbn [map app]. etransitivity; [by apply perm_skip, Hperm|by symmetry].
    + intros (es & rest & Hc & Hs & Hperm). destruct (collect _ l) as [es'|]; [|done]. cbn [mbind result_bind] in Hc.
      injection Hc as <-. exists es', rest. apply Forall_cons in Hs as [_ Hs]. split_and!; [done|done|].
      eapply Permutation_cons_inv. etransitivity; [apply Hperm|apply Hp].
  - cbn [mbind result_bind]. split; [by intros [? ?]|]. intros (es & rest & Hc & Hs & Hperm). exfalso.
    destruct (collect _ l) as [es'|]; [|done]. cbn [mbind result_bind] in Hc. injection Hc as <-.
    apply Forall_cons in Hs as [Hs _]. pose proof (pick_none _ _ _ Hl Ep) as Hf. rewrite Forall_forall in Hf.
    assert (e ∈ unmatched frames matched) as He by (eapply elem_of_Permutation_proper; [symmetry; apply Hperm|by left]). specialize (Hf e He). assert (sameFrame e n e = true) by (by apply sameFrame_spec). congruence.
Qed.

Lemma collect_length {A B} (f : A -> result AErr B) l r : collect f l = Ok r -> length r = length l.
Proof.
  revert r. induction l as [|a l IH]; intros r; cbn [collect]; [by intros [= <-]|]. destruct (f a); [|done].
  cbn [mbind result_bind]. destruct (collect f l) as [bs|] eqn:E; [|done]. cbn [mbind result_bind]. intros [= <-]. cbn [length]. by rewrite (IH bs).
Qed.

(** a group of icons is accepted exactly when its header is right, it has one entry per frame of the
    source icon, every entry names an icon that is there, with its size, and the frames so described are
    the frames of the source icon in some order: none missing, none twice. *)
Theorem group_is_permutation group frames icons :
  verifyGroupIcon group frames icons = Ok tt <->
  iconHeader group = Ok true /\ u16 group 4 = Ok (zlen frames) /\ 6 + zlen frames * 14 <= zlen group /\
  exists es, collect (groupEntry group icons) (seqZ 0 (zlen frames)) = Ok es /\ Forall sized es /\
    Permutation (map (fun e => e.1.2) es) frames.
Proof.
  unfold verifyGroupIcon. destruct (header_ok group) as (good & -> & _). cbn [mbind result_bind].
  destruct good; [|split; [done|by intros (? & _)]]. cbn [negb]. destruct (u16 group 4) as [count|]; [|split; [done|by intros (_ & ? & _)]].
  cbn [mbind result_bind]. destruct (Z.eqb_spec count (zlen frames)) as [->|Hc]; [|split; [done|intros (_ & [= ?] & _); done]].
  cbn [negb orb]. destruct (Z.ltb_spec (zlen group) (6 + zlen frames * 14)); [split; [done|intros (_ & _ & ? & _); lia]|].
  pose proof (match_loop group frames icons (seqZ 0 (zlen frames)) (replicate (length frames) false) ltac:(by rewrite length_replicate)) as Hm.
  rewrite unmatched_all in Hm.
  transitivity (exists m', foldM (matchEntry group frames icons) (seqZ 0 (zlen frames)) (replicate (length frames) false) = Ok m').
  { destruct (foldM _ _ _) as [m'|]; [|by split; [|intros [? ?]]]. split; [by eexists|done]. }
  rewrite Hm. split.
  - intros (es & rest & Hc & Hs & Hp). split_and!; [done..|]. exists es. split_and!; [done|done|].
    destruct rest as [|r rest]; [by rewrite app_nil_r in Hp|]. exfalso. apply Permutation_length in Hp.
    rewrite length_app, length_map, (collect_length _ _ _ Hc), length_seqZ in Hp. unfold zlen in Hp. cbn [length] in Hp. lia.
  - intros (_ & _ & _ & es & Hc & Hs & Hp). exists es, []. by rewrite app_nil_r.
Qed.

(** ** Paths below a directory *)

(** A name that stands for itself in a path. *)
Definition normal (seg : string) : Prop := seg <> "" /\ seg <> "." /\ seg <> ".." /\ no_char "/" seg = true.
(** [root/s1/.../sn], for such names. *)
Definition below (root p : string) : Prop :=
  exists rest, Forall normal rest /\ p = fold_left (fun d s => d +:+ "/" +:+ s) rest root.

Lemma cleanStep_normal b out s : normal s -> cleanStep b out s = s :: out.
Proof.
  intros (H1 & H2 & H3 & _). unfold cleanStep. destruct (String.eqb_spec s ""); [done|]. destruct (String.eqb_spec s "."); [done|].
  by destruct (String.eqb_spec s "..").
Qed.
Lemma clean_normals b ss out : Forall normal ss -> fold_left (cleanStep b) ss out = rev ss ++ out.
Proof.
  revert out. induction ss as [|s ss IH]; intros out H; [done|]. apply Forall_cons in H as [Hs H]. cbn [fold_left rev].
  rewrite cleanStep_normal, IH, <- app_assoc by done. done.
Qed.

(** What the elements of a clean path are: the names that are left, behind dots that lead upwards. *)
Lemma cleanStep_shape b segs out k names :
  Forall (fun s => no_char "/" s = true) segs -> (b = true -> k = 0%nat) -> Forall normal names -> out = names ++ replicate k ".." ->
  exists k' names', (b = true -> k' = 0%nat) /\ Forall normal names' /\ fold_left (cleanStep b) segs out = names' ++ replicate k' "..".
Proof.
  revert out k names. induction segs as [|s segs IH]; intros out k names Hs Hb Hn ->; [by exists k, names|].
  apply Forall_cons in Hs as [Hs Hss]. cbn [fold_left]. unfold cleanStep at 2.
  destruct (String.eqb_spec s ""); [by apply (IH _ k names)|]. destruct (String.eqb_spec s "."); [by apply (IH _ k names)|]. cbn [orb].
  destruct (String.eqb_spec s "..") as [->|].
  - destruct names as [|n names]; cbn [app].
    + destruct k as [|k]; cbn [replicate]; [destruct b; [by apply (IH _ 0%nat [])|by apply (IH _ 1%nat [])]|].
      destruct b; [by specialize (Hb eq_refl)|]. cbn. by apply (IH _ (S (S k)) []).
    + apply Forall_cons in Hn as [(_ & _ & Hn & _) Hn']. destruct (String.eqb_spec n ".."); [done|]. by apply (IH _ k names).
  - apply (IH _ k (s :: names)); [done|done| |done]. constructor; [done|done].
Qed.

Lemma pathClean_shape p : exists k names,
  (pathIsAbs p = true -> k = 0%nat) /\ Forall normal names /\
  pathClean p = (let out := Join (replicate k ".." ++ names) "/" in
    if pathIsAbs p then "/" +:+ out else if String.eqb out "" then "." else out).
Proof.
  destruct (cleanStep_shape (HasPrefix p "/") (Split p "/") [] 0 []) as (k & names & Hk & Hn & E); [|done|done|done|].
  { apply Forall_forall. intros s. apply Split_elem_no_char. }
  exists k, (rev names). split; [done|]. split; [by apply Forall_rev|]. unfold pathClean, pathIsAbs. rewrite E, rev_app_distr.
  assert (rev (replicate k "..") = replicate k "..") as -> by (rewrite rev_alt; apply (reverse_replicate k "..")). done.
Qed.

Lemma no_slash_join ws : ws <> [] -> Forall normal ws -> Split (Join ws "/") "/" = ws.
Proof. intros Hne H. apply Split_Join; [done|]. eapply Forall_impl; [apply H|]. by intros s (_ & _ & _ & ?). Qed.

Lemma join_nonempty ws : ws <> [] -> Forall normal ws -> exists c t, Join ws "/" = String c t /\ Ascii.eqb c "/" = false.
Proof.
  intros Hne H. destruct ws as [|w ws]; [done|]. apply Forall_cons in H as [(Hw & _ & _ & Hc) _]. destruct w as [|c w]; [done|].
  cbn in Hc. apply andb_true_iff in Hc as [Hc%negb_true_iff _]. destruct ws as [|w' ws]; cbn [Join String.append]; by eexists _, _.
Qed.

Lemma below_join root rest : fold_left (fun d s => d +:+ "/" +:+ s) rest root = match rest with [] => root | _ => root +:+ "/" +:+ Join rest "/" end.
Proof.
  revert root. induction rest as [|s rest IH]; intros root; [done|]. cbn [fold_left]. rewrite IH. destruct rest as [|s' rest]; [done|].
  cbn [Join]. by rewrite !app_assoc_str.
Qed.

(** A clean absolute directory other than the root. *)
Lemma clean_root root : pathClean root = root -> pathIsAbs root = true -> root <> "/" ->
  exists rs, rs <> [] /\ Forall normal rs /\ root = "/" +:+ Join rs "/".
Proof.
  intros Hc Ha Hne. destruct (pathClean_shape root) as (k & rs & Hk & Hn & E). rewrite Ha in E. rewrite Hk in E by done.
  cbn [replicate app] in E. cbn zeta in E. exists rs. split; [|split; [done|congruence]]. intros ->. cbn in E. congruence.
Qed.

Lemma pathJoin_below root ss : pathClean root = root -> pathIsAbs root = true -> root <> "/" -> Forall normal ss ->
  pathJoin root (if String.eqb (Join ss "/") "" then "." else Join ss "/") = fold_left (fun d s => d +:+ "/" +:+ s) ss root.
Proof.
  intros Hc Ha Hne Hs. destruct (clean_root root Hc Ha Hne) as (rs & Hrs & Hn & E).
  assert (fold_left (cleanStep true) (Split root "/") [] = rev rs) as Hr.
  { rewrite E. change ("/" +:+ Join rs "/") with ("" +:+ String "/" (Join rs "/")). rewrite Split_app by done.
    cbn [fold_left]. rewrite no_slash_join, clean_normals by done. by rewrite app_nil_r. }
  assert (forall t, pathClean (root +:+ String "/" t) = "/" +:+ Join (rev (fold_left (cleanStep true) (Split t "/") (rev rs))) "/") as Hjoin.
  { intros t. unfold pathClean. assert (HasPrefix (root +:+ String "/" t) "/" = true) as -> by (rewrite E, <- app_assoc_str; apply (has_prefix_app "/")).
    by rewrite Split_app_sep, fold_left_app, Hr. }
  unfold pathJoin. destruct (String.eqb_spec root ""); [by subst root|].
  rewrite below_join. destruct ss as [|s ss].
  - cbn [Join String.eqb]. change (String.eqb "." "") with false. cbn iota. cbn [String.append]. rewrite Hjoin. cbn. by rewrite rev_involutive.
  - destruct (join_nonempty (s :: ss) ltac:(done) Hs) as (c & t & Et & _). rewrite Et.
    change (String.eqb (String c t) "") with false. cbn iota. cbn [String.append]. change (String.eqb (String c t) "") with false. cbn iota.
    rewrite Hjoin, <- Et, no_slash_join, clean_normals, rev_app_distr, !rev_involutive by done. rewrite E.
    rewrite (Join_app rs (s :: ss)) by done. reflexivity.
Qed.

(** A path of the archive that is let through stays below the directory. *)
Lemma safeJoin_below root name target :
  pathClean root = root -> pathIsAbs root = true -> root <> "/" -> safeJoin root name = Ok target -> below root target.
Proof.
  intros Hc Ha Hne. unfold safeJoin. destruct (_ || _) eqn:E; [done|]. apply orb_false_iff in E as [[E1 E2]%orb_false_iff E3]. intros [= <-].
  destruct (pathClean_shape name) as (k & ss & Hk & Hn & Es). cbn zeta in Es.
  destruct (pathIsAbs name).
  { unfold pathIsAbs in E1. by rewrite Es, (has_prefix_app "/") in E1. }
  destruct k as [|k]; cbn [replicate app] in Es.
  { rewrite Es, pathJoin_below by done. by exists ss. }
  exfalso. destruct (replicate k ".." ++ ss) as [|s l] eqn:El; cbn [Join] in Es.
  - change (String.eqb ".." "") with false in Es. by rewrite Es in E2.
  - change (String.eqb (".." +:+ "/" +:+ Join (s :: l) "/") "") with false in Es. cbn iota in Es.
    rewrite Es in E3. change (HasPrefix ("../" +:+ Join (s :: l) "/") "../" = false) in E3. by rewrite has_prefix_app in E3.
Qed.

(** The path an operation touches. *)
Definition contained (root : string) (op : Op) : Prop :=
  match op with
  | WriteFile p _ _ => below root p
  | MkdirAll p => below root p \/ exists q, below root q /\ p = pathDir q
  end.

Lemma tryOps_incl disk ops : Forall (fun op => op ∈ ops) (tryOps disk ops).1.
Proof.
  induction ops as [|op ops IH]; [done|]. cbn [tryOps]. destruct (opDone disk op); [|by repeat constructor].
  destruct (tryOps disk ops) as [done_ r]. cbn [fst] in *. constructor; [by left|]. eapply Forall_impl; [apply IH|]. intros. by right.
Qed.
Lemma tryOps_contained root disk ops : Forall (contained root) ops -> Forall (contained root) (tryOps disk ops).1.
Proof.
  intros H. eapply Forall_impl; [apply (tryOps_incl disk ops)|]. rewrite Forall_forall in H. auto.
Qed.

Section Contained.
Context (disk : Op -> bool) (root : string).
Hypothesis root_clean : pathClean root = root.
Hypothesis root_abs : pathIsAbs root = true.
Hypothesis root_proper : root <> "/".

Lemma tarOps_contained target h : below root target -> Forall (contained root) (tarOps target h).
Proof.
  intros H. unfold tarOps. destruct (tType h); [apply Forall_singleton; by left| |done].
  apply Forall_cons. split; [right; by exists target|by apply Forall_singleton].
Qed.
Lemma zipOps_contained target f : below root target -> Forall (contained root) (zipOps disk target f).1.
Proof.
  intros H. unfold zipOps. destruct (zIsDir f); [apply tryOps_contained, Forall_singleton; by left|].
  assert (Forall (contained root) (tryOps disk [MkdirAll (pathDir target)]).1) as Hd
    by (apply tryOps_contained, Forall_singleton; right; by exists target).
  destruct (tryOps disk [MkdirAll _]) as [d []]; cbn [fst] in *; [|done].
  destruct (negb (zOpens f)); [done|].
  assert (Forall (contained root) (tryOps disk [WriteFile target 493 (zContent f)]).1) as Hw
    by (by apply tryOps_contained, Forall_singleton).
  destruct (tryOps disk [WriteFile _ _ _]) as [d' r]. cbn [fst] in *. by apply Forall_app.
Qed.

End Contained.

Definition hostile : list (option TarEntry) :=
  [Some (mkTar "./bin/../pxgo" TypeReg 493 (Some "ELF")); Some (mkTar "../../etc/passwd" TypeReg 420 (Some "root"))].

(** ** What acceptance means *)

Lemma verifyChecksum_ok sums archiveName opens hash : verifyChecksum sums archiveName opens hash = Ok tt ->
  exists text_ got, sums = Some text_ /\ hash = Some got /\ checksumWanted archiveName text_ <> "" /\ EqualFold got (checksumWanted archiveName text_) = true.
Proof.
  unfold verifyChecksum. destruct sums as [d|]; [|done]. cbn zeta. destruct (String.eqb_spec (checksumWanted archiveName d) ""); [done|].
  destruct opens; [|done]. cbn [negb]. destruct hash as [got|]; [|done]. destruct (EqualFold _ _) eqn:E; [|done]. by eexists _, _.
Qed.

Lemma verifyVersion_ok env path version : verifyVersion env path version = Ok tt ->
  exists out, run env path "--version" = Some out /\ TrimSpace out <> "" /\ TrimSpace out <> "dev" /\
    (version <> "" -> TrimSpace out = version).
Proof.
  unfold verifyVersion. destruct (run env path "--version") as [out|]; [|done]. cbn zeta. intros H. exists out. split; [done|].
  destruct (String.eqb_spec (TrimSpace out) ""); [done|]. destruct (String.eqb_spec (TrimSpace out) "dev"); [done|]. split_and!; [done|done|].
  intros Hv. destruct (String.eqb_spec version ""); [done|]. by destruct (String.eqb_spec (TrimSpace out) version).
Qed.

(** a release is accepted only if the archive has the checksum listed under its name, the binary in it
    was found below the directory of the extraction and answers the version that is expected, never the one
    of a development build; on Windows both programs have their subsystem and the icon of the sources. *)
Theorem release_accepted env dist targetOS targetArch version :
  verify env dist targetOS targetArch version = Ok tt ->
  let windows := String.eqb targetOS "windows" in
  let archiveName := "pxgo_" +:+ targetOS +:+ "_" +:+ targetArch +:+ (if windows then ".zip" else ".tar.gz") in
  (exists sums archive, readFile env (pathJoin dist "checksums.txt") = Some sums /\ readFile env (pathJoin dist archiveName) = Some archive /\
    checksumWanted archiveName (text sums) <> "" /\ EqualFold (sha256 env archive) (checksumWanted archiveName (text sums)) = true) /\
  exists dir node path out, mkdirTemp env = Some dir /\
    findFile dir (pathBase dir) node (if windows then "pxgo.exe" else "pxgo") = Some path /\
    run env path "--version" = Some out /\ TrimSpace out <> "dev" /\ (version <> "" -> TrimSpace out = version) /\
    smokeProxy env path = true /\
    (windows = true -> verifyCandidate env "pxgo.exe" path 3 = Ok tt /\
      exists companion, findFile dir (pathBase dir) node "pxgow.exe" = Some companion /\ verifyCandidate env "pxgow.exe" companion 2 = Ok tt).
Proof.
  unfold verify. intros H. cbn zeta in *.
  destruct (verifyChecksum _ _ _ _) as [[]|] eqn:Ec; [|done]. apply verifyChecksum_ok in Ec as (t & got & Et & Eg & Hw & Hf).
  apply fmap_Some in Et as (sums & Es & ->). apply fmap_Some in Eg as (archive & Ea & ->).
  split; [by exists sums, archive|]. cbn [mbind result_bind] in H. destruct (mkdirTemp env) as [dir|]; [|done].
  match type of H with (let '(_, _) := ?x in _) = _ => destruct x as [ops r] end.
  destruct r as [[]|]; [|done]. cbn [mbind result_bind] in H. exists dir, (tree env ops).
  destruct (findFile _ _ _ (if String.eqb targetOS "windows" then "pxgo.exe" else "pxgo")) as [path|]; [|done]. cbn [mbind result_bind] in H. exists path.
  destruct (if String.eqb targetOS "windows" then verifyWindows _ _ _ _ else _) as [[]|] eqn:Ew; [|done]. cbn [mbind result_bind] in H.
  destruct (verifyVersion env path version) as [[]|] eqn:Ev; [|done]. cbn [mbind result_bind] in H.
  apply verifyVersion_ok in Ev as (out & Eo & _ & Hd & Hv). exists out. split_and!; [done..| |].
  { by destruct (smokeProxy env path). }
  intros Hwin. rewrite Hwin in Ew. unfold verifyWindows in Ew.
  destruct (findFile _ _ _ "pxgow.exe") as [companion|]; [|done]. destruct (if String.eqb version "" then _ else _) as [[]|]; [|done].
  cbn [mbind result_bind] in Ew. destruct (verifyCandidate env "pxgo.exe" path 3) as [[]|]; [|done]. cbn [mbind result_bind] in Ew.
  split; [done|]. by exists companion.
Qed.

Definition tinyRelease : Env := mkEnv
  (fun p => if String.eqb p "dist/checksums.txt" then Some (String.list_byte_of_string "0a1b *pxgo_linux_amd64.tar.gz")
            else if String.eqb p "dist/pxgo_linux_amd64.tar.gz" then Some [Byte.x00] else None)
  (fun _ => "0A1B") (Some "/tmp/x") (Some [Some (mkTar "pxgo" TypeReg 493 (Some "ELF"))]) None (fun _ => true)
  (fun ops => NDir (if bool_decide (ops = []) then [] else [("pxgo", NFile)])) (fun _ => true) (fun _ => None)
  (fun _ arg => if String.eqb arg "--version" then Some ("1.2.3" +:+ String LF "") else Some "Usage: pxgo") (fun _ => true) (fun _ _ => true).
Theorem release_accepted_witness :
  exists path out, findFile "/tmp/x" "x" (NDir [("pxgo", NFile)]) "pxgo" = Some path /\ run tinyRelease path "--version" = Some out /\ TrimSpace out = "1.2.3".
Proof.
  destruct (release_accepted tinyRelease "dist" "linux" "amd64" "1.2.3" eq_refl) as (_ & dir & node & path & out & _ & _ & Ho & _ & Hv & _).
  exists "/tmp/x/pxgo", out. split; [reflexivity|]. split; [apply Ho|]. by apply Hv.
Defined.

End Art.
