(* ===== verification/WinProxy.v ===== *)
(** * WinProxy: the proxy settings of Windows ([internal/systemproxy/systemproxy_windows.go])

    WinHTTP and the registry are the system's and answer as the arguments of the definitions
    say; what the sources do with the answers is modelled: the order of the calls and of the
    releases around one asynchronous look-up, the callback that completes it, with several
    look-ups at a time, the text a result becomes, and the discovery of the settings. *)

From S2P Require Export Prelude GoStrings.
From S2P Require Import NetAddr SystemProxy Wproxy.

Module Wi.

Import Sys.

(** ** Constants *)

Definition winhttpAutoproxyAutoDetect : Z := 1.
Definition winhttpAutoproxyConfigURL : Z := 2.
Definition winhttpAutoDetectTypeDHCP : Z := 1.
Definition winhttpAutoDetectTypeDNSA : Z := 2.
Definition winhttpCallbackStatusRequestError : Z := 0x00200000.
Definition winhttpCallbackStatusGetProxyForURLComplete : Z := 0x01000000.
Definition errorIOPending : Z := 997.
Definition internetSchemeHTTP : Z := 1.
Definition internetSchemeHTTPS : Z := 2.
Definition internetSchemeSOCKS : Z := 4.

(** The size of [winHTTPAsyncResult]: a pointer, 32 bits and their padding. *)
Definition sizeofAsyncResult : Z := 16.

(** ** Results *)

(** A proxy of the result; the name is the text at its pointer. *)
Record winHTTPProxyResultEntry := mkEntry { Proxy : Z; ProxyScheme : Z; ProxyName : string; ProxyPort : Z }.

Inductive WErr := WCreate (status : Z) | WURL | WPacURL | WCall (status : Z) | WNoDetails | WErrno (code : Z) | WTimeout | WResult (status : Z)
  | WNoEntries | WNoHost | WScheme (scheme : Z).

Definition formatEntry (entry : winHTTPProxyResultEntry) : result WErr string :=
  if Proxy entry =? 0 then Ok "DIRECT"
  else
    let host := ProxyName entry in
    if String.eqb host "" then Err WNoHost
    else
      let endpoint := if negb (ProxyPort entry =? 0) then JoinHostPort host (Itoa (ProxyPort entry)) else host in
      if ProxyScheme entry =? internetSchemeHTTP then Ok endpoint
      else if ProxyScheme entry =? internetSchemeHTTPS then Ok ("https://" +:+ endpoint)
      else if ProxyScheme entry =? internetSchemeSOCKS then Ok ("socks5://" +:+ endpoint)
      else Err (WScheme (ProxyScheme entry)).

(** [None] is a result without entries. *)
Definition formatWinHTTPProxyResult (entries : list winHTTPProxyResultEntry) : result WErr string :=
  match entries with
  | [] => Err WNoEntries
  | _ =>
      proxies ← foldM (fun proxies entry => endpoint ← formatEntry entry; Ok (proxies ++ [endpoint])) entries [];
      Ok (Join proxies ",")
  end.

(** ** The callback *)

Inductive Event := Done | Failed (e : WErr).
(** The requests that wait, by their context, each with its channel of one place. *)
Definition Registry := gmap Z (option Event).

(** [info] is what [statusInfo] points to, with its length; a null pointer is [None]. *)
Definition statusEvent (status : Z) (info : option (Z * Z)) : option Event :=
  if status =? winhttpCallbackStatusGetProxyForURLComplete then Some Done
  else if status =? winhttpCallbackStatusRequestError then
    match info with
    | None => Some (Failed WNoDetails)
    | Some (len, code) => if len <? sizeofAsyncResult then Some (Failed WNoDetails) else Some (Failed (WErrno code))
    end
  else None.

Definition winHTTPProxyStatusCallback (registry : gmap Z (option Event)) (contextValue status : Z) (info : option (Z * Z)) : gmap Z (option Event) :=
  match registry !! contextValue with
  | None => registry
  | Some completion =>
      match statusEvent status info with
      | None => registry
      | Some event => match completion with None => <[contextValue := Some event]> registry | Some _ => registry end
      end
  end.

(** The 64-bit counter, and the loop that passes 0 over. *)
Fixpoint nextWinHTTPCallbackID (fuel : nat) (counter : Z) : Z :=
  let id := (counter + 1) mod 2 ^ 64 in
  match fuel with O => id | S fuel => if negb (id =? 0) then id else nextWinHTTPCallbackID fuel id end.

(** ** One look-up *)

Record Options := mkOptions { Flags : Z; AutoDetectFlags : Z; AutoConfigURL : option string; AutoLogon : bool }.
Definition optionsOf (cfg : Config) : Options :=
  let flags := if AutoDetect cfg then Z.lor 0 winhttpAutoproxyAutoDetect else 0 in
  let detect := if AutoDetect cfg then Z.lor winhttpAutoDetectTypeDHCP winhttpAutoDetectTypeDNSA else 0 in
  if IsPAC cfg then mkOptions (Z.lor flags winhttpAutoproxyConfigURL) detect (Some (PACURL cfg)) true
  else mkOptions flags detect None true.

(** The calls, as they are made. *)
Inductive Call :=
| CreateProxyResolver (status : Z)
| Store
| GetProxyForUrlEx (url : string) (options : Options) (status : Z)
| Receive (event : Event)
| ContextDone
| GetProxyResult (status : Z)
| FreeProxyResult
| Delete
| CloseResolver.

(** What the system answers to one look-up. *)
Record Answers := mkAnswers {
  create : Z; urlOk : bool; pacOk : bool; call : Z;
  completion : option Event;   (* [None]: the context is done first *)
  getResult : Z; entries : list winHTTPProxyResultEntry
}.

(** The releases that are deferred run at every return, the last one first. *)
Definition resolve (a : Answers) (rawurl : string) (cfg : Config) : list Call * result WErr string :=
  if negb (create a =? 0) then ([CreateProxyResolver (create a)], Err (WCreate (create a)))
  else
    let created := [CreateProxyResolver 0] in
    let closing := [CloseResolver] in
    if negb (urlOk a) then (created ++ closing, Err WURL)
    else if IsPAC cfg && negb (pacOk a) then (created ++ closing, Err WPacURL)
    else
      let called := created ++ [Store; GetProxyForUrlEx rawurl (optionsOf cfg) (call a)] in
      let closing := [Delete] ++ closing in
      if negb (call a =? errorIOPending) then (called ++ closing, Err (WCall (call a)))
      else
        match completion a with
        | None => (called ++ [ContextDone; CloseResolver; Delete], Err WTimeout)
        | Some (Failed e) => (called ++ [Receive (Failed e)] ++ closing, Err e)
        | Some Done =>
            let got := called ++ [Receive Done; GetProxyResult (getResult a)] in
            if negb (getResult a =? 0) then (got ++ closing, Err (WResult (getResult a)))
            else (got ++ [FreeProxyResult] ++ closing, formatWinHTTPProxyResult (entries a))
        end.

(** ** The resolver of the platform *)

Inductive SCall := Open (session : Z) | SetTimeouts (ok : bool) | SetStatusCallback (ok : bool) | CloseSession (session : Z) (ok : bool).

(** The backend keeps its session; closing it clears it. *)
Definition NewResolver (agentOk : bool) (session : Z) (timeouts callback : bool) : list SCall * option Z :=
  if negb agentOk then ([], None)
  else if session =? 0 then ([Open session], None)
  else if negb timeouts then ([Open session; SetTimeouts false; CloseSession session true], None)
  else if negb callback then ([Open session; SetTimeouts true; SetStatusCallback false; CloseSession session true], None)
  else ([Open session; SetTimeouts true; SetStatusCallback true], Some session).

Definition close (session : Z) (ok : bool) : list SCall * bool * Z :=
  if session =? 0 then ([], true, 0) else ([CloseSession session ok], ok, 0).

(** [ResolveProxyForURL] of the package: a resolver for one look-up. *)
Inductive OnceErr := OOpen | OResolve (e : WErr) | OClose.
Definition resolveOnce (cfg : Config) (opened : option Z) (closes : bool) (answer : result WErr string) : list SCall * result OnceErr string :=
  if negb (AutoDetect cfg) && negb (IsPAC cfg) then ([], Ok "")
  else
    match opened with
    | None => ([], Err OOpen)
    | Some session =>
        let '(calls, closed, _) := close session closes in
        (calls, match answer with Err e => Err (OResolve e) | Ok s => if closed then Ok s else Err OClose end)
    end.

(** ** Discovery *)

(** What WinHTTP tells of the current user. *)
Record IEConfig := mkIE { ieAutoDetect : Z; ieAutoConfigURL : string; ieProxy : string; ieProxyBypass : string }.
(** The values of the registry key; a missing one is [None]. *)
Record RegistryKey := mkKey { kAutoConfigURL : option string; kProxyOverride : option string; kProxyEnable : option Z; kProxyServer : option string }.

Definition noConfig : Config := mkConfig (mkManual "" ∅) "" "" false false false false.

Definition discoverWinHTTPIEProxyConfig (ie : option IEConfig) : option Config :=
  match ie with
  | None => None
  | Some ie => Some (configFromDiscoveredSources (negb (ieAutoDetect ie =? 0)) (ieAutoConfigURL ie) (ieProxy ie) (ieProxyBypass ie))
  end.

Definition discoverRegistryProxyConfig (key : option RegistryKey) : Config :=
  match key with
  | None => noConfig
  | Some k =>
      let proxyServer := match kProxyEnable k with Some enabled => if negb (enabled =? 0) then default "" (kProxyServer k) else "" | None => "" end in
      configFromDiscoveredSources false (default "" (kAutoConfigURL k)) proxyServer (default "" (kProxyOverride k))
  end.

Definition supported (cfg : Config) : Config :=
  mkConfig (ManualProxy cfg) (PACURL cfg) (Bypass cfg) true (Found cfg) (IsPAC cfg) (AutoDetect cfg).

Definition Discover (ie : option IEConfig) (key : option RegistryKey) : Config :=
  match discoverWinHTTPIEProxyConfig ie with
  | Some cfg => supported cfg
  | None => supported (discoverRegistryProxyConfig key)
  end.

(** ** Several look-ups at a time *)

(** The requests under way with their contexts, what the callbacks said to a context, and what
    the requests received. *)
Record Sys_ := mkSys {
  counter : Z; registry : gmap Z (option Event); waiting : gmap nat Z;
  said : list (Z * Event); got : list (nat * Z * Event)
}.
Definition start : Sys_ := mkSys 0 ∅ ∅ [] [].

Inductive Step : Sys_ -> Sys_ -> Prop :=
| step_store s r : waiting s !! r = None ->
    let id := nextWinHTTPCallbackID 1 (counter s) in
    Step s (mkSys id (<[id := None]> (registry s)) (<[r := id]> (waiting s)) (said s) (got s))
| step_callback s contextValue status info :
    Step s (mkSys (counter s) (winHTTPProxyStatusCallback (registry s) contextValue status info) (waiting s)
              (match statusEvent status info with Some e => (contextValue, e) :: said s | None => said s end) (got s))
| step_receive s r id e : waiting s !! r = Some id -> registry s !! id = Some (Some e) ->
    Step s (mkSys (counter s) (<[id := None]> (registry s)) (waiting s) (said s) ((r, id, e) :: got s))
| step_return s r id : waiting s !! r = Some id ->
    Step s (mkSys (counter s) (delete id (registry s)) (delete r (waiting s)) (said s) (got s)).

(** * Lemmas *)

(** ** The calls of one look-up *)

(** What is held: the handle of the resolver, the entry of the registry, the result. *)
Record Held := mkHeld { handle : bool; stored : bool; resultHeld : bool }.

(** A call is in order: nothing is used that is not held, nothing is released twice, and the
    handle is closed after its result was freed. *)
Definition use (c : Call) (h : Held) : option Held :=
  match c with
  | CreateProxyResolver status => if handle h then None else Some (mkHeld (status =? 0) (stored h) (resultHeld h))
  | Store => if stored h then None else Some (mkHeld (handle h) true (resultHeld h))
  | GetProxyForUrlEx _ _ _ => if handle h && stored h then Some h else None
  | Receive _ => if handle h && stored h then Some h else None
  | ContextDone => Some h
  | GetProxyResult status => if handle h && negb (resultHeld h) then Some (mkHeld true (stored h) (status =? 0)) else None
  | FreeProxyResult => if handle h && resultHeld h then Some (mkHeld true (stored h) false) else None
  | Delete => if stored h then Some (mkHeld (handle h) false (resultHeld h)) else None
  | CloseResolver => if handle h && negb (resultHeld h) then Some (mkHeld false (stored h) false) else None
  end.
Fixpoint uses (cs : list Call) (h : Held) : option Held :=
  match cs with [] => Some h | c :: cs => h ← use c h; uses cs h end.
Definition nothing : Held := mkHeld false false false.

(** whatever WinHTTP answers, and whether the context ends first, the calls of a look-up come in an
    order in which nothing is used before it is there or after it is gone, and at its end the resolver, the
    entry of the registry and the result are released, each exactly once. *)
Theorem lookup_releases_everything a rawurl cfg : uses (resolve a rawurl cfg).1 nothing = Some nothing.
Proof.
  unfold resolve. destruct (Z.eqb_spec (create a) 0) as [|Hc]; cbn [negb].
  2: { cbn. by destruct (Z.eqb_spec (create a) 0). }
  destruct (urlOk a); [|done]. cbn [negb]. destruct (IsPAC cfg && negb (pacOk a)); [done|].
  destruct (call a =? errorIOPending); [|done]. cbn [negb]. destruct (completion a) as [[|ev]|]; [|done|done].
  destruct (Z.eqb_spec (getResult a) 0) as [->|Hr]; [done|]. cbn. by destruct (Z.eqb_spec (getResult a) 0).
Qed.

(** every session that is opened is closed once, by the constructor if it fails and otherwise by the
    close of the backend, and the one look-up of the package closes its session whatever it answers. *)
Theorem sessions_are_closed agentOk session timeouts callback closes cfg answer :
  session <> 0 -> agentOk = true -> AutoDetect cfg || IsPAC cfg = true ->
  let '(opening, kept) := NewResolver agentOk session timeouts callback in
  let '(closing, _) := resolveOnce cfg kept closes answer in
  List.filter (fun c => match c with CloseSession _ _ => true | _ => false end) (opening ++ closing) =
    [CloseSession session (if kept then closes else true)].
Proof.
  intros Hs -> Hc. unfold NewResolver, resolveOnce, close. destruct (Z.eqb_spec session 0); [done|].
  replace (negb (AutoDetect cfg) && negb (IsPAC cfg)) with false by (by destruct (AutoDetect cfg), (IsPAC cfg)).
  destruct timeouts; [|done]. destruct callback; [|done]. cbn [negb].
  destruct (Z.eqb_spec session 0); done.
Qed.

Theorem sessions_are_closed_witness :
  NewResolver true 7 true false = ([Open 7; SetTimeouts true; SetStatusCallback false; CloseSession 7 true], None) /\
  [CloseSession 7 true] = [CloseSession 7 true].
Proof.
  split; [reflexivity|].
  exact (sessions_are_closed true 7 true true true (mkConfig (mkManual "" ∅) "" "" true true false true) (Ok "p:1") ltac:(discriminate) eq_refl eq_refl).
Defined.

(** ** Whose answer it is *)

Definition inv (n : nat) (s : Sys_) : Prop :=
  0 <= counter s <= Z.of_nat n /\
  (forall id, is_Some (registry s !! id) <-> exists r, waiting s !! r = Some id) /\
  (forall r id, waiting s !! r = Some id -> 0 < id <= counter s) /\
  (forall r r' id, waiting s !! r = Some id -> waiting s !! r' = Some id -> r = r') /\
  (forall id e, registry s !! id = Some (Some e) -> (id, e) ∈ said s) /\
  (forall r id e, (r, id, e) ∈ got s -> (id, e) ∈ said s /\ 0 < id <= counter s) /\
  (forall r id e r' id' , (r, id, e) ∈ got s -> waiting s !! r' = Some id' -> id = id' -> r = r') /\
  (forall r id e r' e', (r, id, e) ∈ got s -> (r', id, e') ∈ got s -> r = r').

Lemma next_id c : 0 <= c -> c + 1 < 2 ^ 64 -> nextWinHTTPCallbackID 1 c = c + 1.
Proof.
  intros H1 H2. cbn [nextWinHTTPCallbackID]. rewrite Z.mod_small by lia. by destruct (Z.eqb_spec (c + 1) 0); [lia|].
Qed.

Lemma callback_spec reg contextValue status info id :
  (is_Some (winHTTPProxyStatusCallback reg contextValue status info !! id) <-> is_Some (reg !! id)) /\
  (forall e, winHTTPProxyStatusCallback reg contextValue status info !! id = Some (Some e) ->
     reg !! id = Some (Some e) \/ (id = contextValue /\ statusEvent status info = Some e)).
Proof.
  unfold winHTTPProxyStatusCallback. destruct (reg !! contextValue) as [c|] eqn:Er; [|by split; [|auto]].
  destruct (statusEvent status info) as [e0|]; [|by split; [|auto]]. destruct c as [e1|]; [by split; [|auto]|].
  destruct (decide (id = contextValue)) as [->|Hne].
  - rewrite lookup_insert_eq. split; [by rewrite Er|]. intros e [= ->]. by right.
  - rewrite lookup_insert_ne by done. auto.
Qed.

Lemma lookups_inv_step n s s' : Z.of_nat n + 1 < 2 ^ 64 -> inv n s -> Step s s' -> inv (S n) s'.
Proof.
  intros Hn (Hc & Hr & Hid & Hinj & Hs & Hg & Hgw & Hgg) Hstep. destruct Hstep; unfold inv; cbn [counter registry waiting said got] in *.
  - assert (id = counter s + 1) as Eid by (apply next_id; lia). clearbody id. subst id.
    assert (forall r', waiting s !! r' = Some (counter s + 1) -> False) as Hfresh by (intros r' H'; apply Hid in H'; lia).
    split; [lia|]. split_and!.
    + intros id. destruct (decide (id = counter s + 1)) as [->|Hne].
      * rewrite lookup_insert_eq. split; [intros _; exists r; by rewrite lookup_insert_eq|by eexists].
      * rewrite lookup_insert_ne, Hr by done. split; intros [r' H'].
        -- exists r'. by rewrite lookup_insert_ne by congruence.
        -- apply lookup_insert_Some in H' as [[_ ?]|[_ H']]; [congruence|by exists r'].
    + intros r' id [[_ <-]|[_ H']]%lookup_insert_Some; [lia|]. apply Hid in H'. lia.
    + intros r1 r2 id [[<- <-]|[H1 H1']]%lookup_insert_Some [[<- H2]|[H2 H2']]%lookup_insert_Some; [done| | |by eapply Hinj].
      * by apply Hfresh in H2'.
      * subst id. by apply Hfresh in H1'.
    + intros id e [[_ ?]|[_ H']]%lookup_insert_Some; [done|by apply Hs].
    + intros r' id e H'. apply Hg in H' as [? ?]. split; [done|lia].
    + intros r1 id e r2 id' H1 [[<- <-]|[_ H2]]%lookup_insert_Some ->; [apply Hg in H1; lia|by eapply Hgw].
    + done.
  - split; [lia|]. split_and!; [|done|done| | |done|done].
    + intros id. rewrite <- Hr. apply callback_spec.
    + intros id e H'. apply callback_spec in H' as [H'|[-> H']].
      * apply Hs in H'. destruct (statusEvent status info); [by right|done].
      * rewrite H'. by left.
    + intros r id e H'. apply Hg in H' as [H1 H2]. split; [|done]. destruct (statusEvent status info); [by right|done].
  - split; [lia|]. split_and!; [|done|done| | | |].
    + intros id'. rewrite <- Hr. destruct (decide (id' = id)) as [->|]; [rewrite lookup_insert_eq; split; [intros _; by eexists|by eexists]|].
      by rewrite lookup_insert_ne by done.
    + intros id' e' [[_ ?]|[_ H']]%lookup_insert_Some; [done|by apply Hs].
    + intros r' id' e' [[= -> -> ->]|H']%elem_of_cons; [split; [by apply Hs|by eapply Hid]|by apply Hg in H'].
    + intros r1 id1 e1 r2 id2 [[= -> -> ->]|H1]%elem_of_cons H2 ->; [by eapply Hinj|by eapply Hgw].
    + intros r1 id1 e1 r2 e2 [[= -> -> ->]|H1]%elem_of_cons [[= -> ->]|H2]%elem_of_cons; [done|..].
      * symmetry. by eapply Hgw.
      * by eapply Hgw.
      * by eapply Hgg.
  - split; [lia|]. split_and!; [| | | |done| |done].
    + intros id'. destruct (decide (id' = id)) as [->|].
      * rewrite lookup_delete_eq. split; [by intros [? ?]|]. intros [r' [Hne H']%lookup_delete_Some]. exfalso. apply Hne. by eapply Hinj.
      * rewrite lookup_delete_ne, Hr by done. split; intros [r' H'].
        -- exists r'. rewrite lookup_delete_ne by congruence. done.
        -- apply lookup_delete_Some in H' as [_ H']. by exists r'.
    + intros r' id' [_ H']%lookup_delete_Some. by eapply Hid.
    + intros r1 r2 id' [_ H1]%lookup_delete_Some [_ H2]%lookup_delete_Some. by eapply Hinj.
    + intros id' e [_ H']%lookup_delete_Some. by apply Hs.
    + intros r1 id1 e r2 id2 H1 [_ H2]%lookup_delete_Some ->. by eapply Hgw.
Qed.

Lemma lookups_inv_start : inv 0 start.
Proof.
  unfold inv, start; cbn [counter registry waiting said got]. split; [lia|]. split_and!; try done; try set_solver.
  intros id. rewrite lookup_empty. split; [by intros [? ?]|]. intros [r H]. by rewrite lookup_empty in H.
Qed.

(** C26: in every interleaving of look-ups, callbacks, late ones and ones for contexts that are not there
    included, and of returns, an answer that a look-up receives was said to the context of that look-up,
    which no other one has or has had an answer on, and the registry holds exactly the look-ups under way. *)
Theorem answers_are_their_own n s r id e :
  nsteps Step n start s -> Z.of_nat n < 2 ^ 64 -> (r, id, e) ∈ got s ->
  (id, e) ∈ said s /\ (forall r' e', (r', id, e') ∈ got s -> r' = r) /\ (forall r', waiting s !! r' = Some id -> r' = r) /\
  (forall id', is_Some (registry s !! id') <-> exists r', waiting s !! r' = Some id').
Proof.
  intros Hsteps Hn Hgot. assert (inv n s) as (_ & Hr & _ & _ & _ & Hg & Hgw & Hgg).
  { clear Hgot. revert s Hsteps. induction n as [|n IH]; intros s Hsteps; [inversion Hsteps; subst; apply lookups_inv_start|].
    apply nsteps_inv_r in Hsteps as (s0 & H0 & Hstep). eapply lookups_inv_step; [|apply IH, H0; lia|done]. lia. }
  split_and!; [by apply Hg in Hgot as [? _]| | |done].
  - intros r' e' H'. by eapply Hgg.
  - intros r' H'. symmetry. by eapply Hgw.
Qed.

Definition twoLookups : Sys_ := mkSys 2 {[1 := None; 2 := None]} {[7%nat := 1; 8%nat := 2]} [(2, Done); (9, Done)] [(8%nat, 2, Done)].
Theorem answers_are_their_own_witness : (2, Done) ∈ said twoLookups.
Proof.
  apply (answers_are_their_own 5 twoLookups 8 2 Done); [|done|by left].
  eapply nsteps_l; [apply (step_store start 7); reflexivity|].
  eapply nsteps_l; [apply (step_store _ 8); reflexivity|].
  eapply nsteps_l; [apply (step_callback _ 9 winhttpCallbackStatusGetProxyForURLComplete None)|].
  eapply nsteps_l; [apply (step_callback _ 2 winhttpCallbackStatusGetProxyForURLComplete None)|].
  eapply nsteps_l; [apply (step_receive _ 8 2 Done); reflexivity|].
  match goal with |- nsteps _ _ ?a ?b => assert (a = b) as -> by by vm_compute end. constructor.
Defined.

(** ** What the router makes of a result *)

Lemma parseIPv4_chars s v : parseIPv4 s = Some v -> no_char ":" s = true.
Proof.
  unfold parseIPv4. intros H. rewrite <- (Join_Split s "."). destruct (Split s ".") as [|a [|b [|c [|d [|]]]]]; try done.
  assert (forall x o, octet x = Some o -> no_char ":" x = true) as Ho.
  { intros x o Hx. assert (exists v, digits_val 0 x = Some v) as [w Hw].
    { unfold octet in Hx. destruct x as [|ch t]; [done|]. destruct (_ && _); [done|]. destruct (digits_val 0 (String ch t)) as [w|]; [by exists w|done]. }
    clear Hx. revert Hw. generalize 0. clear. induction x as [|ch x IH]; intros n; [done|]. cbn [digits_val].
    destruct (is_digit ch) eqn:E; [|done]. intros H. unfold no_char in *. cbn [str_forall]. rewrite (IH _ H), andb_true_r.
    apply negb_true_iff, Ascii.eqb_neq. by intros ->. }
  destruct (octet a) eqn:Ea; [|done]. destruct (octet b) eqn:Eb; [|done]. destruct (octet c) eqn:Ec; [|done]. destruct (octet d) eqn:Ed; [|done].
  apply Ho in Ea, Eb, Ec, Ed. unfold no_char in *. cbn [Join]. by rewrite !str_forall_app, Ea, Eb, Ec, Ed.
Qed.

Lemma ip_kind_colon h p : str_forall Wp.plain_char h = true ->
  ip_kind (h +:+ String ":" p) = Some "."%char \/ (ip_kind (h +:+ String ":" p) = Some ":"%char /\ no_char "." h = true).
Proof.
  induction h as [|c h IH]; [by right|]. cbn [str_forall String.append ip_kind]. intros [Hc Hh]%andb_true_iff.
  destruct (Ascii.eqb_spec c ".") as [->|Hne]; [by left|].
  assert (in_chars ".:%" c = false) as ->.
  { revert Hc Hne. destruct c as [[] [] [] [] [] [] [] []]; vm_compute; try done; by intros _ []. }
  destruct (IH Hh) as [?|[? ?]]; [by left|right]. split; [done|]. unfold no_char in *. cbn [str_forall].
  apply andb_true_iff. split; [by apply negb_true_iff, Ascii.eqb_neq|done].
Qed.

Lemma hex_prefix_colon h p n acc : str_forall Wp.plain_char h = true -> no_char "." h = true ->
  exists rest, (hex_prefix (h +:+ String ":" p) n acc).2 = rest /\
    (rest = String ":" p \/ exists c t, rest = String c t /\ c <> ":"%char /\ c <> "."%char).
Proof.
  revert n acc. induction h as [|c h IH]; intros n acc; cbn [str_forall String.append hex_prefix].
  { intros _ _. eexists. split; [done|]. by left. }
  intros [Hc Hh]%andb_true_iff Hd. unfold no_char in Hd. cbn [str_forall] in Hd. apply andb_true_iff in Hd as [Hd Hd'].
  destruct (is_hex c) eqn:E; [by apply IH|]. eexists. split; [done|]. right. eexists _, _. split; [done|].
  apply negb_true_iff, Ascii.eqb_neq in Hd. split; [by intros ->|done].
Qed.

Lemma hex_prefix_digits p n acc : str_forall is_digit p = true -> (hex_prefix p n acc).2 = "".
Proof.
  revert n acc. induction p as [|c p IH]; intros n acc; [done|]. cbn [str_forall hex_prefix]. intros [Hc Hp]%andb_true_iff.
  assert (is_hex c = true) as -> by (revert Hc; destruct c as [[] [] [] [] [] [] [] []]; vm_compute; done). by apply IH.
Qed.

(** A host with a port is no address. *)
Lemma ParseIP_hostport h p : h <> "" -> str_forall Wp.plain_char h = true -> p <> "" -> str_forall is_digit p = true ->
  ParseIP (h +:+ String ":" p) = None.
Proof.
  intros Hne Hh Hpne Hp. unfold ParseIP. destruct (ip_kind_colon h p Hh) as [->|[-> Hd]].
  - cbn. destruct (parseIPv4 _) as [v|] eqn:E; [|done]. apply parseIPv4_chars in E. exfalso. revert E. clear. unfold no_char.
    rewrite str_forall_app. by rewrite andb_false_r.
  - change (Ascii.eqb ":" ".") with false. change (Ascii.eqb ":" ":") with true. cbn iota. destruct (ContainsChar _ "%"); [done|].
    unfold parseIPv6.
    assert (CutPrefix (h +:+ String ":" p) "::" = None) as ->.
    { destruct h as [|c h]; [done|]. cbn [str_forall] in Hh. apply andb_true_iff in Hh as [Hc _]. unfold CutPrefix, HasPrefix.
      cbn [String.append String.prefix]. destruct (ascii_dec ":" c) as [<-|]; done. }
    destruct (hex_prefix_colon h p 0 0 Hh Hd) as (rest & Er & Hrest). cbn [v6_fields].
    destruct (hex_prefix (h +:+ String ":" p) 0 0) as [[n acc] rest'] eqn:E. cbn [snd] in Er. subst rest'.
    destruct ((n =? 0) || (4 <? n)); [done|]. destruct Hrest as [->|(c & t & -> & Hc1 & Hc2)].
    2: { apply Ascii.eqb_neq in Hc1, Hc2. by rewrite Hc1, Hc2. }
    change (Ascii.eqb ":" ".") with false. change (negb (Ascii.eqb ":" ":")) with false. cbn iota.
    destruct p as [|c p]; [done|]. assert (Ascii.eqb c ":" = false) as ->.
    { cbn [str_forall] in Hp. apply andb_true_iff in Hp as [Hc _]. apply Ascii.eqb_neq. by intros ->. }
    pose proof (hex_prefix_digits (String c p) 0 0 Hp) as Ep. destruct (hex_prefix (String c p) 0 0) as [[n' acc'] rest'] eqn:E'.
    cbn [snd] in Ep. subst rest'. cbn [v6_fields]. by destruct ((n' =? 0) || (4 <? n')).
Qed.

Lemma contains_scheme t : no_char "/" t = true -> GoStrings.Contains t "://" = false.
Proof.
  induction t as [|c t IH]; [done|]. unfold no_char. cbn [str_forall GoStrings.Contains]. intros [Hc Ht]%andb_true_iff.
  rewrite IH by done. rewrite orb_false_r. unfold HasPrefix. cbn [String.prefix]. destruct (ascii_dec ":" c); [|done].
  destruct t as [|c' t]; [done|]. cbn [str_forall] in Ht. apply andb_true_iff in Ht as [Hc' _]. cbn [String.prefix].
  destruct (ascii_dec "/" c') as [<-|]; done.
Qed.

(** A server printed without its scheme is read as an HTTP proxy. *)
Lemma hostport_item h p : Wp.plainServer (Wp.mkServer h p "http") ->
  Wp.parseItem (h +:+ ":" +:+ Itoa p) = Ok (Wp.mkServer h p "http").
Proof.
  intros Hs. set (s := Wp.mkServer h p "http") in *. change (h +:+ ":" +:+ Itoa p) with (Wp.hostport s).
  pose proof (Wp.hostport_class s Hs) as Hcl. pose proof (Wp.hostport_no_char s Hs) as Hno.
  assert (no_space (Wp.hostport s) = true) as Hsp by (apply Hcl; reflexivity).
  assert (str_exists (Ascii.eqb ":") (Wp.hostport s) = true) as Hcolon.
  { unfold str_exists, Wp.hostport. rewrite !str_forall_app. cbn [str_forall]. by rewrite andb_false_r. }
  assert (1 <= p <= 65535) as Hp by apply Hs. assert (h <> "") as Hne by apply Hs.
  assert (str_forall Wp.plain_char h = true) as Hh by apply Hs.
  assert (Itoa p <> "") as Hi by (unfold Itoa; intros E; pose proof (Wp.parsePort_Itoa p ltac:(lia)) as HP; unfold Itoa in HP; by rewrite E in HP).
  pose proof (Itoa_digits p ltac:(lia)) as Hd.
  unfold Wp.parseItem. assert (EqualFold (Wp.hostport s) Wp.directHost = false) as ->.
  { unfold EqualFold. apply String.eqb_neq. intros E.
    assert (str_exists (Ascii.eqb ":") (ToLower (Wp.hostport s)) = true) as H'; [|by rewrite E in H'].
    unfold Wp.hostport, ToLower, str_exists. rewrite str_forall_map, !str_forall_app. cbn [str_forall]. by rewrite andb_false_r. }
  unfold Wp.parseProxyEndpoint. rewrite TrimSpace_no_space by done.
  assert (String.eqb (Wp.hostport s) "" = false) as -> by (apply String.eqb_neq; unfold Wp.hostport; cbn; by destruct h).
  rewrite contains_scheme by (by apply Hno). unfold Wp.parseAuthority. rewrite TrimSpace_no_space by done.
  assert (String.eqb (Wp.hostport s) "" = false) as -> by (apply String.eqb_neq; unfold Wp.hostport; cbn; by destruct h).
  assert (ParseIP (Wp.hostport s) = None) as -> by (by apply (ParseIP_hostport h (Itoa p))).
  rewrite (Wp.hostport_not_bracket s Hs). cbn [andb]. unfold ContainsChar. rewrite Hcolon.
  unfold Wp.hostport. cbn [Wp.sHost Wp.sPort s].
  assert (forall c, negb (Wp.plain_char c) = true -> no_char c h = true) as Hhc.
  { intros c Hc. revert Hh. apply str_forall_impl. intros d Hd'. apply negb_true_iff, Ascii.eqb_neq. intros ->. by rewrite Hd' in Hc. }
  assert (forall c, negb (is_digit c) = true -> no_char c (Itoa p) = true) as Hpc.
  { intros c Hc. revert Hd. apply str_forall_impl. intros d Hd'. apply negb_true_iff, Ascii.eqb_neq. intros ->. by rewrite Hd' in Hc. }
  rewrite SplitHostPort_plain by (first [by apply Hhc|by apply Hpc]). rewrite Wp.parsePort_Itoa by lia. cbn [mbind result_bind].
  pose proof (Wp.plain_checkHost s Hs) as Hck. cbn [Wp.sHost s] in Hck. rewrite Hck. cbn [mbind result_bind]. by rewrite Hck.
Qed.

(** The server an entry stands for. *)
Definition schemeOf (scheme : Z) : string := if scheme =? 1 then "http" else if scheme =? 2 then "https" else "socks5".
Definition serverOf (e : winHTTPProxyResultEntry) : Wp.Server :=
  if Proxy e =? 0 then Wp.Direct else Wp.mkServer (ProxyName e) (ProxyPort e) (schemeOf (ProxyScheme e)).
Definition plainEntry (e : winHTTPProxyResultEntry) : Prop :=
  Proxy e = 0 \/ (1 <= ProxyPort e <= 65535 /\ Wp.plainHost (ProxyName e) /\ (ProxyScheme e = 1 \/ ProxyScheme e = 2 \/ ProxyScheme e = 4)).

Lemma entry_item e : plainEntry e -> exists t, formatEntry e = Ok t /\ t <> "" /\ no_space t = true /\ no_char "," t = true /\
  Wp.parseItem t = Ok (serverOf e).
Proof.
  intros [He|(Hp & Hh & Hs)]; unfold formatEntry, serverOf; [rewrite He; by exists "DIRECT"|].
  destruct (Z.eqb_spec (Proxy e) 0); [by exists "DIRECT"|]. destruct e as [px sc h p]. cbn [ProxyName ProxyPort ProxyScheme Proxy] in *.
  set (s := Wp.mkServer h p (schemeOf sc)).
  assert (Wp.plainServer s) as Hps by (split_and!; [by destruct Hs as [->|[->| ->]]|apply Hp|apply Hp|apply Hh]).
  assert (JoinHostPort h (Itoa p) = Wp.hostport s) as Hj.
  { unfold JoinHostPort. assert (forall c, negb (Wp.plain_char c) = true -> ContainsChar h c = false) as Hc.
    { intros c Hc. unfold ContainsChar, str_exists. apply negb_false_iff. destruct Hh as [_ Hh]. revert Hh. apply str_forall_impl.
      intros d Hd. apply negb_true_iff, Ascii.eqb_neq. intros ->. by rewrite Hd in Hc. }
    by rewrite !Hc. }
  destruct (String.eqb_spec h ""); [by destruct Hh|]. destruct (Z.eqb_spec p 0); [lia|]. cbn [negb]. rewrite Hj.
  assert (forall t, t <> "" -> str_forall (fun c => Wp.hp_char c || Ascii.eqb c "/") t = true -> t <> "" /\ no_space t = true /\ no_char "," t = true) as Hcs.
  { intros t Ht Hc. split; [done|]. split; revert Hc; by apply class_impl. }
  assert (Wp.hostport s <> "") as Hne by (unfold Wp.hostport; cbn; by destruct h).
  destruct Hs as [->|[->| ->]]; cbn [Z.eqb Pos.eqb internetSchemeHTTP internetSchemeHTTPS internetSchemeSOCKS].
  - exists (Wp.hostport s). split; [done|]. destruct (Hcs (Wp.hostport s)) as (? & ? & ?); [done|by apply (Wp.hostport_class s Hps)|].
    split_and!; [done..|]. by apply hostport_item.
  - exists (Wp.endpoint s). split; [done|]. destruct (Hcs (Wp.endpoint s)) as (? & ? & ?); [done|by apply (Wp.endpoint_class s Hps)|].
    split_and!; [done..|]. by apply Wp.endpoint_item.
  - exists (Wp.endpoint s). split; [done|]. destruct (Hcs (Wp.endpoint s)) as (? & ? & ?); [done|by apply (Wp.endpoint_class s Hps)|].
    split_and!; [done..|]. by apply Wp.endpoint_item.
Qed.


Definition someEntries : list winHTTPProxyResultEntry :=
  [mkEntry 1 1 "proxy.corp" 3128; mkEntry 1 4 "10.0.0.7" 1080; mkEntry 0 0 "" 0; mkEntry 1 1 "proxy.corp" 3128].

(** the settings come from WinHTTP if it answers; those of the registry name a proxy only if it is
    enabled there, and never ask for discovery on the network. *)
Theorem discovered_settings ie key :
  let cfg := Discover ie key in
  Supported cfg = true /\
  (forall i, ie = Some i -> AutoDetect cfg = negb (ieAutoDetect i =? 0) /\ PACURL cfg = ieAutoConfigURL i /\
     ManualProxy cfg = ParseManualProxyMap (ieProxy i)) /\
  (ie = None -> AutoDetect cfg = false /\
     (Empty (ManualProxy cfg) = false -> exists k enabled, key = Some k /\ kProxyEnable k = Some enabled /\ enabled <> 0 /\
        ManualProxy cfg = ParseManualProxyMap (default "" (kProxyServer k)))).
Proof.
  cbn zeta. unfold Discover, discoverWinHTTPIEProxyConfig. destruct ie as [i|].
  - split; [done|]. split; [|done]. by intros ? [= <-].
  - split; [done|]. split; [done|]. intros _. unfold discoverRegistryProxyConfig. destruct key as [k|]; [|split; [done|]].
    + split; [done|]. cbn [supported ManualProxy configFromDiscoveredSources]. destruct (kProxyEnable k) as [enabled|] eqn:Ek; [|done].
      destruct (Z.eqb_spec enabled 0); cbn [negb]; [done|]. intros _. by exists k, enabled.
    + done.
Qed.

End Wi.
