(* ===== verification/Server.v ===== *)
(** * Server: construction, start and stop of the proxy ([internal/proxy/proxy.go])

    [New] puts the parts of the other files together: the validations in their order, the
    resolver, the routing tables and the ticket manager, with what is released when a later
    part fails.  [Start] and [Shutdown] are the steps of one machine each may be interrupted
    in by the other; listening sockets, the HTTP server of Go and the clocks are arguments. *)

From S2P Require Export Prelude GoStrings.
From S2P Require Import NetAddr Wproxy Access UpstreamAuth AuthSession Resolver Routes.

Module Sv.

(** ** Budgets *)

(** A [float64]: not a number, infinite, or the value [m * 2 ^ e]. *)
Inductive Float := NaN | Inf (negative : bool) | Fin (m e : Z).

(** Comparison of [m * 2 ^ e] with an integer. *)
Definition fin_leb (m e n : Z) : bool := if 0 <=? e then m * 2 ^ e <=? n else m <=? n * 2 ^ (- e).
Definition float_leb (f : Float) (n : Z) : bool :=
  match f with NaN => false | Inf negative => negative | Fin m e => fin_leb m e n end.
Definition float_gtb (f : Float) (n : Z) : bool :=
  match f with NaN => false | Inf negative => negb negative | Fin m e => negb (fin_leb m e n) end.

(** The integer part of [m * 2 ^ e * 1e9]. *)
Definition exactNanos (m e : Z) : Z := if 0 <=? e then m * 2 ^ e * 1000000000 else Z.quot (m * 1000000000) (2 ^ (- e)).

Record Budgets := mkBudgets { Workers : Z; Threads : Z; Idle : Z; SockTimeout : Float }.

Inductive BudgetErr := EWorkers | EOverflow | EIdle | ESockTimeout | ESockTooLarge | EIdleTooLarge.

Definition maxInt : Z := 2 ^ 63 - 1.
Definition second : Z := 1000000000.
Definition maxSockTimeout : Z := (2 ^ 63 - 1) / (2 * second).

(** [None] is no error. *)
Definition validateServerBudgets (b : Budgets) : option BudgetErr :=
  if (Workers b <=? 0) || (Threads b <=? 0) then Some EWorkers
  else if maxInt / Threads b <? Workers b then Some EOverflow
  else if Idle b <=? 0 then Some EIdle
  else if float_leb (SockTimeout b) 0 || match SockTimeout b with NaN | Inf _ => true | _ => false end then Some ESockTimeout
  else if float_gtb (SockTimeout b) maxSockTimeout then Some ESockTooLarge
  else if (2 ^ 63 - 1) / second <? Idle b then Some EIdleTooLarge
  else None.

(** Arithmetic of [int] and [time.Duration]. *)
Definition int64 (z : Z) : Z := (z + 2 ^ 63) mod 2 ^ 64 - 2 ^ 63.
Definition connectionBudget (b : Budgets) : Z := int64 (Workers b * Threads b).

Section Timeouts.
(** The product with 1e9 is rounded to a [float64] before it is cut to an integer. *)
Context (nanos : Z -> Z -> Z).
Definition configuredSockTimeout (b : Budgets) : Z := match SockTimeout b with Fin m e => int64 (nanos m e) | _ => 0 end.
Definition configuredWriteTimeout (b : Budgets) : Z := int64 (2 * configuredSockTimeout b).
Definition idleTimeout (b : Budgets) : Z := int64 (Idle b * second).
End Timeouts.

(** ** Construction *)

(** The configuration, as far as [New] reads it. *)
Record ServerConfig := mkServerConfig {
  sAuth : string; sKerberos : bool; sUsername : string; sPassword : string; sPort : Z;
  sAccess : Acc.Config; sBudgets : Budgets;
  sDNS : string; sDNSRules : list Rv.Rule; sRoutes : Rt.RouteConfig
}.

Inductive NewErr := NAuth | NFeature | NAccess (e : Acc.CfgErr) | NBudget (e : BudgetErr) | NDNS (e : Rv.CfgErr)
  | NBootstrap (e : Wp.WErr) | NRoutes (e : Wp.WErr) | NKerberos.

(** The two routing tables, and what is done with them and the ticket manager. *)
Inductive Table := BootTable | MainTable.
Inductive Effect := Built (t : Table) | Closed (t : Table) | CheckTicket (force : bool).

Record NewServer := mkNewServer { nAccess : Acc.Access; nPolicy : Rv.Policy; nBoot : option Wp.Wproxy; nMain : Wp.Wproxy; nKrb : bool }.

Section New.
Context (goos : string) (sockTimeout : Budgets -> Z) (cfg : ServerConfig).
(** The surroundings of the two tables: names are resolved by the system for the first one. *)
Context (surBoot surMain : Wp.Surroundings).

Definition newDNSPolicy : result Rv.CfgErr Rv.Policy :=
  match sDNSRules cfg with
  | [] => Rv.New (sDNS cfg) (sockTimeout (sBudgets cfg))
  | rules => Rv.NewRules rules (sockTimeout (sBudgets cfg))
  end.

Definition usesDoH (p : Rv.Policy) : bool :=
  let mode := Rv.Mode (Rv.PolicyStatus (Some p)) in String.eqb mode "doh" || String.eqb mode "mixed".

(** [Ok false] is no manager. *)
Definition buildKerberosManager : result NewErr bool :=
  if negb (sKerberos cfg) then Ok false else if String.eqb (sUsername cfg) "" then Err NKerberos else Ok true.

(** The password of the manager, when it asks for it. *)
Definition kerberosPassword (stored : option string) : option string :=
  match stored with Some p => Some p | None => if String.eqb (sPassword cfg) "" then None else Some (sPassword cfg) end.

Definition validate : result NewErr Acc.Access :=
  if negb (Ua.validateUpstreamAuth (sAuth cfg)) then Err NAuth
  else if negb (Ses.ValidateProxyAuthFeature (sKerberos cfg) goos) then Err NFeature
  else
    match Acc.New (sAccess cfg) with
    | Err e => Err (NAccess e)
    | Ok access => match validateServerBudgets (sBudgets cfg) with Some e => Err (NBudget e) | None => Ok access end
    end.

Definition New : list Effect * result NewErr NewServer :=
  match validate with
  | Err e => ([], Err e)
  | Ok access =>
      match newDNSPolicy with
      | Err e => ([], Err (NDNS e))
      | Ok policy =>
          let withBoot (boot : option Wp.Wproxy) (built : list Effect) (closeBoot : list Effect) :=
            match Rt.buildWproxy (sRoutes cfg) surMain with
            | Err e => (built ++ closeBoot, Err (NRoutes e))
            | Ok wp =>
                match buildKerberosManager with
                | Err e => (built ++ [Built MainTable; Closed MainTable] ++ closeBoot, Err e)
                | Ok krb => (built ++ [Built MainTable] ++ (if krb then [CheckTicket true] else []), Ok (mkNewServer access policy boot wp krb))
                end
            end in
          if usesDoH policy then
            match Rt.buildWproxy (sRoutes cfg) surBoot with
            | Err e => ([], Err (NBootstrap e))
            | Ok boot => withBoot (Some boot) [Built BootTable] [Closed BootTable]
            end
          else withBoot None [] []
      end
  end.
End New.

(** ** Listening *)

Inductive LEffect := Listen (host : string) (port : Z) (bound : option Z) | CloseListener (host : string).

(** The loop of [Start]: port 0 takes the port of the first socket for the others. *)
Fixpoint listenAll (listen : string -> Z -> option Z) (hosts : list string) (port : Z) (opened : list string)
  : list LEffect * option (list string * Z) :=
  match hosts with
  | [] => ([], Some (opened, port))
  | host :: hosts =>
      match listen host port with
      | None => (Listen host port None :: map CloseListener opened, None)
      | Some bound =>
          let '(effs, r) := listenAll listen hosts (if port =? 0 then bound else port) (opened ++ [host]) in
          (Listen host port (Some bound) :: effs, r)
      end
  end.
Definition startListening (listen : string -> Z -> option Z) (cfg : ServerConfig) : list LEffect * option (list string * Z) :=
  listenAll listen (Acc.listenHosts (sAccess cfg)) (sPort cfg) [].

(** ** Start and Shutdown together *)

(** [Start] before and after it publishes the HTTP server, and when it has returned. *)
Inductive StartPhase := Opened | Serving | Returned.
(** The parts of [Shutdown], in their order. *)
Inductive Part := Fence | BeginTunnels | ReadServer | StopServer | DrainTunnels | CloseSupervisor | ClearTransports | CloseBoot | CloseMain | CleanupTickets | SignalClosed.
Definition parts : list Part :=
  [Fence; BeginTunnels; ReadServer; StopServer; DrainTunnels; CloseSupervisor; ClearTransports; CloseBoot; CloseMain; CleanupTickets; SignalClosed].

#[global] Instance part_eq_dec : EqDecision Part.
Proof. solve_decision. Defined.

Record Life := mkLife {
  phase : StartPhase;
  open : nat;                  (* listening sockets *)
  done_ : list Part;           (* what [Shutdown] has done *)
  captured : option bool;      (* whether it found a server *)
  stopped : bool               (* the HTTP server was shut down *)
}.
Definition born (n : nat) : Life := mkLife Opened n [] None false.

(** One part of [Shutdown]; a server that is shut down closes the sockets it serves, and the
    ones it is given later. *)
Definition doPart (p : Part) (s : Life) : Life :=
  let s := mkLife (phase s) (open s) (done_ s ++ [p]) (captured s) (stopped s) in
  match p with
  | ReadServer => mkLife (phase s) (open s) (done_ s) (Some (match phase s with Opened => false | _ => true end)) (stopped s)
  | StopServer => match captured s with Some true => mkLife (phase s) (open s) (done_ s) (captured s) true | _ => s end
  | _ => s
  end.

Inductive LifeStep : Life -> Life -> Prop :=
| life_publish s : phase s = Opened -> LifeStep s (mkLife Serving (open s) (done_ s) (captured s) (stopped s))
| life_serve_ends s n : phase s = Serving -> stopped s = true -> open s = S n -> LifeStep s (mkLife Serving n (done_ s) (captured s) true)
| life_return s : phase s = Serving -> open s = 0%nat -> LifeStep s (mkLife Returned 0 (done_ s) (captured s) (stopped s))
| life_shutdown s p rest : done_ s ++ p :: rest = parts -> LifeStep s (doPart p s).

(** The error [Shutdown] answers: the first one. *)
Definition shutdownErr {E} (server drain boot main : option E) : option E :=
  let keep err e := match err with Some e => Some e | None => e end in keep (keep (keep server drain) boot) main.

(** ** Maintenance *)

Inductive Tick := Ticked (now : Time) | ClosedSignal.
Inductive Work := ReloadIfDue | ReloadKerberos (force : bool) | SupervisorTick (now : Time).
Fixpoint maintenanceLoop (krb : bool) (events : list Tick) : list Work :=
  match events with
  | [] => []
  | Ticked now :: events => ReloadIfDue :: (if krb then [ReloadKerberos false] else []) ++ [SupervisorTick now] ++ maintenanceLoop krb events
  | ClosedSignal :: _ => []
  end.

(** * Lemmas *)

(** ** Budgets *)

Lemma int64_small z : - 2 ^ 63 <= z < 2 ^ 63 -> int64 z = z.
Proof. intros H. unfold int64. rewrite Z.mod_small; lia. Qed.

Lemma exactNanos_bound m e n : 0 <= n -> fin_leb m e 0 = false -> fin_leb m e n = true -> 0 <= exactNanos m e <= n * second.
Proof.
  unfold fin_leb, exactNanos, second. intros Hn H0 Hl. destruct (Z.leb_spec 0 e); to_prop.
  - nia.
  - assert (0 < 2 ^ (- e)) as He by (apply Z.pow_pos_nonneg; lia). rewrite Z.quot_div_nonneg by nia. split; [apply Z.div_pos; nia|].
    apply Z.div_le_upper_bound; nia.
Qed.

(** What a rounded product may be: IEEE 754 rounds to within one part in 2^52. *)
Definition rounds (nanos : Z -> Z -> Z) : Prop :=
  forall m e, 0 <= exactNanos m e -> 0 <= nanos m e <= exactNanos m e + exactNanos m e / 2 ^ 52 + 1.

(** C40: budgets that are accepted make sense as machine integers: the product of workers and threads is the
    positive number of connections it should be, and the read, write and idle timeouts are what was asked
    for, none of them wrapped around to a negative or a short one. *)
Theorem budgets_fit nanos b :
  rounds nanos -> validateServerBudgets b = None ->
  connectionBudget b = Workers b * Threads b /\ 0 < connectionBudget b <= maxInt /\
  (exists m e, SockTimeout b = Fin m e /\ configuredSockTimeout nanos b = nanos m e) /\
  0 <= configuredSockTimeout nanos b /\
  configuredWriteTimeout nanos b = 2 * configuredSockTimeout nanos b /\ configuredWriteTimeout nanos b < 2 ^ 63 /\
  idleTimeout b = Idle b * second /\ 0 < idleTimeout b.
Proof.
  intros Hr. unfold validateServerBudgets. destruct ((Workers b <=? 0) || _) eqn:E1; [done|]. destruct (Z.ltb_spec (maxInt / Threads b) (Workers b)) as [|E2]; [done|].
  destruct (Z.leb_spec (Idle b) 0) as [|E3]; [done|]. destruct (SockTimeout b) as [|neg|m e] eqn:Es; [by rewrite orb_true_r|by rewrite orb_true_r|].
  cbn [float_leb float_gtb]. rewrite orb_false_r. destruct (fin_leb m e 0) eqn:E4; [done|].
  destruct (fin_leb m e maxSockTimeout) eqn:E5; [|done]. cbn [negb]. destruct (Z.ltb_spec ((2 ^ 63 - 1) / second) (Idle b)) as [|E6]; [done|]. intros _.
  to_prop.
  assert (Workers b * Threads b <= maxInt) as Hw.
  { pose proof (Z.mul_div_le maxInt (Threads b) ltac:(lia)). nia. }
  assert (connectionBudget b = Workers b * Threads b) as Hcb by (apply int64_small; unfold maxInt in *; nia).
  assert (Idle b * second < 2 ^ 63) as Hi by (pose proof (Z.mul_div_le (2 ^ 63 - 1) second ltac:(done)); unfold second in *; nia).
  assert (0 <= exactNanos m e <= maxSockTimeout * second) as Hx by (apply exactNanos_bound; [done|done|done]).
  pose proof (Hr m e ltac:(lia)) as Hn.
  assert (maxSockTimeout * second = 4611686018000000000) as Hms by reflexivity.
  assert (exactNanos m e / 2 ^ 52 <= 1024) as Hulp by (apply Z.div_le_upper_bound; lia).
  assert (configuredSockTimeout nanos b = nanos m e) as Hc by (unfold configuredSockTimeout; rewrite Es; apply int64_small; lia).
  assert (configuredWriteTimeout nanos b = 2 * configuredSockTimeout nanos b) as Hwt by (unfold configuredWriteTimeout; apply int64_small; lia).
  assert (idleTimeout b = Idle b * second) as Hit by (apply int64_small; unfold second in *; lia).
  split_and!; [done|nia|lia|by exists m, e|lia|done|lia|done|unfold second in *; lia].
Qed.

Lemma exact_rounds : rounds exactNanos.
Proof. intros m e H. assert (0 <= exactNanos m e / 2 ^ 52) by (apply Z.div_pos; lia). lia. Qed.
Definition defaultBudgets : Budgets := mkBudgets 1 32 30 (Fin 20 0).
Theorem budgets_fit_witness : configuredWriteTimeout exactNanos defaultBudgets = 40 * second /\ 0 < connectionBudget defaultBudgets.
Proof.
  destruct (budgets_fit exactNanos defaultBudgets exact_rounds eq_refl) as (_ & [H _] & _ & _ & Hw & _). split; [|exact H].
  exact Hw.
Defined.

(** A positive timeout below a nanosecond is accepted and becomes 0, which is no timeout. *)
Definition tinyTimeout : Budgets := mkBudgets 1 32 30 (Fin 1 (- 34)).
Example tiny_timeout_is_none : validateServerBudgets tinyTimeout = None /\ configuredSockTimeout exactNanos tinyTimeout = 0.
Proof. by vm_compute. Qed.

(** ** Construction *)

Definition builtOf (effs : list Effect) : list Table := omap (fun e => match e with Built t => Some t | _ => None end) effs.
Definition closedOf (effs : list Effect) : list Table := omap (fun e => match e with Closed t => Some t | _ => None end) effs.


(** ** Listening *)

Definition openedOf (effs : list LEffect) : list string := omap (fun e => match e with Listen h _ (Some _) => Some h | _ => None end) effs.
Definition closedListeners (effs : list LEffect) : list string := omap (fun e => match e with CloseListener h => Some h | _ => None end) effs.

Lemma omap_close l : closedListeners (map CloseListener l) = l /\ openedOf (map CloseListener l) = [].
Proof. unfold closedListeners, openedOf. induction l as [|x l [IH1 IH2]]; [done|]. cbn. by rewrite IH1, IH2. Qed.

Lemma listenAll_spec listen hosts port opened :
  let '(effs, r) := listenAll listen hosts port opened in
  match r with
  | None => opened ++ openedOf effs = closedListeners effs
  | Some (all, port') =>
      all = opened ++ hosts /\ openedOf effs = hosts /\ closedListeners effs = [] /\
      (port <> 0 -> port' = port /\ Forall (fun e => match e with Listen _ p _ => p = port | _ => True end) effs)
  end.
Proof.
  revert port opened. induction hosts as [|host hosts IH]; intros port opened; cbn [listenAll].
  { by rewrite app_nil_r. }
  destruct (listen host port) as [bound|].
  - specialize (IH (if port =? 0 then bound else port) (opened ++ [host])).
    destruct (listenAll _ hosts _ _) as [effs [[all port']|]].
    + destruct IH as (-> & H1 & H2 & H3). split_and!; [by rewrite <- app_assoc|cbn; f_equal; exact H1|exact H2|].
      intros Hp. destruct (Z.eqb_spec port 0); [done|]. destruct (H3 Hp) as [-> Hf]. split; [done|]. by constructor.
    + cbn. fold (openedOf effs) (closedListeners effs). rewrite <- IH. by rewrite <- app_assoc.
  - destruct (omap_close opened) as [E1 E2]. cbn. fold (openedOf (map CloseListener opened)) (closedListeners (map CloseListener opened)).
    by rewrite E1, E2, app_nil_r.
Qed.

(** the server listens on every host of its configuration or on none: when one socket cannot be opened
    those before it are closed; all sockets have one port, the configured one or, for port 0, the one the
    first socket was given. *)
Theorem listens_on_all_or_none listen cfg :
  (forall h p b, listen h p = Some b -> b <> 0 /\ (p <> 0 -> b = p)) ->
  let '(effs, r) := startListening listen cfg in
  match r with
  | None => openedOf effs = closedListeners effs
  | Some (hosts, port) =>
      hosts = Acc.listenHosts (sAccess cfg) /\ openedOf effs = hosts /\ closedListeners effs = [] /\
      (sPort cfg <> 0 -> port = sPort cfg) /\
      Forall (fun e => match e with Listen _ _ (Some b) => b = port | _ => True end) effs
  end.
Proof.
  intros Hl. unfold startListening. set (hosts := Acc.listenHosts (sAccess cfg)).
  pose proof (listenAll_spec listen hosts (sPort cfg) []) as H.
  assert (forall hosts port opened effs all port', listenAll listen hosts port opened = (effs, Some (all, port')) ->
    (port <> 0 -> port' = port) /\ Forall (fun e => match e with Listen _ _ (Some b) => b = port' | _ => True end) effs) as Hports.
  { clear -Hl. induction hosts as [|h hosts IH]; intros port opened effs all port'; cbn [listenAll].
    - intros [= <- <- <-]. done.
    - destruct (listen h port) as [b|] eqn:E; [|done]. destruct (listenAll _ hosts _ _) as [effs' [[all' p']|]] eqn:E'; [|done].
      intros [= <- <- <-]. apply IH in E' as [H1 H2]. destruct (Hl _ _ _ E) as [Hb Hp].
      destruct (Z.eqb_spec port 0) as [->|Hne].
      + split; [done|]. constructor; [by rewrite H1|done].
      + specialize (H1 Hne). subst p'. split; [done|]. constructor; [by apply Hp|done]. }
  destruct (listenAll listen hosts (sPort cfg) []) as [effs [[all port]|]] eqn:E; [|done].
  destruct H as (H1 & H2 & H3 & _). destruct (Hports _ _ _ _ _ _ E) as [Hp Hf]. rewrite H1. split_and!; done.
Qed.

Definition twoHosts : ServerConfig :=
  mkServerConfig "" false "" "" 0 (Acc.mkConfig false false "" "127.0.0.1, ::1" "" "" "") defaultBudgets "" [] (Rt.mkRouteConfig "" "" "" 60).
Theorem listens_on_all_or_none_witness :
  let listen h p := if String.eqb h "::1" then None else Some (if p =? 0 then 49152 else p) in
  openedOf (startListening listen twoHosts).1 = ["127.0.0.1"] /\ closedListeners (startListening listen twoHosts).1 = ["127.0.0.1"].
Proof.
  set (listen h p := if String.eqb h "::1" then None else Some (if p =? 0 then 49152 else p)).
  assert (forall h p b, listen h p = Some b -> b <> 0 /\ (p <> 0 -> b = p)) as Hl.
  { intros h p b. unfold listen. destruct (String.eqb h "::1"); [done|]. intros [= <-]. destruct (Z.eqb_spec p 0); [subst p; split; [done|intros H; done]|done]. }
  pose proof (listens_on_all_or_none listen twoHosts Hl) as H. cbv zeta. split; [reflexivity|].
  assert (startListening listen twoHosts = ([Listen "127.0.0.1" 0 (Some 49152); Listen "::1" 49152 None; CloseListener "127.0.0.1"], None)) as E by reflexivity.
  rewrite E in H |- *. symmetry. exact H.
Defined.

(** ** Start and Shutdown *)

Definition lifeInv (s : Life) : Prop :=
  (exists rest, done_ s ++ rest = parts) /\
  (captured s = None <-> ReadServer ∉ done_ s) /\
  (captured s = Some true -> phase s <> Opened) /\
  (stopped s = true <-> captured s = Some true /\ StopServer ∈ done_ s) /\
  (phase s = Returned -> open s = 0%nat).

Lemma parts_cut l p rest : l ++ p :: rest = parts ->
  (p = ReadServer -> l = [Fence; BeginTunnels]) /\ (p = StopServer -> l = [Fence; BeginTunnels; ReadServer]) /\ p ∉ l.
Proof.
  intros H. assert (l = take (length l) parts) as El by (by rewrite <- H, take_app_length).
  assert (parts !! length l = Some p) as Ep by (by rewrite <- H, list_lookup_middle).
  revert El Ep. generalize (length l). intros n -> Ep. clear H.
  do 11 (destruct n as [|n]; [cbn in Ep; injection Ep as <-; split; [done|split; [done|cbn; set_solver]]|]). done.
Qed.

Lemma lifeInv_step s s' : LifeStep s s' -> lifeInv s -> lifeInv s'.
Proof.
  intros Hstep ((rest0 & Hd) & Hc & Hp & Hs & Hr). destruct Hstep; unfold lifeInv; cbn [phase open done_ captured stopped].
  - split; [by exists rest0|]. split; [done|]. split; [done|]. by split.
  - split; [by exists rest0|]. split; [done|]. split; [done|]. split; [|done]. by rewrite H0 in Hs.
  - split; [by exists rest0|]. split; [done|]. split; [done|]. by split.
  - destruct (parts_cut _ _ _ H) as (Hread & Hstop & Hni).
    assert (exists r, (done_ s ++ [p]) ++ r = parts) as Hrest by (exists rest; by rewrite <- app_assoc).
    destruct (decide (p = ReadServer)) as [->|Hnr]; [|destruct (decide (p = StopServer)) as [->|Hns]].
    + specialize (Hread eq_refl). cbn [doPart phase open done_ captured stopped]. split; [done|]. split; [split; [done|set_solver]|].
      split; [by destruct (phase s)|]. split; [|done]. rewrite Hs, Hread. split; [intros [_ Hin]; exfalso; revert Hin; set_solver|intros [_ Hin]; exfalso; revert Hin; set_solver].
    + specialize (Hstop eq_refl). cbn [doPart phase open done_ captured stopped].
      destruct (captured s) as [[|]|] eqn:Ec; cbn [phase open done_ captured stopped]; rewrite ?Ec.
      * split; [done|]. split; [split; [done|set_solver]|]. split; [done|]. split; [|done]. split; [intros _; split; [done|set_solver]|done].
      * split; [done|]. split; [split; [done|set_solver]|]. split; [done|]. split; [|done]. rewrite Hs. split; [by intros [? _]|by intros [? _]].
      * exfalso. apply Hc; [done|]. rewrite Hstop. set_solver.
    + assert (doPart p s = mkLife (phase s) (open s) (done_ s ++ [p]) (captured s) (stopped s)) as -> by (by destruct p).
      cbn [phase open done_ captured stopped]. split; [done|]. split; [rewrite Hc; set_solver|]. split; [done|]. split; [|done]. rewrite Hs. set_solver.
Qed.

Lemma lifeInv_born n : lifeInv (born n).
Proof. unfold lifeInv, born; cbn. split; [by exists parts|]. split; [split; [set_solver|done]|]. split; [done|]. split; [by split; [|intros [? _]]|done]. Qed.

Lemma lifeInv_reachable n s : rtc LifeStep (born n) s -> lifeInv s.
Proof.
  intros H. assert (forall a b, rtc LifeStep a b -> lifeInv a -> lifeInv b) as Hi by (induction 1; eauto using lifeInv_step).
  by eapply Hi, lifeInv_born.
Qed.

(** The sockets of a server that was shut down close, and [Start] returns. *)
Lemma stopped_returns s : stopped s = true -> phase s = Serving -> exists s', rtc LifeStep s s' /\ phase s' = Returned /\ open s' = 0%nat.
Proof.
  destruct s as [ph n d c st]; cbn [phase open stopped]. intros -> ->. induction n as [|n IH].
  - eexists. split; [apply rtc_once, life_return; done|done].
  - destruct IH as (s' & Hr & Hp). exists s'. split; [|done]. eapply rtc_l; [by apply (life_serve_ends (mkLife Serving (S n) d c true) n)|done].
Qed.


(** A [Shutdown] before the server is published: the server is served for good, with no
    housekeeping, and no second [Shutdown] runs. *)
Definition tooEarly : Life := mkLife Serving 1 parts (Some false) false.
Lemma tooEarly_reachable : rtc LifeStep (born 1) tooEarly.
Proof.
  assert (forall d rest s, done_ s = d -> phase s = Opened -> captured s = Some false -> stopped s = false -> d ++ rest = parts -> ReadServer ∉ rest ->
    rtc LifeStep s (mkLife Opened (open s) parts (Some false) false)) as Hrun.
  { intros d rest. revert d. induction rest as [|p rest IH]; intros d s Hd Hp Hc Hst Hparts Hin.
    - rewrite app_nil_r in Hparts. destruct s; cbn in *. subst. constructor.
    - eapply rtc_l; [apply (life_shutdown s p rest); by rewrite Hd|].
      assert (open s = open (doPart p s)) as -> by (destruct p; cbn; try done; by rewrite Hc).
      apply (IH (d ++ [p])); [|by destruct p; cbn; rewrite ?Hc| | |by rewrite <- app_assoc|set_solver].
      + destruct p; cbn; rewrite ?Hc; by rewrite Hd.
      + destruct p; cbn; rewrite ?Hc; try done. exfalso. apply Hin. by left.
      + destruct p; cbn; rewrite ?Hc; done. }
  etransitivity.
  - eapply rtc_l; [apply (life_shutdown (born 1) Fence _ eq_refl)|].
    eapply rtc_l; [eapply (life_shutdown _ BeginTunnels); reflexivity|].
    eapply rtc_l; [eapply (life_shutdown _ ReadServer); reflexivity|].
    eapply (Hrun _ (drop 3 parts)); [reflexivity..|]. cbn. set_solver.
  - apply rtc_once. by apply (life_publish (mkLife Opened 1 parts (Some false) false)).
Qed.


End Sv.
